(* ===== verification/_CoqProject ===== *)
-Q . S2P
Prelude.v
Constants.v
Types.v
Amount.v
Emission.v
Difficulty.v
FeeMarket.v
Security.v
Ledger.v
ForkCalc.v
RollingFinality.v
ForkChoice.v
Swap.v
Utxo.v
Breakers.v
ForkSignal.v
Mempool.v
TxValidation.v
BlockValidation.v
ActiveChain.v
Miner.v
Wallet.v
Sync.v
SyncInv.v
FrostSession.v
FrostCoord.v
SwapHandshake.v
Node.v
NodeInv.v
NodeReach.v
NodeSafety.v
Phase2.v
Phase2Inv.v
Phase2Pool.v
Phase2Chain.v
Spark.v
SparkBatch.v
SparkChain.v
