(* ===== verification/Prelude.v ===== *)
(** * CoinCync: a verification library for the node

    CoinCync (src/) is a proof-of-work privacy currency written in Rust.  This library
    models the parts of the node that decide what the ledger is: how much is emitted,
    how hard a block is, which blocks and transactions are valid, which branch wins, what
    a reorganisation undoes, and when it is refused; the block builder, the wallet's
    balance and the block synchronisation that live on that ledger; the atomic-swap
    protocol between CYNC and Bitcoin with its handshake; and the coordinator of threshold
    signing sessions (FROST).

    ** The parts and the files that model them

    - [Prelude] (this file): machine integers, results, byte strings, the [iter] loop
      combinator with its total- and partial-correctness rules, tactics and the hint
      database [mach].
    - [Constants]: the constants of src/src/constants.rs the models read.
    - [Types]: src/src/primitives/block.rs and transaction.rs, blocks, headers and
      transactions with the bytes the header hash commits to.
    - [Amount]: src/src/primitives/amount.rs, amounts in atomic units, their checked and
      saturating arithmetic, decimal formatting and parsing.
    - [Emission]: src/src/emission; module [Curve] is curve.rs (the reward from the
      supply, the supply estimate with its adaptive step, the phases), module [Supply]
      is supply.rs (the cumulative emission).
    - [Difficulty]: src/src/consensus/difficulty.rs, the ASERT retarget in 16-bit fixed
      point, its clamps and the emergency drop.
    - [FeeMarket]: src/src/consensus/fee_market.rs, fees, congestion, the miner/burn
      split and the fee reservoir.
    - [Security]: src/src/security, alerts, reports and dispositions, the [SecurityDetail]
      trait as a class with its instances, the incident log, and the supply detail.
    - [Ledger]: the statistics of src/src/chain.rs over connect, disconnect and rollback,
      as a step relation on (statistics, active chain).
    - [ForkCalc]: src/src/chain/fork_calc.rs over the two-level block store (cache and
      database) of src/src/chain/queries.rs.
    - [RollingFinality]: src/crates/coincync-rolling-finality (modules [ActiveSet],
      [Codec], [Tracker]) and its adapter src/src/consensus/rolling_finality.rs
      ([Adapter]).
    - [ForkChoice]: src/src/consensus/finality.rs and the fork-evaluation path of
      [add_block] in src/src/chain.rs, on top of [ForkCalc] and [RollingFinality].
    - [Swap]: src/crates/coincync-swap/src/protocol.rs with the capabilities of safety.rs,
      and the two parties together with the two on-chain outputs.
    - [Utxo]: src/src/storage/utxos.rs, the output set, its indexes, the batches of a
      block and the set's security detail.
    - [Breakers]: the circuit breakers and the fuse box, the per-surface monitors and the
      operator's controls.
    - [ForkSignal]: src/src/consensus/fork_signal.rs, version-bit deployments.
    - [Mempool]: src/src/mempool.rs, admission with replace-by-fee and the planned
      eviction, the removals, the block template, the admission against a chain that
      moves, and the pool's security detail.
    - [TxValidation] and [BlockValidation]: src/src/consensus/validation.rs, the checks of
      a spend and of a coinbase in their order, and of a header and a block with the
      errors they collect.
    - [ActiveChain]: the connection of a validated block in src/src/chain.rs, which
      composes [BlockValidation], [Utxo] and [Ledger] into a step relation.
    - [Miner]: the block template and the candidate block of src/src/mining, with the
      nonce ranges of the workers.
    - [Wallet]: src/src/wallet, the balance with its reservations and key-image index, the
      scanner's journal and rewind, the scan loop and the recovery after a reorganisation.
    - [Sync] and [SyncInv]: src/src/network/sync.rs, the state and operations of
      [ChainSync] (heights, claimed work, header requests, downloads, orphans) and their
      invariants.
    - [FrostSession]: session.rs, invitations.rs and error.rs of
      src/crates/coincync-frost-coordinator, the session machine, identifiers in
      hexadecimal and invitation tokens.
    - [FrostCoord]: persistence.rs, bin/coord.rs and bin/coord_cli.rs of the same crate, the
      store down to its system calls with faults and crashes, the server's requests, its
      restart and the operator's commands.
    - [SwapHandshake]: src/crates/coincync-swap/src/coordinator.rs, the session machines of
      the two parties, the framed transport and the drivers, composed over byte streams.
    - [Node]: the chain of the node end to end: [add_block] of src/src/chain.rs with
      chain/apply.rs (a block at the tip, on a side branch, or adopted with its branch in a
      reorganisation, with the two ways back and the commits of src/src/db), the rollback,
      the genesis block and the load of chain/recovery.rs with its replay.
    - [NodeInv]: chains of linked blocks, and the phases of a reorganisation over them.
    - [NodeReach]: the invariant of the node's state, kept by every operation.
    - [NodeSafety]: the reachable states, crashes between two writes included, and what
      holds in all of them, with sample runs.

    - [Phase2]: the four stores that follow the chain through reorganisations (kernels.rs,
      spark.rs, shielded.rs and spark_pool.rs of src/src/storage) with their column
      families, the trait and drivers of phase2.rs, the methods of src/src/chain.rs that
      call them, and the guard of pool_security.rs.
    - [Phase2Inv] and [Phase2Pool]: an abstract journal - the contents and a bounded list of
      snapshots - and the refinement of each store to it (class [Journaled]).
    - [Phase2Chain]: the stores together over blocks, reorganisations and restarts.
    - [Spark]: shielded transactions: the payloads of src/src/consensus/spark_payload.rs and
      shielded.rs, the connector src/crates/spark-connector with its C++ shim, the gates of
      a block and its application to the stores in src/src/chain.rs, and the rebuilding of
      the pool in chain/recovery.rs.  The Spark engine is the class [Libspark].
    - [SparkBatch]: the batched verification against the one of each payload (class
      [BatchSpec], which each backend discharges), and the wire forms.
    - [SparkChain]: what a block does to the contents of the pool as a specification, its
      refinement, and the node's pool over blocks, crashes and restarts.

    How they interact: connecting a block adds its outputs ([Utxo]) and moves the totals
    ([Ledger]), which read the reward ([Emission]), the work of the target
    ([Difficulty]) and the burned fees ([FeeMarket]).  A fork block is judged by
    [ForkChoice], which computes its work and fork point ([ForkCalc]) and asks the
    finality tracker ([RollingFinality]).  A connected block is also taken out of the
    [Mempool].  The supply, UTXO and mempool details report to [Security].
    [ActiveChain] admits only what [BlockValidation] accepts, which runs [TxValidation]
    against the [Utxo] set; [Miner] builds what [BlockValidation] will be asked about;
    [Sync] decides which blocks reach the chain, and [Wallet] follows it.  [Node] composes
    [BlockValidation], [Utxo], [Ledger], [ForkCalc] and [ForkChoice] the way [add_block]
    does, with the in-memory cache and the database behind it.  [SparkChain] shows that a
    block which passed the gates of [Spark] is a sequence of the writes of [Phase2Chain],
    whose theorems then hold of it.

    ** Conventions

    A w-bit integer is a [Z] with its width's maximum given where it matters.  The
    release profile does not check overflow, so [+], [-] and [*] of the source wrap and
    are written with [wrap]; [checked_] and [saturating_] methods are the functions of
    the same name.  A panic is [None] of an option, an [Err] of the source is [Err] of
    [result].  Hashes, key images and addresses are numbers (big-endian, so that the
    byte order is the numeric order) or byte lists where bytes matter.  HashMap,
    BTreeMap and the sets are stdpp's finite maps and sets.  Borsh and the signature
    verifier, which are libraries, are classes with their documented laws; the supply
    commitment hash is a parameter.

    ** What the theorems show

    - Supply: the estimate's loop ends within its fuel and its reward is monotone in the
      height; the cumulative emission is the sum of the per-block rewards; in every
      reachable chain state the recorded supply is that sum, the burned total and the
      work are the sums over the active chain, no counter panics, and a rollback is the
      inverse of the connections.
    - Difficulty: each retarget stays within its clamps and below the floor difficulty's
      target, ASERT is monotone in the elapsed time and doubles the target per half-life;
      a shift that loses high bits is shown as it is.
    - Fees: the split and the reservoir conserve every atomic unit.
    - Forks: the fork point, the fork's blocks, its work and its difficulty window are
      those of its lineage; the work agrees with the recomputed total of the main chain;
      fork choice is a strict total order; the reorganisation policy is characterised on
      every branch, and an accepted reorganisation passes all of its gates.
    - Finality: a finalised height has a two-thirds quorum of verified attestations,
      finality is never walked back, rejected attestations change nothing, memory is
      bounded, the codec is a bijection; a miner older than the window is refused.
    - UTXO set: connect and disconnect of blocks with new output keys are inverse, and the
      set depends only on the surviving chain, not on the reorganisations that led to it;
      eviction of the
      in-memory output index is shown to break this.
    - Swap: atomicity and settlement of every interleaving of the two parties, the
      timeout rule, and the answer of [legal_transitions].  The two chains are an
      environment, not code of the crate: what an event of a party says happened on a chain
      is assumed to have happened there, once, and to be final.
    - Mempool: in every reachable pool the size counter and the key-image set are exact
      and no two transactions spend the same image; a refused admission changes nothing
      (the eviction loop carries out exactly what was planned); an accepted one displaces
      only lower bids; what a block leaves behind; the template is greedy within its
      limits; an admission is against one state of the chain.
    - Validation: a block, and a spend, is accepted exactly when it meets a declarative
      specification; the errors collected explain every refusal; the header hash commits
      to the header; what a coinbase mints is the reward and the miner's share of the fees.
    - Active chain: in every reachable chain no key image is spent twice, the set and the
      totals are those of the blocks on it, ring members lie on the chain, and a block that
      was validated can be rolled back.
    - Breakers: the breaker's state is a function of the history of observations; which
      surfaces refuse what; how a veto is lifted and how alternating claims hold one.
    - Fork signalling: a window locks in exactly at its threshold, and each deployment
      only moves forward.
    - Mining: a built block passes the validator exactly when the stated conditions hold;
      every nonce of a range is searched once.
    - Wallet: recovery after a reorganisation restores exactly the balance of the surviving
      chain, the key-image index is never wrong and finds every unspent output whose key
      image is its own, a reserved output is never chosen twice.
    - Synchronisation: the five books of the downloads agree in every reachable state, the
      target is the largest credible claim, a header response is matched to its request, a
      delivered block delivers its whole orphan branch, and a failed peer's blocks are
      requested again.
    - FROST sessions: every operation keeps a session sound and what it holds only grows;
      which event is accepted in which phase; a quorum that acts in time completes; only
      invited keys attach; a save is atomic under faults and crashes, and durable once it
      returns unless the sync of the directory failed; an accepted request survives a
      restart; where expiry is silent and an operator's abort is lost.
    - Swap handshake: whatever part of the streams was delivered, a driver that reports
      success agrees with the other on the swap, the parameters and the keys; a full
      delivery completes; Bob's driver does not look at the timeouts.
    - Node: in every state that is reached by adding blocks, reorganising, rolling back,
      restarting and crashing, the node is on one chain of linked, validated blocks, and
      its tip, indexes, output set, key images and totals are those of the chain, the
      in-memory output index for the last thousand blocks; adding a block ends and each
      result is characterised; a refused block, also one in the middle of a
      reorganisation, changes of these only the stored bodies; a restart restores the
      state.  This is under two conditions that the code does not check, and findings show
      what happens without them: the output keys in the lineage of a block are distinct,
      and a block off the tip comes while the tip is at most 56 blocks below its highest
      since the start.  Further: a rollback is exact; where a crash or a restart strands
      blocks, and where a reorganisation drops a live row of the on-disk index.
    - Phase-2 stores: each store implements the abstract journal, so that rewinding blocks
      gives back exactly what memory and disk held before them; the checkpoint stacks stay
      in lock-step and the roots are those of the contents; a restart replays every store;
      the sweep after a block above the tip never halts the node, and at any height
      exactly when no coin is dated above it; the cover set of an anchored spend is a
      fixed slice of its group.  These states exclude a reorganisation below a restart,
      where the rewind does nothing, and database writes that fail.  A refused
      reorganisation loses the state of the blocks it restores.
    - Shielded transactions: the batched verification accepts exactly the blocks whose
      spends are accepted one by one, carry one tag each and agree on the embedded cover-set
      id; a block above the tip that passed the gates never halts the node and
      does to the pool what the specification says; a version-2 payload balances: the group
      equation of its bridge holds, value enters the pool only as the proven total of a mint,
      and leaves it only as the fee that a spend proof is bound to; the pool that is rebuilt
      after a stop or a crash is the one of the blocks of the chain, reorganisations
      included; a reorganisation that reaches below a restart halts the node.
    - Amounts and security: formatting and parsing round trip; a sweep is refused exactly
      when a consensus-critical alert was raised; the incident log keeps the end of the
      history with exact counters.

    ** Fuel and bounds

    Loops are [iter] with a fuel that a lemma shows is enough: 1001 steps for the supply
    estimate (at most a thousand steps by the choice of the step), the tip height plus
    one for the cumulative emission, the number of stored blocks plus two for the walks
    with a visited set, the step limit of the code for the fork's work, 101 steps for
    the eviction loop (a hundred evictions and the last test), the packed transactions
    plus one for the template's trim loop, the pool size plus one for the orphan eviction,
    plus two for the orphan walk, and the tip height plus one for the block locator.

    ** What is not modelled

    Cryptography (curve arithmetic, ring signatures, range proofs, RandomX, hashing) and
    the database are parameters of the definitions that use them.  The transport layer and
    peer tasks of the network, the stratum server, RPC, the wallet's keys and transaction
    construction, the proofs of the older shielded payload, f64 estimates and file I/O are
    outside.  Of the network only the synchronisation, of the swaps the protocol and its
    handshake, and of the connector the verifying half are modelled.  [Node] is a
    [Blockchain] whose Phase-2 store fields are [None], as the constructors leave them, so
    that the shielded double-spend gate and the checkpoint, apply and rewind calls of
    [add_block] do nothing; src/src/bin/node.rs attaches the kernel, coin and shielded stores
    in every build, and what the gates and the stores then do is [Spark], [Phase2Chain] and
    [SparkChain].  The two are not composed into one state.  Caches, peer scoring and
    eviction, rate limiters and the persistence of swaps do not decide what the ledger is
    and are left out. *)

From Stdlib Require Export ZArith Lia Bool.
From stdpp Require Export base list option numbers.

#[global] Open Scope Z_scope.

(** ** Machine integers

    A w-bit integer of the source is a [Z]; its maximum names its width.  The
    release profile of the repository does not enable overflow checks, so plain
    [+], [-] and [*] wrap: they are written with [wrap], while the [checked_] and
    [saturating_] methods of the standard library are the functions below. *)

Abbreviation u8_max := 255 (only parsing).
Abbreviation u32_max := 4294967295 (only parsing).
Abbreviation u64_max := 18446744073709551615 (only parsing).
Abbreviation u128_max := 340282366920938463463374607431768211455 (only parsing).
Abbreviation i32_max := 2147483647 (only parsing).
Abbreviation i32_min := (-2147483648) (only parsing).
Abbreviation i64_max := 9223372036854775807 (only parsing).
Abbreviation i64_min := (-9223372036854775808) (only parsing).
Abbreviation i128_max := 170141183460469231731687303715884105727 (only parsing).
Abbreviation i128_min := (-170141183460469231731687303715884105728) (only parsing).

(** [fits m x]: [x] is a value of the unsigned type whose maximum is [m]. *)
Definition fits (m x : Z) : Prop := 0 <= x <= m.

Definition fitsb (m x : Z) : bool := (0 <=? x) && (x <=? m).

Definition wrap (m x : Z) : Z := x mod (m + 1).

Definition checked_add (m a b : Z) : option Z :=
  if a + b <=? m then Some (a + b) else None.

Definition checked_sub (a b : Z) : option Z :=
  if b <=? a then Some (a - b) else None.

Definition checked_mul (m a b : Z) : option Z :=
  if a * b <=? m then Some (a * b) else None.

Definition saturating_add (m a b : Z) : Z := Z.min m (a + b).

Definition saturating_sub (a b : Z) : Z := Z.max 0 (a - b).

Definition saturating_mul (m a b : Z) : Z := Z.min m (a * b).

(** [x.clamp(lo, hi)] of the standard library, for [lo <= hi]. *)
Definition clamp (lo hi x : Z) : Z := Z.max lo (Z.min hi x).

Create HintDb mach.
#[export] Hint Unfold fits wrap saturating_add saturating_sub saturating_mul clamp : mach.

(** ** Results *)

Inductive result (E A : Type) : Type :=
| Ok (a : A)
| Err (e : E).
Arguments Ok {E A} a.
Arguments Err {E A} e.

Definition rbind {E A B} (r : result E A) (k : A -> result E B) : result E B :=
  match r with Ok a => k a | Err e => Err e end.

Definition rmap {E A B} (f : A -> B) (r : result E A) : result E B :=
  match r with Ok a => Ok (f a) | Err e => Err e end.

(** [o.ok_or(e)] *)
Definition ok_or {E A} (o : option A) (e : E) : result E A :=
  match o with Some a => Ok a | None => Err e end.

Definition is_ok {E A} (r : result E A) : bool :=
  match r with Ok _ => true | Err _ => false end.

Declare Scope result_scope.
Delimit Scope result_scope with result.
Notation "'let?' x := r 'in' k" := (rbind r (fun x => k))
  (at level 10, x pattern, r at level 100, k at level 200) : result_scope.
#[global] Open Scope result_scope.

(** ** Tactics *)

(** Case analysis on every boolean comparison of [Z] in the goal or in a
    hypothesis, leaving the propositions. *)
Ltac zcases_step :=
  match goal with
  | |- context [?a <=? ?b] => destruct (Z.leb_spec a b)
  | |- context [?a <? ?b] => destruct (Z.ltb_spec a b)
  | |- context [?a =? ?b] => destruct (Z.eqb_spec a b)
  | H : context [?a <=? ?b] |- _ => destruct (Z.leb_spec a b)
  | H : context [?a <? ?b] |- _ => destruct (Z.ltb_spec a b)
  | H : context [?a =? ?b] |- _ => destruct (Z.eqb_spec a b)
  end.
Ltac zcases := repeat (zcases_step; cbn [andb orb negb] in *; try lia; try congruence).

Ltac mach := autounfold with mach in *; try lia.

(** Invert equations between [Some], [Ok], [Err] and pairs. *)
Ltac inv_res :=
  repeat match goal with
  | H : Ok _ = Ok _ |- _ => injection H as H
  | H : Err _ = Err _ |- _ => injection H as H
  | H : Some _ = Some _ |- _ => injection H as H
  | H : Ok _ = Err _ |- _ => discriminate H
  | H : Err _ = Ok _ |- _ => discriminate H
  | H : Some _ = None |- _ => discriminate H
  | H : None = Some _ |- _ => discriminate H
  end.

(** ** Facts on machine integers *)

Lemma wrap_small m x : fits m x -> wrap m x = x.
Proof. unfold fits, wrap. intros H. apply Z.mod_small. lia. Qed.

Lemma wrap_fits m x : 0 <= m -> fits m (wrap m x).
Proof.
  unfold fits, wrap. intros H.
  pose proof (Z.mod_pos_bound x (m + 1) ltac:(lia)). lia.
Qed.

Lemma fitsb_spec m x : fitsb m x = true <-> fits m x.
Proof. unfold fitsb, fits. rewrite andb_true_iff, !Z.leb_le. tauto. Qed.

Lemma checked_add_Some m a b : a + b <= m -> checked_add m a b = Some (a + b).
Proof. intros. unfold checked_add. zcases. Qed.

Lemma checked_add_inv m a b c : checked_add m a b = Some c -> c = a + b /\ c <= m.
Proof. unfold checked_add. destruct (Z.leb_spec (a + b) m); intros; inv_res; lia. Qed.

Lemma checked_sub_Some a b : b <= a -> checked_sub a b = Some (a - b).
Proof. intros. unfold checked_sub. zcases. Qed.

Lemma saturating_add_fits m a b : fits m a -> fits m b -> fits m (saturating_add m a b).
Proof. mach. Qed.

Lemma saturating_sub_fits m a b : fits m a -> fits m b -> fits m (saturating_sub a b).
Proof. mach. Qed.

Lemma saturating_mul_fits m a b : 0 <= m -> 0 <= a -> 0 <= b -> fits m (saturating_mul m a b).
Proof. mach. Qed.

Lemma clamp_between lo hi x : lo <= hi -> lo <= clamp lo hi x <= hi.
Proof. mach. Qed.

#[export] Hint Resolve wrap_fits saturating_add_fits saturating_sub_fits
  saturating_mul_fits clamp_between : mach.

(** ** Division *)

Lemma div_le_self a b : 0 <= a -> 1 <= b -> a / b <= a.
Proof. intros. apply Z.div_le_upper_bound; nia. Qed.

Lemma div_antitone a a' b : 0 < b -> a <= a' -> a / b <= a' / b.
Proof. intros. apply Z.div_le_mono; lia. Qed.

(** ** Lists *)

Lemma rev_lookup_Some {A} (l : list A) i x :
  rev l !! i = Some x <-> l !! (length l - S i)%nat = Some x /\ (i < length l)%nat.
Proof. rewrite rev_alt. apply reverse_lookup_Some. Qed.

Lemma fold_left_ext {A B} (f g : A -> B -> A) l a :
  (forall a b, f a b = g a b) -> fold_left f l a = fold_left g l a.
Proof. intros H. revert a. induction l as [|b l IH]; intros a; simpl; [done|]. by rewrite H, IH. Qed.

(** ** Bytes

    A byte string is a list of [Z] below 256; [u64] and [u128] values are written
    with [be_bytes] ([to_be_bytes]) and read with [be_value] ([from_be_bytes]). *)

Definition be_value (bs : list Z) : Z := fold_left (fun a b => 256 * a + b) bs 0.

Fixpoint be_bytes (n : nat) (v : Z) : list Z :=
  match n with
  | O => []
  | S n' => be_bytes n' (v / 256) ++ [v mod 256]
  end.

Abbreviation is_bytes := (Forall (fun b => 0 <= b <= 255)).

Lemma length_be_bytes n v : length (be_bytes n v) = n.
Proof. revert v. induction n as [|n IH]; intros; simpl; [done|]. rewrite length_app, IH. simpl. lia. Qed.

Lemma be_value_snoc bs b : be_value (bs ++ [b]) = 256 * be_value bs + b.
Proof. unfold be_value. by rewrite fold_left_app. Qed.

Lemma be_value_be_bytes n v : 0 <= v < 256 ^ Z.of_nat n -> be_value (be_bytes n v) = v.
Proof.
  revert v. induction n as [|n IH]; intros v Hv; [simpl in *; unfold be_value; simpl; lia|].
  rewrite Nat2Z.inj_succ, Z.pow_succ_r in Hv by lia.
  cbn [be_bytes]. rewrite be_value_snoc, IH.
  - pose proof (Z.div_mod v 256). lia.
  - split; [apply Z.div_pos; lia | apply Z.div_lt_upper_bound; lia].
Qed.

Lemma be_bytes_inj n a b : fits (256 ^ Z.of_nat n - 1) a -> fits (256 ^ Z.of_nat n - 1) b ->
  be_bytes n a = be_bytes n b -> a = b.
Proof.
  unfold fits. intros Ha Hb E. rewrite <- (be_value_be_bytes n a), <- (be_value_be_bytes n b), E by lia. done.
Qed.

Lemma be_bytes_bytes n v : is_bytes (be_bytes n v).
Proof.
  revert v. induction n as [|n IH]; intros; simpl; [constructor|].
  apply Forall_app. split; [apply IH|]. repeat constructor;
  pose proof (Z.mod_pos_bound v 256 ltac:(lia)); lia.
Qed.

Lemma be_value_bounds bs : is_bytes bs -> 0 <= be_value bs < 256 ^ Z.of_nat (length bs).
Proof.
  induction bs as [|b bs IH] using rev_ind; intros H; [unfold be_value; simpl; lia|].
  apply Forall_app in H as [H1 H2]. inversion H2; subst.
  rewrite be_value_snoc, length_app, Nat2Z.inj_add. specialize (IH H1).
  rewrite Z.pow_add_r by lia. simpl (256 ^ Z.of_nat (length [b])).
  change (256 ^ Z.of_nat (length [b])) with 256. lia.
Qed.

(** ** Iteration with fuel *)

Section Iter.
Context {S A : Type} (step : S -> S + A).

(** A loop of the source: [step] either continues with a state or exits. *)
Fixpoint iter (fuel : nat) (s : S) : option A :=
  match fuel with
  | O => None
  | Datatypes.S fuel' =>
      match step s with
      | inl s' => iter fuel' s'
      | inr a => Some a
      end
  end.

Lemma iter_mono fuel fuel' s a :
  (fuel <= fuel')%nat -> iter fuel s = Some a -> iter fuel' s = Some a.
Proof.
  revert fuel' s. induction fuel as [|fuel IH]; intros [|fuel'] s Hle; simpl; try done; try lia.
  destruct (step s); [apply IH; lia | done].
Qed.

(** Enough fuel: a measure that every continuing step decreases. *)
Lemma iter_total (m : S -> nat) (I : S -> Prop) :
  (forall s s', I s -> step s = inl s' -> I s' /\ (m s' < m s)%nat) ->
  forall fuel s, I s -> (m s < fuel)%nat -> exists a, iter fuel s = Some a.
Proof.
  intros Hdec fuel. induction fuel as [|fuel IH]; intros s HI Hm; [lia|].
  simpl. destruct (step s) as [s'|a] eqn:E; [|eauto].
  destruct (Hdec s s' HI E) as [HI' Hlt]. apply IH; [done|lia].
Qed.

(** Partial correctness: an invariant that the exit step turns into a postcondition. *)
Lemma iter_inv (I : S -> Prop) (Q : A -> Prop) :
  (forall s s', I s -> step s = inl s' -> I s') ->
  (forall s a, I s -> step s = inr a -> Q a) ->
  forall fuel s a, I s -> iter fuel s = Some a -> Q a.
Proof.
  intros Hs He fuel. induction fuel as [|fuel IH]; intros s a HI; simpl; [done|].
  destruct (step s) as [s'|a'] eqn:E; intros; inv_res; subst; eauto.
Qed.
End Iter.
