(* ===== verification/Constants.v ===== *)
(** * Protocol constants (src/src/constants.rs)

    The constants of the modelled components, with the names and the values of
    the source, grouped as there. *)

From S2P Require Import Prelude.

(** Block time and difficulty adjustment. *)
Definition TARGET_BLOCK_TIME : Z := 120.
Definition ASERT_HALFLIFE : Z := 3600.
Definition DIFFICULTY_SHORT_WINDOW : Z := 8.
Definition DIFFICULTY_LONG_WINDOW : Z := 144.
Definition DIFFICULTY_SHORT_WEIGHT : Z := 70.
Definition DIFFICULTY_LONG_WEIGHT : Z := 30.
Definition DIFFICULTY_WEIGHT_SCALE : Z := 100.
Definition EMERGENCY_DIFFICULTY_BLOCKS : Z := 12.
Definition EMERGENCY_TIME_MULTIPLIER : Z := 10.
Definition EMERGENCY_DROP_FACTOR : Z := 4.
Definition MAX_DIFFICULTY_ADJ_NUM : Z := 2.
Definition MAX_DIFFICULTY_ADJ_DEN : Z := 1.
Definition MIN_DIFFICULTY_ADJ_NUM : Z := 1.
Definition MIN_DIFFICULTY_ADJ_DEN : Z := 2.

(** Monetary units. *)
Definition COIN : Z := 1000000000000.
Definition MAX_SUPPLY : Z := 100000000 * COIN.
Definition ATOMIC_UNITS : Z := 1000000000000.
Definition MILLICYNC : Z := 1000000000.
Definition MICROCYNC : Z := 1000000.
Definition NANOCYNC : Z := 1000.

(** Emission. *)
Definition TAIL_EMISSION : Z := 600000000000.
Definition TOTAL_SUPPLY_TARGET : Z := 100000000.
Definition EMISSION_DIVISOR : Z := 2000000.

(** Block size and fees. *)
Definition MAX_BLOCK_SIZE : Z := 2 * 1024 * 1024.
Definition MIN_FEE_PER_BYTE : Z := 1000.
Definition FEE_MINER_NORMAL_PERCENT : Z := 70.
Definition FEE_BURN_NORMAL_PERCENT : Z := 30.
Definition FEE_MINER_CONGESTED_PERCENT : Z := 50.
Definition FEE_BURN_CONGESTED_PERCENT : Z := 50.
Definition CONGESTION_THRESHOLD : Z := 80.

(** Limits of the validator. *)
Definition MAX_TXS_PER_BLOCK : Z := 5000.
Definition MIN_TX_SIZE : Z := 100.
Definition MAX_TX_SIZE : Z := 500000.
Definition MAX_TX_INPUTS : Z := 256.
Definition MAX_TX_OUTPUTS : Z := 16.
Definition MIN_OUTPUT_AMOUNT : Z := 1000000.
Definition MAX_OUTPUT_MEMO_SIZE : Z := 256.
Definition BOOTSTRAP_MIN_RING_SIZE : Z := 11.
Definition DEFAULT_RING_SIZE : Z := 16.
Definition MAX_RING_SIZE : Z := 32.
Definition MAX_TIMESTAMP_DRIFT : Z := 600.
Definition MAX_BLOCK_VERSION : Z := 2.
Definition STANDARD_INPUT_COUNT : Z := 2.
Definition STANDARD_OUTPUT_COUNT : Z := 2.

(** Activation heights. *)
Definition HARD_FORK_V1_0_12_HEIGHT : Z := 13000.
Definition V2_TX_ACTIVATION_HEIGHT : Z := 50000.
Definition BULLETPROOFS_PLUS_HEIGHT : Z := 0.
Definition UNIFORM_TX_SHAPE_HEIGHT : Z := BULLETPROOFS_PLUS_HEIGHT.
Definition MIN_OUTPUT_AGE : Z := 10.
Definition MIN_OUTPUT_AGE_POST_FORK : Z := 100.
Definition SHIELDED_TX_ACTIVATION_HEIGHT : Z := 18446744073709551615.
Definition SHIELDED_TESTNET_ACTIVATION_HEIGHT : Z := 29000.
Definition SHIELDED_REGTEST_ACTIVATION_HEIGHT : Z := 100.
Definition SHIELDED_BETA_ACTIVATION_HEIGHT : Z := 5.

(** Fork signalling. *)
Definition SIGNAL_WINDOW : Z := 2016.
Definition SIGNAL_THRESHOLD : Z := 1814.

(** Network magic bytes, big-endian. *)
Definition MAINNET_MAGIC : Z := 1129926211.
Definition TESTNET_MAGIC : Z := 1950570830.
Definition REGTEST_MAGIC : Z := 1917016398.
Definition BETA_MAGIC : Z := 1648580942.

#[export] Hint Unfold MAX_TXS_PER_BLOCK MIN_TX_SIZE MAX_TX_SIZE MAX_TX_INPUTS MAX_TX_OUTPUTS
  MIN_OUTPUT_AMOUNT MAX_OUTPUT_MEMO_SIZE BOOTSTRAP_MIN_RING_SIZE DEFAULT_RING_SIZE MAX_RING_SIZE
  MAX_TIMESTAMP_DRIFT MAX_BLOCK_VERSION STANDARD_INPUT_COUNT STANDARD_OUTPUT_COUNT
  V2_TX_ACTIVATION_HEIGHT : mach.
#[export] Hint Unfold MAX_BLOCK_SIZE MIN_FEE_PER_BYTE FEE_MINER_NORMAL_PERCENT
  FEE_BURN_NORMAL_PERCENT FEE_MINER_CONGESTED_PERCENT FEE_BURN_CONGESTED_PERCENT
  CONGESTION_THRESHOLD : mach.
#[export] Hint Unfold TARGET_BLOCK_TIME ASERT_HALFLIFE DIFFICULTY_SHORT_WINDOW
  DIFFICULTY_LONG_WINDOW DIFFICULTY_SHORT_WEIGHT DIFFICULTY_LONG_WEIGHT
  DIFFICULTY_WEIGHT_SCALE EMERGENCY_DIFFICULTY_BLOCKS EMERGENCY_TIME_MULTIPLIER
  EMERGENCY_DROP_FACTOR MAX_DIFFICULTY_ADJ_NUM MAX_DIFFICULTY_ADJ_DEN
  MIN_DIFFICULTY_ADJ_NUM MIN_DIFFICULTY_ADJ_DEN COIN MAX_SUPPLY ATOMIC_UNITS
  MILLICYNC MICROCYNC NANOCYNC TAIL_EMISSION TOTAL_SUPPLY_TARGET
  EMISSION_DIVISOR : mach.
