(* ===== verification/Types.v ===== *)
(** * Blocks and transactions (src/src/transaction/types.rs, src/src/consensus/header.rs,
    src/src/consensus/block.rs, src/src/primitives/hash.rs)

    The data of a block, the preimages of the header hash and of the proof-of-work
    binding, and the Merkle root of the transactions.  A 32-byte value is the number of
    its big-endian bytes.  BLAKE3 and the Borsh encoding of a transaction are libraries:
    the hash is a parameter, and no theorem assumes it injective; a theorem that needs
    two preimages to differ says that otherwise there is a collision. *)

From stdpp Require Import list sets.
From S2P Require Import Prelude.

Module Types.

Inductive TxType := Coinbase | Transfer | Churn | Shielded.

#[export] Instance TxType_eq_dec : EqDecision TxType.
Proof. solve_decision. Defined.

Record RingMemberRef := mkMember { public_key : Z; member_commitment : Z }.

(** The signature is opaque to the checks modelled here. *)
Record TxInput := mkInput {
  key_image : Z;
  ring_members : list RingMemberRef;
  signature : Z;
  pseudo_output_commitment : Z }.

Record TxOutput := mkOutput {
  stealth_address : Z;
  tx_public_key : Z;
  commitment : Z;
  encrypted_amount : list Z;
  view_tag : Z;
  lock_height : option Z;
  encrypted_memo : list Z }.

Record Transaction := mkTx {
  tx_version : Z;
  tx_type : TxType;
  inputs : list TxInput;
  outputs : list TxOutput;
  fee : Z;
  range_proof : list Z;
  extra : list Z }.

Definition is_coinbase (t : Transaction) : bool := bool_decide (tx_type t = Coinbase).
Definition is_shielded (t : Transaction) : bool := bool_decide (tx_type t = Shielded).
Definition key_images (t : Transaction) : list Z := map key_image (inputs t).

Record BlockHeader := mkHeader {
  network_magic : Z;
  version : Z;
  height : Z;
  timestamp : Z;
  prev_hash : Z;
  tx_root : Z;
  anchor : Z;
  algorithm : Z;
  nonce : Z;
  target : Z;
  miner_pubkey : Z;
  supply_commitment : Z;
  checkpoint_vote : option (Z * Z);
  spark_set_root : Z;
  mw_kernel_root : Z }.

Record Block := mkBlock { header : BlockHeader; transactions : list Transaction }.

Definition block_height (b : Block) : Z := height (header b).
Definition is_genesis (b : Block) : bool := block_height b =? 0.
Definition coinbase (b : Block) : option Transaction := head (transactions b).
Definition non_coinbase_transactions (b : Block) : list Transaction := tail (transactions b).
Definition total_fees (b : Block) : Z :=
  fold_left (fun acc t => saturating_add u64_max acc (fee t)) (non_coinbase_transactions b) 0.
Definition all_key_images (b : Block) : list Z := flat_map key_images (non_coinbase_transactions b).

(** ** Preimages *)

(** [x.to_le_bytes()] *)
Definition le_bytes (n : nat) (v : Z) : list Z := rev (be_bytes n v).

(** [b"coincync/header/v1"] and [b"coincync/pow-binding/v1"]. *)
Definition HEADER_HASH_DOMAIN_TAG : list Z :=
  [99; 111; 105; 110; 99; 121; 110; 99; 47; 104; 101; 97; 100; 101; 114; 47; 118; 49].
Definition POW_BINDING_DOMAIN_TAG : list Z :=
  [99; 111; 105; 110; 99; 121; 110; 99; 47; 112; 111; 119; 45; 98; 105; 110; 100; 105; 110; 103; 47; 118; 49].

Definition vote_bytes (v : option (Z * Z)) : list Z :=
  match v with
  | Some (h, hash) => 1 :: le_bytes 8 h ++ be_bytes 32 hash
  | None => [0]
  end.

Definition hash_preimage (h : BlockHeader) : list Z :=
  HEADER_HASH_DOMAIN_TAG ++ be_bytes 4 (network_magic h) ++ [version h]
  ++ le_bytes 8 (height h) ++ le_bytes 8 (timestamp h) ++ be_bytes 32 (prev_hash h)
  ++ be_bytes 32 (tx_root h) ++ be_bytes 32 (anchor h) ++ [algorithm h]
  ++ le_bytes 8 (nonce h) ++ be_bytes 32 (target h) ++ be_bytes 32 (miner_pubkey h)
  ++ be_bytes 32 (supply_commitment h) ++ vote_bytes (checkpoint_vote h)
  ++ be_bytes 32 (spark_set_root h) ++ be_bytes 32 (mw_kernel_root h).

Definition pow_binding_preimage (h : BlockHeader) : list Z :=
  POW_BINDING_DOMAIN_TAG ++ [version h] ++ be_bytes 32 (miner_pubkey h)
  ++ be_bytes 32 (supply_commitment h) ++ vote_bytes (checkpoint_vote h)
  ++ be_bytes 32 (spark_set_root h) ++ be_bytes 32 (mw_kernel_root h).

(** ** Hashes *)

Section Hash.
(** BLAKE3 of a byte string. *)
Context (blake3 : list Z -> Z).

Definition header_hash (h : BlockHeader) : Z := blake3 (hash_preimage h).
Definition pow_binding (h : BlockHeader) : Z := blake3 (pow_binding_preimage h).
Definition block_hash (b : Block) : Z := header_hash (header b).

Definition leaf (h : Z) : Z := blake3 (0 :: be_bytes 32 h).
Definition node (a b : Z) : Z := blake3 (1 :: be_bytes 32 a ++ be_bytes 32 b).

(** One level of the tree: [chunks(2)], a lone node doubled. *)
Fixpoint next_level (level : list Z) : list Z :=
  match level with
  | [] => []
  | [a] => [node a a]
  | a :: b :: rest => node a b :: next_level rest
  end.

(** [while level.len() > 1]; the length of the list is fuel enough. *)
Fixpoint reduce (fuel : nat) (level : list Z) : Z :=
  match fuel, level with
  | _, [] => 0
  | _, [a] => a
  | S fuel, _ => reduce fuel (next_level level)
  | O, a :: _ => a
  end.

Definition merkle_root (hashes : list Z) : Z :=
  match hashes with
  | [] => 0
  | [h] => leaf h
  | _ => let level := map leaf hashes in reduce (length level) level
  end.

Context (tx_hash : Transaction -> Z).

Definition tx_hashes (b : Block) : list Z := map tx_hash (transactions b).

Definition verify_merkle_root (b : Block) : bool :=
  match transactions b with
  | [] => tx_root (header b) =? 0
  | _ => merkle_root (tx_hashes b) =? tx_root (header b)
  end.

Context (tx_size : Transaction -> Z).

Definition BLOCK_HEADER_SIZE_ESTIMATE : Z := 200.

Definition block_size_from_txs (txs : list Transaction) : Z :=
  fold_left (fun acc t => saturating_add u64_max acc (tx_size t)) txs BLOCK_HEADER_SIZE_ESTIMATE.

Definition block_size (b : Block) : Z := block_size_from_txs (transactions b).
End Hash.

(** ** Field encodings *)

Lemma le_bytes_inj n a b : fits (256 ^ Z.of_nat n - 1) a -> fits (256 ^ Z.of_nat n - 1) b ->
  le_bytes n a = le_bytes n b -> a = b.
Proof.
  intros Ha Hb E. apply (be_bytes_inj n); [done|done|]. unfold le_bytes in E.
  by rewrite <- (rev_involutive (be_bytes n a)), E, rev_involutive.
Qed.

Lemma le_bytes_length n v : length (le_bytes n v) = n.
Proof. unfold le_bytes. by rewrite length_rev, length_be_bytes. Qed.

Abbreviation u256 := (fits (256 ^ Z.of_nat 32 - 1)) (only parsing).
Abbreviation u64 := (fits (256 ^ Z.of_nat 8 - 1)) (only parsing).

(** The fields of a header are values of their types. *)
Record header_ok (h : BlockHeader) : Prop := {
  ok_magic : fits (256 ^ Z.of_nat 4 - 1) (network_magic h);
  ok_height : u64 (height h);
  ok_timestamp : u64 (timestamp h);
  ok_prev : u256 (prev_hash h);
  ok_root : u256 (tx_root h);
  ok_anchor : u256 (anchor h);
  ok_nonce : u64 (nonce h);
  ok_target : u256 (target h);
  ok_miner : u256 (miner_pubkey h);
  ok_supply : u256 (supply_commitment h);
  ok_vote : match checkpoint_vote h with Some (n, x) => u64 n /\ u256 x | None => True end;
  ok_spark : u256 (spark_set_root h);
  ok_kernel : u256 (mw_kernel_root h) }.

(** Split an equation of concatenations at the first part of known length. *)
Ltac peel H :=
  let E := fresh "E" in
  apply app_inj_1 in H as [E H]; [|by rewrite ?length_be_bytes, ?le_bytes_length].

Lemma vote_bytes_inj v w r s :
  match v with Some (n, x) => u64 n /\ u256 x | None => True end ->
  match w with Some (n, x) => u64 n /\ u256 x | None => True end ->
  vote_bytes v ++ r = vote_bytes w ++ s -> v = w /\ r = s.
Proof.
  destruct v as [[n x]|], w as [[n' x']|]; cbn [vote_bytes app]; intros Hv Hw E; try discriminate E;
    apply (f_equal (@tail Z)) in E; cbn [tail] in E; try done.
  rewrite <- !app_assoc in E. peel E. peel E. destruct Hv, Hw. split; [|done].
  do 2 f_equal; [by apply (le_bytes_inj 8)|by apply (be_bytes_inj 32)].
Qed.

(** Every field of the header is in the preimage of its hash, unambiguously. *)
Lemma hash_preimage_inj h1 h2 : header_ok h1 -> header_ok h2 ->
  hash_preimage h1 = hash_preimage h2 -> h1 = h2.
Proof.
  intros [] [] E. unfold hash_preimage in E. do 13 peel E.
  apply vote_bytes_inj in E as [Ev E]; [|done|done]. peel E.
  destruct h1, h2; cbn [network_magic version height timestamp prev_hash tx_root anchor algorithm nonce target
    miner_pubkey supply_commitment checkpoint_vote spark_set_root mw_kernel_root] in *.
  f_equal; try done; try congruence;
    (by apply (be_bytes_inj 32)) || (by apply (le_bytes_inj 8)) || (by apply (be_bytes_inj 4)).
Qed.

(** The fields the proof of work binds through the anchor seed. *)
Definition bound_fields (h : BlockHeader) : Z * Z * Z * option (Z * Z) * Z * Z :=
  (version h, miner_pubkey h, supply_commitment h, checkpoint_vote h, spark_set_root h, mw_kernel_root h).

Lemma pow_binding_preimage_inj h1 h2 : header_ok h1 -> header_ok h2 ->
  pow_binding_preimage h1 = pow_binding_preimage h2 -> bound_fields h1 = bound_fields h2.
Proof.
  intros [] [] E. unfold pow_binding_preimage in E. do 4 peel E.
  apply vote_bytes_inj in E as [Ev E]; [|done|done]. peel E. unfold bound_fields.
  apply be_bytes_inj in E, E2, E3, E4; [|done..]. injection E1 as E1. congruence.
Qed.

(** The domain tags keep the two preimages apart. *)
Lemma preimages_apart h1 h2 : hash_preimage h1 <> pow_binding_preimage h2.
Proof.
  intros E. apply (f_equal (lookup 9%nat)) in E. unfold hash_preimage, pow_binding_preimage in E.
  rewrite !lookup_app_l in E by (cbn; lia). discriminate E.
Qed.

(** *** The Merkle tree *)

Definition leaf_preimage (h : Z) : list Z := 0 :: be_bytes 32 h.
Definition node_preimage (a b : Z) : list Z := 1 :: be_bytes 32 a ++ be_bytes 32 b.

(** The byte strings that the computation of a root hashes. *)
Fixpoint level_preimages (level : list Z) : list (list Z) :=
  match level with
  | [] => []
  | [a] => [node_preimage a a]
  | a :: b :: rest => node_preimage a b :: level_preimages rest
  end.

Fixpoint tree_preimages (blake3 : list Z -> Z) (fuel : nat) (level : list Z) : list (list Z) :=
  match fuel, level with
  | S fuel, _ :: _ :: _ => level_preimages level ++ tree_preimages blake3 fuel (next_level blake3 level)
  | _, _ => []
  end.

Definition merkle_preimages (blake3 : list Z -> Z) (hashes : list Z) : list (list Z) :=
  map leaf_preimage hashes ++ tree_preimages blake3 (length hashes) (map (leaf blake3) hashes).

(** Two different byte strings of [S] with one hash. *)
Definition collision_in (blake3 : list Z -> Z) (S : list (list Z)) : Prop :=
  exists x y, x ∈ S /\ y ∈ S /\ x <> y /\ blake3 x = blake3 y.

Lemma collision_mono blake3 S S' : (forall x, x ∈ S -> x ∈ S') -> collision_in blake3 S -> collision_in blake3 S'.
Proof. intros H (x & y & ? & ? & ?). exists x, y. auto. Qed.

Lemma hash_eq blake3 S x y : x ∈ S -> y ∈ S -> blake3 x = blake3 y -> x = y \/ collision_in blake3 S.
Proof. intros Hx Hy E. destruct (decide (x = y)) as [|Hne]; [by left|]. right. by exists x, y. Qed.

Section Merkle.
Context (blake3 : list Z -> Z) (S : list (list Z)) (blake3_width : forall x, u256 (blake3 x)).

Abbreviation hashed x := (x ∈ S) (only parsing).
Abbreviation collision := (collision_in blake3 S) (only parsing).
Abbreviation leaf := (leaf blake3).
Abbreviation node := (node blake3).
Abbreviation next_level := (next_level blake3).
Abbreviation reduce := (reduce blake3).
Abbreviation merkle_root := (merkle_root blake3).

Lemma leaf_inj a b : u256 a -> u256 b -> hashed (leaf_preimage a) -> hashed (leaf_preimage b) ->
  leaf a = leaf b -> a = b \/ collision.
Proof.
  intros Ha Hb Pa Pb [E|]%(hash_eq blake3 S); [|by right|done|done]. left.
  apply (f_equal (@tail Z)) in E. by apply (be_bytes_inj 32).
Qed.

Lemma node_inj a b c d : u256 a -> u256 b -> u256 c -> u256 d ->
  hashed (node_preimage a b) -> hashed (node_preimage c d) ->
  node a b = node c d -> (a = c /\ b = d) \/ collision.
Proof.
  intros Ha Hb Hc Hd P1 P2 [E|]%(hash_eq blake3 S); [|by right|done|done]. left.
  apply (f_equal (@tail Z)) in E. cbn [tail node_preimage] in E. peel E. split; by apply (be_bytes_inj 32).
Qed.

Lemma leaf_node h a b : hashed (leaf_preimage h) -> hashed (node_preimage a b) -> leaf h = node a b -> collision.
Proof. by intros P1 P2 [E|]%(hash_eq blake3 S). Qed.

Lemma next_level_ind (P : list Z -> Prop) : P [] -> (forall a, P [a]) ->
  (forall a b l, P l -> P (a :: b :: l)) -> forall l, P l.
Proof.
  intros H0 H1 H2 l. assert (H : P l /\ forall a, P (a :: l)); [|apply H].
  induction l as [|b l [IH1 IH2]]; split; auto.
Qed.

Lemma length_next_level l : (length (next_level l) <= length l)%nat
  /\ ((2 <= length l)%nat -> (length (next_level l) < length l)%nat /\ (1 <= length (next_level l))%nat).
Proof. induction l using next_level_ind; cbn [Types.next_level length]; lia. Qed.

(** A value of the tree [n] levels above the leaves. *)
Inductive at_level : nat -> Z -> Prop :=
| at_leaf h : u256 h -> hashed (leaf_preimage h) -> at_level 0 (leaf h)
| at_node n a b : at_level n a -> at_level n b -> hashed (node_preimage a b) -> at_level (Datatypes.S n) (node a b).

Lemma at_level_width n v : at_level n v -> u256 v.
Proof. destruct 1; apply blake3_width. Qed.

Lemma at_level_unique n m v : at_level n v -> at_level m v -> n = m \/ collision.
Proof.
  intros H. revert m. induction H as [h Hh Ph|n a b Ha IHa Hb IHb Pab].
  - intros m Hv. remember (leaf h) as v eqn:Ev. destruct Hv; [by left|]. right. by eapply leaf_node.
  - intros m Hv. remember (node a b) as v eqn:Ev. destruct Hv as [h Hh Ph|m c d Hc Hd Pcd].
    + right. by eapply leaf_node.
    + apply node_inj in Ev as [[-> ->]|]; [|by right|by eapply at_level_width..|done|done].
      destruct (IHa m Hc) as [->|]; [by left|by right].
Qed.

Lemma next_level_at n l : Forall (at_level n) l -> Forall (fun x => hashed x) (level_preimages l) ->
  Forall (at_level (Datatypes.S n)) (next_level l).
Proof.
  induction l using next_level_ind; cbn; intros H HP; [constructor| |].
  - apply list.Forall_cons in H as [Ha _]. apply list.Forall_cons in HP as [HP _]. repeat constructor; done.
  - apply list.Forall_cons in H as [Ha H]. apply list.Forall_cons in H as [Hb H].
    apply list.Forall_cons in HP as [HP1 HP]. constructor; [by constructor|auto].
Qed.

(** An element of the next level is the node of two elements below. *)
Lemma elem_of_next_level x l : Forall (fun x => hashed x) (level_preimages l) -> x ∈ next_level l ->
  exists a b, x = node a b /\ a ∈ l /\ b ∈ l /\ hashed (node_preimage a b).
Proof.
  induction l using next_level_ind; cbn; intros HP Hx.
  - set_solver.
  - apply list_elem_of_singleton in Hx as ->. apply list.Forall_cons in HP as [HP _]. exists a, a. set_solver.
  - apply list.Forall_cons in HP as [HP1 HP]. apply elem_of_cons in Hx as [-> | Hx]; [exists a, b; set_solver|].
    destruct (IHl HP Hx) as (c & d & -> & ? & ? & ?). exists c, d. set_solver.
Qed.

Lemma NoDup_next_level l : Forall u256 l -> Forall (fun x => hashed x) (level_preimages l) -> NoDup l ->
  NoDup (next_level l) \/ collision.
Proof.
  induction l using next_level_ind; cbn; intros Hw HP Hnd; [left; constructor|left; apply NoDup_singleton|].
  apply list.Forall_cons in Hw as [Ha Hw]. apply list.Forall_cons in Hw as [Hb Hw].
  apply list.NoDup_cons in Hnd as [Hna Hnd]. apply list.NoDup_cons in Hnd as [Hnb Hnd].
  apply list.Forall_cons in HP as [HP1 HP].
  destruct (IHl Hw HP Hnd) as [IH|]; [|by right].
  destruct (decide (node a b ∈ next_level l)) as [Hin|Hni]; [|left; by constructor].
  right. apply elem_of_next_level in Hin as (c & d & E & Hc & Hd & Pcd); [|done]. rewrite list.Forall_forall in Hw.
  apply node_inj in E as [[-> ->]|]; auto. exfalso. apply Hna. set_solver.
Qed.

(** Levels without repetition are determined by the level above them. *)
Lemma next_level_inj l : forall l', Forall u256 l -> Forall u256 l' ->
  Forall (fun x => hashed x) (level_preimages l) -> Forall (fun x => hashed x) (level_preimages l') -> NoDup l -> NoDup l' ->
  next_level l = next_level l' -> l = l' \/ collision.
Proof.
  induction l using next_level_ind; intros [|a' [|b' l']] Hw Hw' HP HP' Hnd Hnd'; cbn [Types.next_level]; intros E;
    try discriminate E; try (by left); cbn [level_preimages] in *;
    repeat (apply list.Forall_cons in Hw as [? Hw]); repeat (apply list.Forall_cons in Hw' as [? Hw']);
    apply list.Forall_cons in HP as [? HP]; apply list.Forall_cons in HP' as [? HP'];
    first [injection E as E1 E2|injection E as E1].
  - apply node_inj in E1 as [[-> _]|]; auto.
  - apply node_inj in E1 as [[-> <-]|]; auto. exfalso. apply list.NoDup_cons in Hnd' as [Hn _]. set_solver.
  - apply node_inj in E1 as [[<- ->]|]; auto. exfalso. apply list.NoDup_cons in Hnd as [Hn _]. set_solver.
  - apply node_inj in E1 as [[-> ->]|]; auto. do 2 apply list.NoDup_cons in Hnd as [_ Hnd].
    do 2 apply list.NoDup_cons in Hnd' as [_ Hnd']. destruct (IHl l' Hw Hw' HP HP' Hnd Hnd' E2) as [->|]; auto.
Qed.

Lemma length_ne {A} (l : list A) : (1 <= length l)%nat -> l <> [].
Proof. destruct l; cbn; [lia|done]. Qed.

Lemma length_two {A} (l : list A) : l <> [] -> length l <> 1%nat -> (2 <= length l)%nat.
Proof. destruct l as [|? [|]]; cbn; [done|lia|lia]. Qed.

Lemma reduce_long fuel l : (2 <= length l)%nat -> reduce (Datatypes.S fuel) l = reduce fuel (next_level l).
Proof. destruct l as [|a [|b l]]; cbn [length]; [lia|lia|done]. Qed.

Lemma tree_long fuel l : (2 <= length l)%nat -> Forall (fun x => hashed x) (tree_preimages blake3 (Datatypes.S fuel) l) ->
  Forall (fun x => hashed x) (level_preimages l) /\ Forall (fun x => hashed x) (tree_preimages blake3 fuel (next_level l)).
Proof. destruct l as [|a [|b l]]; cbn [length]; [lia|lia|]. intros _. cbn [tree_preimages]. apply list.Forall_app. Qed.

Lemma reduce_at fuel : forall n l, Forall (at_level n) l -> Forall (fun x => hashed x) (tree_preimages blake3 fuel l) ->
  l <> [] -> (length l <= fuel)%nat ->
  exists d, at_level (n + d) (reduce fuel l) /\ ((2 <= length l)%nat -> (1 <= d)%nat).
Proof.
  induction fuel as [|fuel IH]; intros n l Hat HP Hne Hlen; [by destruct l; [|cbn in Hlen; lia]|].
  destruct (decide (length l = 1%nat)) as [H1|H1].
  - destruct l as [|a [|]]; try done. apply list.Forall_cons in Hat as [Ha _]. exists 0%nat.
    rewrite Nat.add_0_r. split; [done|cbn; lia].
  - pose proof (length_two l Hne H1) as H2. destruct (tree_long fuel l H2 HP) as [HP1 HP2].
    rewrite reduce_long by done. destruct (length_next_level l) as [_ Hl]. destruct (Hl H2) as [Hlt Hge].
    destruct (IH (Datatypes.S n) (next_level l)) as (d & Hd & _); [by apply next_level_at|done|by apply length_ne|lia|].
    exists (Datatypes.S d). rewrite Nat.add_succ_r. split; [done|lia].
Qed.

(** A single value of a level equals the root over a level only if it is that level. *)
Lemma reduce_one a n l fuel : (length l <= fuel)%nat -> l <> [] -> at_level n a -> Forall (at_level n) l ->
  Forall (fun x => hashed x) (tree_preimages blake3 fuel l) -> a = reduce fuel l -> [a] = l \/ collision.
Proof.
  intros Hlen Hne Ha Hat HP E. destruct (decide (length l = 1%nat)) as [H1|H1].
  - destruct l as [|b [|]]; try done. left. by destruct fuel; cbn in E; subst.
  - destruct (reduce_at fuel n l Hat HP Hne Hlen) as (d & Hd & H2). pose proof (length_two l Hne H1).
    rewrite <- E in Hd. destruct (at_level_unique n (n + d) a Ha Hd) as [?|]; [lia|by right].
Qed.

Lemma reduce_inj fuel : forall n l fuel' l', (length l <= fuel)%nat -> (length l' <= fuel')%nat ->
  l <> [] -> l' <> [] -> Forall (at_level n) l -> Forall (at_level n) l' ->
  Forall (fun x => hashed x) (tree_preimages blake3 fuel l) -> Forall (fun x => hashed x) (tree_preimages blake3 fuel' l') ->
  NoDup l -> NoDup l' -> reduce fuel l = reduce fuel' l' -> l = l' \/ collision.
Proof.
  induction fuel as [|fuel IH]; intros n l fuel' l' Hl Hl' Hne Hne' Hat Hat' HP HP' Hnd Hnd' E; [by destruct l; [|cbn in Hl; lia]|].
  destruct (decide (length l = 1%nat)) as [H1|H1].
  { destruct l as [|a [|]]; try done. apply list.Forall_cons in Hat as [Ha _]. by apply (reduce_one a n l' fuel'). }
  destruct (decide (length l' = 1%nat)) as [H1'|H1'].
  { destruct l' as [|a' [|]]; try done. apply list.Forall_cons in Hat' as [Ha' _].
    destruct (reduce_one a' n l (Datatypes.S fuel)) as [<-|]; try done; [by destruct fuel'|by right]. }
  pose proof (length_two l Hne H1) as H2. pose proof (length_two l' Hne' H1') as H2'.
  destruct fuel' as [|fuel']; [lia|]. rewrite !reduce_long in E by done.
  destruct (tree_long fuel l H2 HP) as [Hp1 Hp2], (tree_long fuel' l' H2' HP') as [Hp1' Hp2'].
  assert (Hw : Forall u256 l /\ Forall u256 l').
  { split; (eapply list.Forall_impl; [eassumption|]); intros; by eapply at_level_width. }
  destruct Hw as [Hw Hw'].
  destruct (length_next_level l) as [_ Hx]. destruct (length_next_level l') as [_ Hx'].
  destruct (Hx H2), (Hx' H2').
  destruct (NoDup_next_level l Hw Hp1 Hnd) as [Hn1|]; [|by right].
  destruct (NoDup_next_level l' Hw' Hp1' Hnd') as [Hn2|]; [|by right].
  destruct (IH (Datatypes.S n) (next_level l) fuel' (next_level l')) as [En|]; try done; try lia.
  - by apply length_ne.
  - by apply length_ne.
  - by apply next_level_at.
  - by apply next_level_at.
  - by apply next_level_inj.
  - by right.
Qed.

Lemma merkle_root_reduce l : merkle_root l = reduce (length l) (map leaf l).
Proof. destruct l as [|a [|b l]]; [done|done|]. unfold Types.merkle_root. by rewrite length_map. Qed.

Lemma NoDup_leaves l : Forall u256 l -> (forall h, h ∈ l -> hashed (leaf_preimage h)) -> NoDup l ->
  NoDup (map leaf l) \/ collision.
Proof.
  induction l as [|a l IH]; intros Hw HP Hnd; cbn; [left; constructor|].
  apply list.Forall_cons in Hw as [Ha Hw]. apply list.NoDup_cons in Hnd as [Hn Hnd].
  destruct (IH Hw) as [Hl|]; [set_solver|done| |by right].
  destruct (decide (leaf a ∈ map leaf l)) as [Hin|]; [|left; by constructor].
  right. apply list_elem_of_fmap in Hin as (b & E & Hb). rewrite list.Forall_forall in Hw.
  apply leaf_inj in E as [->|]; auto; [done|set_solver|set_solver].
Qed.

Lemma leaves_at l : Forall u256 l -> (forall h, h ∈ l -> hashed (leaf_preimage h)) -> Forall (at_level 0) (map leaf l).
Proof. induction 1 as [|a l Ha _ IH]; cbn; intros HP; constructor; [constructor; [done|set_solver]|apply IH; set_solver]. Qed.

Lemma leaves_inj l : forall l', Forall u256 l -> Forall u256 l' -> (forall h, h ∈ l -> hashed (leaf_preimage h)) ->
  (forall h, h ∈ l' -> hashed (leaf_preimage h)) -> map leaf l = map leaf l' -> l = l' \/ collision.
Proof.
  induction l as [|a l IH]; intros [|b l'] Hw Hw' HP HP' E; try done; [by left|].
  apply list.Forall_cons in Hw as [Ha Hw], Hw' as [Hb Hw']. injection E as E1 E2.
  apply leaf_inj in E1 as [->|]; auto; [|set_solver|set_solver].
  destruct (IH l' Hw Hw') as [->|]; auto; set_solver.
Qed.
End Merkle.

(** Duplicate-free lists of hashes are determined by their root, unless two of the byte
    strings that were hashed collide. *)
Lemma merkle_root_inj blake3 l l' : (forall x, u256 (blake3 x)) ->
  l <> [] -> l' <> [] -> Forall u256 l -> Forall u256 l' -> NoDup l -> NoDup l' ->
  merkle_root blake3 l = merkle_root blake3 l' ->
  l = l' \/ collision_in blake3 (merkle_preimages blake3 l ++ merkle_preimages blake3 l').
Proof.
  intros Hb Hne Hne' Hw Hw' Hnd Hnd' E. rewrite !merkle_root_reduce in E.
  set (S := merkle_preimages blake3 l ++ merkle_preimages blake3 l').
  assert (HP : forall h, h ∈ l -> leaf_preimage h ∈ S).
  { intros h Hh. subst S. unfold merkle_preimages. rewrite !elem_of_app. left. left. by apply list_elem_of_fmap_2. }
  assert (HP' : forall h, h ∈ l' -> leaf_preimage h ∈ S).
  { intros h Hh. subst S. unfold merkle_preimages. rewrite !elem_of_app. right. left. by apply list_elem_of_fmap_2. }
  destruct (NoDup_leaves blake3 S Hb l Hw HP Hnd) as [Hl|]; [|by right].
  destruct (NoDup_leaves blake3 S Hb l' Hw' HP' Hnd') as [Hl'|]; [|by right].
  destruct (reduce_inj blake3 S Hb (length l) 0 (map (leaf blake3) l) (length l') (map (leaf blake3) l')) as [Em|];
    rewrite ?length_map; auto.
  - by destruct l.
  - by destruct l'.
  - by apply leaves_at.
  - by apply leaves_at.
  - apply list.Forall_forall. intros x Hx. subst S. unfold merkle_preimages. set_solver.
  - apply list.Forall_forall. intros x Hx. subst S. unfold merkle_preimages. set_solver.
  - by apply (leaves_inj blake3 S).
Qed.

Lemma header_hash_inj blake3 h1 h2 : header_ok h1 -> header_ok h2 -> header_hash blake3 h1 = header_hash blake3 h2 ->
  h1 = h2 \/ collision_in blake3 [hash_preimage h1; hash_preimage h2].
Proof.
  intros H1 H2 [E|]%(hash_eq blake3 [hash_preimage h1; hash_preimage h2]); [|by right|set_solver|set_solver].
  left. by apply hash_preimage_inj.
Qed.

(** The header hash commits to every field of the header and the proof-of-work binding
    to the fields that the mined blob does not carry, and neither can pass for the other:
    any exception is a collision of BLAKE3 on the two preimages themselves. *)
Theorem header_hash_binding blake3 h1 h2 : header_ok h1 -> header_ok h2 ->
  (header_hash blake3 h1 = header_hash blake3 h2 ->
     h1 = h2 \/ collision_in blake3 [hash_preimage h1; hash_preimage h2])
  /\ (pow_binding blake3 h1 = pow_binding blake3 h2 ->
     bound_fields h1 = bound_fields h2 \/ collision_in blake3 [pow_binding_preimage h1; pow_binding_preimage h2])
  /\ (header_hash blake3 h1 = pow_binding blake3 h2 ->
     collision_in blake3 [hash_preimage h1; pow_binding_preimage h2]).
Proof.
  intros H1 H2. split; [by apply header_hash_inj|]. split; intros E.
  - apply (hash_eq blake3 [pow_binding_preimage h1; pow_binding_preimage h2]) in E as [E|]; [|by right|set_solver|set_solver].
    left. by apply pow_binding_preimage_inj.
  - apply (hash_eq blake3 [hash_preimage h1; pow_binding_preimage h2]) in E as [E|]; [|done|set_solver|set_solver].
    by apply preimages_apart in E.
Qed.

(** The root alone does not determine a list with repetitions: a lone node is doubled. *)
Fact merkle_root_doubled blake3 a b c : merkle_root blake3 [a; b; c] = merkle_root blake3 [a; b; c; c].
Proof. reflexivity. Qed.

Definition sample_hash (x : list Z) : Z := be_value x mod 2 ^ 256.
Definition sample_header (m : Z) : BlockHeader := mkHeader 1 1 1 1 1 1 1 1 1 1 m 1 (Some (7, 9)) 1 1.

Lemma sample_header_ok m : fits 9 m -> header_ok (sample_header m).
Proof. intros [? ?]. split; cbn; unfold fits; lia || (split; lia). Qed.

Lemma header_hash_binding_witness :
  (pow_binding sample_hash (sample_header 3) = pow_binding sample_hash (sample_header 3) ->
   bound_fields (sample_header 3) = bound_fields (sample_header 3)
   \/ collision_in sample_hash [pow_binding_preimage (sample_header 3); pow_binding_preimage (sample_header 3)])
  /\ header_ok (sample_header 3).
Proof.
  split; [|apply sample_header_ok; unfold fits; lia].
  apply (header_hash_binding sample_hash (sample_header 3) (sample_header 3)); apply sample_header_ok; unfold fits; lia.
Defined.

End Types.
