(* ===== verification/Amount.v ===== *)
(** * Amounts (src/src/primitives/amount.rs)

    Monetary amounts: the checked and saturating arithmetic of [Amount], the
    percentages, the decimal rendering and the parser.  An [Amount] is its [u64]
    of atomic units.  Strings are lists of ASCII characters (codes below 128):
    the white space [trim] removes is the ASCII part of Unicode's.  The
    conversions through [f64] are not modelled. *)

From Stdlib Require Import Ascii String.
From S2P Require Import Prelude Constants.

Module Amount.

Inductive Denomination := Cync | MilliCync | MicroCync | NanoCync | Sync.

Definition multiplier (d : Denomination) : Z :=
  match d with
  | Cync => ATOMIC_UNITS
  | MilliCync => MILLICYNC
  | MicroCync => MICROCYNC
  | NanoCync => NANOCYNC
  | Sync => 1
  end.

Definition decimals (d : Denomination) : Z :=
  match d with Cync => 12 | MilliCync => 9 | MicroCync => 6 | NanoCync => 3 | Sync => 0 end.

(** The errors of [crate::error] that amounts raise. *)
Inductive Error := AmountOverflow | AmountUnderflow | InvalidAddress.

Definition from_cync (cync : Z) : result Error Z :=
  ok_or (Prelude.checked_mul u64_max cync ATOMIC_UNITS) AmountOverflow.

Definition as_cync (a : Z) : Z := a / ATOMIC_UNITS.

Definition checked_add (a b : Z) : result Error Z :=
  ok_or (Prelude.checked_add u64_max a b) AmountOverflow.

Definition checked_sub (a b : Z) : result Error Z :=
  ok_or (Prelude.checked_sub a b) AmountUnderflow.

Definition checked_mul (a factor : Z) : result Error Z :=
  ok_or (Prelude.checked_mul u64_max a factor) AmountOverflow.

Definition checked_div (a divisor : Z) : result Error Z :=
  if divisor =? 0 then Err AmountOverflow else Ok (a / divisor).

Definition saturating_add (a b : Z) : Z := Prelude.saturating_add u64_max a b.

Definition saturating_sub (a b : Z) : Z := Prelude.saturating_sub a b.

Definition percentage (a basis_points : Z) : Z :=
  let numerator := wrap u128_max (a * basis_points) in
  let rounded := wrap u128_max (numerator + 5000) / 10000 in
  wrap u64_max (Z.min rounded u64_max).

Definition percentage_truncate (a basis_points : Z) : Z :=
  let result := wrap u128_max (a * basis_points) / 10000 in
  wrap u64_max (Z.min result u64_max).

(** The operators [+], [-], [*] and [/] and the [Sum] instance. *)
Definition add (a b : Z) : Z := saturating_add a b.
Definition sub (a b : Z) : Z := saturating_sub a b.
Definition mul (a factor : Z) : Z := saturating_mul u64_max a factor.
Definition div (a divisor : Z) : Z := if divisor =? 0 then 0 else a / divisor.
Definition sum (l : list Z) : Z := fold_left saturating_add l 0.

(** ** Strings *)

Definition code (c : ascii) : Z := Z.of_N (N_of_ascii c).

Definition digit_char (d : Z) : ascii := ascii_of_N (Z.to_N (48 + d)).

Definition is_ascii_digit (c : ascii) : bool := (48 <=? code c) && (code c <=? 57).

Definition is_whitespace (c : ascii) : bool :=
  ((9 <=? code c) && (code c <=? 13)) || (code c =? 32).

(** [to_string] of an unsigned integer; [fuel] bounds the number of digits, and
    20 digits are enough for a [u64]. *)
Fixpoint dec (fuel : nat) (n : Z) : list ascii :=
  match fuel with
  | O => []
  | S fuel' => if n <? 10 then [digit_char n] else dec fuel' (n / 10) ++ [digit_char (n mod 10)]
  end.

Definition to_string (n : Z) : list ascii := dec 20 n.

(** [format!("{:0width$}", n)] and [format!("{:0<width$}", s)]. *)
Definition pad_left0 (width : nat) (s : list ascii) : list ascii :=
  replicate (width - length s) "0"%char ++ s.
Definition pad_right0 (width : nat) (s : list ascii) : list ascii :=
  s ++ replicate (width - length s) "0"%char.

Fixpoint drop_while (p : ascii -> bool) (s : list ascii) : list ascii :=
  match s with
  | [] => []
  | c :: s' => if p c then drop_while p s' else s
  end.

Definition trim_end_matches (p : ascii -> bool) (s : list ascii) : list ascii :=
  rev (drop_while p (rev s)).

Definition trim (s : list ascii) : list ascii :=
  trim_end_matches is_whitespace (drop_while is_whitespace s).

Definition is_zero_char (c : ascii) : bool := Ascii.eqb c "0"%char.

Definition format (a : Z) (dcs : nat) : list ascii :=
  let whole := a / ATOMIC_UNITS in
  let frac := a mod ATOMIC_UNITS in
  if (dcs =? 0)%nat then to_string whole
  else
    let frac_str := pad_left0 12 (to_string frac) in
    let trimmed := trim_end_matches is_zero_char (take (Nat.min dcs 12) frac_str) in
    match trimmed with
    | [] => to_string whole
    | _ => to_string whole ++ ["."%char] ++ trimmed
    end.

(** The number rendered by [format_in], before the unit symbol. *)
Definition format_in (a : Z) (d : Denomination) : list ascii :=
  let m := multiplier d in
  let whole := a / m in
  let frac := a mod m in
  if (decimals d =? 0) || (frac =? 0) then to_string whole
  else
    let frac_str := pad_left0 (Z.to_nat (decimals d)) (to_string frac) in
    to_string whole ++ ["."%char] ++ trim_end_matches is_zero_char frac_str.

(** The unit [format_auto] chooses. *)
Definition format_auto (a : Z) : Denomination * list ascii :=
  let d := if ATOMIC_UNITS <=? a then Cync
           else if MILLICYNC <=? a then MilliCync
           else if MICROCYNC <=? a then MicroCync
           else if NANOCYNC <=? a then NanoCync
           else Sync in
  (d, format_in a d).

(** [s.parse::<u128>()]: an optional plus sign, then at least one digit. *)
Fixpoint digits_value (acc : Z) (s : list ascii) : option Z :=
  match s with
  | [] => Some acc
  | c :: s' => if is_ascii_digit c then digits_value (10 * acc + (code c - 48)) s' else None
  end.

Definition parse_u128 (s : list ascii) : option Z :=
  let body := match s with
              | c :: (_ :: _) as r => if Ascii.eqb c "+"%char then r else s
              | _ => s
              end in
  match body with
  | [] => None
  | _ => match digits_value 0 body with
         | Some v => if v <=? u128_max then Some v else None
         | None => None
         end
  end.

(** [s.find('.')], splitting around the first dot. *)
Fixpoint split_dot (s : list ascii) : list ascii * option (list ascii) :=
  match s with
  | [] => ([], None)
  | c :: s' =>
      if Ascii.eqb c "."%char then ([], Some s')
      else let '(i, f) := split_dot s' in (c :: i, f)
  end.

Definition parse_frac (frac_opt : option (list ascii)) : result Error Z :=
  match frac_opt with
  | None => Ok 0
  | Some [] => Ok 0
  | Some frac_str =>
      if negb (forallb is_ascii_digit frac_str) then Err InvalidAddress
      else ok_or (parse_u128 (pad_right0 12 (take (Nat.min (length frac_str) 12) frac_str)))
             InvalidAddress
  end.

Definition from_str (s0 : list ascii) : result Error Z :=
  let s := trim s0 in
  match s with
  | [] => Err InvalidAddress
  | c :: _ =>
      if Ascii.eqb c "-"%char then Err AmountUnderflow
      else
        let '(int_str, frac_opt) := split_dot s in
        let? int_part := ok_or (parse_u128 int_str) InvalidAddress in
        let max_int := u64_max / ATOMIC_UNITS in
        if max_int <? int_part then Err AmountOverflow
        else
          let int_syncs := wrap u128_max (int_part * ATOMIC_UNITS) in
          let? frac_syncs := parse_frac frac_opt in
          let? total := ok_or (Prelude.checked_add u128_max int_syncs frac_syncs) AmountOverflow in
          if u64_max <? total then Err AmountOverflow else Ok (wrap u64_max total)
  end.

Example format_ex : format 1500000000000 4 = list_ascii_of_string "1.5".
Proof. reflexivity. Qed.

Example from_str_ex : from_str (list_ascii_of_string " +18446744.073709551615 ") = Ok u64_max.
Proof. reflexivity. Qed.

Example from_str_leading_dot : from_str (list_ascii_of_string ".5") = Err InvalidAddress.
Proof. reflexivity. Qed.

(** ** Digits *)

Abbreviation is_digits := (Forall (fun c => is_ascii_digit c = true)).

Lemma code_digit_char d : 0 <= d <= 9 -> code (digit_char d) = 48 + d.
Proof.
  intros H. unfold code, digit_char. rewrite N_ascii_embedding by lia. lia.
Qed.

Lemma digit_char_digit d : 0 <= d <= 9 -> is_ascii_digit (digit_char d) = true.
Proof. intros H. unfold is_ascii_digit. rewrite code_digit_char by done. zcases. Qed.

Lemma dec_digits fuel n : 0 <= n -> is_digits (dec fuel n).
Proof.
  revert n. induction fuel as [|fuel IH]; intros n Hn; simpl; [constructor|].
  pose proof (Z.mod_pos_bound n 10 ltac:(lia)).
  destruct (Z.ltb_spec n 10).
  - repeat constructor. apply digit_char_digit. lia.
  - apply Forall_app. split; [apply IH, Z.div_pos; lia|]. repeat constructor.
    apply digit_char_digit. lia.
Qed.

Lemma dec_length fuel n w :
  0 <= n < 10 ^ Z.of_nat w -> (0 < w)%nat -> (length (dec fuel n) <= w)%nat.
Proof.
  revert n w. induction fuel as [|fuel IH]; intros n w Hn Hw; simpl; [lia|].
  destruct (Z.ltb_spec n 10); [simpl; lia|]. rewrite length_app. simpl.
  destruct w as [|[|w]]; [lia|simpl in Hn; lia|].
  rewrite Nat2Z.inj_succ, Z.pow_succ_r in Hn by lia.
  specialize (IH (n / 10) (S w)). enough (length (dec fuel (n / 10)) <= S w)%nat by lia.
  apply IH; [|lia]. split; [apply Z.div_pos; lia|apply Z.div_lt_upper_bound; lia].
Qed.

Lemma dec_nonempty fuel n : dec (S fuel) n <> [].
Proof. simpl. destruct (n <? 10); [done|]. intros E. by apply app_nil in E as [_ ?]. Qed.

Lemma digits_value_app acc s1 s2 :
  digits_value acc (s1 ++ s2) = (digits_value acc s1 ≫= fun v => digits_value v s2).
Proof.
  revert acc. induction s1 as [|c s1 IH]; intros acc; simpl; [done|].
  destruct (is_ascii_digit c); [apply IH|done].
Qed.

(** A digit string denotes a number below [10 ^ length]. *)
Lemma digits_value_total s :
  is_digits s -> exists v, 0 <= v < 10 ^ Z.of_nat (length s)
    /\ forall acc, digits_value acc s = Some (acc * 10 ^ Z.of_nat (length s) + v).
Proof.
  induction 1 as [|c s Hc Hs (v & Hv & IH)].
  - exists 0. simpl. split; [lia|]. intros acc. f_equal. lia.
  - simpl length. rewrite Nat2Z.inj_succ, Z.pow_succ_r by lia.
    exists ((code c - 48) * 10 ^ Z.of_nat (length s) + v).
    assert (0 <= code c - 48 <= 9) by (unfold is_ascii_digit in Hc; zcases).
    split; [nia|]. intros acc. simpl. rewrite Hc, IH. f_equal. lia.
Qed.

Lemma digits_value_zeros acc k :
  digits_value acc (replicate k "0"%char) = Some (acc * 10 ^ Z.of_nat k).
Proof.
  revert acc. induction k as [|k IH]; intros acc; [simpl; f_equal; lia|].
  change (digits_value (10 * acc + 0) (replicate k "0"%char) = Some (acc * 10 ^ Z.of_nat (S k))).
  rewrite IH, Nat2Z.inj_succ, Z.pow_succ_r by lia. f_equal. lia.
Qed.

Lemma digits_value_dec fuel n :
  0 <= n < 10 ^ Z.of_nat fuel -> (0 < fuel)%nat -> digits_value 0 (dec fuel n) = Some n.
Proof.
  revert n. induction fuel as [|fuel IH]; intros n Hn Hf; [lia|]. simpl.
  pose proof (Z.mod_pos_bound n 10 ltac:(lia)).
  destruct (Z.ltb_spec n 10).
  - simpl. rewrite digit_char_digit, code_digit_char by lia. f_equal. lia.
  - rewrite Nat2Z.inj_succ, Z.pow_succ_r in Hn by lia.
    destruct fuel as [|fuel]; [simpl in Hn; lia|].
    rewrite digits_value_app, IH; [|split; [apply Z.div_pos|apply Z.div_lt_upper_bound]; lia|lia].
    cbn -[dec]. rewrite digit_char_digit, code_digit_char by lia. f_equal.
    pose proof (Z.div_mod n 10). lia.
Qed.

Lemma zeros_digits k : is_digits (replicate k "0"%char).
Proof. apply Forall_replicate. reflexivity. Qed.

Lemma pad_left0_digits w s : is_digits s -> is_digits (pad_left0 w s).
Proof. intros. apply Forall_app. split; [apply zeros_digits|done]. Qed.

Lemma pad_left0_length w s : (length s <= w)%nat -> length (pad_left0 w s) = w.
Proof. intros. unfold pad_left0. rewrite length_app, length_replicate. lia. Qed.

Lemma pad_left0_value w s : digits_value 0 (pad_left0 w s) = digits_value 0 s.
Proof. unfold pad_left0. rewrite digits_value_app, digits_value_zeros. reflexivity. Qed.

(** ** Trimming and splitting *)

Lemma drop_while_id p s : Forall (fun c => p c = false) s -> drop_while p s = s.
Proof. destruct 1 as [|c s Hc Hs]; simpl; [done|]. by rewrite Hc. Qed.

Lemma trim_id s : Forall (fun c => is_whitespace c = false) s -> trim s = s.
Proof.
  intros H. unfold trim, trim_end_matches. rewrite (drop_while_id _ s H).
  rewrite drop_while_id; [apply rev_involutive|]. by apply Forall_rev.
Qed.

Lemma trim_end_zeros s :
  exists k, s = trim_end_matches is_zero_char s ++ replicate k "0"%char.
Proof.
  unfold trim_end_matches.
  assert (forall r, exists k, r = replicate k "0"%char ++ drop_while is_zero_char r) as Hd.
  { induction r as [|c r [k IH]]; [by exists 0%nat|]. simpl. unfold is_zero_char at 1.
    destruct (Ascii.eqb_spec c "0"%char) as [->|]; [|by exists 0%nat].
    exists (S k). simpl. by f_equal. }
  destruct (Hd (rev s)) as [k E]. exists k.
  transitivity (rev (rev s)); [by rewrite rev_involutive|].
  rewrite E at 1. rewrite rev_app_distr. f_equal.
  clear. induction k as [|k IH]; [done|]. simpl. rewrite IH.
  by rewrite <- replicate_cons_app.
Qed.

Lemma digit_not_space c : is_ascii_digit c = true -> is_whitespace c = false.
Proof. unfold is_ascii_digit, is_whitespace. zcases. Qed.

Lemma digit_neq c d : is_ascii_digit c = true -> is_ascii_digit d = false -> Ascii.eqb c d = false.
Proof. intros H1 H2. destruct (Ascii.eqb_spec c d); [congruence|done]. Qed.

Lemma split_dot_digits s r :
  is_digits s -> split_dot (s ++ "."%char :: r) = (s, Some r) /\ split_dot s = (s, None).
Proof.
  induction 1 as [|c s Hc Hs [IH1 IH2]]; simpl; [done|].
  rewrite (digit_neq c "."%char Hc eq_refl), IH1, IH2. done.
Qed.

Lemma parse_u128_digits s v :
  is_digits s -> s <> [] -> digits_value 0 s = Some v -> v <= u128_max -> parse_u128 s = Some v.
Proof.
  intros Hd Hne Hv Hle. unfold parse_u128.
  destruct s as [|c [|c' s]]; [done| |inversion Hd; rewrite (digit_neq c "+"%char) by done];
    rewrite Hv; zcases.
Qed.

(** ** Rendering and parsing *)

Lemma to_string_props n :
  fits u64_max n ->
  is_digits (to_string n) /\ to_string n <> [] /\ digits_value 0 (to_string n) = Some n.
Proof.
  unfold fits, to_string. intros H. split; [apply dec_digits; lia|]. split; [apply dec_nonempty|].
  apply digits_value_dec; [change (10 ^ Z.of_nat 20) with 100000000000000000000|]; lia.
Qed.

Lemma digits_trim s : is_digits s -> trim s = s.
Proof. intros H. apply trim_id. eapply Forall_impl; [apply digit_not_space|exact H]. Qed.

(** What [from_str] does after the sign test, on an integer part of digits. *)
Lemma from_str_parts w s frac_opt f :
  0 <= w <= u64_max / ATOMIC_UNITS -> trim s = s ->
  (exists c s', s = c :: s' /\ is_ascii_digit c = true) ->
  split_dot s = (to_string w, frac_opt) ->
  parse_frac frac_opt = Ok f -> 0 <= f -> w * ATOMIC_UNITS + f <= u64_max ->
  from_str s = Ok (w * ATOMIC_UNITS + f).
Proof.
  intros Hw Ht (c & s' & Es & Hc) Hsp Hf Hf0 Htot.
  assert (u64_max / ATOMIC_UNITS = 18446744) as Emax by reflexivity. rewrite Emax in Hw.
  destruct (to_string_props w) as (Hd & Hne & Hv); [unfold fits; lia|].
  unfold from_str. rewrite Ht. rewrite Es at 1.
  rewrite (digit_neq c "-"%char Hc eq_refl), Hsp.
  rewrite (parse_u128_digits _ w) by (done || lia). simpl rbind.
  rewrite Emax, (proj2 (Z.ltb_ge 18446744 w)) by lia.
  unfold ATOMIC_UNITS in *.
  rewrite wrap_small by (unfold fits; lia). rewrite Hf. simpl rbind.
  unfold Prelude.checked_add. rewrite (proj2 (Z.leb_le _ _)) by lia. simpl rbind.
  rewrite (proj2 (Z.ltb_ge u64_max _)) by lia. by rewrite wrap_small by (unfold fits; lia).
Qed.

Lemma to_string_head n :
  fits u64_max n -> exists c s', to_string n = c :: s' /\ is_ascii_digit c = true.
Proof.
  intros H. destruct (to_string_props n H) as (Hd & Hne & _).
  destruct (to_string n) as [|c s']; [done|]. exists c, s'. by inversion Hd.
Qed.

Lemma from_str_whole w :
  0 <= w <= u64_max / ATOMIC_UNITS -> from_str (to_string w) = Ok (w * ATOMIC_UNITS).
Proof.
  intros Hw. assert (u64_max / ATOMIC_UNITS = 18446744) as Emax by reflexivity.
  assert (fits u64_max w) as Hfit by (unfold fits; lia).
  destruct (to_string_props w Hfit) as (Hd & _ & _).
  rewrite <- (Z.add_0_r (w * ATOMIC_UNITS)).
  apply (from_str_parts w _ None); try done; try (unfold ATOMIC_UNITS in *; lia).
  - by apply digits_trim.
  - by apply to_string_head.
  - by apply (split_dot_digits _ []).
Qed.

Lemma from_str_point w t f :
  0 <= w <= u64_max / ATOMIC_UNITS -> is_digits t -> t <> [] -> (length t <= 12)%nat ->
  digits_value 0 (pad_right0 12 t) = Some f -> 0 <= f -> w * ATOMIC_UNITS + f <= u64_max ->
  from_str (to_string w ++ ["."%char] ++ t) = Ok (w * ATOMIC_UNITS + f).
Proof.
  intros Hw Ht Hne Hlen Hv Hf Htot.
  assert (u64_max / ATOMIC_UNITS = 18446744) as Emax by reflexivity.
  assert (fits u64_max w) as Hfit by (unfold fits; lia).
  destruct (to_string_props w Hfit) as (Hd & _ & _).
  apply (from_str_parts w _ (Some t)); try done.
  - apply trim_id, Forall_app. split; [eapply Forall_impl; [apply digit_not_space|exact Hd]|].
    constructor; [reflexivity|]. eapply Forall_impl; [apply digit_not_space|exact Ht].
  - destruct (to_string_head w Hfit) as (c & s' & -> & Hc). exists c, (s' ++ ["."%char] ++ t). done.
  - by apply split_dot_digits.
  - assert (is_digits (pad_right0 12 t)) by (apply Forall_app; split; [done|apply zeros_digits]).
    unfold parse_frac. destruct t as [|c t'] eqn:Et; [done|]. rewrite <- Et in *.
    assert (forallb is_ascii_digit t = true) as ->.
    { apply forallb_forall. intros x Hx. rewrite Forall_forall in Ht. by apply Ht. }
    simpl negb. cbv iota. rewrite take_ge by lia.
    rewrite (parse_u128_digits _ f); try done.
    + unfold pad_right0. rewrite Et. done.
    + unfold ATOMIC_UNITS in *. lia.
Qed.

(** The fraction rendered with [m] decimals, padded back to twelve digits. *)
Lemma trimmed_value frac m :
  0 <= frac < ATOMIC_UNITS -> (m <= 12)%nat ->
  let t := trim_end_matches is_zero_char (take m (pad_left0 12 (to_string frac))) in
  is_digits t /\ (length t <= 12)%nat
  /\ digits_value 0 (pad_right0 12 t)
     = Some (frac / 10 ^ (12 - Z.of_nat m) * 10 ^ (12 - Z.of_nat m)).
Proof.
  intros Hf Hm t. unfold ATOMIC_UNITS in *.
  destruct (to_string_props frac) as (Hd & _ & Hv); [unfold fits; lia|].
  set (F := pad_left0 12 (to_string frac)) in *.
  assert (length F = 12%nat) as HlF.
  { apply pad_left0_length, dec_length; [change (10 ^ Z.of_nat 12) with 1000000000000|]; lia. }
  assert (is_digits F) as HdF by by apply pad_left0_digits.
  assert (digits_value 0 F = Some frac) as HvF by (unfold F; by rewrite pad_left0_value).
  destruct (trim_end_zeros (take m F)) as [k Ek]. fold t in Ek.
  assert (is_digits (take m F)) as HdG by by apply Forall_take.
  assert (length (take m F) = m) as HlG by (rewrite length_take; lia).
  assert (length t + k = m)%nat as Hlt.
  { rewrite <- HlG, Ek, length_app, length_replicate. lia. }
  assert (is_digits t) as Hdt by (rewrite Ek in HdG; apply Forall_app in HdG; tauto).
  split; [done|]. split; [lia|].
  assert (pad_right0 12 t = take m F ++ replicate (12 - m) "0"%char) as ->.
  { unfold pad_right0. rewrite Ek, <- app_assoc, <- replicate_add. do 2 f_equal. lia. }
  destruct (digits_value_total _ HdG) as (g & Hg & HG).
  destruct (digits_value_total (drop m F)) as (r & Hr & HR); [by apply Forall_drop|].
  rewrite length_drop, HlF in Hr, HR. rewrite HlG in HG.
  rewrite digits_value_app, HG. simpl. rewrite digits_value_zeros.
  rewrite <- (take_drop m F), digits_value_app, HG in HvF. simpl in HvF. rewrite HR in HvF.
  injection HvF as HvF. replace (12 - Z.of_nat m) with (Z.of_nat (12 - m)) by lia.
  do 2 f_equal. apply (Z.div_unique_pos _ _ _ r); lia.
Qed.

Lemma format_parse a dcs :
  fits u64_max a ->
  let unit := 10 ^ (12 - Z.of_nat (Nat.min dcs 12)) in
  from_str (format a dcs) = Ok (a / unit * unit).
Proof.
  intros Ha unit. unfold format. set (m := Nat.min dcs 12) in *.
  pose proof (Z.div_mod a ATOMIC_UNITS ltac:(done)) as Ediv.
  pose proof (Z.mod_pos_bound a ATOMIC_UNITS ltac:(done)) as Hfrac.
  set (w := a / ATOMIC_UNITS) in *. set (frac := a mod ATOMIC_UNITS) in *.
  assert (0 <= w <= u64_max / ATOMIC_UNITS) as Hw.
  { unfold w, fits in *. split; [apply Z.div_pos; [lia|done]|apply Z.div_le_mono; [done|lia]]. }
  assert (ATOMIC_UNITS = 10 ^ Z.of_nat m * unit) as Eu.
  { unfold unit. rewrite <- Z.pow_add_r by lia. replace (_ + _) with 12 by lia. reflexivity. }
  assert (0 < unit) as Hu by (apply Z.pow_pos_nonneg; lia).
  assert (a / unit * unit = w * ATOMIC_UNITS + frac / unit * unit) as ->.
  { rewrite Ediv at 1. rewrite Eu at 1.
    replace (10 ^ Z.of_nat m * unit * w + frac) with (frac + (10 ^ Z.of_nat m * w) * unit) by lia.
    rewrite Z.div_add by lia. rewrite Eu. lia. }
  destruct (trimmed_value frac m Hfrac) as (Hd & Hl & Hv); [lia|]. fold unit in Hv.
  destruct (Nat.eqb_spec dcs 0) as [E0|].
  - rewrite from_str_whole by done. f_equal.
    assert (frac / unit = 0) as ->; [|lia]. apply Z.div_small.
    unfold unit, m. rewrite E0. exact Hfrac.
  - destruct (trim_end_matches _ _) as [|c t'] eqn:Et.
    + rewrite from_str_whole by done. f_equal.
      change (digits_value 0 (pad_right0 12 [])) with (Some 0) in Hv. inv_res. lia.
    + apply from_str_point; try done.
      * apply Z.mul_nonneg_nonneg; [apply Z.div_pos|]; lia.
      * pose proof (Z.mul_div_le frac unit Hu). unfold fits in Ha. lia.
Qed.

(** ** Properties *)

(** Rendering and parsing agree: parsing an amount rendered with [d] decimals gives the
    amount rounded down to [d] decimals, for every 64-bit amount; with twelve decimals or
    more the round trip is exact. *)
Theorem format_from_str_roundtrip a d :
  fits u64_max a ->
  from_str (format a d)
  = Ok (a / 10 ^ (12 - Z.of_nat (Nat.min d 12)) * 10 ^ (12 - Z.of_nat (Nat.min d 12)))
  /\ ((12 <= d)%nat -> from_str (format a d) = Ok a).
Proof.
  intros Ha. split; [by apply format_parse|]. intros Hd. rewrite format_parse by done.
  rewrite Nat.min_r by lia. change (10 ^ (12 - Z.of_nat 12)) with 1.
  by rewrite Z.div_1_r, Z.mul_1_r.
Qed.

(** The parser never accepts an amount out of range and never wraps: whatever the string,
    a successful result is a 64-bit amount. *)
Theorem from_str_in_range s a : from_str s = Ok a -> fits u64_max a.
Proof.
  unfold from_str. destruct (trim s) as [|c r]; [done|].
  destruct (Ascii.eqb c "-"%char); [done|].
  destruct (split_dot (c :: r)) as [i f]. destruct (ok_or _ _) as [n|]; [|done]. simpl rbind.
  destruct (_ <? n); [done|]. destruct (parse_frac f) as [fr|]; [|done]. simpl rbind.
  destruct (ok_or (Prelude.checked_add _ _ _) _) as [t|]; [|done]. simpl rbind.
  destruct (_ <? t); [done|]. intros [= <-]. apply wrap_fits. lia.
Qed.

(** Percentages in basis points: the rounded percentage is the nearest integer (ties up),
    the truncated one the floor, both computed without overflow and saturating at the top of
    the range; up to 100 percent neither exceeds the amount. *)
Theorem percentage_correct a bp :
  fits u64_max a -> fits u64_max bp ->
  percentage a bp = Z.min u64_max ((a * bp + 5000) / 10000)
  /\ percentage_truncate a bp = Z.min u64_max (a * bp / 10000)
  /\ percentage_truncate a bp <= percentage a bp <= percentage_truncate a bp + 1
  /\ (bp <= 10000 -> percentage a bp <= a).
Proof.
  unfold fits. intros Ha Hb. unfold percentage, percentage_truncate.
  assert (0 <= a * bp <= u128_max - 5000) as Hp by nia.
  rewrite (wrap_small u128_max (a * bp)) by (unfold fits; lia).
  rewrite (wrap_small u128_max (a * bp + 5000)) by (unfold fits; lia).
  assert (0 <= a * bp / 10000) by (apply Z.div_pos; lia).
  assert (a * bp / 10000 <= (a * bp + 5000) / 10000 <= a * bp / 10000 + 1) as Hr.
  { split; [apply Z.div_le_mono; lia|]. apply Z.lt_succ_r, Z.div_lt_upper_bound; [lia|].
    pose proof (Z.mul_succ_div_gt (a * bp) 10000). lia. }
  rewrite !wrap_small by (unfold fits; lia). do 2 (split; [lia|]). split; [lia|]. intros Hbp.
  assert ((a * bp + 5000) / 10000 <= a); [|lia].
  apply Z.lt_succ_r, Z.div_lt_upper_bound; nia.
Qed.

Lemma format_from_str_roundtrip_witness : from_str (format 1234567890123456789 12) = Ok 1234567890123456789.
Proof. apply (proj2 (format_from_str_roundtrip 1234567890123456789 12 ltac:(unfold fits; lia))). lia. Defined.

Lemma from_str_in_range_witness : fits u64_max 1500000000000.
Proof. apply (from_str_in_range (list_ascii_of_string "1.5")). reflexivity. Defined.

Lemma percentage_correct_witness : percentage 12345 250 = 309.
Proof.
  rewrite (proj1 (percentage_correct 12345 250 ltac:(unfold fits; lia) ltac:(unfold fits; lia))).
  reflexivity.
Defined.

End Amount.
