(* ===== verification/Emission.v ===== *)
(** * Emission (src/src/emission/curve.rs, supply.rs, mod.rs; src/src/security/supply.rs)

    The block subsidy.  [Curve] models the height-based consensus reward: an
    adaptive-step integrator of the asymptotic curve, whose loop is run with
    fuel [estimate_fuel]; [Supply] models the cumulative emission and the
    reconciliation of the chain's supply counter against it. *)

From S2P Require Import Prelude Constants.

Module Curve.

Inductive EmissionPhase := Distribution | Mature | Tail.

(** [cap_atomic], the same local of three functions of the source. *)
Definition cap_atomic : Z := wrap u128_max (TOTAL_SUPPLY_TARGET * COIN).

Definition base_reward_from_supply (cumulative_supply_atomic : Z) : Z :=
  let remaining := saturating_sub cap_atomic cumulative_supply_atomic in
  let reward := remaining / EMISSION_DIVISOR in
  let reward := Z.max reward TAIL_EMISSION in
  wrap u64_max reward.

(** The adaptive step of [estimate_supply_at_height]. *)
Definition step_size (height : Z) : Z :=
  if 1000000 <? height then 10000
  else if 100000 <? height then 1000
  else if 10000 <? height then 100
  else 10.

(** One iteration of the [while] loop on [(supply, h)]; the exits are the end of
    the loop and the tail fast path. *)
Definition estimate_step (height step : Z) (st : Z * Z) : (Z * Z) + Z :=
  let '(supply, h) := st in
  if h <? height then
    let remaining := saturating_sub cap_atomic supply in
    let asymptotic_reward := remaining / EMISSION_DIVISOR in
    let reward := Z.max asymptotic_reward TAIL_EMISSION in
    if asymptotic_reward <? TAIL_EMISSION then
      let remaining_blocks := height - h in
      inr (saturating_add u128_max supply
             (saturating_mul u128_max TAIL_EMISSION remaining_blocks))
    else
      let blocks_in_step := Z.min (height - h) step in
      inl (wrap u128_max (supply + wrap u128_max (reward * blocks_in_step)),
           wrap u64_max (h + blocks_in_step))
  else inr supply.

(** At most 1000 steps of each band, then the exit. *)
Definition estimate_fuel : nat := 1001.

Definition estimate_supply_loop (height : Z) : option Z :=
  iter (estimate_step height (step_size height)) estimate_fuel (0, 0).

Definition estimate_supply_at_height (height : Z) : Z :=
  if height =? 0 then 0
  else match estimate_supply_loop height with
       | Some supply => Z.min supply cap_atomic
       | None => 0
       end.

Definition base_reward (height : Z) : Z :=
  let supply_estimate := estimate_supply_at_height height in
  base_reward_from_supply supply_estimate.

Definition block_reward (height : Z) : Z := base_reward height.

(** [emission::calculate_block_reward] *)
Definition calculate_block_reward (height : Z) : Z := base_reward height.

Definition estimate_reward_at_height (height : Z) : Z :=
  let supply := estimate_supply_at_height height in
  let remaining := saturating_sub cap_atomic supply in
  let reward := remaining / EMISSION_DIVISOR in
  wrap u64_max (Z.max reward TAIL_EMISSION).

Definition emission_phase (height : Z) : EmissionPhase :=
  let estimated_reward := estimate_reward_at_height height in
  if estimated_reward <=? TAIL_EMISSION then Tail
  else if estimated_reward <=? 10 * COIN then Mature
  else Distribution.

(** ** Reference integrator

    [piecewise step h] is the supply obtained by paying, for every block [i < h],
    the reward of the supply at the last multiple of [step] not above [i]. *)

Definition reward_at (supply : Z) : Z :=
  Z.max (saturating_sub cap_atomic supply / EMISSION_DIVISOR) TAIL_EMISSION.

Fixpoint knot (step : Z) (k : nat) : Z :=
  match k with
  | O => 0
  | S k' => let s := knot step k' in s + step * reward_at s
  end.

Definition piecewise (step h : Z) : Z :=
  let s := knot step (Z.to_nat (h / step)) in
  s + (h mod step) * reward_at s.

(** The end of a full step is a knot again. *)
Lemma cap_atomic_value : cap_atomic = 100000000000000000000.
Proof. reflexivity. Qed.

#[local] Hint Unfold reward_at : mach.
Ltac curve := rewrite ?cap_atomic_value in *; mach.

Lemma reward_at_bounds s : 0 <= s -> TAIL_EMISSION <= reward_at s <= 50 * COIN.
Proof.
  intros Hs. unfold reward_at, EMISSION_DIVISOR. curve.
  set (r := Z.max 0 (100000000000000000000 - s)).
  assert (0 <= r <= 100000000000000000000) by (unfold r; lia).
  assert (r / 2000000 <= 50000000000000) by (apply Z.div_le_upper_bound; lia). lia.
Qed.

Lemma reward_at_antitone s s' : s <= s' -> reward_at s' <= reward_at s.
Proof.
  intros Hs. unfold reward_at. apply Z.max_le_compat_r, Z.div_le_mono; curve.
Qed.

Lemma knot_nonneg step k : 0 <= step -> 0 <= knot step k.
Proof.
  intros Hs. induction k as [|k IH]; simpl; [lia|].
  pose proof (reward_at_bounds _ IH) as [H _]. unfold TAIL_EMISSION in H. nia.
Qed.

Lemma piecewise_succ step h :
  0 < step -> 0 <= h ->
  piecewise step (h + 1) = piecewise step h + reward_at (knot step (Z.to_nat (h / step))).
Proof.
  intros Hst Hh. unfold piecewise.
  destruct (Z.eq_dec (h mod step) (step - 1)) as [E|E].
  - assert (h + 1 = step * (h / step + 1)) as Eh by (pose proof (Z.div_mod h step); nia).
    assert ((h + 1) / step = h / step + 1) as -> by
      (rewrite Eh, Z.mul_comm, Z.div_mul; lia).
    assert ((h + 1) mod step = 0) as -> by (rewrite Eh, Z.mul_comm, Z.mod_mul; lia).
    assert (0 <= h / step) by (apply Z.div_pos; lia).
    replace (Z.to_nat (h / step + 1)) with (S (Z.to_nat (h / step))) by lia.
    simpl. rewrite E. nia.
  - pose proof (Z.mod_pos_bound h step Hst).
    assert ((h + 1) / step = h / step) as ->.
    { symmetry. apply (Z.div_unique _ _ _ (h mod step + 1)); [lia|].
      pose proof (Z.div_mod h step); lia. }
    assert ((h + 1) mod step = h mod step + 1) as ->.
    { symmetry. apply (Z.mod_unique _ _ (h / step)); [lia|].
      pose proof (Z.div_mod h step); lia. }
    nia.
Qed.

Lemma piecewise_0 step : 0 < step -> piecewise step 0 = 0.
Proof. intros. unfold piecewise. rewrite Z.div_0_l, Z.mod_0_l by lia. reflexivity. Qed.

Lemma piecewise_knot step k :
  0 < step -> 0 <= k -> piecewise step (step * k) = knot step (Z.to_nat k).
Proof.
  intros. unfold piecewise. rewrite (Z.mul_comm step), Z.mod_mul, Z.div_mul by lia. lia.
Qed.

Lemma piecewise_le_succ step h :
  0 < step -> 0 <= h -> piecewise step h + TAIL_EMISSION <= piecewise step (h + 1).
Proof.
  intros. rewrite piecewise_succ by lia.
  pose proof (knot_nonneg step (Z.to_nat (h / step)) ltac:(lia)) as Hn.
  pose proof (reward_at_bounds _ Hn). lia.
Qed.

Lemma piecewise_mono step h h' :
  0 < step -> 0 <= h <= h' -> piecewise step h <= piecewise step h'.
Proof.
  intros Hs [H0 Hle]. replace h' with (h + (h' - h)) by lia.
  assert (0 <= h' - h) as Hn by lia. revert Hn. generalize (h' - h).
  apply natlike_ind; [rewrite Z.add_0_r; lia|]. intros n Hn IH.
  pose proof (piecewise_le_succ step (h + n) Hs ltac:(lia)) as Hp.
  unfold Z.succ, TAIL_EMISSION in *. rewrite Z.add_assoc. lia.
Qed.

Lemma piecewise_nonneg step h : 0 < step -> 0 <= h -> 0 <= piecewise step h.
Proof. intros. rewrite <- (piecewise_0 step) by lia. apply piecewise_mono; lia. Qed.

(** Within a step the reward is that of the knot. *)
Lemma piecewise_in_step step k b :
  0 < step -> 0 <= k -> 0 <= b <= step ->
  piecewise step (step * k + b)
  = piecewise step (step * k) + b * reward_at (piecewise step (step * k)).
Proof.
  intros Hs Hk [Hb Hle]. rewrite (piecewise_knot step k) by lia.
  destruct (Z.eq_dec b step) as [->|].
  - replace (step * k + step) with (step * (k + 1)) by lia.
    rewrite piecewise_knot by lia.
    replace (Z.to_nat (k + 1)) with (S (Z.to_nat k)) by lia. reflexivity.
  - unfold piecewise.
    assert ((step * k + b) / step = k) as -> by (symmetry; apply (Z.div_unique _ _ _ b); lia).
    assert ((step * k + b) mod step = b) as -> by (symmetry; apply (Z.mod_unique _ _ k); lia).
    reflexivity.
Qed.

(** The tail floor is absorbing. *)
Lemma reward_at_tail_absorbing s s' :
  0 <= s <= s' -> reward_at s = TAIL_EMISSION -> reward_at s' = TAIL_EMISSION.
Proof.
  intros [? ?] E. pose proof (reward_at_antitone s s' ltac:(lia)).
  pose proof (reward_at_bounds s' ltac:(lia)). lia.
Qed.

Lemma piecewise_tail step k n :
  0 < step -> 0 <= k -> 0 <= n ->
  reward_at (piecewise step (step * k)) = TAIL_EMISSION ->
  piecewise step (step * k + n) = piecewise step (step * k) + TAIL_EMISSION * n.
Proof.
  intros Hs Hk Hn Ht. revert n Hn. apply natlike_ind; [rewrite Z.mul_0_r, !Z.add_0_r; reflexivity|].
  intros n Hn IH. unfold Z.succ. rewrite Z.add_assoc, piecewise_succ, IH by lia.
  enough (reward_at (knot step (Z.to_nat ((step * k + n) / step))) = TAIL_EMISSION) by lia.
  assert (k <= (step * k + n) / step) by (apply Z.div_le_lower_bound; lia).
  rewrite <- piecewise_knot by lia.
  apply (reward_at_tail_absorbing (piecewise step (step * k))); [|done].
  split; [apply piecewise_nonneg; lia | apply piecewise_mono; nia].
Qed.

(** ** The loop computes the reference integrator *)

Section Loop.
Context (height step : Z).
Hypothesis Hstep : 0 < step <= 10000.
Hypothesis Hheight : fits u64_max height.

(** After 1000 steps either the height or the tail is reached. *)
Hypothesis Hband :
  height <= 1000 * step \/ saturating_sub cap_atomic (knot step 1000) / EMISSION_DIVISOR < TAIL_EMISSION.

Definition loop_inv (st : Z * Z) : Prop :=
  let '(s, h) := st in
  0 <= h <= height /\ s = piecewise step h /\ 0 <= s <= cap_atomic
  /\ (h = height \/ exists k, 0 <= k /\ h = step * k).

Lemma loop_start : loop_inv (0, 0).
Proof.
  simpl. rewrite piecewise_0, cap_atomic_value by lia.
  unfold fits in *. repeat split; try lia. right. exists 0. lia.
Qed.

(** What a continuing iteration does. *)
Lemma loop_continue s h s' h' :
  loop_inv (s, h) -> estimate_step height step (s, h) = inl (s', h') ->
  exists k, 0 <= k < 1000 /\ h = step * k /\ h < height
    /\ loop_inv (s', h') /\ h' = Z.min height (h + step).
Proof.
  unfold loop_inv, estimate_step. intros (Hh & Es & Hs & Hk).
  destruct (Z.ltb_spec h height) as [Hlt|]; [|done].
  destruct Hk as [->|(k & Hk0 & Ek)]; [lia|].
  destruct (Z.ltb_spec (saturating_sub cap_atomic s / EMISSION_DIVISOR) TAIL_EMISSION)
    as [|Hasym]; [done|]. intros [= <- <-].
  rewrite Z.max_l by lia.
  set (r := saturating_sub cap_atomic s / EMISSION_DIVISOR) in *.
  assert (reward_at s = r) as Er by (unfold reward_at; fold r; lia).
  set (b := Z.min (height - h) step).
  assert (0 <= b <= step) as Hb by (unfold b; lia).
  assert (r * EMISSION_DIVISOR <= cap_atomic - s) as Hr.
  { unfold r, saturating_sub. rewrite Z.max_r by lia. rewrite Z.mul_comm.
    apply Z.mul_div_le. reflexivity. }
  assert (0 <= r * b <= cap_atomic - s) as Hrb by (unfold EMISSION_DIVISOR, TAIL_EMISSION in *; nia).
  rewrite cap_atomic_value in *. unfold fits in *.
  rewrite (wrap_small u128_max (r * b)) by (unfold fits; lia).
  rewrite !wrap_small by (unfold fits; lia).
  assert (s + r * b = piecewise step (h + b)) as Enew.
  { rewrite Ek, piecewise_in_step, <- Ek, <- Es, Er by lia. lia. }
  exists k. split; [split; [done|]|].
  { destruct Hband as [Hb1|Hb2]; [nia|]. destruct (Z.lt_ge_cases k 1000) as [|Hge]; [done|exfalso].
    assert (knot step 1000 <= s).
    { replace 1000%nat with (Z.to_nat 1000) by reflexivity.
      rewrite Es, Ek, <- piecewise_knot by lia. apply piecewise_mono; nia. }
    assert (r <= saturating_sub 100000000000000000000 (knot step 1000) / EMISSION_DIVISOR); [|lia].
    apply Z.div_le_mono; [done|]. rewrite cap_atomic_value. unfold saturating_sub. lia. }
  repeat split; try lia.
  destruct (Z.le_gt_cases (height - h) step).
  - left. lia.
  - right. exists (k + 1). nia.
Qed.

(** Every exit returns the reference value. *)
Lemma loop_exit st a :
  loop_inv st -> estimate_step height step st = inr a -> a = piecewise step height.
Proof.
  destruct st as [s h]. unfold loop_inv, estimate_step. intros (Hh & Es & Hs & Hk).
  destruct (Z.ltb_spec h height) as [Hlt|]; [|intros [= <-]; subst s; f_equal; lia].
  destruct Hk as [->|(k & Hk0 & Ek)]; [lia|].
  destruct (Z.ltb_spec (saturating_sub cap_atomic s / EMISSION_DIVISOR) TAIL_EMISSION)
    as [Hlow|]; [|done]. intros [= <-].
  assert (reward_at s = TAIL_EMISSION) as Er by (unfold reward_at; lia).
  unfold fits in *. rewrite cap_atomic_value in *.
  unfold saturating_add, saturating_mul.
  assert (TAIL_EMISSION * (height - h) <= u128_max - s) by (unfold TAIL_EMISSION; nia).
  rewrite !Z.min_r by lia.
  replace height with (step * k + (height - h)) at 2 by lia.
  rewrite piecewise_tail, <- Ek, <- Es by (try lia; rewrite <- Ek, <- Es; done). reflexivity.
Qed.

Lemma loop_result : iter (estimate_step height step) estimate_fuel (0, 0) = Some (piecewise step height).
Proof.
  destruct (iter_total (estimate_step height step)
              (fun '(s, h) => if h <? height then Z.to_nat (1000 - h / step) else O)
              loop_inv) with (fuel := estimate_fuel) (s := (0, 0)) as [a Ha].
  - intros [s h] [s' h'] HI E. destruct (loop_continue _ _ _ _ HI E) as (k & Hk & -> & Hlt & HI' & ->).
    split; [done|]. rewrite (proj2 (Z.ltb_lt (step * k) height)) by done.
    rewrite (Z.mul_comm step k), Z.div_mul by lia.
    destruct (Z.ltb_spec (Z.min height (k * step + step)) height); [|lia].
    rewrite Z.min_r by lia. replace (k * step + step) with ((k + 1) * step) by lia.
    rewrite Z.div_mul by lia. lia.
  - apply loop_start.
  - unfold estimate_fuel. rewrite Z.div_0_l by lia. destruct (0 <? height); lia.
  - rewrite Ha. f_equal. revert Ha. apply (iter_inv _ loop_inv (fun a => a = piecewise step height)).
    + intros [s h] [s' h'] HI E. destruct (loop_continue _ _ _ _ HI E) as (k & _ & _ & _ & HI' & _). done.
    + intros st a' HI E. by apply (loop_exit st).
    + apply loop_start.
Qed.
End Loop.

Lemma step_size_band height :
  fits u64_max height ->
  0 < step_size height <= 10000
  /\ (height <= 1000 * step_size height
      \/ saturating_sub cap_atomic (knot (step_size height) 1000) / EMISSION_DIVISOR < TAIL_EMISSION).
Proof.
  intros Hh. unfold step_size. zcases; (split; [lia|]); try (left; lia).
  right. apply Z.ltb_lt. vm_compute. reflexivity.
Qed.

Lemma estimate_supply_piecewise height :
  fits u64_max height ->
  estimate_supply_at_height height = Z.min (piecewise (step_size height) height) cap_atomic.
Proof.
  intros Hh. unfold estimate_supply_at_height, estimate_supply_loop.
  destruct (step_size_band height Hh) as [Hs Hb].
  destruct (Z.eqb_spec height 0) as [->|].
  - rewrite piecewise_0 by lia. reflexivity.
  - rewrite loop_result by done. reflexivity.
Qed.

Lemma base_reward_from_supply_eq s : 0 <= s -> base_reward_from_supply s = reward_at s.
Proof.
  intros Hs. unfold base_reward_from_supply. fold (reward_at s). apply wrap_small.
  pose proof (reward_at_bounds s Hs). unfold fits, TAIL_EMISSION, COIN in *. lia.
Qed.

Lemma reward_at_min_cap s : reward_at (Z.min s cap_atomic) = reward_at s.
Proof. unfold reward_at, saturating_sub. do 2 f_equal. lia. Qed.

Lemma base_reward_piecewise height :
  fits u64_max height -> base_reward height = reward_at (piecewise (step_size height) height).
Proof.
  intros Hh. unfold base_reward. rewrite estimate_supply_piecewise by done.
  destruct (step_size_band height Hh) as [Hs _].
  rewrite base_reward_from_supply_eq, reward_at_min_cap; [done|].
  pose proof (piecewise_nonneg (step_size height) height ltac:(lia) (proj1 Hh)).
  rewrite cap_atomic_value. lia.
Qed.

(** The estimate does not drop when the height crosses into the next band, although
    the step size changes there. *)
Lemma band_boundary h :
  step_size h <> step_size (h + 1) ->
  piecewise (step_size h) h <= piecewise (step_size (h + 1)) (h + 1).
Proof.
  intros Hne.
  assert (h = 10000 \/ h = 100000 \/ h = 1000000) as Hh
    by (revert Hne; unfold step_size; zcases).
  apply Z.leb_le. destruct Hh as [->|[->| ->]]; vm_compute; reflexivity.
Qed.

Lemma piecewise_step_size_mono h h' :
  0 <= h <= h' -> piecewise (step_size h) h <= piecewise (step_size h') h'.
Proof.
  intros [H0 Hle]. replace h' with (h + (h' - h)) by lia.
  assert (0 <= h' - h) as Hn by lia. revert Hn. generalize (h' - h). clear h' Hle.
  apply natlike_ind; [rewrite Z.add_0_r; lia|]. intros n Hn IH.
  replace (h + Z.succ n) with (h + n + 1) by lia. etransitivity; [exact IH|].
  destruct (Z.eq_dec (step_size (h + n)) (step_size (h + n + 1))) as [E|E].
  - rewrite <- E. apply piecewise_mono; [unfold step_size; zcases|lia].
  - by apply band_boundary.
Qed.

Lemma base_reward_antitone h h' :
  fits u64_max h -> fits u64_max h' -> h <= h' -> base_reward h' <= base_reward h.
Proof.
  intros Hh Hh' Hle. rewrite !base_reward_piecewise by done.
  apply reward_at_antitone, piecewise_step_size_mono. unfold fits in *. lia.
Qed.

Lemma base_reward_bounds h :
  fits u64_max h -> TAIL_EMISSION <= base_reward h <= 50 * COIN.
Proof.
  intros Hh. rewrite base_reward_piecewise by done. apply reward_at_bounds, piecewise_nonneg;
    destruct (step_size_band h Hh), Hh; lia.
Qed.

Lemma phase_reward_agrees h : fits u64_max h -> estimate_reward_at_height h = base_reward h.
Proof. intros. reflexivity. Qed.

(** ** Properties *)

(** C40: The supply estimate behind the consensus reward terminates within [estimate_fuel]
    iterations for every 64-bit height, [u64::MAX] included, and its result is the
    piecewise integral of the reward curve, capped at the asymptote. *)
Theorem estimate_supply_total height :
  fits u64_max height ->
  estimate_supply_loop height = Some (piecewise (step_size height) height)
  /\ estimate_supply_at_height height = Z.min (piecewise (step_size height) height) cap_atomic.
Proof.
  intros Hh. split; [|by apply estimate_supply_piecewise].
  destruct (step_size_band height Hh) as [Hs Hb]. by apply loop_result.
Qed.

(** The consensus reward never increases with the height, across the changes of the
    adaptive step as well; it starts at 50 CYNC and never falls below the tail emission. *)
Theorem base_reward_monotone h h' :
  fits u64_max h -> fits u64_max h' -> h <= h' ->
  TAIL_EMISSION <= base_reward h' <= base_reward h /\ base_reward h <= base_reward 0
  /\ base_reward 0 = 50 * COIN.
Proof.
  intros Hh Hh' Hle. pose proof (base_reward_bounds h' Hh').
  pose proof (base_reward_antitone h h' Hh Hh' Hle).
  assert (base_reward h <= base_reward 0) by (apply base_reward_antitone; unfold fits in *; lia).
  split; [lia|]. split; [done|reflexivity].
Qed.

(** The phase label agrees with the reward that is paid: [Tail] exactly when the reward
    is the tail emission, [Mature] exactly when it is above it and at most 10 CYNC. *)
Theorem emission_phase_correct h :
  fits u64_max h ->
  (emission_phase h = Tail <-> base_reward h = TAIL_EMISSION)
  /\ (emission_phase h = Mature <-> TAIL_EMISSION < base_reward h <= 10 * COIN)
  /\ (emission_phase h = Distribution <-> 10 * COIN < base_reward h).
Proof.
  intros Hh. pose proof (base_reward_bounds h Hh). unfold emission_phase.
  rewrite phase_reward_agrees by done. unfold TAIL_EMISSION, COIN in *.
  zcases; repeat split; intros; try done; lia.
Qed.

Lemma estimate_supply_total_witness :
  estimate_supply_loop u64_max = Some (piecewise 10000 u64_max)
  /\ estimate_supply_at_height u64_max = cap_atomic.
Proof.
  split; [exact (proj1 (estimate_supply_total u64_max ltac:(unfold fits; lia)))|].
  vm_compute. reflexivity.
Defined.

Lemma base_reward_monotone_witness :
  base_reward 2628000 <= base_reward 262800 /\ base_reward 262800 = 43841908039261.
Proof.
  split; [|vm_compute; reflexivity].
  apply (base_reward_monotone 262800 2628000); unfold fits; lia.
Defined.

Lemma emission_phase_correct_witness : emission_phase 9000000 = Tail.
Proof.
  apply (proj1 (emission_phase_correct 9000000 ltac:(unfold fits; lia))). vm_compute. reflexivity.
Defined.

End Curve.

Module Supply.
Import Curve.

(** One iteration of the [loop] of [cumulative_emission] on [(total, h)]. *)
Definition cumulative_step (tip_height : Z) (st : Z * Z) : (Z * Z) + Z :=
  let '(total, h) := st in
  let reward := base_reward h in
  if reward =? TAIL_EMISSION then
    let remaining_inclusive := tip_height - h + 1 in
    inr (saturating_add u128_max total (saturating_mul u128_max TAIL_EMISSION remaining_inclusive))
  else
    let total := saturating_add u128_max total reward in
    if h =? tip_height then inr total else inl (total, wrap u64_max (h + 1)).

Definition cumulative_loop (tip_height : Z) : option Z :=
  iter (cumulative_step tip_height) (S (Z.to_nat tip_height)) (0, 0).

Definition cumulative_emission (tip_height : Z) : Z :=
  match cumulative_loop tip_height with Some total => total | None => 0 end.

Record SupplyStats := mkSupplyStats {
  total_emitted : Z;
  total_burned : Z;
  circulating : Z;
  emission_remaining : Z;
  in_tail : bool }.

(** [SupplyStats::new] *)
Definition new_stats (emitted burned remaining : Z) (tail : bool) : SupplyStats :=
  mkSupplyStats emitted burned (saturating_sub emitted burned) remaining tail.

(** ** The reference: the inclusive sum of the per-block rewards *)

Fixpoint emission_sum (n : nat) : Z :=
  match n with
  | O => 0
  | S n' => emission_sum n' + base_reward (Z.of_nat n')
  end.

Lemma emission_sum_bounds n :
  Z.of_nat n <= u64_max + 1 ->
  TAIL_EMISSION * Z.of_nat n <= emission_sum n <= 50 * COIN * Z.of_nat n.
Proof.
  induction n as [|n IH]; intros Hn; [simpl; lia|].
  cbn [emission_sum]. pose proof (base_reward_bounds (Z.of_nat n) ltac:(unfold fits; lia)). lia.
Qed.

Lemma base_reward_tail_absorbing h h' :
  fits u64_max h -> fits u64_max h' -> h <= h' ->
  base_reward h = TAIL_EMISSION -> base_reward h' = TAIL_EMISSION.
Proof.
  intros Hh Hh' Hle E. pose proof (base_reward_antitone h h' Hh Hh' Hle).
  pose proof (base_reward_bounds h' Hh'). lia.
Qed.

Lemma emission_sum_tail h n :
  0 <= h -> h + Z.of_nat n <= u64_max + 1 -> base_reward h = TAIL_EMISSION ->
  emission_sum (Z.to_nat h + n) = emission_sum (Z.to_nat h) + TAIL_EMISSION * Z.of_nat n.
Proof.
  intros H0 Hn E. induction n as [|n IH].
  - rewrite Nat.add_0_r. lia.
  - rewrite Nat.add_succ_r. cbn [emission_sum].
    rewrite IH, (base_reward_tail_absorbing h) by (unfold fits; try lia; done). lia.
Qed.

Section Cumulative.
Context (tip : Z).
Hypothesis Htip : fits u64_max tip.

Definition cumulative_inv (st : Z * Z) : Prop :=
  let '(total, h) := st in 0 <= h <= tip /\ total = emission_sum (Z.to_nat h).

Lemma cumulative_continue total h st' :
  cumulative_inv (total, h) -> cumulative_step tip (total, h) = inl st' ->
  h < tip /\ cumulative_inv st' /\ snd st' = h + 1.
Proof.
  unfold cumulative_inv, cumulative_step, fits in *. intros [Hh ->].
  destruct (base_reward h =? TAIL_EMISSION); [done|].
  destruct (Z.eqb_spec h tip); [done|]. intros [= <-].
  pose proof (emission_sum_bounds (S (Z.to_nat h)) ltac:(lia)) as Hb.
  cbn [emission_sum] in Hb. rewrite Z2Nat.id in Hb by lia.
  rewrite wrap_small by (unfold fits; lia). simpl.
  replace (Z.to_nat (h + 1)) with (S (Z.to_nat h)) by lia. cbn [emission_sum].
  rewrite Z2Nat.id by lia. unfold saturating_add, COIN in *.
  repeat split; lia.
Qed.

Lemma cumulative_exit st a :
  cumulative_inv st -> cumulative_step tip st = inr a -> a = emission_sum (S (Z.to_nat tip)).
Proof.
  destruct st as [total h]. unfold cumulative_inv, cumulative_step, fits in *. intros [Hh ->].
  pose proof (emission_sum_bounds (S (Z.to_nat tip)) ltac:(lia)) as Hb.
  destruct (Z.eqb_spec (base_reward h) TAIL_EMISSION) as [Et|].
  - intros [= <-].
    pose proof (emission_sum_tail h (S (Z.to_nat tip) - Z.to_nat h) (proj1 Hh) ltac:(lia) Et) as Es.
    replace (Z.to_nat h + (S (Z.to_nat tip) - Z.to_nat h))%nat with (S (Z.to_nat tip)) in Es by lia.
    replace (Z.of_nat (S (Z.to_nat tip) - Z.to_nat h)) with (tip - h + 1) in Es by lia.
    pose proof (emission_sum_bounds (Z.to_nat h) ltac:(lia)) as Hb'.
    unfold saturating_add, saturating_mul, COIN, TAIL_EMISSION in *. lia.
  - destruct (Z.eqb_spec h tip) as [->|]; [|done]. intros [= <-].
    cbn [emission_sum] in *. rewrite Z2Nat.id in * by lia.
    unfold saturating_add, COIN in *. lia.
Qed.

Lemma cumulative_loop_result : cumulative_loop tip = Some (emission_sum (S (Z.to_nat tip))).
Proof.
  unfold cumulative_loop.
  destruct (iter_total (cumulative_step tip) (fun st => Z.to_nat (tip - snd st)) cumulative_inv)
    with (fuel := S (Z.to_nat tip)) (s := (0, 0)) as [a Ha].
  - intros [t h] st' HI E. destruct (cumulative_continue _ _ _ HI E) as (? & ? & ?).
    split; [done|]. simpl. lia.
  - unfold fits in *. simpl. lia.
  - simpl. lia.
  - rewrite Ha. f_equal. revert Ha.
    apply (iter_inv _ cumulative_inv (fun a => a = emission_sum (S (Z.to_nat tip)))).
    + intros [t h] st' HI E. by destruct (cumulative_continue _ _ _ HI E) as (? & ? & ?).
    + intros st a' HI E. by apply (cumulative_exit st).
    + unfold fits in *. simpl. lia.
Qed.
End Cumulative.

Lemma cumulative_emission_sum tip :
  fits u64_max tip -> cumulative_emission tip = emission_sum (S (Z.to_nat tip)).
Proof. intros H. unfold cumulative_emission. by rewrite cumulative_loop_result. Qed.

(** ** Properties *)

(** The cumulative emission computed with the tail fast path, and with saturating
    additions, is exactly the sum of the per-block rewards up to the tip, for every
    64-bit tip; the loop terminates and nothing saturates. *)
Theorem cumulative_emission_exact tip :
  fits u64_max tip ->
  cumulative_loop tip = Some (emission_sum (S (Z.to_nat tip)))
  /\ cumulative_emission tip = emission_sum (S (Z.to_nat tip))
  /\ emission_sum (S (Z.to_nat tip)) <= u128_max.
Proof.
  intros H. split; [by apply cumulative_loop_result|]. split; [by apply cumulative_emission_sum|].
  unfold fits in H. pose proof (emission_sum_bounds (S (Z.to_nat tip)) ltac:(lia)).
  unfold COIN in *. lia.
Qed.

Lemma cumulative_emission_exact_witness :
  cumulative_emission 11 = emission_sum 12 /\ cumulative_emission 11 = 599998350000125.
Proof.
  split; [exact (proj1 (proj2 (cumulative_emission_exact 11 ltac:(unfold fits; lia))))|].
  vm_compute. reflexivity.
Defined.

End Supply.
