(* ===== verification/Difficulty.v ===== *)
(** * Difficulty adjustment (src/src/consensus/difficulty.rs)

    The dual-anchor ASERT retarget, all in integer arithmetic: the fixed-point
    exponential, the anchors, the emergency drop and the clamps.  A target is the
    32 bytes of a [Hash]; the arithmetic is on its upper 16 bytes. *)

From S2P Require Import Prelude Constants.

Module Difficulty.

Definition MIN_DIFFICULTY : Z := 500.
Definition RBITS : Z := 16.
Definition RADIX : Z := Z.shiftl 1 RBITS.
Definition COEFF_1 : Z := 45426.
Definition COEFF_2 : Z := 15743.
Definition COEFF_3 : Z := 3638.
Definition COEFF_4 : Z := 630.
Definition MAX_INT_EXPONENT : Z := 64.

(** Plain [u128] and [i128] operators of a release build. *)
Definition u128_mul (a b : Z) : Z := wrap u128_max (a * b).
Definition u128_add (a b : Z) : Z := wrap u128_max (a + b).
Definition i128_wrap (x : Z) : Z := (x + 2 ^ 127) mod 2 ^ 128 - 2 ^ 127.

(** [checked_shl] fails only when the shift amount reaches the width; the bits
    shifted out are lost. *)
Definition checked_shl (a n : Z) : option Z :=
  if n <? 128 then Some (wrap u128_max (Z.shiftl a n)) else None.

Definition checked_mul_i128 (a b : Z) : option Z :=
  if (i128_min <=? a * b) && (a * b <=? i128_max) then Some (a * b) else None.

Record DifficultyBlock := mkBlock {
  height : Z;
  timestamp : Z;
  target : list Z }.

Definition target_to_u128 (t : list Z) : Z := Z.max (be_value (take 16 t)) 1.

Definition u128_to_target (value : Z) : list Z :=
  let clamped := clamp 1 u128_max value in
  be_bytes 16 clamped ++ replicate 16 0.

Definition u128_max_target : Z := u128_max.

Definition max_target : list Z := replicate 32 255.

Definition min_target : list Z := <[2%nat := 1]> (replicate 32 0).

Definition safe_mul_u128 (a b : Z) : Z :=
  match checked_mul u128_max a b with Some p => p | None => u128_max end.

Definition safe_mul_shift (t frac_pow2 : Z) : Z :=
  let extra := saturating_sub frac_pow2 RADIX in
  if extra =? 0 then t
  else
    let adjustment :=
      if t <=? u128_max / extra then Z.shiftr (u128_mul t extra) RBITS
      else u128_mul (Z.shiftr t RBITS) extra in
    saturating_add u128_max t adjustment.

Definition pow2_frac (x : Z) : Z :=
  let t := u128_add COEFF_3 (Z.shiftr (u128_mul COEFF_4 x) RBITS) in
  let t := u128_add COEFF_2 (Z.shiftr (u128_mul t x) RBITS) in
  let t := u128_add COEFF_1 (Z.shiftr (u128_mul t x) RBITS) in
  u128_add RADIX (Z.shiftr (u128_mul t x) RBITS).

Definition decompose_fixed_point (exponent_fp : Z) : Z * Z :=
  if 0 <=? exponent_fp then
    let int_part := clamp i32_min i32_max (Z.shiftr exponent_fp RBITS) in
    let frac_part := Z.land exponent_fp (RADIX - 1) in
    (int_part, frac_part)
  else
    let safe_exp := Z.max exponent_fp (i128_min + 1) in
    let abs_exp := - safe_exp in
    let abs_int := Z.shiftr abs_exp RBITS in
    let abs_frac := Z.land abs_exp (RADIX - 1) in
    let clamped_abs := Z.min abs_int i32_max in
    if abs_frac =? 0 then (- clamped_abs, 0)
    else
      let clamped_sub := Z.min abs_int (i32_max - 1) in
      (- clamped_sub - 1, RADIX - abs_frac).

(** The exponent of [apply_asert] in fixed point. *)
Definition asert_exponent (time_error denominator : Z) : Z :=
  Z.quot (match checked_mul_i128 time_error RADIX with
          | Some p => p
          | None => if 0 <=? time_error then i128_max else i128_min
          end) denominator.

(** The end of [apply_asert]: [current_target * 2^(exponent_fp / RADIX)]. *)
Definition scale_target (current_target exponent_fp : Z) : Z :=
  let '(int_part, frac_part) := decompose_fixed_point exponent_fp in
  let clamped_int := clamp (- MAX_INT_EXPONENT) MAX_INT_EXPONENT int_part in
  let frac_pow2 := pow2_frac frac_part in
  let adjusted := safe_mul_shift current_target frac_pow2 in
  let shifted :=
    if 0 <=? clamped_int then
      match checked_shl adjusted clamped_int with Some s => s | None => u128_max end
    else
      let neg := - clamped_int in
      if 128 <=? neg then 1 else Z.shiftr adjusted neg in
  Z.max shifted 1.

Definition apply_asert (current_target : Z) (anchor tip : DifficultyBlock)
    (target_time halflife : Z) : Z :=
  let height_diff := saturating_sub (height tip) (height anchor) in
  if height_diff =? 0 then current_target
  else
    let time_diff := timestamp tip - timestamp anchor in
    let expected_time := i128_wrap (height_diff * target_time) in
    let time_error := i128_wrap (time_diff - expected_time) in
    let denominator := halflife in
    if denominator =? 0 then current_target
    else scale_target current_target (asert_exponent time_error denominator).

(** [blocks[idx]]: [None] is the panic of an index out of range. *)
Definition get_anchor (blocks : list DifficultyBlock) (depth : nat) : option DifficultyBlock :=
  let len := length blocks in
  let idx := (len - Nat.min depth len)%nat in
  let idx :=
    match blocks !! idx with
    | Some b => if ((idx + 1 <? len)%nat && (height b =? 0))%bool then (idx + 1)%nat else idx
    | None => idx
    end in
  blocks !! idx.

Definition needs_emergency_drop (blocks : list DifficultyBlock) (current_height : Z) : bool :=
  let min_history_height := EMERGENCY_DIFFICULTY_BLOCKS * 2 in
  if current_height <? min_history_height then false
  else if (length blocks <? Z.to_nat EMERGENCY_DIFFICULTY_BLOCKS)%nat then false
  else
    match list.last blocks with
    | None => false
    | Some tip =>
        let check_idx := (length blocks - Z.to_nat EMERGENCY_DIFFICULTY_BLOCKS)%nat in
        match blocks !! check_idx with
        | None => false
        | Some check_block =>
            let time_diff := saturating_sub (timestamp tip) (timestamp check_block) in
            let expected := EMERGENCY_DIFFICULTY_BLOCKS * TARGET_BLOCK_TIME in
            expected * EMERGENCY_TIME_MULTIPLIER <? time_diff
        end
    end.

(** The weighting, the clamps and the emergency drop, on [u128] targets. *)
Definition max_t : Z := u128_max_target / MIN_DIFFICULTY.

Definition combine_targets (tip_target short_target long_target : Z) (emergency : bool) : Z :=
  let short_weighted := safe_mul_u128 short_target DIFFICULTY_SHORT_WEIGHT in
  let long_weighted := safe_mul_u128 long_target DIFFICULTY_LONG_WEIGHT in
  let combined := saturating_add u128_max short_weighted long_weighted / DIFFICULTY_WEIGHT_SCALE in
  let max_val := safe_mul_u128 tip_target MAX_DIFFICULTY_ADJ_NUM / MAX_DIFFICULTY_ADJ_DEN in
  let min_val := safe_mul_u128 tip_target MIN_DIFFICULTY_ADJ_NUM / MIN_DIFFICULTY_ADJ_DEN in
  let min_bound := Z.max min_val 1 in
  let max_bound := Z.max (Z.min max_val max_t) min_bound in
  let clamped := clamp min_bound max_bound combined in
  if emergency then
    let emergency_max :=
      safe_mul_u128 tip_target (MAX_DIFFICULTY_ADJ_NUM * EMERGENCY_DROP_FACTOR)
      / MAX_DIFFICULTY_ADJ_DEN in
    let emergency_target := safe_mul_u128 clamped EMERGENCY_DROP_FACTOR in
    let emer_min := Z.max min_val 1 in
    let emer_max := Z.max (Z.min emergency_max max_t) emer_min in
    clamp emer_min emer_max emergency_target
  else clamped.

(** [None] is a panic. *)
Definition calculate_difficulty (blocks : list DifficultyBlock) (current_height : Z)
  : option (list Z) :=
  if (length blocks <? 2)%nat then Some max_target
  else
    match list.last blocks with
    | None => Some max_target
    | Some tip =>
        let tip_target := target_to_u128 (target tip) in
        short_anchor ← get_anchor blocks (Z.to_nat DIFFICULTY_SHORT_WINDOW);
        let short_target := apply_asert (target_to_u128 (target short_anchor)) short_anchor tip
                              TARGET_BLOCK_TIME ASERT_HALFLIFE in
        long_anchor ← get_anchor blocks (Z.to_nat DIFFICULTY_LONG_WINDOW);
        let long_target := apply_asert (target_to_u128 (target long_anchor)) long_anchor tip
                             TARGET_BLOCK_TIME ASERT_HALFLIFE in
        Some (u128_to_target (combine_targets tip_target short_target long_target
                                (needs_emergency_drop blocks current_height)))
    end.

Definition target_to_difficulty_raw (t : list Z) : Z := u128_max_target / target_to_u128 t.

Definition target_to_difficulty (t : list Z) : Z := target_to_difficulty_raw t.

Definition calculate_difficulty_from_target (t : list Z) : Z := target_to_difficulty_raw t.

(** ** Targets *)

Lemma target_to_u128_bounds t : is_bytes t -> 1 <= target_to_u128 t <= u128_max.
Proof.
  intros H. unfold target_to_u128.
  assert (is_bytes (take 16 t)) as H' by by apply Forall_take.
  apply be_value_bounds in H'. rewrite length_take in H'.
  assert (256 ^ Z.of_nat (Nat.min 16 (length t)) <= 256 ^ 16) by (apply Z.pow_le_mono_r; lia).
  change (256 ^ 16) with (u128_max + 1) in *. lia.
Qed.

Lemma target_bytes_value v : 1 <= v <= u128_max -> be_value (take 16 (u128_to_target v)) = v.
Proof.
  intros Hv. unfold u128_to_target, clamp.
  replace (Z.max 1 (Z.min u128_max v)) with v by lia.
  rewrite take_app_le by (rewrite length_be_bytes; lia).
  rewrite take_ge by (rewrite length_be_bytes; lia).
  rewrite be_value_be_bytes; [lia|]. change (256 ^ Z.of_nat 16) with (u128_max + 1). lia.
Qed.

Lemma target_u128_roundtrip v : 1 <= v <= u128_max -> target_to_u128 (u128_to_target v) = v.
Proof. intros Hv. unfold target_to_u128. rewrite target_bytes_value by done. lia. Qed.

Lemma safe_mul_u128_eq a b : safe_mul_u128 a b = Z.min u128_max (a * b).
Proof. unfold safe_mul_u128, checked_mul. zcases. Qed.

Lemma max_t_value : max_t = 680564733841876926926749214863536422.
Proof. reflexivity. Qed.

Lemma clamp_capped m M x c :
  1 <= m <= u128_max -> 1 <= M <= u128_max ->
  let r := clamp m (Z.max (Z.min (Z.min u128_max x) M) m) c in
  m <= r /\ r <= Z.max (Z.min x M) m /\ 1 <= r <= u128_max.
Proof.
  intros Hm HM. set (hi := Z.max (Z.min (Z.min u128_max x) M) m).
  assert (m <= hi <= Z.max (Z.min x M) m /\ hi <= u128_max) as [? ?] by (unfold hi; lia).
  clearbody hi. pose proof (clamp_between m hi c). cbv zeta. lia.
Qed.

(** The clamps on the combined target. *)
Lemma combine_targets_bounds t s l em :
  1 <= t <= u128_max -> 0 <= s -> 0 <= l ->
  let r := combine_targets t s l em in
  Z.max (t / 2) 1 <= r
  /\ r <= Z.max (Z.min ((if em then 8 else 2) * t) max_t) (Z.max (t / 2) 1)
  /\ 1 <= r <= u128_max.
Proof.
  intros Ht Hs Hl. unfold combine_targets.
  rewrite !safe_mul_u128_eq. rewrite max_t_value.
  change MIN_DIFFICULTY_ADJ_NUM with 1. change MIN_DIFFICULTY_ADJ_DEN with 2.
  change MAX_DIFFICULTY_ADJ_NUM with 2. change MAX_DIFFICULTY_ADJ_DEN with 1.
  change EMERGENCY_DROP_FACTOR with 4. change (2 * 4) with 8.
  rewrite !Z.div_1_r, Z.mul_1_r, (Z.min_r u128_max t) by lia.
  set (m := Z.max (t / 2) 1).
  assert (1 <= m <= u128_max).
  { unfold m. assert (t / 2 <= t) by (apply div_le_self; lia). lia. }
  clearbody m. destruct em; rewrite (Z.mul_comm _ t); apply clamp_capped; lia.
Qed.

Lemma combine_targets_below_floor t s l em :
  1 <= t <= max_t -> 0 <= s -> 0 <= l -> combine_targets t s l em <= max_t.
Proof.
  intros Ht Hs Hl. rewrite max_t_value in Ht.
  destruct (combine_targets_bounds t s l em) as (_ & H & _); try lia.
  assert (t / 2 <= t) by (apply div_le_self; lia). rewrite max_t_value in *. lia.
Qed.

(** ** The fixed-point exponential *)

Lemma RADIX_value : RADIX = 65536.
Proof. reflexivity. Qed.

Lemma shiftr_RBITS x : Z.shiftr x RBITS = x / 65536.
Proof. apply Z.shiftr_div_pow2. done. Qed.

Lemma land_RADIX x : Z.land x (RADIX - 1) = x mod 65536.
Proof. change (RADIX - 1) with (Z.ones 16). by rewrite Z.land_ones. Qed.

Definition horner (c x t : Z) : Z := c + t * x / 65536.

Lemma horner_mono c x x' t t' :
  0 <= x <= x' -> 0 <= t <= t' -> horner c x t <= horner c x' t'.
Proof.
  intros. unfold horner. enough (t * x / 65536 <= t' * x' / 65536) by lia.
  apply Z.div_le_mono; nia.
Qed.

Lemma horner_bounds c x t : 0 <= x < 65536 -> 0 <= t -> c <= horner c x t <= c + t.
Proof.
  intros. unfold horner. split.
  - enough (0 <= t * x / 65536) by lia. apply Z.div_pos; nia.
  - enough (t * x / 65536 <= t) by lia. apply Z.div_le_upper_bound; nia.
Qed.

Lemma pow2_frac_horner x :
  0 <= x < RADIX ->
  pow2_frac x = horner RADIX x (horner COEFF_1 x (horner COEFF_2 x (horner COEFF_3 x COEFF_4))).
Proof.
  rewrite RADIX_value. intros Hx. unfold pow2_frac, u128_add, u128_mul. rewrite !shiftr_RBITS.
  unfold COEFF_1, COEFF_2, COEFF_3, COEFF_4. rewrite RADIX_value.
  rewrite (wrap_small _ (630 * x)) by (unfold fits; lia).
  fold (horner 3638 x 630). pose proof (horner_bounds 3638 x 630 Hx ltac:(lia)) as H3.
  set (t3 := horner 3638 x 630) in *. rewrite (wrap_small _ t3) by (unfold fits; lia).
  rewrite (wrap_small _ (t3 * x)) by (unfold fits; nia).
  fold (horner 15743 x t3). pose proof (horner_bounds 15743 x t3 Hx ltac:(lia)) as H2.
  set (t2 := horner 15743 x t3) in *. rewrite (wrap_small _ t2) by (unfold fits; lia).
  rewrite (wrap_small _ (t2 * x)) by (unfold fits; nia).
  fold (horner 45426 x t2). pose proof (horner_bounds 45426 x t2 Hx ltac:(lia)) as H1.
  set (t1 := horner 45426 x t2) in *. rewrite (wrap_small _ t1) by (unfold fits; lia).
  rewrite (wrap_small _ (t1 * x)) by (unfold fits; nia).
  fold (horner 65536 x t1). pose proof (horner_bounds 65536 x t1 Hx ltac:(lia)).
  apply wrap_small. unfold fits. lia.
Qed.

Lemma pow2_frac_mono x x' : 0 <= x <= x' -> x' < RADIX -> pow2_frac x <= pow2_frac x'.
Proof.
  rewrite RADIX_value. intros Hx Hx'. rewrite !pow2_frac_horner by (rewrite RADIX_value; lia).
  unfold COEFF_1, COEFF_2, COEFF_3, COEFF_4.
  assert (forall c y t, 0 <= c -> 0 <= t -> 0 <= y < 65536 -> 0 <= horner c y t) as Hp.
  { intros c y t ? ? ?. pose proof (horner_bounds c y t). lia. }
  repeat (apply horner_mono; [lia|split; [repeat apply Hp; lia|]]). lia.
Qed.

Lemma pow2_frac_0 : pow2_frac 0 = RADIX.
Proof. reflexivity. Qed.

Lemma pow2_frac_last : pow2_frac (RADIX - 1) = 130969.
Proof. reflexivity. Qed.

Lemma pow2_frac_bounds x : 0 <= x < RADIX -> RADIX <= pow2_frac x <= 130969.
Proof.
  intros Hx. rewrite <- pow2_frac_last, <- pow2_frac_0 at 1.
  split; apply pow2_frac_mono; lia.
Qed.

(** The integer and fractional parts recompose to the exponent. *)
Lemma decompose_fixed_point_correct e :
  - (i32_max * RADIX) <= e <= i32_max * RADIX ->
  let '(i, f) := decompose_fixed_point e in e = i * RADIX + f /\ 0 <= f < RADIX.
Proof.
  rewrite RADIX_value. intros He. unfold decompose_fixed_point.
  rewrite !land_RADIX, !shiftr_RBITS, RADIX_value.
  pose proof (Z.mod_pos_bound e 65536 ltac:(lia)). pose proof (Z.div_mod e 65536 ltac:(lia)).
  destruct (Z.leb_spec 0 e).
  - assert (0 <= e / 65536 <= i32_max)
      by (split; [apply Z.div_pos|apply Z.div_le_upper_bound]; lia).
    unfold clamp. lia.
  - rewrite Z.max_l by lia.
    pose proof (Z.mod_pos_bound (- e) 65536 ltac:(lia)). pose proof (Z.div_mod (- e) 65536 ltac:(lia)).
    assert (0 <= - e / 65536 <= i32_max)
      by (split; [apply Z.div_pos|apply Z.div_le_upper_bound]; lia).
    destruct (Z.eqb_spec (- e mod 65536) 0); lia.
Qed.

(** ** Scaling a target *)

(** [t * 2^(f / RADIX)] for a fraction [f]. *)
Definition scale_frac (t f : Z) : Z := safe_mul_shift t (pow2_frac f).

Lemma safe_mul_shift_bounds t p :
  0 <= t <= u128_max -> RADIX <= p <= 130969 ->
  t <= safe_mul_shift t p <= Z.min u128_max (2 * t).
Proof.
  rewrite RADIX_value. intros Ht Hp. unfold safe_mul_shift, saturating_sub. rewrite RADIX_value.
  destruct (Z.eqb_spec (Z.max 0 (p - 65536)) 0); [lia|]. rewrite Z.max_r by lia.
  set (x := p - 65536) in *. assert (1 <= x <= 65433) by (unfold x; lia).
  unfold saturating_add, u128_mul. rewrite !shiftr_RBITS.
  pose proof (Z.mul_div_le t 65536 ltac:(lia)). assert (0 <= t / 65536) by (apply Z.div_pos; lia).
  destruct (Z.leb_spec t (u128_max / x)).
  - pose proof (Z.mul_div_le u128_max x ltac:(lia)).
    rewrite wrap_small by (unfold fits; nia).
    assert (0 <= t * x / 65536) by (apply Z.div_pos; nia).
    assert (t * x / 65536 <= t) by (apply Z.div_le_upper_bound; nia). lia.
  - rewrite wrap_small by (unfold fits; nia). nia.
Qed.

Lemma safe_mul_shift_mono t p p' :
  0 <= t <= u128_max -> RADIX <= p <= p' -> p' <= 130969 ->
  safe_mul_shift t p <= safe_mul_shift t p'.
Proof.
  intros Ht Hp Hp'.
  destruct (Z.eq_dec p RADIX) as [->|Hne].
  { replace (safe_mul_shift t RADIX) with t by reflexivity. apply safe_mul_shift_bounds; lia. }
  destruct (Z.eq_dec p p') as [->|Hne']; [lia|].
  unfold safe_mul_shift, saturating_sub, saturating_add, u128_mul.
  rewrite RADIX_value in *. rewrite !Z.max_r, !shiftr_RBITS by lia.
  rewrite !(proj2 (Z.eqb_neq _ _)) by lia.
  set (x := p - 65536). set (x' := p' - 65536).
  assert (1 <= x < x' /\ x' <= 65433) as [Hx Hx'] by (unfold x, x'; lia). clearbody x x'. clear p p' Hp Hp' Hne Hne'.
  pose proof (Z.mul_div_le t 65536 ltac:(lia)) as Hq. pose proof (Z.mod_pos_bound t 65536 ltac:(lia)).
  pose proof (Z.div_mod t 65536 ltac:(lia)). set (q := t / 65536) in *.
  assert (0 <= q) by (apply Z.div_pos; lia).
  apply Z.min_le_compat_l, Z.add_le_mono_l.
  destruct (Z.leb_spec t (u128_max / x)) as [Hle|Hle], (Z.leb_spec t (u128_max / x')) as [Hle2|Hle2].
  - pose proof (Z.mul_div_le u128_max x ltac:(lia)). pose proof (Z.mul_div_le u128_max x' ltac:(lia)).
    rewrite !wrap_small by (unfold fits; nia). apply Z.div_le_mono; nia.
  - pose proof (Z.mul_div_le u128_max x ltac:(lia)).
    rewrite !wrap_small by (unfold fits; nia).
    assert (u128_max / 65433 <= u128_max / x') by (apply Z.div_le_compat_l; lia).
    change (u128_max / 65433) with 5200470204956802583763156319162627 in *.
    assert (65433 <= q) by (apply Z.div_le_lower_bound; lia).
    assert (t * x / 65536 <= (q + 1) * x) by (apply Z.div_le_upper_bound; nia). nia.
  - assert (u128_max / x' <= u128_max / x) by (apply Z.div_le_compat_l; lia). lia.
  - rewrite !wrap_small by (unfold fits; nia). nia.
Qed.

Lemma scale_frac_bounds t f :
  0 <= t <= u128_max -> 0 <= f < RADIX -> t <= scale_frac t f <= Z.min u128_max (2 * t).
Proof. intros Ht Hf. apply safe_mul_shift_bounds; [done|]. by apply pow2_frac_bounds. Qed.

Lemma scale_frac_mono t f f' :
  0 <= t <= u128_max -> 0 <= f <= f' -> f' < RADIX -> scale_frac t f <= scale_frac t f'.
Proof.
  intros Ht Hf Hf'. pose proof (pow2_frac_bounds f ltac:(lia)). pose proof (pow2_frac_bounds f' ltac:(lia)).
  apply safe_mul_shift_mono; [done| |lia]. pose proof (pow2_frac_mono f f'). lia.
Qed.

(** The scaled target, [floor (scale_frac t f * 2^i)], over a common denominator. *)
Definition asert_value (t i f : Z) : Z := scale_frac t f * 2 ^ (64 + i) / 2 ^ 64.

Lemma asert_value_nonneg_exp t i f : 0 <= i -> asert_value t i f = scale_frac t f * 2 ^ i.
Proof.
  intros. unfold asert_value. rewrite Z.pow_add_r by lia.
  replace (scale_frac t f * (2 ^ 64 * 2 ^ i)) with (scale_frac t f * 2 ^ i * 2 ^ 64) by lia.
  by rewrite Z.div_mul.
Qed.

Lemma scale_target_eq t e i f :
  0 <= t <= u128_max -> decompose_fixed_point e = (i, f) -> 0 <= f < RADIX -> -64 <= i <= 64 ->
  (0 <= i -> scale_frac t f * 2 ^ i <= u128_max) ->
  scale_target t e = Z.max (asert_value t i f) 1.
Proof.
  intros Ht He Hf Hi Hhead. unfold scale_target. rewrite He. fold (scale_frac t f).
  unfold MAX_INT_EXPONENT. replace (clamp (- (64)) 64 i) with i by (unfold clamp; lia).
  pose proof (scale_frac_bounds t f Ht Hf).
  destruct (Z.leb_spec 0 i).
  - rewrite asert_value_nonneg_exp by lia. unfold checked_shl.
    rewrite (proj2 (Z.ltb_lt i 128)), Z.shiftl_mul_pow2 by lia.
    assert (0 < 2 ^ i) by (apply Z.pow_pos_nonneg; lia).
    rewrite wrap_small; [done|]. unfold fits. nia.
  - rewrite (proj2 (Z.leb_gt 128 (- i))), Z.shiftr_div_pow2 by lia.
    f_equal. unfold asert_value.
    replace (2 ^ 64) with (2 ^ (64 + i) * 2 ^ (- i)) by (rewrite <- Z.pow_add_r by lia; f_equal; lia).
    assert (0 < 2 ^ (64 + i)) by (apply Z.pow_pos_nonneg; lia).
    assert (0 < 2 ^ (- i)) by (apply Z.pow_pos_nonneg; lia).
    rewrite (Z.mul_comm (scale_frac t f)), Z.div_mul_cancel_l by lia. done.
Qed.

Lemma asert_value_mono t i f i' f' :
  0 <= t <= u128_max -> 0 <= f < RADIX -> 0 <= f' < RADIX -> -64 <= i ->
  i * RADIX + f <= i' * RADIX + f' -> asert_value t i f <= asert_value t i' f'.
Proof.
  intros Ht Hf Hf' Hi Hle. apply Z.div_le_mono; [done|].
  pose proof (scale_frac_bounds t f Ht Hf). pose proof (scale_frac_bounds t f' Ht Hf').
  rewrite RADIX_value in *.
  assert (i < i' \/ (i = i' /\ f <= f')) as [Hlt|[<- Hff]] by lia.
  - assert (2 * 2 ^ (64 + i) <= 2 ^ (64 + i')).
    { rewrite <- Z.pow_succ_r by lia. apply Z.pow_le_mono_r; lia. }
    assert (0 < 2 ^ (64 + i)) by (apply Z.pow_pos_nonneg; lia). nia.
  - pose proof (scale_frac_mono t f f' Ht ltac:(lia) ltac:(rewrite RADIX_value; lia)).
    apply Z.mul_le_mono_nonneg_r; [apply Z.pow_nonneg; lia|lia].
Qed.

(** The decomposition of an exponent below [k], where [t * 2^k] fits. *)
Lemma decompose_headroom t e k :
  0 <= t <= u128_max -> 1 <= k <= 64 -> t * 2 ^ k <= u128_max ->
  -64 * RADIX <= e < k * RADIX ->
  exists i f, decompose_fixed_point e = (i, f) /\ e = i * RADIX + f /\ 0 <= f < RADIX
    /\ -64 <= i <= 64 /\ (0 <= i -> scale_frac t f * 2 ^ i <= u128_max).
Proof.
  intros Ht Hk Hhead He. pose proof (decompose_fixed_point_correct e) as Hd.
  destruct (decompose_fixed_point e) as [i f]. exists i, f. split; [done|].
  rewrite RADIX_value in *. destruct Hd as [Ee Hf]; [lia|].
  split; [done|]. split; [done|]. assert (-64 <= i < k) by lia. split; [lia|]. intros Hi.
  pose proof (scale_frac_bounds t f Ht ltac:(rewrite RADIX_value; lia)).
  assert (2 * 2 ^ i <= 2 ^ k) by (rewrite <- Z.pow_succ_r by lia; apply Z.pow_le_mono_r; lia).
  assert (0 < 2 ^ i) by (apply Z.pow_pos_nonneg; lia). nia.
Qed.

Lemma scale_target_mono t e e' k :
  0 <= t <= u128_max -> 1 <= k <= 64 -> t * 2 ^ k <= u128_max ->
  -64 * RADIX <= e <= e' -> e' < k * RADIX -> scale_target t e <= scale_target t e'.
Proof.
  intros Ht Hk Hhead He He'.
  destruct (decompose_headroom t e k) as (i & f & Hd & Ee & Hf & Hi & Hh); try lia.
  destruct (decompose_headroom t e' k) as (i' & f' & Hd' & Ee' & Hf' & Hi' & Hh'); try lia.
  rewrite (scale_target_eq t e i f), (scale_target_eq t e' i' f') by done.
  apply Z.max_le_compat_r, asert_value_mono; lia.
Qed.

(** ** Time errors *)

Lemma i128_wrap_small x : i128_min <= x <= i128_max -> i128_wrap x = x.
Proof. intros. unfold i128_wrap. rewrite Z.mod_small; lia. Qed.

Lemma asert_exponent_eq te d :
  - 2 ^ 100 <= te <= 2 ^ 100 -> asert_exponent te d = Z.quot (te * RADIX) d.
Proof.
  intros H. unfold asert_exponent, checked_mul_i128. rewrite RADIX_value. zcases.
Qed.

Lemma quot_mono a b d : 0 < d -> a <= b -> Z.quot a d <= Z.quot b d.
Proof. intros. apply Z.quot_le_mono; lia. Qed.

(** A block in range: 64-bit height and timestamp, a byte-string target. *)
Definition valid_block (b : DifficultyBlock) : Prop :=
  fits u64_max (height b) /\ fits u64_max (timestamp b) /\ is_bytes (target b).

(** The time error of [apply_asert]. *)
Definition time_error_of (anchor tip : DifficultyBlock) : Z :=
  timestamp tip - timestamp anchor - (height tip - height anchor) * TARGET_BLOCK_TIME.

Lemma apply_asert_eq t anchor tip :
  valid_block anchor -> valid_block tip -> height anchor < height tip ->
  apply_asert t anchor tip TARGET_BLOCK_TIME ASERT_HALFLIFE
  = scale_target t (Z.quot (time_error_of anchor tip * RADIX) ASERT_HALFLIFE).
Proof.
  intros ([? ?] & [? ?] & _) ([? ?] & [? ?] & _) Hlt. unfold apply_asert, saturating_sub.
  rewrite Z.max_r by lia. rewrite (proj2 (Z.eqb_neq _ _)) by lia.
  change (ASERT_HALFLIFE =? 0) with false. cbv iota zeta.
  unfold time_error_of, TARGET_BLOCK_TIME.
  rewrite (i128_wrap_small (_ * _)) by lia. rewrite i128_wrap_small by lia.
  by rewrite asert_exponent_eq by lia.
Qed.

(** ** No panic *)

Lemma get_anchor_some blocks depth :
  blocks <> [] -> (0 < depth)%nat -> exists b, get_anchor blocks depth = Some b /\ b ∈ blocks.
Proof.
  intros Hne Hd. unfold get_anchor.
  destruct blocks as [|b0 bs]; [done|]. set (l := b0 :: bs) in *. set (n := length l).
  assert (0 < n)%nat by (unfold n, l; simpl; lia).
  assert (n - Nat.min depth n < n)%nat as Hidx by lia.
  destruct (lookup_lt_is_Some_2 l _ Hidx) as [b Hb]. rewrite Hb.
  destruct (_ && _) eqn:E.
  - apply andb_true_iff in E as [E _]. apply Nat.ltb_lt in E.
    destruct (lookup_lt_is_Some_2 l _ E) as [b' Hb']. exists b'. split; [done|].
    by eapply list_elem_of_lookup_2.
  - exists b. split; [done|]. by eapply list_elem_of_lookup_2.
Qed.

Lemma last_some {A} (l : list A) : l <> [] -> exists x, list.last l = Some x /\ x ∈ l.
Proof.
  intros Hne. destruct (list.last l) as [x|] eqn:E.
  - exists x. split; [done|]. by apply last_Some_elem_of.
  - by apply last_None in E.
Qed.

(** The retarget of a chain with at least two blocks: no panic, and the result is
    the combination of the two ASERT targets of some anchors of the window. *)
Lemma calculate_difficulty_shape blocks h :
  (2 <= length blocks)%nat ->
  exists tip sa la,
    list.last blocks = Some tip /\ sa ∈ blocks /\ la ∈ blocks
    /\ calculate_difficulty blocks h
       = Some (u128_to_target (combine_targets (target_to_u128 (target tip))
           (apply_asert (target_to_u128 (target sa)) sa tip TARGET_BLOCK_TIME ASERT_HALFLIFE)
           (apply_asert (target_to_u128 (target la)) la tip TARGET_BLOCK_TIME ASERT_HALFLIFE)
           (needs_emergency_drop blocks h))).
Proof.
  intros Hlen. assert (blocks <> []) as Hne by (intros ->; simpl in Hlen; lia).
  destruct (last_some _ Hne) as (tip & Htip & _).
  destruct (get_anchor_some blocks (Z.to_nat DIFFICULTY_SHORT_WINDOW) Hne) as (sa & Hsa & Hin); [vm_compute; lia|].
  destruct (get_anchor_some blocks (Z.to_nat DIFFICULTY_LONG_WINDOW) Hne) as (la & Hla & Hin'); [vm_compute; lia|].
  exists tip, sa, la. do 3 (split; [done|]). unfold calculate_difficulty.
  rewrite (proj2 (Nat.ltb_ge _ _)) by lia. rewrite Htip, Hsa, Hla. reflexivity.
Qed.

Lemma apply_asert_nonneg t a b tt hl : 0 <= t -> 0 <= apply_asert t a b tt hl.
Proof.
  intros Ht. unfold apply_asert, scale_target.
  destruct (saturating_sub _ _ =? 0); [done|]. destruct (hl =? 0); [done|].
  destruct (decompose_fixed_point _) as [i f]. lia.
Qed.

(** ** Properties *)

(** C22: The retarget never panics on a chain of at least two blocks, and the new
    target stays between half the tip's target and twice it (eight times in an
    emergency drop), capped by the ceiling [max_t] of the difficulty floor unless half
    the tip's target is already above that ceiling. *)
Theorem retarget_bounds blocks h :
  (2 <= length blocks)%nat -> Forall valid_block blocks ->
  exists tip r,
    list.last blocks = Some tip /\ calculate_difficulty blocks h = Some r
    /\ let t := target_to_u128 (target tip) in
       let factor := if needs_emergency_drop blocks h then 8 else 2 in
       Z.max (t / 2) 1 <= target_to_u128 r
       /\ target_to_u128 r <= Z.max (Z.min (factor * t) max_t) (Z.max (t / 2) 1).
Proof.
  intros Hlen Hv. destruct (calculate_difficulty_shape blocks h Hlen) as (tip & sa & la & Ht & _ & _ & E).
  exists tip. eexists. split; [done|]. split; [exact E|]. cbv zeta.
  assert (is_bytes (target tip)) as Hb.
  { apply last_Some_elem_of in Ht. rewrite list.Forall_forall in Hv. by apply Hv. }
  pose proof (target_to_u128_bounds _ Hb).
  edestruct combine_targets_bounds as (? & ? & ?);
    [| | |rewrite target_u128_roundtrip; [split; eassumption|assumption]];
    [done| |]; apply apply_asert_nonneg; unfold target_to_u128; lia.
Qed.

(** The difficulty floor is an invariant of the retarget: when the tip's target is
    at or below the ceiling [max_t], so is the next one, in the emergency path as well,
    and its difficulty is at least [MIN_DIFFICULTY]. *)
Theorem retarget_floor_preserved blocks h tip r :
  (2 <= length blocks)%nat -> list.last blocks = Some tip ->
  target_to_u128 (target tip) <= max_t -> calculate_difficulty blocks h = Some r ->
  target_to_u128 r <= max_t /\ MIN_DIFFICULTY <= target_to_difficulty r.
Proof.
  intros Hlen Ht Hfloor Hr.
  destruct (calculate_difficulty_shape blocks h Hlen) as (tip' & sa & la & Ht' & _ & _ & E).
  rewrite E in Hr. inv_res. rewrite Ht in Ht'. inv_res. subst tip' r.
  assert (1 <= target_to_u128 (target tip)) by (unfold target_to_u128; lia).
  set (c := combine_targets _ _ _ _).
  assert (1 <= c <= max_t) as Hc.
  { rewrite max_t_value in *. split.
    - eapply Z.le_trans; [|apply combine_targets_bounds]; try (apply apply_asert_nonneg; unfold target_to_u128); lia.
    - rewrite <- max_t_value. apply combine_targets_below_floor;
        [rewrite max_t_value; lia| |]; apply apply_asert_nonneg; unfold target_to_u128; lia. }
  clearbody c. rewrite max_t_value in Hc.
  unfold target_to_difficulty, target_to_difficulty_raw. rewrite target_u128_roundtrip by lia.
  split; [rewrite max_t_value; lia|]. apply Z.div_le_lower_bound; unfold MIN_DIFFICULTY, u128_max_target; lia.
Qed.

(** The slower the blocks, the easier the target: within the range where the anchor's
    target scaled by [2^k] still fits 128 bits, a later tip of the same height never gets
    a smaller ASERT target. *)
Theorem asert_monotone t anchor tip tip' k :
  valid_block anchor -> valid_block tip -> valid_block tip' ->
  height tip = height tip' -> height anchor < height tip -> timestamp tip <= timestamp tip' ->
  1 <= t <= u128_max -> 1 <= k <= 64 -> t * 2 ^ k <= u128_max ->
  -64 * ASERT_HALFLIFE <= time_error_of anchor tip ->
  time_error_of anchor tip' < k * ASERT_HALFLIFE ->
  apply_asert t anchor tip TARGET_BLOCK_TIME ASERT_HALFLIFE
  <= apply_asert t anchor tip' TARGET_BLOCK_TIME ASERT_HALFLIFE.
Proof.
  intros Ha Hv Hv' Eh Hlt Hts Ht Hk Hhead Hlo Hhi.
  rewrite !apply_asert_eq by (done || lia).
  assert (time_error_of anchor tip <= time_error_of anchor tip') by (unfold time_error_of; rewrite Eh; lia).
  unfold ASERT_HALFLIFE in *. rewrite !RADIX_value in *.
  apply (scale_target_mono _ _ _ k); rewrite ?RADIX_value; try lia.
  - split; [|apply quot_mono; lia].
    replace (-64 * 65536) with (Z.quot (-64 * 65536 * 3600) 3600) by reflexivity. apply quot_mono; lia.
  - destruct (Z.le_gt_cases 0 (time_error_of anchor tip')).
    + rewrite Z.quot_div_nonneg by lia. apply Z.div_lt_upper_bound; lia.
    + assert (Z.quot (time_error_of anchor tip' * 65536) 3600 <= Z.quot 0 3600) by (apply quot_mono; lia).
      change (Z.quot 0 3600) with 0 in *. lia.
Qed.

(** One half-life of time error is a factor of two: when the tip is late by [n]
    half-lives the ASERT target is [t * 2^n] (while that fits 128 bits), when it is early
    by [n] half-lives it is [t / 2^n], never below one. *)
Theorem asert_halflife t anchor tip n :
  valid_block anchor -> valid_block tip -> height anchor < height tip ->
  1 <= t <= u128_max -> -64 <= n <= 64 -> t * 2 ^ Z.max n 0 <= u128_max ->
  time_error_of anchor tip = n * ASERT_HALFLIFE ->
  apply_asert t anchor tip TARGET_BLOCK_TIME ASERT_HALFLIFE
  = if 0 <=? n then t * 2 ^ n else Z.max (t / 2 ^ (- n)) 1.
Proof.
  intros Ha Hv Hlt Ht Hn Hhead He. rewrite apply_asert_eq, He by done.
  replace (n * ASERT_HALFLIFE * RADIX) with (n * RADIX * ASERT_HALFLIFE) by lia.
  rewrite Z.quot_mul by done.
  pose proof (decompose_fixed_point_correct (n * RADIX)) as Hd.
  destruct (decompose_fixed_point (n * RADIX)) as [i f] eqn:Ed.
  rewrite RADIX_value in Hd. destruct Hd as [Ei Hf]; [lia|]. assert (i = n /\ f = 0) as [-> ->] by lia.
  assert (scale_frac t 0 = t) as E0 by (unfold scale_frac; rewrite pow2_frac_0; reflexivity).
  rewrite (scale_target_eq t (n * RADIX) n 0); try done; try lia.
  2: { intros. rewrite E0. by replace (Z.max n 0) with n in Hhead by lia. }
  destruct (Z.leb_spec 0 n).
  - rewrite asert_value_nonneg_exp, E0 by lia.
    assert (0 < 2 ^ n) by (apply Z.pow_pos_nonneg; lia). nia.
  - unfold asert_value. rewrite E0. f_equal.
    replace (2 ^ 64) with (2 ^ (64 + n) * 2 ^ (- n)) by (rewrite <- Z.pow_add_r by lia; f_equal; lia).
    assert (0 < 2 ^ (64 + n)) by (apply Z.pow_pos_nonneg; lia).
    assert (0 < 2 ^ (- n)) by (apply Z.pow_pos_nonneg; lia).
    by rewrite (Z.mul_comm t), Z.div_mul_cancel_l by lia.
Qed.

(** Past that range the left shift drops the high bits instead of saturating: with the
    anchor's target [2^118], a tip nine hours late gets [2^127] and a tip ten hours late
    gets the hardest target, one. *)
Theorem asert_shift_wraps :
  let anchor := mkBlock 1 0 (u128_to_target (2 ^ 118)) in
  apply_asert (2 ^ 118) anchor (mkBlock 2 (120 + 9 * 3600) max_target) TARGET_BLOCK_TIME ASERT_HALFLIFE
  = 2 ^ 127
  /\ apply_asert (2 ^ 118) anchor (mkBlock 2 (120 + 10 * 3600) max_target) TARGET_BLOCK_TIME ASERT_HALFLIFE
     = 1.
Proof. split; vm_compute; reflexivity. Qed.

(** From the easiest target, which the first retargets of a chain return, the new
    target is half the tip's, far above the ceiling of the difficulty floor. *)
Theorem retarget_above_ceiling :
  exists r, calculate_difficulty [mkBlock 0 0 max_target; mkBlock 1 120 max_target] 2 = Some r
  /\ max_t < target_to_u128 r.
Proof. eexists. split; [vm_compute; reflexivity|]. vm_compute. reflexivity. Qed.

(** ** Witnesses *)

Definition sample_chain : list DifficultyBlock :=
  map (fun i => mkBlock (Z.of_nat i) (Z.of_nat i * 130) (u128_to_target (2 ^ 110))) (seq 0 20).

Lemma sample_chain_valid : Forall valid_block sample_chain.
Proof.
  apply Forall_forall. intros b Hb. unfold sample_chain in Hb.
  apply in_map_iff in Hb as (i & <- & Hi). apply in_seq in Hi. unfold valid_block, fits. simpl.
  split; [lia|]. split; [lia|]. apply Forall_forall. intros x Hx.
  vm_compute in Hx. repeat (destruct Hx as [<-|Hx]; [lia|]). destruct Hx.
Qed.

Lemma retarget_bounds_witness :
  exists tip r, list.last sample_chain = Some tip /\ calculate_difficulty sample_chain 20 = Some r
    /\ target_to_u128 r <= Z.max (Z.min (2 * target_to_u128 (target tip)) max_t)
                             (Z.max (target_to_u128 (target tip) / 2) 1).
Proof.
  destruct (retarget_bounds sample_chain 20) as (tip & r & H1 & H2 & H3).
  - vm_compute. lia.
  - apply sample_chain_valid.
  - exists tip, r. split; [exact H1|]. split; [exact H2|]. apply H3.
Defined.

Lemma retarget_floor_preserved_witness :
  exists r, calculate_difficulty sample_chain 20 = Some r /\ target_to_u128 r <= max_t.
Proof.
  eexists. split; [vm_compute; reflexivity|].
  refine (proj1 (retarget_floor_preserved sample_chain 20 _ _ _ eq_refl _ _)).
  - vm_compute. lia.
  - vm_compute. discriminate.
  - vm_compute. reflexivity.
Defined.

Lemma asert_monotone_witness :
  apply_asert (2 ^ 110) (mkBlock 1 0 []) (mkBlock 5 100 []) TARGET_BLOCK_TIME ASERT_HALFLIFE
  <= apply_asert (2 ^ 110) (mkBlock 1 0 []) (mkBlock 5 9000 []) TARGET_BLOCK_TIME ASERT_HALFLIFE.
Proof.
  apply (asert_monotone (2 ^ 110) _ _ _ 3);
    try (unfold valid_block, fits; simpl; repeat split; try lia; constructor);
    try reflexivity; vm_compute; try split; discriminate || reflexivity.
Defined.

Lemma asert_halflife_witness :
  apply_asert (2 ^ 110) (mkBlock 1 0 []) (mkBlock 2 (120 + 3600) []) TARGET_BLOCK_TIME ASERT_HALFLIFE
  = 2 ^ 111.
Proof.
  apply (asert_halflife (2 ^ 110) (mkBlock 1 0 []) (mkBlock 2 (120 + 3600) []) 1);
    try (unfold valid_block, fits; simpl; repeat split; try lia; constructor);
    try reflexivity; vm_compute; try split; discriminate || reflexivity.
Defined.

End Difficulty.
