(* ===== verification/FeeMarket.v ===== *)
(** * Fee market (src/src/consensus/fee_market.rs)

    Fees by size and congestion, the split of a block's fees between the miner and
    the burn, the fee reservoir and the block statistics, in integer arithmetic.
    The wallet-side estimates through [f64] are not modelled. *)

From S2P Require Import Prelude Constants.

Module FeeMarket.

Definition congestion_multiplier (congestion_pct : Z) : Z :=
  if congestion_pct <? 50 then 100
  else if congestion_pct <? 75 then 150
  else if congestion_pct <? 90 then 200
  else 300.

Definition calculate_fee (tx_size congestion_pct : Z) : Z :=
  let multiplier := congestion_multiplier congestion_pct in
  let base_fee := saturating_mul u64_max tx_size MIN_FEE_PER_BYTE in
  saturating_mul u64_max base_fee multiplier / 100.

Definition calculate_congestion (recent_block_sizes : list Z) : Z :=
  match recent_block_sizes with
  | [] => 0
  | _ =>
      let total := fold_left (saturating_add u64_max) recent_block_sizes 0 in
      let avg := total / Z.of_nat (length recent_block_sizes) in
      Z.min (wrap u64_max (avg * 100) / MAX_BLOCK_SIZE) 100
  end.

Definition is_congested (congestion_pct : Z) : bool := CONGESTION_THRESHOLD <=? congestion_pct.

Record FeeDistribution := mkFeeDistribution {
  total : Z;
  to_miner : Z;
  burned : Z;
  to_protocol : Z }.

Definition distribute_fee (fee : Z) (congested : bool) : FeeDistribution :=
  let miner_pct := if congested then FEE_MINER_CONGESTED_PERCENT else FEE_MINER_NORMAL_PERCENT in
  let to_miner := Z.min (wrap u64_max (wrap u128_max (fee * miner_pct) / 100)) fee in
  let burned := wrap u64_max (fee - to_miner) in
  let to_protocol := 0 in
  mkFeeDistribution fee to_miner burned to_protocol.

(** [FeeDistribution::is_valid] *)
Definition is_valid (d : FeeDistribution) : bool :=
  wrap u128_max (wrap u128_max (to_miner d + burned d) + to_protocol d) =? total d.

(** The constants of the module [reservoir]. *)
Definition LOW_WATER : Z := 25.
Definition HIGH_WATER : Z := 75.
Definition CHARGE_BPS : Z := 2000.
Definition DISCHARGE_BPS : Z := 2000.
Definition DECAY_BPS : Z := 10.
Definition CAP_ATOMIC : Z := 1000000000000.

Record ReservoirTransition := mkReservoir {
  r_to_miner : Z;
  reservoir_after : Z;
  r_burned : Z }.

Definition reservoir_step (reservoir_before fees congestion_pct : Z) : ReservoirTransition :=
  let r0 := reservoir_before in
  let f := fees in
  let '(to_miner, r1) :=
    if congestion_pct <? LOW_WATER then
      let want := wrap u128_max (f * CHARGE_BPS) / 10000 in
      let headroom := saturating_sub CAP_ATOMIC r0 in
      let store := Z.min want headroom in
      (wrap u128_max (f - store), wrap u128_max (r0 + store))
    else if HIGH_WATER <? congestion_pct then
      let want := wrap u128_max (f * DISCHARGE_BPS) / 10000 in
      let draw := Z.min want r0 in
      (wrap u128_max (f + draw), wrap u128_max (r0 - draw))
    else (f, r0) in
  let burn := wrap u128_max (r1 * DECAY_BPS) / 10000 in
  let r_after := wrap u128_max (r1 - burn) in
  mkReservoir (wrap u64_max to_miner) (wrap u64_max r_after) (wrap u64_max burn).

Record BlockFeeStats := mkBlockFeeStats {
  bf_height : Z;
  bf_tx_count : Z;
  bf_total_fees : Z;
  bf_total_burned : Z;
  bf_avg_fee_per_byte : Z;
  bf_was_congested : bool }.

Definition block_fee_stats (height : Z) (tx_fees : list (Z * Z)) (congested : bool) : BlockFeeStats :=
  match tx_fees with
  | [] => mkBlockFeeStats height 0 0 0 0 false
  | _ =>
      let total := fold_left (fun acc f => saturating_add u64_max acc (fst f)) tx_fees 0 in
      let total_size := fold_left (fun acc f => saturating_add u64_max acc (snd f)) tx_fees 0 in
      let burn_pct := if congested then FEE_BURN_CONGESTED_PERCENT else FEE_BURN_NORMAL_PERCENT in
      let total_burned := wrap u64_max (wrap u128_max (total * burn_pct) / 100) in
      mkBlockFeeStats height (Z.of_nat (length tx_fees)) total total_burned
        (if 0 <? total_size then total / total_size else 0) congested
  end.

(** ** The split *)

Lemma distribute_fee_eq fee (c : bool) :
  fits u64_max fee ->
  let pct := if c then 50 else 70 in
  distribute_fee fee c = mkFeeDistribution fee (fee * pct / 100) (fee - fee * pct / 100) 0
  /\ 0 <= fee * pct / 100 <= fee.
Proof.
  intros H pct. unfold fits in H. unfold distribute_fee.
  change FEE_MINER_CONGESTED_PERCENT with 50. change FEE_MINER_NORMAL_PERCENT with 70.
  fold pct. assert (0 <= pct <= 70) by (unfold pct; destruct c; lia).
  assert (0 <= fee * pct / 100 <= fee) as Hb
    by (split; [apply Z.div_pos; nia | apply Z.div_le_upper_bound; nia]).
  rewrite (wrap_small u128_max) by (unfold fits; nia).
  rewrite (wrap_small _ (fee * pct / 100)) by (unfold fits; lia).
  rewrite Z.min_l, wrap_small by (unfold fits; lia). done.
Qed.

(** ** The reservoir *)

(** The decay burn on a reservoir within the cap. *)
Lemma decay_bounds r : 0 <= r <= CAP_ATOMIC -> 0 <= r * DECAY_BPS / 10000 <= r.
Proof.
  unfold CAP_ATOMIC, DECAY_BPS. intros H.
  split; [apply Z.div_pos; lia | apply Z.div_le_upper_bound; lia].
Qed.

Lemma bps_bounds f : fits u64_max f -> 0 <= f * 2000 / 10000 <= f.
Proof. unfold fits. intros. split; [apply Z.div_pos; lia | apply Z.div_le_upper_bound; lia]. Qed.

Lemma reservoir_step_spec r f c :
  0 <= r <= CAP_ATOMIC -> fits u64_max f -> f <= u64_max - CAP_ATOMIC ->
  let t := reservoir_step r f c in
  r_to_miner t + reservoir_after t + r_burned t = r + f
  /\ 0 <= reservoir_after t <= CAP_ATOMIC /\ 0 <= r_burned t
  /\ (if c <? LOW_WATER then f - f / 5 <= r_to_miner t <= f
      else if HIGH_WATER <? c then r_to_miner t = f + Z.min (f / 5) r
      else r_to_miner t = f).
Proof.
  intros Hr Hf Hmax. unfold reservoir_step.
  change CHARGE_BPS with 2000. change DISCHARGE_BPS with 2000.
  pose proof (bps_bounds f Hf) as Hb. unfold fits in Hf.
  assert (f * 2000 / 10000 = f / 5) as E5 by (rewrite <- (Z.div_mul_cancel_r f 5 2000) by lia; done).
  rewrite (wrap_small _ (f * 2000)) by (unfold fits; lia). rewrite E5 in *.
  unfold saturating_sub, CAP_ATOMIC in *.
  assert (forall r1 m, 0 <= r1 <= 1000000000000 -> 0 <= m <= u64_max -> m + r1 = r + f ->
    let burn := wrap u128_max (r1 * DECAY_BPS) / 10000 in
    let after := wrap u128_max (r1 - burn) in
    wrap u64_max m = m /\ m + wrap u64_max after + wrap u64_max burn = r + f
    /\ 0 <= wrap u64_max after <= 1000000000000 /\ 0 <= wrap u64_max burn) as Hdecay.
  { intros r1 m H1 Hm E. pose proof (decay_bounds r1 H1) as Hd. unfold DECAY_BPS in *.
    cbv zeta. rewrite (wrap_small u128_max (r1 * 10)) by (unfold fits; lia).
    rewrite (wrap_small u128_max (r1 - _)) by (unfold fits; lia).
    rewrite !wrap_small by (unfold fits; lia). lia. }
  destruct (Z.ltb_spec c LOW_WATER); [|destruct (Z.ltb_spec HIGH_WATER c)].
  - set (s := Z.min (f / 5) (Z.max 0 (1000000000000 - r))).
    assert (0 <= s <= f / 5 /\ s <= 1000000000000 - r) as [? ?] by (unfold s; lia).
    rewrite !(wrap_small u128_max (_ - s)), (wrap_small u128_max (r + s)) by (unfold fits; lia).
    destruct (Hdecay (r + s) (f - s)) as (Em & ? & ? & ?); try lia. cbn. rewrite Em. lia.
  - set (d := Z.min (f / 5) r). assert (0 <= d <= r /\ d <= f / 5) as [? ?] by (unfold d; lia).
    rewrite (wrap_small u128_max (f + d)), (wrap_small u128_max (r - d)) by (unfold fits; lia).
    destruct (Hdecay (r - d) (f + d)) as (Em & ? & ? & ?); try lia. cbn. rewrite Em. lia.
  - destruct (Hdecay r f) as (Em & ? & ? & ?); try lia. cbn. rewrite Em. lia.
Qed.

(** A run of the reservoir over the fees and congestion of successive blocks:
    the final balance, and what the miners were paid and what was burned. *)
Fixpoint reservoir_run (r : Z) (blocks : list (Z * Z)) : Z * Z * Z :=
  match blocks with
  | [] => (r, 0, 0)
  | (f, c) :: bs =>
      let t := reservoir_step r f c in
      let '(r', paid, burnt) := reservoir_run (reservoir_after t) bs in
      (r', r_to_miner t + paid, r_burned t + burnt)
  end.

Definition total_fees (blocks : list (Z * Z)) : Z := foldr (fun b a => fst b + a) 0 blocks.

(** ** Properties *)

(** The fee split is exact: miner and burn add up to the fee with no protocol share,
    the miner gets the floor of the configured percentage, and the distribution passes
    its own validity check. *)
Theorem distribute_fee_conserves fee congested :
  fits u64_max fee ->
  let d := distribute_fee fee congested in
  is_valid d = true /\ to_miner d + burned d = fee /\ to_protocol d = 0
  /\ to_miner d = fee * (if congested then 50 else 70) / 100
  /\ 0 <= burned d <= fee.
Proof.
  intros H d. destruct (distribute_fee_eq fee congested H) as [E Hb]. unfold d. rewrite E.
  unfold fits in H. unfold is_valid. cbn [to_miner burned to_protocol total].
  set (q := fee * _ / 100) in *. clearbody q.
  rewrite (wrap_small _ (q + _)), wrap_small by (unfold fits; lia).
  rewrite Z.eqb_eq. lia.
Qed.

(** The reservoir only redistributes: over any sequence of blocks the payments, the
    burns and the final balance add up to the initial balance plus the fees, the balance
    never exceeds its cap and no step pays more than the fees and the balance. *)
Theorem reservoir_run_conserves blocks r :
  0 <= r <= CAP_ATOMIC ->
  Forall (fun b => 0 <= fst b <= u64_max - CAP_ATOMIC) blocks ->
  let '(r', paid, burnt) := reservoir_run r blocks in
  paid + burnt + r' = r + total_fees blocks /\ 0 <= r' <= CAP_ATOMIC /\ 0 <= burnt
  /\ paid <= r + total_fees blocks.
Proof.
  intros Hr Hbs. revert r Hr. induction Hbs as [|[f c] bs Hf Hbs IH]; intros r Hr; [simpl; lia|].
  simpl in Hf. cbn [reservoir_run total_fees foldr fst].
  destruct (reservoir_step_spec r f c Hr) as (E & Hcap & Hbn & _); [unfold fits, CAP_ATOMIC in *; lia|lia|].
  specialize (IH _ Hcap). destruct (reservoir_run _ bs) as [[r' paid] burnt].
  fold (total_fees bs). lia.
Qed.

(** The audited burn of a block's statistics is within one atomic unit of the burn that
    the fee split performs, and never above it. *)
Theorem block_fee_stats_burn_close height tx_fees congested :
  tx_fees <> [] -> Forall (fun f => fits u64_max (fst f)) tx_fees ->
  let s := block_fee_stats height tx_fees congested in
  let d := distribute_fee (bf_total_fees s) congested in
  fits u64_max (bf_total_fees s) /\ bf_total_burned s <= burned d <= bf_total_burned s + 1.
Proof.
  intros Hne Hf. unfold block_fee_stats. destruct tx_fees as [|x xs] eqn:Ex; [done|].
  rewrite <- Ex in *. clear Ex Hne. cbn [bf_total_fees bf_total_burned].
  set (t := fold_left _ tx_fees 0).
  assert (fits u64_max t) as Ht.
  { unfold t. assert (fits u64_max 0) as H0 by (unfold fits; lia). revert H0. generalize 0.
    induction Hf as [|f fs Hh Hfs IH]; intros a Ha; simpl; [done|].
    apply IH. by apply saturating_add_fits. }
  clearbody t. split; [done|].
  destruct (distribute_fee_eq t congested Ht) as [-> Hb]. cbn [burned]. unfold fits in Ht.
  change FEE_BURN_CONGESTED_PERCENT with 50. change FEE_BURN_NORMAL_PERCENT with 30.
  rewrite (wrap_small u128_max) by (unfold fits; destruct congested; lia).
  destruct congested; rewrite wrap_small by (unfold fits; split; [apply Z.div_pos|apply Z.div_le_upper_bound]; lia);
    pose proof (Z.div_mod (t * 50) 100); pose proof (Z.mod_pos_bound (t * 50) 100);
    pose proof (Z.div_mod (t * 70) 100); pose proof (Z.mod_pos_bound (t * 70) 100);
    pose proof (Z.div_mod (t * 30) 100); pose proof (Z.mod_pos_bound (t * 30) 100); lia.
Qed.

(** The required fee grows with the size and with the congestion of the block and is
    never below one times the minimum per byte, up to saturation. *)
Theorem calculate_fee_monotone s s' c c' :
  0 <= s <= s' -> c <= c' ->
  calculate_fee s c <= calculate_fee s' c'
  /\ Z.min (u64_max / 100) (s * MIN_FEE_PER_BYTE) <= calculate_fee s c.
Proof.
  intros Hs Hc. unfold calculate_fee, saturating_mul, MIN_FEE_PER_BYTE.
  assert (100 <= congestion_multiplier c <= congestion_multiplier c' /\ congestion_multiplier c' <= 300)
    as [? ?] by (unfold congestion_multiplier; zcases).
  set (m := congestion_multiplier c) in *. set (m' := congestion_multiplier c') in *. clearbody m m'.
  set (a := Z.min u64_max (s * 1000)). set (a' := Z.min u64_max (s' * 1000)).
  assert (0 <= a <= a' /\ a' <= u64_max) as [? ?] by (unfold a, a'; lia).
  split.
  - apply Z.div_le_mono; [lia|]. apply Z.min_le_compat_l. nia.
  - apply Z.div_le_lower_bound; [lia|].
    assert (100 * a <= a * m) by nia. unfold a in *.
    change (u64_max / 100) with 184467440737095516 in *. lia.
Qed.

(** ** Witnesses *)

Lemma distribute_fee_conserves_witness :
  to_miner (distribute_fee u64_max false) + burned (distribute_fee u64_max false) = u64_max.
Proof. apply (distribute_fee_conserves u64_max false). unfold fits. lia. Defined.

Lemma reservoir_run_conserves_witness :
  let '(r', paid, burnt) := reservoir_run 0 [(5000, 10); (7000, 90); (100, 50)] in
  paid + burnt + r' = 0 + total_fees [(5000, 10); (7000, 90); (100, 50)] /\ paid = 12099.
Proof.
  split; [|vm_compute; reflexivity].
  apply (reservoir_run_conserves [(5000, 10); (7000, 90); (100, 50)] 0);
    [unfold CAP_ATOMIC; lia|]. repeat constructor; vm_compute; discriminate.
Defined.

Lemma block_fee_stats_burn_close_witness :
  bf_total_burned (block_fee_stats 7 [(101, 200); (2, 90)] false)
  <= burned (distribute_fee 103 false) <= 31.
Proof.
  apply (block_fee_stats_burn_close 7 [(101, 200); (2, 90)] false); [done|].
  repeat constructor; vm_compute; discriminate.
Defined.

Lemma calculate_fee_monotone_witness : calculate_fee 2000 40 <= calculate_fee 3000 95.
Proof. apply (calculate_fee_monotone 2000 3000 40 95); lia. Defined.

End FeeMarket.
