(* ===== verification/Security.v ===== *)
(** * Security details (src/src/security/mod.rs, src/src/security/supply.rs)

    The chain-wide guard pattern: a detail sweeps one subsystem and raises alerts;
    the command merges the reports of several details and fails closed on a
    consensus halt; the incident log keeps a bounded window of what was seen.  The
    interface a subsystem implements is the class [SecurityDetail]; a trait object
    is the record [dyn_detail].  Alert messages are not modelled, nor is the [f64]
    baseline. *)

From Stdlib Require Import String.
From stdpp Require Import strings gmap sorting.
From S2P Require Import Prelude Constants Emission.

Module Security.

Inductive Severity := Info | Warning | Critical.
Inductive AlertClass := Consensus | Operational.
Inductive Disposition := Accept | Log | Throttle | Quarantine | BanPeer | Halt.

#[export] Instance severity_eq_dec : EqDecision Severity.
Proof. solve_decision. Defined.
#[export] Instance alert_class_eq_dec : EqDecision AlertClass.
Proof. solve_decision. Defined.
#[export] Instance disposition_eq_dec : EqDecision Disposition.
Proof. solve_decision. Defined.

(** The derived orders: declaration order. *)
Definition severity_rank (s : Severity) : Z :=
  match s with Info => 0 | Warning => 1 | Critical => 2 end.

Definition disposition_rank (d : Disposition) : Z :=
  match d with Accept => 0 | Log => 1 | Throttle => 2 | Quarantine => 3 | BanPeer => 4 | Halt => 5 end.

Definition severity_ge (a b : Severity) : bool := severity_rank b <=? severity_rank a.

Record Alert := mkAlert {
  detail : string;
  severity : Severity;
  class : AlertClass;
  code : string }.

#[export] Instance alert_eq_dec : EqDecision Alert.
Proof. solve_decision. Defined.

(** [Alert::disposition] *)
Definition alert_disposition (a : Alert) : Disposition :=
  match severity a, class a with
  | Critical, Consensus => Halt
  | Critical, Operational => BanPeer
  | Warning, _ => Throttle
  | Info, _ => Log
  end.

(** A [SecurityReport] is its list of alerts. *)
Abbreviation SecurityReport := (list Alert).

Definition clean : SecurityReport := [].

Definition raise_consensus (r : SecurityReport) (d : string) (s : Severity) (c : string) : SecurityReport :=
  r ++ [mkAlert d s Consensus c].

Definition raise_operational (r : SecurityReport) (d : string) (s : Severity) (c : string) : SecurityReport :=
  r ++ [mkAlert d s Operational c].

Definition merge (r other : SecurityReport) : SecurityReport := r ++ other.

Definition is_critical (a : Alert) : bool := bool_decide (severity a = Critical).

Definition is_halt (a : Alert) : bool :=
  bool_decide (severity a = Critical) && bool_decide (class a = Consensus).

Definition has_critical (r : SecurityReport) : bool := existsb is_critical r.

Definition has_consensus_halt (r : SecurityReport) : bool := existsb is_halt r.

Definition criticals (r : SecurityReport) : list Alert := List.filter is_critical r.

Definition is_clean (r : SecurityReport) : bool := match r with [] => true | _ => false end.

Definition count_at_least (r : SecurityReport) (s : Severity) : nat :=
  length (List.filter (fun a => severity_ge (severity a) s) r).

Definition disposition_max (a b : Disposition) : Disposition :=
  if disposition_rank a <=? disposition_rank b then b else a.

(** [iter().map(Alert::disposition).max().unwrap_or(Accept)] *)
Definition disposition (r : SecurityReport) : Disposition :=
  match map alert_disposition r with
  | [] => Accept
  | d :: ds => fold_left disposition_max ds d
  end.

Definition distinct_details (r : SecurityReport) : nat :=
  size (list_to_set (map detail r) : gset string).

Definition coordinated_attack_suspected (r : SecurityReport) : bool :=
  (2 <=? distinct_details r)%nat && (1 <=? count_at_least r Critical)%nat.

(** The trait. *)
Class SecurityDetail (D : Type) := {
  label : D -> string;
  sweep : D -> SecurityReport }.

(** [&dyn SecurityDetail] *)
Record dyn_detail := mkDyn {
  dyn_type : Type;
  dyn_impl : SecurityDetail dyn_type;
  dyn_value : dyn_type }.

Definition dyn_sweep (d : dyn_detail) : SecurityReport := @sweep _ (dyn_impl d) (dyn_value d).

(** [SecurityCommand] *)
Definition sweep_all (details : list dyn_detail) : SecurityReport :=
  fold_left (fun report d => merge report (dyn_sweep d)) details clean.

Definition assert_consensus_safe (details : list dyn_detail) : result SecurityReport SecurityReport :=
  let report := sweep_all details in
  if has_consensus_halt report then Err report else Ok report.

(** ** The incident log *)

Record Incident := mkIncident { seq_no : Z; inc_height : Z; inc_alert : Alert }.

Record IncidentLog := mkLog {
  seq : Z;
  total : Z;
  total_consensus_halts : Z;
  ring : list Incident;
  cap : nat }.

Definition new_log (c : nat) : IncidentLog := mkLog 0 0 0 [] (Nat.max c 1).

(** [while ring.len() > cap { ring.pop_front(); }] *)
Fixpoint trim_front (c : nat) (r : list Incident) : list Incident :=
  match r with
  | [] => []
  | _ :: r' => if (c <? length r)%nat then trim_front c r' else r
  end.

Definition record (l : IncidentLog) (height : Z) (alert : Alert) : IncidentLog * Z :=
  let seq' := wrap u64_max (seq l + 1) in
  let total' := wrap u64_max (total l + 1) in
  let halts' := if is_halt alert then wrap u64_max (total_consensus_halts l + 1)
                else total_consensus_halts l in
  let ring' := trim_front (cap l) (ring l ++ [mkIncident seq' height alert]) in
  (mkLog seq' total' halts' ring' (cap l), seq').

Definition record_report (l : IncidentLog) (height : Z) (r : SecurityReport) : IncidentLog :=
  fold_left (fun l a => fst (record l height a)) r l.

Definition recent (l : IncidentLog) (n : nat) : list Incident :=
  drop (length (ring l) - n) (ring l).

Definition recent_at_least (l : IncidentLog) (s : Severity) (n : nat) : list Incident :=
  let out := List.filter (fun i => severity_ge (severity (inc_alert i)) s) (ring l) in
  drop (length out - n) out.

Definition repeat_count (l : IncidentLog) (c : string) : nat :=
  length (List.filter (fun i => bool_decide (code (inc_alert i) = c)) (ring l)).

Definition distinct_alert_kinds (l : IncidentLog) : nat :=
  size (list_to_set (map (fun i => (detail (inc_alert i), code (inc_alert i))) (ring l))
        : gset (string * string)).

(** ** The supply detail *)

(** [supply_violations]: the codes of the violations. *)
Definition supply_violations (total_supply total_burned : Z) : option string * option string :=
  (if total_supply <? total_burned then Some "burned-exceeds-supply"%string else None,
   if MAX_SUPPLY <? total_supply then Some "supply-over-cap"%string else None).

Definition supply_reconciliation (total_supply tip_height : Z) : option string :=
  let expected := Supply.cumulative_emission tip_height in
  if negb (total_supply =? expected) then Some "supply-schedule-mismatch"%string else None.

Record SupplySecurityDetail := mkSupplyDetail {
  sd_total_supply : Z;
  sd_total_burned : Z;
  sd_tip_height : option Z }.

Definition supply_sweep (d : SupplySecurityDetail) : SecurityReport :=
  let r := clean in
  let '(consensus, operational) := supply_violations (sd_total_supply d) (sd_total_burned d) in
  let r := match consensus with
           | Some c => raise_consensus r "supply" Critical c
           | None => r
           end in
  let r := match operational with
           | Some c => raise_operational r "supply" Warning c
           | None => r
           end in
  match sd_tip_height d with
  | Some tip =>
      match supply_reconciliation (sd_total_supply d) tip with
      | Some c => raise_operational r "supply" Critical c
      | None => r
      end
  | None => r
  end.

#[export] Instance supply_detail : SecurityDetail SupplySecurityDetail :=
  {| label := fun _ => "supply"%string; sweep := supply_sweep |}.

(** ** Reports *)

Lemma sweep_all_concat details : sweep_all details = concat (map dyn_sweep details).
Proof.
  unfold sweep_all, merge, clean.
  assert (forall acc, fold_left (fun report d => report ++ dyn_sweep d) details acc
                      = acc ++ concat (map dyn_sweep details)) as H.
  { induction details as [|d ds IH]; intros acc; simpl; [by rewrite app_nil_r|].
    by rewrite IH, app_assoc. }
  apply H.
Qed.

Lemma is_halt_spec a : is_halt a = true <-> severity a = Critical /\ class a = Consensus.
Proof. unfold is_halt. rewrite andb_true_iff, !bool_decide_eq_true. done. Qed.

Lemma has_consensus_halt_spec r :
  has_consensus_halt r = true <-> exists a, In a r /\ severity a = Critical /\ class a = Consensus.
Proof.
  unfold has_consensus_halt. rewrite existsb_exists. split; intros (a & Ha & H); exists a;
    (split; [done|]); by apply is_halt_spec.
Qed.

Lemma disposition_rank_inj a b : disposition_rank a = disposition_rank b -> a = b.
Proof. destruct a, b; simpl; intros; (done || lia). Qed.

Lemma disposition_max_rank a b :
  disposition_rank (disposition_max a b) = Z.max (disposition_rank a) (disposition_rank b).
Proof. unfold disposition_max. zcases. Qed.

Lemma fold_disposition_rank ds d :
  disposition_rank (fold_left disposition_max ds d)
  = fold_left Z.max (map disposition_rank ds) (disposition_rank d).
Proof.
  revert d. induction ds as [|x ds IH]; intros d; simpl; [done|]. by rewrite IH, disposition_max_rank.
Qed.

Lemma fold_max_ge_acc l a : a <= fold_left Z.max l a.
Proof. revert a. induction l as [|y l IH]; intros a; simpl; [lia|]. specialize (IH (Z.max a y)). lia. Qed.

Lemma fold_max_ge l a x : In x (a :: l) -> x <= fold_left Z.max l a.
Proof.
  revert a. induction l as [|y l IH]; intros a; simpl; [intros [<-|[]]; lia|].
  pose proof (fold_max_ge_acc l (Z.max a y)). intros [<-|[<-|Hin]]; [lia|lia|].
  apply IH. by right.
Qed.

Lemma fold_max_in l a : In (fold_left Z.max l a) (a :: l).
Proof.
  revert a. induction l as [|y l IH]; intros a; simpl; [by left|].
  destruct (IH (Z.max a y)) as [E|Hin]; [|by right; right].
  rewrite <- E. destruct (Z.max_spec a y) as [[_ ->]|[_ ->]]; tauto.
Qed.

(** The report's disposition is that of one of its alerts, and no alert's is stronger. *)
Lemma disposition_spec r :
  (r = [] /\ disposition r = Accept)
  \/ (exists a, In a r /\ disposition r = alert_disposition a
      /\ forall b, In b r -> disposition_rank (alert_disposition b) <= disposition_rank (alert_disposition a)).
Proof.
  unfold disposition. destruct r as [|a r]; [by left|]. right. simpl map. cbv iota.
  pose proof (fold_disposition_rank (map alert_disposition r) (alert_disposition a)) as Er.
  pose proof (fold_max_in (map disposition_rank (map alert_disposition r)) (disposition_rank (alert_disposition a))) as Hin.
  rewrite <- Er in Hin. change (In (disposition_rank (fold_left disposition_max (map alert_disposition r) (alert_disposition a)))
    (map disposition_rank (map alert_disposition (a :: r)))) in Hin.
  rewrite map_map, in_map_iff in Hin. destruct Hin as (x & Ex & Hx). exists x. split; [done|].
  split; [by symmetry; apply disposition_rank_inj|].
  intros b Hb. rewrite Ex, Er. apply fold_max_ge.
  change (In (disposition_rank (alert_disposition b)) (map disposition_rank (map alert_disposition (a :: r)))).
  rewrite map_map. apply (in_map (fun a => disposition_rank (alert_disposition a))). done.
Qed.

Definition schedule_ok (d : SupplySecurityDetail) : bool :=
  match sd_tip_height d with
  | Some tip => sd_total_supply d =? Supply.cumulative_emission tip
  | None => true
  end.

(** The alerts of the supply detail, one list per check. *)
Lemma supply_sweep_eq d :
  supply_sweep d =
  (if sd_total_supply d <? sd_total_burned d
   then [mkAlert "supply" Critical Consensus "burned-exceeds-supply"] else [])
  ++ (if MAX_SUPPLY <? sd_total_supply d
      then [mkAlert "supply" Warning Operational "supply-over-cap"] else [])
  ++ (if schedule_ok d then []
      else [mkAlert "supply" Critical Operational "supply-schedule-mismatch"]).
Proof.
  unfold supply_sweep, supply_violations, supply_reconciliation, schedule_ok,
    raise_consensus, raise_operational, clean.
  destruct (sd_total_supply d <? sd_total_burned d), (MAX_SUPPLY <? sd_total_supply d),
    (sd_tip_height d) as [t|]; try reflexivity;
    destruct (sd_total_supply d =? Supply.cumulative_emission t); reflexivity.
Qed.

(** ** The log keeps the last [cap] incidents *)

Lemma trim_front_drop c r : trim_front c r = drop (length r - c) r.
Proof.
  induction r as [|x r IH]; [done|]. cbn [trim_front length]. destruct (Nat.ltb_spec c (S (length r))).
  - rewrite IH. replace (S (length r) - c)%nat with (S (length r - c)) by lia. done.
  - replace (S (length r) - c)%nat with 0%nat by lia. done.
Qed.

(** The unbounded history of a run: every recorded alert, numbered from one. *)
Fixpoint history_from (n : Z) (events : list (Z * Alert)) : list Incident :=
  match events with
  | [] => []
  | (h, a) :: es => mkIncident (n + 1) h a :: history_from (n + 1) es
  end.

Definition run_log (c : nat) (events : list (Z * Alert)) : IncidentLog :=
  fold_left (fun l e => fst (record l (fst e) (snd e))) events (new_log c).

Definition halts (events : list (Z * Alert)) : nat :=
  length (List.filter (fun e => is_halt (snd e)) events).

Lemma history_from_snoc n es h a :
  history_from n (es ++ [(h, a)]) = history_from n es ++ [mkIncident (n + Z.of_nat (length es) + 1) h a].
Proof.
  revert n. induction es as [|[h0 a0] es IH]; intros n; simpl.
  - do 2 f_equal. lia.
  - rewrite IH. do 4 f_equal. lia.
Qed.

Lemma length_history_from n es : length (history_from n es) = length es.
Proof. revert n. induction es as [|[] es IH]; intros; simpl; [done|]. by rewrite IH. Qed.

Lemma drop_app_drop (A : Type) (c : nat) (l : list A) (x : A) :
  (1 <= c)%nat ->
  drop (length (drop (length l - c) l ++ [x]) - c) (drop (length l - c) l ++ [x])
  = drop (length (l ++ [x]) - c) (l ++ [x]).
Proof.
  intros Hc. rewrite !length_app, length_drop. simpl.
  rewrite !drop_app_le by (rewrite ?length_drop; lia). rewrite drop_drop. do 2 f_equal. lia.
Qed.

Lemma run_log_state c events :
  Z.of_nat (length events) <= u64_max ->
  run_log c events =
  let h := history_from 0 events in
  mkLog (Z.of_nat (length events)) (Z.of_nat (length events)) (Z.of_nat (halts events))
    (drop (length h - Nat.max c 1) h) (Nat.max c 1).
Proof.
  induction events as [|[h a] es IH] using rev_ind; intros Hlen; [done|].
  rewrite length_app in Hlen. simpl in Hlen.
  unfold run_log, halts in *. rewrite fold_left_app, IH by lia. clear IH. simpl fold_left.
  cbv zeta. unfold record. cbn [fst seq total total_consensus_halts ring cap].
  rewrite wrap_small by (unfold fits; lia).
  rewrite List.filter_app, length_app. cbn [List.filter snd].
  assert (length (List.filter (fun e : Z * Alert => is_halt e.2) es) <= length es)%nat by apply List.filter_length_le.
  rewrite trim_front_drop, history_from_snoc.
  f_equal; [rewrite ?length_app; simpl; lia|rewrite ?length_app; simpl; lia| |].
  - destruct (is_halt a); simpl; [rewrite wrap_small by (unfold fits; lia)|]; rewrite ?length_app; simpl; lia.
  - rewrite Z.add_0_l. by rewrite drop_app_drop by lia.
Qed.

(** ** Properties *)

(** Fail-closed and nothing else: the command rejects exactly when some detail raises a
    critical consensus alert, whatever the operational alerts, and in both cases returns
    every alert of every detail in order. *)
Theorem assert_consensus_safe_spec details :
  let all := concat (map dyn_sweep details) in
  (assert_consensus_safe details = Err all
   <-> exists d a, In d details /\ In a (dyn_sweep d) /\ severity a = Critical /\ class a = Consensus)
  /\ (assert_consensus_safe details = Err all \/ assert_consensus_safe details = Ok all).
Proof.
  intros all. unfold assert_consensus_safe. rewrite sweep_all_concat. fold all.
  destruct (has_consensus_halt all) eqn:E; (split; [|tauto]); split; intros H; try done.
  - apply has_consensus_halt_spec in E as (a & Ha & Hs). apply in_concat in Ha as (r & Hr & Har).
    apply in_map_iff in Hr as (d & <- & Hd). by exists d, a.
  - destruct H as (d & a & Hd & Ha & Hs). exfalso.
    enough (has_consensus_halt all = true) by congruence.
    apply has_consensus_halt_spec. exists a. split; [|done].
    apply in_concat. exists (dyn_sweep d). split; [by apply in_map|done].
Qed.

(** The graduated response agrees with the halt test: the strongest recommended response
    of a report is [Halt] exactly when the report has a consensus halt, and it is [Accept]
    exactly when the report is clean. *)
Theorem disposition_halt_iff r :
  (disposition r = Halt <-> has_consensus_halt r = true)
  /\ (disposition r = Accept <-> is_clean r = true).
Proof.
  destruct (disposition_spec r) as [[-> ->]|(a & Ha & -> & Hmax)]; [done|]. split; split; intros H.
  - apply has_consensus_halt_spec. exists a. split; [done|].
    unfold alert_disposition in H. by destruct (severity a), (class a).
  - apply has_consensus_halt_spec in H as (b & Hb & Hs & Hc). specialize (Hmax b Hb).
    unfold alert_disposition at 1 in Hmax. rewrite Hs, Hc in Hmax.
    destruct (alert_disposition a); simpl in Hmax; (done || lia).
  - unfold alert_disposition in H. by destruct (severity a), (class a).
  - destruct r; done.
Qed.

(** The bounded incident log refines the unbounded history: after any run it holds the
    last [cap] incidents with their original sequence numbers, and its totals count every
    event recorded, the evicted ones included. *)
Theorem incident_log_refines_history c events :
  Z.of_nat (length events) <= u64_max ->
  let l := run_log c events in
  let h := history_from 0 events in
  ring l = drop (length h - Nat.max c 1) h
  /\ total l = Z.of_nat (length events)
  /\ total_consensus_halts l = Z.of_nat (halts events)
  /\ (length (ring l) <= Nat.max c 1)%nat
  /\ forall n, (n <= Nat.max c 1)%nat -> recent l n = drop (length h - n) h.
Proof.
  intros Hlen. rewrite run_log_state by done. cbv zeta. set (h := history_from 0 events).
  cbn [ring total total_consensus_halts cap]. do 3 (split; [done|]). split.
  - rewrite length_drop. lia.
  - intros n Hn. unfold recent. cbn [ring]. rewrite drop_drop, length_drop. f_equal. lia.
Qed.

(** The supply guard halts exactly on burn inflation: an over-cap supply or a divergence
    from the emission schedule is reported but never halts the node. *)
Theorem supply_sweep_halts_iff d :
  (has_consensus_halt (supply_sweep d) = true <-> sd_total_supply d < sd_total_burned d)
  /\ (is_clean (supply_sweep d) = true <->
      sd_total_burned d <= sd_total_supply d <= MAX_SUPPLY
      /\ forall tip, sd_tip_height d = Some tip -> sd_total_supply d = Supply.cumulative_emission tip).
Proof.
  rewrite supply_sweep_eq. unfold has_consensus_halt, schedule_ok. rewrite !existsb_app.
  destruct d as [ts tb tip]; cbn [sd_total_supply sd_total_burned sd_tip_height].
  split.
  - destruct (Z.ltb_spec ts tb), (MAX_SUPPLY <? ts), tip as [t|]; simpl;
      try destruct (ts =? Supply.cumulative_emission t); simpl; (done || lia).
  - destruct (Z.ltb_spec ts tb); [simpl; split; [done|lia]|].
    destruct (Z.ltb_spec MAX_SUPPLY ts); [simpl; split; [done|lia]|]. simpl.
    destruct tip as [t|]; simpl; [|by split].
    destruct (Z.eqb_spec ts (Supply.cumulative_emission t)) as [E|E]; simpl.
    + split; [intros _; split; [lia|]; by intros ? [= <-]|done].
    + split; [done|]. intros [_ Ht]. by specialize (Ht _ eq_refl).
Qed.

(** ** Witnesses *)

Lemma incident_log_refines_history_witness :
  let a := mkAlert "utxo-set" Warning Operational "velocity" in
  map seq_no (ring (run_log 2 [(10, a); (11, a); (12, a)])) = [2; 3].
Proof.
  cbv zeta. rewrite (proj1 (incident_log_refines_history 2
    [(10, mkAlert "utxo-set" Warning Operational "velocity");
     (11, mkAlert "utxo-set" Warning Operational "velocity");
     (12, mkAlert "utxo-set" Warning Operational "velocity")] ltac:(simpl; lia))).
  reflexivity.
Defined.

End Security.
