(* ===== verification/Ledger.v ===== *)
(** * Chain statistics (src/src/chain.rs, src/src/chain/recovery.rs)

    The running totals a node keeps while blocks are connected and disconnected:
    emitted supply, burned fees, cumulative work and the block and transaction
    counts.  A connect that overflows or a disconnect that underflows panics in the
    source; here it is [None].  Blocks carry what the totals depend on; hashes are
    numbers. *)

From Stdlib Require Import String.
From S2P Require Import Prelude Constants Emission Difficulty FeeMarket Security.

Module Ledger.

(** The networks of [config::NetworkType] and their fee-distribution heights. *)
Inductive NetworkType := Mainnet | Testnet | Regtest | Beta.

Definition fee_distribution_height (n : NetworkType) : Z :=
  match n with Mainnet => 0 | Testnet | Regtest | Beta => 525 end.

Record Tx := mkTx { is_coinbase : bool; fee : Z }.

Record Block := mkBlock {
  b_hash : Z;
  b_height : Z;
  b_target : list Z;
  b_txs : list Tx;
  b_size : Z }.

Record ChainStats := mkStats {
  height : Z;
  total_blocks : Z;
  total_transactions : Z;
  total_supply : Z;
  total_burned : Z;
  difficulty : Z;
  tip_hash : Z;
  total_difficulty : Z }.

Definition total_fees (b : Block) : Z :=
  fold_left (saturating_add u64_max) (map fee (List.filter (fun tx => negb (is_coinbase tx)) (b_txs b))) 0.

Definition block_fee_burn (network : NetworkType) (b : Block) : Z :=
  let total_fees := total_fees b in
  if (b_height b <? fee_distribution_height network) || (total_fees =? 0) then 0
  else
    let size := b_size b in
    let congestion_pct := wrap u64_max (wrap u128_max (size * 100) / MAX_BLOCK_SIZE) in
    let congested := CONGESTION_THRESHOLD <=? congestion_pct in
    FeeMarket.burned (FeeMarket.distribute_fee total_fees congested).

(** The statistics part of [init_genesis]. *)
Definition init_genesis (hash : Z) (ntxs : Z) : ChainStats :=
  mkStats 0 1 ntxs (Curve.calculate_block_reward 0) 0 0 hash 1.

(** The statistics part of connecting a block at the tip in [add_block]. *)
Definition connect_stats (network : NetworkType) (s : ChainStats) (b : Block) : option ChainStats :=
  let d := Difficulty.calculate_difficulty_from_target (b_target b) in
  let emission := Curve.calculate_block_reward (b_height b) in
  supply ← checked_add u128_max (total_supply s) emission;
  burned ← checked_add u128_max (total_burned s) (block_fee_burn network b);
  Some (mkStats (b_height b)
          (wrap u64_max (total_blocks s + 1))
          (wrap u64_max (total_transactions s + Z.of_nat (List.length (b_txs b))))
          supply burned d (b_hash b)
          (wrap u128_max (total_difficulty s + d))).

(** The statistics part of disconnecting one block in [rollback_to_height]; [h] is
    the height of the loop, whose emission is subtracted. *)
Definition disconnect_stats (network : NetworkType) (s : ChainStats) (h : Z) (b : Block)
  : option ChainStats :=
  let emission := Curve.calculate_block_reward h in
  let fee_burn := block_fee_burn network b in
  supply ← checked_sub (total_supply s) emission;
  burned ← checked_sub (total_burned s) fee_burn;
  let disc_difficulty := Difficulty.calculate_difficulty_from_target (b_target b) in
  Some (mkStats (height s)
          (saturating_sub (total_blocks s) 1)
          (saturating_sub (total_transactions s) (Z.of_nat (List.length (b_txs b))))
          supply burned (difficulty s) (tip_hash s)
          (saturating_sub (total_difficulty s) disc_difficulty)).

(** The statistics part of [rollback_to_height] past its guards, on a chain whose blocks
    and new tip are found in the cache or the database: the disconnected blocks from the
    tip down, then the new height and tip hash. *)
Fixpoint disconnect_all (network : NetworkType) (s : ChainStats) (blocks : list Block)
  : option ChainStats :=
  match blocks with
  | [] => Some s
  | b :: bs => s' ← disconnect_stats network s (b_height b) b; disconnect_all network s' bs
  end.

Definition rollback_to (network : NetworkType) (s : ChainStats) (blocks : list Block)
    (target_height new_tip_hash : Z) : option ChainStats :=
  s' ← disconnect_all network s blocks;
  Some (mkStats target_height (total_blocks s') (total_transactions s') (total_supply s')
          (total_burned s') (difficulty s') new_tip_hash (total_difficulty s')).

Fixpoint connect_all (network : NetworkType) (s : ChainStats) (blocks : list Block)
  : option ChainStats :=
  match blocks with
  | [] => Some s
  | b :: bs => s' ← connect_stats network s b; connect_all network s' bs
  end.

(** [check_supply_commitment], over the commitment function of the header. *)
Definition check_supply_commitment (commitment : Z -> Z -> Z -> list Z)
    (enforce_height h : Z) (header_commitment : list Z) (post_emitted post_burned : Z) : bool :=
  if h <? enforce_height then true
  else bool_decide (header_commitment
         = commitment post_emitted post_burned (saturating_sub MAX_SUPPLY post_emitted)).

(** ** Bounds of a block's contributions *)

(** The block is in range: 64-bit height, fees and transaction count. *)
Definition block_ok (b : Block) : Prop :=
  fits u64_max (b_height b) /\ Forall (fun tx => fits u64_max (fee tx)) (b_txs b).

Lemma fold_saturating_fits l a :
  fits u64_max a -> Forall (fits u64_max) l -> fits u64_max (fold_left (saturating_add u64_max) l a).
Proof.
  intros Ha Hl. revert a Ha. induction Hl as [|x l Hx Hl IH]; intros a Ha; simpl; [done|].
  apply IH. by apply saturating_add_fits.
Qed.

Lemma total_fees_fits b : block_ok b -> fits u64_max (total_fees b).
Proof.
  intros [_ Hf]. apply fold_saturating_fits; [unfold fits; lia|].
  apply Forall_forall. intros x Hx. apply in_map_iff in Hx as (tx & <- & Htx).
  apply List.filter_In in Htx as [Htx _]. rewrite Forall_forall in Hf. by apply Hf.
Qed.

Lemma block_fee_burn_bounds n b : block_ok b -> 0 <= block_fee_burn n b <= total_fees b.
Proof.
  intros Hb. pose proof (total_fees_fits b Hb) as Ht. unfold block_fee_burn.
  destruct (_ || _); [unfold fits in Ht; lia|]. set (c := CONGESTION_THRESHOLD <=? _).
  destruct (FeeMarket.distribute_fee_eq (total_fees b) c Ht) as [-> ?]. simpl. lia.
Qed.

Lemma work_bounds t : 0 <= Difficulty.calculate_difficulty_from_target t <= u128_max.
Proof.
  unfold Difficulty.calculate_difficulty_from_target, Difficulty.target_to_difficulty_raw.
  assert (1 <= Difficulty.target_to_u128 t) by (unfold Difficulty.target_to_u128; lia).
  unfold Difficulty.u128_max_target. split; [apply Z.div_pos; lia|apply div_le_self; lia].
Qed.

(** ** The invariant of the totals *)

Fixpoint burn_sum (n : NetworkType) (chain : list Block) : Z :=
  match chain with [] => 0 | b :: c => block_fee_burn n b + burn_sum n c end.

Fixpoint work_sum (chain : list Block) : Z :=
  match chain with
  | [] => 0
  | b :: c => Difficulty.calculate_difficulty_from_target (b_target b) + work_sum c
  end.

Fixpoint tx_sum (chain : list Block) : Z :=
  match chain with [] => 0 | b :: c => Z.of_nat (List.length (b_txs b)) + tx_sum c end.

(** The blocks above genesis, newest first, with consecutive heights. *)
Fixpoint heights_ok (chain : list Block) : Prop :=
  match chain with
  | [] => True
  | b :: c => b_height b = Z.of_nat (List.length chain) /\ heights_ok c
  end.

(** The state of a node: its statistics and its active chain above genesis. *)
Definition node : Type := ChainStats * list Block.

Section Steps.
Context (network : NetworkType) (genesis_txs : Z).

(** Connecting the next block, and rolling back any number of blocks. *)
Inductive step : node -> node -> Prop :=
| step_connect s chain b s' :
    b_height b = height s + 1 -> block_ok b -> height s + 1 < u64_max ->
    total_transactions s + Z.of_nat (List.length (b_txs b)) <= u64_max ->
    total_difficulty s + Difficulty.calculate_difficulty_from_target (b_target b) <= u128_max ->
    connect_stats network s b = Some s' ->
    step (s, chain) (s', b :: chain)
| step_rollback s gone chain th tip s' :
    th = Z.of_nat (List.length chain) ->
    rollback_to network s gone th tip = Some s' ->
    step (s, gone ++ chain) (s', chain).

Inductive reachable : node -> Prop :=
| reachable_init hash : reachable (init_genesis hash genesis_txs, [])
| reachable_step n n' : reachable n -> step n n' -> reachable n'.

Definition totals (s : ChainStats) (chain : list Block) : Prop :=
  total_blocks s = Z.of_nat (List.length chain) + 1
  /\ total_transactions s = genesis_txs + tx_sum chain
  /\ total_supply s = Supply.emission_sum (S (List.length chain))
  /\ total_burned s = burn_sum network chain
  /\ total_difficulty s = 1 + work_sum chain.

(** The invariant of the statistics of a node. *)
Definition node_inv (n : node) : Prop :=
  let '(s, chain) := n in
  height s = Z.of_nat (List.length chain) /\ height s < u64_max
  /\ heights_ok chain /\ Forall block_ok chain
  /\ totals s chain /\ total_transactions s <= u64_max /\ total_difficulty s <= u128_max.

Lemma burn_sum_bounds chain :
  Forall block_ok chain -> 0 <= burn_sum network chain <= u64_max * Z.of_nat (List.length chain).
Proof.
  induction 1 as [|b c Hb Hc IH]; simpl burn_sum; [simpl; lia|].
  pose proof (block_fee_burn_bounds network b Hb). pose proof (total_fees_fits b Hb) as [_ ?].
  simpl List.length. lia.
Qed.

Lemma tx_sum_nonneg chain : 0 <= tx_sum chain.
Proof. induction chain; simpl; lia. Qed.

Lemma work_sum_nonneg chain : 0 <= work_sum chain.
Proof. induction chain as [|b c IH]; simpl; [lia|]. pose proof (work_bounds (b_target b)). lia. Qed.

Lemma emission_sum_length n :
  Z.of_nat n <= u64_max + 1 -> 0 <= Supply.emission_sum n <= u128_max.
Proof.
  intros H. pose proof (Supply.emission_sum_bounds n H). unfold COIN, TAIL_EMISSION in *. lia.
Qed.

Hypothesis Hgenesis : fits u64_max genesis_txs.

(** Connecting a block never panics in a reachable state and keeps the totals. *)
Lemma connect_totals s chain b :
  node_inv (s, chain) -> b_height b = height s + 1 -> block_ok b -> height s + 1 < u64_max ->
  total_transactions s + Z.of_nat (List.length (b_txs b)) <= u64_max ->
  total_difficulty s + Difficulty.calculate_difficulty_from_target (b_target b) <= u128_max ->
  exists s', connect_stats network s b = Some s' /\ node_inv (s', b :: chain)
    /\ tip_hash s' = b_hash b.
Proof.
  intros (Hh & Hle & Hhs & Hok & (Eb & Et & Es & Ebu & Ed) & Htx & Hd) Eh Hb Hlt Htx' Hd'.
  pose proof (burn_sum_bounds (b :: chain) ltac:(by constructor)) as Hbs. simpl burn_sum in Hbs.
  assert (total_supply s + Curve.calculate_block_reward (b_height b)
          = Supply.emission_sum (S (List.length (b :: chain)))) as Esup.
  { rewrite Es, Eh, Hh. simpl List.length. cbn [Supply.emission_sum].
    unfold Curve.calculate_block_reward. do 2 f_equal. lia. }
  pose proof (emission_sum_length (S (List.length (b :: chain))) ltac:(simpl; lia)) as Hes.
  pose proof (tx_sum_nonneg chain). pose proof (work_sum_nonneg chain).
  pose proof (work_bounds (b_target b)).
  unfold connect_stats. simpl List.length in *.
  rewrite (checked_add_Some _ (total_supply s)), Esup by lia. simpl mbind.
  rewrite checked_add_Some by lia. simpl mbind.
  eexists. split; [reflexivity|]. split; [|reflexivity]. unfold node_inv, totals. simpl.
  rewrite (wrap_small u64_max (total_blocks s + 1)) by (unfold fits; lia).
  rewrite (wrap_small u64_max (total_transactions s + _)) by (unfold fits in *; lia).
  rewrite wrap_small by (unfold fits; lia).
  repeat split; try done; try lia. by constructor.
Qed.

(** Disconnecting the tip undoes its connection. *)
Lemma disconnect_totals s b chain :
  totals s (b :: chain) -> heights_ok (b :: chain) -> Forall block_ok (b :: chain) ->
  Z.of_nat (List.length (b :: chain)) <= u64_max ->
  exists s', disconnect_stats network s (b_height b) b = Some s' /\ totals s' chain
    /\ height s' = height s /\ difficulty s' = difficulty s.
Proof.
  intros (Eb & Et & Es & Ebu & Ed) [Eh Hhs] Hok Hlen. apply list.Forall_cons in Hok as [Hb Hok].
  simpl burn_sum in *. simpl work_sum in *. simpl tx_sum in *. simpl List.length in *.
  assert (total_supply s - Curve.calculate_block_reward (b_height b)
          = Supply.emission_sum (S (List.length chain))) as Esup.
  { rewrite Es, Eh. cbn [Supply.emission_sum]. unfold Curve.calculate_block_reward. lia. }
  pose proof (emission_sum_length (S (List.length chain)) ltac:(lia)).
  pose proof (burn_sum_bounds chain Hok). pose proof (tx_sum_nonneg chain).
  pose proof (work_sum_nonneg chain). unfold fits in *.
  unfold disconnect_stats. rewrite (checked_sub_Some (total_supply s)) by lia. simpl mbind.
  rewrite checked_sub_Some by lia. simpl mbind.
  eexists. split; [reflexivity|]. split; [|done]. unfold totals, saturating_sub.
  cbn [total_blocks total_transactions total_supply total_burned total_difficulty].
  repeat split; lia.
Qed.

Lemma disconnect_all_totals gone s chain :
  totals s (gone ++ chain) -> heights_ok (gone ++ chain) -> Forall block_ok (gone ++ chain) ->
  Z.of_nat (List.length (gone ++ chain)) <= u64_max ->
  exists s', disconnect_all network s gone = Some s' /\ totals s' chain /\ difficulty s' = difficulty s.
Proof.
  revert s. induction gone as [|b gone IH]; intros s Ht Hh Hok Hlen; [by exists s|].
  destruct (disconnect_totals s b (gone ++ chain) Ht Hh Hok Hlen) as (s1 & E1 & Ht1 & _ & Ed1).
  simpl. rewrite E1. simpl. destruct Hh as [_ Hh]. apply list.Forall_cons in Hok as [_ Hok].
  destruct (IH s1 Ht1 Hh Hok) as (s2 & E2 & Ht2 & Ed2); [simpl in Hlen; lia|].
  exists s2. split; [done|]. split; [done|congruence].
Qed.

Lemma heights_ok_app gone chain : heights_ok (gone ++ chain) -> heights_ok chain.
Proof. induction gone as [|b g IH]; [done|]. intros [_ H]. by apply IH. Qed.

Lemma rollback_totals s gone chain tip :
  node_inv (s, gone ++ chain) ->
  exists s', rollback_to network s gone (Z.of_nat (List.length chain)) tip = Some s'
    /\ node_inv (s', chain) /\ difficulty s' = difficulty s /\ tip_hash s' = tip.
Proof.
  intros (Hh & Hle & Hhs & Hok & Ht & Htx & Hd).
  destruct (disconnect_all_totals gone s chain Ht Hhs Hok) as (s1 & E1 & Ht1 & Ed1); [lia|].
  unfold rollback_to. rewrite E1. simpl mbind. eexists. split; [reflexivity|].
  rewrite length_app in Hh. apply heights_ok_app in Hhs. apply Forall_app in Hok as [_ Hok].
  split; [|done]. unfold node_inv.
  assert (tx_sum chain <= tx_sum (gone ++ chain)) by (clear; induction gone; simpl; lia).
  assert (work_sum chain <= work_sum (gone ++ chain)).
  { clear. induction gone as [|b g IH]; simpl; [lia|]. pose proof (work_bounds (b_target b)). lia. }
  destruct Ht as (_ & Et & _ & _ & Ed). pose proof Ht1 as (_ & Et1 & _ & _ & Ed1').
  cbn [height total_transactions total_difficulty]. repeat split; try done; try lia; apply Ht1.
Qed.

Lemma init_inv hash : node_inv (init_genesis hash genesis_txs, []).
Proof. unfold node_inv, totals, init_genesis, fits in *. simpl. repeat split; try done; lia. Qed.

Lemma reachable_inv n : reachable n -> node_inv n.
Proof.
  induction 1 as [hash|n n' Hr IH Hs]; [apply init_inv|].
  inversion Hs as [s chain b s' Eh Hb Hlt Htx Hd E|s gone chain th tip s' -> E]; subst.
  - destruct (connect_totals s chain b IH) as (s1 & E1 & HI & _); try done. congruence.
  - destruct (rollback_totals s gone chain tip IH) as (s1 & E1 & HI & _ & _). congruence.
Qed.
End Steps.

(** ** Properties *)

(** C10: Supply accounting is exact on every history of connects and rollbacks: in every
    reachable state the recorded supply is the cumulative emission at the tip, so the
    schedule reconciliation of the supply detail raises nothing, and the burned total and
    the cumulative work are the sums over the active chain. *)
Theorem reachable_supply_exact network gtxs s chain :
  fits u64_max gtxs -> reachable network gtxs (s, chain) ->
  total_supply s = Supply.cumulative_emission (height s)
  /\ Security.supply_reconciliation (total_supply s) (height s) = None
  /\ total_burned s = burn_sum network chain
  /\ total_difficulty s = 1 + work_sum chain.
Proof.
  intros Hg Hr. destruct (reachable_inv network gtxs Hg _ Hr) as (Hh & Hle & _ & _ & (_ & _ & Es & Eb & Ed) & _).
  assert (total_supply s = Supply.cumulative_emission (height s)) as E.
  { rewrite Supply.cumulative_emission_sum, Es by (unfold fits; lia). do 2 f_equal. lia. }
  split; [done|]. split; [|done]. unfold Security.supply_reconciliation. by rewrite E, Z.eqb_refl.
Qed.

(** A reachable node never panics in its bookkeeping: any next block whose counters stay
    in range can be connected, and any suffix of the active chain can be rolled back. *)
Theorem reachable_no_panic network gtxs s chain :
  fits u64_max gtxs -> reachable network gtxs (s, chain) ->
  (forall b, b_height b = height s + 1 -> block_ok b -> height s + 1 < u64_max ->
     total_transactions s + Z.of_nat (List.length (b_txs b)) <= u64_max ->
     total_difficulty s + Difficulty.calculate_difficulty_from_target (b_target b) <= u128_max ->
     exists s', connect_stats network s b = Some s' /\ step network (s, chain) (s', b :: chain))
  /\ (forall gone rest tip, chain = gone ++ rest ->
      exists s', rollback_to network s gone (Z.of_nat (List.length rest)) tip = Some s'
        /\ step network (s, chain) (s', rest)).
Proof.
  intros Hg Hr. pose proof (reachable_inv network gtxs Hg _ Hr) as HI. split.
  - intros b ? ? ? ? ?. destruct (connect_totals network gtxs Hg s chain b HI) as (s' & E & _); try done.
    exists s'. split; [done|]. by constructor.
  - intros gone rest tip ->. destruct (rollback_totals network gtxs Hg s gone rest tip HI) as (s' & E & _).
    exists s'. split; [done|]. by eapply step_rollback.
Qed.

(** A rollback undoes the connections it disconnects: connecting blocks on a reachable
    node and rolling back to the old tip restores every total, the height and the tip hash;
    only the recorded difficulty stays that of the last block connected. *)
Theorem connect_rollback_inverse network gtxs s chain b s' :
  fits u64_max gtxs -> reachable network gtxs (s, chain) ->
  b_height b = height s + 1 -> block_ok b -> height s + 1 < u64_max ->
  total_transactions s + Z.of_nat (List.length (b_txs b)) <= u64_max ->
  total_difficulty s + Difficulty.calculate_difficulty_from_target (b_target b) <= u128_max ->
  connect_stats network s b = Some s' ->
  rollback_to network s' [b] (height s) (tip_hash s)
  = Some (mkStats (height s) (total_blocks s) (total_transactions s) (total_supply s)
            (total_burned s) (difficulty s') (tip_hash s) (total_difficulty s)).
Proof.
  intros Hg Hr Eh Hb Hlt Htx Hd E. pose proof (reachable_inv network gtxs Hg _ Hr) as HI.
  destruct (connect_totals network gtxs Hg s chain b HI) as (s1 & E1 & HI1 & _); try done.
  rewrite E in E1. inv_res. subst s1.
  destruct (rollback_totals network gtxs Hg s' [b] chain (tip_hash s) HI1) as (s2 & E2 & HI2 & Hdiff & Htip).
  destruct HI as (Hh & _ & _ & _ & (T1 & T2 & T3 & T4 & T5) & _).
  destruct HI2 as (Hh2 & _ & _ & _ & (U1 & U2 & U3 & U4 & U5) & _).
  rewrite Hh, E2. f_equal. destruct s2; simpl in *. f_equal; congruence.
Qed.

(** ** Witnesses *)

(** A block of height one with a fee. *)
Definition sample_block : Block :=
  mkBlock 77 1 (Difficulty.u128_to_target (2 ^ 110)) [mkTx true 0; mkTx false 1000000] 5000.

Definition sample_stats : ChainStats :=
  match connect_stats Mainnet (init_genesis 7 1) sample_block with Some s => s | None => init_genesis 7 1 end.

Lemma sample_block_ok : block_ok sample_block.
Proof. split; [unfold fits; simpl; lia|]. repeat constructor; simpl; lia. Qed.

Lemma reachable_supply_exact_witness :
  total_supply sample_stats = Supply.cumulative_emission 1 /\ total_burned sample_stats = 300000.
Proof.
  split; [|vm_compute; reflexivity].
  apply (reachable_supply_exact Mainnet 1 sample_stats [sample_block]); [unfold fits; lia|].
  eapply reachable_step; [apply (reachable_init Mainnet 1 7)|].
  apply step_connect; [reflexivity|apply sample_block_ok|reflexivity|vm_compute; discriminate
    |vm_compute; discriminate|vm_compute; reflexivity].
Defined.

Lemma reachable_no_panic_witness :
  exists s', connect_stats Mainnet (init_genesis 7 1) sample_block = Some s'.
Proof.
  destruct (proj1 (reachable_no_panic Mainnet 1 (init_genesis 7 1) [] ltac:(unfold fits; lia)
    (reachable_init Mainnet 1 7)) sample_block) as (s' & E & _);
    [reflexivity|apply sample_block_ok|reflexivity|vm_compute; discriminate|vm_compute; discriminate|].
  exists s'. exact E.
Defined.

Lemma connect_rollback_inverse_witness :
  rollback_to Mainnet sample_stats [sample_block] 0 7
  = Some (mkStats 0 1 1 (50 * COIN) 0 262143 7 1).
Proof.
  etransitivity; [apply (connect_rollback_inverse Mainnet 1 (init_genesis 7 1) [] sample_block
    sample_stats ltac:(unfold fits; lia) (reachable_init Mainnet 1 7) eq_refl sample_block_ok);
    [reflexivity|vm_compute; discriminate|vm_compute; discriminate|vm_compute; reflexivity]|].
  vm_compute. reflexivity.
Defined.

End Ledger.
