(* ===== verification/ForkCalc.v ===== *)
(** * Fork choice helpers (src/src/chain/fork_calc.rs, src/src/chain/queries.rs)

    The walks over stored blocks that fork choice and the retarget rest on: the
    fork point, the fork chain, the cumulative work and the difficulty window.  The
    store is the in-memory cache with an optional database behind it; a failed
    database read is an absent entry.  Hashes are numbers.  The loops run with the
    fuel their visited set or step bound allows. *)

From stdpp Require Import gmap.
From S2P Require Import Prelude Constants Difficulty.

Module ForkCalc.

Record Block := mkBlock {
  height : Z;
  prev_hash : Z;
  timestamp : Z;
  target : list Z }.

(** Block bodies by hash and the main chain's hash by height. *)
Record Store := mkStore {
  blocks : gmap Z Block;
  height_to_hash : gmap Z Z }.

Record Blockchain := mkChain {
  inner : Store;
  db : option Store }.

Definition get_block (c : Blockchain) (hash : Z) : option Block :=
  match blocks (inner c) !! hash with
  | Some b => Some b
  | None => match db c with
            | Some d => blocks d !! hash
            | None => None
            end
  end.

Definition get_block_hash (c : Blockchain) (h : Z) : option Z :=
  match height_to_hash (inner c) !! h with
  | Some x => Some x
  | None => match db c with
            | Some d => height_to_hash d !! h
            | None => None
            end
  end.

Definition get_block_by_height (c : Blockchain) (h : Z) : option Block :=
  match get_block_hash c h with
  | Some hash => get_block c hash
  | None => None
  end.

(** The number of distinct hashes that can be visited. *)
Definition store_size (c : Blockchain) : nat :=
  (size (blocks (inner c)) + match db c with Some d => size (blocks d) | None => 0 end)%nat.

Definition work (b : Block) : Z := Difficulty.calculate_difficulty_from_target (target b).

(** ** The walks *)

(** One iteration of [find_fork_point] on [(visited, current_hash)]. *)
Definition fork_point_step (c : Blockchain) (st : gset Z * Z) : (gset Z * Z) + option Z :=
  let '(visited, current_hash) := st in
  if decide (current_hash ∈ visited) then inr None
  else
    let visited := {[current_hash]} ∪ visited in
    match get_block c current_hash with
    | Some parent =>
        let h := height parent in
        if decide (get_block_hash c h = Some current_hash) then inr (Some h)
        else if h =? 0 then inr (Some 0)
        else inl (visited, prev_hash parent)
    | None => inr None
    end.

Definition find_fork_point (c : Blockchain) (fork_block : Block) : option Z :=
  match iter (fork_point_step c) (S (S (store_size c))) (∅, prev_hash fork_block) with
  | Some r => r
  | None => None
  end.

(** One iteration of [collect_fork_chain] on [(visited, current_hash, chain)], the
    chain as pushed, newest block first pushed. *)
Definition collect_step (c : Blockchain) (fork_point : Z) (st : gset Z * Z * list Block)
  : (gset Z * Z * list Block) + list Block :=
  let '(visited, current_hash, chain) := st in
  if decide (current_hash ∈ visited) then inr chain
  else
    let visited := {[current_hash]} ∪ visited in
    match get_block c current_hash with
    | Some block =>
        if height block <=? fork_point then inr chain
        else inl (visited, prev_hash block, chain ++ [block])
    | None => inr chain
    end.

Definition collect_fork_chain (c : Blockchain) (fork_tip : Block) (fork_point : Z) : list Block :=
  match iter (collect_step c fork_point) (S (S (store_size c))) (∅, prev_hash fork_tip, []) with
  | Some chain => rev chain
  | None => []
  end.

(** One iteration of [calculate_fork_cumulative_work] on [(steps, current_hash, total_work)]. *)
Definition work_step (c : Blockchain) (max_steps : Z) (st : Z * Z * Z) : (Z * Z * Z) + Z :=
  let '(steps, current_hash, total_work) := st in
  let steps := saturating_add u64_max steps 1 in
  if max_steps <? steps then inr total_work
  else
    match get_block c current_hash with
    | Some parent =>
        if height parent =? 0 then inr (saturating_add u128_max total_work 1)
        else inl (steps, prev_hash parent, saturating_add u128_max total_work (work parent))
    | None => inr total_work
    end.

Definition calculate_fork_cumulative_work (c : Blockchain) (block : Block) : option Z :=
  let max_steps := saturating_add u64_max (height block) 100 in
  iter (work_step c max_steps) (S (Z.to_nat max_steps)) (0, prev_hash block, work block).

Definition recompute_total_difficulty (c : Blockchain) (h : Z) : option Z :=
  fold_left (fun acc i => total ← acc; block ← get_block_by_height c (Z.of_nat i);
                          Some (saturating_add u128_max total (work block)))
    (seq 1 (Z.to_nat h)) (Some 1).

Definition main_chain_diff_block (c : Blockchain) (h : Z) : option Difficulty.DifficultyBlock :=
  let s := match db c with Some d => d | None => inner c end in
  hash ← height_to_hash s !! h;
  b ← blocks s !! hash;
  Some (Difficulty.mkBlock h (timestamp b) (target b)).

(** One iteration of the walk of [fork_difficulty_window] over the store [s]. *)
Definition window_step (s : Store) (st : gset Z * Z * list Block)
  : (gset Z * Z * list Block) + (list Block * Z) :=
  let '(visited, cursor, fork) := st in
  if decide (cursor ∈ visited) then inr (fork, 0)
  else
    let visited := {[cursor]} ∪ visited in
    match blocks s !! cursor with
    | None => inr (fork, 0)
    | Some blk =>
        let h := height blk in
        if decide (height_to_hash s !! h = Some cursor) then inr (fork, h)
        else
          let fork := fork ++ [blk] in
          if h =? 0 then inr (fork, 0)
          else inl (visited, prev_hash blk, fork)
    end.

Definition fork_difficulty_window (c : Blockchain) (parent_hash block_height : Z)
  : list Difficulty.DifficultyBlock :=
  let window := 144 in
  let start := saturating_sub block_height window in
  let s := match db c with Some d => d | None => inner c end in
  let '(fork, fork_point) :=
    match iter (window_step s) (S (S (size (blocks s)))) (∅, parent_hash, []) with
    | Some r => r
    | None => ([], 0)
    end in
  let fork := rev fork in
  omap (fun i =>
    let h := start + Z.of_nat i in
    if h <=? fork_point then main_chain_diff_block c h
    else
      let off := Z.to_nat (h - fork_point - 1) in
      match fork !! off with
      | Some b => Some (Difficulty.mkBlock (height b) (timestamp b) (target b))
      | None => None
      end) (seq 0 (Z.to_nat (block_height - start))).

(** ** Lineages *)

(** [lineage g x l y]: following [prev_hash] from the hash [x] through the stored
    blocks [l] (hash and body, newest first) leads to the hash [y]. *)
Inductive lineage (g : Z -> option Block) : Z -> list (Z * Block) -> Z -> Prop :=
| lineage_nil x : lineage g x [] x
| lineage_snoc x l y b : lineage g x l y -> g y = Some b -> lineage g x (l ++ [(y, b)]) (prev_hash b).

Definition off_main (c : Blockchain) (e : Z * Block) : Prop :=
  get_block_hash c (height (snd e)) <> Some (fst e).

Definition known (c : Blockchain) : gset Z :=
  dom (blocks (inner c)) ∪ match db c with Some d => dom (blocks d) | None => ∅ end.

Lemma get_block_known c x b : get_block c x = Some b -> x ∈ known c.
Proof.
  unfold get_block, known. destruct (blocks (inner c) !! x) eqn:E.
  - intros _. apply elem_of_union_l, elem_of_dom. eauto.
  - destruct (db c) as [d|]; [|done]. intros H. apply elem_of_union_r, elem_of_dom. eauto.
Qed.

Lemma known_size c : (size (known c) <= store_size c)%nat.
Proof.
  unfold known, store_size. rewrite <- (size_dom (D := gset Z) (blocks (inner c))).
  destruct (db c) as [d|].
  - rewrite <- (size_dom (D := gset Z) (blocks d)), size_union_alt.
    enough (size (dom (blocks d) ∖ dom (blocks (inner c))) <= size (dom (blocks d)))%nat by lia.
    apply subseteq_size. set_solver.
  - rewrite union_empty_r_L. lia.
Qed.

(** A visited hash leaves fewer to visit. *)
Lemma visit_decreases (D visited : gset Z) x :
  x ∈ D -> x ∉ visited -> (size (D ∖ ({[x]} ∪ visited)) < size (D ∖ visited))%nat.
Proof. intros. apply subset_size. set_solver. Qed.

(** ** The fork point *)

Definition fork_point_inv (c : Blockchain) (fb : Block) (st : gset Z * Z) : Prop :=
  exists l, lineage (get_block c) (prev_hash fb) l (snd st)
    /\ Forall (off_main c) l /\ fst st = list_to_set (map fst l).

Definition fork_point_post (c : Blockchain) (fb : Block) (r : option Z) : Prop :=
  match r with
  | Some h => exists l anc b, lineage (get_block c) (prev_hash fb) l anc
      /\ Forall (off_main c) l /\ get_block c anc = Some b /\ height b = h
      /\ (get_block_hash c h = Some anc \/ h = 0)
  | None => exists l x, lineage (get_block c) (prev_hash fb) l x
      /\ Forall (off_main c) l /\ (get_block c x = None \/ In x (map fst l))
  end.

Lemma fork_point_continue c fb visited x st' :
  fork_point_inv c fb (visited, x) -> fork_point_step c (visited, x) = inl st' ->
  fork_point_inv c fb st' /\ (size (known c ∖ fst st') < size (known c ∖ visited))%nat.
Proof.
  intros (l & Hl & Hoff & Ev). unfold fork_point_step. simpl in *.
  destruct (decide (x ∈ visited)) as [|Hnv]; [done|].
  destruct (get_block c x) as [b|] eqn:Eb; [|done].
  destruct (decide _) as [|Hne]; [done|]. destruct (height b =? 0); [done|]. intros [= <-]. split.
  - exists (l ++ [(x, b)]). simpl. split; [by constructor|]. split.
    + apply Forall_app. split; [done|]. by repeat constructor.
    + rewrite Ev, map_app, list_to_set_app_L. simpl. set_solver.
  - simpl. apply visit_decreases; [by eapply get_block_known|done].
Qed.

Lemma fork_point_exit c fb st r :
  fork_point_inv c fb st -> fork_point_step c st = inr r -> fork_point_post c fb r.
Proof.
  destruct st as [visited x]. intros (l & Hl & Hoff & Ev). unfold fork_point_step. simpl in *.
  destruct (decide (x ∈ visited)) as [Hv|Hnv].
  - intros [= <-]. exists l, x. do 2 (split; [done|]). right. subst visited.
    apply elem_of_list_to_set in Hv. by apply list_elem_of_In.
  - destruct (get_block c x) as [b|] eqn:Eb.
    + destruct (decide _) as [Hm|Hne].
      * intros [= <-]. exists l, x, b. by repeat (split; [done|]); left.
      * destruct (Z.eqb_spec (height b) 0); [|done]. intros [= <-]. exists l, x, b.
        by repeat (split; [done|]); right.
    + intros [= <-]. exists l, x. by do 2 (split; [done|]); left.
Qed.

Lemma find_fork_point_post c fb : fork_point_post c fb (find_fork_point c fb).
Proof.
  unfold find_fork_point.
  assert (fork_point_inv c fb (∅, prev_hash fb)) as HI.
  { exists []. split; [constructor|]. by split; [constructor|]. }
  destruct (iter_total (fork_point_step c) (fun st => size (known c ∖ fst st)) (fork_point_inv c fb))
    with (fuel := S (S (store_size c))) (s := (∅ : gset Z, prev_hash fb)) as [r Hr]; [|done| |].
  - intros [v x] st' H E. by apply (fork_point_continue c fb v x).
  - simpl. pose proof (known_size c).
    assert (size (known c ∖ ∅) <= size (known c))%nat by (apply subseteq_size; set_solver). lia.
  - rewrite Hr. revert Hr. apply (iter_inv _ (fork_point_inv c fb)); [| |done].
    + intros [v x] st' H E. by apply (fork_point_continue c fb v x).
    + intros st a. apply fork_point_exit.
Qed.

(** ** Work *)

Definition work_sum (l : list Block) : Z := foldr (fun b a => work b + a) 0 l.

Lemma work_nonneg b : 0 <= work b.
Proof.
  unfold work, Difficulty.calculate_difficulty_from_target, Difficulty.target_to_difficulty_raw,
    Difficulty.target_to_u128, Difficulty.u128_max_target. apply Z.div_pos; lia.
Qed.

Lemma work_le b : work b <= u128_max.
Proof.
  unfold work, Difficulty.calculate_difficulty_from_target, Difficulty.target_to_difficulty_raw,
    Difficulty.target_to_u128, Difficulty.u128_max_target. apply div_le_self; lia.
Qed.

Lemma work_sum_app l b : work_sum (l ++ [b]) = work_sum l + work b.
Proof. unfold work_sum. induction l as [|x l IH]; simpl in *; lia. Qed.

Lemma lineage_work_nonneg l : 0 <= work_sum l.
Proof. unfold work_sum. induction l as [|x l IH]; simpl; [lia|]. pose proof (work_nonneg x). lia. Qed.

(** ** Linked stores *)

(** Every stored block above height zero has its parent stored, one height below. *)
Definition linked (c : Blockchain) : Prop :=
  forall x b, get_block c x = Some b ->
    0 <= height b /\ (0 < height b -> exists p, get_block c (prev_hash b) = Some p
                                       /\ height p = height b - 1).

(** The chain of parents of a hash, for [n] blocks, oldest last. *)
Fixpoint ancestors (c : Blockchain) (n : nat) (x : Z) : list Block :=
  match n with
  | O => []
  | S n' => match get_block c x with
            | Some b => b :: ancestors c n' (prev_hash b)
            | None => []
            end
  end.

(** The hash reached after [n] parents. *)
Fixpoint ancestor_hash (c : Blockchain) (n : nat) (x : Z) : option Z :=
  match n with
  | O => Some x
  | S n' => match get_block c x with
            | Some b => ancestor_hash c n' (prev_hash b)
            | None => None
            end
  end.

Section Linked.
Context (c : Blockchain).
Hypothesis Hlinked : linked c.

Lemma ancestors_heights n x p :
  get_block c x = Some p -> Z.of_nat n <= height p + 1 ->
  length (ancestors c n x) = n
  /\ forall i b, ancestors c n x !! i = Some b -> height b = height p - Z.of_nat i.
Proof.
  revert x p. induction n as [|n IH]; intros x p Hp Hn; [by split|].
  cbn [ancestors]. rewrite Hp. destruct n as [|n].
  - split; [done|]. intros [|i] b Hb; simpl in Hb; [inv_res; subst; lia|done].
  - destruct (Hlinked x p Hp) as [_ [q [Hq Hh]]]; [lia|].
    destruct (IH _ _ Hq) as [Hl Hi]; [lia|]. split; [cbn [length]; lia|].
    intros [|i] b Hb; [simpl in Hb; inv_res; subst; lia|].
    change (ancestors c (S n) (prev_hash p) !! i = Some b) in Hb. rewrite (Hi i b Hb), Hh. lia.
Qed.

(** The last of [n] ancestors, and how the next one extends them. *)
Lemma ancestors_snoc n x y b :
  ancestor_hash c n x = Some y -> get_block c y = Some b ->
  ancestors c (S n) x = ancestors c n x ++ [b] /\ ancestor_hash c (S n) x = Some (prev_hash b).
Proof.
  revert x. induction n as [|n IH]; intros x Hy Hb.
  - simpl in *. inv_res. subst. by rewrite Hb.
  - cbn [ancestors ancestor_hash] in Hy |- *. destruct (get_block c x) as [b0|] eqn:E; [|done].
    destruct (IH _ Hy Hb) as [E1 E2]. cbn [ancestors ancestor_hash] in E1, E2.
    by rewrite E1, E2.
Qed.

Lemma ancestor_hash_block n x p :
  get_block c x = Some p -> Z.of_nat n <= height p ->
  exists y b, ancestor_hash c n x = Some y /\ get_block c y = Some b
    /\ height b = height p - Z.of_nat n.
Proof.
  revert x p. induction n as [|n IH]; intros x p Hp Hn.
  - exists x, p. split; [done|]. split; [done|lia].
  - simpl. rewrite Hp. destruct (Hlinked x p Hp) as [_ [q [Hq Hh]]]; [lia|].
    destruct (IH _ _ Hq) as (y & b & ? & ? & ?); [lia|]. exists y, b. do 2 (split; [done|]). lia.
Qed.

(** *** The fork chain *)

Context (tip parent : Block) (fork_point : Z).
Hypothesis Hparent : get_block c (prev_hash tip) = Some parent.
Hypothesis Hfp : 0 <= fork_point <= height parent.

(** [n] blocks were pushed, all above the fork point; every visited hash is above
    the current one. *)
Definition collect_inv (st : gset Z * Z * list Block) : Prop :=
  let '(visited, x, chain) := st in
  exists n b, chain = ancestors c n (prev_hash tip)
    /\ ancestor_hash c n (prev_hash tip) = Some x /\ get_block c x = Some b
    /\ height b = height parent - Z.of_nat n /\ fork_point <= height b
    /\ forall v, v ∈ visited -> exists bv, get_block c v = Some bv /\ height b < height bv.

Lemma collect_continue st st' :
  collect_inv st -> collect_step c fork_point st = inl st' ->
  collect_inv st' /\ (size (known c ∖ fst (fst st')) < size (known c ∖ fst (fst st)))%nat.
Proof.
  destruct st as [[visited x] chain]. intros (n & b & Ec & Ex & Eb & Eh & Hle & Hv).
  unfold collect_step. destruct (decide (x ∈ visited)) as [|Hnv]; [done|]. rewrite Eb.
  destruct (Z.leb_spec (height b) fork_point); [done|]. intros [= <-].
  destruct (Hlinked x b Eb) as [_ [q [Hq Hh]]]; [lia|].
  destruct (ancestors_snoc n _ _ _ Ex Eb) as [E1 E2]. split.
  - exists (S n), q. rewrite E1, Ec. do 3 (split; [done|]). split; [lia|]. split; [lia|].
    intros v Hin. apply elem_of_union in Hin as [->%elem_of_singleton|Hin].
    + exists b. split; [done|lia].
    + destruct (Hv v Hin) as (bv & ? & ?). exists bv. split; [done|lia].
  - simpl. apply visit_decreases; [by eapply get_block_known|done].
Qed.

Lemma collect_exit st r :
  collect_inv st -> collect_step c fork_point st = inr r ->
  r = ancestors c (Z.to_nat (height parent - fork_point)) (prev_hash tip).
Proof.
  destruct st as [[visited x] chain]. intros (n & b & Ec & Ex & Eb & Eh & Hle & Hv).
  unfold collect_step. destruct (decide (x ∈ visited)) as [Hin|Hnv].
  - destruct (Hv x Hin) as (bv & Ebv & ?). rewrite Eb in Ebv. inv_res. subst. lia.
  - rewrite Eb. destruct (Z.leb_spec (height b) fork_point); [|done]. intros [= <-].
    rewrite Ec. f_equal. lia.
Qed.

Lemma collect_fork_chain_ancestors :
  collect_fork_chain c tip fork_point
  = rev (ancestors c (Z.to_nat (height parent - fork_point)) (prev_hash tip)).
Proof.
  unfold collect_fork_chain.
  assert (collect_inv (∅, prev_hash tip, [])) as HI.
  { exists 0%nat, parent. do 3 (split; [done|]). split; [lia|]. split; [lia|]. set_solver. }
  destruct (iter_total (collect_step c fork_point) (fun st => size (known c ∖ fst (fst st))) collect_inv)
    with (fuel := S (S (store_size c))) (s := (∅ : gset Z, prev_hash tip, [] : list Block))
    as [r Hr]; [|done| |].
  - intros st st' H E. by apply collect_continue.
  - simpl. pose proof (known_size c).
    assert (size (known c ∖ ∅) <= size (known c))%nat by (apply subseteq_size; set_solver). lia.
  - rewrite Hr. f_equal. revert Hr.
    apply (iter_inv _ collect_inv
      (fun r => r = ancestors c (Z.to_nat (height parent - fork_point)) (prev_hash tip))); [| |done].
    + intros st st' H E. exact (proj1 (collect_continue st st' H E)).
    + intros st a. apply collect_exit.
Qed.

(** *** Cumulative work *)

Definition work_inv (st : Z * Z * Z) : Prop :=
  let '(steps, x, total) := st in
  exists n b, steps = Z.of_nat n /\ ancestor_hash c n (prev_hash tip) = Some x
    /\ get_block c x = Some b /\ height b = height parent - Z.of_nat n
    /\ total = Z.min u128_max (work tip + work_sum (ancestors c n (prev_hash tip))).

Hypothesis Htip : height tip = height parent + 1 /\ height tip < u64_max.

Lemma work_continue st st' :
  work_inv st -> work_step c (saturating_add u64_max (height tip) 100) st = inl st' ->
  work_inv st' /\ fst (fst st') = fst (fst st) + 1.
Proof.
  destruct st as [[steps x] total]. intros (n & b & Es & Ex & Eb & Eh & Et).
  unfold work_step. destruct (Hlinked x b Eb) as [Hb0 Hq].
  assert (saturating_add u64_max steps 1 = Z.of_nat (S n)) as -> by (unfold saturating_add; lia).
  destruct (_ <? _); [done|]. rewrite Eb. destruct (Z.eqb_spec (height b) 0); [done|]. intros [= <-].
  destruct Hq as (q & Hq & Hh); [lia|]. destruct (ancestors_snoc n _ _ _ Ex Eb) as [E1 E2].
  split; [|simpl; lia]. exists (S n), q. do 3 (split; [done|]). split; [lia|].
  rewrite E1, work_sum_app, Et. unfold saturating_add. pose proof (work_nonneg b). lia.
Qed.

Lemma work_exit st r :
  work_inv st -> work_step c (saturating_add u64_max (height tip) 100) st = inr r ->
  r = Z.min u128_max (work tip + work_sum (ancestors c (Z.to_nat (height parent)) (prev_hash tip)) + 1).
Proof.
  destruct st as [[steps x] total]. intros (n & b & Es & Ex & Eb & Eh & Et).
  unfold work_step. destruct (Hlinked x b Eb) as [Hb0 Hq].
  assert (saturating_add u64_max steps 1 = Z.of_nat (S n)) as -> by (unfold saturating_add; lia).
  destruct (Z.ltb_spec (saturating_add u64_max (height tip) 100) (Z.of_nat (S n)));
    [unfold saturating_add in *; lia|].
  rewrite Eb. destruct (Z.eqb_spec (height b) 0); [|done]. intros [= <-].
  replace (Z.to_nat (height parent)) with n by lia. rewrite Et. unfold saturating_add. lia.
Qed.

Lemma fork_work_total :
  calculate_fork_cumulative_work c tip
  = Some (Z.min u128_max
      (work tip + work_sum (ancestors c (Z.to_nat (height parent)) (prev_hash tip)) + 1)).
Proof.
  unfold calculate_fork_cumulative_work. set (ms := saturating_add u64_max (height tip) 100).
  assert (work_inv (0, prev_hash tip, work tip)) as HI.
  { exists 0%nat, parent. do 3 (split; [done|]). split; [lia|]. simpl. pose proof (work_le tip). lia. }
  destruct (iter_total (work_step c ms) (fun st => Z.to_nat (ms - fst (fst st)))
    (fun st => work_inv st)) with (fuel := S (Z.to_nat ms)) (s := (0, prev_hash tip, work tip))
    as [r Hr]; [|done|simpl; lia|].
  - intros st st' H E. destruct (work_continue st st' H E) as [H' E']. split; [done|].
    destruct st as [[steps x] total]. revert E. unfold work_step.
    destruct H as (n & b & -> & _ & Eb & Eh & _). destruct (Hlinked _ _ Eb) as [? _]. simpl in E'.
    replace (saturating_add u64_max (Z.of_nat n) 1) with (Z.of_nat n + 1) by (unfold saturating_add; lia).
    destruct (Z.ltb_spec ms (Z.of_nat n + 1)); [done|]. intros _. simpl. lia.
  - rewrite Hr. f_equal. revert Hr. apply (iter_inv _ work_inv (fun r => r = _)); [| |done].
    + intros st st' H E. exact (proj1 (work_continue st st' H E)).
    + intros st a. apply work_exit.
Qed.

(** The main chain up to the parent is the parent's lineage. *)
Definition parent_on_main : Prop :=
  forall n y, Z.of_nat n <= height parent -> ancestor_hash c n (prev_hash tip) = Some y ->
    get_block_hash c (height parent - Z.of_nat n) = Some y.

Lemma recompute_total n y :
  parent_on_main -> Z.of_nat n <= height parent ->
  ancestor_hash c n (prev_hash tip) = Some y ->
  recompute_total_difficulty c (height parent - Z.of_nat n)
  = Some (Z.min u128_max (1 + work_sum (ancestors c (Z.to_nat (height parent - Z.of_nat n)) y))).
Proof.
  intros Hmain Hn Hy. unfold recompute_total_difficulty.
  set (h := Z.to_nat (height parent - Z.of_nat n)).
  assert (Z.of_nat h = height parent - Z.of_nat n) as Eh by lia. clearbody h.
  revert n y Hn Hy Eh. induction h as [|h IH]; intros n y Hn Hy Eh; [done|].
  rewrite seq_S, fold_left_app. destruct (ancestor_hash_block n _ _ Hparent Hn) as (y' & b & Ey & Eb & Ehb).
  rewrite Hy in Ey. inv_res. subst y'. destruct (ancestors_snoc n _ _ _ Hy Eb) as [_ E2].
  rewrite (IH (S n) (prev_hash b)) by (done || lia). simpl fold_left. simpl mbind.
  unfold get_block_by_height. replace (Z.of_nat (S h)) with (height parent - Z.of_nat n) by lia.
  rewrite (Hmain n y Hn Hy), Eb. simpl. rewrite Eb. simpl. f_equal. unfold saturating_add.
  pose proof (work_nonneg b). pose proof (lineage_work_nonneg (ancestors c h (prev_hash b))). lia.
Qed.
End Linked.

(** ** The difficulty window *)

(** The store the window is read from. *)
Definition window_store (c : Blockchain) : Store := match db c with Some d => d | None => inner c end.

(** The main-chain index is complete from genesis up and holds blocks of its heights. *)
Record main_ok (s : Store) : Prop := {
  main_block : forall h x, height_to_hash s !! h = Some x -> exists b, blocks s !! x = Some b /\ height b = h;
  main_below : forall h x, height_to_hash s !! h = Some x -> 0 < h -> is_Some (height_to_hash s !! (h - 1));
  main_genesis : forall x b, blocks s !! x = Some b -> height b = 0 -> height_to_hash s !! 0 = Some x }.

Lemma main_complete s h x i :
  main_ok s -> height_to_hash s !! h = Some x -> 0 <= i <= h -> is_Some (height_to_hash s !! i).
Proof.
  intros Hok Hx Hi. replace i with (h - (h - i)) by lia. assert (0 <= h - i <= h) as Hn by lia.
  revert Hn. generalize (h - i). clear i Hi. intros n [Hn0 Hn]. revert n Hn0 Hn.
  apply (natlike_ind (fun n => n <= h -> is_Some (height_to_hash s !! (h - n)))).
  - intros _. rewrite Z.sub_0_r. by exists x.
  - intros n Hn0 IH Hn. destruct IH as [y Hy]; [lia|].
    replace (h - Z.succ n) with (h - n - 1) by lia. eapply main_below; [done|done|lia].
Qed.

Lemma omap_map {A B C} (f : A -> option B) (g : B -> C) (k : A -> C) (l : list A) :
  (forall a, In a l -> exists b, f a = Some b /\ g b = k a) -> map g (omap f l) = map k l.
Proof.
  induction l as [|a l IH]; intros H; [done|]. simpl.
  destruct (H a (or_introl eq_refl)) as (b & -> & <-). simpl. f_equal.
  apply IH. intros a' Ha'. apply H. by right.
Qed.

Section Window.
Context (s : Store) (parent_hash : Z) (parent : Block).
Let c := mkChain s None.
Hypothesis Hlinked : linked c.
Hypothesis Hok : main_ok s.
Hypothesis Hparent : blocks s !! parent_hash = Some parent.

Lemma get_block_store x : get_block c x = blocks s !! x.
Proof. unfold get_block. simpl. by destruct (blocks s !! x). Qed.

Definition window_inv (st : gset Z * Z * list Block) : Prop :=
  let '(visited, x, fork) := st in
  exists n b, fork = ancestors c n parent_hash /\ ancestor_hash c n parent_hash = Some x
    /\ blocks s !! x = Some b /\ height b = height parent - Z.of_nat n
    /\ forall v, v ∈ visited -> exists bv, blocks s !! v = Some bv /\ height b < height bv.

Definition window_post (r : list Block * Z) : Prop :=
  0 <= snd r <= height parent
  /\ fst r = ancestors c (Z.to_nat (height parent - snd r)) parent_hash
  /\ is_Some (height_to_hash s !! snd r).

Lemma window_continue st st' :
  window_inv st -> window_step s st = inl st' ->
  window_inv st' /\ (size (known c ∖ fst (fst st')) < size (known c ∖ fst (fst st)))%nat.
Proof.
  destruct st as [[visited x] fork]. intros (n & b & Ec & Ex & Eb & Eh & Hv). unfold window_step.
  destruct (decide (x ∈ visited)) as [|Hnv]; [done|]. rewrite Eb.
  destruct (decide _); [done|]. destruct (Z.eqb_spec (height b) 0); [done|]. intros [= <-].
  rewrite <- get_block_store in Eb.
  destruct (Hlinked x b Eb) as [? [q [Hq Hh]]]; [lia|].
  destruct (ancestors_snoc c n _ _ _ Ex Eb) as [E1 E2]. split.
  - exists (S n), q. rewrite E1, Ec. rewrite <- get_block_store. do 3 (split; [done|]). split; [lia|].
    intros v Hin. apply elem_of_union in Hin as [->%elem_of_singleton|Hin].
    + exists b. rewrite <- get_block_store. split; [done|lia].
    + destruct (Hv v Hin) as (bv & ? & ?). exists bv. split; [done|lia].
  - simpl. apply visit_decreases; [by eapply get_block_known|done].
Qed.

Lemma window_exit st r : window_inv st -> window_step s st = inr r -> window_post r.
Proof.
  destruct st as [[visited x] fork]. intros (n & b & Ec & Ex & Eb & Eh & Hv). unfold window_step.
  destruct (decide (x ∈ visited)) as [Hin|Hnv].
  { destruct (Hv x Hin) as (bv & Ebv & ?). rewrite Eb in Ebv. inv_res. subst. lia. }
  rewrite Eb. pose proof Eb as Eb'. rewrite <- get_block_store in Eb'. destruct (Hlinked x b Eb') as [? _].
  destruct (decide _) as [Hm|Hm].
  - intros [= <-]. split; [simpl; lia|]. split; [|by eexists]. simpl. rewrite Ec. f_equal. lia.
  - destruct (Z.eqb_spec (height b) 0) as [E0|]; [|done]. exfalso. apply Hm.
    rewrite E0. by apply (main_genesis s Hok x b).
Qed.

Lemma window_walk :
  exists r, iter (window_step s) (S (S (size (blocks s)))) (∅, parent_hash, []) = Some r /\ window_post r.
Proof.
  assert (window_inv (∅, parent_hash, [])) as HI.
  { exists 0%nat, parent. do 3 (split; [done|]). split; [lia|]. set_solver. }
  destruct (iter_total (window_step s) (fun st => size (known c ∖ fst (fst st))) window_inv)
    with (fuel := S (S (size (blocks s)))) (s := (∅ : gset Z, parent_hash, [] : list Block))
    as [r Hr]; [|done| |].
  - intros st st' H E. by apply window_continue.
  - simpl. pose proof (known_size c) as Hk. unfold store_size in Hk. simpl in Hk.
    assert (size (known c ∖ ∅) <= size (known c))%nat by (apply subseteq_size; set_solver). lia.
  - exists r. split; [done|]. revert Hr. apply (iter_inv _ window_inv window_post); [| |done].
    + intros st st' H E. exact (proj1 (window_continue st st' H E)).
    + apply window_exit.
Qed.

(** The sample chosen for a height of the window. *)
Lemma window_sample fork_point h :
  0 <= fork_point <= height parent -> is_Some (height_to_hash s !! fork_point) ->
  0 <= h <= height parent ->
  let fork := rev (ancestors c (Z.to_nat (height parent - fork_point)) parent_hash) in
  if h <=? fork_point
  then exists x b, height_to_hash s !! h = Some x /\ blocks s !! x = Some b
  else exists b, fork !! Z.to_nat (h - fork_point - 1) = Some b /\ height b = h.
Proof.
  intros Hfp [y Hy] Hh fork. destruct (Z.leb_spec h fork_point).
  - destruct (main_complete s fork_point y h Hok Hy) as [x Hx]; [lia|].
    destruct (main_block s Hok h x Hx) as (b & Hb & _). by exists x, b.
  - rewrite <- get_block_store in Hparent.
    destruct (ancestors_heights c Hlinked (Z.to_nat (height parent - fork_point)) _ _ Hparent) as [Hlen Hi]; [lia|].
    assert (Z.to_nat (h - fork_point - 1) < length fork)%nat as Hlt.
    { unfold fork. rewrite length_rev, Hlen. lia. }
    destruct (lookup_lt_is_Some_2 fork _ Hlt) as [b Hb]. exists b. split; [done|].
    unfold fork in Hb. apply rev_lookup_Some in Hb as [Hb Hl]. rewrite (Hi _ _ Hb), Hlen. lia.
Qed.
End Window.

(** ** Properties *)

(** The search for the fork point always ends. It returns the height of the nearest
    ancestor that is on the main chain (or genesis), every block walked over being off the
    main chain; it returns none only when the walk meets a missing parent or a hash
    already visited. *)
Theorem find_fork_point_correct c fb : fork_point_post c fb (find_fork_point c fb).
Proof. apply find_fork_point_post. Qed.

(** In a store whose parents are present, the fork chain is complete and ascending: it
    holds exactly the ancestors of the fork tip above the fork point, one per height. *)
Theorem collect_fork_chain_complete c tip parent fork_point :
  linked c -> get_block c (prev_hash tip) = Some parent -> 0 <= fork_point <= height parent ->
  let chain := collect_fork_chain c tip fork_point in
  rev chain = ancestors c (Z.to_nat (height parent - fork_point)) (prev_hash tip)
  /\ Z.of_nat (length chain) = height parent - fork_point
  /\ forall i b, chain !! i = Some b -> height b = fork_point + 1 + Z.of_nat i.
Proof.
  intros Hl Hp Hfp chain. unfold chain. rewrite (collect_fork_chain_ancestors c Hl tip parent) by done.
  destruct (ancestors_heights c Hl (Z.to_nat (height parent - fork_point)) _ _ Hp) as [Hlen Hi]; [lia|].
  rewrite rev_involutive, length_rev, Hlen. split; [done|]. split; [lia|].
  intros i b Hb. apply rev_lookup_Some in Hb as [Hb Hlt]. rewrite (Hi _ _ Hb), Hlen in *. lia.
Qed.

(** The three accounts of cumulative work agree: for a block extending the main chain,
    the work of its fork walk is the canonical recomputation at its parent plus its own
    work, with genesis counted as one, saturating at the top of the range. *)
Theorem fork_work_agrees_with_recompute c tip parent :
  linked c -> get_block c (prev_hash tip) = Some parent ->
  height tip = height parent + 1 -> height tip < u64_max -> parent_on_main c tip parent ->
  exists total, recompute_total_difficulty c (height parent) = Some total
    /\ calculate_fork_cumulative_work c tip = Some (saturating_add u128_max total (work tip)).
Proof.
  intros Hl Hp Ht Hlt Hmain. destruct (Hl _ _ Hp) as [Hh0 _].
  pose proof (recompute_total c Hl tip parent Hp 0 (prev_hash tip) Hmain Hh0 eq_refl) as Hr.
  rewrite Z.sub_0_r in Hr. eexists. split; [exact Hr|].
  rewrite (fork_work_total c Hl tip parent 0 Hp) by (done || lia). f_equal. unfold saturating_add.
  pose proof (work_nonneg tip).
  pose proof (lineage_work_nonneg (ancestors c (Z.to_nat (height parent)) (prev_hash tip))). lia.
Qed.

(** The difficulty window of a block is deterministic and gap-free: it holds exactly one
    sample per height for the last 144 heights below the block (all of them on a younger
    chain), ascending, whether the parent is on the main chain or on a fork. *)
Theorem fork_difficulty_window_heights c parent_hash parent bh :
  linked (mkChain (window_store c) None) -> main_ok (window_store c) ->
  blocks (window_store c) !! parent_hash = Some parent -> bh = height parent + 1 ->
  map Difficulty.height (fork_difficulty_window c parent_hash bh)
  = map (fun i => Z.max 0 (bh - 144) + Z.of_nat i) (seq 0 (Z.to_nat (Z.min bh 144))).
Proof.
  intros Hl Hok Hp ->. unfold fork_difficulty_window. fold (window_store c).
  assert (0 <= height parent) as Hh0.
  { destruct (Hl parent_hash parent) as [? _]; [by rewrite get_block_store|done]. }
  destruct (window_walk (window_store c) parent_hash parent Hl Hok Hp) as ([fork fp] & -> & Hfp & Ef & Hm).
  simpl in Hfp, Ef, Hm. unfold saturating_sub.
  replace (Z.to_nat (height parent + 1 - Z.max 0 (height parent + 1 - 144)))
    with (Z.to_nat (Z.min (height parent + 1) 144)) by lia.
  apply omap_map. intros i Hi. apply in_seq in Hi.
  set (h := Z.max 0 (height parent + 1 - 144) + Z.of_nat i).
  assert (0 <= h <= height parent) as Hh by (unfold h; lia).
  pose proof (window_sample (window_store c) parent_hash parent Hl Hok Hp fp h Hfp Hm Hh) as Hs.
  rewrite <- Ef in Hs. destruct (h <=? fp).
  - destruct Hs as (x & b & Hx & Hb). unfold main_chain_diff_block. fold (window_store c).
    rewrite Hx. simpl. rewrite Hb. simpl. by eexists.
  - destruct Hs as (b & -> & Hb). eexists. split; [reflexivity|]. done.
Qed.

(** ** Witnesses

    Genesis 100, a main chain 100 - 101 - 102 and a fork 100 - 201 - 202; half of it
    is only in the database. *)

Definition sample_target : list Z := Difficulty.u128_to_target (2 ^ 118).

Definition sample_blocks : gmap Z Block :=
  {[ 100 := mkBlock 0 0 0 sample_target; 101 := mkBlock 1 100 120 sample_target;
     102 := mkBlock 2 101 240 sample_target; 201 := mkBlock 1 100 130 sample_target;
     202 := mkBlock 2 201 250 sample_target ]}.

Definition sample_store : Store := mkStore sample_blocks {[ 0 := 100; 1 := 101; 2 := 102 ]}.

Definition sample_chain : Blockchain := mkChain (mkStore {[ 102 := mkBlock 2 101 240 sample_target ]} ∅) (Some sample_store).

Definition fork_tip : Block := mkBlock 3 202 360 sample_target.
Definition main_tip : Block := mkBlock 3 102 370 sample_target.

Lemma sample_lookup x b :
  sample_blocks !! x = Some b ->
  (x = 100 /\ b = mkBlock 0 0 0 sample_target) \/ (x = 101 /\ b = mkBlock 1 100 120 sample_target)
  \/ (x = 102 /\ b = mkBlock 2 101 240 sample_target) \/ (x = 201 /\ b = mkBlock 1 100 130 sample_target)
  \/ (x = 202 /\ b = mkBlock 2 201 250 sample_target).
Proof.
  unfold sample_blocks. rewrite !lookup_insert, lookup_singleton.
  repeat case_decide; intros [= <-]; subst; tauto.
Qed.

Lemma sample_get_block x : get_block sample_chain x = sample_blocks !! x.
Proof.
  unfold get_block, sample_chain. cbn [inner blocks db]. rewrite lookup_singleton.
  case_decide as E; [subst x; reflexivity|reflexivity].
Qed.

Lemma sample_linked : linked sample_chain /\ linked (mkChain sample_store None).
Proof.
  assert (forall c, (forall x, get_block c x = sample_blocks !! x) -> linked c) as H.
  { intros c Hc x b Hx. rewrite Hc in Hx. apply sample_lookup in Hx.
    repeat (destruct Hx as [Hx|Hx]); destruct Hx as [-> ->]; cbn [height prev_hash];
      (split; [lia|intros Hpos; try lia; rewrite Hc; eexists; split; reflexivity]). }
  split; apply H; [apply sample_get_block|]. intros x. apply get_block_store.
Qed.

Lemma sample_main_ok : main_ok sample_store.
Proof.
  assert (forall h x, height_to_hash sample_store !! h = Some x ->
    (h = 0 /\ x = 100) \/ (h = 1 /\ x = 101) \/ (h = 2 /\ x = 102)) as Hm.
  { intros h x. unfold sample_store. cbn [height_to_hash]. rewrite !lookup_insert, lookup_singleton.
    repeat case_decide; intros [= <-]; subst; tauto. }
  split.
  - intros h x H. apply Hm in H. repeat (destruct H as [H|H]); destruct H as [-> ->]; eexists; split; reflexivity.
  - intros h x H Hpos. apply Hm in H. repeat (destruct H as [H|H]); destruct H as [-> ->]; try lia; by eexists.
  - intros x b Hx Hh. apply sample_lookup in Hx. repeat (destruct Hx as [Hx|Hx]); destruct Hx as [-> ->];
      cbn [height] in Hh; (lia || reflexivity).
Qed.

Example sample_fork_point : find_fork_point sample_chain fork_tip = Some 0.
Proof. vm_compute. reflexivity. Qed.

Lemma collect_fork_chain_complete_witness :
  Z.of_nat (length (collect_fork_chain sample_chain fork_tip 0)) = 2.
Proof.
  exact (proj1 (proj2 (collect_fork_chain_complete sample_chain fork_tip
    (mkBlock 2 201 250 sample_target) 0 (proj1 sample_linked)
    (eq_refl : get_block sample_chain (prev_hash fork_tip) = _) ltac:(cbn; lia)))).
Defined.

Lemma fork_work_agrees_with_recompute_witness :
  exists total, recompute_total_difficulty sample_chain 2 = Some total
    /\ calculate_fork_cumulative_work sample_chain main_tip
       = Some (saturating_add u128_max total (work main_tip)) /\ total = 2047.
Proof.
  destruct (fork_work_agrees_with_recompute sample_chain main_tip (mkBlock 2 101 240 sample_target)
    (proj1 sample_linked) eq_refl eq_refl eq_refl) as (t & E1 & E2).
  - intros n y Hn Hy. cbn [height] in *.
    destruct n as [|[|[|n]]]; [| | |lia]; vm_compute in Hy; inv_res; subst y; reflexivity.
  - exists t. split; [exact E1|]. split; [exact E2|]. vm_compute in E1. inv_res. by subst.
Defined.

Lemma fork_difficulty_window_heights_witness :
  map Difficulty.height (fork_difficulty_window sample_chain 202 3) = [0; 1; 2].
Proof.
  rewrite (fork_difficulty_window_heights sample_chain 202 (mkBlock 2 201 250 sample_target) 3
    (proj2 sample_linked) sample_main_ok eq_refl eq_refl). reflexivity.
Defined.

End ForkCalc.
