(* ===== verification/RollingFinality.v ===== *)
(** * Rolling soft finality (src/crates/coincync-rolling-finality, src/src/consensus/rolling_finality.rs)

    The active miner set, the finality tracker that counts miners' attestations, the
    wire codec of an attestation and the adapter that feeds accepted blocks to the
    tracker.  Keys and hashes are byte lists; the maps keyed by them are finite maps.
    The signature verifier is an instance of the class [AttestationVerifier], as the
    trait of the source is; the borsh codec, a third-party library, is an instance of
    the class [Borsh]. *)

From stdpp Require Import gmap.
From S2P Require Import Prelude.

Abbreviation MinerPubkey := (list Z) (only parsing).
Abbreviation BlockHash := (list Z) (only parsing).

(** ** The active miner set *)

Module ActiveSet.

Record MinerRecord := mkRecord {
  first_seen_height : Z;
  last_seen_height : Z }.

Record ActiveMinerSet := mkSet {
  miners : gmap MinerPubkey MinerRecord;
  window : Z }.

(** [None] is the failed assertion of the constructor. *)
Definition new (window : Z) : option ActiveMinerSet :=
  if 0 <? window then Some (mkSet ∅ window) else None.

Definition record_block (s : ActiveMinerSet) (miner : MinerPubkey) (height : Z) : ActiveMinerSet :=
  match miners s !! miner with
  | Some record =>
      if last_seen_height record <? height
      then mkSet (<[miner := mkRecord (first_seen_height record) height]> (miners s)) (window s)
      else s
  | None => mkSet (<[miner := mkRecord height height]> (miners s)) (window s)
  end.

Definition is_active_record (record : MinerRecord) (at_height window : Z) : bool :=
  if at_height <? first_seen_height record then false
  else if at_height - first_seen_height record <? window then true
  else if (last_seen_height record <=? at_height) && (at_height - last_seen_height record <? window)
  then true
  else false.

Definition is_active (s : ActiveMinerSet) (miner : MinerPubkey) (at_height : Z) : bool :=
  match miners s !! miner with
  | Some r => is_active_record r at_height (window s)
  | None => false
  end.

Definition active_count (s : ActiveMinerSet) (at_height : Z) : Z :=
  Z.of_nat (size (filter (fun kr => is_active_record (snd kr) at_height (window s) = true) (miners s))).

Definition total_count (s : ActiveMinerSet) : Z := Z.of_nat (size (miners s)).

(** *** What activity means

    The recorded blocks as a list of miners and heights, oldest first. *)

Definition record_all (s : ActiveMinerSet) (blocks : list (MinerPubkey * Z)) : ActiveMinerSet :=
  fold_left (fun s b => record_block s (fst b) (snd b)) blocks s.

(** The miner produced a block in the window that ends at [at_height]. *)
Definition mined_in_window (blocks : list (MinerPubkey * Z)) (miner : MinerPubkey) (w at_height : Z)
  : Prop :=
  exists b, (miner, b) ∈ blocks /\ at_height - w < b <= at_height.

(** The record of a miner: two of its blocks, the second the highest. *)
Definition record_ok (blocks : list (MinerPubkey * Z)) (miner : MinerPubkey)
    (r : option MinerRecord) : Prop :=
  match r with
  | Some r => (miner, first_seen_height r) ∈ blocks /\ (miner, last_seen_height r) ∈ blocks
      /\ forall b, (miner, b) ∈ blocks -> b <= last_seen_height r
  | None => forall b, (miner, b) ∉ blocks
  end.

Lemma record_block_ok s blocks m0 h0 :
  (forall m, record_ok blocks m (miners s !! m)) ->
  forall m, record_ok (blocks ++ [(m0, h0)]) m (miners (record_block s m0 h0) !! m).
Proof.
  intros Hs m. specialize (Hs m). unfold record_block.
  destruct (decide (m = m0)) as [->|Hne].
  - destruct (miners s !! m0) as [r|] eqn:E; cbn [record_ok] in Hs.
    + destruct Hs as (Hf & Hl & Hmax). destruct (Z.ltb_spec (last_seen_height r) h0); simpl.
      * rewrite lookup_insert_eq. simpl. split_and!; [set_solver|set_solver|].
        intros b. rewrite elem_of_app, list_elem_of_singleton. intros [Hb|[= ->]]; [|lia].
        specialize (Hmax b Hb). lia.
      * rewrite E. simpl. split_and!; [set_solver|set_solver|].
        intros b. rewrite elem_of_app, list_elem_of_singleton. intros [Hb|[= ->]]; auto.
    + simpl. rewrite lookup_insert_eq. simpl. split_and!; [set_solver|set_solver|].
      intros b. rewrite elem_of_app, list_elem_of_singleton. intros [Hb|[= ->]]; [|lia].
      by destruct (Hs b).
  - assert (Hsame : miners (match miners s !! m0 with
        | Some record => if last_seen_height record <? h0
            then mkSet (<[m0 := mkRecord (first_seen_height record) h0]> (miners s)) (window s) else s
        | None => mkSet (<[m0 := mkRecord h0 h0]> (miners s)) (window s) end) !! m = miners s !! m).
    { destruct (miners s !! m0) as [r|]; [destruct (last_seen_height r <? h0)|]; simpl;
        rewrite ?lookup_insert_ne; auto. }
    rewrite Hsame. destruct (miners s !! m) as [r|]; simpl in *; [|set_solver].
    destruct Hs as (Hf & Hl & Hmax). split_and!; [set_solver|set_solver|].
    intros b. rewrite elem_of_app, list_elem_of_singleton. intros [Hb|[= -> ->]]; [auto|done].
Qed.

Lemma record_block_window s m h : window (record_block s m h) = window s.
Proof. unfold record_block. destruct (miners s !! m) as [r|]; [destruct (_ <? _)|]; done. Qed.

Lemma record_all_ok w blocks :
  let s := record_all (mkSet ∅ w) blocks in
  window s = w /\ forall m, record_ok blocks m (miners s !! m).
Proof.
  induction blocks as [|[m0 h0] blocks [IHw IH]] using rev_ind; simpl.
  - split; [done|]. intros m. simpl. rewrite lookup_empty. simpl. set_solver.
  - unfold record_all in *. rewrite fold_left_app. simpl. rewrite record_block_window.
    split; [done|]. by apply record_block_ok.
Qed.

(** A miner the set reports active at a height did produce a block in the
    window that ends there, for every history of recorded blocks and every queried
    height; and when the queried height is not below the miner's highest block (a query
    at the tip), the report is exact. *)
Theorem active_set_sound w blocks m h :
  let s := record_all (mkSet ∅ w) blocks in
  (is_active s m h = true -> mined_in_window blocks m w h)
  /\ ((forall b, (m, b) ∈ blocks -> b <= h) -> mined_in_window blocks m w h -> is_active s m h = true).
Proof.
  intros s. destruct (record_all_ok w blocks) as [Hw Hok]. specialize (Hok m).
  fold s in Hw, Hok. unfold is_active, is_active_record, mined_in_window. rewrite Hw.
  destruct (miners s !! m) as [r|]; simpl in Hok.
  - destruct Hok as (Hf & Hl & Hmax). split.
    + intros Ha. zcases; eauto with lia.
    + intros Htip (b & Hb & Hlt). specialize (Hmax b Hb). pose proof (Htip _ Hl).
      pose proof (Htip _ Hf). zcases.
  - split; [done|]. intros _ (b & Hb & _). by destruct (Hok b).
Qed.

Lemma active_set_sound_witness :
  is_active (record_all (mkSet ∅ 10) [([1], 5); ([2], 6); ([1], 40)]) [1] 12 = true
  /\ mined_in_window [([1], 5); ([2], 6); ([1], 40)] [1] 10 12.
Proof.
  split; [vm_compute; reflexivity|].
  apply (proj1 (active_set_sound 10 [([1], 5); ([2], 6); ([1], 40)] [1] 12)). vm_compute. reflexivity.
Defined.

End ActiveSet.

(** ** Attestations and their wire format *)

Module Codec.

Definition SIGNATURE_LEN : nat := 64.

Record FinalityAttestation := mkAttestation {
  miner_pubkey : MinerPubkey;
  target_height : Z;
  target_hash : BlockHash;
  signature : list Z }.

(** The bytes of [CIP9] and the domain prefix of the signed message. *)
Definition WIRE_MAGIC : list Z := [67; 73; 80; 57].
Definition WIRE_VERSION : Z := 1.
Definition SIGNING_DOMAIN : list Z := [67; 89; 78; 67; 46; 67; 73; 80; 45; 48; 48; 57; 45; 68; 46; 0].

Definition le_bytes (n : nat) (v : Z) : list Z := rev (be_bytes n v).
Definition le_value (bs : list Z) : Z := be_value (rev bs).

Definition signing_bytes (a : FinalityAttestation) : list Z :=
  SIGNING_DOMAIN ++ le_bytes 8 (target_height a) ++ target_hash a.

Inductive WireError :=
| TooShort
| BadMagic
| UnknownVersion (v : Z)
| BorshDecode
| WrongSignatureLength (expected actual : nat).

(** Values of the Rust types: two 32-byte arrays, a [u64] and a byte vector whose
    length fits the 32-bit prefix. *)
Definition well_formed (a : FinalityAttestation) : Prop :=
  is_bytes (miner_pubkey a) /\ length (miner_pubkey a) = 32%nat
  /\ fits u64_max (target_height a)
  /\ is_bytes (target_hash a) /\ length (target_hash a) = 32%nat
  /\ is_bytes (signature a) /\ Z.of_nat (length (signature a)) <= u32_max.

(** borsh: the derived serialisation of [WireAttestation], whose fields are those of
    the attestation.  borsh documents that its encoding is a bijection onto its image
    and that [try_from_slice] rejects trailing bytes. *)
Class Borsh := {
  to_vec : FinalityAttestation -> list Z;
  try_from_slice : list Z -> option FinalityAttestation;
  borsh_roundtrip w : well_formed w -> try_from_slice (to_vec w) = Some w;
  borsh_canonical bs w : try_from_slice bs = Some w -> to_vec w = bs /\ well_formed w }.

Section Wire.
Context `{Borsh}.

Definition encode (att : FinalityAttestation) : list Z :=
  WIRE_MAGIC ++ [WIRE_VERSION] ++ to_vec att.

Definition decode (bytes : list Z) : result WireError FinalityAttestation :=
  if (length bytes <? length WIRE_MAGIC + 1)%nat then Err TooShort
  else if negb (bool_decide (take (length WIRE_MAGIC) bytes = WIRE_MAGIC)) then Err BadMagic
  else
    let version := nth (length WIRE_MAGIC) bytes 0 in
    if negb (version =? WIRE_VERSION) then Err (UnknownVersion version)
    else
      let body := drop (length WIRE_MAGIC + 1) bytes in
      let? wire := ok_or (try_from_slice body) BorshDecode in
      if negb (length (signature wire) =? SIGNATURE_LEN)%nat
      then Err (WrongSignatureLength SIGNATURE_LEN (length (signature wire)))
      else Ok wire.

Lemma decode_shape bs att :
  decode bs = Ok att <->
  exists body, bs = WIRE_MAGIC ++ WIRE_VERSION :: body /\ try_from_slice body = Some att
    /\ length (signature att) = SIGNATURE_LEN.
Proof.
  unfold decode. split.
  - destruct bs as [|b0 [|b1 [|b2 [|b3 [|b4 body]]]]]; try done.
    cbn [length Nat.ltb Nat.leb take drop nth WIRE_MAGIC Nat.add].
    case_bool_decide as Hm; [|done]. injection Hm as -> -> -> ->. cbn [negb].
    destruct (Z.eqb_spec b4 WIRE_VERSION) as [->|]; [|done]. cbn [negb]. rewrite drop_0.
    destruct (try_from_slice body) as [w|] eqn:E; [|done]. cbn [ok_or rbind].
    destruct (Nat.eqb_spec (length (signature w)) SIGNATURE_LEN); [|done]. cbn [negb].
    intros. inv_res. subst. eauto.
  - intros (body & -> & E & Hlen).
    cbn [length Nat.ltb Nat.leb take drop nth WIRE_MAGIC Nat.add app].
    rewrite bool_decide_eq_true_2 by done. cbn [negb]. rewrite Z.eqb_refl, drop_0. cbn [negb].
    rewrite E. cbn [ok_or rbind]. by rewrite Hlen, Nat.eqb_refl.
Qed.

(** The wire codec is a bijection between well-formed attestations with a 64-byte
    signature and their encodings: decoding succeeds with an attestation exactly on
    the bytes that encoding it produces, so that there is one encoding per attestation
    and no trailing or malformed bytes are accepted. *)
Theorem codec_bijective bs att :
  decode bs = Ok att <->
  bs = encode att /\ well_formed att /\ length (signature att) = SIGNATURE_LEN.
Proof.
  rewrite decode_shape. unfold encode. split.
  - intros (body & -> & E & Hlen). apply borsh_canonical in E as [<- Hwf]. done.
  - intros (-> & Hwf & Hlen). exists (to_vec att). by rewrite borsh_roundtrip.
Qed.
End Wire.

(** *** The borsh layout of an attestation

    The fields in order, integers little-endian, the vector with a 32-bit length. *)

Definition borsh_to_vec (w : FinalityAttestation) : list Z :=
  miner_pubkey w ++ le_bytes 8 (target_height w) ++ target_hash w
    ++ le_bytes 4 (Z.of_nat (length (signature w))) ++ signature w.

Definition borsh_try_from_slice (bs : list Z) : option FinalityAttestation :=
  if negb (forallb (fitsb u8_max) bs && (76 <=? length bs)%nat) then None
  else
    let sig := drop 76 bs in
    if Z.of_nat (length sig) =? le_value (take 4 (drop 72 bs))
    then Some (mkAttestation (take 32 bs) (le_value (take 8 (drop 32 bs))) (take 32 (drop 40 bs)) sig)
    else None.

Lemma le_value_le_bytes n v : 0 <= v < 256 ^ Z.of_nat n -> le_value (le_bytes n v) = v.
Proof. intros. unfold le_value, le_bytes. rewrite rev_involutive. by apply be_value_be_bytes. Qed.

Lemma length_le_bytes n v : length (le_bytes n v) = n.
Proof. unfold le_bytes. by rewrite length_rev, length_be_bytes. Qed.

Lemma le_bytes_bytes n v : is_bytes (le_bytes n v).
Proof. unfold le_bytes. apply Forall_rev, be_bytes_bytes. Qed.

Lemma be_bytes_be_value bs : is_bytes bs -> be_bytes (length bs) (be_value bs) = bs.
Proof.
  induction bs as [|b bs IH] using rev_ind; intros Hb; [done|].
  apply Forall_app in Hb as [H1 H2]. inversion H2; subst.
  rewrite length_app, Nat.add_1_r, be_value_snoc. cbn [be_bytes].
  replace ((256 * be_value bs + b) / 256) with (be_value bs) by (Z.to_euclidean_division_equations; lia).
  replace ((256 * be_value bs + b) mod 256) with b by (Z.to_euclidean_division_equations; lia).
  by rewrite IH.
Qed.

Lemma le_bytes_le_value bs : is_bytes bs -> le_bytes (length bs) (le_value bs) = bs.
Proof.
  intros Hb. unfold le_bytes, le_value. rewrite <- (length_rev bs), be_bytes_be_value, rev_involutive;
    [done | apply Forall_rev; exact Hb].
Qed.

Lemma le_value_bounds bs : is_bytes bs -> 0 <= le_value bs < 256 ^ Z.of_nat (length bs).
Proof. intros. unfold le_value. rewrite <- (length_rev bs). by apply be_value_bounds, Forall_rev. Qed.

Lemma forallb_bytes bs : forallb (fitsb u8_max) bs = true <-> is_bytes bs.
Proof.
  rewrite forallb_forall, list.Forall_forall. setoid_rewrite fitsb_spec. unfold fits.
  setoid_rewrite list_elem_of_In. done.
Qed.

(** A slice that decodes is the concatenation of its five fields. *)
Lemma slice_fields (bs : list Z) :
  bs = take 32 bs ++ take 8 (drop 32 bs) ++ take 32 (drop 40 bs) ++ take 4 (drop 72 bs) ++ drop 76 bs.
Proof.
  rewrite <- (take_drop 32 bs) at 1. f_equal. rewrite <- (take_drop 8 (drop 32 bs)) at 1. f_equal.
  rewrite drop_drop. rewrite <- (take_drop 32 (drop (32 + 8) bs)) at 1. f_equal.
  rewrite drop_drop. rewrite <- (take_drop 4 (drop (32 + 8 + 32) bs)) at 1. f_equal.
  by rewrite drop_drop.
Qed.

Lemma borsh_layout_roundtrip w : well_formed w -> borsh_try_from_slice (borsh_to_vec w) = Some w.
Proof.
  destruct w as [k h x s]. intros (Hk & Hkl & Hh & Hx & Hxl & Hs & Hsl).
  unfold borsh_try_from_slice, borsh_to_vec. cbn [miner_pubkey target_height target_hash signature] in *.
  set (L := le_bytes 4 (Z.of_nat (length s))). set (B := le_bytes 8 h).
  assert (HB : length B = 8%nat) by apply length_le_bytes.
  assert (HL : length L = 4%nat) by apply length_le_bytes.
  replace (forallb _ _) with true; cycle 1.
  { symmetry. apply forallb_bytes. rewrite !Forall_app. split_and!; auto; apply le_bytes_bytes. }
  replace (76 <=? _)%nat with true; cycle 1.
  { symmetry. apply Nat.leb_le. rewrite !length_app. lia. }
  cbn [andb negb].
  assert (D32 : drop 32 (k ++ B ++ x ++ L ++ s) = B ++ x ++ L ++ s) by (apply drop_app_length'; lia).
  assert (D40 : drop 40 (k ++ B ++ x ++ L ++ s) = x ++ L ++ s).
  { change 40%nat with (32 + 8)%nat. rewrite <- drop_drop, D32. apply drop_app_length'; lia. }
  assert (D72 : drop 72 (k ++ B ++ x ++ L ++ s) = L ++ s).
  { change 72%nat with (40 + 32)%nat. rewrite <- drop_drop, D40. apply drop_app_length'; lia. }
  assert (D76 : drop 76 (k ++ B ++ x ++ L ++ s) = s).
  { change 76%nat with (72 + 4)%nat. rewrite <- drop_drop, D72. apply drop_app_length'; lia. }
  rewrite D32, D40, D72, D76, !take_app_length' by lia.
  unfold L, B, fits in *. rewrite !le_value_le_bytes by lia. by rewrite Z.eqb_refl.
Qed.

Lemma borsh_layout_canonical bs w :
  borsh_try_from_slice bs = Some w -> borsh_to_vec w = bs /\ well_formed w.
Proof.
  unfold borsh_try_from_slice. destruct (forallb _ bs) eqn:Hb; [|done].
  destruct (Nat.leb_spec 76 (length bs)) as [Hlen|]; [|done]. cbn [andb negb].
  apply forallb_bytes in Hb. destruct (Z.eqb_spec (Z.of_nat (length (drop 76 bs)))
    (le_value (take 4 (drop 72 bs)))) as [Hsl|]; [|done]. intros [= <-].
  assert (Ht : forall n m, is_bytes (take n (drop m bs))) by (intros; by apply Forall_take, Forall_drop).
  pose proof (le_value_bounds _ (Ht 8%nat 32%nat)) as B8.
  pose proof (le_value_bounds _ (Ht 4%nat 72%nat)) as B4.
  pose proof (le_bytes_le_value _ (Ht 8%nat 32%nat)) as R8.
  pose proof (le_bytes_le_value _ (Ht 4%nat 72%nat)) as R4.
  rewrite !length_take, !length_drop in *.
  replace (8 `min` (length bs - 32))%nat with 8%nat in * by lia.
  replace (4 `min` (length bs - 72))%nat with 4%nat in * by lia.
  unfold borsh_to_vec, well_formed, fits. cbn [miner_pubkey target_height target_hash signature].
  split.
  - rewrite length_drop, Hsl, R8, R4. symmetry. apply slice_fields.
  - rewrite !length_take, !length_drop. split_and!; auto using Forall_take, Forall_drop; lia.
Qed.

Definition borsh_layout : Borsh :=
  {| to_vec := borsh_to_vec; try_from_slice := borsh_try_from_slice;
     borsh_roundtrip := borsh_layout_roundtrip; borsh_canonical := borsh_layout_canonical |}.

Lemma codec_bijective_witness :
  let _ := borsh_layout in
  let a := mkAttestation (replicate 32 7) 900 (replicate 32 9) (replicate 64 1) in
  decode (encode a) = Ok a /\ length (encode a) = 145%nat.
Proof.
  split; [|reflexivity].
  apply (codec_bijective (H := borsh_layout)). split; [done|]. split; [|done].
  repeat split; try (apply Forall_replicate; lia); vm_compute; congruence.
Defined.

End Codec.

(** ** The tracker *)

Module Tracker.
Import ActiveSet Codec.

Class AttestationVerifier (V : Type) := verify : V -> FinalityAttestation -> bool.

Inductive NoopVerifier := Noop.
Inductive RejectAllVerifier := RejectAll.
#[export] Instance noop_verifier : AttestationVerifier NoopVerifier := fun _ _ => true.
#[export] Instance reject_all_verifier : AttestationVerifier RejectAllVerifier := fun _ _ => false.

Inductive FinalityError :=
| InvalidSignature
| MinerNotActive (height : Z)
| StaleTarget (target_height earliest_accepted : Z)
| FutureTarget (target_height tracker_tip : Z)
| DuplicateAttestation (target_height : Z).

Inductive ApplyOutcome :=
| Accepted
| NewlyFinalized (height : Z) (hash : BlockHash).

Definition DEFAULT_WINDOW : Z := 10000.
Definition DEFAULT_LAG : Z := 100.
Definition DEFAULT_MIN_QUORUM : Z := 5.
Definition DEFAULT_STALE_HORIZON : Z := 10000.

Abbreviation SignerSet := (gset MinerPubkey).
Abbreviation HashSigners := (gmap BlockHash SignerSet).

Record FinalityTracker := mkTracker {
  min_quorum : Z;
  lag : Z;
  stale_horizon : Z;
  active_set : ActiveMinerSet;
  chain_tip : Z;
  attestations : gmap Z HashSigners;
  soft_final_height : option Z;
  total_recorded : Z }.

Definition with_params (window lag min_quorum stale_horizon : Z) : option FinalityTracker :=
  aset ← ActiveSet.new window;
  Some (mkTracker min_quorum lag stale_horizon aset 0 ∅ None 0).

Definition new_default : option FinalityTracker :=
  with_params DEFAULT_WINDOW DEFAULT_LAG DEFAULT_MIN_QUORUM DEFAULT_STALE_HORIZON.

(** [split_off(&earliest_keep)] keeps the keys from [earliest_keep] on. *)
Definition prune_stale_attestations (t : FinalityTracker) : FinalityTracker :=
  let earliest_keep := saturating_sub (chain_tip t) (stale_horizon t) in
  mkTracker (min_quorum t) (lag t) (stale_horizon t) (active_set t) (chain_tip t)
    (filter (fun kv => earliest_keep <= fst kv) (attestations t))
    (soft_final_height t) (total_recorded t).

Definition record_block (t : FinalityTracker) (miner : MinerPubkey) (block_height : Z)
  : FinalityTracker :=
  let t := mkTracker (min_quorum t) (lag t) (stale_horizon t)
             (ActiveSet.record_block (active_set t) miner block_height) (chain_tip t)
             (attestations t) (soft_final_height t) (total_recorded t) in
  if chain_tip t <? block_height
  then prune_stale_attestations
         (mkTracker (min_quorum t) (lag t) (stale_horizon t) (active_set t) block_height
            (attestations t) (soft_final_height t) (total_recorded t))
  else t.

(** The usize computation [n.saturating_mul(2).saturating_add(2) / 3]. *)
Definition ceil_two_thirds (n : Z) : Z :=
  saturating_add u64_max (saturating_mul u64_max n 2) 2 / 3.

Definition set_attestations (t : FinalityTracker) (m : gmap Z HashSigners) : FinalityTracker :=
  mkTracker (min_quorum t) (lag t) (stale_horizon t) (active_set t) (chain_tip t) m
    (soft_final_height t) (total_recorded t).

(** [apply_attestation]: the tracker after the call and its result. *)
Definition apply_attestation `{AttestationVerifier V} (v : V) (t : FinalityTracker)
    (a : FinalityAttestation) : FinalityTracker * result FinalityError ApplyOutcome :=
  if negb (verify v a) then (t, Err InvalidSignature)
  else if chain_tip t <? target_height a
  then (t, Err (FutureTarget (target_height a) (chain_tip t)))
  else
    let earliest_accepted := saturating_sub (chain_tip t) (stale_horizon t) in
    if target_height a <? earliest_accepted
    then (t, Err (StaleTarget (target_height a) earliest_accepted))
    else if negb (is_active (active_set t) (miner_pubkey a) (target_height a))
    then (t, Err (MinerNotActive (target_height a)))
    else
      let height_entry : HashSigners := default ∅ (attestations t !! target_height a) in
      let hash_entry : SignerSet := default ∅ (height_entry !! target_hash a) in
      if decide (miner_pubkey a ∈ hash_entry)
      then (set_attestations t
              (<[target_height a := <[target_hash a := hash_entry]> height_entry]> (attestations t)),
            Err (DuplicateAttestation (target_height a)))
      else
        let hash_entry : SignerSet := {[miner_pubkey a]} ∪ hash_entry in
        let t := mkTracker (min_quorum t) (lag t) (stale_horizon t) (active_set t) (chain_tip t)
                   (<[target_height a := <[target_hash a := hash_entry]> height_entry]> (attestations t))
                   (soft_final_height t) (wrap u64_max (total_recorded t + 1)) in
        let active_count := active_count (active_set t) (target_height a) in
        if active_count <? min_quorum t then (t, Ok Accepted)
        else
          let threshold := ceil_two_thirds active_count in
          let signer_count := Z.of_nat (size hash_entry) in
          if threshold <=? signer_count
          then
            let advances := match soft_final_height t with
                            | Some current => current <? target_height a
                            | None => true
                            end in
            if advances
            then (mkTracker (min_quorum t) (lag t) (stale_horizon t) (active_set t) (chain_tip t)
                    (attestations t) (Some (target_height a)) (total_recorded t),
                  Ok (NewlyFinalized (target_height a) (target_hash a)))
            else (t, Ok Accepted)
          else (t, Ok Accepted).

Definition would_reorg_violate_finality (t : FinalityTracker) (proposed_fork_height : Z) : bool :=
  match soft_final_height t with
  | Some soft_final => proposed_fork_height <=? soft_final
  | None => false
  end.

Definition signer_count (t : FinalityTracker) (height : Z) (hash : BlockHash) : Z :=
  match attestations t !! height ≫= (fun h => h !! hash) with
  | Some s => Z.of_nat (size s)
  | None => 0
  end.

Record FinalityStats := mkFinalityStats {
  current_chain_tip : Z;
  st_soft_final_height : option Z;
  active_miner_count : Z;
  total_miner_count : Z;
  total_attestations_recorded : Z;
  st_min_quorum : Z;
  st_lag : Z;
  st_window : Z }.

Definition stats (t : FinalityTracker) : FinalityStats :=
  mkFinalityStats (chain_tip t) (soft_final_height t) (active_count (active_set t) (chain_tip t))
    (total_count (active_set t)) (total_recorded t) (min_quorum t) (lag t) (window (active_set t)).

(** *** The signers of a block *)

Definition signers (t : FinalityTracker) (height : Z) (hash : BlockHash) : SignerSet :=
  default ∅ (default ∅ (attestations t !! height) !! hash).

Section Verified.
Context `{AttestationVerifier V} (v : V).

(** What an accepted attestation satisfied. *)
Definition acceptable (t : FinalityTracker) (a : FinalityAttestation) : Prop :=
  verify v a = true
  /\ saturating_sub (chain_tip t) (stale_horizon t) <= target_height a <= chain_tip t
  /\ is_active (active_set t) (miner_pubkey a) (target_height a) = true
  /\ miner_pubkey a ∉ signers t (target_height a) (target_hash a).

(** The tracker once the attestation is recorded, before the threshold is looked at. *)
Definition recorded (t : FinalityTracker) (a : FinalityAttestation) : gmap Z HashSigners :=
  <[target_height a :=
      <[target_hash a := {[miner_pubkey a]} ∪ signers t (target_height a) (target_hash a)]>
        (default ∅ (attestations t !! target_height a))]> (attestations t).

(** The threshold test of the fifth step. *)
Definition finalizes (t : FinalityTracker) (a : FinalityAttestation) : bool :=
  let n := active_count (active_set t) (target_height a) in
  (min_quorum t <=? n)
  && (ceil_two_thirds n <=?
        Z.of_nat (size ({[miner_pubkey a]} ∪ signers t (target_height a) (target_hash a))))
  && match soft_final_height t with Some c => c <? target_height a | None => true end.

Definition after (t : FinalityTracker) (a : FinalityAttestation) : FinalityTracker :=
  mkTracker (min_quorum t) (lag t) (stale_horizon t) (active_set t) (chain_tip t) (recorded t a)
    (if finalizes t a then Some (target_height a) else soft_final_height t)
    (wrap u64_max (total_recorded t + 1)).

Definition outcome (t : FinalityTracker) (a : FinalityAttestation) : ApplyOutcome :=
  if finalizes t a then NewlyFinalized (target_height a) (target_hash a) else Accepted.

(** Re-inserting a signer set that is there changes nothing. *)
Lemma reinsert_signers t a :
  miner_pubkey a ∈ signers t (target_height a) (target_hash a) ->
  set_attestations t
    (<[target_height a := <[target_hash a := signers t (target_height a) (target_hash a)]>
        (default ∅ (attestations t !! target_height a))]> (attestations t)) = t.
Proof.
  unfold signers, set_attestations. intros Hin.
  destruct (attestations t !! target_height a) as [hs|] eqn:Eh; simpl in *; [|set_solver].
  destruct (hs !! target_hash a) as [ss|] eqn:Es; simpl in *; [|set_solver].
  rewrite (insert_id hs), insert_id by done. by destruct t.
Qed.

(** The whole of [apply_attestation]: either the attestation is acceptable and
    recorded, or the call is an error and the tracker is the one before. *)
Lemma apply_attestation_spec t a :
  (acceptable t a /\ apply_attestation v t a = (after t a, Ok (outcome t a)))
  \/ (~ acceptable t a /\ exists e, apply_attestation v t a = (t, Err e)).
Proof.
  unfold acceptable, apply_attestation.
  fold (signers t (target_height a) (target_hash a)).
  destruct (verify v a); cbn [negb]; [|right; split; [by intros [? _]|eauto]].
  destruct (Z.ltb_spec (chain_tip t) (target_height a)); [right; split; [lia|eauto]|].
  destruct (Z.ltb_spec (target_height a) (saturating_sub (chain_tip t) (stale_horizon t)));
    [right; split; [lia|eauto]|].
  destruct (is_active _ _ _); cbn [negb]; [|right; split; [by intros (_ & _ & ? & _)|eauto]].
  destruct (decide _) as [Hin|Hout].
  - right. split; [tauto|]. rewrite reinsert_signers by done. eauto.
  - left. split; [done|]. unfold after, outcome, finalizes, recorded.
    cbn [active_set min_quorum soft_final_height chain_tip attestations lag stale_horizon total_recorded].
    rewrite (Z.leb_antisym _ (min_quorum t)).
    destruct (_ <? min_quorum t); [done|]. cbn [negb andb].
    destruct (ceil_two_thirds _ <=? _); [|done]. cbn [andb].
    by destruct (match soft_final_height t with Some _ => _ | None => _ end).
Qed.

Lemma apply_error_unchanged t a t' e : apply_attestation v t a = (t', Err e) -> t' = t.
Proof.
  destruct (apply_attestation_spec t a) as [[_ ->]|[_ [e' ->]]]; congruence.
Qed.

(** *** Runs

    What the consensus layer feeds the tracker, in order. *)

Inductive event :=
| Mined (miner : MinerPubkey) (height : Z)
| Attested (a : FinalityAttestation).

Definition step (t : FinalityTracker) (e : event) : FinalityTracker :=
  match e with
  | Mined m h => record_block t m h
  | Attested a => fst (apply_attestation v t a)
  end.

Definition run (t : FinalityTracker) (es : list event) : FinalityTracker := fold_left step es t.

Lemma record_block_final t m h : soft_final_height (record_block t m h) = soft_final_height t.
Proof. unfold record_block. simpl. by destruct (_ <? _). Qed.

Lemma step_monotone t e h :
  would_reorg_violate_finality t h = true -> would_reorg_violate_finality (step t e) h = true.
Proof.
  unfold would_reorg_violate_finality. destruct e as [m b|a]; cbn [step].
  - by rewrite record_block_final.
  - destruct (apply_attestation_spec t a) as [[_ ->]|[_ [e ->]]]; [|done]. cbn [fst after soft_final_height].
    unfold finalizes. destruct (soft_final_height t) as [c|]; [|done].
    destruct (_ && _) eqn:E; [|done]. apply andb_prop in E as [_ E]. zcases.
Qed.

(** The invariant of a run: entries are within the stale horizon, and every signer of
    a block sent a verified attestation for it and is a recorded miner. *)
Record tracker_inv (es : list event) (t : FinalityTracker) : Prop := {
  inv_tip : 0 <= chain_tip t;
  inv_range h hs : attestations t !! h = Some hs ->
    saturating_sub (chain_tip t) (stale_horizon t) <= h <= chain_tip t;
  inv_signers m h x : m ∈ signers t h x ->
    (exists a, Attested a ∈ es /\ verify v a = true /\ miner_pubkey a = m
       /\ target_height a = h /\ target_hash a = x)
    /\ is_Some (miners (active_set t) !! m);
  inv_final h : soft_final_height t = Some h -> h <= chain_tip t }.

Lemma record_block_known s m h k :
  is_Some (miners s !! k) -> is_Some (miners (ActiveSet.record_block s m h) !! k).
Proof.
  intros [r Hr]. unfold ActiveSet.record_block. destruct (miners s !! m) as [r'|] eqn:E.
  - destruct (_ <? _); simpl; [|eauto]. destruct (decide (m = k)) as [->|].
    + rewrite lookup_insert_eq. eauto.
    + rewrite lookup_insert_ne by done. eauto.
  - simpl. rewrite lookup_insert_ne by congruence. eauto.
Qed.

(** Pruning only removes signers. *)
Lemma prune_signers t m h x : m ∈ signers (prune_stale_attestations t) h x -> m ∈ signers t h x.
Proof.
  unfold signers, prune_stale_attestations. cbn [attestations].
  destruct (filter _ (attestations t) !! h) as [hs|] eqn:E; simpl; [|set_solver].
  apply map_lookup_filter_Some in E as [-> _]. done.
Qed.

Lemma tracker_inv_mined es t m b :
  tracker_inv es t -> tracker_inv (es ++ [Mined m b]) (record_block t m b).
Proof.
  intros [Ht Hr Hs Hf].
  assert (Hs' : forall k h x, k ∈ signers t h x ->
    (exists a, Attested a ∈ es ++ [Mined m b] /\ verify v a = true /\ miner_pubkey a = k
       /\ target_height a = h /\ target_hash a = x)
    /\ is_Some (miners (ActiveSet.record_block (active_set t) m b) !! k)).
  { intros k h x Hk. destruct (Hs k h x Hk) as [(a & Ha & ?) ?].
    split; [exists a; split; [set_solver|done] | by apply record_block_known]. }
  unfold record_block. cbn [chain_tip]. destruct (Z.ltb_spec (chain_tip t) b).
  - split; cbn [chain_tip soft_final_height prune_stale_attestations active_set stale_horizon].
    + lia.
    + intros h hs Hl. apply map_lookup_filter_Some in Hl as [Hl Hk]. cbn in Hk.
      specialize (Hr h hs Hl). lia.
    + intros k h x Hk. apply prune_signers in Hk. by apply Hs'.
    + intros h Hh. specialize (Hf h Hh). lia.
  - split; auto.
Qed.

(** The signers after an accepted attestation. *)
Lemma after_signers t a m h x :
  m ∈ signers (after t a) h x ->
  m ∈ signers t h x \/ (m = miner_pubkey a /\ h = target_height a /\ x = target_hash a).
Proof.
  unfold after, recorded, signers. cbn [attestations].
  destruct (decide (h = target_height a)) as [->|].
  - rewrite lookup_insert_eq. simpl. destruct (decide (x = target_hash a)) as [->|].
    + rewrite lookup_insert_eq. simpl. set_solver.
    + rewrite lookup_insert_ne by done. tauto.
  - rewrite lookup_insert_ne by done. tauto.
Qed.

Lemma tracker_inv_attested es t a :
  tracker_inv es t -> tracker_inv (es ++ [Attested a]) (fst (apply_attestation v t a)).
Proof.
  intros [Ht Hr Hs Hf].
  assert (Hs' : forall k h x, k ∈ signers t h x ->
    (exists a', Attested a' ∈ es ++ [Attested a] /\ verify v a' = true /\ miner_pubkey a' = k
       /\ target_height a' = h /\ target_hash a' = x) /\ is_Some (miners (active_set t) !! k)).
  { intros k h x Hk. destruct (Hs k h x Hk) as [(a' & Ha & ?) ?].
    split; [exists a'; split; [set_solver|done] | done]. }
  destruct (apply_attestation_spec t a) as [[(Hv & Hrange & Hact & _) ->]|[_ [e ->]]]; cbn [fst].
  - split; cbn [chain_tip after stale_horizon active_set]; [done| | |].
    + intros h hs. cbn [attestations after]. unfold recorded.
      destruct (decide (h = target_height a)) as [->|]; [intros _; lia|].
      rewrite lookup_insert_ne by done. apply Hr.
    + intros m h x Hm. apply after_signers in Hm as [Hm|(-> & -> & ->)]; [by apply Hs'|].
      split; [exists a; split_and!; [set_solver|done..]|].
      unfold is_active in Hact. destruct (miners _ !! _); [eauto|done].
    + intros h. cbn [soft_final_height after]. destruct (finalizes t a); [intros; inv_res; lia|apply Hf].
  - split; auto.
Qed.

Lemma run_inv w l q s t0 es :
  with_params w l q s = Some t0 -> 0 <= s -> tracker_inv es (run t0 es).
Proof.
  intros Ht0 Hs. unfold with_params, ActiveSet.new in Ht0. destruct (0 <? w); [|done].
  cbn in Ht0. inv_res. subst t0. induction es as [|e es IH] using rev_ind.
  - split; cbn; [lia| | |done].
    + intros h hs. by rewrite lookup_empty.
    + intros m h x. unfold signers. cbn. rewrite lookup_empty. cbn. rewrite lookup_empty. set_solver.
  - unfold run in *. rewrite fold_left_app. cbn [fold_left]. destruct e as [m b|a].
    + by apply tracker_inv_mined.
    + by apply tracker_inv_attested.
Qed.

Lemma ceil_two_thirds_spec n : 0 <= n -> 2 * n + 2 <= u64_max ->
  2 * n <= 3 * ceil_two_thirds n < 2 * n + 3.
Proof.
  intros. unfold ceil_two_thirds, saturating_add, saturating_mul.
  rewrite (Z.min_r _ (n * 2)), Z.min_r by lia.
  Z.to_euclidean_division_equations. lia.
Qed.

Lemma run_params t es :
  min_quorum (run t es) = min_quorum t /\ stale_horizon (run t es) = stale_horizon t.
Proof.
  induction es as [|e es IH] using rev_ind; [done|].
  unfold run in *. rewrite fold_left_app. cbn [fold_left]. destruct IH as [<- <-].
  destruct e as [m b|a]; cbn [step].
  - unfold record_block. cbn [chain_tip]. by destruct (_ <? _).
  - by destruct (apply_attestation_spec (fold_left step es t) a) as [[_ ->]|[_ [e ->]]].
Qed.

Lemma active_count_bounds s h : 0 <= active_count s h <= total_count s.
Proof.
  unfold active_count, total_count. split; [lia|]. apply inj_le, map_subseteq_size, map_filter_subseteq.
Qed.

(** C30: Soundness of soft finality over every run of the tracker from its
    construction: when an attestation finalises a height, that height was not final
    before and becomes the soft-final one, at least [min_quorum] miners are active
    there, and a set of distinct recorded miners, at least two thirds as many as the
    active ones, each sent a verified attestation for exactly that height and hash. *)
Theorem finalized_has_quorum w l q s t0 es a t' h x :
  with_params w l q s = Some t0 -> 0 <= s ->
  let t := run t0 es in
  2 * total_count (active_set t) + 2 <= u64_max ->
  apply_attestation v t a = (t', Ok (NewlyFinalized h x)) ->
  soft_final_height t' = Some h
  /\ would_reorg_violate_finality t h = false
  /\ q <= active_count (active_set t) h
  /\ exists S : SignerSet,
       2 * active_count (active_set t) h <= 3 * Z.of_nat (size S)
       /\ forall m, m ∈ S -> is_Some (miners (active_set t) !! m) /\
            exists a', Attested a' ∈ es ++ [Attested a] /\ verify v a' = true
              /\ miner_pubkey a' = m /\ target_height a' = h /\ target_hash a' = x.
Proof.
  intros Ht0 Hs t Hsize Happ.
  destruct (apply_attestation_spec t a) as [[Hacc E]|[_ [e E]]]; rewrite E in Happ; [|done].
  injection Happ as <- Hout. unfold outcome in Hout.
  destruct (finalizes t a) eqn:Hfin; [injection Hout as <- <-|done].
  pose proof (tracker_inv_attested _ _ a (run_inv w l q s t0 es Ht0 Hs)) as Hinv.
  fold t in Hinv. rewrite E in Hinv. cbn [fst] in Hinv.
  assert (Hq : min_quorum t = q).
  { unfold t. rewrite (proj1 (run_params t0 es)).
    unfold with_params, ActiveSet.new in Ht0. destruct (0 <? w); [|done]. cbn in Ht0.
    by inv_res; subst. }
  assert (Hmem : signers (after t a) (target_height a) (target_hash a)
                 = {[miner_pubkey a]} ∪ signers t (target_height a) (target_hash a)).
  { unfold signers at 1. cbn [attestations after]. unfold recorded.
    rewrite lookup_insert_eq. cbn. by rewrite lookup_insert_eq. }
  pose proof Hfin as Hfin'. unfold finalizes in Hfin'. rewrite !andb_true_iff, !Z.leb_le in Hfin'.
  destruct Hfin' as [[Hmq Hth] Hadv].
  split; [cbn; by rewrite Hfin|]. split; [unfold would_reorg_violate_finality;
    destruct (soft_final_height t); [apply Z.leb_gt, Z.ltb_lt; done|done]|].
  split; [lia|]. exists (signers (after t a) (target_height a) (target_hash a)). split.
  - rewrite Hmem. pose proof (active_count_bounds (active_set t) (target_height a)).
    pose proof (ceil_two_thirds_spec (active_count (active_set t) (target_height a))). lia.
  - intros m Hm. destruct (inv_signers _ _ Hinv m _ _ Hm) as [Ha Hk]. done.
Qed.

(** An attestation is accepted exactly when its signature verifies, its target is
    neither ahead of the tip nor older than the stale horizon, its miner is active at
    the target and has not yet signed that height and hash; a rejected attestation
    leaves the tracker as it was, on every error branch. *)
Theorem attestation_accepted_iff t a :
  (is_ok (snd (apply_attestation v t a)) = true <-> acceptable t a)
  /\ (is_ok (snd (apply_attestation v t a)) = false -> fst (apply_attestation v t a) = t).
Proof.
  destruct (apply_attestation_spec t a) as [[Hacc ->]|[Hacc [e ->]]]; cbn; split; done || (split; done).
Qed.

(** Finality is never walked back: a reorganisation the rule forbids stays
    forbidden after any further sequence of blocks and attestations. *)
Theorem reorg_rule_permanent t es h :
  would_reorg_violate_finality t h = true -> would_reorg_violate_finality (run t es) h = true.
Proof.
  intros Ht. unfold run. revert t Ht. induction es as [|e es IH]; intros t Ht; [done|].
  cbn [fold_left]. by apply IH, step_monotone.
Qed.

(** Memory is bounded on every run: recorded attestations are for heights within
    the stale horizon of the tip, so at most [stale_horizon + 1] heights are kept. *)
Theorem attestation_store_bounded w l q s t0 es :
  with_params w l q s = Some t0 -> 0 <= s ->
  Z.of_nat (size (attestations (run t0 es))) <= s + 1.
Proof.
  intros Ht0 Hs. destruct (run_inv w l q s t0 es Ht0 Hs) as [Htip Hr _ _].
  destruct (run_params t0 es) as [_ Hsh].
  assert (Hs0 : stale_horizon t0 = s).
  { unfold with_params, ActiveSet.new in Ht0. destruct (0 <? w); [|done]. cbn in Ht0. by inv_res; subst. }
  set (t := run t0 es) in *.
  assert (Hsub : dom (attestations t) ⊆ (list_to_set (seqZ (chain_tip t - s) (s + 1)) : gset Z)).
  { intros h Hh. apply elem_of_dom in Hh as [hs Hh]. apply elem_of_list_to_set, elem_of_seqZ.
    specialize (Hr h hs Hh). unfold saturating_sub in Hr. lia. }
  apply subseteq_size in Hsub. rewrite size_dom, size_list_to_set, length_seqZ in Hsub by apply NoDup_seqZ.
  lia.
Qed.
End Verified.

(** *** Witnesses: five miners with one-byte keys *)

Definition sample_att (m h : Z) : FinalityAttestation := mkAttestation [m] h [9] [].

Definition sample_events : list event :=
  [Mined [1] 1; Mined [2] 2; Mined [3] 3; Mined [4] 4; Mined [5] 5;
   Attested (sample_att 1 5); Attested (sample_att 2 5); Attested (sample_att 3 5)].

Definition sample_tracker : FinalityTracker := mkTracker 5 10 100 (mkSet ∅ 100) 0 ∅ None 0.

Lemma finalized_has_quorum_witness :
  soft_final_height (fst (apply_attestation Noop (run Noop sample_tracker sample_events) (sample_att 4 5)))
  = Some 5.
Proof.
  apply (finalized_has_quorum Noop 100 10 5 100 sample_tracker sample_events (sample_att 4 5) _ 5 [9]).
  - reflexivity.
  - lia.
  - vm_compute. congruence.
  - vm_compute. reflexivity.
Defined.

Lemma reorg_rule_permanent_witness :
  let t := run Noop sample_tracker (sample_events ++ [Attested (sample_att 4 5)]) in
  would_reorg_violate_finality (run Noop t [Mined [1] 6; Attested (sample_att 1 6)]) 5 = true.
Proof. apply (reorg_rule_permanent Noop). vm_compute. reflexivity. Defined.

Lemma attestation_accepted_iff_witness :
  fst (apply_attestation RejectAll sample_tracker (sample_att 1 1)) = sample_tracker.
Proof. apply (attestation_accepted_iff RejectAll sample_tracker). reflexivity. Defined.

Lemma attestation_store_bounded_witness :
  Z.of_nat (size (attestations (run Noop sample_tracker sample_events))) <= 101.
Proof. apply (attestation_store_bounded Noop 100 10 5 100); [reflexivity|lia]. Defined.

End Tracker.

(** ** The adapter of the consensus layer *)

Module Adapter.
Import ActiveSet Codec Tracker.

Inductive OnBlockOutcome :=
| NoAttestation
| Malformed (e : WireError)
| Rejected (e : FinalityError)
| Recorded
| BlockFinalized (height : Z) (hash : BlockHash).

(** [windows(4).position(..)]: the suffix from the first occurrence of the magic. *)
Fixpoint scan_magic (extra : list Z) : option (list Z) :=
  if (length extra <? length WIRE_MAGIC)%nat then None
  else if bool_decide (take (length WIRE_MAGIC) extra = WIRE_MAGIC) then Some extra
  else match extra with [] => None | _ :: rest => scan_magic rest end.

Definition find_attestation (extra : list Z) : option (list Z) :=
  if (length extra <? length WIRE_MAGIC)%nat then None else scan_magic extra.

Definition on_accepted_block `{Borsh} `{AttestationVerifier V} (v : V) (t : FinalityTracker)
    (block_height : Z) (coinbase_extra : list Z) : FinalityTracker * OnBlockOutcome :=
  match find_attestation coinbase_extra with
  | None => (t, NoAttestation)
  | Some attestation_bytes =>
      match decode attestation_bytes with
      | Err e => (t, Malformed e)
      | Ok attestation =>
          let t := record_block t (miner_pubkey attestation) block_height in
          match apply_attestation v t attestation with
          | (t, Ok Accepted) => (t, Recorded)
          | (t, Ok (NewlyFinalized height hash)) => (t, BlockFinalized height hash)
          | (t, Err e) => (t, Rejected e)
          end
      end
  end.

(** The adapter is a run of the tracker: the block, then its attestation. *)
Lemma on_accepted_block_run `{Borsh} `{AttestationVerifier V} (v : V) t h extra bs a :
  find_attestation extra = Some bs -> decode bs = Ok a ->
  fst (on_accepted_block v t h extra) = run v t [Mined (miner_pubkey a) h; Attested a].
Proof.
  intros E1 E2. unfold on_accepted_block. rewrite E1, E2. cbn [run fold_left step].
  by destruct (apply_attestation v (record_block t (miner_pubkey a) h) a) as [t' [[]|e]].
Qed.

(** A long-standing miner's attestation is refused.  Recording the block that
    carries an attestation moves the miner's last block past the attested height; when
    the miner's first block is a full window before that height, neither of the two
    stored heights is in the window any more, and the attestation is rejected as
    inactive although its signature verifies and its target is recent. *)
Theorem veteran_attestation_rejected `{Borsh} `{AttestationVerifier V} (v : V) t h extra bs a r :
  find_attestation extra = Some bs -> decode bs = Ok a -> verify v a = true ->
  miners (active_set t) !! miner_pubkey a = Some r ->
  first_seen_height r + window (active_set t) <= target_height a < h ->
  saturating_sub (Z.max (chain_tip t) h) (stale_horizon t) <= target_height a ->
  snd (on_accepted_block v t h extra) = Rejected (MinerNotActive (target_height a)).
Proof.
  intros E1 E2 Hv Hr Hold Hstale. unfold on_accepted_block. rewrite E1, E2.
  set (t' := record_block t (miner_pubkey a) h).
  assert (Htip : chain_tip t' = Z.max (chain_tip t) h /\ stale_horizon t' = stale_horizon t
    /\ active_set t' = ActiveSet.record_block (active_set t) (miner_pubkey a) h).
  { unfold t', record_block. cbn [chain_tip]. zcases; cbn; split_and!; done || lia. }
  destruct Htip as (Htip & Hsh & Hset).
  assert (Hinact : is_active (active_set t') (miner_pubkey a) (target_height a) = false).
  { unfold is_active. rewrite Hset, record_block_window. unfold ActiveSet.record_block. rewrite Hr.
    destruct (Z.ltb_spec (last_seen_height r) h); cbn [miners];
      rewrite ?lookup_insert_eq, ?Hr; unfold is_active_record; cbn [first_seen_height last_seen_height];
      zcases. }
  unfold apply_attestation. rewrite Hv, Hinact, Htip, Hsh. cbn [negb]. zcases. reflexivity.
Qed.

(** The default parameters, with a miner first seen at height 1 who mines again at
    height 20000 and attests to height 19900. *)
Lemma veteran_attestation_rejected_witness :
  let _ := borsh_layout in
  let a := mkAttestation (replicate 32 7) 19900 (replicate 32 9) (replicate 64 1) in
  let t := mkTracker 5 100 10000 (mkSet {[ replicate 32 7 := mkRecord 1 19950 ]} 10000) 19999 ∅ None 0 in
  snd (on_accepted_block Noop t 20000 (encode a)) = Rejected (MinerNotActive 19900).
Proof.
  cbv zeta.
  apply (veteran_attestation_rejected (H := borsh_layout) Noop _ 20000 _
           (encode (H := borsh_layout) (mkAttestation (replicate 32 7) 19900 (replicate 32 9) (replicate 64 1)))
           (mkAttestation (replicate 32 7) 19900 (replicate 32 9) (replicate 64 1)) (mkRecord 1 19950)).
  all: try (vm_compute; done).
Defined.

End Adapter.
