(* ===== verification/ForkChoice.v ===== *)
(** * Fork choice and reorganisation policy (src/src/consensus/finality.rs, src/src/chain.rs)

    The depth caps and the work multiplier of [evaluate_reorg_acceptability], the
    cumulative-work and tip-hash comparison of [add_block], and the sequence of gates a
    fork block passes before the chain is reorganised: fork point, work policy, the
    rolling-finality rule and the finality floor.  Hashes are the big-endian numbers of
    their 32 bytes, so that the byte-wise order of the source is [<?]. *)

From stdpp Require Import gmap.
From S2P Require Import Prelude Constants Difficulty FeeMarket Security Ledger ForkCalc RollingFinality.

Module ForkChoice.

Definition CHECKPOINT_INTERVAL : Z := 144.
Definition REORG_UNCONDITIONAL_DEPTH : Z := 10.
Definition MESS_EXPONENT_DIVISOR : Z := 20.
Definition BOOTSTRAP_MESS_HEIGHT : Z := 1000.

Definition max_reorg_depth_for (network : Ledger.NetworkType) : Z :=
  match network with
  | Ledger.Testnet | Ledger.Regtest | Ledger.Beta => 1000
  | Ledger.Mainnet => 100
  end.

(** The deprecated form without a network. *)
Definition max_reorg_depth : Z := max_reorg_depth_for Ledger.Testnet.

Definition rolling_finality_enforce_height (network : Ledger.NetworkType) : Z :=
  match network with
  | Ledger.Mainnet => 50000
  | Ledger.Testnet | Ledger.Regtest | Ledger.Beta => 75000
  end.

(** The four rejection messages. *)
Inductive ReorgRejection :=
| HardFinality (depth max_depth : Z)
| LessWork (depth fork_work honest_work : Z)
| LessWorkBootstrap (depth fork_work honest_work : Z)
| MessRejection (depth multiplier fork_work required_work : Z).

Definition evaluate_reorg_acceptability (depth fork_work honest_work current_height max_depth : Z)
  : result ReorgRejection unit :=
  if max_depth <? depth then Err (HardFinality depth max_depth)
  else if depth <=? REORG_UNCONDITIONAL_DEPTH then
    if honest_work <=? fork_work then Ok tt else Err (LessWork depth fork_work honest_work)
  else if current_height <? BOOTSTRAP_MESS_HEIGHT then
    if honest_work <=? fork_work then Ok tt else Err (LessWorkBootstrap depth fork_work honest_work)
  else
    let exponent := (depth - REORG_UNCONDITIONAL_DEPTH) / MESS_EXPONENT_DIVISOR in
    let capped_exponent := Z.min exponent 40 in
    let multiplier := wrap u128_max (Z.shiftl 1 capped_exponent) in
    let required_work := saturating_mul u128_max honest_work multiplier in
    if required_work <? fork_work then Ok tt
    else Err (MessRejection depth multiplier fork_work required_work).

(** The comparison of [add_block]: more work, or equal work and a smaller tip hash. *)
Definition take_fork (fork_cumulative current_total_difficulty fork_tip current_tip_hash : Z) : bool :=
  if current_total_difficulty <? fork_cumulative then true
  else if fork_cumulative =? current_total_difficulty then fork_tip <? current_tip_hash
  else false.

(** What the fork-evaluation path of [add_block] reads of the node. *)
Record Node := mkNode {
  chain : ForkCalc.Blockchain;
  network : Ledger.NetworkType;
  tip_height : Z;
  tip_hash : Z;
  total_difficulty : Z;
  rolling_finality : option Tracker.FinalityTracker }.

Inductive Error :=
| Corruption
| ReorgTooDeep (depth max : Z).

(** [Ok None]: the fork is not taken; [Ok (Some p)]: the chain is reorganised from the
    fork point [p]. *)
Definition evaluate_fork (n : Node) (block : ForkCalc.Block) (block_hash fork_cumulative : Z)
  : result Error (option Z) :=
  if negb (take_fork fork_cumulative (total_difficulty n) block_hash (tip_hash n)) then Ok None
  else
    let? fork_point := ok_or (ForkCalc.find_fork_point (chain n) block) Corruption in
    let reorg_depth := saturating_sub (ForkCalc.height block) fork_point in
    let net_max := max_reorg_depth_for (network n) in
    match evaluate_reorg_acceptability reorg_depth fork_cumulative (total_difficulty n)
            (tip_height n) net_max with
    | Err _ => Err (ReorgTooDeep reorg_depth net_max)
    | Ok tt =>
        let violates :=
          match rolling_finality n with
          | Some rf => (rolling_finality_enforce_height (network n) <=? ForkCalc.height block)
                       && Tracker.would_reorg_violate_finality rf fork_point
          | None => false
          end in
        if violates then
          let soft_final :=
            match rolling_finality n with
            | Some rf => default 0 (Tracker.soft_final_height rf)
            | None => 0
            end in
          Err (ReorgTooDeep reorg_depth
                 (saturating_sub (saturating_sub (ForkCalc.height block) soft_final) 1))
        else
          let interval := CHECKPOINT_INTERVAL in
          let finality_floor := saturating_sub (tip_height n) interval in
          if (0 <? finality_floor) && (fork_point <? finality_floor)
          then Err (ReorgTooDeep (saturating_sub (ForkCalc.height block) fork_point) interval)
          else Ok (Some fork_point)
    end.

(** With the cumulative work the code computes for the fork block. *)
Definition add_fork_block (n : Node) (block : ForkCalc.Block) (block_hash : Z)
  : option (result Error (option Z)) :=
  fork_cumulative ← ForkCalc.calculate_fork_cumulative_work (chain n) block;
  Some (evaluate_fork n block block_hash fork_cumulative).

(** ** The work policy *)

(** The multiplier of the second tier. *)
Definition mess_multiplier (depth : Z) : Z := 2 ^ Z.min ((depth - 10) / 20) 40.

Lemma mess_multiplier_bounds depth : 10 < depth -> 1 <= mess_multiplier depth <= 2 ^ 40.
Proof.
  intros Hd. unfold mess_multiplier. assert (0 <= (depth - 10) / 20) by (apply Z.div_pos; lia).
  assert (0 < 2 ^ Z.min ((depth - 10) / 20) 40) by (apply Z.pow_pos_nonneg; lia).
  split; [lia|]. apply Z.pow_le_mono_r; lia.
Qed.

Lemma multiplier_eq depth : 10 < depth ->
  wrap u128_max (Z.shiftl 1 (Z.min ((depth - 10) / 20) 40)) = mess_multiplier depth.
Proof.
  intros Hd. assert (0 <= (depth - 10) / 20) by (apply Z.div_pos; lia).
  rewrite Z.shiftl_mul_pow2, Z.mul_1_l by lia. fold (mess_multiplier depth).
  pose proof (mess_multiplier_bounds depth Hd). apply wrap_small. unfold fits. lia.
Qed.

Lemma reorg_acceptable depth fork_work honest_work current_height max_depth :
  fits u128_max fork_work -> fits u128_max honest_work ->
  is_ok (evaluate_reorg_acceptability depth fork_work honest_work current_height max_depth) = true <->
  depth <= max_depth
  /\ (if (depth <=? 10) || (current_height <? 1000) then honest_work <= fork_work
      else honest_work * mess_multiplier depth < fork_work).
Proof.
  intros Hf Hh. unfold evaluate_reorg_acceptability, REORG_UNCONDITIONAL_DEPTH,
    BOOTSTRAP_MESS_HEIGHT, MESS_EXPONENT_DIVISOR, fits in *.
  destruct (Z.ltb_spec max_depth depth); [cbn; lia|].
  destruct (Z.leb_spec depth 10); cbn [orb]; [zcases; cbn; lia|].
  destruct (Z.ltb_spec current_height 1000); [zcases; cbn; lia|].
  rewrite multiplier_eq by lia. unfold saturating_mul.
  destruct (Z.ltb_spec (Z.min u128_max (honest_work * mess_multiplier depth)) fork_work); cbn; lia.
Qed.

(** The reorganisation policy, on every branch and with no overflow: a fork is
    acceptable exactly when its depth is within the network's cap and its work is at
    least that of the chain (at depth 10 or less, or below the bootstrap height), or
    strictly more than the chain's work times 2^((depth-10)/20), the exponent capped at
    40 (deeper).  The saturating multiplication decides as the exact one. *)
Theorem reorg_acceptable_iff depth fork_work honest_work current_height max_depth :
  fits u128_max fork_work -> fits u128_max honest_work ->
  is_ok (evaluate_reorg_acceptability depth fork_work honest_work current_height max_depth) = true <->
  depth <= max_depth
  /\ (if (depth <=? 10) || (current_height <? 1000) then honest_work <= fork_work
      else honest_work * mess_multiplier depth < fork_work).
Proof. apply reorg_acceptable. Qed.

(** ** The fork choice as an order *)

Definition better (w1 h1 w2 h2 : Z) : Prop := w2 < w1 \/ (w1 = w2 /\ h1 < h2).

Lemma take_fork_better w w' x x' : take_fork w w' x x' = true <-> better w x w' x'.
Proof. unfold take_fork, better. zcases; split; intros; try lia; try done; zcases. Qed.

(** The fork choice is a strict total order on tips (cumulative work, then the
    smaller hash): two nodes on different tips never both prefer the other's, a
    preference is transitive, no tip is preferred to itself, and between two different
    tips one is preferred; so nodes that see the same tips settle on the same one. *)
Theorem fork_choice_total_order :
  (forall w x, take_fork w w x x = false)
  /\ (forall w1 x1 w2 x2 w3 x3,
        take_fork w1 w2 x1 x2 = true -> take_fork w2 w3 x2 x3 = true -> take_fork w1 w3 x1 x3 = true)
  /\ (forall w1 x1 w2 x2, x1 <> x2 ->
        take_fork w1 w2 x1 x2 = negb (take_fork w2 w1 x2 x1)).
Proof.
  split_and!.
  - intros. unfold take_fork. zcases.
  - intros *. rewrite !take_fork_better. unfold better. lia.
  - intros. unfold take_fork. zcases; done.
Qed.

(** ** The gates of a reorganisation *)

(** The rolling-finality gate lets the fork point pass. *)
Definition finality_allows (n : Node) (block : ForkCalc.Block) (p : Z) : Prop :=
  forall rf, rolling_finality n = Some rf ->
    rolling_finality_enforce_height (network n) <= ForkCalc.height block ->
    Tracker.would_reorg_violate_finality rf p = false.

Lemma finality_gate n block p :
  match rolling_finality n with
  | Some rf => (rolling_finality_enforce_height (network n) <=? ForkCalc.height block)
               && Tracker.would_reorg_violate_finality rf p
  | None => false
  end = false <-> finality_allows n block p.
Proof.
  unfold finality_allows. destruct (rolling_finality n) as [rf|]; [|split; [done|done]].
  rewrite andb_false_iff, Z.leb_gt. split.
  - intros [H|H] rf' [= <-] Hh; [lia|done].
  - intros H. destruct (Z.leb_spec (rolling_finality_enforce_height (network n)) (ForkCalc.height block));
      [right; by apply H|left; lia].
Qed.

Lemma floor_gate t p :
  (0 <? saturating_sub t CHECKPOINT_INTERVAL) && (p <? saturating_sub t CHECKPOINT_INTERVAL) = false
  <-> t <= CHECKPOINT_INTERVAL \/ t - CHECKPOINT_INTERVAL <= p.
Proof. unfold saturating_sub. rewrite andb_false_iff, !Z.ltb_ge. lia. Qed.

(** All the gates of an accepted reorganisation, and nothing else. *)
Lemma evaluate_fork_accepts n block block_hash w p :
  evaluate_fork n block block_hash w = Ok (Some p) <->
  take_fork w (total_difficulty n) block_hash (tip_hash n) = true
  /\ ForkCalc.find_fork_point (chain n) block = Some p
  /\ is_ok (evaluate_reorg_acceptability (saturating_sub (ForkCalc.height block) p) w
              (total_difficulty n) (tip_height n) (max_reorg_depth_for (network n))) = true
  /\ finality_allows n block p
  /\ (tip_height n <= CHECKPOINT_INTERVAL \/ tip_height n - CHECKPOINT_INTERVAL <= p).
Proof.
  unfold evaluate_fork. destruct (take_fork _ _ _ _); cbn [negb]; [|split; [done|intros [[=] _]]].
  destruct (ForkCalc.find_fork_point _ _) as [q|]; cbn [ok_or rbind]; [|split; [done|intros (_ & [=] & _)]].
  rewrite <- finality_gate, <- floor_gate. split.
  - destruct (evaluate_reorg_acceptability _ _ _ _ _) as [[]|e] eqn:Ev; [|done].
    destruct (match rolling_finality n with Some _ => _ | None => _ end) eqn:Er; [done|].
    destruct (_ && _) eqn:Ef; [done|]. intros [= ->]. by rewrite Ev.
  - intros (_ & [= ->] & Hok & -> & ->).
    by destruct (evaluate_reorg_acceptability _ _ _ _ _) as [[]|e].
Qed.

(** ** The work of the fork block *)

Lemma fork_work_fits c block w :
  ForkCalc.calculate_fork_cumulative_work c block = Some w -> fits u128_max w.
Proof.
  assert (Hwork : forall b, fits u128_max (ForkCalc.work b)).
  { intros b. pose proof (ForkCalc.work_nonneg b). pose proof (ForkCalc.work_le b). unfold fits. lia. }
  unfold ForkCalc.calculate_fork_cumulative_work.
  apply (iter_inv _ (fun st => fits u128_max (snd st)) (fits u128_max)); [| |apply Hwork].
  - intros [[s x] tw] st' Hf. unfold ForkCalc.work_step. destruct (_ <? _); [done|].
    destruct (ForkCalc.get_block c x) as [b|]; [|done]. destruct (_ =? _); [done|]. intros [= <-].
    cbn in *. apply saturating_add_fits; auto.
  - intros [[s x] tw] a Hf. unfold ForkCalc.work_step. destruct (_ <? _); [by intros [= <-]|].
    destruct (ForkCalc.get_block c x) as [b|]; [|by intros [= <-]]. destruct (_ =? _); [|done].
    intros [= <-]. cbn in *. apply saturating_add_fits; [done|]. unfold fits. lia.
Qed.

(** The walk is bounded by the height of the block, so the evaluation ends. *)
Lemma add_fork_block_total n block block_hash :
  0 <= ForkCalc.height block -> ForkCalc.height block + 100 < u64_max ->
  exists r, add_fork_block n block block_hash = Some r.
Proof.
  intros H0 Hmax. unfold add_fork_block, ForkCalc.calculate_fork_cumulative_work.
  unfold saturating_add at 1. rewrite Z.min_r by lia. set (ms := ForkCalc.height block + 100) in *.
  destruct (iter_total (ForkCalc.work_step (chain n) ms) (fun st => Z.to_nat (ms - fst (fst st)))
    (fun st => 0 <= fst (fst st) <= ms)) with (fuel := S (Z.to_nat ms))
    (s := (0, ForkCalc.prev_hash block, ForkCalc.work block)) as [w Hw].
  - intros [[s x] tw] st' Hs. cbn [fst] in *. unfold ForkCalc.work_step.
    assert (saturating_add u64_max s 1 = s + 1) as -> by (unfold saturating_add; lia).
    destruct (Z.ltb_spec ms (s + 1)); [done|].
    destruct (ForkCalc.get_block (chain n) x) as [b|]; [|done]. destruct (_ =? _); [done|].
    intros [= <-]. cbn [fst]. lia.
  - cbn. lia.
  - cbn. lia.
  - unfold saturating_add. rewrite Z.min_r by lia. fold ms. rewrite Hw. cbn. eauto.
Qed.

(** The store holds one block of height zero, the first of the main chain. *)
Definition one_genesis (c : ForkCalc.Blockchain) : Prop :=
  forall x b, ForkCalc.get_block c x = Some b -> ForkCalc.height b = 0 -> ForkCalc.get_block_hash c 0 = Some x.

(** [anc] is the block where the branch of [fb] leaves the main chain. *)
Definition leaves_main (c : ForkCalc.Blockchain) (fb : ForkCalc.Block) (p anc : Z) : Prop :=
  exists l b, ForkCalc.lineage (ForkCalc.get_block c) (ForkCalc.prev_hash fb) l anc
    /\ Forall (ForkCalc.off_main c) l /\ ForkCalc.get_block c anc = Some b /\ ForkCalc.height b = p.

(** C19: Safety of a reorganisation the node performs: its branch has at least the work
    of the current chain, and a smaller tip hash when the work is equal; the walk
    back from the fork block passes blocks off the main chain only and ends at an ancestor
    at the fork point, which is on the main chain - if its height is zero, provided that
    the store holds no block of height zero but the genesis block; the fork point is not at
    or below the soft-final height once that rule is enforced; and the reorganisation is within the
    network's depth cap and does not reach below the finality floor. *)
Theorem reorg_safe n block block_hash p :
  fits u128_max (total_difficulty n) ->
  add_fork_block n block block_hash = Some (Ok (Some p)) ->
  (exists w, ForkCalc.calculate_fork_cumulative_work (chain n) block = Some w
    /\ (total_difficulty n < w \/ (w = total_difficulty n /\ block_hash < tip_hash n)))
  /\ (exists anc, leaves_main (chain n) block p anc
      /\ (p <> 0 \/ one_genesis (chain n) -> ForkCalc.get_block_hash (chain n) p = Some anc))
  /\ finality_allows n block p
  /\ ForkCalc.height block - p <= max_reorg_depth_for (network n)
  /\ (CHECKPOINT_INTERVAL < tip_height n -> tip_height n - CHECKPOINT_INTERVAL <= p).
Proof.
  intros Hd Hadd. unfold add_fork_block in Hadd.
  destruct (ForkCalc.calculate_fork_cumulative_work _ _) as [w|] eqn:Ew; [|done].
  cbn in Hadd. injection Hadd as Hev. apply fork_work_fits in Ew.
  apply evaluate_fork_accepts in Hev as (Ht & Hp & Hok & Hfin & Hfl).
  apply reorg_acceptable in Hok as [Hdepth _]; [|done..].
  apply take_fork_better in Ht. unfold better in Ht. unfold saturating_sub in Hdepth.
  split_and!; [by exists w| |done|lia|lia].
  pose proof (ForkCalc.find_fork_point_post (chain n) block) as Hpost. rewrite Hp in Hpost.
  destruct Hpost as (l & anc & b & Hl & Hoff & Hb & Hh & Hm). exists anc. split; [by exists l, b|].
  intros [Hne|Hg]; destruct Hm as [Hm|Hz]; try done. rewrite Hz. by apply (Hg anc b); [|lia].
Qed.

(** The finality floor decides before the testnet depth cap of 1000 does: on every
    network a branch that leaves the chain more than 144 blocks below the tip is
    refused as too deep, whatever its work, even where the depth cap and the work
    policy accept it. *)
Theorem floor_overrides_depth_cap n block block_hash w p :
  CHECKPOINT_INTERVAL < tip_height n ->
  ForkCalc.find_fork_point (chain n) block = Some p ->
  p < tip_height n - CHECKPOINT_INTERVAL ->
  take_fork w (total_difficulty n) block_hash (tip_hash n) = true ->
  exists d m, evaluate_fork n block block_hash w = Err (ReorgTooDeep d m).
Proof.
  intros Htip Hp Hdeep Ht. unfold evaluate_fork. rewrite Ht, Hp. cbn [negb ok_or rbind].
  destruct (evaluate_reorg_acceptability _ _ _ _ _) as [[]|e]; [|eauto].
  destruct (match rolling_finality n with Some _ => _ | None => _ end); [eauto|].
  destruct (_ && _) eqn:Ef; [eauto|]. apply floor_gate in Ef. lia.
Qed.

(** ** Witnesses, on the small chain of [ForkCalc] *)

Lemma reorg_acceptable_iff_witness :
  is_ok (evaluate_reorg_acceptability 50 401 100 2000 1000) = true
  /\ is_ok (evaluate_reorg_acceptability 50 400 100 2000 1000) = false.
Proof.
  split.
  - apply reorg_acceptable_iff; [unfold fits; lia|unfold fits; lia|].
    split; [lia|reflexivity].
  - reflexivity.
Defined.

Definition sample_node (th : Z) : Node :=
  mkNode ForkCalc.sample_chain Ledger.Testnet th 102 100 None.

(** A block at height two on top of the main block at height one. *)
Definition sibling : ForkCalc.Block := ForkCalc.mkBlock 2 101 260 ForkCalc.sample_target.

Lemma reorg_safe_witness :
  add_fork_block (sample_node 2) sibling 7 = Some (Ok (Some 1))
  /\ exists anc, leaves_main (chain (sample_node 2)) sibling 1 anc
       /\ (1 <> 0 \/ one_genesis (chain (sample_node 2)) -> ForkCalc.get_block_hash (chain (sample_node 2)) 1 = Some anc).
Proof.
  split; [vm_compute; reflexivity|].
  refine (proj1 (proj2 (reorg_safe (sample_node 2) sibling 7 1 _ _))).
  - unfold fits. cbn. lia.
  - vm_compute. reflexivity.
Defined.

(** A branch 629 deep that the testnet cap and the work policy accept. *)
Lemma floor_overrides_depth_cap_witness :
  let block := ForkCalc.mkBlock 629 202 900 ForkCalc.sample_target in
  is_ok (evaluate_reorg_acceptability 629 (2 ^ 60) 100 628 (max_reorg_depth_for Ledger.Testnet)) = true
  /\ exists d m, evaluate_fork (sample_node 628) block 7 (2 ^ 60) = Err (ReorgTooDeep d m).
Proof.
  split; [vm_compute; reflexivity|].
  apply (floor_overrides_depth_cap (sample_node 628)
           (ForkCalc.mkBlock 629 202 900 ForkCalc.sample_target) 7 (2 ^ 60) 0);
    vm_compute; reflexivity.
Defined.

End ForkChoice.
