(* ===== verification/Swap.v ===== *)
(** * Atomic swap state machine (src/crates/coincync-swap/src/protocol.rs, safety.rs)

    The CYNC/BTC swap as each party runs it: roles, states, transitions and the
    capability-gated transitions.  An update of the swap returns the new swap, or the
    error of the source with the swap unchanged.  The two parties are then put
    together with the two on-chain outputs they lock and spend, to state what the
    protocol gives: atomicity and settlement. *)

From Stdlib Require Import String.
From S2P Require Import Prelude.

Module Swap.
Local Open Scope string_scope.
Local Open Scope Z_scope.

Inductive Role := Alice | Bob.

Definition opposite (r : Role) : Role := match r with Alice => Bob | Bob => Alice end.

Inductive State :=
| Negotiated
| BobLocked
| AliceLocked
| SecretRevealed
| BtcRefunded
| Completed
| Refunded
| Aborted.

Definition is_terminal (s : State) : bool :=
  match s with Completed | Refunded | Aborted => true | _ => false end.

Inductive Transition :=
| AliceLocksCync
| BobLocksBtc
| AliceClaimsBtc
| BobClaimsCync
| AliceRefunds
| BobRefunds
| ObserveBobLocked
| ObserveAliceLocked
| ObserveSecretRevealed
| ObserveBtcRefunded
| ObserveCompleted
| Abort_.

#[export] Instance role_eq_dec : EqDecision Role.
Proof. solve_decision. Defined.
#[export] Instance state_eq_dec : EqDecision State.
Proof. solve_decision. Defined.
#[export] Instance transition_eq_dec : EqDecision Transition.
Proof. solve_decision. Defined.

Inductive Error :=
| InvalidState (msg : string)
| Verification (msg : string).

Record SwapParameters := mkParameters {
  cync_amount : Z;
  btc_amount_sats : Z;
  cync_timeout_blocks : Z;
  btc_timeout_blocks : Z;
  alice_cync_address : string;
  bob_btc_address : string;
  cync_network : string;
  btc_network : string }.

Definition CYNC_BLOCK_TIME_SECS : Z := 120.
Definition BTC_BLOCK_TIME_SECS : Z := 600.
Definition SAFETY_MARGIN_NUMERATOR : Z := 6.
Definition SAFETY_MARGIN_DENOMINATOR : Z := 5.

Definition cync_timeout_secs (p : SwapParameters) : Z :=
  saturating_mul u64_max (cync_timeout_blocks p) CYNC_BLOCK_TIME_SECS.

Definition btc_timeout_secs (p : SwapParameters) : Z :=
  saturating_mul u64_max (btc_timeout_blocks p) BTC_BLOCK_TIME_SECS.

Definition is_timeout_safe (p : SwapParameters) : bool :=
  let btc_secs := btc_timeout_secs p in
  let margin_secs := saturating_mul u64_max btc_secs SAFETY_MARGIN_NUMERATOR / SAFETY_MARGIN_DENOMINATOR in
  margin_secs <? cync_timeout_secs p.

Record Swap := mkSwap {
  id : string;
  role : Role;
  state : State;
  parameters : SwapParameters }.

Definition set_state (s : Swap) (st : State) : Swap := mkSwap (id s) (role s) st (parameters s).

Definition negotiate (id : string) (role : Role) (params : SwapParameters) : result Error Swap :=
  if negb (is_timeout_safe params)
  then Err (InvalidState "swap parameters violate timeout-safety: BTC timeout * margin >= CYNC timeout")
  else Ok (mkSwap id role Negotiated params).

Definition transition_error_message (t : Transition) (r : Role) (s : State) : string :=
  "transition not legal for this (role, state) pair".

(** The messages of a (transition, role, state) triple that [apply] refuses. *)
Definition illegal_message (t : Transition) (r : Role) (s : State) : string :=
  match r, s, t with
  | Alice, _, BobLocksBtc => "BobLocksBtc is Bob's transition; Alice cannot apply it"
  | Bob, _, AliceLocksCync => "AliceLocksCync is Alice's transition; Bob cannot apply it"
  | Bob, _, AliceClaimsBtc => "AliceClaimsBtc is Alice's transition; Bob cannot apply it"
  | Alice, _, BobClaimsCync => "BobClaimsCync is Bob's transition; Alice cannot apply it"
  | Alice, _, BobRefunds => "BobRefunds is Bob's transition; Alice cannot apply it"
  | Bob, _, AliceRefunds => "AliceRefunds is Alice's transition; Bob cannot apply it"
  | _, _, _ => transition_error_message t r s
  end.

Definition apply (s : Swap) (t : Transition) : result Error Swap :=
  if is_terminal (state s) then
    Err (InvalidState (match state s with
                       | Completed => "swap is Completed; no further transitions"
                       | Refunded => "swap is Refunded; no further transitions"
                       | _ => "swap is Aborted; no further transitions"
                       end))
  else
    match t with
    | AliceLocksCync =>
        Err (InvalidState "AliceLocksCync requires verified pre-CYNC-lock evidence; use apply_pre_cync_lock")
    | ObserveSecretRevealed | ObserveBtcRefunded =>
        Err (InvalidState "Bitcoin share-reveal observations require a verified final signature")
    | _ =>
        match t, role s, state s with
        | Abort_, _, Negotiated => Ok (set_state s Aborted)
        | AliceClaimsBtc, Alice, AliceLocked => Ok (set_state s SecretRevealed)
        | AliceRefunds, Alice, BtcRefunded => Ok (set_state s Refunded)
        | ObserveBobLocked, Alice, Negotiated => Ok (set_state s BobLocked)
        | BobLocksBtc, Bob, Negotiated => Ok (set_state s BobLocked)
        | BobClaimsCync, Bob, SecretRevealed => Ok (set_state s Completed)
        | BobRefunds, Bob, (BobLocked | AliceLocked) => Ok (set_state s Refunded)
        | ObserveAliceLocked, Bob, BobLocked => Ok (set_state s AliceLocked)
        | ObserveCompleted, Bob, SecretRevealed => Ok (set_state s Completed)
        | t, r, st => Err (InvalidState (illegal_message t r st))
        end
    end.

(** The capabilities of [safety.rs]: what the state machine reads of them. *)
Record VerifiedPreCyncLock := mkPreCyncLock { lock_swap_id : string }.
Inductive RevealedParty := RevealedAlice | RevealedBob.
Record VerifiedShareReveal := mkShareReveal { reveal_swap_id : string; party : RevealedParty }.

#[export] Instance revealed_party_eq_dec : EqDecision RevealedParty.
Proof. solve_decision. Defined.

Definition matches_swap (v : VerifiedPreCyncLock) (swap_id : string) : bool :=
  String.eqb (lock_swap_id v) swap_id.

Definition matches (v : VerifiedShareReveal) (swap_id : string) (p : RevealedParty) : bool :=
  String.eqb (reveal_swap_id v) swap_id && bool_decide (party v = p).

Definition apply_pre_cync_lock (s : Swap) (verified : VerifiedPreCyncLock) : result Error Swap :=
  if negb (bool_decide (role s = Alice)) || negb (bool_decide (state s = BobLocked))
  then Err (InvalidState "verified CYNC lock is legal only for Alice from BobLocked")
  else if negb (matches_swap verified (id s))
  then Err (Verification "pre-CYNC-lock capability belongs to a different swap")
  else Ok (set_state s AliceLocked).

Definition apply_verified_claim_reveal (s : Swap) (verified : VerifiedShareReveal) : result Error Swap :=
  if negb (bool_decide (role s = Bob)) || negb (bool_decide (state s = AliceLocked))
  then Err (InvalidState "verified claim reveal is legal only for Bob from AliceLocked")
  else if negb (matches verified (id s) RevealedAlice)
  then Err (Verification "claim reveal capability belongs to a different swap or share")
  else Ok (set_state s SecretRevealed).

Definition apply_verified_refund_reveal (s : Swap) (verified : VerifiedShareReveal) : result Error Swap :=
  if negb (bool_decide (role s = Alice))
     || negb (match state s with BobLocked | AliceLocked => true | _ => false end)
  then Err (InvalidState "verified refund reveal is legal only for Alice from BobLocked or AliceLocked")
  else if negb (matches verified (id s) RevealedBob)
  then Err (Verification "refund reveal capability belongs to a different swap or share")
  else Ok (set_state s (if decide (state s = BobLocked) then Refunded else BtcRefunded)).

Definition legal_transitions (s : Swap) : list Transition :=
  if is_terminal (state s) then []
  else
    (if decide (state s = Negotiated) then [Abort_] else [])
    ++ match role s, state s with
       | Alice, Negotiated => [ObserveBobLocked]
       | Alice, BobLocked => [AliceLocksCync; ObserveBtcRefunded]
       | Alice, AliceLocked => [AliceClaimsBtc; ObserveBtcRefunded]
       | Alice, BtcRefunded => [AliceRefunds]
       | Alice, SecretRevealed => []
       | Bob, Negotiated => [BobLocksBtc]
       | Bob, BobLocked => [ObserveAliceLocked; BobRefunds]
       | Bob, AliceLocked => [ObserveSecretRevealed; BobRefunds]
       | Bob, SecretRevealed => [BobClaimsCync]
       | _, _ => []
       end.

Definition is_completed (s : Swap) : bool := bool_decide (state s = Completed).

Definition swap_is_terminal (s : Swap) : bool := is_terminal (state s).

(** ** Timeouts *)

(** The timeout rule, with no saturation for any pair of 32-bit block counts: the
    parameters are safe exactly when the CYNC timeout has more than six times as many
    blocks as the Bitcoin one, which is the block-time ratio of five with the twenty
    percent margin. *)
Theorem timeout_safe_iff p :
  fits u32_max (cync_timeout_blocks p) -> fits u32_max (btc_timeout_blocks p) ->
  is_timeout_safe p = true <-> 6 * btc_timeout_blocks p < cync_timeout_blocks p.
Proof.
  unfold is_timeout_safe, btc_timeout_secs, cync_timeout_secs, saturating_mul, fits,
    CYNC_BLOCK_TIME_SECS, BTC_BLOCK_TIME_SECS, SAFETY_MARGIN_NUMERATOR, SAFETY_MARGIN_DENOMINATOR.
  intros Hc Hb. rewrite Z.ltb_lt, !Z.min_r by lia.
  Z.to_euclidean_division_equations. lia.
Qed.

(** ** One party *)

(** The call that performs a transition: the three gated ones need a capability of the
    swap, the others go through [apply]. *)
Definition perform (s : Swap) (t : Transition) : result Error Swap :=
  match t with
  | AliceLocksCync => apply_pre_cync_lock s (mkPreCyncLock (id s))
  | ObserveSecretRevealed => apply_verified_claim_reveal s (mkShareReveal (id s) RevealedAlice)
  | ObserveBtcRefunded => apply_verified_refund_reveal s (mkShareReveal (id s) RevealedBob)
  | t => apply s t
  end.

Lemma matches_own i p : matches (mkShareReveal i p) i p = true.
Proof. unfold matches. cbn. rewrite String.eqb_refl. by case_bool_decide. Qed.

(** [legal_transitions] is the state machine's own answer, but for one entry: a
    transition can be performed exactly when it is listed, or when it is Bob's
    [ObserveCompleted] after the secret is revealed, which the machine accepts and the
    list does not name. *)
Theorem legal_transitions_exact s t :
  is_ok (perform s t) = true <->
  In t (legal_transitions s)
  \/ (t = ObserveCompleted /\ role s = Bob /\ state s = SecretRevealed).
Proof.
  destruct s as [i r st p]. unfold perform, apply, apply_pre_cync_lock, apply_verified_claim_reveal,
    apply_verified_refund_reveal, matches_swap, legal_transitions; cbn [id role state parameters lock_swap_id].
  rewrite !matches_own, String.eqb_refl.
  destruct r, st, t; vm_compute; intuition congruence.
Qed.

(** ** The two parties and their outputs

    The state machines are the code's; the two chains are its environment, of which this is
    assumed: a party's broadcast succeeds when the output it creates does not exist yet or
    the output it spends is unspent (an output is spent at most once on either chain), each
    spending path is open only to the party it belongs to, and a party observes only what
    is on the chain. *)

Inductive BtcOutput := NoBtcLock | BtcLocked | BtcClaimed | BtcReturned.
Inductive CyncOutput := NoCyncLock | CyncLocked | CyncClaimed | CyncReturned.

Record World := mkWorld {
  alice : Swap;
  bob : Swap;
  btc : BtcOutput;
  cync : CyncOutput }.

(** A transition, the outputs it needs and the outputs after it, for each party. *)
Inductive chain_effect : Role -> Transition -> BtcOutput * CyncOutput -> BtcOutput * CyncOutput -> Prop :=
| eff_abort r b c : chain_effect r Abort_ (b, c) (b, c)
| eff_bob_locks c : chain_effect Bob BobLocksBtc (NoBtcLock, c) (BtcLocked, c)
| eff_alice_sees_lock b c : b <> NoBtcLock -> chain_effect Alice ObserveBobLocked (b, c) (b, c)
| eff_alice_locks b : chain_effect Alice AliceLocksCync (b, NoCyncLock) (b, CyncLocked)
| eff_bob_sees_lock b c : c <> NoCyncLock -> chain_effect Bob ObserveAliceLocked (b, c) (b, c)
| eff_alice_claims c : chain_effect Alice AliceClaimsBtc (BtcLocked, c) (BtcClaimed, c)
| eff_bob_sees_claim c : chain_effect Bob ObserveSecretRevealed (BtcClaimed, c) (BtcClaimed, c)
| eff_bob_claims b : chain_effect Bob BobClaimsCync (b, CyncLocked) (b, CyncClaimed)
| eff_bob_completes b : chain_effect Bob ObserveCompleted (b, CyncClaimed) (b, CyncClaimed)
| eff_bob_refunds c : chain_effect Bob BobRefunds (BtcLocked, c) (BtcReturned, c)
| eff_alice_sees_refund c : chain_effect Alice ObserveBtcRefunded (BtcReturned, c) (BtcReturned, c)
| eff_alice_sweeps b : chain_effect Alice AliceRefunds (b, CyncLocked) (b, CyncReturned).

Inductive joint_step : World -> World -> Prop :=
| alice_step w t a' b' c' :
    perform (alice w) t = Ok a' -> chain_effect Alice t (btc w, cync w) (b', c') ->
    joint_step w (mkWorld a' (bob w) b' c')
| bob_step w t s' b' c' :
    perform (bob w) t = Ok s' -> chain_effect Bob t (btc w, cync w) (b', c') ->
    joint_step w (mkWorld (alice w) s' b' c').

Inductive joint_run : World -> nat -> World -> Prop :=
| run_nil w : joint_run w 0 w
| run_snoc w n w1 w2 : joint_run w n w1 -> joint_step w1 w2 -> joint_run w (S n) w2.

(** Both parties have negotiated the swap and nothing is on either chain. *)
Definition initial (i : string) (p : SwapParameters) (w : World) : Prop :=
  negotiate i Alice p = Ok (alice w) /\ negotiate i Bob p = Ok (bob w)
  /\ btc w = NoBtcLock /\ cync w = NoCyncLock.

(** What the local states can be, by what is on the chains. *)
Definition consistent (a b : State) (o : BtcOutput) (c : CyncOutput) : bool :=
  match o, c with
  | NoBtcLock, NoCyncLock =>
      match a, b with (Negotiated | Aborted), (Negotiated | Aborted) => true | _, _ => false end
  | BtcLocked, NoCyncLock =>
      match a, b with (Negotiated | Aborted | BobLocked), BobLocked => true | _, _ => false end
  | BtcReturned, NoCyncLock =>
      match a, b with (Negotiated | Aborted | BobLocked | Refunded), Refunded => true | _, _ => false end
  | BtcLocked, CyncLocked =>
      match a, b with AliceLocked, (BobLocked | AliceLocked) => true | _, _ => false end
  | BtcReturned, CyncLocked =>
      match a, b with (AliceLocked | BtcRefunded), Refunded => true | _, _ => false end
  | BtcClaimed, CyncLocked =>
      match a, b with SecretRevealed, (BobLocked | AliceLocked | SecretRevealed) => true | _, _ => false end
  | BtcClaimed, CyncClaimed =>
      match a, b with SecretRevealed, Completed => true | _, _ => false end
  | BtcReturned, CyncReturned =>
      match a, b with Refunded, Refunded => true | _, _ => false end
  | _, _ => false
  end.

(** How far a party is; every transition goes up. *)
Definition rank (s : State) : nat :=
  match s with
  | Negotiated => 0
  | BobLocked => 1
  | AliceLocked => 2
  | SecretRevealed | BtcRefunded => 3
  | Completed | Refunded | Aborted => 4
  end.

Lemma perform_rank s t s' : perform s t = Ok s' ->
  (rank (state s) < rank (state s'))%nat /\ role s' = role s /\ id s' = id s.
Proof.
  destruct s as [i r st p]. unfold perform, apply, apply_pre_cync_lock, apply_verified_claim_reveal,
    apply_verified_refund_reveal, matches_swap; cbn [id role state parameters lock_swap_id].
  rewrite !matches_own, String.eqb_refl.
  destruct r, st, t; vm_compute; intros; inv_res; try discriminate; subst; vm_compute; auto with lia.
Qed.

(** What a transition does to the local state. *)
Definition next (r : Role) (st : State) (t : Transition) : option State :=
  match t, r, st with
  | Abort_, _, Negotiated => Some Aborted
  | ObserveBobLocked, Alice, Negotiated | BobLocksBtc, Bob, Negotiated => Some BobLocked
  | AliceLocksCync, Alice, BobLocked | ObserveAliceLocked, Bob, BobLocked => Some AliceLocked
  | AliceClaimsBtc, Alice, AliceLocked | ObserveSecretRevealed, Bob, AliceLocked => Some SecretRevealed
  | ObserveBtcRefunded, Alice, AliceLocked => Some BtcRefunded
  | ObserveBtcRefunded, Alice, BobLocked | AliceRefunds, Alice, BtcRefunded
  | BobRefunds, Bob, (BobLocked | AliceLocked) => Some Refunded
  | BobClaimsCync, Bob, SecretRevealed | ObserveCompleted, Bob, SecretRevealed => Some Completed
  | _, _, _ => None
  end.

Lemma perform_next s t :
  match next (role s) (state s) t with
  | Some st => perform s t = Ok (set_state s st)
  | None => is_ok (perform s t) = false
  end.
Proof.
  destruct s as [i r st p]. unfold perform, apply, apply_pre_cync_lock, apply_verified_claim_reveal,
    apply_verified_refund_reveal, matches_swap; cbn [id role state parameters lock_swap_id].
  rewrite !matches_own, String.eqb_refl. destruct r, st, t; vm_compute; reflexivity.
Qed.

Lemma perform_inv s t s' : perform s t = Ok s' -> next (role s) (state s) t = Some (state s').
Proof.
  intros E. pose proof (perform_next s t) as H. rewrite E in H.
  destruct (next _ _ _); [by injection H as ->|done].
Qed.

Definition world_ok (w : World) : Prop :=
  role (alice w) = Alice /\ role (bob w) = Bob
  /\ consistent (state (alice w)) (state (bob w)) (btc w) (cync w) = true.

Lemma step_ok w w' : world_ok w -> joint_step w w' -> world_ok w'
  /\ (rank (state (alice w)) + rank (state (bob w)) < rank (state (alice w')) + rank (state (bob w')))%nat.
Proof.
  intros (Ha & Hb & Hc) Hs. destruct Hs as [w t s' o c Hp He|w t s' o c Hp He].
  - destruct (perform_rank _ _ _ Hp) as (Hr & Hrole & _). apply perform_inv in Hp. rewrite Ha in *.
    unfold world_ok. cbn [alice bob btc cync]. split; [|lia]. split_and!; [done|done|].
    revert Hc Hp. generalize (state (alice w)) (state (bob w)) (state s').
    inversion He; subst; intros [] [] []; cbn; try done; destruct (btc w), (cync w); cbn in *; congruence.
  - destruct (perform_rank _ _ _ Hp) as (Hr & Hrole & _). apply perform_inv in Hp. rewrite Hb in *.
    unfold world_ok. cbn [alice bob btc cync]. split; [|lia]. split_and!; [done|done|].
    revert Hc Hp. generalize (state (alice w)) (state (bob w)) (state s').
    inversion He; subst; intros [] [] []; cbn; try done; destruct (btc w), (cync w); cbn in *; congruence.
Qed.

Lemma initial_ok i p w : initial i p w -> world_ok w /\ rank (state (alice w)) = 0%nat /\ rank (state (bob w)) = 0%nat.
Proof.
  intros (Ha & Hb & Ho & Hc). unfold negotiate in *. destruct (negb _); [done|].
  injection Ha as Ha. injection Hb as Hb. unfold world_ok. by rewrite <- Ha, <- Hb, Ho, Hc.
Qed.

Lemma run_ok i p w0 n w : initial i p w0 -> joint_run w0 n w ->
  world_ok w /\ (n <= rank (state (alice w)) + rank (state (bob w)))%nat.
Proof.
  intros H0 Hrun. induction Hrun as [w|w n w1 w2 Hrun IH Hs].
  - destruct (initial_ok _ _ _ H0) as (Hok & ? & ?). split; [done|lia].
  - destruct (IH H0) as [Hok Hn]. destruct (step_ok _ _ Hok Hs). split; [done|lia].
Qed.

(** C26: Atomicity of the swap, over every interleaving of the two parties, aborts and
    refunds included, on chains where each output is created and spent once and a party
    observes only what is on the chain: Bitcoin is locked before CYNC ever is; the CYNC
    output reaches Bob only if the Bitcoin reached Alice, and returns to Alice only if the
    Bitcoin returned to Bob; and a party's final state tells the truth: a Bob that is done
    has been paid and has paid, one that is refunded has his Bitcoin back and has not
    taken the CYNC, one that aborted never locked; an Alice that revealed the secret has
    the Bitcoin, one that is refunded has her CYNC back or never locked it while the
    Bitcoin went back to Bob, one that aborted never locked; and Alice is never done. *)
Theorem swap_atomic i p w0 n w :
  initial i p w0 -> joint_run w0 n w ->
  (cync w <> NoCyncLock -> btc w <> NoBtcLock)
  /\ (cync w = CyncClaimed -> btc w = BtcClaimed)
  /\ (cync w = CyncReturned -> btc w = BtcReturned)
  /\ (btc w = BtcClaimed -> cync w = CyncLocked \/ cync w = CyncClaimed)
  /\ (state (bob w) = Completed -> btc w = BtcClaimed /\ cync w = CyncClaimed)
  /\ (state (bob w) = Refunded -> btc w = BtcReturned /\ cync w <> CyncClaimed)
  /\ (state (bob w) = Aborted -> btc w = NoBtcLock /\ cync w = NoCyncLock)
  /\ (state (alice w) = SecretRevealed -> btc w = BtcClaimed)
  /\ (state (alice w) = Refunded -> btc w = BtcReturned /\ (cync w = NoCyncLock \/ cync w = CyncReturned))
  /\ (state (alice w) = Aborted -> cync w = NoCyncLock /\ btc w <> BtcClaimed)
  /\ state (alice w) <> Completed.
Proof.
  intros H0 Hrun. destruct (run_ok _ _ _ _ _ H0 Hrun) as [(_ & _ & Hc) _].
  destruct (btc w), (cync w), (state (alice w)), (state (bob w)); try discriminate Hc;
    split_and!; intuition congruence.
Qed.

(** Both outputs have reached an owner, or were never locked. *)
Definition settled (w : World) : bool :=
  match btc w, cync w with
  | NoBtcLock, NoCyncLock | BtcReturned, NoCyncLock | BtcClaimed, CyncClaimed
  | BtcReturned, CyncReturned => true
  | _, _ => false
  end.

Lemma alice_can w t st o c :
  role (alice w) = Alice -> next Alice (state (alice w)) t = Some st ->
  chain_effect Alice t (btc w, cync w) (o, c) -> exists w', joint_step w w'.
Proof.
  intros Hr Hn He. pose proof (perform_next (alice w) t) as Hp. rewrite Hr, Hn in Hp.
  eexists. by eapply alice_step.
Qed.

Lemma bob_can w t st o c :
  role (bob w) = Bob -> next Bob (state (bob w)) t = Some st ->
  chain_effect Bob t (btc w, cync w) (o, c) -> exists w', joint_step w w'.
Proof.
  intros Hr Hn He. pose proof (perform_next (bob w) t) as Hp. rewrite Hr, Hn in Hp.
  eexists. by eapply bob_step.
Qed.

Lemma unsettled_steps w : world_ok w -> settled w = false -> exists w', joint_step w w'.
Proof.
  intros (Ha & Hb & Hc) Hs. unfold settled in Hs.
  pose proof (alice_can w) as CA. pose proof (bob_can w) as CB.
  destruct (btc w), (cync w), (state (alice w)), (state (bob w)); try discriminate Hc; try discriminate Hs;
    first [ by (eapply (CB BobRefunds); [done|reflexivity|constructor])
          | by (eapply (CB ObserveSecretRevealed); [done|reflexivity|constructor])
          | by (eapply (CB ObserveAliceLocked); [done|reflexivity|by constructor])
          | by (eapply (CB BobClaimsCync); [done|reflexivity|constructor])
          | by (eapply (CA ObserveBtcRefunded); [done|reflexivity|constructor])
          | by (eapply (CA AliceRefunds); [done|reflexivity|constructor]) ].
Qed.

(** Every swap settles: a run has at most eight transitions of the two parties
    together, and when no party can move any more both outputs have reached an owner
    (or were never locked), so that no funds stay locked. *)
Theorem swap_settles i p w0 n w :
  initial i p w0 -> joint_run w0 n w ->
  (n <= 8)%nat /\ ((forall w', ~ joint_step w w') -> settled w = true).
Proof.
  intros H0 Hrun. destruct (run_ok _ _ _ _ _ H0 Hrun) as [Hok Hn]. split.
  - assert (forall s, (rank s <= 4)%nat) as Hr by (intros []; cbn; lia).
    pose proof (Hr (state (alice w))). pose proof (Hr (state (bob w))). lia.
  - intros Hstuck. destruct (settled w) eqn:E; [done|].
    destruct (unsettled_steps w Hok E) as [w' Hw']. by destruct (Hstuck w').
Qed.

(** ** Witnesses: the parameters of the repository's tests *)

Definition safe_params : SwapParameters :=
  mkParameters 100000000 1000000 720 100 "alice" "bob" "testnet" "testnet".

Lemma timeout_safe_iff_witness : is_timeout_safe safe_params = true.
Proof. apply timeout_safe_iff; unfold fits; cbn; lia. Defined.

Definition party_at (r : Role) (st : State) : Swap := mkSwap "swap" r st safe_params.

Definition sample_world (a b : State) (o : BtcOutput) (c : CyncOutput) : World :=
  mkWorld (party_at Alice a) (party_at Bob b) o c.

Lemma sample_alice t a a' b o c o' c' :
  perform (party_at Alice a) t = Ok (party_at Alice a') -> chain_effect Alice t (o, c) (o', c') ->
  joint_step (sample_world a b o c) (sample_world a' b o' c').
Proof. exact (alice_step (sample_world a b o c) t (party_at Alice a') o' c'). Qed.

Lemma sample_bob t a b b' o c o' c' :
  perform (party_at Bob b) t = Ok (party_at Bob b') -> chain_effect Bob t (o, c) (o', c') ->
  joint_step (sample_world a b o c) (sample_world a b' o' c').
Proof. exact (bob_step (sample_world a b o c) t (party_at Bob b') o' c'). Qed.

(** Alice locks after Bob's refund is already on the chain, and recovers her CYNC. *)
Lemma sample_run :
  joint_run (sample_world Negotiated Negotiated NoBtcLock NoCyncLock) 6
            (sample_world Refunded Refunded BtcReturned CyncReturned).
Proof.
  eapply run_snoc with (w1 := sample_world BtcRefunded Refunded BtcReturned CyncLocked);
    [|apply (sample_alice AliceRefunds); [reflexivity|constructor]].
  eapply run_snoc with (w1 := sample_world AliceLocked Refunded BtcReturned CyncLocked);
    [|apply (sample_alice ObserveBtcRefunded); [reflexivity|constructor]].
  eapply run_snoc with (w1 := sample_world BobLocked Refunded BtcReturned NoCyncLock);
    [|apply (sample_alice AliceLocksCync); [reflexivity|constructor]].
  eapply run_snoc with (w1 := sample_world BobLocked BobLocked BtcLocked NoCyncLock);
    [|apply (sample_bob BobRefunds); [reflexivity|constructor]].
  eapply run_snoc with (w1 := sample_world Negotiated BobLocked BtcLocked NoCyncLock);
    [|apply (sample_alice ObserveBobLocked); [reflexivity|by constructor]].
  eapply run_snoc with (w1 := sample_world Negotiated Negotiated NoBtcLock NoCyncLock);
    [constructor|apply (sample_bob BobLocksBtc); [reflexivity|constructor]].
Qed.

Lemma swap_atomic_witness :
  btc (sample_world Refunded Refunded BtcReturned CyncReturned) = BtcReturned.
Proof.
  refine (proj1 (proj2 (proj2 (swap_atomic "swap" safe_params
           (sample_world Negotiated Negotiated NoBtcLock NoCyncLock) 6 _ _ sample_run))) _).
  - repeat split.
  - reflexivity.
Defined.

Lemma swap_settles_witness : (6 <= 8)%nat.
Proof.
  apply (swap_settles "swap" safe_params (sample_world Negotiated Negotiated NoBtcLock NoCyncLock) 6
           (sample_world Refunded Refunded BtcReturned CyncReturned)).
  - repeat split.
  - apply sample_run.
Defined.

End Swap.
