(* ===== verification/Utxo.v ===== *)
(** * The UTXO set (src/src/storage/utxos.rs)

    The output set with its five indexes and the spent key images, the batches a block
    connects and disconnects with, and the security detail over the set.  Hashes, key
    images and stealth addresses are numbers; the on-disk output index is a finite map
    that may be absent. *)

From Stdlib Require Import String.
From stdpp Require Import gmap.
From S2P Require Import Prelude Security.

Module Utxo.

Record TxOutput := mkTxOutput {
  stealth_address : Z;
  commitment : Z;
  lock_height : option Z }.

Record Transaction := mkTransaction {
  tx_hash : Z;
  is_coinbase : bool;
  inputs : list Z;
  outputs_of : list TxOutput }.

Abbreviation OutputKey := (Z * Z)%type (only parsing).

Record OutputRef := mkOutputRef {
  ref_tx_hash : Z;
  ref_index : Z;
  output : TxOutput;
  height : Z;
  ref_is_coinbase : bool }.

Record LocatorOutput := mkLocator {
  public_key : Z;
  loc_commitment : Z;
  loc_height : Z;
  loc_is_coinbase : bool;
  loc_lock_height : option Z }.

Record OutputIndexEntry := mkIndexEntry {
  entry_commitment : Z;
  entry_height : Z;
  entry_is_coinbase : bool;
  entry_lock_height : option Z }.

Record UtxoSet := mkUtxoSet {
  outputs : gmap OutputKey OutputRef;
  key_images : gset Z;
  height_index : gmap Z (gset OutputKey);
  locator_index : gmap Z (gset OutputKey);
  locator_outputs : gmap OutputKey LocatorOutput;
  stealth_index : gmap Z OutputKey;
  output_index : gmap Z OutputIndexEntry;
  db : option (gmap Z OutputIndexEntry);
  total_outputs_ever : Z;
  reorg_disconnects_total : Z }.

Definition new : UtxoSet := mkUtxoSet ∅ ∅ ∅ ∅ ∅ ∅ ∅ None 0 0.

(** [index.entry(height).or_insert_with(BTreeSet::new).insert(key)] *)
Definition index_insert (ix : gmap Z (gset OutputKey)) (h : Z) (key : OutputKey)
  : gmap Z (gset OutputKey) :=
  <[h := {[key]} ∪ default ∅ (ix !! h)]> ix.

(** Remove the key from the bucket of its height, and the bucket when it is empty. *)
Definition index_remove (ix : gmap Z (gset OutputKey)) (h : Z) (key : OutputKey)
  : gmap Z (gset OutputKey) :=
  match ix !! h with
  | Some set => let set := set ∖ {[key]} in if decide (set = ∅) then delete h ix else <[h := set]> ix
  | None => ix
  end.

(** [map.entry(k).or_insert(v)] *)
Definition or_insert {V} (m : gmap Z V) (k : Z) (v : V) : gmap Z V :=
  match m !! k with Some _ => m | None => <[k := v]> m end.

Definition add_output_ext (s : UtxoSet) (tx_hash index : Z) (output : TxOutput) (height : Z)
    (is_coinbase : bool) : UtxoSet :=
  let key := (tx_hash, index) in
  let stealth_addr := stealth_address output in
  let output_ref := mkOutputRef tx_hash index output height is_coinbase in
  mkUtxoSet
    (<[key := output_ref]> (outputs s))
    (key_images s)
    (index_insert (height_index s) height key)
    (index_insert (locator_index s) height key)
    (<[key := mkLocator stealth_addr (commitment output) height is_coinbase (lock_height output)]>
       (locator_outputs s))
    (or_insert (stealth_index s) stealth_addr key)
    (or_insert (output_index s) stealth_addr
       (mkIndexEntry (commitment output) height is_coinbase (lock_height output)))
    (db s)
    (wrap u64_max (total_outputs_ever s + 1))
    (reorg_disconnects_total s).

Definition add_output (s : UtxoSet) (tx_hash index : Z) (output : TxOutput) (height : Z) : UtxoSet :=
  add_output_ext s tx_hash index output height false.

Definition set_key_images (s : UtxoSet) (ki : gset Z) : UtxoSet :=
  mkUtxoSet (outputs s) ki (height_index s) (locator_index s) (locator_outputs s) (stealth_index s)
    (output_index s) (db s) (total_outputs_ever s) (reorg_disconnects_total s).

Definition spend_output (s : UtxoSet) (tx_hash index key_image : Z) : UtxoSet * bool :=
  if decide (key_image ∈ key_images s) then (s, false)
  else
    let s := set_key_images s ({[key_image]} ∪ key_images s) in
    let key := (tx_hash, index) in
    match outputs s !! key with
    | Some output_ref =>
        let stealth_addr := stealth_address (output output_ref) in
        (mkUtxoSet (delete key (outputs s)) (key_images s)
           (index_remove (height_index s) (height output_ref) key)
           (locator_index s) (locator_outputs s)
           (if decide (stealth_index s !! stealth_addr = Some key)
            then delete stealth_addr (stealth_index s) else stealth_index s)
           (output_index s) (db s) (total_outputs_ever s) (reorg_disconnects_total s), true)
    | None => (s, false)
    end.

Definition mark_key_image_spent (s : UtxoSet) (key_image : Z) : UtxoSet * bool :=
  if decide (key_image ∈ key_images s) then (s, false)
  else (set_key_images s ({[key_image]} ∪ key_images s), true).

Definition contains_key_image (s : UtxoSet) (ki : Z) : bool := bool_decide (ki ∈ key_images s).

Definition get_output (s : UtxoSet) (tx_hash index : Z) : option OutputRef := outputs s !! (tx_hash, index).

Definition get_output_by_stealth (s : UtxoSet) (stealth_addr : Z) : option OutputRef :=
  key ← stealth_index s !! stealth_addr; outputs s !! key.

Definition get_output_index_entry (s : UtxoSet) (stealth_addr : Z) : option OutputIndexEntry :=
  match output_index s !! stealth_addr with
  | Some entry => Some entry
  | None => match db s with Some d => d !! stealth_addr | None => None end
  end.

Definition evict_old_outputs (s : UtxoSet) (current_height keep_depth : Z) : UtxoSet :=
  if current_height <=? keep_depth then s
  else
    let cutoff := current_height - keep_depth in
    mkUtxoSet (outputs s) (key_images s) (height_index s) (locator_index s) (locator_outputs s)
      (stealth_index s) (filter (fun ae => cutoff <= entry_height (snd ae)) (output_index s)) (db s)
      (total_outputs_ever s) (reorg_disconnects_total s).

Definition output_count (s : UtxoSet) : Z := Z.of_nat (size (outputs s)).

Definition spent_key_image_count (s : UtxoSet) : Z := Z.of_nat (size (key_images s)).

Definition remove_output (s : UtxoSet) (tx_hash index : Z) : UtxoSet * option OutputRef :=
  let key := (tx_hash, index) in
  let locator_output := locator_outputs s !! key in
  let locator_index' :=
    match locator_output with
    | Some o => index_remove (locator_index s) (loc_height o) key
    | None => locator_index s
    end in
  let output_ref := outputs s !! key in
  let height_index' :=
    match output_ref with
    | Some o => index_remove (height_index s) (height o) key
    | None => height_index s
    end in
  let stealth_addr :=
    match output_ref with
    | Some o => Some (stealth_address (output o))
    | None => match locator_output with Some o => Some (public_key o) | None => None end
    end in
  match stealth_addr with
  | Some stealth_addr =>
      let owned := bool_decide (stealth_index s !! stealth_addr = Some key) in
      (mkUtxoSet (delete key (outputs s)) (key_images s) height_index' locator_index'
         (delete key (locator_outputs s))
         (if owned then delete stealth_addr (stealth_index s) else stealth_index s)
         (if owned then delete stealth_addr (output_index s) else output_index s)
         (if owned then option_map (delete stealth_addr) (db s) else db s)
         (total_outputs_ever s)
         (saturating_add u64_max (reorg_disconnects_total s) 1), output_ref)
  | None =>
      (mkUtxoSet (delete key (outputs s)) (key_images s) height_index' locator_index'
         (delete key (locator_outputs s)) (stealth_index s) (output_index s) (db s)
         (total_outputs_ever s) (reorg_disconnects_total s), output_ref)
  end.

Definition remove_key_image (s : UtxoSet) (ki : Z) : UtxoSet * bool :=
  (set_key_images s (key_images s ∖ {[ki]}), bool_decide (ki ∈ key_images s)).

(** ** Batches *)

Record UtxoBatch := mkBatch {
  adds : list (Z * Z * TxOutput * Z * bool);
  batch_key_images : list Z;
  removes : list OutputKey;
  key_image_removals : list Z }.

Definition add_one (s : UtxoSet) (a : Z * Z * TxOutput * Z * bool) : UtxoSet :=
  let '(h, i, o, ht, cb) := a in add_output_ext s h i o ht cb.

(** A loop that counts the calls that report a change. *)
Definition counting {A} (f : UtxoSet -> A -> UtxoSet * bool) (l : list A) (sc : UtxoSet * Z) : UtxoSet * Z :=
  fold_left (fun sc a => let '(s, c) := sc in let '(s, b) := f s a in (s, if b then c + 1 else c)) l sc.

Definition apply_batch (s : UtxoSet) (batch : UtxoBatch) : UtxoSet * Z :=
  let s := fold_left add_one (adds batch) s in
  let count := Z.of_nat (length (adds batch)) in
  let sc := counting mark_key_image_spent (batch_key_images batch) (s, count) in
  let sc := counting (fun s k => let '(s, r) := remove_output s (fst k) (snd k) in
                                 (s, match r with Some _ => true | None => false end))
              (removes batch) sc in
  counting remove_key_image (key_image_removals batch) sc.

(** [for (idx, output) in tx.outputs.iter().enumerate()], with [idx as u8]. *)
Definition enumerate_u8 {A} (l : list A) : list (Z * A) :=
  imap (fun i o => (wrap u8_max (Z.of_nat i), o)) l.

Definition batch_from_block (block_height : Z) (transactions : list Transaction) : UtxoBatch :=
  mkBatch
    (flat_map (fun tx => map (fun io => (tx_hash tx, fst io, snd io, block_height, is_coinbase tx))
                           (enumerate_u8 (outputs_of tx))) transactions)
    (flat_map (fun tx => if is_coinbase tx then [] else inputs tx) transactions)
    [] [].

Definition batch_disconnect_block (transactions : list Transaction) : UtxoBatch :=
  mkBatch [] []
    (flat_map (fun tx => map (fun io => (tx_hash tx, fst io)) (enumerate_u8 (outputs_of tx))) transactions)
    (flat_map (fun tx => if is_coinbase tx then [] else inputs tx) transactions).

Definition connect (s : UtxoSet) (h : Z) (txs : list Transaction) : UtxoSet :=
  fst (apply_batch s (batch_from_block h txs)).

Definition disconnect (s : UtxoSet) (txs : list Transaction) : UtxoSet :=
  fst (apply_batch s (batch_disconnect_block txs)).

(** ** The security detail over the set *)

Definition utxo_count_violation (live ever : Z) : option string :=
  if ever <? live then Some "live-exceeds-ever"%string else None.

Definition utxo_spend_violation (spent ever : Z) : option string :=
  if ever <? spent then Some "spent-exceeds-ever"%string else None.

Definition DEFAULT_BLOAT_WARN : Z := 50000000.

Record UtxoSecurityDetail := mkUtxoDetail { utxos : UtxoSet; bloat_warn : Z }.

Definition utxo_detail_new (s : UtxoSet) : UtxoSecurityDetail := mkUtxoDetail s DEFAULT_BLOAT_WARN.

Definition utxo_sweep (d : UtxoSecurityDetail) : Security.SecurityReport :=
  let live := output_count (utxos d) in
  let ever := total_outputs_ever (utxos d) in
  let r := Security.clean in
  let r := match utxo_count_violation live ever with
           | Some code => Security.raise_consensus r "utxo-set" Security.Critical code
           | None => r
           end in
  let r := match utxo_spend_violation (spent_key_image_count (utxos d)) ever with
           | Some code => Security.raise_consensus r "utxo-set" Security.Critical code
           | None => r
           end in
  if bloat_warn d <? output_count (utxos d)
  then Security.raise_operational r "utxo-set" Security.Warning "utxo-bloat"
  else r.

#[export] Instance utxo_detail : Security.SecurityDetail UtxoSecurityDetail :=
  {| Security.label := fun _ => "utxo-set"%string; Security.sweep := utxo_sweep |}.

(** ** Height indexes

    [index_ok ix hs]: the buckets of [ix] are the keys of [hs] by their height, and no
    bucket is empty. *)

Definition index_ok (ix : gmap Z (gset OutputKey)) (hs : gmap OutputKey Z) : Prop :=
  forall h, match ix !! h with
            | Some B => B <> ∅ /\ forall k, k ∈ B <-> hs !! k = Some h
            | None => forall k, hs !! k <> Some h
            end.

Lemma index_ok_unique ix ix' hs : index_ok ix hs -> index_ok ix' hs -> ix = ix'.
Proof.
  intros H1 H2. apply map_eq. intros h. specialize (H1 h). specialize (H2 h).
  destruct (ix !! h) as [B|], (ix' !! h) as [B'|]; [| | |done].
  - f_equal. apply set_eq. intros k. rewrite (proj2 H1), (proj2 H2). done.
  - destruct H1 as [Hne H1]. exfalso. apply Hne, set_eq. intros k. rewrite H1. set_solver.
  - destruct H2 as [Hne H2]. exfalso. apply Hne, set_eq. intros k. rewrite H2. set_solver.
Qed.

Lemma index_insert_ok ix hs k h :
  index_ok ix hs -> hs !! k = None -> index_ok (index_insert ix h k) (<[k := h]> hs).
Proof.
  intros Hix Hk h'. specialize (Hix h'). unfold index_insert.
  destruct (decide (h' = h)) as [->|Hne].
  - rewrite lookup_insert_eq. split; [set_solver|]. intros k'.
    rewrite elem_of_union, elem_of_singleton, lookup_insert. case_decide as E.
    + subst. naive_solver.
    + destruct (ix !! h) as [B|]; cbn.
      * rewrite (proj2 Hix). naive_solver.
      * specialize (Hix k'). set_solver.
  - rewrite lookup_insert_ne by done. destruct (ix !! h') as [B|].
    + destruct Hix as [HS Hix]. split; [done|]. intros k'. rewrite Hix, lookup_insert.
      case_decide; subst; naive_solver.
    + intros k'. rewrite lookup_insert. case_decide; subst; naive_solver.
Qed.

Lemma index_remove_ok ix hs k h :
  index_ok ix hs -> hs !! k = Some h -> index_ok (index_remove ix h k) (delete k hs).
Proof.
  intros Hix Hk h'. unfold index_remove.
  pose proof (Hix h) as Hh. specialize (Hix h').
  destruct (ix !! h) as [B|] eqn:E; [|by destruct (Hh k)].
  destruct Hh as [HS Hh]. cbv zeta. destruct (decide (h' = h)) as [->|Hne].
  - destruct (decide _) as [He|He].
    + rewrite lookup_delete_eq. intros k'. rewrite lookup_delete. case_decide; [done|].
      intros Hk'. apply Hh in Hk'. set_solver.
    + rewrite lookup_insert_eq. split; [done|]. intros k'. rewrite lookup_delete.
      rewrite elem_of_difference, elem_of_singleton, Hh. case_decide; subst; naive_solver.
  - assert (Hsame : forall m, m = delete h ix \/ (exists B', m = <[h := B']> ix) -> m !! h' = ix !! h').
    { intros m [->|[B' ->]]; [by rewrite lookup_delete_ne|by rewrite lookup_insert_ne]. }
    rewrite Hsame by (destruct (decide _); eauto). destruct (ix !! h') as [B'|].
    + destruct Hix as [HS' Hix]. split; [done|]. intros k'. rewrite Hix, lookup_delete.
      case_decide; subst; naive_solver.
    + intros k'. rewrite lookup_delete. case_decide; [done|apply Hix].
Qed.

(** ** Well-formed sets *)

Definition heights (s : UtxoSet) : gmap OutputKey Z := height <$> outputs s.
Definition locator_heights (s : UtxoSet) : gmap OutputKey Z := loc_height <$> locator_outputs s.

(** The locator entry an output gets. *)
Definition locator_of (r : OutputRef) : LocatorOutput :=
  mkLocator (stealth_address (output r)) (commitment (output r)) (height r) (ref_is_coinbase r)
    (lock_height (output r)).

(** The invariant of the set on a ring-signature chain, where outputs leave it only
    when their block is disconnected. *)
Record well_formed (s : UtxoSet) : Prop := {
  wf_height : index_ok (height_index s) (heights s);
  wf_locator_index : index_ok (locator_index s) (locator_heights s);
  wf_locator : locator_outputs s = locator_of <$> outputs s;
  wf_stealth a k : stealth_index s !! a = Some k ->
    exists r, outputs s !! k = Some r /\ stealth_address (output r) = a;
  wf_indexed a : stealth_index s !! a = None <-> output_index s !! a = None }.

Lemma add_output_wf s th i o h cb :
  well_formed s -> outputs s !! (th, i) = None -> well_formed (add_output_ext s th i o h cb).
Proof.
  intros [H1 H2 H3 H4 H5] Hk.
  assert (Hl : locator_outputs s !! (th, i) = None) by (rewrite H3, lookup_fmap, Hk; done).
  split; unfold heights, locator_heights; cbn [add_output_ext outputs height_index locator_index
    locator_outputs stealth_index output_index].
  - rewrite fmap_insert. apply index_insert_ok; [done|]. by rewrite lookup_fmap, Hk.
  - rewrite fmap_insert. apply index_insert_ok; [done|]. by rewrite lookup_fmap, Hl.
  - by rewrite fmap_insert, H3.
  - intros a k. unfold or_insert. destruct (stealth_index s !! stealth_address o) eqn:E.
    + intros Ha. destruct (H4 a k Ha) as (r & Hr & ?). exists r. split; [|done].
      rewrite lookup_insert_ne; [done|congruence].
    + rewrite lookup_insert. case_decide; [intros [= <-]; subst; rewrite lookup_insert_eq; eauto|].
      intros Ha. destruct (H4 a k Ha) as (r & Hr & ?). exists r. split; [|done].
      rewrite lookup_insert_ne; [done|congruence].
  - intros a. unfold or_insert. pose proof (H5 (stealth_address o)) as H6.
    destruct (stealth_index s !! stealth_address o), (output_index s !! stealth_address o);
      try (apply H5); try (destruct H6; naive_solver).
    rewrite !lookup_insert. case_decide; [done|apply H5].
Qed.

(** ** A block's outputs, being added or removed

    [pending s ks t]: [t] is the set [s] with the outputs of the keys [ks] added. *)
Record pending (s : UtxoSet) (ks : gset OutputKey) (t : UtxoSet) : Prop := {
  pd_wf : well_formed t;
  pd_fresh k : k ∈ ks -> outputs s !! k = None;
  pd_same k : k ∉ ks -> outputs t !! k = outputs s !! k;
  pd_new k : k ∈ ks -> is_Some (outputs t !! k);
  pd_stealth a : stealth_index t !! a = stealth_index s !! a
    \/ (stealth_index s !! a = None /\ exists k, k ∈ ks /\ stealth_index t !! a = Some k);
  pd_index a : stealth_index t !! a = stealth_index s !! a -> output_index t !! a = output_index s !! a }.

Lemma pending_nil s : well_formed s -> pending s ∅ s.
Proof. intros Hs. split; try done; set_solver. Qed.

Lemma pending_add s ks t th i o h cb :
  pending s ks t -> outputs s !! (th, i) = None -> (th, i) ∉ ks ->
  pending s ({[(th, i)]} ∪ ks) (add_output_ext t th i o h cb).
Proof.
  intros [Hwf Hf Hs Hn Hst Hix] Hfresh Hnot.
  assert (Ht : outputs t !! (th, i) = None) by (by rewrite Hs).
  split; [by apply add_output_wf|..]; cbn [outputs stealth_index output_index add_output_ext].
  - intros k Hk. apply elem_of_union in Hk as [Hk|Hk]; [by apply elem_of_singleton in Hk as ->|auto].
  - intros k Hk. rewrite lookup_insert_ne by set_solver. apply Hs. set_solver.
  - intros k Hk. rewrite lookup_insert. case_decide; [eauto|]. apply Hn. set_solver.
  - intros a. unfold or_insert. pose proof (Hst (stealth_address o)) as Ho.
    destruct (stealth_index t !! stealth_address o) eqn:E.
    + destruct (Hst a) as [?|(? & k & ? & ?)]; [by left|right; split; [done|exists k; set_solver]].
    + rewrite lookup_insert. case_decide; cycle 1.
      { destruct (Hst a) as [?|(? & k & ? & ?)]; [by left|right; split; [done|exists k; set_solver]]. }
      subst a. right. split; [by destruct Ho as [?|[? _]]|]. exists (th, i). set_solver.
  - intros a. unfold or_insert. pose proof (wf_indexed _ Hwf (stealth_address o)) as Hi.
    destruct (stealth_index t !! stealth_address o) eqn:E.
    + destruct (output_index t !! stealth_address o) eqn:E'; [apply Hix|]. by specialize (proj2 Hi eq_refl).
    + destruct (output_index t !! stealth_address o) eqn:E'; [by specialize (proj1 Hi eq_refl)|].
      rewrite !lookup_insert. case_decide; [|apply Hix]. subst a.
      destruct (Hst (stealth_address o)) as [Heq|[Heq _]]; intros Hc; congruence.
Qed.

(** What removing a present output does. *)
Lemma remove_output_present s k r : outputs s !! k = Some r -> well_formed s ->
  let s' := fst (remove_output s (fst k) (snd k)) in
  let a := stealth_address (output r) in
  let owned := bool_decide (stealth_index s !! a = Some k) in
  outputs s' = delete k (outputs s)
  /\ locator_outputs s' = delete k (locator_outputs s)
  /\ height_index s' = index_remove (height_index s) (height r) k
  /\ locator_index s' = index_remove (locator_index s) (height r) k
  /\ stealth_index s' = (if owned then delete a (stealth_index s) else stealth_index s)
  /\ output_index s' = (if owned then delete a (output_index s) else output_index s)
  /\ reorg_disconnects_total s' = saturating_add u64_max (reorg_disconnects_total s) 1.
Proof.
  intros Hr Hwf. destruct k as [th i]. unfold remove_output. cbn [fst snd].
  rewrite (wf_locator _ Hwf), lookup_fmap, Hr. cbn [fmap option_fmap option_map fst].
  unfold remove_output. cbn. done.
Qed.

Lemma pending_remove s ks t k :
  well_formed s -> pending s ks t -> k ∈ ks ->
  pending s (ks ∖ {[k]}) (fst (remove_output t (fst k) (snd k))).
Proof.
  intros Hwfs [Hwf Hf Hs Hn Hst Hix] Hk. destruct (Hn k Hk) as [r Hr].
  destruct (remove_output_present t k r Hr Hwf) as (Eo & El & Eh & Eli & Es & Ei & _).
  set (t' := fst (remove_output t (fst k) (snd k))) in *. set (a0 := stealth_address (output r)) in *.
  pose proof (wf_stealth _ Hwf) as Hst'.
  assert (Howner : forall a, stealth_index t' !! a <> Some k).
  { intros a. rewrite Es. case_bool_decide as Hown.
    - rewrite lookup_delete. case_decide; [done|]. intros Ha.
      destruct (Hst' a k Ha) as (r' & Hr' & Haddr). unfold a0 in *. congruence.
    - intros Ha. destruct (Hst' a k Ha) as (r' & Hr' & Haddr). unfold a0 in *. congruence. }
  assert (Hsub : forall a k', stealth_index t' !! a = Some k' -> stealth_index t !! a = Some k').
  { intros a k'. rewrite Es. case_bool_decide; [|done]. rewrite lookup_delete. by case_decide. }
  split.
  - split.
    + unfold heights. rewrite Eo, Eh, fmap_delete. apply index_remove_ok; [apply (wf_height _ Hwf)|].
      by rewrite lookup_fmap, Hr.
    + unfold locator_heights. rewrite El, Eli, fmap_delete.
      apply index_remove_ok; [apply (wf_locator_index _ Hwf)|].
      by rewrite lookup_fmap, (wf_locator _ Hwf), lookup_fmap, Hr.
    + by rewrite El, Eo, (wf_locator _ Hwf), fmap_delete.
    + intros a k' Ha. destruct (Hst' a k' (Hsub _ _ Ha)) as (r' & Hr' & ?). exists r'. split; [|done].
      rewrite Eo, lookup_delete_ne; [done|]. intros ->. by destruct (Howner a).
    + intros a. rewrite Es, Ei. case_bool_decide; [|apply (wf_indexed _ Hwf)].
      rewrite !lookup_delete. case_decide; [done|apply (wf_indexed _ Hwf)].
  - intros k' Hk'. apply Hf. set_solver.
  - intros k' Hk'. rewrite Eo. destruct (decide (k = k')) as [<-|Hne].
    + by rewrite lookup_delete_eq, (Hf k Hk).
    + rewrite lookup_delete_ne by done. apply Hs. set_solver.
  - intros k' Hk'. rewrite Eo, lookup_delete_ne by set_solver. apply Hn. set_solver.
  - intros a. destruct (Hst a) as [Heq|(Hnone & k' & Hk' & Ha)].
    + left. rewrite <- Heq, Es. case_bool_decide as Hown; [|done]. rewrite lookup_delete.
      case_decide as E; [|done]. exfalso. subst a.
      rewrite Heq in Hown. destruct (wf_stealth _ Hwfs _ _ Hown) as (r' & Hr' & _).
      rewrite (Hf k Hk) in Hr'. done.
    + destruct (stealth_index t' !! a) as [k2|] eqn:E2; [|left; congruence].
      right. split; [done|]. exists k2. pose proof (Hsub _ _ E2). split; [|done].
      apply elem_of_difference. split; [congruence|]. intros Hk2. apply elem_of_singleton in Hk2 as ->.
      by destruct (Howner a).
  - intros a. rewrite Es, Ei. case_bool_decide as Hown; [|apply Hix]. rewrite !lookup_delete.
    case_decide as E; [|apply Hix]. intros Hnone. symmetry. by apply (wf_indexed _ Hwfs).
Qed.

(** The part of the set that the chain determines. *)
Definition core (s : UtxoSet) :=
  (outputs s, height_index s, locator_index s, locator_outputs s, stealth_index s, output_index s,
   key_images s).

Lemma pending_done s t :
  well_formed s -> pending s ∅ t -> key_images t = key_images s -> core t = core s.
Proof.
  intros Hs [Ht _ Hsame _ Hst Hix] Hki.
  assert (Eo : outputs t = outputs s) by (apply map_eq; intros; apply Hsame; set_solver).
  assert (El : locator_outputs t = locator_outputs s) by (by rewrite !wf_locator, Eo).
  assert (Es : stealth_index t = stealth_index s).
  { apply map_eq. intros a. destruct (Hst a) as [?|(_ & k & Hk & _)]; [done|set_solver]. }
  assert (Ei : output_index t = output_index s) by (apply map_eq; intros; apply Hix; by rewrite Es).
  unfold core. rewrite Hki, Ei, Es, El, Eo.
  rewrite (index_ok_unique (height_index t) (height_index s) (heights s)),
    (index_ok_unique (locator_index t) (locator_index s) (locator_heights s)); [done|..].
  - unfold locator_heights. rewrite <- El. apply (wf_locator_index _ Ht).
  - apply (wf_locator_index _ Hs).
  - unfold heights. rewrite <- Eo. apply (wf_height _ Ht).
  - apply (wf_height _ Hs).
Qed.

(** ** Batches as folds *)

Definition block_keys (txs : list Transaction) : list OutputKey := removes (batch_disconnect_block txs).
Definition block_images (txs : list Transaction) : list Z := key_image_removals (batch_disconnect_block txs).

(** The block's outputs are new to the set and distinct, and so are its key images new. *)
Definition block_fresh (s : UtxoSet) (txs : list Transaction) : Prop :=
  NoDup (block_keys txs)
  /\ (forall k, k ∈ block_keys txs -> outputs s !! k = None)
  /\ (forall ki, ki ∈ block_images txs -> ki ∉ key_images s).

Definition add_key (a : Z * Z * TxOutput * Z * bool) : OutputKey :=
  let '(h, i, _, _, _) := a in (h, i).

Definition remove_one (s : UtxoSet) (k : OutputKey) : UtxoSet := fst (remove_output s (fst k) (snd k)).

Lemma adds_keys h txs : map add_key (adds (batch_from_block h txs)) = block_keys txs.
Proof.
  unfold block_keys. cbn [adds removes batch_from_block batch_disconnect_block].
  induction txs as [|tx txs IH]; [done|]. cbn [flat_map].
  rewrite map_app, IH, map_map. done.
Qed.

Lemma counting_fst {A} (f : UtxoSet -> A -> UtxoSet * bool) l sc :
  fst (counting f l sc) = fold_left (fun s a => fst (f s a)) l (fst sc).
Proof.
  unfold counting. revert sc. induction l as [|a l IH]; intros [s c]; [done|]. cbn [fold_left].
  rewrite IH. cbn. by destruct (f s a).
Qed.

Lemma set_key_images_id s : set_key_images s (key_images s) = s.
Proof. by destruct s. Qed.

Lemma mark_all s l :
  fold_left (fun s a => fst (mark_key_image_spent s a)) l s
  = set_key_images s (key_images s ∪ list_to_set l).
Proof.
  revert s. induction l as [|a l IH]; intros s; cbn [fold_left list_to_set].
  - by rewrite union_empty_r_L, set_key_images_id.
  - rewrite IH. unfold mark_key_image_spent. destruct (decide _) as [Hin|]; cbn [fst].
    + f_equal. set_solver.
    + unfold set_key_images. cbn. f_equal. set_solver.
Qed.

Lemma unmark_all s l :
  fold_left (fun s a => fst (remove_key_image s a)) l s
  = set_key_images s (key_images s ∖ list_to_set l).
Proof.
  revert s. induction l as [|a l IH]; intros s; cbn [fold_left list_to_set].
  - by rewrite difference_empty_L, set_key_images_id.
  - rewrite IH. unfold remove_key_image, set_key_images. cbn. f_equal. set_solver.
Qed.

(** The four loops of [apply_batch], in order. *)
Lemma apply_batch_fst s b :
  fst (apply_batch s b) =
  let t := fold_left remove_one (removes b)
             (let t := fold_left add_one (adds b) s in
              set_key_images t (key_images t ∪ list_to_set (batch_key_images b))) in
  set_key_images t (key_images t ∖ list_to_set (key_image_removals b)).
Proof.
  unfold apply_batch. rewrite counting_fst, unmark_all, !counting_fst, mark_all. cbn [fst].
  cbv zeta. f_equal; [|f_equal; f_equal]; apply fold_left_ext; intros s' k; unfold remove_one;
    by destruct (remove_output s' (fst k) (snd k)).
Qed.

Lemma connect_eq s h txs :
  connect s h txs = let t := fold_left add_one (adds (batch_from_block h txs)) s in
                    set_key_images t (key_images t ∪ list_to_set (block_images txs)).
Proof.
  unfold connect. rewrite apply_batch_fst. cbn [removes key_image_removals batch_from_block fold_left].
  cbv zeta. cbn [list_to_set]. by rewrite difference_empty_L, set_key_images_id.
Qed.

Lemma disconnect_eq s txs :
  disconnect s txs = let t := fold_left remove_one (block_keys txs) s in
                     set_key_images t (key_images t ∖ list_to_set (block_images txs)).
Proof.
  unfold disconnect. rewrite apply_batch_fst. cbn [adds batch_key_images batch_disconnect_block fold_left].
  cbv zeta. cbn [list_to_set]. by rewrite union_empty_r_L, set_key_images_id.
Qed.

Lemma fold_adds s l : forall ks t,
  pending s ks t -> NoDup (map add_key l) ->
  (forall k, k ∈ map add_key l -> outputs s !! k = None /\ k ∉ ks) ->
  pending s (list_to_set (map add_key l) ∪ ks) (fold_left add_one l t)
  /\ key_images (fold_left add_one l t) = key_images t.
Proof.
  induction l as [|[[[[th i] o] h] cb] l IH]; intros ks t Hp Hnd Hfr; cbn [map fold_left list_to_set].
  - by rewrite union_empty_l_L.
  - cbn [map add_key] in *. apply list.NoDup_cons in Hnd as [Hni Hnd].
    destruct (Hfr (th, i)) as [Hf Hk]; [left|].
    pose proof (pending_add s ks t th i o h cb Hp Hf Hk) as Hp'.
    destruct (IH _ _ Hp' Hnd) as [Hq Hki].
    { intros k Hk'. destruct (Hfr k) as [? ?]; [by right|]. split; [done|]. set_solver. }
    split; [|exact Hki].
    replace ({[(th, i)]} ∪ list_to_set (map add_key l) ∪ ks)
      with (list_to_set (map add_key l) ∪ ({[(th, i)]} ∪ ks)) by set_solver. done.
Qed.

Lemma fold_removes s l : forall ks t,
  well_formed s -> pending s ks t -> NoDup l -> (forall k, k ∈ l -> k ∈ ks) ->
  pending s (ks ∖ list_to_set l) (fold_left remove_one l t)
  /\ key_images (fold_left remove_one l t) = key_images t.
Proof.
  induction l as [|k l IH]; intros ks t Hwf Hp Hnd Hin; cbn [fold_left list_to_set].
  - by rewrite difference_empty_L.
  - apply list.NoDup_cons in Hnd as [Hni Hnd].
    pose proof (pending_remove s ks t k Hwf Hp (Hin k ltac:(left))) as Hp'.
    destruct (IH _ _ Hwf Hp' Hnd) as [Hq Hki]; [set_solver|].
    replace (ks ∖ ({[k]} ∪ list_to_set l)) with (ks ∖ {[k]} ∖ list_to_set l) by set_solver.
    split; [done|]. etransitivity; [exact Hki|]. unfold remove_output.
    by destruct (outputs t !! _), (locator_outputs t !! _).
Qed.

Lemma pending_images s ks t K : pending s ks t -> pending s ks (set_key_images t K).
Proof. intros [[]]. split; try done. Qed.

Lemma connect_pending s h txs :
  well_formed s -> block_fresh s txs ->
  pending s (list_to_set (block_keys txs)) (connect s h txs)
  /\ key_images (connect s h txs) = key_images s ∪ list_to_set (block_images txs).
Proof.
  intros Hwf (Hnd & Hf & _). rewrite connect_eq. cbv zeta.
  destruct (fold_adds s (adds (batch_from_block h txs)) ∅ s) as [Hp Hki].
  - by apply pending_nil.
  - by rewrite adds_keys.
  - rewrite adds_keys. intros k Hk. split; [by apply Hf|set_solver].
  - rewrite adds_keys, union_empty_r_L in Hp. split; [by apply pending_images|]. cbn [key_images set_key_images]. by rewrite Hki.
Qed.

(** Disconnecting from any set whose core is that of the connected one. *)
Lemma pending_core s ks t t' : core t = core t' -> pending s ks t -> pending s ks t'.
Proof.
  destruct t, t'. unfold core. cbn. intros [= -> -> -> -> -> -> ->] [[]]. split; try done.
Qed.

Lemma disconnect_core s t txs :
  well_formed s -> block_fresh s txs ->
  pending s (list_to_set (block_keys txs)) t ->
  key_images t = key_images s ∪ list_to_set (block_images txs) ->
  core (disconnect t txs) = core s.
Proof.
  intros Hwf (Hnd & _ & Himg) Hp Hki. rewrite disconnect_eq. cbv zeta.
  destruct (fold_removes s (block_keys txs) _ _ Hwf Hp Hnd) as [Hq Hki']; [set_solver|].
  rewrite difference_diag_L in Hq.
  apply pending_done; [done|by apply pending_images|].
  cbn [key_images set_key_images]. rewrite Hki', Hki. set_solver.
Qed.

(** ** Counters *)

Lemma adds_counters l : forall s,
  0 <= total_outputs_ever s -> total_outputs_ever s + Z.of_nat (length l) <= u64_max ->
  total_outputs_ever (fold_left add_one l s) = total_outputs_ever s + Z.of_nat (length l)
  /\ reorg_disconnects_total (fold_left add_one l s) = reorg_disconnects_total s.
Proof.
  induction l as [|[[[[th i] o] h] cb] l IH]; intros s H0 Hle; cbn [fold_left length] in *; [split; [lia|done]|].
  destruct (IH (add_one s (th, i, o, h, cb))) as [E1 E2];
    cbn [add_one add_output_ext total_outputs_ever reorg_disconnects_total] in *;
    rewrite wrap_small in * by (unfold fits; lia); lia || (split; lia).
Qed.

Lemma removes_counters s l : forall ks t,
  well_formed s -> pending s ks t -> NoDup l -> (forall k, k ∈ l -> k ∈ ks) ->
  reorg_disconnects_total t + Z.of_nat (length l) <= u64_max ->
  reorg_disconnects_total (fold_left remove_one l t) = reorg_disconnects_total t + Z.of_nat (length l)
  /\ total_outputs_ever (fold_left remove_one l t) = total_outputs_ever t.
Proof.
  induction l as [|k l IH]; intros ks t Hwf Hp Hnd Hin Hle; cbn [fold_left length] in *; [split; [lia|done]|].
  apply list.NoDup_cons in Hnd as [Hni Hnd]. assert (Hk : k ∈ ks) by (apply Hin; left).
  destruct (pd_new _ _ _ Hp k Hk) as [r Hr].
  destruct (remove_output_present t k r Hr (pd_wf _ _ _ Hp)) as (_ & _ & _ & _ & _ & _ & Ec).
  fold (remove_one t k) in Ec. unfold saturating_add in Ec. rewrite Z.min_r in Ec by lia.
  assert (Et : total_outputs_ever (remove_one t k) = total_outputs_ever t).
  { unfold remove_one, remove_output. by destruct (outputs t !! _), (locator_outputs t !! _). }
  destruct (IH (ks ∖ {[k]}) (remove_one t k) Hwf (pending_remove _ _ _ _ Hwf Hp Hk) Hnd); [set_solver|lia|].
  split; lia.
Qed.

(** ** Chains of blocks

    A chain is the list of its blocks (height and transactions), newest first. *)

Abbreviation Chain := (list (Z * list Transaction)) (only parsing).

Fixpoint replay (c : Chain) : UtxoSet :=
  match c with
  | [] => new
  | (h, txs) :: c => connect (replay c) h txs
  end.

Fixpoint chain_fresh (c : Chain) : Prop :=
  match c with
  | [] => True
  | (h, txs) :: c => block_fresh (replay c) txs /\ chain_fresh c
  end.

Definition live_outputs (c : Chain) : Z :=
  foldr (fun b n => Z.of_nat (length (block_keys (snd b))) + n) 0 c.

(** The set [s] after connecting and disconnecting blocks, with [c] the blocks that are
    connected now and [n] the number of outputs ever connected.  A block is connected when
    its output keys are distinct and new to the set and its key images unspent: the validator
    checks the key images, but not that the outputs of a coinbase are new
    ([ActiveChain.replayed_coinbase_accepted]). *)
Inductive history : UtxoSet -> Chain -> Z -> Prop :=
| history_new : history new [] 0
| history_connect s c n h txs :
    history s c n -> block_fresh s txs ->
    history (connect s h txs) ((h, txs) :: c) (n + Z.of_nat (length (block_keys txs)))
| history_disconnect s c n h txs :
    history s ((h, txs) :: c) n -> history (disconnect s txs) c n.

Lemma new_wf : well_formed new.
Proof.
  split; cbn; try done; try (intros h; rewrite lookup_empty; intros k; unfold heights, locator_heights;
    cbn; rewrite fmap_empty, lookup_empty; done).
Qed.

Lemma replay_wf c : chain_fresh c -> well_formed (replay c).
Proof.
  induction c as [|[h txs] c IH]; [intros; apply new_wf|]. intros [Hf Hc].
  apply (pd_wf _ _ _ (proj1 (connect_pending _ h txs (IH Hc) Hf))).
Qed.

Lemma add_one_core s s' a : core s = core s' -> core (add_one s a) = core (add_one s' a).
Proof.
  destruct s, s', a as [[[[th i] o] h] cb]. unfold core. cbn. by intros [= -> -> -> -> -> -> ->].
Qed.

Lemma connect_core s s' h txs : core s = core s' -> core (connect s h txs) = core (connect s' h txs).
Proof.
  intros Hc. rewrite !connect_eq. cbv zeta.
  assert (Hf : forall l s s', core s = core s' -> core (fold_left add_one l s) = core (fold_left add_one l s')).
  { induction l as [|a l IH]; intros u u' Hu; [done|]. cbn [fold_left]. by apply IH, add_one_core. }
  specialize (Hf (adds (batch_from_block h txs)) _ _ Hc).
  destruct (fold_left add_one _ s), (fold_left add_one _ s'). unfold core in *. cbn in *.
  by injection Hf as -> -> -> -> -> -> ->.
Qed.

Lemma block_fresh_core s s' txs : core s = core s' -> block_fresh s txs -> block_fresh s' txs.
Proof. destruct s, s'. unfold core, block_fresh. cbn. by intros [= -> _ _ _ _ _ ->]. Qed.

Lemma connect_length h txs : length (adds (batch_from_block h txs)) = length (block_keys txs).
Proof. rewrite <- (adds_keys h). by rewrite length_map. Qed.

Lemma live_outputs_nonneg c : 0 <= live_outputs c.
Proof. unfold live_outputs. induction c as [|b c IH]; cbn [foldr]; lia. Qed.

(** The state of a history: that of replaying the surviving chain, with the counters. *)
Lemma history_state s c n : history s c n -> n <= u64_max ->
  chain_fresh c /\ core s = core (replay c)
  /\ 0 <= live_outputs c <= n /\ total_outputs_ever s = n
  /\ reorg_disconnects_total s = n - live_outputs c.
Proof.
  induction 1 as [|s c n h txs Hh IH Hf|s c n h txs Hh IH]; intros Hn.
  - cbn. split_and!; done || lia.
  - destruct IH as (Hfr & Hc & Hl & Ht & Hr); [lia|].
    assert (Hf' : block_fresh (replay c) txs) by (by eapply block_fresh_core).
    cbn [chain_fresh replay live_outputs foldr snd]. fold (live_outputs c).
    destruct (adds_counters (adds (batch_from_block h txs)) s) as [E1 E2];
      [lia|rewrite connect_length; lia|]. rewrite connect_length in E1.
    split_and!; [done|done|by apply connect_core|lia|lia|..];
      rewrite connect_eq; cbn [total_outputs_ever reorg_disconnects_total set_key_images]; lia.
  - destruct (IH Hn) as ([Hf Hfr] & Hc & Hl & Ht & Hr). cbn [replay] in Hc.
    cbn [live_outputs foldr snd] in *. fold (live_outputs c) in *.
    pose proof (replay_wf c Hfr) as Hwf.
    destruct (connect_pending (replay c) h txs Hwf Hf) as [Hp Hki].
    apply (pending_core _ _ _ s) in Hp; [|done].
    assert (Hki' : key_images s = key_images (replay c) ∪ list_to_set (block_images txs)).
    { rewrite <- Hki. unfold core in Hc. by injection Hc. }
    pose proof (live_outputs_nonneg c).
    destruct (removes_counters (replay c) (block_keys txs) _ s Hwf Hp) as [E1 E2];
      [apply Hf|set_solver|lia|].
    split_and!; [done|by apply disconnect_core|lia|lia|..];
      rewrite disconnect_eq; cbn [total_outputs_ever reorg_disconnects_total set_key_images]; lia.
Qed.

(** ** Theorems *)

(** Connecting and disconnecting a block are exact inverses on a well-formed set:
    the outputs, all five indexes and the key images are what they were before, for a
    block whose outputs and key images are new; and a well-formed set stays one after
    connecting such a block. *)
Theorem connect_disconnect_inverse s h txs :
  well_formed s -> block_fresh s txs ->
  well_formed (connect s h txs) /\ core (disconnect (connect s h txs) txs) = core s.
Proof.
  intros Hwf Hf. destruct (connect_pending s h txs Hwf Hf) as [Hp Hki].
  split; [apply (pd_wf _ _ _ Hp)|]. by apply disconnect_core.
Qed.

(** C15: The set does not depend on the path that led to the chain.  After any sequence of
    connects and disconnects in which each connected block brings output keys that are
    distinct and new to the set and key images that are unspent (the validator ensures it of
    the key images, not of the outputs of a coinbase), and fewer than 2^64 outputs were
    connected, the set is well formed and equal, in its outputs, indexes and key images, to
    the one obtained by connecting the surviving blocks from genesis; and the outputs ever
    created less those disconnected are exactly the outputs of the surviving blocks. *)
Theorem utxo_history_independent s c n :
  history s c n -> n <= u64_max ->
  core s = core (replay c) /\ well_formed (replay c)
  /\ total_outputs_ever s - reorg_disconnects_total s = live_outputs c.
Proof.
  intros Hh Hn. destruct (history_state s c n Hh Hn) as (Hf & Hc & _ & Ht & Hr).
  split_and!; [done|by apply replay_wf|lia].
Qed.

(** Eviction of old entries of the in-memory output index breaks both.  When the
    entry of a stealth address was evicted, an output that reuses the address takes its
    place, although the older output still owns the address in the stealth index; and
    disconnecting the block that reused the address leaves the entry of the removed
    output behind, which ring-member validation then finds. *)
Theorem eviction_leaves_stale_entry s k h th o :
  stealth_index s !! stealth_address o = Some k -> output_index s !! stealth_address o = None ->
  k <> (th, 0) ->
  let young := mkTransaction th true [] [o] in
  let entry := mkIndexEntry (commitment o) h true (lock_height o) in
  let t := connect s h [young] in
  stealth_index t !! stealth_address o = Some k
  /\ output_index t !! stealth_address o = Some entry
  /\ outputs (disconnect t [young]) !! (th, 0) = None
  /\ get_output_index_entry (disconnect t [young]) (stealth_address o) = Some entry.
Proof.
  intros Hs Hi Hk young entry t.
  assert (Et : t = set_key_images (add_output_ext s th 0 o h true) (key_images s ∪ ∅)).
  { unfold t. rewrite connect_eq. done. }
  assert (Es : stealth_index t !! stealth_address o = Some k).
  { rewrite Et. cbn. unfold or_insert. by rewrite !Hs. }
  assert (Ei : output_index t !! stealth_address o = Some entry).
  { rewrite Et. cbn. unfold or_insert. by rewrite Hi, lookup_insert_eq. }
  assert (Eo : outputs t !! (th, 0) = Some (mkOutputRef th 0 o h true)).
  { rewrite Et. cbn. by rewrite lookup_insert_eq. }
  rewrite disconnect_eq. cbn [block_keys batch_disconnect_block removes flat_map map enumerate_u8 imap
    outputs_of young app fold_left fst snd tx_hash].
  change (wrap 255 (Z.of_nat 0)) with 0. unfold remove_one, remove_output. cbn [fst snd].
  rewrite Eo. cbn [output stealth_address]. rewrite bool_decide_eq_false_2 by congruence.
  unfold get_output_index_entry. cbn [fst outputs output_index set_key_images].
  rewrite Ei, lookup_delete_eq. done.
Qed.

(** ** Witnesses *)

Definition sample_block : list Transaction :=
  [mkTransaction 1 true [] [mkTxOutput 7 70 None];
   mkTransaction 2 false [50; 51] [mkTxOutput 8 80 None; mkTxOutput 7 81 (Some 9)]].

Lemma sample_fresh : block_fresh new sample_block.
Proof.
  split_and!.
  - apply (bool_decide_unpack _). vm_compute. exact I.
  - intros k _. apply lookup_empty.
  - intros ki _. cbn. set_solver.
Qed.

Lemma connect_disconnect_inverse_witness :
  core (disconnect (connect new 5 sample_block) sample_block) = core new.
Proof. apply (connect_disconnect_inverse new 5 sample_block new_wf sample_fresh). Defined.

Lemma utxo_history_independent_witness :
  core (disconnect (connect new 5 sample_block) sample_block) = core (replay []).
Proof.
  apply (utxo_history_independent _ [] 3); [|lia].
  apply (history_disconnect _ [] 3 5). apply (history_connect new [] 0 5 sample_block).
  - apply history_new.
  - apply sample_fresh.
Defined.

Lemma eviction_leaves_stale_entry_witness :
  let old := mkTransaction 1 true [] [mkTxOutput 7 70 None] in
  let young := mkTransaction 2 true [] [mkTxOutput 7 71 None] in
  let s := evict_old_outputs (connect new 5 [old]) 1100 1000 in
  get_output_index_entry (disconnect (connect s 1101 [young]) [young]) 7
  = Some (mkIndexEntry 71 1101 true None).
Proof.
  cbv zeta.
  apply (eviction_leaves_stale_entry
           (evict_old_outputs (connect new 5 [mkTransaction 1 true [] [mkTxOutput 7 70 None]]) 1100 1000)
           (1, 0) 1101 2 (mkTxOutput 7 71 None)).
  - vm_compute. reflexivity.
  - vm_compute. reflexivity.
  - congruence.
Defined.

End Utxo.
