(* ===== verification/Breakers.v ===== *)
(** * Circuit breakers (src/src/breaker_recovery.rs, src/src/fuse.rs, src/src/*_breaker.rs)

    The detectors of the seven surfaces, the recovery state machine that they drive, the
    fuse box that holds one machine per surface, the live feeds that turn node state into
    observations, and the arm switch at the seam of [Blockchain::process_block].  The
    process-wide statics of the feeds are the fields of [Node].  Thresholds read from the
    environment are the fields of [Config]. *)

From Stdlib Require Import String.
From stdpp Require Import gmap list.
From S2P Require Import Prelude Constants Emission Ledger Utxo.

(** [if cond { f.push(fault) }] for each pair, in order. *)
Definition collect {F} (l : list (bool * F)) : list F := map snd (List.filter fst l).

Inductive BreakerPolicy := Observe | Armed.

Definition default_policy : BreakerPolicy := Observe.

(** What the surfaces share: a pure detector and a decision that carries the faults. *)
Class Breaker (Obs Fault Action : Type) := {
  detect : Obs -> list Fault;
  allow : Action;
  isolate : list Fault -> Action;
  isolates : Action -> bool }.

Definition evaluate {Obs Fault Action} `{Breaker Obs Fault Action} (policy : BreakerPolicy) (o : Obs) : Action :=
  let faults := detect o in
  match policy with
  | Observe => allow
  | Armed => match faults with [] => allow | _ => isolate faults end
  end.

(** ** The surfaces *)

Module IntegritySurface.
Inductive Fault := NonMonotonicOutputs | AvailabilityUnderflow | LiveSetExceedsEver | UtxoRootMismatch.

Record Observation := mkObs {
  prev_total_outputs_ever : Z;
  total_outputs_ever : Z;
  reorg_disconnects_total : Z;
  output_count : Z;
  computed_utxo_root : Z;
  committed_utxo_root : option Z }.

Definition detect (o : Observation) : list Fault :=
  collect [(total_outputs_ever o <? prev_total_outputs_ever o, NonMonotonicOutputs);
           (total_outputs_ever o <? reorg_disconnects_total o, AvailabilityUnderflow);
           (total_outputs_ever o <? output_count o, LiveSetExceedsEver);
           (match committed_utxo_root o with Some c => negb (c =? computed_utxo_root o) | None => false end,
            UtxoRootMismatch)].

Inductive Action := AllowBlock | RejectBlock (faults : list Fault).
Definition rejects_block (a : Action) : bool := match a with RejectBlock _ => true | AllowBlock => false end.

#[global] Instance breaker : Breaker Observation Fault Action :=
  {| Breakers.detect := detect; allow := AllowBlock; isolate := RejectBlock; isolates := rejects_block |}.
End IntegritySurface.

Module SupplySurface.
Inductive Fault := OverEmission | CirculatingMismatch | NegativeSupply | SupplyCeilingExceeded | CommittedSupplyMismatch.

Record Observation := mkObs {
  coinbase_payout : Z;
  allowed_emission : Z;
  block_fees : Z;
  total_emitted : Z;
  total_burned : Z;
  circulating : Z;
  max_supply : Z;
  committed_supply : option Z }.

(** [i128::saturating_add] *)
Definition saturating_add_i128 (a b : Z) : Z := clamp i128_min i128_max (a + b).

(** The plain subtraction of [i128]. *)
Definition sub_i128 (a b : Z) : Z := (a - b + 2 ^ 127) mod 2 ^ 128 - 2 ^ 127.

Definition detect (o : Observation) : list Fault :=
  collect [(saturating_add_i128 (allowed_emission o) (block_fees o) <? coinbase_payout o, OverEmission);
           (negb (sub_i128 (total_emitted o) (total_burned o) =? circulating o), CirculatingMismatch);
           (circulating o <? 0, NegativeSupply);
           (max_supply o <? circulating o, SupplyCeilingExceeded);
           (match committed_supply o with Some c => negb (c =? circulating o) | None => false end,
            CommittedSupplyMismatch)].

Inductive Action := AllowBlock | RejectBlock (faults : list Fault).
Definition rejects_block (a : Action) : bool := match a with RejectBlock _ => true | AllowBlock => false end.

#[global] Instance breaker : Breaker Observation Fault Action :=
  {| Breakers.detect := detect; allow := AllowBlock; isolate := RejectBlock; isolates := rejects_block |}.
End SupplySurface.

Module ShieldedSurface.
Inductive Fault := PoolNegative | InflationCeiling | BalanceMismatch | DoubleSpend | ProofInvalid | SupplyDivergence.

Record Observation := mkObs {
  pool_value : Z;
  total_shielded_in : Z;
  expected_from_balance : Z;
  duplicate_linking_tag : bool;
  proof_verify_failed : bool;
  supply_divergence : bool }.

Definition detect (o : Observation) : list Fault :=
  collect [(pool_value o <? 0, PoolNegative);
           (total_shielded_in o <? pool_value o, InflationCeiling);
           (negb (pool_value o =? expected_from_balance o), BalanceMismatch);
           (duplicate_linking_tag o, DoubleSpend);
           (proof_verify_failed o, ProofInvalid);
           (supply_divergence o, SupplyDivergence)].

Inductive Action := AllowShielded | IsolateShielded (faults : list Fault).
Definition rejects_shielded (a : Action) : bool := match a with IsolateShielded _ => true | AllowShielded => false end.
Definition rejects_transparent (a : Action) : bool := false.

#[global] Instance breaker : Breaker Observation Fault Action :=
  {| Breakers.detect := detect; allow := AllowShielded; isolate := IsolateShielded; isolates := rejects_shielded |}.
End ShieldedSurface.

Module MempoolSurface.
Inductive Fault := CountExhaustion | ByteExhaustion | ArrivalFlood | PerPeerFlood | DustSpam.

Record Observation := mkObs {
  pending_count : Z;
  max_count : Z;
  pending_bytes : Z;
  max_bytes : Z;
  arrivals_this_interval : Z;
  max_arrivals_per_interval : Z;
  worst_peer_arrivals : Z;
  max_per_peer_arrivals : Z;
  dust_arrivals : Z;
  max_dust : Z }.

Definition detect (o : Observation) : list Fault :=
  collect [(max_count o <? pending_count o, CountExhaustion);
           (max_bytes o <? pending_bytes o, ByteExhaustion);
           (max_arrivals_per_interval o <? arrivals_this_interval o, ArrivalFlood);
           (max_per_peer_arrivals o <? worst_peer_arrivals o, PerPeerFlood);
           (max_dust o <? dust_arrivals o, DustSpam)].

Inductive Action := AdmitNormally | ThrottleAdmission (faults : list Fault).
Definition throttles_admission (a : Action) : bool :=
  match a with ThrottleAdmission _ => true | AdmitNormally => false end.
Definition halts_mining (a : Action) : bool := false.

#[global] Instance breaker : Breaker Observation Fault Action :=
  {| Breakers.detect := detect; allow := AdmitNormally; isolate := ThrottleAdmission; isolates := throttles_admission |}.
End MempoolSurface.

Module P2pSurface.
Inductive Fault := EclipseRisk | PhantomIbdTarget | PerIpFlood | SyncStall | HandshakeStarvation.

Record Observation := mkObs {
  total_peers : Z;
  min_peers : Z;
  distinct_netgroups : Z;
  min_netgroups : Z;
  worst_ip_conns : Z;
  max_conns_per_ip : Z;
  ibd_target_from_banned : bool;
  blocks_since_progress : Z;
  max_stall_blocks : Z;
  handshake_queue_depth : Z;
  handshake_completions : Z }.

Definition detect (o : Observation) : list Fault :=
  collect [((total_peers o <? min_peers o) || (distinct_netgroups o <? min_netgroups o), EclipseRisk);
           (ibd_target_from_banned o, PhantomIbdTarget);
           (max_conns_per_ip o <? worst_ip_conns o, PerIpFlood);
           (max_stall_blocks o <? blocks_since_progress o, SyncStall);
           ((0 <? handshake_queue_depth o) && (handshake_completions o =? 0), HandshakeStarvation)].

Inductive Action := KeepPeers | QuarantinePeers (faults : list Fault).
Definition quarantines_peers (a : Action) : bool := match a with QuarantinePeers _ => true | KeepPeers => false end.
Definition affects_consensus (a : Action) : bool := false.

#[global] Instance breaker : Breaker Observation Fault Action :=
  {| Breakers.detect := detect; allow := KeepPeers; isolate := QuarantinePeers; isolates := quarantines_peers |}.
End P2pSurface.

Module RpcSurface.
Inductive Fault :=
  RequestFlood | PerClientFlood | ExpensiveMethodAbuse | ConcurrencyExhaustion | OversizePayload | UnauthProbe.

Record Observation := mkObs {
  requests_this_interval : Z;
  max_requests_per_interval : Z;
  worst_client_requests : Z;
  max_per_client_requests : Z;
  expensive_calls : Z;
  max_expensive_calls : Z;
  in_flight : Z;
  max_in_flight : Z;
  max_body_bytes_seen : Z;
  max_body_bytes : Z;
  unauth_sensitive_attempts : Z }.

Definition detect (o : Observation) : list Fault :=
  collect [(max_requests_per_interval o <? requests_this_interval o, RequestFlood);
           (max_per_client_requests o <? worst_client_requests o, PerClientFlood);
           (max_expensive_calls o <? expensive_calls o, ExpensiveMethodAbuse);
           (max_in_flight o <? in_flight o, ConcurrencyExhaustion);
           (max_body_bytes o <? max_body_bytes_seen o, OversizePayload);
           (0 <? unauth_sensitive_attempts o, UnauthProbe)].

Inductive Action := ServeNormally | ThrottleRpc (faults : list Fault).
Definition throttles_rpc (a : Action) : bool := match a with ThrottleRpc _ => true | ServeNormally => false end.
Definition affects_chain (a : Action) : bool := false.

#[global] Instance breaker : Breaker Observation Fault Action :=
  {| Breakers.detect := detect; allow := ServeNormally; isolate := ThrottleRpc; isolates := throttles_rpc |}.
End RpcSurface.

Module ReorgSurface.
Inductive Fault := DeepReorg | BelowFinalized | ReorgChurn | WorkAnomaly.

Record Observation := mkObs {
  reorg_depth : Z;
  max_safe_depth : Z;
  fork_point_height : Z;
  finalized_height : Z;
  reorgs_in_window : Z;
  max_reorgs_in_window : Z;
  incoming_work_ratio_pct : Z;
  max_work_ratio_pct : Z }.

Definition detect (o : Observation) : list Fault :=
  collect [(max_safe_depth o <? reorg_depth o, DeepReorg);
           (fork_point_height o <=? finalized_height o, BelowFinalized);
           (max_reorgs_in_window o <? reorgs_in_window o, ReorgChurn);
           (max_work_ratio_pct o <? incoming_work_ratio_pct o, WorkAnomaly)].

Inductive Action := AcceptReorg | RejectReorg (faults : list Fault).
Definition rejects_reorg (a : Action) : bool := match a with RejectReorg _ => true | AcceptReorg => false end.

#[global] Instance breaker : Breaker Observation Fault Action :=
  {| Breakers.detect := detect; allow := AcceptReorg; isolate := RejectReorg; isolates := rejects_reorg |}.
End ReorgSurface.

(** ** The decision of every surface *)

Class LawfulBreaker Obs Fault Action `{Breaker Obs Fault Action} := {
  allow_passes : isolates allow = false;
  isolate_stops faults : isolates (isolate faults) = true }.

#[export] Instance integrity_lawful : LawfulBreaker IntegritySurface.Observation IntegritySurface.Fault IntegritySurface.Action.
Proof. by split. Qed.
#[export] Instance supply_lawful : LawfulBreaker SupplySurface.Observation SupplySurface.Fault SupplySurface.Action.
Proof. by split. Qed.
#[export] Instance shielded_lawful : LawfulBreaker ShieldedSurface.Observation ShieldedSurface.Fault ShieldedSurface.Action.
Proof. by split. Qed.
#[export] Instance mempool_lawful : LawfulBreaker MempoolSurface.Observation MempoolSurface.Fault MempoolSurface.Action.
Proof. by split. Qed.
#[export] Instance p2p_lawful : LawfulBreaker P2pSurface.Observation P2pSurface.Fault P2pSurface.Action.
Proof. by split. Qed.
#[export] Instance rpc_lawful : LawfulBreaker RpcSurface.Observation RpcSurface.Fault RpcSurface.Action.
Proof. by split. Qed.
#[export] Instance reorg_lawful : LawfulBreaker ReorgSurface.Observation ReorgSurface.Fault ReorgSurface.Action.
Proof. by split. Qed.

(** Every surface fails closed when armed, and only then. *)
Lemma evaluate_fail_closed {Obs Fault Action} `{LawfulBreaker Obs Fault Action} p o :
  isolates (evaluate p o) = true <-> p = Armed /\ detect o <> [].
Proof.
  unfold evaluate. destruct p; [rewrite allow_passes; naive_solver|].
  destruct (detect o) as [|f l]; [rewrite allow_passes|rewrite isolate_stops]; naive_solver.
Qed.

(** ** Recovery *)

Module Fuse.

Inductive RecoveryPolicy := AutoReset (heal_streak : Z) | Latch.

Inductive BreakerState := Closed | Open | HalfOpen.

#[export] Instance BreakerState_eq_dec : EqDecision BreakerState.
Proof. solve_decision. Defined.

Record RecoveryBreaker := mkBreaker { state : BreakerState; policy : RecoveryPolicy; heal_count : Z }.

Definition new_breaker (p : RecoveryPolicy) : RecoveryBreaker := mkBreaker Closed p 0.

Definition is_isolating (b : RecoveryBreaker) : bool := match state b with Closed => false | _ => true end.

Definition observe (b : RecoveryBreaker) (faulty : bool) : RecoveryBreaker :=
  if faulty then mkBreaker Open (policy b) 0
  else
    match state b with
    | Closed => b
    | Open =>
        match policy b with
        | Latch => b
        | AutoReset heal_streak =>
            let heal_count := saturating_add u32_max (heal_count b) 1 in
            mkBreaker (if Z.max heal_streak 1 <=? heal_count then HalfOpen else Open) (policy b) heal_count
        end
    | HalfOpen => mkBreaker Closed (policy b) 0
    end.

Definition rearm_breaker (b : RecoveryBreaker) : RecoveryBreaker := mkBreaker Closed (policy b) 0.

Inductive BreakerSurface := Shielded | Supply | Mempool | P2p | Rpc | Reorg | BlockIntegrity.

#[export] Instance BreakerSurface_eq_dec : EqDecision BreakerSurface.
Proof. solve_decision. Defined.

Definition ALL : list BreakerSurface := [Shielded; Supply; Mempool; P2p; Rpc; Reorg; BlockIntegrity].

Definition surface_index (s : BreakerSurface) : nat :=
  match s with Shielded => 0 | Supply => 1 | Mempool => 2 | P2p => 3 | Rpc => 4 | Reorg => 5 | BlockIntegrity => 6 end.

#[export] Instance BreakerSurface_countable : Countable BreakerSurface :=
  inj_countable surface_index (fun i => ALL !! i) ltac:(by intros []).

Definition DEFAULT_HEAL_STREAK : Z := 3.

Definition recommended_recovery (s : BreakerSurface) : RecoveryPolicy :=
  match s with
  | Shielded | Supply | BlockIntegrity => Latch
  | Mempool | P2p | Rpc | Reorg => AutoReset DEFAULT_HEAL_STREAK
  end.

Definition for_surface (s : BreakerSurface) : RecoveryBreaker := new_breaker (recommended_recovery s).

(** ** The fuse box *)

(** The labels are for the log; a fault is its own label here. *)
Record FaultReport (F : Type) := mkReport { faulty : bool; faults : list F }.
Arguments mkReport {F}.
Arguments faulty {F}.
Arguments faults {F}.

Definition healthy {F} : FaultReport F := mkReport false [].
Definition from_labels {F} (labels : list F) : FaultReport F :=
  mkReport (match labels with [] => false | _ => true end) labels.

Inductive FuseSignal := PeerConnected | PeerDisconnected | TxArrived | WindowTick.

Record FuseBox := mkBox {
  breakers : gmap BreakerSurface RecoveryBreaker;
  peer_count : Z;
  tx_arrivals : Z }.

Definition empty_box : FuseBox := mkBox ∅ 0 0.

Definition install (s : BreakerSurface) (b : FuseBox) : FuseBox :=
  mkBox (<[s := for_surface s]> (breakers b)) (peer_count b) (tx_arrivals b).

Definition install_all (b : FuseBox) : FuseBox := fold_left (fun b s => install s b) ALL b.

Definition isolating (s : BreakerSurface) (b : FuseBox) : bool :=
  match breakers b !! s with Some r => is_isolating r | None => false end.

Definition box_state (s : BreakerSurface) (b : FuseBox) : option BreakerState := state <$> breakers b !! s.

(** [sort_by_key] on the debug name. *)
Definition by_name : list BreakerSurface := [BlockIntegrity; Mempool; P2p; Reorg; Rpc; Shielded; Supply].

Definition snapshot (b : FuseBox) : list (BreakerSurface * BreakerState) :=
  omap (fun s => pair s <$> box_state s b) by_name.

Definition rearm (s : BreakerSurface) (b : FuseBox) : FuseBox :=
  match breakers b !! s with
  | Some r => mkBox (<[s := rearm_breaker r]> (breakers b)) (peer_count b) (tx_arrivals b)
  | None => b
  end.

Definition observe_fault {F} (s : BreakerSurface) (report : FaultReport F) (b : FuseBox) : FuseBox :=
  let r := match breakers b !! s with Some r => r | None => for_surface s end in
  mkBox (<[s := observe r (faulty report)]> (breakers b)) (peer_count b) (tx_arrivals b).

(** Thresholds from the environment, with their defaults in the source. *)
Record Config := mkConfig {
  FUSE_MIN_PEERS : Z;
  FUSE_MAX_ARRIVALS : Z;
  MEMPOOL_MAX_COUNT : Z;
  MEMPOOL_MAX_BYTES : Z;
  MEMPOOL_MAX_ARRIVALS : Z;
  MEMPOOL_WINDOW_MS : Z;
  P2P_MIN_PEERS : Z;
  P2P_MIN_NETGROUPS : Z;
  P2P_MAX_CONNS_PER_IP : Z;
  REORG_MAX_WORK_RATIO_PCT : Z;
  RPC_INTERVAL_SECS : Z;
  RPC_MAX_REQUESTS : Z;
  RPC_MAX_BODY_BYTES : Z }.

Definition default_config : Config :=
  mkConfig 3 10000 50000 300000000 1000000 1000 3 2 2 u32_max 10 10000 (10 * 1024 * 1024).

Section Feeds.
Context (cfg : Config).

Definition feed_p2p (b : FuseBox) : FuseBox :=
  let obs := P2pSurface.mkObs (peer_count b) (FUSE_MIN_PEERS cfg) (peer_count b) 0 0 u64_max false 0 u64_max 0 1 in
  observe_fault P2p (from_labels (P2pSurface.detect obs)) b.

Definition feed_mempool_arrivals (b : FuseBox) : FuseBox :=
  let obs := MempoolSurface.mkObs 0 u64_max 0 u64_max (tx_arrivals b) (FUSE_MAX_ARRIVALS cfg) 0 u32_max 0 u32_max in
  observe_fault Mempool (from_labels (MempoolSurface.detect obs)) b.

Definition observe_signal (signal : FuseSignal) (b : FuseBox) : FuseBox :=
  match signal with
  | PeerConnected => feed_p2p (mkBox (breakers b) (wrap u64_max (peer_count b + 1)) (tx_arrivals b))
  | PeerDisconnected => feed_p2p (mkBox (breakers b) (saturating_sub (peer_count b) 1) (tx_arrivals b))
  | TxArrived => mkBox (breakers b) (peer_count b) (saturating_add u32_max (tx_arrivals b) 1)
  | WindowTick => let b := feed_mempool_arrivals b in mkBox (breakers b) (peer_count b) 0
  end.

(** ** Live feeds *)

Record Window := mkWindow { start : Z; requests : Z; max_body : Z }.

(** The statics of the process: the shared box and the state local to the feeds. *)
Record Node := mkNode {
  box : FuseBox;
  PREV_EVER : Z;
  ARRIVALS : Z;
  WINDOW_START_MS : Z;
  WINDOW : option Window }.

Definition boot : Node := mkNode (install_all empty_box) u64_max 0 0 None.

Definition set_box (f : FuseBox -> FuseBox) (nd : Node) : Node :=
  mkNode (f (box nd)) (PREV_EVER nd) (ARRIVALS nd) (WINDOW_START_MS nd) (WINDOW nd).

Definition integrity_on_block_connected (total_outputs_ever reorg_disconnects_total output_count : Z) (nd : Node) : Node :=
  let prev := PREV_EVER nd in
  let prev_total_outputs_ever := if prev =? u64_max then total_outputs_ever else prev in
  let obs := IntegritySurface.mkObs prev_total_outputs_ever total_outputs_ever reorg_disconnects_total output_count 0 None in
  let nd := mkNode (box nd) (Z.max prev_total_outputs_ever total_outputs_ever) (ARRIVALS nd) (WINDOW_START_MS nd) (WINDOW nd) in
  set_box (observe_fault BlockIntegrity (from_labels (IntegritySurface.detect obs))) nd.

Definition integrity_reset (nd : Node) : Node :=
  set_box (install BlockIntegrity) (mkNode (box nd) u64_max (ARRIVALS nd) (WINDOW_START_MS nd) (WINDOW nd)).

(** The counters, of type [u128], are read as [i128]. *)
Definition as_i128 (x : Z) : Z := (x + 2 ^ 127) mod 2 ^ 128 - 2 ^ 127.

Definition supply_observation (total_supply total_burned height : Z) : SupplySurface.Observation :=
  let circulating := SupplySurface.sub_i128 (as_i128 total_supply) (as_i128 total_burned) in
  let max_supply := as_i128 (Emission.Supply.cumulative_emission height) in
  SupplySurface.mkObs 0 0 0 (as_i128 total_supply) (as_i128 total_burned) circulating max_supply None.

Definition supply_on_block_connected (total_supply total_burned height : Z) (nd : Node) : Node :=
  set_box (observe_fault Supply (from_labels (SupplySurface.detect (supply_observation total_supply total_burned height)))) nd.

Definition shielded_on_block_connected (pool_value : Z) (nd : Node) : Node :=
  let obs := ShieldedSurface.mkObs pool_value (Z.max pool_value 0) pool_value false false false in
  set_box (observe_fault Shielded (from_labels (ShieldedSurface.detect obs))) nd.

Definition mempool_on_admission (now pending_count pending_bytes : Z) (nd : Node) : Node :=
  let start := WINDOW_START_MS nd in
  let roll := (start =? 0) || (MEMPOOL_WINDOW_MS cfg <=? saturating_sub now start) in
  let start := if roll then now else start in
  let count := if roll then 0 else ARRIVALS nd in
  let arrivals := saturating_add u32_max count 1 in
  let obs := MempoolSurface.mkObs pending_count (MEMPOOL_MAX_COUNT cfg) pending_bytes (MEMPOOL_MAX_BYTES cfg)
               arrivals (MEMPOOL_MAX_ARRIVALS cfg) 0 u32_max 0 u32_max in
  let nd := mkNode (box nd) (PREV_EVER nd) (wrap u32_max (count + 1)) start (WINDOW nd) in
  set_box (observe_fault Mempool (from_labels (MempoolSurface.detect obs))) nd.

Definition mempool_reset (nd : Node) : Node :=
  set_box (install Mempool) (mkNode (box nd) (PREV_EVER nd) 0 0 (WINDOW nd)).

(** [now] in seconds of the monotonic clock. *)
Definition rpc_on_request (now body_bytes : Z) (nd : Node) : Node :=
  let w := match WINDOW nd with Some w => w | None => mkWindow now 0 0 end in
  let w := if RPC_INTERVAL_SECS cfg <=? now - start w then mkWindow now 0 0 else w in
  let w := mkWindow (start w) (saturating_add u32_max (requests w) 1) (Z.max (max_body w) body_bytes) in
  let obs := RpcSurface.mkObs (requests w) (RPC_MAX_REQUESTS cfg) 0 u32_max 0 u32_max 0 u64_max
               (max_body w) (RPC_MAX_BODY_BYTES cfg) 0 in
  let nd := mkNode (box nd) (PREV_EVER nd) (ARRIVALS nd) (WINDOW_START_MS nd) (Some w) in
  set_box (observe_fault Rpc (from_labels (RpcSurface.detect obs))) nd.

Definition work_ratio_pct (incoming active : Z) : Z :=
  if active =? 0 then 100
  else Z.min (saturating_mul u128_max incoming 100 / active) u32_max.

Definition on_reorg (reorg_depth max_safe_depth fork_point_height finalized_height incoming_work active_work : Z)
    (nd : Node) : Node :=
  let obs := ReorgSurface.mkObs reorg_depth max_safe_depth fork_point_height finalized_height 0 u32_max
               (work_ratio_pct incoming_work active_work) (REORG_MAX_WORK_RATIO_PCT cfg) in
  set_box (observe_fault Reorg (from_labels (ReorgSurface.detect obs))) nd.

(** An address by its integer value. *)
Inductive IpAddr := V4 (bits : Z) | V6 (bits : Z).

#[export] Instance IpAddr_eq_dec : EqDecision IpAddr.
Proof. solve_decision. Defined.

#[export] Instance IpAddr_countable : Countable IpAddr :=
  inj_countable' (fun a => match a with V4 b => inl b | V6 b => inr b end)
    (fun s => match s with inl b => V4 b | inr b => V6 b end) ltac:(by intros []).

(** Octets and segments, most significant first. *)
Definition octet (bits i : Z) : Z := Z.land (Z.shiftr bits (8 * (3 - i))) 255.
Definition segment (bits i : Z) : Z := Z.land (Z.shiftr bits (16 * (7 - i))) 65535.

Definition netgroup (a : IpAddr) : Z :=
  match a with
  | V4 b => Z.lor (Z.shiftl (octet b 0) 8) (octet b 1)
  | V6 b => Z.lor (Z.lor (Z.shiftl 1 40) (Z.shiftl (segment b 0) 16)) (segment b 1)
  end.

Definition per_ip (connected : list IpAddr) : gmap IpAddr Z :=
  fold_left (fun m a => <[a := default 0 (m !! a) + 1]> m) connected ∅.

Definition observe_from_addrs (connected : list IpAddr) (nd : Node) : Node :=
  let groups : gset Z := list_to_set (map netgroup connected) in
  let obs := P2pSurface.mkObs (Z.of_nat (length connected)) (P2P_MIN_PEERS cfg)
               (Z.of_nat (size groups)) (P2P_MIN_NETGROUPS cfg)
               (map_fold (fun _ c acc => Z.max c acc) 0 (per_ip connected)) (P2P_MAX_CONNS_PER_IP cfg)
               false 0 u64_max 0 1 in
  set_box (observe_fault P2p (from_labels (P2pSurface.detect obs))) nd.

(** ** The arm switch *)

Definition default_arm_height (s : BreakerSurface) : Z := u64_max.

Definition fail_closed_due (current_height arm_height : Z) (isolating : bool) : bool :=
  negb (arm_height =? u64_max) && (arm_height <=? current_height) && isolating.

Definition enforce_trips (s : BreakerSurface) (current_height arm_height : Z) (nd : Node) : bool :=
  fail_closed_due current_height arm_height (isolating s (box nd)).

Inductive BlockStatus := Accepted | AcceptedFork | AcceptedReorg | AlreadyKnown | Orphan | Invalid.

Definition connected (st : BlockStatus) : bool :=
  match st with Accepted | AcceptedFork | AcceptedReorg => true | _ => false end.

(** What [process_block] reads of the chain after [add_block] returned. *)
Record PostApply := mkPost {
  total_outputs_ever : Z;
  reorg_disconnects_total : Z;
  utxo_count : Z;
  total_supply : Z;
  total_burned : Z;
  pool_value : Z }.

(** The seam of [process_block] for a block of height [connected_height], with the arm
    heights of the surfaces: [false] is the error that refuses to advance. *)
Definition process_block (arm : BreakerSurface -> Z) (st : BlockStatus) (connected_height : Z) (p : PostApply)
    (nd : Node) : Node * bool :=
  if negb (connected st) then (nd, true)
  else
    let nd := integrity_on_block_connected (total_outputs_ever p) (reorg_disconnects_total p) (utxo_count p) nd in
    if enforce_trips BlockIntegrity connected_height (arm BlockIntegrity) nd then (nd, false)
    else
      let nd := supply_on_block_connected (total_supply p) (total_burned p) connected_height nd in
      if enforce_trips Supply connected_height (arm Supply) nd then (nd, false)
      else
        let nd := shielded_on_block_connected (pool_value p) nd in
        if enforce_trips Shielded connected_height (arm Shielded) nd then (nd, false)
        else (nd, true).
End Feeds.

(** ** The breaker as a function of its history *)

Inductive Event := Observed (faulty : bool) | Rearmed.

Definition react (e : Event) (b : RecoveryBreaker) : RecoveryBreaker :=
  match e with Observed f => observe b f | Rearmed => rearm_breaker b end.

(** A history, newest event first. *)
Definition run (p : RecoveryPolicy) (l : list Event) : RecoveryBreaker := foldr react (new_breaker p) l.

(** The number of healthy observations since the last fault, if there was one since the
    last rearm. *)
Fixpoint since_fault (l : list Event) : option Z :=
  match l with
  | [] => None
  | Rearmed :: _ => None
  | Observed true :: _ => Some 0
  | Observed false :: l => Z.add 1 <$> since_fault l
  end.

Definition verdict (p : RecoveryPolicy) (k : Z) : BreakerState :=
  match p with
  | Latch => Open
  | AutoReset s => if k <? Z.max s 1 then Open else if k =? Z.max s 1 then HalfOpen else Closed
  end.

Definition expected_state (p : RecoveryPolicy) (l : list Event) : BreakerState :=
  match since_fault l with None => Closed | Some k => verdict p k end.

Lemma since_fault_nonneg l k : since_fault l = Some k -> 0 <= k.
Proof.
  revert k. induction l as [|[[]|] l IH]; intros k; cbn; try done; [naive_solver lia|].
  destruct (since_fault l) as [j|]; [|done]. intros [= <-]. specialize (IH j eq_refl). lia.
Qed.

Lemma run_policy p l : policy (run p l) = p.
Proof.
  induction l as [|[[]|] l IH]; cbn [run foldr react]; try done. fold (run p l). unfold observe.
  destruct (state (run p l)); [done| |done]. by destruct (policy (run p l)) eqn:Ep; cbn [policy]; congruence.
Qed.

Definition policy_ok (p : RecoveryPolicy) : Prop := match p with AutoReset s => fits u32_max s | Latch => True end.

(** The heal count is the count of healthy observations while it matters. *)
Lemma run_spec p l : policy_ok p ->
  state (run p l) = expected_state p l
  /\ (forall k, since_fault l = Some k -> state (run p l) = Open -> heal_count (run p l) = match p with Latch => 0 | _ => k end).
Proof.
  intros Hp. induction l as [|[[]|] l IH]; [done| | |done]; cbn [run foldr react since_fault expected_state]; fold (run p l).
  - unfold expected_state. cbn. split; [|by intros k [= <-]; destruct p].
    destruct p as [s|]; [|done]. cbn. destruct (Z.ltb_spec 0 (Z.max s 1)); [done|lia].
  - destruct IH as [IH1 IH2]. unfold expected_state in *. cbn [since_fault].
    pose proof (run_policy p l) as Epol. unfold observe. rewrite Epol.
    destruct (since_fault l) as [k|] eqn:Ek; cbn [fmap option_fmap option_map]; [|rewrite IH1; done].
    pose proof (since_fault_nonneg l k Ek). rewrite IH1 in *. unfold policy_ok, fits in Hp.
    destruct p as [s|]; cbn [verdict] in *.
    + destruct (Z.ltb_spec k (Z.max s 1)) as [Hlt|Hge].
      * cbn [state heal_count]. rewrite (IH2 k eq_refl eq_refl).
        unfold saturating_add. rewrite Z.min_r by lia. rewrite (Z.add_comm k 1).
        split; [|by intros ? [= <-]]. zcases.
      * destruct (Z.eqb_spec k (Z.max s 1)); cbn [state heal_count]; rewrite ?IH1; (split; [zcases|done]).
    + split; [done|]. intros ? [= <-] _. by apply (IH2 k).
Qed.

(** C36: A breaker is a function of its history: closed without a fault since the last
    rearm; open from a fault on; and then a latching breaker stays open whatever is
    observed until it is rearmed, while an auto-resetting one probes after exactly its
    streak of consecutive healthy observations and closes on the next one. *)
Theorem breaker_refines_history p l : policy_ok p ->
  state (run p l) = expected_state p l /\ is_isolating (run p l) = negb (bool_decide (expected_state p l = Closed)).
Proof. intros Hp. destruct (run_spec p l Hp) as [E _]. unfold is_isolating. rewrite E. by destruct (expected_state p l). Qed.

Lemma breaker_refines_history_witness :
  state (run (AutoReset 3) [Observed false; Observed false; Observed false; Observed true]) = HalfOpen.
Proof.
  apply (breaker_refines_history (AutoReset 3) [Observed false; Observed false; Observed false; Observed true]).
  cbn. unfold fits. lia.
Defined.

(** ** The box *)

Lemma observe_fault_self {F} s (r : FaultReport F) b :
  breakers (observe_fault s r b) !! s
  = Some (observe (default (for_surface s) (breakers b !! s)) (faulty r)).
Proof. unfold observe_fault. cbn [breakers]. rewrite lookup_insert_eq. by destruct (breakers b !! s). Qed.

Lemma observe_fault_other {F} s s' (r : FaultReport F) b : s' <> s ->
  breakers (observe_fault s r b) !! s' = breakers b !! s'.
Proof. intros. unfold observe_fault. cbn [breakers]. by rewrite lookup_insert_ne. Qed.

Lemma install_other s s' b : s' <> s -> breakers (install s b) !! s' = breakers b !! s'.
Proof. intros. unfold install. cbn [breakers]. by rewrite lookup_insert_ne. Qed.

Lemma faulty_iff {F} (l : list F) : faulty (from_labels l) = true <-> l <> [].
Proof. by destruct l. Qed.

(** A healthy report does not open a closed surface. *)
Lemma healthy_keeps_closed {F} s (r : FaultReport F) b : faulty r = false -> isolating s b = false ->
  isolating s (observe_fault s r b) = false.
Proof.
  intros Hr. unfold isolating. rewrite observe_fault_self, Hr. unfold is_isolating.
  destruct (breakers b !! s) as [x|]; cbn [default]; [|done]. intros Hx.
  unfold observe. cbn [id]. destruct x as [[] p c]; done.
Qed.

Lemma fault_isolates {F} s (r : FaultReport F) b : faulty r = true -> isolating s (observe_fault s r b) = true.
Proof. intros Hr. unfold isolating. by rewrite observe_fault_self, Hr. Qed.

(** The surface that a live feed drives. *)
Inductive Feed :=
| FIntegrity (ever disconnects count : Z)
| FSupply (supply burned height : Z)
| FShielded (value : Z)
| FMempool (now count bytes : Z)
| FRpc (now body : Z)
| FReorg (depth max_depth fork finalized incoming active : Z)
| FP2p (addrs : list IpAddr)
| FRearm (s : BreakerSurface).

Definition surface_of (f : Feed) : BreakerSurface :=
  match f with
  | FIntegrity _ _ _ => BlockIntegrity | FSupply _ _ _ => Supply | FShielded _ => Shielded | FMempool _ _ _ => Mempool
  | FRpc _ _ => Rpc | FReorg _ _ _ _ _ _ => Reorg | FP2p _ => P2p | FRearm s => s
  end.

Definition feed (cfg : Config) (f : Feed) (nd : Node) : Node :=
  match f with
  | FIntegrity e d c => integrity_on_block_connected e d c nd
  | FSupply s b h => supply_on_block_connected s b h nd
  | FShielded v => shielded_on_block_connected v nd
  | FMempool t c b => mempool_on_admission cfg t c b nd
  | FRpc t b => rpc_on_request cfg t b nd
  | FReorg d m f fin i a => on_reorg cfg d m f fin i a nd
  | FP2p l => observe_from_addrs cfg l nd
  | FRearm s => set_box (rearm s) nd
  end.

Lemma feed_frame cfg f nd s : s <> surface_of f -> breakers (box (feed cfg f nd)) !! s = breakers (box nd) !! s.
Proof.
  intros Hs. destruct f; cbn [surface_of feed] in *; try (by apply observe_fault_other).
  unfold set_box, rearm. cbn [box]. destruct (breakers (box nd) !! s0); [|done]. cbn [breakers]. by rewrite lookup_insert_ne.
Qed.

(** The surfaces that no rearm touched since: a latched one stays isolated. *)
Lemma latched_stays cfg f nd s : recommended_recovery s = Latch ->
  (exists x, breakers (box nd) !! s = Some x /\ state x = Open /\ policy x = Latch) -> f <> FRearm s ->
  exists x, breakers (box (feed cfg f nd)) !! s = Some x /\ state x = Open /\ policy x = Latch.
Proof.
  intros Hl (x & Hx & Hs & Hp) Hf. destruct (decide (s = surface_of f)) as [-> | Hne];
    [|exists x; by rewrite feed_frame].
  assert (Ho : forall b, exists y, Some (observe x b) = Some y /\ state y = Open /\ policy y = Latch).
  { intros b. eexists. split; [done|]. unfold observe. rewrite Hs, Hp. by destruct b. }
  destruct f; cbn [surface_of feed] in *; try (by destruct Hf);
    (match goal with |- exists y, breakers (box ?n) !! ?s = _ /\ _ =>
       let e := fresh in assert (e : exists b, breakers (box n) !! s = Some (observe x b));
       [eexists; etransitivity; [apply observe_fault_self|]; cbn [box]; rewrite Hx; reflexivity
       |destruct e as [b ->]; apply Ho] end).
Qed.

Definition feeds (cfg : Config) (l : list Feed) (nd : Node) : Node := fold_left (fun nd f => feed cfg f nd) l nd.

(** The effect of a feed on its own surface. *)
Lemma feed_self cfg f nd x : breakers (box nd) !! surface_of f = Some x ->
  breakers (box (feed cfg f nd)) !! surface_of f = Some (rearm_breaker x)
  \/ exists b, breakers (box (feed cfg f nd)) !! surface_of f = Some (observe x b).
Proof.
  intros Hx. destruct f; cbn [surface_of feed] in *;
    try (right; eexists; etransitivity; [apply observe_fault_self|]; cbn [box]; rewrite Hx; reflexivity).
  left. unfold set_box, rearm. cbn [box]. rewrite Hx. cbn [breakers]. by rewrite lookup_insert_eq.
Qed.

(** In a running node every surface is installed with its policy, and a latching one is
    never half open. *)
Definition installed (nd : Node) (s : BreakerSurface) : Prop :=
  exists x, breakers (box nd) !! s = Some x /\ policy x = recommended_recovery s
  /\ (recommended_recovery s = Latch -> state x <> HalfOpen).

Lemma boot_installed s : installed boot s.
Proof. exists (for_surface s). destruct s; split; try reflexivity; done. Qed.

Lemma feed_installed cfg f nd s : installed nd s -> installed (feed cfg f nd) s.
Proof.
  intros (x & Hx & Hp & Hs). destruct (decide (s = surface_of f)) as [-> | Hne];
    [|exists x; by rewrite feed_frame].
  destruct (feed_self cfg f nd x Hx) as [E | [b E]]; eexists; (split; [exact E|]).
  - done.
  - unfold observe. destruct b; [done|]. destruct (state x) eqn:Es; [by rewrite Es| |done].
    destruct (policy x) eqn:Ep; [|by rewrite Es, Ep]. split; [done|]. intros Hl. congruence.
Qed.

Lemma feeds_installed cfg l : forall nd s, installed nd s -> installed (feeds cfg l nd) s.
Proof. induction l as [|f l IH]; intros nd s H; [done|]. apply IH. by apply feed_installed. Qed.

Lemma latched_run cfg s l : forall nd, recommended_recovery s = Latch ->
  (exists x, breakers (box nd) !! s = Some x /\ state x = Open /\ policy x = Latch) -> FRearm s ∉ l ->
  exists x, breakers (box (feeds cfg l nd)) !! s = Some x /\ state x = Open /\ policy x = Latch.
Proof.
  induction l as [|f l IH]; intros nd Hl Hx Hf; [done|]. apply not_elem_of_cons in Hf as [Hne Hf].
  apply IH; [done| |done]. by apply latched_stays.
Qed.

(** The money and integrity surfaces latch: once the feeds of a node have isolated
    one of them, it stays isolated through any further feeds of any surface, healthy
    observations of its own included, until it is rearmed. *)
Theorem latched_until_rearmed cfg s l1 l2 : recommended_recovery s = Latch ->
  isolating s (box (feeds cfg l1 boot)) = true -> FRearm s ∉ l2 ->
  isolating s (box (feeds cfg (l1 ++ l2) boot)) = true.
Proof.
  intros Hl Hi Hf. unfold feeds. rewrite fold_left_app. fold (feeds cfg l1 boot). fold (feeds cfg l2 (feeds cfg l1 boot)).
  destruct (feeds_installed cfg l1 boot s (boot_installed s)) as (x & Hx & Hp & Hs).
  destruct (latched_run cfg s l2 (feeds cfg l1 boot)) as (y & Hy & Ey & _); [done| |done|].
  - exists x. split; [done|]. split; [|congruence]. unfold isolating in Hi. rewrite Hx in Hi.
    unfold is_isolating in Hi. specialize (Hs Hl). by destruct (state x).
  - unfold isolating. rewrite Hy. unfold is_isolating. by rewrite Ey.
Qed.

Lemma latched_until_rearmed_witness :
  isolating BlockIntegrity
    (box (feeds default_config ([FIntegrity 10 11 10] ++ [FIntegrity 10 2 8; FRearm Supply; FP2p []]) boot)) = true.
Proof.
  apply (latched_until_rearmed default_config BlockIntegrity [FIntegrity 10 11 10]); [reflexivity|vm_compute; reflexivity|].
  intros [[=]|[[=]|[[=]|[]%not_elem_of_nil]%elem_of_cons]%elem_of_cons]%elem_of_cons.
Defined.

(** ** The supply feed at the seam *)

Lemma as_i128_small x : 0 <= x < 2 ^ 127 -> as_i128 x = x.
Proof. intros. unfold as_i128. rewrite Z.mod_small; lia. Qed.

Lemma supply_feed_exact s b h : 0 <= b <= s -> s < 2 ^ 127 -> 0 <= Emission.Supply.cumulative_emission h < 2 ^ 127 ->
  SupplySurface.detect (supply_observation s b h) = [] <-> s - b <= Emission.Supply.cumulative_emission h.
Proof.
  intros Hb Hs Hc. unfold SupplySurface.detect, supply_observation. rewrite !as_i128_small by lia.
  cbn [SupplySurface.coinbase_payout SupplySurface.allowed_emission SupplySurface.block_fees SupplySurface.total_emitted
    SupplySurface.total_burned SupplySurface.circulating SupplySurface.max_supply SupplySurface.committed_supply].
  assert (E : SupplySurface.sub_i128 s b = s - b) by (unfold SupplySurface.sub_i128; rewrite Z.mod_small; lia).
  rewrite E, Z.eqb_refl. change (SupplySurface.saturating_add_i128 0 0) with 0.
  destruct (Z.ltb_spec (s - b) 0); [lia|]. destruct (Z.ltb_spec (Emission.Supply.cumulative_emission h) (s - b)); cbn; split; done || lia.
Qed.

Lemma reachable_supply network gtxs st chain : fits u64_max gtxs -> Ledger.reachable network gtxs (st, chain) ->
  Ledger.total_supply st = Emission.Supply.cumulative_emission (Ledger.height st)
  /\ 0 <= Ledger.height st < u64_max /\ 0 <= Ledger.total_supply st < 2 ^ 127 /\ 0 <= Ledger.total_burned st.
Proof.
  intros Hg Hr. destruct (Ledger.reachable_inv network gtxs Hg _ Hr) as (Hh & Hle & _ & Hb & (_ & _ & Es & Eb & _) & _).
  pose proof (Ledger.burn_sum_bounds network chain Hb).
  pose proof (Emission.Supply.emission_sum_bounds (S (List.length chain)) ltac:(lia)) as Hs. unfold COIN, TAIL_EMISSION in Hs.
  split; [|lia]. rewrite Es, Emission.Supply.cumulative_emission_sum by (unfold fits; lia). do 2 f_equal. lia.
Qed.

Lemma cumulative_fits h : fits u64_max h -> 0 <= Emission.Supply.cumulative_emission h < 2 ^ 127.
Proof.
  intros Hh. rewrite Emission.Supply.cumulative_emission_sum by done. unfold fits in Hh.
  pose proof (Emission.Supply.emission_sum_bounds (S (Z.to_nat h)) ltac:(lia)) as Hs. unfold COIN, TAIL_EMISSION in Hs. lia.
Qed.

(** The supply feed, given a node whose books are in order (a reachable ledger that has
    burned no more than it emitted), is silent for a block at the tip; for a block at a
    lower height, which [process_block] feeds too when the block is stored on a side
    branch, it reports a fault as soon as the circulating supply of the tip exceeds the
    emission up to that height.  The fault latches the surface, and once the surface is
    armed, storing such a block makes the node refuse to advance. *)
Theorem side_block_latches_supply network gtxs st chain h p arm nd :
  fits u64_max gtxs -> Ledger.reachable network gtxs (st, chain) -> Ledger.total_burned st <= Ledger.total_supply st ->
  total_supply p = Ledger.total_supply st -> total_burned p = Ledger.total_burned st ->
  arm BlockIntegrity = u64_max -> fits u64_max h ->
  Emission.Supply.cumulative_emission h < Ledger.total_supply st - Ledger.total_burned st ->
  SupplySurface.detect (supply_observation (total_supply p) (total_burned p) (Ledger.height st)) = []
  /\ isolating Supply (box (fst (process_block arm AcceptedFork h p nd))) = true
  /\ (arm Supply <> u64_max -> arm Supply <= h -> snd (process_block arm AcceptedFork h p nd) = false).
Proof.
  intros Hg Hr Hb Es Eb Harm Hh Hlt. destruct (reachable_supply network gtxs st chain Hg Hr) as (E & Hht & Hs & Hb0).
  rewrite Es, Eb.
  assert (Hf : faulty (from_labels (SupplySurface.detect (supply_observation (Ledger.total_supply st) (Ledger.total_burned st) h))) = true).
  { apply faulty_iff. rewrite supply_feed_exact; [lia|lia|lia|by apply cumulative_fits]. }
  split; [apply supply_feed_exact; [lia|lia|apply cumulative_fits; unfold fits; lia|lia]|].
  unfold process_block. cbn [connected negb]. rewrite Es, Eb.
  set (nd1 := integrity_on_block_connected _ _ _ nd).
  replace (enforce_trips BlockIntegrity h (arm BlockIntegrity) nd1) with false
    by (unfold enforce_trips, fail_closed_due; by rewrite Harm).
  set (nd2 := supply_on_block_connected _ _ _ nd1).
  assert (Hi : isolating Supply (box nd2) = true) by (by apply fault_isolates).
  assert (Hi3 : isolating Supply (box (shielded_on_block_connected (pool_value p) nd2)) = true).
  { unfold isolating in *. unfold shielded_on_block_connected, set_box. cbn [box]. by rewrite observe_fault_other. }
  split.
  - destruct (enforce_trips Supply h (arm Supply) nd2); [done|]. by destruct (enforce_trips Shielded _ _ _).
  - intros Hn Ha. replace (enforce_trips Supply h (arm Supply) nd2) with true; [done|].
    unfold enforce_trips, fail_closed_due. rewrite Hi. destruct (Z.eqb_spec (arm Supply) u64_max); [done|].
    destruct (Z.leb_spec (arm Supply) h); [done|lia].
Qed.

(** With the arm heights of the source no feed can stop the node: the seam of
    [process_block] returns the status of every block, whatever the breakers say, and
    an arm height is what enables it: at or above it, a block is refused exactly when one
    of the three consensus surfaces isolates. *)
Theorem process_block_enforces arm st h p nd :
  snd (process_block default_arm_height st h p nd) = true
  /\ (arm Supply = u64_max -> arm Shielded = u64_max -> arm BlockIntegrity <= h -> arm BlockIntegrity <> u64_max ->
      snd (process_block arm st h p nd) =
      negb (connected st && isolating BlockIntegrity (box (fst (process_block arm st h p nd))))).
Proof.
  unfold process_block, enforce_trips, fail_closed_due, default_arm_height. split; [by destruct (connected st)|].
  intros -> -> Hle Hne. destruct (connected st) eqn:Ec; cbn [negb andb snd fst]; [|done].
  destruct (Z.eqb_spec (arm BlockIntegrity) u64_max); [done|]. destruct (Z.leb_spec (arm BlockIntegrity) h); [|lia].
  cbn [negb andb]. change (u64_max =? u64_max) with true. cbn [negb andb].
  destruct (isolating BlockIntegrity (box (integrity_on_block_connected _ _ _ nd))) eqn:Ei; cbn [snd fst]; [by rewrite Ei|].
  unfold isolating in *. unfold shielded_on_block_connected, supply_on_block_connected, set_box. cbn [box].
  by rewrite !observe_fault_other, Ei.
Qed.

(** ** The reorg feed *)

(** The floor that the seam of the reorg passes: the finality floor less one, saturating. *)
Definition seam_finalized (tip_height : Z) : Z := saturating_sub (saturating_sub tip_height 144) 1.

(** The finality flag of the reorg feed agrees with the finality floor of the chain
    except at genesis: it is raised exactly for the fork points that the chain refuses and,
    while the floor is still zero, for a fork at genesis, which the chain accepts. *)
Theorem reorg_flag_exact tip fork depth max_depth incoming active maxr :
  0 <= tip -> 0 <= fork ->
  ReorgSurface.BelowFinalized ∈ ReorgSurface.detect
    (ReorgSurface.mkObs depth max_depth fork (seam_finalized tip) 0 u32_max (work_ratio_pct incoming active) maxr)
  <-> (0 < saturating_sub tip 144 /\ fork < saturating_sub tip 144) \/ (saturating_sub tip 144 = 0 /\ fork = 0).
Proof.
  intros Ht Hf. unfold ReorgSurface.detect, collect.
  cbn [ReorgSurface.reorg_depth ReorgSurface.max_safe_depth ReorgSurface.fork_point_height ReorgSurface.finalized_height
    ReorgSurface.reorgs_in_window ReorgSurface.max_reorgs_in_window ReorgSurface.incoming_work_ratio_pct ReorgSurface.max_work_ratio_pct].
  assert (Hiff : ReorgSurface.BelowFinalized ∈ map snd (List.filter fst
      [(max_depth <? depth, ReorgSurface.DeepReorg); (fork <=? seam_finalized tip, ReorgSurface.BelowFinalized);
       (u32_max <? 0, ReorgSurface.ReorgChurn); (maxr <? work_ratio_pct incoming active, ReorgSurface.WorkAnomaly)])
    <-> fork <= seam_finalized tip).
  { rewrite list_elem_of_In, in_map_iff. setoid_rewrite filter_In. rewrite <- Z.leb_le. split.
    - intros ([c []] & E & H & Hc); cbn in *; try done. subst c. destruct H as [[=]|[[= ->]|[[=]|[[=]|[]]]]]; done.
    - intros E. exists (fork <=? seam_finalized tip, ReorgSurface.BelowFinalized). cbn. auto. }
  rewrite Hiff. unfold seam_finalized, saturating_sub. lia.
Qed.

(** ** The integrity feed on the output set *)

Lemma adds_size l : forall s,
  Z.of_nat (size (Utxo.outputs (fold_left Utxo.add_one l s))) <= Z.of_nat (size (Utxo.outputs s)) + Z.of_nat (length l).
Proof.
  induction l as [|[[[[th i] o] h] cb] l IH]; intros s; cbn [fold_left length]; [lia|].
  specialize (IH (Utxo.add_one s (th, i, o, h, cb))).
  assert (Z.of_nat (size (Utxo.outputs (Utxo.add_one s (th, i, o, h, cb)))) <= Z.of_nat (size (Utxo.outputs s)) + 1); [|lia].
  cbn [Utxo.add_one Utxo.add_output_ext Utxo.outputs]. rewrite map_size_insert.
  destruct (Utxo.outputs s !! (th, i)); unfold id; lia.
Qed.

Lemma replay_size c : Utxo.output_count (Utxo.replay c) <= Utxo.live_outputs c.
Proof.
  unfold Utxo.output_count. induction c as [|[h txs] c IH]; cbn [Utxo.replay Utxo.live_outputs foldr snd]; [done|].
  fold (Utxo.live_outputs c). rewrite Utxo.connect_eq. cbn [Utxo.outputs Utxo.set_key_images].
  pose proof (adds_size (Utxo.adds (Utxo.batch_from_block h txs)) (Utxo.replay c)) as Ha.
  rewrite Utxo.connect_length in Ha. lia.
Qed.

(** The integrity surface is closed, and the baseline of the feed is one of the counters
    it has seen. *)
Definition watching (n : Z) (nd : Node) : Prop :=
  isolating BlockIntegrity (box nd) = false /\ (PREV_EVER nd = u64_max \/ PREV_EVER nd <= n).

(** The integrity breaker never cries wolf: fed with the counters of the output set
    after any history of connected and disconnected blocks, in the order of the history,
    it finds no fault and the surface stays closed. *)
Theorem integrity_feed_silent s c n n0 nd : Utxo.history s c n -> n < u64_max -> n0 <= n -> watching n0 nd ->
  watching n (integrity_on_block_connected (Utxo.total_outputs_ever s) (Utxo.reorg_disconnects_total s)
                (Utxo.output_count s) nd).
Proof.
  intros Hh Hn Hle [Hi Hp]. destruct (Utxo.history_state s c n Hh ltac:(lia)) as (_ & Hc & Hl & Ht & Hr).
  pose proof (replay_size c) as Hsz.
  assert (Ho : Utxo.output_count s <= Utxo.live_outputs c).
  { unfold Utxo.output_count in *. unfold Utxo.core in Hc. injection Hc as Ec _. by rewrite Ec. }
  unfold integrity_on_block_connected, watching. rewrite Ht, Hr. cbn [set_box box PREV_EVER].
  assert (Hpe : (if PREV_EVER nd =? u64_max then n else PREV_EVER nd) <= n).
  { destruct (Z.eqb_spec (PREV_EVER nd) u64_max); [lia|]. destruct Hp; [done|lia]. }
  split; [|right; lia]. apply healthy_keeps_closed; [|done].
  unfold IntegritySurface.detect, collect.
  cbn [IntegritySurface.total_outputs_ever IntegritySurface.prev_total_outputs_ever IntegritySurface.reorg_disconnects_total
    IntegritySurface.output_count IntegritySurface.committed_utxo_root].
  destruct (Z.ltb_spec n (if PREV_EVER nd =? u64_max then n else PREV_EVER nd)); [lia|].
  destruct (Z.ltb_spec n (n - Utxo.live_outputs c)); [lia|]. destruct (Z.ltb_spec n (Utxo.output_count s)); [lia|]. done.
Qed.

(** ** Netgroups *)

(** The prefix that groups addresses: /16 and /32. *)
Definition prefix (a : IpAddr) : Z + Z := match a with V4 b => inl (b / 2 ^ 16) | V6 b => inr (b / 2 ^ 96) end.

Definition address_ok (a : IpAddr) : Prop := match a with V4 b => 0 <= b < 2 ^ 32 | V6 b => 0 <= b < 2 ^ 128 end.

Lemma lor_shift x y k : 0 <= k -> 0 <= x -> 0 <= y < 2 ^ k -> Z.lor (Z.shiftl x k) y = x * 2 ^ k + y.
Proof.
  intros Hk Hx Hy. rewrite <- Z.add_nocarry_lor; [by rewrite Z.shiftl_mul_pow2|].
  apply Z.bits_inj'. intros i Hi. rewrite Z.land_spec, Z.bits_0.
  destruct (Z.lt_ge_cases i k) as [Hlt|Hge]; [by rewrite Z.shiftl_spec_low|].
  destruct (Z.eq_dec y 0) as [-> | Hne]; [by rewrite Z.bits_0, andb_false_r|].
  rewrite (Z.bits_above_log2 y i), andb_false_r; [done|lia|].
  apply Z.log2_lt_pow2; [lia|]. eapply Z.lt_le_trans; [apply Hy|]. apply Z.pow_le_mono_r; lia.
Qed.

Lemma octets_prefix b : 0 <= b < 2 ^ 32 -> Z.lor (Z.shiftl (octet b 0) 8) (octet b 1) = b / 2 ^ 16.
Proof.
  intros Hb. unfold octet. change (8 * (3 - 0)) with 24. change (8 * (3 - 1)) with 16.
  change 255 with (Z.ones 8). rewrite !Z.land_ones, !Z.shiftr_div_pow2 by lia.
  rewrite (Z.mod_small (b / 2 ^ 24)) by (split; [apply Z.div_pos; lia|apply Z.div_lt_upper_bound; lia]).
  rewrite lor_shift; [|lia|apply Z.div_pos; lia|apply Z.mod_pos_bound; lia].
  change (2 ^ 24) with (2 ^ 16 * 2 ^ 8). rewrite <- Z.div_div by lia.
  pose proof (Z.div_mod (b / 2 ^ 16) (2 ^ 8) ltac:(lia)). lia.
Qed.

Lemma segments_prefix b : 0 <= b < 2 ^ 128 ->
  Z.lor (Z.lor (Z.shiftl 1 40) (Z.shiftl (segment b 0) 16)) (segment b 1) = 2 ^ 40 + b / 2 ^ 96
  /\ 0 <= b / 2 ^ 96 < 2 ^ 32.
Proof.
  intros Hb. unfold segment. change (16 * (7 - 0)) with 112. change (16 * (7 - 1)) with 96.
  change 65535 with (Z.ones 16). rewrite !Z.land_ones, !Z.shiftr_div_pow2 by lia.
  assert (H0 : 0 <= b / 2 ^ 112 < 2 ^ 16) by (split; [apply Z.div_pos; lia|apply Z.div_lt_upper_bound; lia]).
  assert (H1 : 0 <= b / 2 ^ 96 < 2 ^ 32) by (split; [apply Z.div_pos; lia|apply Z.div_lt_upper_bound; lia]).
  split; [|done]. rewrite (Z.mod_small (b / 2 ^ 112)) by lia.
  rewrite (lor_shift 1), Z.mul_1_l by (rewrite ?Z.shiftl_mul_pow2; lia).
  replace (2 ^ 40 + Z.shiftl (b / 2 ^ 112) 16) with (Z.shiftl (2 ^ 24 + b / 2 ^ 112) 16)
    by (rewrite !Z.shiftl_mul_pow2 by lia; lia).
  rewrite lor_shift; [|lia|lia|apply Z.mod_pos_bound; lia].
  replace (b / 2 ^ 112) with (b / 2 ^ 96 / 2 ^ 16) by (rewrite Z.div_div by lia; done).
  pose proof (Z.div_mod (b / 2 ^ 96) (2 ^ 16) ltac:(lia)). lia.
Qed.

(** The buckets of the eclipse detector are the address prefixes: two addresses share a
    netgroup exactly when they are of the same family and agree on the first 16 bits of an
    IPv4 or the first 32 bits of an IPv6 address; the families never share one. *)
Theorem netgroup_is_prefix a b : address_ok a -> address_ok b -> netgroup a = netgroup b <-> prefix a = prefix b.
Proof.
  intros Ha Hb. destruct a as [a|a], b as [b|b]; cbn [netgroup prefix address_ok] in *;
    rewrite ?octets_prefix by done;
    repeat match goal with H : 0 <= ?x < 2 ^ 128 |- _ => destruct (segments_prefix x H) as [-> ?]; clear H end;
    repeat match goal with H : 0 <= ?x < 2 ^ 32 |- context [?x / 2 ^ 16] =>
      assert (0 <= x / 2 ^ 16 < 2 ^ 16) by (split; [apply Z.div_pos; lia|apply Z.div_lt_upper_bound; lia]); clear H end.
  - split; [by intros ->|by intros [= ->]].
  - split; [lia|done].
  - split; [lia|done].
  - split; [intros E; f_equal; lia|by intros [= ->]].
Qed.

(** ** Witnesses *)

Lemma side_block_latches_supply_witness :
  let p := mkPost 0 0 0 (Ledger.total_supply Ledger.sample_stats) (Ledger.total_burned Ledger.sample_stats) 0 in
  let arm s := match s with Supply => 0 | _ => u64_max end in
  snd (process_block arm AcceptedFork 0 p boot) = false.
Proof.
  cbv zeta. eapply (side_block_latches_supply Ledger.Mainnet 1 Ledger.sample_stats [Ledger.sample_block] 0 _ _ boot);
    try reflexivity; try (vm_compute; split; discriminate); try (vm_compute; discriminate).
  eapply Ledger.reachable_step; [apply (Ledger.reachable_init Ledger.Mainnet 1 7)|].
  apply Ledger.step_connect; [reflexivity|apply Ledger.sample_block_ok|reflexivity|vm_compute; discriminate
    |vm_compute; discriminate|vm_compute; reflexivity].
Defined.

Lemma process_block_enforces_witness :
  let arm s := match s with BlockIntegrity => 5 | _ => u64_max end in
  let p := mkPost 10 11 3 0 0 0 in
  snd (process_block arm Accepted 7 p boot) =
  negb (connected Accepted && isolating BlockIntegrity (box (fst (process_block arm Accepted 7 p boot)))).
Proof.
  cbv zeta.
  apply (process_block_enforces (fun s => match s with BlockIntegrity => 5 | _ => u64_max end) Accepted 7 (mkPost 10 11 3 0 0 0) boot);
    reflexivity || lia || discriminate.
Defined.

Lemma reorg_flag_exact_witness :
  ReorgSurface.BelowFinalized ∈ ReorgSurface.detect
    (ReorgSurface.mkObs 3 100 0 (seam_finalized 20) 0 u32_max (work_ratio_pct 5 4) u32_max).
Proof. apply (reorg_flag_exact 20 0 3 100 5 4 u32_max); [lia|lia|]. right. split; reflexivity. Defined.

Lemma integrity_feed_silent_witness :
  watching 3 (integrity_on_block_connected
    (Utxo.total_outputs_ever (Utxo.connect Utxo.new 1 Utxo.sample_block))
    (Utxo.reorg_disconnects_total (Utxo.connect Utxo.new 1 Utxo.sample_block))
    (Utxo.output_count (Utxo.connect Utxo.new 1 Utxo.sample_block)) boot).
Proof.
  apply (integrity_feed_silent (Utxo.connect Utxo.new 1 Utxo.sample_block) [(1, Utxo.sample_block)] 3 0 boot).
  - exact (Utxo.history_connect _ _ _ _ _ Utxo.history_new Utxo.sample_fresh).
  - lia.
  - lia.
  - split; [reflexivity|left; reflexivity].
Defined.

Lemma netgroup_is_prefix_witness :
  netgroup (V4 3232235777) = netgroup (V4 3232301055) /\ netgroup (V4 3232235777) <> netgroup (V6 3232235777).
Proof.
  split.
  - apply (netgroup_is_prefix (V4 3232235777) (V4 3232301055)); cbn; [lia|lia|reflexivity].
  - intros E. apply (netgroup_is_prefix (V4 3232235777) (V6 3232235777)) in E; [discriminate E|cbn; lia|cbn; lia].
Defined.
End Fuse.
