(* ===== verification/ForkSignal.v ===== *)
(** * Fork signalling (src/src/consensus/fork_signal.rs, src/src/chain/queries.rs)

    The signal bits of a coinbase, the deployments and the state machine that counts
    signals per window, driven by the count over the blocks of the chain. *)

From Stdlib Require Import String.
From stdpp Require Import gmap list.
From S2P Require Import Prelude Constants Types.

Module ForkSignal.

(** ** Bits *)

Definition VIEW_TAGS : Z := Z.shiftl 1 0.
Definition RING_SIZE_16 : Z := Z.shiftl 1 1.
Definition FEE_MARKET_V2 : Z := Z.shiftl 1 2.
Definition HALO2_SHIELDED : Z := Z.shiftl 1 3.
Definition LELANTUS_SPARK : Z := Z.shiftl 1 4.
Definition MW_CUTTHROUGH : Z := Z.shiftl 1 5.
Definition V1_0_12_BUNDLE : Z := Z.shiftl 1 6.
Definition MUST_SET : Z := Z.shiftl 1 31.

(** [SignalBits] is its raw [u32]. *)
Definition signal_bits (raw : Z) : Z := Z.lor raw MUST_SET.
Definition signals (s bit : Z) : bool := negb (Z.land s bit =? 0).

(** ** Deployments *)

Record Deployment := mkDeployment {
  name : string;
  bit : Z;
  start_height : Z;
  timeout_height : Z;
  min_activation_height : Z }.

Definition DEPLOYMENTS : list Deployment :=
  [mkDeployment "view-tags" VIEW_TAGS 0 1000000 2016;
   mkDeployment "halo2-shielded" HALO2_SHIELDED u64_max u64_max u64_max;
   mkDeployment "lelantus-spark" LELANTUS_SPARK u64_max u64_max u64_max;
   mkDeployment "mw-cutthrough" MW_CUTTHROUGH u64_max u64_max u64_max;
   mkDeployment "v1.0.12-bundle" V1_0_12_BUNDLE u64_max u64_max u64_max].

Inductive DeploymentState :=
| Defined
| Started (signaling_pct : Z)
| LockedIn (at_height : Z)
| Active
| Failed.

(** ** The coinbase field *)

Definition encode_coinbase_extra (height bits : Z) : list Z :=
  Types.le_bytes 8 height ++ (if bits =? 0 then [] else Types.le_bytes 4 bits).

Definition decode_signal_bits (extra : list Z) : Z :=
  if Z.of_nat (length extra) <? 12 then 0
  else be_value (rev (take 4 (drop 8 extra))).

(** ** The state machine *)

Record ForkSignaler := mkSignaler { locked_in : gmap Z Z }.

Definition new : ForkSignaler := mkSignaler ∅.

Definition window_start (height : Z) : Z := height / SIGNAL_WINDOW * SIGNAL_WINDOW.
Definition next_window_start (height : Z) : Z := wrap u64_max (window_start height + SIGNAL_WINDOW).

Definition record_lock_in (s : ForkSignaler) (bit height : Z) : ForkSignaler :=
  mkSignaler (<[bit := height]> (locked_in s)).

Section Blocks.
Context (get_block_by_height : Z -> option Types.Block).

(** Whether the block at [h] has a coinbase that signals [bit]. *)
Definition signalled (bit h : Z) : bool :=
  match get_block_by_height h with
  | None => false
  | Some block =>
      match Types.coinbase block with
      | None => false
      | Some coinbase => signals (decode_signal_bits (Types.extra coinbase)) bit
      end
  end.

Definition count_signaling_blocks_in_window (window_start window_end bit : Z) : Z :=
  if saturating_sub window_end window_start =? 0 then 0
  else fold_left (fun count h => if signalled bit h then saturating_add u64_max count 1 else count)
         (seqZ window_start (window_end - window_start)) 0.

Definition state (s : ForkSignaler) (d : Deployment) (current_height : Z) : DeploymentState :=
  if current_height <? start_height d then Defined
  else if (timeout_height d <=? current_height) && negb (bool_decide (is_Some (locked_in s !! bit d))) then Failed
  else
    match locked_in s !! bit d with
    | Some locked_at =>
        let activation := next_window_start locked_at in
        if Z.max activation (min_activation_height d) <=? current_height then Active else LockedIn activation
    | None =>
        let window_start := window_start current_height in
        let count := count_signaling_blocks_in_window window_start current_height (bit d) in
        let total := Z.max (saturating_sub current_height window_start) 1 in
        let pct := Z.min (wrap u32_max (wrap u64_max (count * 100) / total)) 100 in
        if SIGNAL_THRESHOLD <=? count then LockedIn (next_window_start current_height) else Started pct
    end.

Definition state_and_record (s : ForkSignaler) (d : Deployment) (current_height : Z)
  : ForkSignaler * DeploymentState :=
  let st := state s d current_height in
  match st with
  | LockedIn _ =>
      if bool_decide (is_Some (locked_in s !! bit d)) then (s, st)
      else (record_lock_in s (bit d) current_height, st)
  | _ => (s, st)
  end.

(** The machine driven by block processing: one call per height. *)
Definition run (d : Deployment) (s : ForkSignaler) (from : Z) (k : nat) : ForkSignaler :=
  fold_left (fun s h => fst (state_and_record s d h)) (seqZ from (Z.of_nat k)) s.
End Blocks.

(** ** The coinbase field round trips *)

Lemma rev_le_bytes n v : rev (Types.le_bytes n v) = be_bytes n v.
Proof. apply rev_involutive. Qed.

Lemma length_le n v : length (Types.le_bytes n v) = n.
Proof. unfold Types.le_bytes. by rewrite length_rev, length_be_bytes. Qed.

(** What a miner signals is what the chain counts: decoding the coinbase field written
    for a height and a [u32] of signal bits gives the bits back, whatever follows the
    twelve bytes; and the field of a coinbase without signal is the eight bytes of the
    height. *)
Theorem extra_roundtrip height bits tail : fits u32_max bits -> (bits = 0 -> (length tail < 4)%nat) ->
  decode_signal_bits (encode_coinbase_extra height bits ++ tail) = bits
  /\ (bits = 0 -> encode_coinbase_extra height bits = Types.le_bytes 8 height).
Proof.
  intros Hb Ht. unfold decode_signal_bits, encode_coinbase_extra, fits in *.
  destruct (Z.eqb_spec bits 0) as [->|Hz].
  - specialize (Ht eq_refl). rewrite app_nil_r, length_app, length_le. split; [|done]. zcases.
  - rewrite !length_app, !length_le. split; [|done]. zcases.
    rewrite <- app_assoc, drop_app_length' by (by rewrite length_le). rewrite take_app_length' by (by rewrite length_le).
    rewrite rev_le_bytes. apply be_value_be_bytes. change (256 ^ Z.of_nat 4) with (u32_max + 1). lia.
Qed.

Lemma extra_roundtrip_witness :
  decode_signal_bits (encode_coinbase_extra 77 (signal_bits V1_0_12_BUNDLE) ++ [9; 9; 9; 9; 9])
    = signal_bits V1_0_12_BUNDLE.
Proof. apply (extra_roundtrip 77 (signal_bits V1_0_12_BUNDLE) [9; 9; 9; 9; 9]); vm_compute; [split|]; discriminate. Defined.

(** ** Counting *)

Section Machine.
Context (get_block_by_height : Z -> option Types.Block).
Abbreviation count := (count_signaling_blocks_in_window get_block_by_height) (only parsing).
Abbreviation signalled := (signalled get_block_by_height) (only parsing).
Abbreviation step s d h := (fst (state_and_record get_block_by_height s d h)) (only parsing).
Abbreviation seen s d h := (snd (state_and_record get_block_by_height s d h)) (only parsing).

Lemma count_empty ws b : count ws ws b = 0.
Proof. unfold count_signaling_blocks_in_window, saturating_sub. zcases. Qed.

Lemma count_fold ws k b : Z.of_nat k <= u64_max ->
  let c := fold_left (fun count h => if signalled b h then saturating_add u64_max count 1 else count)
             (seqZ ws (Z.of_nat k)) 0 in
  c = count ws (ws + Z.of_nat k) b /\ 0 <= c <= Z.of_nat k.
Proof.
  intros Hk c. split.
  - subst c. unfold count_signaling_blocks_in_window, saturating_sub. replace (ws + Z.of_nat k - ws) with (Z.of_nat k) by lia.
    zcases. replace k with O by lia. done.
  - subst c. revert Hk. induction k as [|k IH]; intros Hk; [done|].
    rewrite seqZ_S, fold_left_app. cbn [fold_left].
    specialize (IH ltac:(lia)). set (c := fold_left _ _ _) in *. unfold saturating_add.
    destruct (signalled b (ws + Z.of_nat k)); lia.
Qed.

(** One more block. *)
Lemma count_succ ws h b : ws <= h -> h + 1 - ws <= u64_max ->
  count ws (h + 1) b = count ws h b + (if signalled b h then 1 else 0) /\ 0 <= count ws h b <= h - ws.
Proof.
  intros Hh Hw. pose proof (count_fold ws (Z.to_nat (h - ws)) b ltac:(lia)) as [H1 H2].
  replace (ws + Z.of_nat (Z.to_nat (h - ws))) with h in H1 by lia. rewrite H1 in H2.
  pose proof (count_fold ws (S (Z.to_nat (h - ws))) b ltac:(lia)) as [H3 _].
  replace (ws + Z.of_nat (S (Z.to_nat (h - ws)))) with (h + 1) in H3 by lia.
  rewrite seqZ_S, fold_left_app, H1 in H3. cbn [fold_left] in H3.
  replace (ws + Z.of_nat (Z.to_nat (h - ws))) with h in H3 by lia.
  split; [|lia]. rewrite <- H3. unfold saturating_add. destruct (signalled b h); lia.
Qed.

Lemma count_mono ws h h' b : ws <= h <= h' -> h' - ws <= u64_max -> count ws h b <= count ws h' b.
Proof.
  intros [Hw Hh] Hm. replace h' with (h + Z.of_nat (Z.to_nat (h' - h))) in * by lia.
  induction (Z.to_nat (h' - h)) as [|k IH]; [by rewrite Z.add_0_r|].
  rewrite Nat2Z.inj_succ, <- Z.add_1_r, Z.add_assoc in *.
  destruct (count_succ ws (h + Z.of_nat k) b) as [-> _]; [lia|lia|]. specialize (IH ltac:(lia) ltac:(lia)). destruct (signalled b _); lia.
Qed.

(** ** Steps of the machine *)

Lemma window_inside ws h : ws mod SIGNAL_WINDOW = 0 -> ws <= h < ws + SIGNAL_WINDOW -> window_start h = ws.
Proof.
  unfold window_start, SIGNAL_WINDOW. intros Hm Hh. rewrite (Z.div_mod ws 2016), Hm in Hh |- * by lia.
  assert (h / 2016 = ws / 2016) as ->; [|lia]. symmetry. apply Z.div_unique with (h - 2016 * (ws / 2016)); lia.
Qed.

Lemma next_window ws h : ws mod SIGNAL_WINDOW = 0 -> ws <= h < ws + SIGNAL_WINDOW -> 0 <= ws ->
  ws + SIGNAL_WINDOW <= u64_max -> next_window_start h = ws + SIGNAL_WINDOW.
Proof.
  intros. unfold next_window_start. rewrite (window_inside ws) by done. apply wrap_small.
  unfold fits, SIGNAL_WINDOW in *. lia.
Qed.

(** An unlocked deployment locks in exactly when the blocks before the current one reach
    the threshold; a locked one stays as it is. *)
Lemma step_locked s d h L : locked_in s !! bit d = Some L -> step s d h = s.
Proof.
  intros HL. unfold state_and_record.
  destruct (state _ _ _ _); try done. by rewrite bool_decide_true by eauto.
Qed.

Definition locks (d : Deployment) (h : Z) : Prop :=
  start_height d <= h < timeout_height d /\ SIGNAL_THRESHOLD <= count (window_start h) h (bit d).

Lemma step_unlocked s d h : locked_in s !! bit d = None ->
  (locks d h /\ step s d h = record_lock_in s (bit d) h /\ seen s d h = LockedIn (next_window_start h))
  \/ (~ locks d h /\ step s d h = s /\
      (h < start_height d /\ seen s d h = Defined
       \/ start_height d <= h /\ timeout_height d <= h /\ seen s d h = Failed
       \/ start_height d <= h < timeout_height d /\ exists pct, seen s d h = Started pct)).
Proof.
  intros HN. unfold state_and_record, state, locks. rewrite HN, !bool_decide_false by (intros []; done). cbn [negb].
  rewrite andb_true_r. destruct (Z.ltb_spec h (start_height d)); [right; split_and!; [lia|done|by left]|].
  destruct (Z.leb_spec (timeout_height d) h); [right; split_and!; [lia|done|by right; left]|].
  destruct (Z.leb_spec SIGNAL_THRESHOLD (count (window_start h) h (bit d))); [by left|].
  right. split_and!; [lia|done|]. right. right. split; [done|]. by eexists.
Qed.

(** ** A window *)

Lemma run_S d s from k : run get_block_by_height d s from (S k) = step (run get_block_by_height d s from k) d (from + Z.of_nat k).
Proof. unfold run. by rewrite seqZ_S, fold_left_app. Qed.

(** Within a window the machine locks in at the first height that has enough signals
    below it. *)
Lemma run_window d s ws k : ws mod SIGNAL_WINDOW = 0 -> 0 <= ws -> ws + SIGNAL_WINDOW <= u64_max ->
  start_height d <= ws -> ws + SIGNAL_WINDOW <= timeout_height d -> locked_in s !! bit d = None ->
  Z.of_nat (S k) <= SIGNAL_WINDOW ->
  let s' := run get_block_by_height d s ws (S k) in
  if SIGNAL_THRESHOLD <=? count ws (ws + Z.of_nat k) (bit d)
  then exists H, ws <= H <= ws + Z.of_nat k /\ s' = record_lock_in s (bit d) H
  else s' = s.
Proof.
  intros Hm Hw Hmax Hs Ht HN. induction k as [|k IH]; intros Hk s'.
  - subst s'. rewrite run_S. change (run _ _ _ _ 0) with s. change (Z.of_nat 0) with 0. rewrite Z.add_0_r, count_empty.
    destruct (step_unlocked s d ws HN) as [([_ Hc] & _)|(_ & -> & _)]; [|done].
    rewrite (window_inside ws), count_empty in Hc by (unfold SIGNAL_WINDOW in *; done || lia).
    by unfold SIGNAL_THRESHOLD in Hc.
  - specialize (IH ltac:(lia)). subst s'. cbv zeta in IH. rewrite run_S. set (s1 := run _ _ _ _ (S k)) in *.
    set (h := ws + Z.of_nat (S k)) in *. assert (Eh : ws + Z.of_nat k = h - 1) by lia. rewrite Eh in IH.
    pose proof (count_mono ws (h - 1) h (bit d) ltac:(lia) ltac:(unfold SIGNAL_WINDOW in *; lia)) as Hmono.
    destruct (Z.leb_spec SIGNAL_THRESHOLD (count ws (h - 1) (bit d))).
    + destruct IH as (H0 & HH & E1). rewrite (proj2 (Z.leb_le _ _)) by lia. exists H0. split; [lia|].
      rewrite <- E1. apply (step_locked _ _ _ H0). rewrite E1. apply lookup_insert_eq.
    + rewrite IH. destruct (step_unlocked s d h HN) as [([_ Hc] & -> & _)|(Hc & -> & _)];
        unfold locks in Hc; rewrite (window_inside ws) in Hc by (unfold SIGNAL_WINDOW in *; done || lia).
      * rewrite (proj2 (Z.leb_le _ _)) by done. exists h. split; [lia|done].
      * destruct (Z.leb_spec SIGNAL_THRESHOLD (count ws h (bit d))); [|done]. exfalso. apply Hc.
        unfold SIGNAL_WINDOW in *. lia.
Qed.

Lemma run_locked d s from k L : locked_in s !! bit d = Some L -> run get_block_by_height d s from k = s.
Proof. intros HL. induction k as [|k IH]; [done|]. rewrite run_S, IH. by apply (step_locked _ _ _ L). Qed.

(** The machine driven block by block through a window locks a deployment in exactly
    when the blocks of the window without its last one reach the threshold; then, whatever
    the later blocks signal, it is locked in until the next window (or its minimum
    activation height) and active from there on, and past its timeout.  Below the threshold
    the window leaves no trace. *)
Theorem window_locks_in d s ws : ws mod SIGNAL_WINDOW = 0 -> 0 <= ws -> ws + SIGNAL_WINDOW <= u64_max ->
  start_height d <= ws -> ws + SIGNAL_WINDOW <= timeout_height d -> locked_in s !! bit d = None ->
  let s' := run get_block_by_height d s ws 2016 in
  (SIGNAL_THRESHOLD <= count ws (ws + 2015) (bit d) -> forall from k h, ws + SIGNAL_WINDOW <= h ->
     state get_block_by_height (run get_block_by_height d s' from k) d h
       = if Z.max (ws + SIGNAL_WINDOW) (min_activation_height d) <=? h then Active else LockedIn (ws + SIGNAL_WINDOW))
  /\ (count ws (ws + 2015) (bit d) < SIGNAL_THRESHOLD -> s' = s).
Proof.
  intros Hm Hw Hmax Hs Ht HN s'. pose proof (run_window d s ws 2015 Hm Hw Hmax Hs Ht HN ltac:(done)) as Hr.
  fold s' in Hr. change (Z.of_nat 2015) with 2015 in Hr. split; intros Hc.
  - rewrite (proj2 (Z.leb_le _ _) Hc) in Hr. destruct Hr as (H & HH & ->). intros from k h Hh.
    assert (HL : locked_in (record_lock_in s (bit d) H) !! bit d = Some H) by apply lookup_insert_eq.
    rewrite (run_locked d _ from k H HL). unfold state. rewrite HL, bool_decide_true by eauto.
    rewrite andb_false_r, (next_window ws) by (unfold SIGNAL_WINDOW in *; done || lia).
    destruct (Z.ltb_spec h (start_height d)); [unfold SIGNAL_WINDOW in *; lia|done].
  - by rewrite (proj2 (Z.leb_gt _ _) Hc) in Hr.
Qed.

(** ** Order of the states *)

(** The machine after calls at rising heights, the last one [h]. *)
Inductive reached (d : Deployment) : ForkSignaler -> Z -> Prop :=
| reached_new : reached d new 0
| reached_call s h h' : reached d s h -> h <= h' -> reached d (step s d h') h'.

Lemma reached_lock d s h : reached d s h ->
  0 <= h /\ forall L, locked_in s !! bit d = Some L -> start_height d <= L <= h.
Proof.
  induction 1 as [|s h h' _ [Hh IH] Hle]; [by split|]. split; [lia|]. intros L.
  destruct (locked_in s !! bit d) as [L0|] eqn:EL.
  - rewrite (step_locked s d h' L0 EL), EL. intros [= <-]. specialize (IH L0 eq_refl). lia.
  - destruct (step_unlocked s d h' EL) as [([? _] & -> & _)|(_ & -> & _)]; [|by rewrite EL].
    cbn. rewrite lookup_insert_eq. intros [= <-]. lia.
Qed.

(** What a later call may answer after an earlier one. *)
Definition may_follow (st st' : DeploymentState) : Prop :=
  match st with
  | Defined => st' <> Active
  | Started _ => match st' with Started _ | LockedIn _ | Failed => True | _ => False end
  | LockedIn a => st' = LockedIn a \/ st' = Active
  | Active => st' = Active
  | Failed => st' = Failed
  end.

Lemma seen_locked s d h L : locked_in s !! bit d = Some L -> start_height d <= h ->
  seen s d h = if Z.max (next_window_start L) (min_activation_height d) <=? h then Active
               else LockedIn (next_window_start L).
Proof.
  intros HL Hs. unfold state_and_record, state. rewrite HL, bool_decide_true by eauto. rewrite andb_false_r.
  destruct (Z.ltb_spec h (start_height d)); [lia|]. by destruct (_ <=? h).
Qed.

(** Between two calls at rising heights, whatever the blocks and the gaps, the machine
    moves forward only: a deployment never leaves Active or Failed, a lock-in is kept with
    its activation height and cannot fail, and Active is only reached through a lock-in. *)
Theorem deployment_progress d s h0 h h' : reached d s h0 -> h0 <= h -> h <= h' ->
  may_follow (seen s d h) (seen (step s d h) d h').
Proof.
  intros Hr H0 Hle. destruct (reached_lock d s h0 Hr) as [Hpos HL].
  destruct (locked_in s !! bit d) as [L|] eqn:EL.
  - specialize (HL L eq_refl). rewrite (step_locked s d h L EL), !(seen_locked s d _ L EL) by lia.
    repeat zcases_step; cbn; auto; lia.
  - destruct (step_unlocked s d h EL) as [([? _] & -> & ->)|(Hn & -> & Hst)].
    + rewrite (seen_locked _ d h' h) by (apply lookup_insert_eq || lia). destruct (_ <=? h'); cbn; auto.
    + destruct (step_unlocked s d h' EL) as [([? _] & _ & ->)|(_ & _ & Hst')].
      * destruct Hst as [[_ ->] | [(? & ? & _) | [_ [p ->]]]]; cbn; done || lia.
      * destruct Hst as [[? ->] | [(? & ? & ->) | [? [p ->]]]], Hst' as [[? ->] | [(? & ? & ->) | [? [p' ->]]]];
          cbn; done || lia.
Qed.
End Machine.

(** ** A window whose last block would reach the threshold *)

Definition sample_blocks (first last : Z) (h : Z) : option Types.Block :=
  Some (Types.mkBlock (Types.mkHeader 0 1 h 0 0 0 0 0 0 0 0 0 None 0 0)
    [Types.mkTx 1 Types.Coinbase [] [] 0 []
       (encode_coinbase_extra h (if (first <=? h) && (h <=? last) then signal_bits VIEW_TAGS else 0))]).

Definition view_tags : Deployment := mkDeployment "view-tags" VIEW_TAGS 0 1000000 2016.

Lemma view_tags_window : 0 mod SIGNAL_WINDOW = 0 /\ 0 <= 0 /\ 0 + SIGNAL_WINDOW <= u64_max /\ start_height view_tags <= 0
  /\ 0 + SIGNAL_WINDOW <= timeout_height view_tags /\ locked_in new !! bit view_tags = None.
Proof. vm_compute. repeat split; discriminate. Qed.

(** 1814 of the 2016 blocks signal, the last of the window among them: not locked in. *)
Example last_block_not_counted :
  count_signaling_blocks_in_window (sample_blocks 202 2015) 0 2016 VIEW_TAGS = SIGNAL_THRESHOLD
  /\ run (sample_blocks 202 2015) view_tags new 0 2016 = new.
Proof.
  split; [vm_compute; reflexivity|]. destruct view_tags_window as (H1 & H2 & H3 & H4 & H5 & H6).
  assert (Hk : Z.of_nat 2016 <= SIGNAL_WINDOW) by (vm_compute; discriminate).
  assert (Hc : (SIGNAL_THRESHOLD <=? count_signaling_blocks_in_window (sample_blocks 202 2015) 0 (0 + Z.of_nat 2015)
                  (bit view_tags)) = false) by (vm_compute; reflexivity).
  pose proof (run_window (sample_blocks 202 2015) view_tags new 0 2015 H1 H2 H3 H4 H5 H6 Hk) as H.
  cbv zeta in H. rewrite Hc in H. exact H.
Qed.

Lemma window_locks_in_witness :
  let blocks := sample_blocks 201 2014 in
  state blocks (run blocks view_tags (run blocks view_tags new 0 2016) 2016 500) view_tags 2017
    = if Z.max (0 + SIGNAL_WINDOW) 2016 <=? 2017 then Active else LockedIn (0 + SIGNAL_WINDOW).
Proof.
  destruct view_tags_window as (H1 & H2 & H3 & H4 & H5 & H6). intros blocks.
  refine (proj1 (window_locks_in blocks view_tags new 0 H1 H2 H3 H4 H5 H6) _ 2016 500%nat 2017 _);
    vm_compute; discriminate.
Defined.

Lemma deployment_progress_witness :
  may_follow (snd (state_and_record (sample_blocks 1 5) new view_tags 3))
             (snd (state_and_record (sample_blocks 1 5) new view_tags 1000000))
  /\ snd (state_and_record (sample_blocks 1 5) new view_tags 1000000) = Failed.
Proof.
  split; [|vm_compute; reflexivity].
  apply (deployment_progress (sample_blocks 1 5) view_tags new 0 3 1000000); [constructor|lia|lia].
Defined.
End ForkSignal.
