(* ===== verification/Mempool.v ===== *)
(** * The mempool (src/src/mempool.rs)

    Pending transactions with their fee order, key images, linking tags, size accounting
    and audit log; admission with replace-by-fee and eviction; removal on confirmation,
    conflict and expiry; and the selection of a block template.

    [transactions] is a finite map, [by_fee] the strictly ascending list of the keys of
    the source's BTreeMap, whose value at [(rate, hash)] is [hash].  The clock is read
    once per call and given as [now].  The linking tags of a transaction, which are
    parsed from its payload in the shielded builds and always empty in the default one,
    are a parameter, and so are the structural, privacy and cryptographic checks that
    precede admission ([Checks]) and the chain that revalidates ([ShadowEvictChain]).
    The error of a duplicate linking tag, in the source an [InvalidTransaction] with its
    message, is a constructor of its own. *)

From Stdlib Require Import String.
From stdpp Require Import gmap sorting.
From S2P Require Import Prelude Constants Security.

Module Mempool.

Definition MAX_MEMPOOL_BYTES : Z := 300 * 1024 * 1024.
Definition TX_EXPIRY_BLOCKS : Z := 288.
Definition AUDIT_LOG_CAPACITY : nat := 4096.
Definition RBF_FEE_BUMP_NUMERATOR : Z := 125.
Definition RBF_FEE_BUMP_DENOMINATOR : Z := 100.
Definition MAX_EVICTION_ATTEMPTS : Z := 100.

(** What the pool reads of a transaction: its hash and size, which the source computes
    from its serialisation, its fee, the key images of its inputs, and its kind. *)
Record Transaction := mkTx {
  hash : Z;
  fee : Z;
  size : Z;
  key_images_of : list Z;
  is_coinbase : bool;
  extra : list Z }.

Inductive EvictReason := Confirmed | DoubleSpend | ReplacedByFee | LowFee | Expired.

Inductive Error :=
| TransactionTooLarge (size max : Z)
| FeeTooLow (fee min : Z)
| DuplicateKeyImage
| DuplicateLinkingTag
| MempoolFull
| InvalidTransaction
| InvalidMessage
| InvalidState.

Inductive AuditEvent :=
| TxAdded (hash fee size timestamp : Z)
| TxRejected (hash : Z) (reason : Error) (timestamp : Z)
| TxRemoved (hash : Z) (reason : EvictReason) (timestamp : Z).

Definition event_timestamp (e : AuditEvent) : Z :=
  match e with TxAdded _ _ _ t | TxRejected _ _ t | TxRemoved _ _ t => t end.

Definition event_hash (e : AuditEvent) : Z :=
  match e with TxAdded h _ _ _ | TxRejected h _ _ | TxRemoved h _ _ => h end.

Record MempoolEntry := mkEntry {
  tx : Transaction;
  tx_hash : Z;
  entry_fee : Z;
  fee_per_byte : Z;
  entry_size : Z;
  added_time : Z;
  height_added : Z }.

(** The fee rate in millionths of a unit per byte, as [MempoolEntry::new] and
    [scaled_fee_per_byte] compute it. *)
Definition scaled_fee_per_byte (fee_atomic size : Z) : Z :=
  let size := Z.max size 1 in
  let scaled := fee_atomic * 1000000 in
  Z.min (scaled / size) u64_max.

Definition entry_new (tx : Transaction) (height time : Z) : MempoolEntry :=
  let tx_hash := hash tx in
  let size := Z.max (size tx) 1 in
  let fee := fee tx in
  let fee_per_byte := if 0 <? size then Z.min (fee * 1000000 / size) u64_max else 0 in
  mkEntry tx tx_hash fee fee_per_byte size time height.

Record Mempool := mkMempool {
  transactions : gmap Z MempoolEntry;
  by_fee : list (Z * Z);
  key_images : gset Z;
  linking_tags : gset Z;
  max_size : Z;
  current_size : Z;
  chain_height : Z;
  audit_log : list AuditEvent }.

Definition with_max_size (max_size : Z) : Mempool := mkMempool ∅ [] ∅ ∅ max_size 0 0 [].

Definition new : Mempool := with_max_size MAX_MEMPOOL_BYTES.

(** ** The ordered fee index *)

Definition fee_lt (a b : Z * Z) : bool :=
  (fst a <? fst b) || ((fst a =? fst b) && (snd a <? snd b)).

(** [BTreeMap::insert] *)
Fixpoint fee_insert (k : Z * Z) (l : list (Z * Z)) : list (Z * Z) :=
  match l with
  | [] => [k]
  | k' :: l' => if fee_lt k k' then k :: l
                else if fee_lt k' k then k' :: fee_insert k l'
                else k :: l'
  end.

(** [BTreeMap::remove] *)
Definition fee_remove (k : Z * Z) (l : list (Z * Z)) : list (Z * Z) :=
  List.filter (fun k' => negb (bool_decide (k' = k))) l.

(** ** Audit *)

Definition audit (m : Mempool) (event : AuditEvent) : Mempool :=
  let log := if (AUDIT_LOG_CAPACITY <=? length (audit_log m))%nat then tail (audit_log m) else audit_log m in
  mkMempool (transactions m) (by_fee m) (key_images m) (linking_tags m) (max_size m) (current_size m)
    (chain_height m) (log ++ [event]).

(** [reject]: the logged pool; the error is the caller's. *)
Definition reject (m : Mempool) (now h : Z) (err : Error) : Mempool := audit m (TxRejected h err now).

(** What the pool asks of the chain when it sweeps out invalid transactions. *)
Class ShadowEvictChain (C : Type) := {
  validate_transaction : C -> Transaction -> result Error unit;
  shielded_unminable : C -> Transaction -> bool }.

(** The checks that precede admission: structure, privacy policy, range proofs at a
    height, balance proof, and the ring signatures of the inputs. *)
Record Checks := mkChecks {
  validate_transaction_basic : Transaction -> result Error unit;
  check_tx_privacy : Transaction -> result Error unit;
  verify_output_range_proofs : Transaction -> Z -> bool;
  verify_balance_proof : Transaction -> bool;
  verify_ring_signature : Transaction -> nat -> bool }.

Definition preflight_check (c : Checks) (t : Transaction) : result Error unit :=
  if is_coinbase t then Err InvalidMessage
  else match validate_transaction_basic c t with
       | Err e => Err e
       | Ok _ => if negb (is_coinbase t) then check_tx_privacy c t else Ok tt
       end.

(** [verify_crypto_for_admission] of the default build; a transaction has one key image
    per input. *)
Definition verify_crypto_for_admission (c : Checks) (t : Transaction) (chain_height : Z) : result Error unit :=
  if is_coinbase t then Ok tt
  else if negb (verify_output_range_proofs c t chain_height) then Err InvalidTransaction
  else if negb (verify_balance_proof c t) then Err InvalidTransaction
  else if forallb (verify_ring_signature c t) (seq 0 (length (key_images_of t))) then Ok tt
  else Err InvalidTransaction.

Section Tags.
Context (shielded_linking_tags : Transaction -> result Error (list Z)).

(** [shielded_linking_tags(..).unwrap_or_default()] *)
Definition tags_of (t : Transaction) : list Z :=
  match shielded_linking_tags t with Ok l => l | Err _ => [] end.

(** ** Removal *)

Definition remove (m : Mempool) (h : Z) : Mempool :=
  match transactions m !! h with
  | Some entry =>
      mkMempool (delete h (transactions m))
        (fee_remove (fee_per_byte entry, h) (by_fee m))
        (key_images m ∖ list_to_set (key_images_of (tx entry)))
        (linking_tags m ∖ list_to_set (tags_of (tx entry)))
        (max_size m)
        (saturating_sub (current_size m) (entry_size entry))
        (chain_height m) (audit_log m)
  | None => m
  end.

Definition remove_logged (m : Mempool) (now : Z) (reason : EvictReason) (h : Z) : Mempool :=
  remove (audit m (TxRemoved h reason now)) h.

(** The loops that log and remove a list of hashes. *)
Definition remove_all (m : Mempool) (now : Z) (reason : EvictReason) (hs : list Z) : Mempool :=
  fold_left (fun m h => remove_logged m now reason h) hs m.

(** The hashes of the entries a predicate selects. *)
Definition select (m : Mempool) (p : MempoolEntry -> bool) : list Z :=
  map fst (List.filter (fun he => p (snd he)) (map_to_list (transactions m))).

Definition expire_old_transactions (m : Mempool) (now current_height : Z) : Mempool :=
  remove_all m now Expired
    (select m (fun e => TX_EXPIRY_BLOCKS <? saturating_sub current_height (height_added e))).

Definition set_height (m : Mempool) (now height : Z) : Mempool :=
  expire_old_transactions
    (mkMempool (transactions m) (by_fee m) (key_images m) (linking_tags m) (max_size m)
       (current_size m) height (audit_log m)) now height.

Definition expire_old (m : Mempool) (now max_age_secs : Z) : Mempool * Z :=
  let expired := select m (fun e => max_age_secs <? saturating_sub now (added_time e)) in
  (remove_all m now Expired expired, Z.of_nat (length expired)).

Definition evict_lowest_fee (m : Mempool) (now : Z) : Mempool :=
  match by_fee m with
  | (_, h) :: _ => remove_logged m now LowFee h
  | [] => m
  end.

Definition has_image (ki : Z) (e : MempoolEntry) : bool := bool_decide (ki ∈ key_images_of (tx e)).

(** [self.transactions.iter().find(..)]: an entry that spends the key image. *)
Definition conflicting (m : Mempool) (ki : Z) : option (Z * Z) :=
  match List.find (fun he => has_image ki (snd he)) (map_to_list (transactions m)) with
  | Some (h, e) => Some (h, fee_per_byte e)
  | None => None
  end.

Definition push_new (l : list Z) (h : Z) : list Z := if decide (h ∈ l) then l else l ++ [h].

Definition remove_confirmed (m : Mempool) (now : Z) (txs : list Transaction) : Mempool :=
  let m := remove_all m now Confirmed (map hash txs) in
  let conflicting_hashes :=
    fold_left (fun acc ki => match conflicting m ki with Some (h, _) => push_new acc h | None => acc end)
      (flat_map key_images_of txs) [] in
  remove_all m now DoubleSpend conflicting_hashes.

Definition remove_conflicts (m : Mempool) (kis : list Z) : Mempool :=
  fold_left remove (select m (fun e => existsb (fun ki => bool_decide (ki ∈ kis)) (key_images_of (tx e)))) m.

Definition shadow_evict_invalid `{ShadowEvictChain C} (m : Mempool) (now : Z) (chain : C) : Mempool :=
  remove_all m now DoubleSpend
    (select m (fun e => match validate_transaction chain (tx e) with
                        | Err _ => true
                        | Ok _ => shielded_unminable chain (tx e)
                        end)).

Definition clear (m : Mempool) : Mempool :=
  mkMempool ∅ [] ∅ ∅ (max_size m) 0 (chain_height m) (audit_log m).

(** ** Admission *)

Definition fee_multiplier (m : Mempool) : Z :=
  let fullness_pct := if 0 <? max_size m then wrap u64_max (current_size m * 100) / max_size m else 0 in
  if fullness_pct <=? 24 then 1
  else if fullness_pct <=? 49 then 2
  else if fullness_pct <=? 74 then 4
  else 8.

(** The key-image loop: the transactions to replace, or a conflict that pays too little. *)
Fixpoint find_conflicts (m : Mempool) (new_fee_rate : Z) (kis : list Z) (to_replace : list Z)
  : result Error (list Z) :=
  match kis with
  | [] => Ok to_replace
  | ki :: rest =>
      if decide (ki ∈ key_images m) then
        match conflicting m ki with
        | Some (old_hash, old_fee_rate) =>
            let lhs := saturating_mul u128_max new_fee_rate RBF_FEE_BUMP_DENOMINATOR in
            let rhs := saturating_mul u128_max old_fee_rate RBF_FEE_BUMP_NUMERATOR in
            if (rhs <=? lhs) && (old_fee_rate <? new_fee_rate)
            then find_conflicts m new_fee_rate rest (push_new to_replace old_hash)
            else Err DuplicateKeyImage
        | None => Err DuplicateKeyImage
        end
      else find_conflicts m new_fee_rate rest to_replace
  end.

Definition replaced_entries (m : Mempool) (to_replace : list Z) : list MempoolEntry :=
  omap (fun h => transactions m !! h) to_replace.

(** The eviction plan over the fee index: the size left after it. *)
Fixpoint simulate (m : Mempool) (size new_fee_rate : Z) (to_replace : list Z)
    (cands : list (Z * Z)) (simulated attempts : Z) : Z :=
  match cands with
  | [] => simulated
  | (cand_fee_rate, cand_hash) :: rest =>
      if (wrap u64_max (simulated + size) <=? max_size m) || (MAX_EVICTION_ATTEMPTS <=? attempts)
      then simulated
      else if decide (cand_hash ∈ to_replace) then
        simulate m size new_fee_rate to_replace rest simulated attempts
      else if new_fee_rate <=? cand_fee_rate then simulated
      else match transactions m !! cand_hash with
           | Some e => simulate m size new_fee_rate to_replace rest
                         (saturating_sub simulated (entry_size e)) (attempts + 1)
           | None => simulate m size new_fee_rate to_replace rest simulated attempts
           end
  end.

(** The check before anything is changed. *)
Definition fits_after_plan (m : Mempool) (size new_fee_rate : Z) (to_replace : list Z) : bool :=
  let replaced_freed := foldr (fun e acc => wrap u64_max (entry_size e + acc)) 0 (replaced_entries m to_replace) in
  let simulated := saturating_sub (current_size m) replaced_freed in
  if max_size m <? wrap u64_max (simulated + size)
  then wrap u64_max (simulate m size new_fee_rate to_replace (by_fee m) simulated 0 + size) <=? max_size m
  else true.

(** One iteration of the eviction loop on the pool and the number of attempts. *)
Definition evict_step (now h size : Z) (st : Mempool * Z) : (Mempool * Z) + (Mempool * result Error unit) :=
  let '(m, eviction_attempts) := st in
  if negb (max_size m <? wrap u64_max (current_size m + size))
     || bool_decide (transactions m = ∅)
  then inr (m, Ok tt)
  else
    let prev_size := current_size m in
    let m := evict_lowest_fee m now in
    let eviction_attempts := eviction_attempts + 1 in
    let still_doesnt_fit := max_size m <? wrap u64_max (current_size m + size) in
    if (prev_size <=? current_size m)
       || (still_doesnt_fit && (MAX_EVICTION_ATTEMPTS <=? eviction_attempts))
    then inr (reject m now h MempoolFull, Err MempoolFull)
    else inl (m, eviction_attempts).

(** At most a hundred evictions, and a last test of the condition. *)
Definition evict_fuel : nat := 101.

Definition evict_until_fits (m : Mempool) (now h size : Z) : Mempool * result Error unit :=
  match iter (evict_step now h size) evict_fuel (m, 0) with
  | Some r => r
  | None => (m, Err MempoolFull)
  end.

Definition insert_entry (m : Mempool) (now : Z) (t : Transaction) (tags : list Z) : Mempool :=
  let entry := entry_new t (chain_height m) now in
  let m := audit m (TxAdded (hash t) (entry_fee entry) (entry_size entry) now) in
  mkMempool (<[hash t := entry]> (transactions m))
    (fee_insert (fee_per_byte entry, hash t) (by_fee m))
    (key_images m ∪ list_to_set (key_images_of t))
    (linking_tags m ∪ list_to_set tags)
    (max_size m) (wrap u64_max (current_size m + entry_size entry)) (chain_height m) (audit_log m).

Definition admit_after_checks (m : Mempool) (now : Z) (t : Transaction) : Mempool * result Error Z :=
  let h := hash t in
  let size := size t in
  if MAX_TX_SIZE <? size then
    let err := TransactionTooLarge size MAX_TX_SIZE in (reject m now h err, Err err)
  else
    match shielded_linking_tags t with
    | Err e => (reject m now h e, Err e)
    | Ok shielded_tags =>
        let min_fee := wrap u64_max (size * MIN_FEE_PER_BYTE * fee_multiplier m) in
        if fee t <? min_fee then
          let err := FeeTooLow (fee t) min_fee in (reject m now h err, Err err)
        else
          let new_fee_rate := scaled_fee_per_byte (fee t) size in
          match find_conflicts m new_fee_rate (key_images_of t) [] with
          | Err e => (reject m now h e, Err e)
          | Ok to_replace =>
              let replaced_tags := flat_map (fun e => tags_of (tx e)) (replaced_entries m to_replace) in
              if existsb (fun g => bool_decide (g ∈ linking_tags m) && negb (bool_decide (g ∈ replaced_tags)))
                   shielded_tags
              then (reject m now h DuplicateLinkingTag, Err DuplicateLinkingTag)
              else if negb (fits_after_plan m size new_fee_rate to_replace)
              then (reject m now h MempoolFull, Err MempoolFull)
              else
                let m := remove_all m now ReplacedByFee to_replace in
                match evict_until_fits m now h size with
                | (m, Err e) => (m, Err e)
                | (m, Ok _) => (insert_entry m now t shielded_tags, Ok h)
                end
          end
    end.

Definition add (c : Checks) (m : Mempool) (now : Z) (t : Transaction) : Mempool * result Error Z :=
  match preflight_check c t with
  | Err e => (reject m now (hash t) e, Err e)
  | Ok _ =>
      if bool_decide (is_Some (transactions m !! hash t)) then (m, Ok (hash t))
      else match verify_crypto_for_admission c t (chain_height m) with
           | Err e => (reject m now (hash t) e, Err e)
           | Ok _ => admit_after_checks m now t
           end
  end.

(** *** Admission against a chain that moves

    One attempt of [add_with_chain] sees the generation of the chain before its
    validation, the verdict of the validation, and, under the pool's write lock, the
    generation again and the pool itself; an odd (unstable) generation is [None]. *)
Record Attempt := mkAttempt {
  generation : option Z;
  validation : result Error unit;
  generation_locked : option Z;
  pool_locked : Mempool;
  clock : Z }.

Definition MAX_CHAIN_GENERATION_ATTEMPTS : nat := 4.

(** [retry_stable_admission]: the first attempt that completes, with the pool it leaves. *)
Fixpoint retry_stable_admission (n : nat) (body : Attempt -> option (Mempool * result Error Z))
    (attempts : list Attempt) : option (Mempool * result Error Z) :=
  match n, attempts with
  | S n, a :: rest =>
      match generation a with
      | None => retry_stable_admission n body rest
      | Some _ => match body a with
                  | None => retry_stable_admission n body rest
                  | Some r => Some r
                  end
      end
  | _, _ => None
  end.

(** The closure of [add_with_chain]. *)
Definition admission_attempt (c : Checks) (t : Transaction) (a : Attempt) : option (Mempool * result Error Z) :=
  if negb (bool_decide (generation_locked a = generation a)) then None
  else match validation a with
       | Err e => Some (pool_locked a, Err e)
       | Ok _ => Some (add c (pool_locked a) (clock a) t)
       end.

(** [add_with_chain]: the pool that was written, if one was, and the result. *)
Definition add_with_chain (c : Checks) (t : Transaction) (attempts : list Attempt)
  : option Mempool * result Error Z :=
  if is_coinbase t then (None, Err InvalidMessage)
  else match validate_transaction_basic c t with
       | Err e => (None, Err e)
       | Ok _ =>
           match check_tx_privacy c t with
           | Err e => (None, Err e)
           | Ok _ =>
               match retry_stable_admission MAX_CHAIN_GENERATION_ATTEMPTS (admission_attempt c t) attempts with
               | Some (m', r) => (Some m', r)
               | None => (None, Err InvalidState)
               end
           end
       end.

(** ** Queries *)

Definition contains_key_image (m : Mempool) (ki : Z) : bool := bool_decide (ki ∈ key_images m).
Definition contains_linking_tag (m : Mempool) (g : Z) : bool := bool_decide (g ∈ linking_tags m).
Definition contains (m : Mempool) (h : Z) : bool := bool_decide (is_Some (transactions m !! h)).
Definition get (m : Mempool) (h : Z) : option Transaction := tx <$> transactions m !! h.

(** The selection loop of [get_block_transactions], over the fee index from the top;
    the state is what is selected, its size, its key images and its tags. *)
Definition select_one (m : Mempool) (max_size max_count : Z)
    (st : list Transaction * Z * gset Z * gset Z) (k : Z * Z) : list Transaction * Z * gset Z * gset Z :=
  let '(result, total_size, kis, tags) := st in
  if max_count <=? Z.of_nat (length result) then st
  else
    match transactions m !! snd k with
    | None => st
    | Some entry =>
        if wrap u64_max (total_size + entry_size entry) <=? max_size then
          let tx_key_images := key_images_of (tx entry) in
          let tx_tags := tags_of (tx entry) in
          if existsb (fun ki => bool_decide (ki ∈ kis)) tx_key_images
             || existsb (fun g => bool_decide (g ∈ tags)) tx_tags
          then st
          else (result ++ [tx entry], wrap u64_max (total_size + entry_size entry),
                kis ∪ list_to_set tx_key_images, tags ∪ list_to_set tx_tags)
        else st
    end.

Definition get_block_transactions (m : Mempool) (max_size max_count : Z) : list Transaction :=
  fst (fst (fst (fold_left (select_one m max_size max_count) (rev (by_fee m)) ([], 0, ∅, ∅)))).

Definition total_entry_size (ts : gmap Z MempoolEntry) : Z :=
  map_fold (fun _ e acc => entry_size e + acc) 0 ts.

Definition verify_size_invariant (m : Mempool) : bool :=
  wrap u64_max (total_entry_size (transactions m)) =? current_size m.

Record FeePercentiles := mkPercentiles { p25 : Z; p50 : Z; p75 : Z; p90 : Z; count : Z }.

Definition fee_percentiles (m : Mempool) : FeePercentiles :=
  let min_fee := MIN_FEE_PER_BYTE in
  if bool_decide (transactions m = ∅) then mkPercentiles min_fee min_fee min_fee min_fee 0
  else
    let fees := map fst (by_fee m) in
    let n := length fees in
    let percentile pct := Z.max (nth (Nat.min (n * pct / 100) (n - 1)) fees 0) min_fee in
    mkPercentiles (percentile 25%nat) (percentile 50%nat) (percentile 75%nat) (percentile 90%nat) (Z.of_nat n).
End Tags.

(** ** The security detail *)

Definition mempool_pressure (current_bytes max_bytes warn_pct : Z) : option Z :=
  if max_bytes =? 0 then None
  else
    let pct := wrap u64_max (current_bytes * 100 / max_bytes) in
    if warn_pct <=? pct then Some pct else None.

Record MempoolSecurityDetail := mkMempoolDetail { mempool : Mempool; warn_pct : Z }.

Definition mempool_sweep (d : MempoolSecurityDetail) : Security.SecurityReport :=
  match mempool_pressure (current_size (mempool d)) (max_size (mempool d)) (warn_pct d) with
  | Some pct =>
      let sev := if 100 <=? pct then Security.Critical else Security.Warning in
      Security.raise_operational Security.clean "mempool" sev "mempool-pressure"
  | None => Security.clean
  end.

#[export] Instance mempool_detail : Security.SecurityDetail MempoolSecurityDetail :=
  {| Security.label := fun _ => "mempool"%string; Security.sweep := mempool_sweep |}.

(** ** The fee index as a sorted list *)

Lemma fee_lt_spec a b : fee_lt a b = true <-> fst a < fst b \/ (fst a = fst b /\ snd a < snd b).
Proof. unfold fee_lt. rewrite orb_true_iff, andb_true_iff, !Z.ltb_lt, Z.eqb_eq. tauto. Qed.

Abbreviation fee_sorted := (StronglySorted (fun a b => fee_lt a b = true)) (only parsing).

Lemma elem_of_fee_insert k l x : x ∈ fee_insert k l <-> x = k \/ x ∈ l.
Proof.
  induction l as [|k' l IH]; cbn [fee_insert]; [set_solver|].
  destruct (fee_lt k k') eqn:E1; [set_solver|]. destruct (fee_lt k' k) eqn:E2.
  - rewrite !elem_of_cons, IH. set_solver.
  - assert (k = k') as ->; [|set_solver].
    apply not_true_iff_false in E1, E2. rewrite fee_lt_spec in E1, E2.
    destruct k, k'; cbn in *. f_equal; lia.
Qed.

Lemma fee_insert_sorted k l : fee_sorted l -> fee_sorted (fee_insert k l).
Proof.
  induction 1 as [|k' l Hl IH Hk']; cbn [fee_insert]; [repeat constructor|].
  destruct (fee_lt k k') eqn:E1.
  - constructor; [by constructor|]. constructor; [done|].
    eapply list.Forall_impl; [exact Hk'|]. intros x. cbn. rewrite !fee_lt_spec in *. lia.
  - destruct (fee_lt k' k) eqn:E2.
    + constructor; [done|]. apply list.Forall_forall. intros x. rewrite elem_of_fee_insert.
      rewrite list.Forall_forall in Hk'. naive_solver.
    + assert (k = k') as ->; [|by constructor].
      apply not_true_iff_false in E1, E2. rewrite fee_lt_spec in E1, E2.
      destruct k, k'; cbn in *. f_equal; lia.
Qed.

(** The keys of other hashes. *)
Definition keep (hs : list Z) (l : list (Z * Z)) : list (Z * Z) :=
  List.filter (fun k => negb (bool_decide (snd k ∈ hs))) l.

Lemma elem_of_keep hs l k : k ∈ keep hs l <-> k ∈ l /\ snd k ∉ hs.
Proof.
  unfold keep. rewrite list_elem_of_In, filter_In, <- list_elem_of_In, negb_true_iff, bool_decide_eq_false. done.
Qed.

Lemma filter_sorted (p : Z * Z -> bool) l : fee_sorted l -> fee_sorted (List.filter p l).
Proof.
  induction 1 as [|k l Hl IH Hk]; cbn; [constructor|]. destruct (p k); [|done].
  constructor; [done|]. apply list.Forall_forall. intros x Hx. rewrite list.Forall_forall in Hk.
  apply Hk. apply list_elem_of_In, filter_In in Hx as [Hx _]. by apply list_elem_of_In.
Qed.

Lemma keep_cons h hs l : keep (h :: hs) l = keep hs (keep [h] l).
Proof.
  unfold keep. induction l as [|k l IH]; [done|]. cbn.
  destruct (decide (snd k = h)) as [->|Hne].
  - rewrite (bool_decide_eq_true_2 (h ∈ [h])), (bool_decide_eq_true_2 (h ∈ h :: hs)) by set_solver.
    exact IH.
  - rewrite (bool_decide_eq_false_2 (snd k ∈ [h])) by set_solver. cbn. rewrite IH.
    destruct (decide (snd k ∈ hs)).
    + by rewrite !bool_decide_eq_true_2 by set_solver.
    + by rewrite !bool_decide_eq_false_2 by set_solver.
Qed.

(** When one key of the list has the hash, removing it is keeping the others. *)
Lemma fee_remove_keep f h l :
  (forall g, (g, h) ∈ l -> g = f) -> fee_remove (f, h) l = keep [h] l.
Proof.
  intros Hu. unfold fee_remove, keep. apply filter_ext_in. intros [g h'] Hin. f_equal.
  apply bool_decide_ext. cbn. rewrite list_elem_of_singleton. apply list_elem_of_In in Hin. split.
  - by intros [= _ ->].
  - intros ->. by rewrite (Hu g Hin).
Qed.

Lemma keep_none hs l : (forall k, k ∈ l -> snd k ∉ hs) -> keep hs l = l.
Proof.
  induction l as [|k l IH]; intros Hn; [done|]. unfold keep in *. cbn.
  rewrite bool_decide_eq_false_2 by (apply Hn; set_solver). cbn. f_equal. apply IH. set_solver.
Qed.

(** ** Ownership: a set of the items of the entries, no item of two entries *)

Definition owns (items : MempoolEntry -> list Z) (ts : gmap Z MempoolEntry) (owned : gset Z) : Prop :=
  (forall x, x ∈ owned <-> exists h e, ts !! h = Some e /\ x ∈ items e)
  /\ (forall h h' e e' x, ts !! h = Some e -> ts !! h' = Some e' -> x ∈ items e -> x ∈ items e' -> h = h').

Lemma owns_delete items ts owned h e : owns items ts owned -> ts !! h = Some e ->
  owns items (delete h ts) (owned ∖ list_to_set (items e)).
Proof.
  intros [Hin Hdj] He. split.
  - intros x. rewrite elem_of_difference, elem_of_list_to_set, Hin. setoid_rewrite lookup_delete_Some. split.
    + intros [(h' & e' & He' & Hx) Hn]. exists h', e'. split; [|done]. split; [|done]. intros ->. congruence.
    + intros (h' & e' & [Hne He'] & Hx). split; [eauto|]. intros Hx'. by apply Hne, (Hdj h h' e e' x).
  - intros h1 h2 e1 e2 x [_ H1]%lookup_delete_Some [_ H2]%lookup_delete_Some. by apply Hdj.
Qed.

Lemma owns_insert items ts owned h e : owns items ts owned -> ts !! h = None ->
  (forall x, x ∈ items e -> x ∉ owned) -> owns items (<[h := e]> ts) (owned ∪ list_to_set (items e)).
Proof.
  intros [Hin Hdj] Hn Hfresh. split.
  - intros x. rewrite elem_of_union, elem_of_list_to_set, Hin. setoid_rewrite lookup_insert_Some. split.
    + intros [(h' & e' & He' & Hx)|Hx]; [|eauto 10]. exists h', e'. split; [|done]. right. split; [congruence|done].
    + intros (h' & e' & [[-> ->]|[_ He']] & Hx); [by right|]. left. eauto.
  - intros h1 h2 e1 e2 x H1 H2 K1 K2. apply lookup_insert_Some in H1 as [[<- <-]|[_ H1]];
      apply lookup_insert_Some in H2 as [[<- <-]|[_ H2]]; [done| | |by apply (Hdj h1 h2 e1 e2 x)].
    + destruct (Hfresh x K1). apply Hin. eauto.
    + destruct (Hfresh x K2). apply Hin. eauto.
Qed.

(** ** The invariant *)

Section Invariant.
Context (shielded_linking_tags : Transaction -> result Error (list Z)).
Abbreviation tags_of := (tags_of shielded_linking_tags).
Abbreviation remove := (remove shielded_linking_tags).
Abbreviation remove_logged := (remove_logged shielded_linking_tags).
Abbreviation remove_all := (remove_all shielded_linking_tags).

(** A pool of fewer than 2^64 / 100 bytes: the size arithmetic does not wrap. *)
Record pool_ok (m : Mempool) : Prop := {
  ok_max : 0 <= max_size m <= u64_max / 100;
  ok_entry h e : transactions m !! h = Some e ->
    hash (tx e) = h /\ entry_size e = Z.max (size (tx e)) 1
    /\ fee_per_byte e = scaled_fee_per_byte (fee (tx e)) (size (tx e)) /\ 0 <= fee (tx e)
    /\ is_coinbase (tx e) = false;
  ok_sorted : fee_sorted (by_fee m);
  ok_fee f h : (f, h) ∈ by_fee m <-> exists e, transactions m !! h = Some e /\ fee_per_byte e = f;
  ok_images : owns (fun e => key_images_of (tx e)) (transactions m) (key_images m);
  ok_tags : owns (fun e => tags_of (tx e)) (transactions m) (linking_tags m);
  ok_size : current_size m = total_entry_size (transactions m);
  ok_bound : current_size m <= max_size m;
  ok_log : (length (audit_log m) <= AUDIT_LOG_CAPACITY)%nat }.

Lemma total_entry_size_delete ts h e :
  ts !! h = Some e -> total_entry_size ts = entry_size e + total_entry_size (delete h ts).
Proof.
  intros Hh. unfold total_entry_size.
  apply (map_fold_delete_L (fun _ e acc => entry_size e + acc)); [|done]. intros. lia.
Qed.

Lemma total_entry_size_insert ts h e :
  ts !! h = None -> total_entry_size (<[h := e]> ts) = entry_size e + total_entry_size ts.
Proof.
  intros Hh. rewrite (total_entry_size_delete _ h e) by apply lookup_insert_eq.
  by rewrite delete_insert_id.
Qed.

Lemma total_entry_size_nonneg ts :
  (forall h e, ts !! h = Some e -> 1 <= entry_size e) -> 0 <= total_entry_size ts.
Proof.
  induction ts as [|h e ts Hh IH] using map_ind; intros Hs; [done|].
  rewrite total_entry_size_insert by done.
  pose proof (Hs h e (lookup_insert_eq _ _ _)).
  enough (0 <= total_entry_size ts) by lia. apply IH. intros h' e' He. apply (Hs h').
  rewrite lookup_insert_ne; [done|congruence].
Qed.

Lemma ok_pos m h e : pool_ok m -> transactions m !! h = Some e -> 1 <= entry_size e.
Proof. intros Hm He. destruct (ok_entry _ Hm h e He) as (_ & -> & _). lia. Qed.

Lemma pool_size_nonneg m : pool_ok m -> 0 <= current_size m.
Proof.
  intros Hm. rewrite (ok_size _ Hm). apply total_entry_size_nonneg. intros h e He.
  by apply (ok_pos m h).
Qed.

Lemma audit_ok m ev : pool_ok m -> pool_ok (audit m ev).
Proof.
  intros []. split; try done. unfold audit. cbn [audit_log]. rewrite length_app. cbn [length].
  assert (1 <= AUDIT_LOG_CAPACITY)%nat by (unfold AUDIT_LOG_CAPACITY; lia).
  destruct (Nat.leb_spec AUDIT_LOG_CAPACITY (length (audit_log m))); [|lia].
  destruct (audit_log m); cbn [length tail] in *; lia.
Qed.

Lemma remove_transactions m h : transactions (remove m h) = delete h (transactions m).
Proof.
  unfold Mempool.remove. destruct (transactions m !! h) eqn:E; [done|]. by rewrite delete_id.
Qed.

Lemma remove_fee m h : pool_ok m -> by_fee (remove m h) = keep [h] (by_fee m).
Proof.
  intros Hm. unfold Mempool.remove. destruct (transactions m !! h) as [e|] eqn:E; cbn [by_fee].
  - apply fee_remove_keep. intros g Hg. apply (ok_fee _ Hm) in Hg as (e' & He' & <-). congruence.
  - symmetry. apply keep_none. intros [g h'] Hk. cbn. rewrite list_elem_of_singleton. intros ->.
    apply (ok_fee _ Hm) in Hk as (e' & He' & _). congruence.
Qed.

Lemma remove_max m h : max_size (remove m h) = max_size m.
Proof. unfold Mempool.remove. by destruct (transactions m !! h). Qed.

Lemma entry_le_current m h e : pool_ok m -> transactions m !! h = Some e -> entry_size e <= current_size m.
Proof.
  intros Hm He. rewrite (ok_size _ Hm), (total_entry_size_delete _ h e He).
  enough (0 <= total_entry_size (delete h (transactions m))) by lia.
  apply total_entry_size_nonneg. intros h' e' [_ H']%lookup_delete_Some. by apply (ok_pos m h').
Qed.

Lemma remove_size m h e : pool_ok m -> transactions m !! h = Some e ->
  current_size (remove m h) = current_size m - entry_size e.
Proof.
  intros Hm He. unfold Mempool.remove. rewrite He. cbn [current_size].
  pose proof (entry_le_current m h e Hm He). unfold saturating_sub. lia.
Qed.

Lemma remove_ok m h : pool_ok m -> pool_ok (remove m h).
Proof.
  intros Hm. destruct (transactions m !! h) as [e|] eqn:E; cycle 1.
  { unfold Mempool.remove. by rewrite E. }
  pose proof (remove_size m h e Hm E) as Hsz. split.
  - rewrite remove_max. apply (ok_max _ Hm).
  - intros h' e'. rewrite remove_transactions. intros [_ H']%lookup_delete_Some. by apply (ok_entry _ Hm).
  - rewrite remove_fee by done. apply filter_sorted, (ok_sorted _ Hm).
  - intros f h'. rewrite remove_fee by done. rewrite elem_of_keep, (ok_fee _ Hm), remove_transactions.
    cbn. rewrite list_elem_of_singleton. setoid_rewrite lookup_delete_Some. naive_solver.
  - unfold Mempool.remove. rewrite E. cbn [transactions key_images].
    exact (owns_delete _ _ _ _ _ (ok_images _ Hm) E).
  - unfold Mempool.remove. rewrite E. cbn [transactions linking_tags].
    exact (owns_delete _ _ _ _ _ (ok_tags _ Hm) E).
  - rewrite Hsz, (ok_size _ Hm), (total_entry_size_delete _ h e E), remove_transactions. lia.
  - rewrite Hsz, remove_max. destruct (ok_entry _ Hm h e E) as (_ & ? & _).
    pose proof (ok_bound _ Hm). lia.
  - unfold Mempool.remove. rewrite E. apply (ok_log _ Hm).
Qed.

Lemma remove_logged_ok m now r h : pool_ok m -> pool_ok (remove_logged m now r h).
Proof. intros Hm. by apply remove_ok, audit_ok. Qed.

Lemma remove_logged_height m now r h : chain_height (remove_logged m now r h) = chain_height m.
Proof. unfold Mempool.remove_logged, Mempool.remove. by destruct (_ !! _). Qed.

Lemma remove_all_height now r hs : forall m, chain_height (remove_all m now r hs) = chain_height m.
Proof.
  unfold Mempool.remove_all. induction hs as [|h hs IH]; intros m; [done|]. cbn [fold_left].
  by rewrite IH, remove_logged_height.
Qed.

(** Everything about a logged removal. *)
Lemma remove_logged_spec m now r h : pool_ok m ->
  transactions (remove_logged m now r h) = delete h (transactions m)
  /\ by_fee (remove_logged m now r h) = keep [h] (by_fee m)
  /\ max_size (remove_logged m now r h) = max_size m
  /\ (forall e, transactions m !! h = Some e ->
       current_size (remove_logged m now r h) = current_size m - entry_size e).
Proof.
  intros Hm. unfold Mempool.remove_logged. pose proof (audit_ok m (TxRemoved h r now) Hm) as Ha.
  rewrite remove_transactions, remove_fee, remove_max by done. split_and!; try done.
  intros e He. by rewrite (remove_size _ _ e Ha).
Qed.

Lemma remove_all_ok now r hs : forall m, pool_ok m -> pool_ok (remove_all m now r hs).
Proof.
  unfold Mempool.remove_all. induction hs as [|h hs IH]; intros m Hm; [done|]. cbn [fold_left].
  by apply IH, remove_logged_ok.
Qed.

Definition sum_sizes (l : list MempoolEntry) : Z := foldr (fun e acc => entry_size e + acc) 0 l.

Lemma remove_all_spec now r hs : forall m, pool_ok m ->
  by_fee (remove_all m now r hs) = keep hs (by_fee m)
  /\ max_size (remove_all m now r hs) = max_size m
  /\ (forall h, transactions (remove_all m now r hs) !! h
        = if decide (h ∈ hs) then None else transactions m !! h)
  /\ (NoDup hs -> (forall h, h ∈ hs -> is_Some (transactions m !! h)) ->
       current_size (remove_all m now r hs) = current_size m - sum_sizes (replaced_entries m hs)).
Proof.
  unfold Mempool.remove_all. induction hs as [|h hs IH]; intros m Hm.
  - cbn [fold_left]. split_and!; [|done| |].
    + symmetry. apply keep_none. set_solver.
    + intros h. by rewrite decide_False by set_solver.
    + intros _ _. cbn. lia.
  - cbn [fold_left].
    destruct (remove_logged_spec m now r h Hm) as (Et & Ef & Em & Es).
    destruct (IH _ (remove_logged_ok m now r h Hm)) as (Ef' & Em' & Et' & Es').
    split_and!.
    + by rewrite Ef', Ef, <- keep_cons.
    + by rewrite Em', Em.
    + intros h'. rewrite Et', Et. destruct (decide (h' ∈ hs)).
      * by rewrite decide_True by set_solver.
      * rewrite lookup_delete. destruct (decide (h = h')) as [->|].
        -- by rewrite decide_True by set_solver.
        -- by rewrite decide_False by set_solver.
    + intros Hnd Hin. apply list.NoDup_cons in Hnd as [Hni Hnd]. destruct (Hin h) as [e He]; [set_solver|].
      assert (Hrep : replaced_entries (remove_logged m now r h) hs = replaced_entries m hs).
      { unfold replaced_entries. apply list_omap_ext. clear -Hni Et. rewrite Et.
        induction hs as [|h' hs IH]; constructor; [|apply IH; set_solver].
        rewrite lookup_delete_ne; [done|]. set_solver. }
      rewrite Es', Hrep, (Es e He); [|done|].
      * assert (replaced_entries m (h :: hs) = e :: replaced_entries m hs) as ->
          by (unfold replaced_entries; cbn; by rewrite He).
        cbn [sum_sizes foldr]. fold (sum_sizes (replaced_entries m hs)). lia.
      * intros h' Hh'. rewrite Et, lookup_delete_ne; [apply Hin; set_solver|set_solver].
Qed.

(** *** Conflicts *)

(** The entry pays so much less that the new rate may replace it. *)
Definition outbid (new_rate : Z) (e : MempoolEntry) : Prop :=
  125 * fee_per_byte e <= 100 * new_rate /\ fee_per_byte e < new_rate.

Lemma conflicting_some m ki h r : conflicting m ki = Some (h, r) ->
  exists e, transactions m !! h = Some e /\ ki ∈ key_images_of (tx e) /\ r = fee_per_byte e.
Proof.
  unfold conflicting. destruct (List.find _ _) as [[h' e]|] eqn:E; [|done]. intros [= <- <-].
  apply find_some in E as [Hin Hki]. apply list_elem_of_In, elem_of_map_to_list in Hin.
  apply bool_decide_eq_true in Hki. eauto.
Qed.

Lemma elem_of_push_new l h x : x ∈ push_new l h <-> x ∈ l \/ x = h.
Proof. unfold push_new. destruct (decide _); set_solver. Qed.

Lemma NoDup_push_new l h : NoDup l -> NoDup (push_new l h).
Proof.
  intros. unfold push_new. destruct (decide _); [done|]. apply list.NoDup_app. split_and!; [done| |].
  - set_solver.
  - apply NoDup_singleton.
Qed.

Lemma rate_fits f s : 0 <= f -> fits u64_max (scaled_fee_per_byte f s).
Proof.
  intros. unfold scaled_fee_per_byte, fits. assert (0 <= f * 1000000 / Z.max s 1) by (apply Z.div_pos; lia).
  lia.
Qed.

Lemma find_conflicts_ok m rate kis : forall acc l,
  pool_ok m -> fits u64_max rate ->
  find_conflicts m rate kis acc = Ok l ->
  (forall h, h ∈ acc -> h ∈ l) /\ (NoDup acc -> NoDup l)
  /\ (forall h, h ∈ l -> h ∈ acc \/ exists e ki, transactions m !! h = Some e
        /\ ki ∈ kis /\ ki ∈ key_images_of (tx e) /\ outbid rate e)
  /\ (forall ki, ki ∈ kis -> ki ∈ key_images m ->
        exists h e, h ∈ l /\ transactions m !! h = Some e /\ ki ∈ key_images_of (tx e)).
Proof.
  induction kis as [|ki kis IH]; intros acc l Hm Hr; cbn [find_conflicts].
  - intros [= <-]. split_and!; try done; set_solver.
  - destruct (decide (ki ∈ key_images m)) as [Hki|Hki]; cycle 1.
    { intros E. destruct (IH acc l Hm Hr E) as (H1 & H2 & H3 & H4). split_and!; [done|done| |].
      - intros h Hh. destruct (H3 h Hh) as [?|(e & k & ? & ? & ?)]; [by left|right; exists e, k; set_solver].
      - intros k. rewrite elem_of_cons. intros [->|Hk] Hk'; [done|auto]. }
    destruct (conflicting m ki) as [[h r]|] eqn:Ec; [|done].
    destruct (_ && _) eqn:Eb; [|done]. intros E.
    apply conflicting_some in Ec as (e & He & Hke & ->).
    destruct (ok_entry _ Hm h e He) as (_ & _ & Erate & Hfee & _).
    pose proof (rate_fits (fee (tx e)) (size (tx e)) Hfee) as Hrf. rewrite <- Erate in Hrf.
    assert (Hout : outbid rate e).
    { apply andb_prop in Eb as [E1 E2]. apply Z.leb_le in E1. apply Z.ltb_lt in E2.
      unfold saturating_mul, RBF_FEE_BUMP_NUMERATOR, RBF_FEE_BUMP_DENOMINATOR, fits, outbid in *. lia. }
    destruct (IH _ l Hm Hr E) as (H1 & H2 & H3 & H4).
    assert (Hl : h ∈ l) by (apply H1, elem_of_push_new; by right).
    split_and!.
    + intros h' Hh'. apply H1, elem_of_push_new. by left.
    + intros Hnd. by apply H2, NoDup_push_new.
    + intros h' Hh'. destruct (H3 h' Hh') as [Hp|(e' & k & ? & ? & ?)].
      * apply elem_of_push_new in Hp as [? | ->]; [by left|]. right. exists e, ki. set_solver.
      * right. exists e', k. set_solver.
    + intros k. rewrite elem_of_cons. intros [->|Hk] Hk'; [eauto|auto].
Qed.

(** *** The plan and the eviction loop *)

Lemma sum_sizes_nonneg l : (forall e, e ∈ l -> 1 <= entry_size e) -> 0 <= sum_sizes l.
Proof.
  unfold sum_sizes. induction l as [|e l IH]; intros Hp; cbn [foldr]; [lia|].
  pose proof (Hp e (list_elem_of_here _ _)).
  enough (0 <= foldr (fun e acc => entry_size e + acc) 0 l) by lia. apply IH. intros e' He'. apply Hp. by right.
Qed.

Lemma wrap_sum l : (forall e, e ∈ l -> 1 <= entry_size e) -> sum_sizes l <= u64_max ->
  foldr (fun e acc => wrap u64_max (entry_size e + acc)) 0 l = sum_sizes l.
Proof.
  induction l as [|e l IH]; intros Hp Hle; [done|].
  assert (Hp' : forall e, e ∈ l -> 1 <= entry_size e) by (intros e' He'; apply Hp; by right).
  pose proof (sum_sizes_nonneg l Hp'). pose proof (Hp e (list_elem_of_here _ _)).
  unfold sum_sizes in *. cbn [foldr] in *.
  rewrite (IH Hp') by lia. apply wrap_small. unfold fits. lia.
Qed.

Lemma simulate_stop m sz rate R l s a :
  wrap u64_max (s + sz) <= max_size m -> simulate m sz rate R l s a = s.
Proof. destruct l as [|[r h] l]; cbn [simulate]; [done|]. intros. zcases; done. Qed.

Lemma simulate_cap m sz rate R l s a :
  MAX_EVICTION_ATTEMPTS <= a -> simulate m sz rate R l s a = s.
Proof.
  destruct l as [|[r h] l]; cbn [simulate]; [done|]. intros. zcases; rewrite ?orb_true_r; done.
Qed.

(** Skipping the replaced transactions is planning over the pool without them. *)
Lemma simulate_keep m m1 sz rate R l : forall s a,
  max_size m1 = max_size m ->
  (forall k, k ∈ l -> snd k ∉ R -> transactions m1 !! snd k = transactions m !! snd k) ->
  simulate m sz rate R l s a = simulate m1 sz rate [] (keep R l) s a.
Proof.
  induction l as [|[r h] l IH]; intros s a Hmax Hlk; [done|]. unfold keep. cbn [simulate List.filter snd].
  fold (keep R l). assert (Hlk' : forall k, k ∈ l -> snd k ∉ R -> transactions m1 !! snd k = transactions m !! snd k)
    by (intros k Hk; apply Hlk; by right).
  destruct (decide (h ∈ R)) as [Hin|Hin].
  - rewrite bool_decide_eq_true_2 by done. cbn [negb].
    destruct (Z.leb_spec (wrap u64_max (s + sz)) (max_size m)); cbn [orb].
    { by rewrite simulate_stop by lia. }
    rewrite <- (IH s a Hmax Hlk'). destruct (Z.leb_spec MAX_EVICTION_ATTEMPTS a); [|done].
    by rewrite simulate_cap.
  - rewrite bool_decide_eq_false_2 by done. cbn [negb simulate]. rewrite Hmax.
    destruct (_ || _); [done|]. rewrite (decide_False (P := h ∈ [])) by set_solver.
    destruct (rate <=? r); [done|].
    pose proof (Hlk (r, h) (list_elem_of_here _ _) Hin) as E. cbn [snd] in E. rewrite E.
    destruct (transactions m !! h); by rewrite <- IH.
Qed.

Lemma simulate_range m sz rate R l : forall s a, pool_ok m -> 0 <= s ->
  0 <= simulate m sz rate R l s a <= s.
Proof.
  induction l as [|[r h] l IH]; intros s a Hm Hs; cbn [simulate]; [lia|].
  destruct (_ || _); [lia|]. destruct (decide _); [by apply IH|]. destruct (rate <=? r); [lia|].
  destruct (transactions m !! h) as [e|] eqn:E; [|by apply IH].
  destruct (ok_entry _ Hm h e E) as (_ & ? & _).
  assert (Hd : 0 <= saturating_sub s (entry_size e) <= s) by (unfold saturating_sub; lia).
  pose proof (IH _ (a + 1) Hm (proj1 Hd)). lia.
Qed.

(** The head of the fee index is the only key of its hash. *)
Lemma head_unique m f h l g : pool_ok m -> by_fee m = (f, h) :: l -> (g, h) ∉ l.
Proof.
  intros Hm Hl Hk. pose proof (ok_sorted _ Hm) as Hs. rewrite Hl in Hs.
  apply StronglySorted_inv in Hs as [_ Hs]. rewrite list.Forall_forall in Hs. specialize (Hs _ Hk).
  assert (H1 : (g, h) ∈ by_fee m) by (rewrite Hl; by right).
  assert (H2 : (f, h) ∈ by_fee m) by (rewrite Hl; by left).
  apply (ok_fee _ Hm) in H1 as (e' & He' & Hg). apply (ok_fee _ Hm) in H2 as (e & He & Hf). rewrite fee_lt_spec in Hs. cbn in Hs.
  assert (e' = e) by congruence. subst. lia.
Qed.

Lemma evict_spec m now f h l : pool_ok m -> by_fee m = (f, h) :: l ->
  exists e, transactions m !! h = Some e /\ fee_per_byte e = f
  /\ pool_ok (evict_lowest_fee shielded_linking_tags m now)
  /\ transactions (evict_lowest_fee shielded_linking_tags m now) = delete h (transactions m)
  /\ by_fee (evict_lowest_fee shielded_linking_tags m now) = l
  /\ max_size (evict_lowest_fee shielded_linking_tags m now) = max_size m
  /\ current_size (evict_lowest_fee shielded_linking_tags m now) = current_size m - entry_size e.
Proof.
  intros Hm Hl. assert (Hin : (f, h) ∈ by_fee m) by (rewrite Hl; left).
  apply (ok_fee _ Hm) in Hin as (e & He & Hf). exists e.
  unfold evict_lowest_fee. rewrite Hl.
  destruct (remove_logged_spec m now LowFee h Hm) as (Et & Ef & Em & Es).
  split_and!; try done; [by apply remove_logged_ok| |by apply Es].
  rewrite Ef, Hl. unfold keep. cbn [List.filter snd]. rewrite bool_decide_eq_true_2 by set_solver.
  cbn [negb]. apply keep_none. intros [g h'] Hk. cbn. rewrite list_elem_of_singleton. intros ->.
  by eapply (head_unique m f h l g).
Qed.

(** What the eviction of [m] to [m'] may drop. *)
Definition drops_lower (rate : Z) (m m' : Mempool) : Prop :=
  (forall h e, transactions m' !! h = Some e -> transactions m !! h = Some e)
  /\ (forall h e, transactions m !! h = Some e ->
        transactions m' !! h = Some e \/ fee_per_byte e < rate).

Lemma drops_lower_evict rate m m1 m' h e :
  transactions m !! h = Some e -> fee_per_byte e < rate -> transactions m1 = delete h (transactions m) ->
  drops_lower rate m1 m' -> drops_lower rate m m'.
Proof.
  intros He Hlow Et [Hsub Hdrop]. rewrite Et in Hsub, Hdrop. split.
  - intros h' e' H'. apply Hsub in H'. by apply lookup_delete_Some in H' as [_ ?].
  - intros h' e' H'. destruct (decide (h = h')) as [->|Hne]; [right; congruence|].
    apply Hdrop. by rewrite lookup_delete_ne.
Qed.

(** The loop carries out the plan: when the plan makes room the loop succeeds, and it
    drops only entries of a lower rate. *)
Lemma evict_loop m now h0 sz rate l : forall att fuel,
  pool_ok m -> by_fee m = l -> 1 <= sz <= MAX_TX_SIZE -> 0 <= att <= 100 ->
  (Z.to_nat (100 - att) < fuel)%nat ->
  simulate m sz rate [] l (current_size m) att + sz <= max_size m ->
  exists m', iter (evict_step shielded_linking_tags now h0 sz) fuel (m, att) = Some (m', Ok tt)
  /\ pool_ok m' /\ max_size m' = max_size m /\ current_size m' + sz <= max_size m
  /\ chain_height m' = chain_height m /\ drops_lower rate m m'.
Proof.
  revert m. induction l as [|[r h] l IH]; intros m att fuel Hm Hl Hsz Hatt Hfuel Hfit;
    (destruct fuel as [|fuel]; [lia|]); cbn [iter].
  all: pose proof (pool_size_nonneg m Hm) as Hn; pose proof (ok_bound _ Hm) as Hb;
    pose proof (ok_max _ Hm) as Hmx; unfold MAX_TX_SIZE in *;
    assert (Hmx' : max_size m <= 184467440737095516) by (clear -Hmx; change (u64_max / 100) with 184467440737095516 in Hmx; lia);
    unfold evict_step at 1; rewrite (wrap_small _ (current_size m + sz)) by (unfold fits; lia).
  - cbn [simulate] in Hfit. destruct (Z.ltb_spec (max_size m) (current_size m + sz)); [lia|]. cbn [negb orb].
    exists m. split_and!; try done. split; [done|eauto].
  - destruct (Z.ltb_spec (max_size m) (current_size m + sz)) as [Hbig|]; cbn [negb orb]; cycle 1.
    { exists m. split_and!; try done. split; [done|eauto]. }
    destruct (evict_spec m now r h l Hm Hl) as (e & He & Hr & Hok' & Et & Ef & Em & Es).
    destruct (ok_entry _ Hm h e He) as (_ & Hpos & _).
    set (m1 := evict_lowest_fee shielded_linking_tags m now) in *.
    rewrite bool_decide_eq_false_2 by (intros Hempty; rewrite Hempty in He; by rewrite lookup_empty in He).
    cbn [simulate] in Hfit. rewrite (wrap_small _ (current_size m + sz)) in Hfit by (unfold fits; lia).
    destruct (Z.leb_spec (current_size m + sz) (max_size m)); [lia|]. cbn [orb] in Hfit.
    destruct (Z.leb_spec MAX_EVICTION_ATTEMPTS att) as [|Hlt]; [lia|].
    rewrite (decide_False (P := h ∈ [])) in Hfit by set_solver.
    destruct (Z.leb_spec rate r) as [|Hlow]; [lia|]. rewrite He in Hfit.
    unfold MAX_EVICTION_ATTEMPTS in *.
    pose proof (pool_size_nonneg m1 Hok') as Hn1.
    replace (saturating_sub (current_size m) (entry_size e)) with (current_size m1) in Hfit
      by (unfold saturating_sub; lia).
    assert (Hfit1 : simulate m1 sz rate [] l (current_size m1) (att + 1) + sz <= max_size m1).
    { rewrite Em. rewrite (simulate_keep m m1 sz rate [] l) in Hfit; [|done|].
      - by rewrite keep_none in Hfit by set_solver.
      - intros [g h'] Hk _. cbn [snd]. rewrite Et, lookup_delete_ne; [done|]. intros <-.
        by eapply (head_unique m r h l g). }
    destruct (Z.leb_spec (current_size m) (current_size m1)); [lia|]. cbn [orb].
    rewrite Em, (wrap_small _ (current_size m1 + sz)) by (unfold fits; lia).
    destruct (IH m1 (att + 1) fuel Hok' Ef ltac:(lia) ltac:(lia) ltac:(lia) Hfit1)
      as (m' & Hrun & Hok & Hmax & Hroom & Hh & Hsub & Hdrop).
    destruct (Z.ltb_spec (max_size m) (current_size m1 + sz)) as [Hstill|]; cbn [andb];
      [destruct (Z.leb_spec 100 (att + 1)); [rewrite simulate_cap in Hfit1 by done; lia|]|].
    all: exists m'; rewrite Hrun; split_and!; try done; [congruence|lia| |].
    all: try (rewrite Hh; unfold m1, evict_lowest_fee; rewrite Hl; apply remove_logged_height).
    all: apply (drops_lower_evict rate m m1 m' h e); [done|lia|done|by split].
Qed.

(** *** Admission *)

(** A transaction as it comes off the wire: not empty, and with a fee that is a [u64]. *)
Definition sane_tx (t : Transaction) : Prop := 1 <= size t /\ fits u64_max (fee t).

Lemma insert_ok m now t tags : pool_ok m -> sane_tx t -> is_coinbase t = false ->
  shielded_linking_tags t = Ok tags -> transactions m !! hash t = None ->
  (forall ki, ki ∈ key_images_of t -> ki ∉ key_images m) ->
  (forall g, g ∈ tags -> g ∉ linking_tags m) ->
  current_size m + size t <= max_size m -> pool_ok (insert_entry m now t tags).
Proof.
  intros Hm [Hs Hf] Hcb Et Hn Hki Htg Hroom. unfold fits in Hf.
  pose proof (pool_size_nonneg m Hm) as Hc. pose proof (ok_max _ Hm) as Hmax.
  change (u64_max / 100) with 184467440737095516 in Hmax.
  assert (Hlk : forall h e, transactions (insert_entry m now t tags) !! h = Some e <->
            (h = hash t /\ e = entry_new t (chain_height m) now) \/ (h <> hash t /\ transactions m !! h = Some e)).
  { intros h e. unfold insert_entry. cbn [transactions audit chain_height].
    rewrite lookup_insert_Some. naive_solver. }
  assert (Htags : tags_of t = tags) by (unfold Mempool.tags_of; by rewrite Et).
  assert (Hrate : fee_per_byte (entry_new t (chain_height m) now) = scaled_fee_per_byte (fee t) (size t)).
  { unfold entry_new, scaled_fee_per_byte. cbn [fee_per_byte]. by destruct (Z.ltb_spec 0 (Z.max (size t) 1)); [|lia]. }
  assert (Hsize : entry_size (entry_new t (chain_height m) now) = size t) by (unfold entry_new; cbn [entry_size]; lia).
  assert (Hcur : current_size (insert_entry m now t tags) = current_size m + size t).
  { unfold insert_entry. cbn [current_size audit chain_height]. rewrite Hsize. apply wrap_small. unfold fits. lia. }
  split.
  - exact (ok_max _ Hm).
  - intros h e [[-> ->]|[_ He]]%Hlk; [|by apply (ok_entry _ Hm)]. rewrite Hsize, Hrate. cbn [tx entry_new]. split_and!; [done|lia|done|lia|done].
  - apply fee_insert_sorted, (ok_sorted _ Hm).
  - intros f h. unfold insert_entry at 1. cbn [by_fee audit chain_height].
    rewrite elem_of_fee_insert, (ok_fee _ Hm). setoid_rewrite Hlk. split.
    + intros [[= -> ->]|(e & He & Hfe)]; [eauto|]. exists e. split; [|done]. right. split; [congruence|done].
    + intros (e & [[-> ->]|[_ He]] & <-); [by left|]. right. eauto.
  - exact (owns_insert _ _ _ _ (entry_new t (chain_height m) now) (ok_images _ Hm) Hn Hki).
  - rewrite <- Htags in Htg |- *.
    exact (owns_insert _ _ _ _ (entry_new t (chain_height m) now) (ok_tags _ Hm) Hn Htg).
  - rewrite Hcur, (ok_size _ Hm). unfold insert_entry. cbn [transactions audit chain_height].
    rewrite total_entry_size_insert, Hsize by done. lia.
  - rewrite Hcur. exact Hroom.
  - exact (ok_log _ (audit_ok m _ Hm)).
Qed.

(** After a plan that makes room, the removals and the evictions make it. *)
Lemma evict_after_plan m now h0 sz rate R : pool_ok m -> NoDup R ->
  (forall h, h ∈ R -> is_Some (transactions m !! h)) -> 1 <= sz <= MAX_TX_SIZE ->
  fits_after_plan m sz rate R = true ->
  exists m', evict_until_fits shielded_linking_tags (remove_all m now ReplacedByFee R) now h0 sz = (m', Ok tt)
  /\ pool_ok m' /\ max_size m' = max_size m /\ current_size m' + sz <= max_size m
  /\ chain_height m' = chain_height m /\ drops_lower rate (remove_all m now ReplacedByFee R) m'.
Proof.
  intros Hm Hnd HR Hsz Hfit. set (m1 := remove_all m now ReplacedByFee R).
  destruct (remove_all_spec now ReplacedByFee R m Hm) as (Ef & Em & Et & Es). fold m1 in Ef, Em, Et, Es.
  specialize (Es Hnd HR).
  assert (Hm1 : pool_ok m1) by (by apply remove_all_ok). pose proof (pool_size_nonneg _ Hm1) as Hn1.
  pose proof (ok_bound _ Hm) as Hb. pose proof (ok_max _ Hm) as Hmax. pose proof (ok_bound _ Hm1) as Hb1.
  change (u64_max / 100) with 184467440737095516 in Hmax. unfold MAX_TX_SIZE in Hsz.
  assert (Hpos : forall e, e ∈ replaced_entries m R -> 1 <= entry_size e).
  { intros e. unfold replaced_entries. rewrite list_elem_of_omap. intros (h & _ & He).
    by apply (ok_pos m h). }
  pose proof (sum_sizes_nonneg _ Hpos) as Hsn.
  assert (Hplan : simulate m1 sz rate [] (by_fee m1) (current_size m1) 0 + sz <= max_size m1).
  { unfold fits_after_plan in Hfit. rewrite wrap_sum in Hfit by (done || lia).
    replace (saturating_sub (current_size m) (sum_sizes (replaced_entries m R))) with (current_size m1) in Hfit
      by (unfold saturating_sub; lia).
    rewrite (wrap_small _ (current_size m1 + sz)) in Hfit by (unfold fits; lia).
    destruct (Z.ltb_spec (max_size m) (current_size m1 + sz)); cycle 1.
    { rewrite simulate_stop; [lia|]. rewrite wrap_small by (unfold fits; lia). lia. }
    rewrite (simulate_keep m m1) in Hfit; [|done|intros k _ Hk; rewrite Et; by rewrite decide_False].
    rewrite <- Ef in Hfit. pose proof (simulate_range m1 sz rate [] (by_fee m1) (current_size m1) 0 Hm1 ltac:(lia)).
    rewrite wrap_small in Hfit by (unfold fits; lia). lia. }
  destruct (evict_loop m1 now h0 sz rate (by_fee m1) 0 evict_fuel Hm1 eq_refl ltac:(done) ltac:(lia)
              ltac:(unfold evict_fuel; lia) Hplan) as (m' & Hrun & Hok & Hmx & Hroom & Hh & Hd).
  exists m'. unfold evict_until_fits. rewrite Hrun. split_and!; try done; [congruence|lia|].
  rewrite Hh. apply remove_all_height.
Qed.

(** What an accepted admission of [t] makes of the pool. *)
Definition admitted (now : Z) (m : Mempool) (t : Transaction) (m' : Mempool) : Prop :=
  let rate := scaled_fee_per_byte (fee t) (size t) in
  max_size m' = max_size m
  /\ transactions m' !! hash t = Some (entry_new t (chain_height m) now)
  /\ (forall h e, h <> hash t -> transactions m' !! h = Some e -> transactions m !! h = Some e)
  /\ (forall h e ki, transactions m !! h = Some e -> ki ∈ key_images_of t -> ki ∈ key_images_of (tx e) ->
        outbid rate e /\ transactions m' !! h = None)
  /\ (forall h e, transactions m !! h = Some e -> transactions m' !! h = Some e \/ fee_per_byte e < rate).

(** No key image and no linking tag of the new transaction is left after the removals. *)
Lemma conflicts_gone m m' now t R tags : pool_ok m -> pool_ok m' ->
  fits u64_max (scaled_fee_per_byte (fee t) (size t)) ->
  find_conflicts m (scaled_fee_per_byte (fee t) (size t)) (key_images_of t) [] = Ok R ->
  existsb (fun g => bool_decide (g ∈ linking_tags m)
             && negb (bool_decide (g ∈ flat_map (fun e => tags_of (tx e)) (replaced_entries m R)))) tags = false ->
  (forall h e, transactions m' !! h = Some e -> transactions (remove_all m now ReplacedByFee R) !! h = Some e) ->
  (forall ki, ki ∈ key_images_of t -> ki ∉ key_images m') /\ (forall g, g ∈ tags -> g ∉ linking_tags m').
Proof.
  intros Hm Hm' Hr HR Htags Hsub.
  destruct (find_conflicts_ok m _ _ [] R Hm Hr HR) as (_ & _ & _ & Hall).
  destruct (remove_all_spec now ReplacedByFee R m Hm) as (_ & _ & Et & _).
  assert (Hback : forall h e, transactions m' !! h = Some e -> h ∉ R /\ transactions m !! h = Some e).
  { intros h e He. apply Hsub in He. rewrite Et in He. by destruct (decide (h ∈ R)). }
  split.
  - intros ki Hki (h & e & He & Hke)%(ok_images _ Hm'). apply Hback in He as [Hni He].
    destruct (Hall ki Hki) as (h' & e' & HR' & He' & Hk'); [apply (ok_images _ Hm); eauto|].
    apply Hni. by rewrite (proj2 (ok_images _ Hm) h h' e e' ki).
  - intros g Hg (h & e & He & Hge)%(ok_tags _ Hm'). apply Hback in He as [Hni He].
    assert (Hin : g ∈ linking_tags m) by (apply (ok_tags _ Hm); eauto).
    apply not_true_iff_false in Htags. apply Htags. apply existsb_exists. exists g.
    rewrite <- list_elem_of_In, (bool_decide_eq_true_2 _ Hin), bool_decide_eq_false_2; [done|].
    intros (e' & He' & Hge')%list_elem_of_In%in_flat_map. apply list_elem_of_In in Hge'.
    apply list_elem_of_In in He'. unfold replaced_entries in He'.
    apply list_elem_of_omap in He' as (h' & HR' & He').
    apply Hni. by rewrite (proj2 (ok_tags _ Hm) h h' e e' g).
Qed.

Lemma admitted_insert m m2 now t R tags : pool_ok m ->
  fits u64_max (scaled_fee_per_byte (fee t) (size t)) ->
  find_conflicts m (scaled_fee_per_byte (fee t) (size t)) (key_images_of t) [] = Ok R ->
  drops_lower (scaled_fee_per_byte (fee t) (size t)) (remove_all m now ReplacedByFee R) m2 ->
  chain_height m2 = chain_height m -> max_size m2 = max_size m -> transactions m !! hash t = None ->
  admitted now m t (insert_entry m2 now t tags).
Proof.
  intros Hm Hr HR [Hsub Hdrop] Hh Hmx Hnew.
  destruct (find_conflicts_ok m _ _ [] R Hm Hr HR) as (_ & _ & Hout & Hall).
  destruct (remove_all_spec now ReplacedByFee R m Hm) as (_ & _ & Et & _).
  assert (HoutR : forall h e, h ∈ R -> transactions m !! h = Some e -> outbid (scaled_fee_per_byte (fee t) (size t)) e).
  { intros h e Hin He. destruct (Hout h Hin) as [Hn|(e' & _ & He' & _ & _ & ?)]; [set_solver|]. congruence. }
  unfold admitted, insert_entry. cbn [transactions audit chain_height max_size]. rewrite Hh. split_and!; [done| | | |].
  - apply lookup_insert_eq.
  - intros h e Hne. rewrite lookup_insert_ne by done. intros He%Hsub. rewrite Et in He.
    by destruct (decide (h ∈ R)).
  - intros h e ki He Ht Hke.
    destruct (Hall ki Ht) as (h' & e' & HinR & He' & Hk'); [apply (ok_images _ Hm); eauto|].
    assert (h' = h) as -> by (by apply (proj2 (ok_images _ Hm) h' h e' e ki)).
    split; [by apply (HoutR h)|]. rewrite lookup_insert_ne by congruence.
    destruct (transactions m2 !! h) eqn:E2; [|done]. apply Hsub in E2. rewrite Et in E2. by rewrite decide_True in E2.
  - intros h e He. rewrite lookup_insert_ne by congruence. destruct (decide (h ∈ R)) as [HinR|HinR].
    + right. by apply (HoutR h).
    + apply Hdrop. rewrite Et. by rewrite decide_False.
Qed.

Lemma admit_spec m now t m' r : pool_ok m -> sane_tx t -> is_coinbase t = false -> transactions m !! hash t = None ->
  admit_after_checks shielded_linking_tags m now t = (m', r) ->
  match r with
  | Err e => m' = reject m now (hash t) e
  | Ok h => h = hash t /\ pool_ok m' /\ admitted now m t m'
  end.
Proof.
  intros Hm Ht Hcb Hnew. pose proof (rate_fits (fee t) (size t) ltac:(unfold sane_tx, fits in Ht; lia)) as Hrate.
  unfold admit_after_checks. destruct (Z.ltb_spec MAX_TX_SIZE (size t)) as [|Hmax]; [by intros [= <- <-]|].
  destruct (shielded_linking_tags t) as [tags|e] eqn:Etag; [|by intros [= <- <-]].
  destruct (fee t <? _); [by intros [= <- <-]|].
  destruct (find_conflicts _ _ _ _) as [R|e] eqn:ER; [|by intros [= <- <-]].
  destruct (existsb _ _) eqn:Edup; [by intros [= <- <-]|].
  destruct (fits_after_plan _ _ _ _) eqn:Efit; cbn [negb]; [|by intros [= <- <-]].
  destruct (find_conflicts_ok m _ _ [] R Hm Hrate ER) as (_ & Hnd & HR & Hall).
  specialize (Hnd ltac:(constructor)).
  destruct (evict_after_plan m now (hash t) (size t) (scaled_fee_per_byte (fee t) (size t)) R Hm Hnd)
    as (m2 & Hev & Hok & Emax & Hroom & Hh & Hd); [| |done|].
  { intros h Hin. destruct (HR h Hin) as [Hn|(e & _ & ? & _)]; [set_solver|eauto]. }
  { unfold sane_tx in Ht. lia. }
  rewrite Hev. intros [= <- <-].
  destruct (conflicts_gone m m2 now t R tags Hm Hok Hrate ER Edup (proj1 Hd)) as [Hki Htg].
  assert (Hn2 : transactions m2 !! hash t = None).
  { destruct (transactions m2 !! hash t) as [e|] eqn:E; [|done]. apply (proj1 Hd) in E.
    destruct (remove_all_spec now ReplacedByFee R m Hm) as (_ & _ & Et & _). rewrite Et in E.
    destruct (decide _); congruence. }
  split_and!; [done|apply insert_ok; try done; lia|by eapply admitted_insert].
Qed.

(** *** All operations *)

Lemma preflight_not_coinbase c t : preflight_check c t = Ok tt -> is_coinbase t = false.
Proof. unfold preflight_check. by destruct (is_coinbase t). Qed.

Lemma add_spec c m now t m' r : pool_ok m -> sane_tx t -> add shielded_linking_tags c m now t = (m', r) ->
  match r with
  | Err e => m' = reject m now (hash t) e
  | Ok h => h = hash t /\ pool_ok m' /\ (m' = m /\ contains m h = true \/ admitted now m t m')
  end.
Proof.
  intros Hm Ht. unfold add. destruct (preflight_check c t) as [[]|] eqn:Epre; [|by intros [= <- <-]].
  destruct (bool_decide _) eqn:Ec; [intros [= <- <-]; naive_solver|].
  destruct (verify_crypto_for_admission c t _); [|by intros [= <- <-]]. intros E.
  apply bool_decide_eq_false in Ec. rewrite <- eq_None_not_Some in Ec.
  pose proof (admit_spec m now t m' r Hm Ht (preflight_not_coinbase c t Epre) Ec E). destruct r; naive_solver.
Qed.

Lemma fold_remove_ok hs : forall m, pool_ok m -> pool_ok (fold_left remove hs m).
Proof. induction hs as [|h hs IH]; intros m Hm; [done|]. cbn [fold_left]. by apply IH, remove_ok. Qed.

Lemma set_height_ok m now h : pool_ok m -> pool_ok (set_height shielded_linking_tags m now h).
Proof. intros Hm. apply remove_all_ok. destruct Hm. by split. Qed.

Lemma clear_ok m : pool_ok m -> pool_ok (clear m).
Proof.
  intros Hm. pose proof (ok_max _ Hm). split; cbn [clear transactions by_fee key_images linking_tags
    max_size current_size audit_log]; try done.
  - constructor.
  - intros f h. split; [set_solver|by intros (e & He & _)].
  - split; [set_solver|done].
  - split; [set_solver|done].
  - lia.
  - apply (ok_log _ Hm).
Qed.

Lemma with_max_size_ok n : 0 <= n <= u64_max / 100 -> pool_ok (with_max_size n).
Proof.
  intros Hn. split; cbn [with_max_size transactions by_fee key_images linking_tags
    max_size current_size audit_log]; try done.
  - constructor.
  - intros f h. split; [set_solver|by intros (e & He & _)].
  - split; [set_solver|done].
  - split; [set_solver|done].
  - lia.
  - cbn. unfold AUDIT_LOG_CAPACITY. lia.
Qed.

(** Every operation that changes the pool. *)
Inductive pool_step (c : Checks) (m : Mempool) : Mempool -> Prop :=
| step_add now t m' r : sane_tx t -> add shielded_linking_tags c m now t = (m', r) -> pool_step c m m'
| step_confirm now txs : pool_step c m (remove_confirmed shielded_linking_tags m now txs)
| step_height now h : pool_step c m (set_height shielded_linking_tags m now h)
| step_expire now age : pool_step c m (fst (expire_old shielded_linking_tags m now age))
| step_shadow now `(ShadowEvictChain C) (chain : C) :
    pool_step c m (shadow_evict_invalid shielded_linking_tags m now chain)
| step_conflicts kis : pool_step c m (remove_conflicts shielded_linking_tags m kis)
| step_remove h : pool_step c m (remove m h)
| step_clear : pool_step c m (clear m).

Lemma pool_step_ok c m m' : pool_ok m -> pool_step c m m' -> pool_ok m'.
Proof.
  intros Hm [now t m1 r Ht E|now txs|now h|now age|now C HC chain|kis|h|].
  - pose proof (add_spec c m now t m1 r Hm Ht E) as Hs. destruct r as [h|e].
    + by destruct Hs as (_ & ? & _).
    + rewrite Hs. by apply audit_ok.
  - by apply remove_all_ok, remove_all_ok.
  - by apply set_height_ok.
  - by apply remove_all_ok.
  - by apply remove_all_ok.
  - by apply fold_remove_ok.
  - by apply remove_ok.
  - by apply clear_ok.
Qed.

Lemma fold_remove_max hs : forall m, max_size (fold_left remove hs m) = max_size m.
Proof. induction hs as [|h hs IH]; intros m; [done|]. cbn [fold_left]. by rewrite IH, remove_max. Qed.

Lemma remove_all_max now r hs m : pool_ok m -> max_size (remove_all m now r hs) = max_size m.
Proof. intros Hm. by destruct (remove_all_spec now r hs m Hm) as (_ & ? & _). Qed.

Lemma pool_step_max c m m' : pool_ok m -> pool_step c m m' -> max_size m' = max_size m.
Proof.
  intros Hm [now t m1 r Ht E|now txs|now h|now age|now C HC chain|kis|h|].
  - pose proof (add_spec c m now t m1 r Hm Ht E) as Hs. destruct r as [h|e].
    + destruct Hs as (_ & _ & [[-> _]|[? _]]); done.
    + by rewrite Hs.
  - unfold remove_confirmed. rewrite !remove_all_max; [done|done|]. by apply remove_all_ok.
  - unfold set_height, expire_old_transactions. rewrite remove_all_max; [done|]. destruct Hm. by split.
  - by apply remove_all_max.
  - by apply remove_all_max.
  - apply fold_remove_max.
  - apply remove_max.
  - done.
Qed.

Lemma reachable_ok c n m : 0 <= n <= u64_max / 100 ->
  rtc (pool_step c) (with_max_size n) m -> pool_ok m /\ max_size m = n.
Proof.
  intros Hn Hr. assert (H0 : pool_ok (with_max_size n) /\ max_size (with_max_size n) = n)
    by (split; [by apply with_max_size_ok|done]).
  revert H0. induction Hr as [|m1 m2 m3 Hstep _ IH]; [done|]. intros [Hm Hmax]. apply IH. split.
  - by eapply pool_step_ok.
  - by rewrite (pool_step_max _ _ _ Hm Hstep).
Qed.

(** *** Confirmation *)

Lemma conflicting_complete m ki h e : transactions m !! h = Some e -> ki ∈ key_images_of (tx e) ->
  exists h' r, conflicting m ki = Some (h', r).
Proof.
  intros He Hki. unfold conflicting.
  destruct (List.find (fun he => has_image ki (snd he)) (map_to_list (transactions m))) as [[h' e']|] eqn:E; [eauto|].
  pose proof (find_none _ _ E (h, e)) as Hn. cbn [snd] in Hn.
  assert (Hin : In (h, e) (map_to_list (transactions m))) by (by apply list_elem_of_In, elem_of_map_to_list).
  apply Hn in Hin. unfold has_image in Hin. by apply bool_decide_eq_false in Hin.
Qed.

Lemma elem_of_conflict_fold m kis : forall acc h,
  h ∈ fold_left (fun acc ki => match conflicting m ki with Some (h, _) => push_new acc h | None => acc end) kis acc
  <-> h ∈ acc \/ exists ki r, ki ∈ kis /\ conflicting m ki = Some (h, r).
Proof.
  induction kis as [|ki kis IH]; intros acc h; cbn [fold_left]; [set_solver|]. rewrite IH.
  setoid_rewrite elem_of_cons.
  destruct (conflicting m ki) as [[h' r]|] eqn:E; [rewrite elem_of_push_new|]; naive_solver.
Qed.

(** What is left after a block: nothing of the block, and nothing that spends its images. *)
Lemma remove_confirmed_spec m now txs h e : pool_ok m ->
  transactions (remove_confirmed shielded_linking_tags m now txs) !! h = Some e <->
  transactions m !! h = Some e /\ h ∉ map hash txs
  /\ forall t ki, t ∈ txs -> ki ∈ key_images_of t -> ki ∉ key_images_of (tx e).
Proof.
  intros Hm. unfold remove_confirmed. set (m1 := remove_all m now Confirmed (map hash txs)).
  assert (Hm1 : pool_ok m1) by (by apply remove_all_ok).
  destruct (remove_all_spec now Confirmed (map hash txs) m Hm) as (_ & _ & Et & _). fold m1 in Et.
  match goal with |- context [remove_all m1 now DoubleSpend ?l] => set (cs := l) end.
  destruct (remove_all_spec now DoubleSpend cs m1 Hm1) as (_ & _ & Et1 & _). rewrite Et1.
  assert (Hin1 : forall h e, transactions m1 !! h = Some e <-> transactions m !! h = Some e /\ h ∉ map hash txs).
  { intros h' e'. rewrite Et. destruct (decide _); naive_solver. }
  assert (Hcs : transactions m1 !! h = Some e -> h ∉ cs <->
            forall t ki, t ∈ txs -> ki ∈ key_images_of t -> ki ∉ key_images_of (tx e)).
  { intros He. unfold cs. rewrite elem_of_conflict_fold. split.
    - intros Hn t ki Ht Hk Hke. destruct (conflicting_complete m1 ki h e He Hke) as (h' & r & Hc).
      pose proof (conflicting_some _ _ _ _ Hc) as (e' & He' & Hk' & _).
      assert (h' = h) as -> by (by apply (proj2 (ok_images _ Hm1) h' h e' e ki)).
      apply Hn. right. exists ki, r. split; [|done]. apply list_elem_of_In, in_flat_map.
      exists t. by rewrite <- !list_elem_of_In.
    - intros Hall [Hn|(ki & r & Hk & (e' & He' & Hk' & _)%conflicting_some)]; [set_solver|].
      apply list_elem_of_In, in_flat_map in Hk as (t & Ht & Hk). rewrite <- list_elem_of_In in Ht.
      apply list_elem_of_In in Hk. apply (Hall t ki Ht Hk). congruence. }
  destruct (decide (h ∈ cs)); naive_solver.
Qed.

(** *** The block template *)

Definition tx_size (t : Transaction) : Z := Z.max (size t) 1.
Definition txs_size (l : list Transaction) : Z := foldr (fun t acc => tx_size t + acc) 0 l.
Definition tx_rate (t : Transaction) : Z := scaled_fee_per_byte (fee t) (size t).

Lemma txs_size_app l t : txs_size (l ++ [t]) = txs_size l + tx_size t.
Proof. unfold txs_size. induction l as [|u l IH]; cbn [foldr app]; lia. Qed.

Lemma sorted_app_one {A} (R : A -> A -> Prop) l x :
  StronglySorted R l -> (forall y, y ∈ l -> R y x) -> StronglySorted R (l ++ [x]).
Proof.
  induction 1 as [|y l Hl IH Hy]; intros Hx; cbn; [repeat constructor|].
  constructor; [apply IH; set_solver|]. rewrite list.Forall_forall in *. set_solver.
Qed.

(** The selection after the keys [P], from the top of the fee index. *)
Record sel_ok (m : Mempool) (mx cnt : Z) (P : list (Z * Z)) (st : list Transaction * Z * gset Z * gset Z) : Prop := {
  sel_size : snd (fst (fst st)) = txs_size (fst (fst (fst st))) /\ 0 <= snd (fst (fst st)) <= mx;
  sel_count : Z.of_nat (length (fst (fst (fst st)))) <= cnt;
  sel_from t : t ∈ fst (fst (fst st)) ->
    exists k e, k ∈ P /\ transactions m !! snd k = Some e /\ tx e = t;
  sel_images x : x ∈ snd (fst st) -> exists t, t ∈ fst (fst (fst st)) /\ x ∈ key_images_of t;
  sel_tags x : x ∈ snd st -> exists t, t ∈ fst (fst (fst st)) /\ x ∈ tags_of t;
  sel_full k e : k ∈ P -> transactions m !! snd k = Some e ->
    tx e ∈ fst (fst (fst st)) \/ cnt <= Z.of_nat (length (fst (fst (fst st))))
    \/ mx < txs_size (fst (fst (fst st))) + tx_size (tx e);
  sel_nodup : NoDup (map hash (fst (fst (fst st))));
  sel_sorted : StronglySorted (fun t u => tx_rate u <= tx_rate t) (fst (fst (fst st))) }.

Lemma sel_skip m mx cnt P st k : sel_ok m mx cnt P st ->
  (forall e, transactions m !! snd k = Some e -> cnt <= Z.of_nat (length (fst (fst (fst st))))
     \/ mx < txs_size (fst (fst (fst st))) + tx_size (tx e)) ->
  sel_ok m mx cnt (P ++ [k]) st.
Proof.
  intros [] Hk. split; try done.
  - intros t Ht. destruct (sel_from0 t Ht) as (k' & e & ? & ? & ?). exists k', e. set_solver.
  - intros k' e Hin He. apply elem_of_app in Hin as [Hin | ->%list_elem_of_singleton]; eauto.
Qed.

(** No entry of the pool shares an image or a tag with an entry of an earlier key. *)
Lemma sel_fresh m mx cnt P res total kis tags k e x : pool_ok m -> k ∈ by_fee m -> k ∉ P ->
  (forall k', k' ∈ P -> k' ∈ by_fee m) ->
  sel_ok m mx cnt P (res, total, kis, tags) -> transactions m !! snd k = Some e ->
  (x ∈ key_images_of (tx e) -> x ∉ kis) /\ (x ∈ tags_of (tx e) -> x ∉ tags).
Proof.
  intros Hm Hk Hnk HP Hs He.
  assert (Hsame : forall k' e', k' ∈ P -> transactions m !! snd k' = Some e' -> snd k' <> snd k).
  { intros [f' h'] e' Hk' He' Heq. cbn in *. subst h'. apply Hnk. destruct k as [f h]. cbn in *.
    apply HP in Hk' as Hk''. apply (ok_fee _ Hm) in Hk'' as (? & ? & ?). apply (ok_fee _ Hm) in Hk as (? & ? & ?).
    replace f with f' by congruence. done. }
  split; intros Hx Hin.
  - destruct (sel_images _ _ _ _ _ Hs x Hin) as (t & Ht & Hxt).
    destruct (sel_from _ _ _ _ _ Hs t Ht) as (k' & e' & Hk' & He' & <-).
    by apply (Hsame k' e'), (proj2 (ok_images _ Hm) (snd k') (snd k) e' e x).
  - destruct (sel_tags _ _ _ _ _ Hs x Hin) as (t & Ht & Hxt).
    destruct (sel_from _ _ _ _ _ Hs t Ht) as (k' & e' & Hk' & He' & <-).
    by apply (Hsame k' e'), (proj2 (ok_tags _ Hm) (snd k') (snd k) e' e x).
Qed.

Lemma sel_take m mx cnt P res total kis tags k e : pool_ok m -> k ∈ by_fee m -> k ∉ P ->
  (forall k', k' ∈ P -> k' ∈ by_fee m /\ fst k <= fst k') ->
  sel_ok m mx cnt P (res, total, kis, tags) -> transactions m !! snd k = Some e ->
  Z.of_nat (length res) < cnt -> total + tx_size (tx e) <= mx ->
  sel_ok m mx cnt (P ++ [k]) (res ++ [tx e], total + tx_size (tx e), kis ∪ list_to_set (key_images_of (tx e)),
                    tags ∪ list_to_set (tags_of (tx e))).
Proof.
  intros Hm Hk Hnk HP Hs He Hc Hfit.
  pose proof (fun x => sel_fresh m mx cnt P res total kis tags k e x Hm Hk Hnk (fun k' H => proj1 (HP k' H)) Hs He) as Hfr.
  destruct Hs as [[Hsz Hrg] Hcn Hfrom Him Htg Hfull Hnd Hso]. cbn [fst snd] in *.
  assert (Hpos : 1 <= tx_size (tx e)) by (unfold tx_size; lia).
  assert (Hlater : forall t, t ∈ res -> tx_rate (tx e) <= tx_rate t /\ hash t <> hash (tx e)).
  { intros t Ht. destruct (Hfrom t Ht) as (k' & e' & Hk' & He' & <-). destruct (HP k' Hk') as [Hin' Hle].
    destruct k as [f h], k' as [f' h']. cbn [fst snd] in *.
    destruct (ok_entry _ Hm h e He) as (Eh & _ & Er & _). destruct (ok_entry _ Hm h' e' He') as (Eh' & _ & Er' & _).
    apply (ok_fee _ Hm) in Hin' as (? & ? & Hf'). apply (ok_fee _ Hm) in Hk as (? & ? & Hf).
    unfold tx_rate. rewrite <- Er, <- Er'. split; [replace (fee_per_byte e) with f by congruence;
      replace (fee_per_byte e') with f' by congruence; lia|].
    intros Heq. apply Hnk. assert (Hh : h' = h) by congruence. rewrite Hh in *. by replace f with f' by congruence. }
  split; cbn [fst snd].
  - rewrite txs_size_app. lia.
  - rewrite length_app. cbn [length]. lia.
  - intros t [Ht | ->%list_elem_of_singleton]%elem_of_app.
    + destruct (Hfrom t Ht) as (k' & e' & ? & ? & ?). exists k', e'. set_solver.
    + exists k, e. set_solver.
  - intros x [Hx|Hx]%elem_of_union.
    + destruct (Him x Hx) as (t & ? & ?). exists t. set_solver.
    + apply elem_of_list_to_set in Hx. exists (tx e). set_solver.
  - intros x [Hx|Hx]%elem_of_union.
    + destruct (Htg x Hx) as (t & ? & ?). exists t. set_solver.
    + apply elem_of_list_to_set in Hx. exists (tx e). set_solver.
  - intros k' e' [Hk' | ->%list_elem_of_singleton]%elem_of_app He'.
    + rewrite txs_size_app, length_app. destruct (Hfull k' e' Hk' He') as [?|[?|?]]; [left; set_solver|right; left|right; right]; lia.
    + left. assert (e' = e) as -> by congruence. set_solver.
  - rewrite map_app. apply list.NoDup_app. split_and!; [done| |apply NoDup_singleton].
    intros x Hx ->%list_elem_of_singleton. apply list_elem_of_fmap in Hx as (t & Heq & Ht).
    by destruct (Hlater t Ht) as [_ []].
  - apply sorted_app_one; [done|]. intros t Ht. by destruct (Hlater t Ht).
Qed.

Lemma sel_step m mx cnt P st k : pool_ok m -> 0 <= mx <= u64_max / 2 -> k ∈ by_fee m -> k ∉ P ->
  (forall k', k' ∈ P -> k' ∈ by_fee m /\ fst k <= fst k') -> sel_ok m mx cnt P st ->
  sel_ok m mx cnt (P ++ [k]) (select_one shielded_linking_tags m mx cnt st k).
Proof.
  intros Hm Hmx Hk Hnk HP Hs. destruct st as [[[res total] kis] tags]. unfold select_one.
  destruct (Z.leb_spec cnt (Z.of_nat (length res))); [apply sel_skip; [done|by left]|].
  destruct (transactions m !! snd k) as [e|] eqn:He; [|apply sel_skip; [done|congruence]].
  destruct (sel_size _ _ _ _ _ Hs) as [Hsz Hrg]. cbn [fst snd] in Hsz, Hrg.
  destruct (ok_entry _ Hm _ _ He) as (_ & Ee & _). fold (tx_size (tx e)) in Ee.
  pose proof (entry_le_current m (snd k) e Hm He) as Hle. pose proof (ok_max _ Hm) as Hmax.
  pose proof (ok_bound _ Hm). pose proof (ok_pos m (snd k) e Hm He).
  change (u64_max / 100) with 184467440737095516 in Hmax. change (u64_max / 2) with 9223372036854775807 in Hmx.
  rewrite wrap_small by (unfold fits; lia). rewrite Ee.
  destruct (Z.leb_spec (total + tx_size (tx e)) mx); cycle 1.
  { apply sel_skip; [done|]. intros e' He'. right. cbn [fst]. assert (e' = e) as -> by congruence. lia. }
  pose proof (fun x => sel_fresh m mx cnt P res total kis tags k e x Hm Hk Hnk (fun k' H => proj1 (HP k' H)) Hs He) as Hfr.
  assert (Hno : existsb (fun ki => bool_decide (ki ∈ kis)) (key_images_of (tx e))
                || existsb (fun g => bool_decide (g ∈ tags)) (tags_of (tx e)) = false).
  { apply orb_false_iff. split; apply not_true_iff_false; intros (x & Hx & Hin)%existsb_exists;
      apply bool_decide_eq_true in Hin; apply list_elem_of_In in Hx; destruct (Hfr x) as [Ha Hb]; first [by apply Ha|by apply Hb]. }
  rewrite Hno. by apply sel_take.
Qed.

Lemma fee_sorted_split l1 k l2 : fee_sorted (l1 ++ k :: l2) ->
  k ∉ l2 /\ forall k', k' ∈ l2 -> fst k <= fst k'.
Proof.
  intros H. assert (Hs : fee_sorted (k :: l2)).
  { induction l1 as [|x l1 IH]; [done|]. apply IH. cbn in H. by apply StronglySorted_inv in H as [? _]. }
  apply StronglySorted_inv in Hs as [_ Hs]. rewrite list.Forall_forall in Hs.
  setoid_rewrite fee_lt_spec in Hs. split.
  - intros Hin. specialize (Hs _ Hin). lia.
  - intros k' Hin. specialize (Hs _ Hin). lia.
Qed.

Lemma sel_fold m mx cnt l : forall P st, pool_ok m -> 0 <= mx <= u64_max / 2 -> rev (by_fee m) = P ++ l ->
  sel_ok m mx cnt P st ->
  sel_ok m mx cnt (P ++ l) (fold_left (select_one shielded_linking_tags m mx cnt) l st).
Proof.
  induction l as [|k l IH]; intros P st Hm Hmx Heq Hs; cbn [fold_left]; [by rewrite app_nil_r|].
  assert (Hby : by_fee m = rev l ++ k :: rev P).
  { rewrite <- (rev_involutive (by_fee m)), Heq, rev_app_distr. cbn. by rewrite <- app_assoc. }
  pose proof (ok_sorted _ Hm) as Hso. rewrite Hby in Hso. apply fee_sorted_split in Hso as [Hn Hle].
  assert (Hrev : forall k', k' ∈ P -> k' ∈ rev P) by (intros k'; rewrite !list_elem_of_In; apply in_rev).
  replace (P ++ k :: l) with ((P ++ [k]) ++ l) by (by rewrite <- app_assoc).
  apply IH; [done|done|by rewrite <- app_assoc|]. apply sel_step; try done.
  - rewrite Hby. set_solver.
  - intros HP. by apply Hn, Hrev.
  - intros k' HP. split; [rewrite Hby; set_solver|by apply Hle, Hrev].
Qed.

Lemma template_ok m mx cnt : pool_ok m -> 0 <= mx <= u64_max / 2 -> 0 <= cnt ->
  let l := get_block_transactions shielded_linking_tags m mx cnt in
  txs_size l <= mx /\ Z.of_nat (length l) <= cnt
  /\ NoDup (map hash l) /\ StronglySorted (fun t u => tx_rate u <= tx_rate t) l
  /\ (forall t, t ∈ l -> get m (hash t) = Some t)
  /\ (forall t, get m (hash t) = Some t -> t ∈ l \/ Z.of_nat (length l) = cnt \/ mx < txs_size l + tx_size t).
Proof.
  intros Hm Hmx Hcnt l. unfold get_block_transactions in l.
  assert (H0 : sel_ok m mx cnt [] ([], 0, ∅, ∅)).
  { split; cbn [fst snd length]; [split; [done|lia]|lia|set_solver|set_solver|set_solver|set_solver|constructor|constructor]. }
  pose proof (sel_fold m mx cnt (rev (by_fee m)) [] _ Hm Hmx eq_refl H0) as H. cbn [app] in H.
  destruct H as [[Hsz Hrg] Hcn Hfrom _ _ Hfull Hnd Hso]. fold l in Hsz, Hrg, Hcn, Hfrom, Hfull, Hnd, Hso.
  split_and!; try done; [lia| |].
  - intros t Ht. destruct (Hfrom t Ht) as (k & e & _ & He & <-).
    destruct (ok_entry _ Hm _ _ He) as (Eh & _). unfold get. rewrite Eh, He. done.
  - intros t Ht. unfold get in Ht. apply fmap_Some in Ht as (e & He & ->).
    assert (Hk : (fee_per_byte e, hash (tx e)) ∈ rev (by_fee m)).
    { rewrite list_elem_of_In, <- in_rev, <- list_elem_of_In. apply (ok_fee _ Hm). eauto. }
    destruct (Hfull _ e Hk He) as [?|[?|?]]; [by left|right; left; lia|by right; right].
Qed.
End Invariant.

(** ** Properties *)

(** C24: In every pool reached from an empty one by admissions, confirmations, height
    changes, expiries, evictions, removals and clears, the size counter is the sum of the
    entry sizes and at most the limit, the key-image set is the set of the images the
    pooled transactions spend, no two pooled transactions spend the same image, and none
    is a coinbase. *)
Theorem reachable_pool_sound tags c n m :
  0 <= n <= u64_max / 100 -> rtc (pool_step tags c) (with_max_size n) m ->
  verify_size_invariant m = true /\ 0 <= current_size m <= n
  /\ (forall ki, contains_key_image m ki = true <-> exists h t, get m h = Some t /\ ki ∈ key_images_of t)
  /\ (forall h h' t t' ki, get m h = Some t -> get m h' = Some t' ->
        ki ∈ key_images_of t -> ki ∈ key_images_of t' -> h = h')
  /\ (forall h t, get m h = Some t -> is_coinbase t = false).
Proof.
  intros Hn Hr. destruct (reachable_ok tags c n m Hn Hr) as [Hm Hmax].
  pose proof (pool_size_nonneg _ _ Hm). pose proof (ok_bound _ _ Hm).
  change (u64_max / 100) with 184467440737095516 in Hn. unfold get. split_and!; [|done|lia| | |].
  - unfold verify_size_invariant. rewrite <- (ok_size _ _ Hm), wrap_small by (unfold fits; lia). apply Z.eqb_refl.
  - intros ki. unfold contains_key_image. rewrite bool_decide_eq_true, (proj1 (ok_images _ _ Hm)).
    setoid_rewrite fmap_Some. naive_solver.
  - intros h h' t t' ki (e & He & ->)%fmap_Some (e' & He' & ->)%fmap_Some.
    by apply (proj2 (ok_images _ _ Hm)).
  - intros h t (e & He & ->)%fmap_Some. by destruct (ok_entry _ _ Hm h e He) as (_ & _ & _ & _ & ?).
Qed.

Definition ex_tags (t : Transaction) : result Error (list Z) := Ok [].
Definition ex_checks : Checks :=
  mkChecks (fun _ => Ok tt) (fun _ => Ok tt) (fun _ _ => true) (fun _ => true) (fun _ _ => true).
Definition ex_t1 : Transaction := mkTx 1 1000000 600 [11] false [].
Definition ex_t2 : Transaction := mkTx 2 3000000 500 [12] false [].
Definition ex_t3 : Transaction := mkTx 3 9000000 700 [11; 13] false [].
Definition ex_pool : Mempool := fst (add ex_tags ex_checks (fst (add ex_tags ex_checks (with_max_size 1200) 5 ex_t1)) 6 ex_t2).

Definition ex_t4 : Transaction := mkTx 4 10400000 1300 [14] false [].

Lemma ex_pool_reachable : rtc (pool_step ex_tags ex_checks) (with_max_size 1200) ex_pool.
Proof.
  eapply rtc_l; [eapply (step_add _ _ _ 5 ex_t1); [done|apply surjective_pairing]|].
  eapply rtc_l; [eapply (step_add _ _ _ 6 ex_t2); [done|apply surjective_pairing]|]. apply rtc_refl.
Qed.

Lemma ex_pool_ok : pool_ok ex_tags ex_pool.
Proof.
  apply (reachable_ok ex_tags ex_checks 1200); [vm_compute; split; congruence|apply ex_pool_reachable].
Qed.

Lemma reachable_pool_sound_witness :
  current_size ex_pool = 1100 /\ verify_size_invariant ex_pool = true.
Proof.
  split; [vm_compute; reflexivity|].
  apply (reachable_pool_sound ex_tags ex_checks 1200 ex_pool).
  - vm_compute; split; congruence.
  - apply ex_pool_reachable.
Defined.

(** C23: An admission that fails, for whatever reason, changes nothing but the audit log,
    which gains the rejection; in particular, an eviction plan that passed its check
    never fails half way, so no transaction is ever replaced or evicted for one that is
    then refused. *)
Theorem rejected_admission_unchanged tags c m now t m' e :
  pool_ok tags m -> sane_tx t -> add tags c m now t = (m', Err e) -> m' = reject m now (hash t) e.
Proof. intros Hm Ht E. exact (add_spec tags c m now t m' (Err e) Hm Ht E). Qed.

Lemma rejected_admission_unchanged_witness :
  fst (add ex_tags ex_checks ex_pool 7 ex_t4) = reject ex_pool 7 4 MempoolFull.
Proof.
  apply (rejected_admission_unchanged ex_tags ex_checks ex_pool 7 ex_t4 _ MempoolFull).
  - apply ex_pool_ok.
  - done.
  - vm_compute; reflexivity.
Defined.

(** An accepted admission adds exactly the new entry; every transaction that shared
    a key image with it is gone and had been outbid by a quarter; and nothing else that
    left the pool paid as high a rate as the newcomer. *)
Theorem admission_displaces_lower_bids tags c m now t m' h :
  pool_ok tags m -> sane_tx t -> contains m (hash t) = false -> add tags c m now t = (m', Ok h) ->
  transactions m' !! hash t = Some (entry_new t (chain_height m) now)
  /\ (forall h' e', h' <> hash t -> transactions m' !! h' = Some e' -> transactions m !! h' = Some e')
  /\ (forall h' e' ki, transactions m !! h' = Some e' -> ki ∈ key_images_of t -> ki ∈ key_images_of (tx e') ->
        outbid (tx_rate t) e' /\ transactions m' !! h' = None)
  /\ (forall h' e', transactions m !! h' = Some e' -> transactions m' !! h' = Some e' \/ fee_per_byte e' < tx_rate t).
Proof.
  intros Hm Ht Hn E. destruct (add_spec tags c m now t m' (Ok h) Hm Ht E) as (-> & _ & [[_ Hc]|[_ H]]).
  - congruence.
  - exact H.
Qed.

Lemma admission_displaces_lower_bids_witness :
  get (fst (add ex_tags ex_checks ex_pool 7 ex_t3)) 3 = Some ex_t3
  /\ transactions (fst (add ex_tags ex_checks ex_pool 7 ex_t3)) !! 1 = None.
Proof.
  destruct (admission_displaces_lower_bids ex_tags ex_checks ex_pool 7 ex_t3
              (fst (add ex_tags ex_checks ex_pool 7 ex_t3)) 3) as (H1 & _ & H3 & _).
  - apply ex_pool_ok.
  - done.
  - vm_compute; reflexivity.
  - vm_compute; reflexivity.
  - split; [unfold get; exact (f_equal (fmap tx) H1)|].
    apply (H3 1 (entry_new ex_t1 0 5) 11); [vm_compute; reflexivity| |]; apply (bool_decide_eq_true _); vm_compute; reflexivity.
Defined.

Lemma retry_stable_some body n : forall attempts r, retry_stable_admission n body attempts = Some r ->
  exists a, a ∈ take n attempts /\ is_Some (generation a) /\ body a = Some r.
Proof.
  induction n as [|n IH]; intros [|a attempts] r; cbn [retry_stable_admission take]; try done.
  assert (Hrec : retry_stable_admission n body attempts = Some r ->
            exists b, b ∈ a :: take n attempts /\ is_Some (generation b) /\ body b = Some r).
  { intros (b & ? & ? & ?)%IH. exists b. set_solver. }
  destruct (generation a) eqn:Eg; [|done]. destruct (body a) eqn:Eb; [|done]. intros [= <-].
  exists a. rewrite Eg. set_solver.
Qed.

Lemma retry_stable_none body n : forall attempts, retry_stable_admission n body attempts = None ->
  forall a, a ∈ take n attempts -> is_Some (generation a) -> body a = None.
Proof.
  induction n as [|n IH]; intros [|b attempts]; cbn [retry_stable_admission take]; try set_solver.
  intros E a [-> | Ha]%elem_of_cons Hs.
  - destruct Hs as [g Hg]. rewrite Hg in E. by destruct (body b).
  - apply (IH attempts); try done. destruct (generation b); [|done]. by destruct (body b).
Qed.

(** A transaction is validated and admitted against one state of the chain: whenever
    [add_with_chain] accepts, one of its at most four attempts saw the same stable
    generation before the validation and under the pool's lock, its validation passed,
    and the pool it wrote is the result of [add] on the pool it had locked; and it gives
    up over a moving chain only if none of the attempts saw a stable one. *)
Theorem add_with_chain_atomic tags c t attempts :
  (forall w h, add_with_chain tags c t attempts = (w, Ok h) ->
     exists a g m', a ∈ take MAX_CHAIN_GENERATION_ATTEMPTS attempts
       /\ generation a = Some g /\ generation_locked a = Some g /\ validation a = Ok tt
       /\ add tags c (pool_locked a) (clock a) t = (m', Ok h) /\ w = Some m')
  /\ (preflight_check c t = Ok tt -> add_with_chain tags c t attempts = (None, Err InvalidState) ->
      forall a, a ∈ take MAX_CHAIN_GENERATION_ATTEMPTS attempts ->
        generation a = None \/ generation_locked a <> generation a).
Proof.
  unfold add_with_chain, preflight_check. destruct (is_coinbase t); [by split|]. cbn [negb].
  destruct (validate_transaction_basic c t) as [[]|]; [|by split].
  destruct (check_tx_privacy c t) as [[]|]; [|by split].
  destruct (retry_stable_admission _ _ _) as [[m' r]|] eqn:E; split; try done.
  - intros w h [= <- ->]. apply retry_stable_some in E as (a & Ha & [g Hg] & Hb). unfold admission_attempt in Hb.
    destruct (bool_decide _) eqn:Eg; [|done]. apply bool_decide_eq_true in Eg. cbn [negb] in Hb.
    destruct (validation a) as [[]|] eqn:Ev; [|done]. injection Hb as Hb. exists a, g, m'. by rewrite Eg.
  - intros _ _ a Ha. destruct (generation a) eqn:Eg; [right|by left].
    pose proof (retry_stable_none _ _ _ E a Ha ltac:(eauto)) as Hn. unfold admission_attempt in Hn. rewrite Eg in Hn.
    destruct (bool_decide _) eqn:Ed; [cbn [negb] in Hn; by destruct (validation a)|].
    by apply bool_decide_eq_false in Ed.
Qed.

(** The percentiles are rates in millionths of a unit per byte: the median of this pool
    pays 6000 units per byte and is reported as six thousand million, while an empty pool
    reports the minimum fee in units per byte. *)
Example fee_percentiles_units :
  p50 (fee_percentiles ex_pool) = 6000000000 /\ fee ex_t2 / size ex_t2 = 6000
  /\ p50 (fee_percentiles (with_max_size 1200)) = MIN_FEE_PER_BYTE.
Proof. vm_compute. done. Qed.

(** After a block is connected the pool holds exactly the transactions it held that
    are not in the block and spend none of the key images the block spends. *)
Theorem remove_confirmed_exact tags m now txs h t : pool_ok tags m ->
  get (remove_confirmed tags m now txs) h = Some t <->
  get m h = Some t /\ h ∉ map hash txs /\ (forall b ki, b ∈ txs -> ki ∈ key_images_of b -> ki ∉ key_images_of t).
Proof.
  intros Hm. unfold get. rewrite !fmap_Some. split.
  - intros (e & He & ->). apply (remove_confirmed_spec tags m now txs h e Hm) in He as (? & ? & ?). eauto.
  - intros ((e & He & ->) & Hh & Hk). exists e. split; [|done]. by apply (remove_confirmed_spec tags).
Qed.

Lemma remove_confirmed_exact_witness :
  get (remove_confirmed ex_tags ex_pool 9 [ex_t3]) 2 = Some ex_t2.
Proof.
  apply (remove_confirmed_exact ex_tags ex_pool 9 [ex_t3] 2 ex_t2 ex_pool_ok).
  split_and!; [vm_compute; reflexivity|apply (bool_decide_eq_true _); vm_compute; reflexivity|].
  intros b ki ->%list_elem_of_singleton Hki. unfold ex_t3, ex_t2 in *. cbn [key_images_of] in *. set_solver.
Defined.

(** The block template keeps the byte and count limits, lists pooled transactions
    without repetition by falling fee rate, and is greedy: a pooled transaction is left
    out only when the count is reached or it does not fit in the bytes that remain. *)
Theorem block_template_greedy tags m mx cnt : pool_ok tags m -> 0 <= mx <= u64_max / 2 -> 0 <= cnt ->
  let l := get_block_transactions tags m mx cnt in
  txs_size l <= mx /\ Z.of_nat (length l) <= cnt
  /\ NoDup (map hash l) /\ StronglySorted (fun t u => tx_rate u <= tx_rate t) l
  /\ (forall t, t ∈ l -> get m (hash t) = Some t)
  /\ (forall t, get m (hash t) = Some t -> t ∈ l \/ Z.of_nat (length l) = cnt \/ mx < txs_size l + tx_size t).
Proof. apply template_ok. Qed.

Lemma block_template_greedy_witness :
  get_block_transactions ex_tags ex_pool 1000 10 = [ex_t2] /\ txs_size [ex_t2] <= 1000.
Proof.
  assert (E : get_block_transactions ex_tags ex_pool 1000 10 = [ex_t2]) by (vm_compute; reflexivity).
  split; [exact E|]. rewrite <- E.
  apply (block_template_greedy ex_tags ex_pool 1000 10 ex_pool_ok); vm_compute; [split|]; congruence.
Defined.

End Mempool.
