(* ===== verification/TxValidation.v ===== *)
(** * Transaction validation (src/src/consensus/validation.rs, src/src/consensus/privacy_policy.rs)

    The contextless checks of the mempool ([validate_transaction_basic]) and the full
    checks of a block ([validate_transaction_for_network_ctx]) against the output set of
    [Utxo], sub-check by sub-check in the order of the source.  The cryptographic
    verifiers and the curve (decompression of a point, a commitment with zero blinding)
    are libraries: they are the fields of [Crypto].  The shielded builds differ from the
    default one by [shielded_build], the features sketch-gk-proof and libspark-ffi. *)

From stdpp Require Import gmap.
From S2P Require Import Prelude Constants Types Ledger Utxo.

Module TxValidation.
Import Types.

Abbreviation NetworkType := Ledger.NetworkType (only parsing).
Abbreviation UtxoSet := Utxo.UtxoSet (only parsing).

(** What [SparkPayload::decode] gives. *)
Record SparkPayload := mkSpark { spark_value_balance : Z; has_spend : bool; has_mint : bool; has_outputs : bool }.

Record Crypto := mkCrypto {
  (** [CompressedRistretto(..).decompress().is_some()]; the encoding is canonical, and
      zero is the identity *)
  is_point : Z -> bool;
  (** [PedersenCommitment::commit(amount, zero)] *)
  commit0 : Z -> Z;
  verify_ring_signature : Transaction -> TxInput -> bool;
  verify_output_range_proofs : Transaction -> Z -> bool;
  verify_balance_proof : Transaction -> bool;
  (** [borsh::object_length] *)
  tx_size : Transaction -> Z;
  decode_spark : list Z -> option SparkPayload;
  (** [ShieldedPayload::decode], its value balance *)
  decode_shielded : list Z -> option Z;
  verify_shielded_payload : Transaction -> bool;
  shielded_build : bool }.

Inductive Error :=
| InvalidTxVersion (v : Z)
| InvalidInputCount (count max : Z)
| InvalidOutputCount (count max : Z)
| TransactionTooLarge (size max : Z)
| TransactionTooSmall (size min : Z)
| FeeTooLow (fee min : Z)
| OutputTooSmall
| InvalidRingSize (expected got : Z)
| InvalidSignature
| RangeProofInvalid
| CommitmentMismatch
| DuplicateKeyImage
| InvalidState
| TransparentOutputForbidden
| RawPubkeyForbidden
| UnshieldedForbidden
| InvalidTransaction.

Definition MAX_TX_VERSION : Z := 2.

Definition len {A} (l : list A) : Z := Z.of_nat (length l).

(** A [for] loop over a list that stops at the first error. *)
Fixpoint try_each {A} (f : A -> result Error unit) (l : list A) : result Error unit :=
  match l with
  | [] => Ok tt
  | a :: l => let? _ := f a in try_each f l
  end.

(** Such a loop over the items of a list that must not repeat, where [f] is the rest of
    the body. *)
Fixpoint try_fresh (e : Error) (f : Z -> result Error unit) (seen : gset Z) (l : list Z) : result Error unit :=
  match l with
  | [] => Ok tt
  | x :: l =>
      if bool_decide (x ∈ seen) then Err e
      else let? _ := f x in try_fresh e f ({[x]} ∪ seen) l
  end.

Definition require (b : bool) (e : Error) : result Error unit := if b then Ok tt else Err e.

(** ** Schedules *)

Definition min_output_age_hardfork_height (n : NetworkType) : Z :=
  match n with
  | Ledger.Mainnet => 0
  | Ledger.Testnet | Ledger.Regtest | Ledger.Beta => u64_max
  end.

Definition min_output_age (n : NetworkType) (height : Z) : Z :=
  if height <? min_output_age_hardfork_height n then MIN_OUTPUT_AGE else MIN_OUTPUT_AGE_POST_FORK.

Definition v1_0_12_rules_active (n : NetworkType) (height : Z) : bool :=
  match n with
  | Ledger.Mainnet | Ledger.Regtest => true
  | Ledger.Testnet | Ledger.Beta => HARD_FORK_V1_0_12_HEIGHT <=? height
  end.

Definition ring_size_at_height (height : Z) : Z :=
  if height <? 10000 then BOOTSTRAP_MIN_RING_SIZE else DEFAULT_RING_SIZE.

Definition effective_ring_size (height available_outputs : Z) : Z :=
  let target := ring_size_at_height height in
  if target <=? available_outputs then target
  else if 10000 <=? height then target
  else Z.min (Z.max available_outputs 2) target.

Section Checks.
Context (C : Crypto).

Definition shielded_activation_height (n : NetworkType) : Z :=
  match n with
  | Ledger.Regtest => if shielded_build C then SHIELDED_REGTEST_ACTIVATION_HEIGHT else SHIELDED_TX_ACTIVATION_HEIGHT
  | Ledger.Beta => if shielded_build C then SHIELDED_BETA_ACTIVATION_HEIGHT else SHIELDED_TX_ACTIVATION_HEIGHT
  | Ledger.Testnet => SHIELDED_TESTNET_ACTIVATION_HEIGHT
  | Ledger.Mainnet => SHIELDED_TX_ACTIVATION_HEIGHT
  end.

Definition shielded_tx_active_at_height (n : NetworkType) (height : Z) : bool :=
  shielded_activation_height n <=? height.

Definition regtest_bridge_enabled (n : NetworkType) : bool :=
  shielded_build C && match n with Ledger.Regtest | Ledger.Beta => true | _ => false end.

Definition shield_bridge_enabled (n : NetworkType) (height : Z) : bool :=
  if regtest_bridge_enabled n then true
  else shielded_build C && match n with Ledger.Testnet => shielded_tx_active_at_height n height | _ => false end.

(** ** Sub-checks *)

Definition check_tx_version_range (t : Transaction) : result Error unit :=
  require (negb ((tx_version t =? 0) || (MAX_TX_VERSION <? tx_version t))) (InvalidTxVersion (tx_version t)).

Definition check_tx_v2_activation (t : Transaction) (current_height : Z) : result Error unit :=
  require (negb ((2 <=? tx_version t) && (current_height <? V2_TX_ACTIVATION_HEIGHT))) InvalidState.

(** A field that must be a point and not the identity. *)
Definition curve_field (x : Z) : result Error unit :=
  let? _ := require (negb (x =? 0)) InvalidTransaction in
  require (is_point C x) InvalidTransaction.

Definition check_output_curve_points (t : Transaction) : result Error unit :=
  try_each (fun o =>
    let? _ := curve_field (stealth_address o) in
    let? _ := curve_field (tx_public_key o) in
    curve_field (commitment o)) (outputs t).

Definition check_tx_input_output_counts (t : Transaction) (v1_0_12_active : bool) : result Error unit :=
  let? _ := require (negb (len (inputs t) =? 0)) (InvalidInputCount 0 MAX_TX_INPUTS) in
  let? _ := require (negb (len (outputs t) =? 0)) (InvalidOutputCount 0 MAX_TX_OUTPUTS) in
  let? _ := (if v1_0_12_active then
               try_each (fun o =>
                 let? _ := require (len (encrypted_amount o) =? 8) InvalidTransaction in
                 require (len (encrypted_memo o) <=? MAX_OUTPUT_MEMO_SIZE) InvalidTransaction) (outputs t)
             else Ok tt) in
  let? _ := require (len (inputs t) <=? MAX_TX_INPUTS) (InvalidInputCount (len (inputs t)) MAX_TX_INPUTS) in
  require (len (outputs t) <=? MAX_TX_OUTPUTS) (InvalidOutputCount (len (outputs t)) MAX_TX_OUTPUTS).

Definition check_tx_io_ratio_legacy (t : Transaction) : result Error unit :=
  let? _ := require (len (inputs t) <=? saturating_mul u64_max (len (outputs t)) 32) InvalidTransaction in
  require (len (outputs t) <=? saturating_mul u64_max (len (inputs t)) 32) InvalidTransaction.

Definition check_tx_uniform_shape (t : Transaction) (current_height : Z) : result Error unit :=
  if current_height <? UNIFORM_TX_SHAPE_HEIGHT then Ok tt
  else
    let requires_uniform := match tx_type t with Transfer | Churn => true | _ => false end in
    if negb requires_uniform then Ok tt
    else
      let? _ := require (len (inputs t) =? STANDARD_INPUT_COUNT) InvalidTransaction in
      let cync_shape := STANDARD_OUTPUT_COUNT in
      let asset_shape := STANDARD_OUTPUT_COUNT + 1 in
      let? _ := require ((len (outputs t) =? cync_shape) || (len (outputs t) =? asset_shape)) InvalidTransaction in
      require (negb (bool_decide (tx_type t = Churn) && negb (len (outputs t) =? cync_shape))) InvalidTransaction.

Definition check_tx_no_double_spend (t : Transaction) (utxos : UtxoSet) : result Error unit :=
  try_fresh DuplicateKeyImage
    (fun ki => require (negb (Utxo.contains_key_image utxos ki)) DuplicateKeyImage) ∅ (key_images t).

Definition check_ring_member_coinbase_maturity (n : NetworkType) (is_coinbase : bool)
    (output_height current_height : Z) : result Error unit :=
  if negb is_coinbase then Ok tt
  else
    let age := saturating_sub current_height output_height in
    require (min_output_age n current_height <=? age) InvalidTransaction.

Definition check_ring_member_time_lock (lock_height : option Z) (current_height : Z) : result Error unit :=
  match lock_height with
  | Some lh => require (lh <=? current_height) InvalidTransaction
  | None => Ok tt
  end.

Definition check_ring_member (n : NetworkType) (utxos : UtxoSet) (current_height : Z) (m : RingMemberRef)
  : result Error unit :=
  match Utxo.get_output_by_stealth utxos (public_key m) with
  | Some output_ref =>
      let? _ := require (member_commitment m =? Utxo.commitment (Utxo.output output_ref)) InvalidTransaction in
      let? _ := check_ring_member_coinbase_maturity n (Utxo.ref_is_coinbase output_ref)
                  (Utxo.height output_ref) current_height in
      check_ring_member_time_lock (Utxo.lock_height (Utxo.output output_ref)) current_height
  | None =>
      match Utxo.get_output_index_entry utxos (public_key m) with
      | Some idx_entry =>
          let? _ := require (member_commitment m =? Utxo.entry_commitment idx_entry) InvalidTransaction in
          let? _ := check_ring_member_coinbase_maturity n (Utxo.entry_is_coinbase idx_entry)
                      (Utxo.entry_height idx_entry) current_height in
          check_ring_member_time_lock (Utxo.entry_lock_height idx_entry) current_height
      | None => Err InvalidTransaction
      end
  end.

Definition check_tx_ring_members (n : NetworkType) (t : Transaction) (utxos : UtxoSet) (current_height : Z)
    (v1_0_12_active : bool) : result Error unit :=
  let? _ := (if v1_0_12_active then
               try_fresh InvalidTransaction
                 (fun a => match Utxo.get_output_index_entry utxos a with
                           | Some _ => Err InvalidTransaction
                           | None => Ok tt
                           end) ∅ (map stealth_address (outputs t))
             else Ok tt) in
  try_each (fun i => try_each (check_ring_member n utxos current_height) (ring_members i)) (inputs t).

(** The number of outputs the required ring size is computed from. *)
Definition available_outputs (utxos : UtxoSet) (v1_0_12_active : bool) : Z :=
  if v1_0_12_active
  then saturating_sub (Utxo.total_outputs_ever utxos) (Utxo.reorg_disconnects_total utxos)
  else Utxo.output_count utxos.

Definition check_tx_ring_size_and_unique_members (t : Transaction) (utxos : UtxoSet) (current_height : Z)
    (v1_0_12_active : bool) : result Error unit :=
  try_each (fun i =>
    let ring_size := effective_ring_size current_height (available_outputs utxos v1_0_12_active) in
    let? _ := require (len (ring_members i) =? ring_size) (InvalidRingSize ring_size (len (ring_members i))) in
    try_fresh InvalidSignature (fun _ => Ok tt) ∅ (map public_key (ring_members i))) (inputs t).

Definition check_tx_ring_size_cap (t : Transaction) : result Error unit :=
  try_each (fun i => require (len (ring_members i) <=? MAX_RING_SIZE)
                       (InvalidRingSize MAX_RING_SIZE (len (ring_members i)))) (inputs t).

(** The inputs are verified in parallel; the failure flag is set by any of them. *)
Definition check_tx_ring_signatures (t : Transaction) : result Error unit :=
  require (forallb (verify_ring_signature C t) (inputs t)) InvalidSignature.

Definition check_tx_range_proofs (t : Transaction) (current_height : Z) : result Error unit :=
  require (verify_output_range_proofs C t current_height) RangeProofInvalid.

Definition check_tx_balance_proof (t : Transaction) : result Error unit :=
  require (verify_balance_proof C t) CommitmentMismatch.

(** ** Shielded transactions *)

Definition require_pure_shielded_shape (t : Transaction) : result Error unit :=
  require ((len (inputs t) =? 0) && (len (outputs t) =? 0)) InvalidTransaction.

(** [u64::from_le_bytes] of the first eight bytes. *)
Definition declared_amount (o : TxOutput) : Z := be_value (rev (take 8 (encrypted_amount o))).

Definition check_unshield_outputs_revealed (t : Transaction) : result Error unit :=
  if negb (len (inputs t) =? 0) || (len (outputs t) =? 0) then Ok tt
  else try_each (fun o =>
         let? _ := require (len (encrypted_amount o) =? 8) InvalidTransaction in
         require (commitment o =? commit0 C (declared_amount o)) InvalidTransaction) (outputs t).

Definition check_shielded_tx (t : Transaction) (n : NetworkType) (current_height : Z) : result Error unit :=
  let? _ := require (shielded_tx_active_at_height n current_height) InvalidTransaction in
  let? _ := (if negb (shield_bridge_enabled n current_height) then require_pure_shielded_shape t else Ok tt) in
  match (if shielded_build C then decode_spark C (extra t) else None) with
  | Some payload =>
      require (negb (negb (spark_value_balance payload =? 0) && negb (shield_bridge_enabled n current_height)))
        InvalidTransaction
  | None =>
      match decode_shielded C (extra t) with
      | None => Err InvalidTransaction
      | Some value_balance =>
          let? _ := require_pure_shielded_shape t in
          let? _ := require (value_balance =? 0) InvalidTransaction in
          require (verify_shielded_payload C t) InvalidTransaction
      end
  end.

(** ** The full validation *)

Definition validate_transaction_for_network_ctx (t : Transaction) (utxos : UtxoSet) (current_height : Z)
    (n : NetworkType) (contextual : bool) : result Error unit :=
  let v1_0_12_active := v1_0_12_rules_active n current_height in
  let? _ := check_tx_version_range t in
  if is_coinbase t then Ok tt
  else if is_shielded t then
    let? _ := check_shielded_tx t n current_height in
    if contextual && shield_bridge_enabled n current_height
       && (negb (len (inputs t) =? 0) || negb (len (outputs t) =? 0))
    then
      let? _ := check_output_curve_points t in
      let? _ :=
        (if negb (len (inputs t) =? 0) then
           let? _ := check_tx_no_double_spend t utxos in
           let? _ := check_tx_ring_members n t utxos current_height v1_0_12_active in
           let? _ := check_tx_ring_size_and_unique_members t utxos current_height v1_0_12_active in
           let? _ := check_tx_ring_size_cap t in
           let? _ := check_tx_ring_signatures t in
           check_tx_range_proofs t current_height
         else Ok tt) in
      check_unshield_outputs_revealed t
    else Ok tt
  else
    let? _ := check_tx_v2_activation t current_height in
    let? _ := check_output_curve_points t in
    let? _ := check_tx_input_output_counts t v1_0_12_active in
    let? _ := check_tx_io_ratio_legacy t in
    let? _ := check_tx_uniform_shape t current_height in
    let? _ :=
      (if contextual then
         let? _ := check_tx_no_double_spend t utxos in
         let? _ := check_tx_ring_members n t utxos current_height v1_0_12_active in
         check_tx_ring_size_and_unique_members t utxos current_height v1_0_12_active
       else Ok tt) in
    let? _ := check_tx_ring_size_cap t in
    let? _ := check_tx_ring_signatures t in
    let? _ := check_tx_range_proofs t current_height in
    check_tx_balance_proof t.

Definition validate_transaction_for_network (t : Transaction) (utxos : UtxoSet) (current_height : Z)
    (n : NetworkType) : result Error unit :=
  validate_transaction_for_network_ctx t utxos current_height n true.

(** ** The contextless validation of the mempool *)

Definition validate_transaction_basic (t : Transaction) : result Error unit :=
  let? _ := check_tx_version_range t in
  let is_shielded := shielded_build C && is_shielded t in
  let? _ :=
    (if is_shielded then
       match decode_spark C (extra t) with
       | None => Err InvalidTransaction
       | Some payload =>
           let? _ := require (has_spend payload || has_mint payload || has_outputs payload) InvalidTransaction in
           check_unshield_outputs_revealed t
       end
     else Ok tt) in
  let? _ := require (negb ((len (inputs t) =? 0) && negb is_shielded)) InvalidTransaction in
  let? _ := require (negb ((len (outputs t) =? 0) && negb is_shielded)) InvalidTransaction in
  let size := tx_size C t in
  let? _ := require (size <=? MAX_TX_SIZE) (TransactionTooLarge size MAX_TX_SIZE) in
  let? _ := require (MIN_TX_SIZE <=? size) (TransactionTooSmall size MIN_TX_SIZE) in
  let min_fee := wrap u64_max (size * MIN_FEE_PER_BYTE) in
  let? _ := require (negb ((fee t <? min_fee) && negb (is_coinbase t))) (FeeTooLow (fee t) min_fee) in
  let? _ :=
    (if negb (is_coinbase t) then
       let? _ := try_each (fun i => require (BOOTSTRAP_MIN_RING_SIZE <=? len (ring_members i)) InvalidTransaction)
                   (inputs t) in
       require (negb ((len (range_proof t) =? 0)
                      && (negb is_shielded || (negb (len (inputs t) =? 0) && negb (len (outputs t) =? 0)))))
         InvalidTransaction
     else Ok tt) in
  let? _ := try_fresh InvalidTransaction (fun _ => Ok tt) ∅ (key_images t) in
  let? _ := require (len (inputs t) <=? MAX_TX_INPUTS) (InvalidInputCount (len (inputs t)) MAX_TX_INPUTS) in
  let? _ := require (len (outputs t) <=? MAX_TX_OUTPUTS) (InvalidOutputCount (len (outputs t)) MAX_TX_OUTPUTS) in
  let? _ := try_each (fun o =>
    let? _ := require (negb (len (encrypted_amount o) =? 0)) OutputTooSmall in
    let? _ := require (len (encrypted_amount o) <=? 64) InvalidTransaction in
    require (len (encrypted_memo o) <=? 256) InvalidTransaction) (outputs t) in
  let? _ := check_output_curve_points t in
  if negb (is_coinbase t) then
    try_each (fun i =>
      let? _ := require (negb (key_image i =? 0)) InvalidTransaction in
      require (is_point C (key_image i)) InvalidTransaction) (inputs t)
  else Ok tt.

(** ** The privacy policy *)

(** The field decompresses, and not to the identity. *)
Definition hidden_point (x : Z) : bool := is_point C x && negb (x =? 0).

Definition check_tx_privacy (t : Transaction) : result Error unit :=
  if is_shielded t then Ok tt
  else
    let? _ := try_each (fun o => require (hidden_point (commitment o)) TransparentOutputForbidden) (outputs t) in
    let? _ := try_each (fun o => require (hidden_point (stealth_address o)) RawPubkeyForbidden) (outputs t) in
    require (negb (len (inputs t) =? 0)) UnshieldedForbidden.

Definition enforce_privacy_policy (b : Block) : result Error unit :=
  try_each (fun t => if is_coinbase t then Ok tt else if is_shielded t then Ok tt else check_tx_privacy t)
    (transactions b).
End Checks.

(** ** The checks as propositions *)

Lemma rbind_ok {E A B} (r : result E A) (k : A -> result E B) b :
  rbind r k = Ok b <-> exists a, r = Ok a /\ k a = Ok b.
Proof. destruct r; cbn; naive_solver. Qed.

Lemma seq_ok {E} (r : result E unit) (k : result E unit) :
  rbind r (fun _ => k) = Ok tt <-> r = Ok tt /\ k = Ok tt.
Proof. rewrite rbind_ok. split; [intros ([] & ? & ?); done|naive_solver]. Qed.

Lemma require_ok b e : require b e = Ok tt <-> b = true.
Proof. by destruct b. Qed.

Lemma if_ok (b : bool) (r : result Error unit) : (if b then r else Ok tt) = Ok tt <-> (b = true -> r = Ok tt).
Proof. destruct b; naive_solver. Qed.

Lemma try_each_ok {A} (f : A -> result Error unit) l :
  try_each f l = Ok tt <-> forall x, x ∈ l -> f x = Ok tt.
Proof.
  induction l as [|a l IH]; cbn [try_each]; [set_solver|]. rewrite seq_ok, IH. setoid_rewrite elem_of_cons. naive_solver.
Qed.

Lemma try_fresh_ok e f l : forall seen,
  try_fresh e f seen l = Ok tt <-> NoDup l /\ forall x, x ∈ l -> x ∉ seen /\ f x = Ok tt.
Proof.
  induction l as [|a l IH]; intros seen; cbn [try_fresh].
  - split; [|done]. split; [constructor|set_solver].
  - destruct (decide (a ∈ seen)) as [Ha|Ha].
    + rewrite bool_decide_eq_true_2 by done. split; [done|]. intros [_ H]. by destruct (H a (list_elem_of_here _ _)).
    + rewrite bool_decide_eq_false_2, seq_ok, IH, list.NoDup_cons by done. setoid_rewrite elem_of_cons. set_solver.
Qed.

Lemma len_nonneg {A} (l : list A) : 0 <= len l.
Proof. unfold len. lia. Qed.

#[export] Hint Rewrite @seq_ok require_ok if_ok @try_each_ok try_fresh_ok
  negb_true_iff negb_false_iff andb_true_iff orb_false_iff Z.leb_le Z.ltb_lt Z.eqb_eq Z.eqb_neq Z.ltb_ge : checks.

Lemma forallb_elem {A} (f : A -> bool) l : forallb f l = true <-> forall x, x ∈ l -> f x = true.
Proof. rewrite forallb_forall. by setoid_rewrite list_elem_of_In. Qed.

Section Spec.
Context (C : Crypto) (n : NetworkType) (utxos : UtxoSet) (h : Z).

Definition hidden (x : Z) : Prop := x <> 0 /\ is_point C x = true.

(** The record of an output that was ever created at a stealth address: of the unspent
    output, else of the permanent index. *)
Definition output_record (a : Z) : option Utxo.OutputIndexEntry :=
  match Utxo.get_output_by_stealth utxos a with
  | Some r => Some (Utxo.mkIndexEntry (Utxo.commitment (Utxo.output r)) (Utxo.height r)
                      (Utxo.ref_is_coinbase r) (Utxo.lock_height (Utxo.output r)))
  | None => Utxo.get_output_index_entry utxos a
  end.

(** A ring member that names an existing, mature, unlocked output with its commitment. *)
Definition valid_member (m : RingMemberRef) : Prop :=
  exists e, output_record (public_key m) = Some e /\ member_commitment m = Utxo.entry_commitment e
  /\ (Utxo.entry_is_coinbase e = true -> Utxo.entry_height e + min_output_age n h <= h)
  /\ (forall l, Utxo.entry_lock_height e = Some l -> l <= h).

Definition required_ring : Z := effective_ring_size h (available_outputs utxos (v1_0_12_rules_active n h)).

(** A transparent spend that may be mined at height [h]. *)
Record valid_spend (t : Transaction) : Prop := {
  vs_version : tx_version t = 1 \/ (tx_version t = 2 /\ V2_TX_ACTIVATION_HEIGHT <= h);
  vs_inputs : length (inputs t) = 2%nat;
  vs_outputs : length (outputs t) = 2%nat \/ (length (outputs t) = 3%nat /\ tx_type t = Transfer);
  vs_points o : o ∈ outputs t -> hidden (stealth_address o) /\ hidden (tx_public_key o) /\ hidden (commitment o);
  vs_fields o : v1_0_12_rules_active n h = true -> o ∈ outputs t ->
    length (encrypted_amount o) = 8%nat /\ len (encrypted_memo o) <= 256;
  vs_addresses : v1_0_12_rules_active n h = true -> NoDup (map stealth_address (outputs t))
    /\ forall o, o ∈ outputs t -> Utxo.get_output_index_entry utxos (stealth_address o) = None;
  vs_images : NoDup (key_images t);
  vs_unspent ki : ki ∈ key_images t -> ki ∉ Utxo.key_images utxos;
  vs_members i m : i ∈ inputs t -> m ∈ ring_members i -> valid_member m;
  vs_rings i : i ∈ inputs t -> len (ring_members i) = required_ring /\ NoDup (map public_key (ring_members i));
  vs_signatures i : i ∈ inputs t -> verify_ring_signature C t i = true;
  vs_ranges : verify_output_range_proofs C t h = true;
  vs_balance : verify_balance_proof C t = true }.

Lemma curve_field_ok x : curve_field C x = Ok tt <-> hidden x.
Proof. unfold curve_field, hidden. by autorewrite with checks. Qed.

Lemma check_points_ok t : check_output_curve_points C t = Ok tt <->
  forall o, o ∈ outputs t -> hidden (stealth_address o) /\ hidden (tx_public_key o) /\ hidden (commitment o).
Proof.
  unfold check_output_curve_points. rewrite try_each_ok.
  split; intros H o Ho; specialize (H o Ho); rewrite !seq_ok, !curve_field_ok in *; done.
Qed.

Lemma min_age_pos : 0 < min_output_age n h.
Proof. unfold min_output_age, MIN_OUTPUT_AGE, MIN_OUTPUT_AGE_POST_FORK. destruct (h <? _); lia. Qed.

Lemma maturity_ok cb oh : check_ring_member_coinbase_maturity n cb oh h = Ok tt <->
  (cb = true -> oh + min_output_age n h <= h).
Proof.
  unfold check_ring_member_coinbase_maturity. pose proof min_age_pos. destruct cb; cbn [negb]; [|naive_solver].
  rewrite require_ok, Z.leb_le. unfold saturating_sub. naive_solver lia.
Qed.

Lemma time_lock_ok l : check_ring_member_time_lock l h = Ok tt <-> (forall x, l = Some x -> x <= h).
Proof.
  destruct l as [x|]; cbn; [|naive_solver]. rewrite require_ok, Z.leb_le. naive_solver.
Qed.

Lemma check_member_ok m : check_ring_member n utxos h m = Ok tt <-> valid_member m.
Proof.
  unfold check_ring_member, valid_member, output_record.
  destruct (Utxo.get_output_by_stealth utxos (public_key m)) as [r|].
  - rewrite !seq_ok, require_ok, Z.eqb_eq, maturity_ok, time_lock_ok. split.
    + intros (? & ? & ?). eexists. split; [reflexivity|]. cbn. done.
    + intros (e & [= <-] & ? & ? & ?). done.
  - destruct (Utxo.get_output_index_entry utxos (public_key m)) as [e|]; [|naive_solver].
    rewrite !seq_ok, require_ok, Z.eqb_eq, maturity_ok, time_lock_ok. naive_solver.
Qed.

Lemma required_ring_bounds : 2 <= required_ring <= 16.
Proof.
  unfold required_ring, effective_ring_size, ring_size_at_height, BOOTSTRAP_MIN_RING_SIZE, DEFAULT_RING_SIZE. zcases.
Qed.

(** The count, ratio and shape rules together: with uniform shapes from height zero the
    ratio rule and the count limits never decide. *)
Lemma shape_ok t v : tx_type t = Transfer \/ tx_type t = Churn -> 0 <= h ->
  (check_tx_input_output_counts t v = Ok tt /\ check_tx_io_ratio_legacy t = Ok tt
   /\ check_tx_uniform_shape t h = Ok tt)
  <-> length (inputs t) = 2%nat
      /\ (length (outputs t) = 2%nat \/ (length (outputs t) = 3%nat /\ tx_type t = Transfer))
      /\ (forall o, v = true -> o ∈ outputs t ->
            length (encrypted_amount o) = 8%nat /\ len (encrypted_memo o) <= 256).
Proof.
  intros Hty Hh. unfold check_tx_input_output_counts, check_tx_io_ratio_legacy, check_tx_uniform_shape.
  unfold UNIFORM_TX_SHAPE_HEIGHT, BULLETPROOFS_PLUS_HEIGHT.
  destruct (Z.ltb_spec h 0) as [Hneg|_]; [lia|].
  assert (Eu : match tx_type t with Transfer | Churn => true | _ => false end = true) by (by destruct Hty as [-> | ->]).
  rewrite Eu. cbn [negb]. clear Eu. autounfold with mach. unfold MAX_OUTPUT_MEMO_SIZE.
  assert (Hf : (if v then try_each (fun o => let? _ := require (len (encrypted_amount o) =? 8) InvalidTransaction in
                 require (len (encrypted_memo o) <=? 256) InvalidTransaction) (outputs t) else Ok tt) = Ok tt
               <-> forall o, v = true -> o ∈ outputs t ->
                 length (encrypted_amount o) = 8%nat /\ len (encrypted_memo o) <= 256).
  { rewrite if_ok, try_each_ok. split.
    - intros H o Hv Ho. specialize (H Hv o Ho). autorewrite with checks in H. unfold len in *. lia.
    - intros H Hv o Ho. specialize (H o Hv Ho). autorewrite with checks. unfold len in *. lia. }
  rewrite !seq_ok, Hf, !require_ok, !negb_true_iff, !Z.leb_le, !Z.eqb_eq, !Z.eqb_neq, orb_true_iff, !Z.eqb_eq.
  unfold len. split.
  - intros ((_ & _ & Hfl & _) & _ & Hi & Ho & Hc). split; [lia|]. split; [|done].
    destruct Ho as [Ho|Ho]; [left; lia|right]. split; [lia|]. destruct Hty as [|Hty]; [done|].
    rewrite Hty, Ho in Hc. done.
  - intros (Hi & Ho & Hfl). rewrite Hi. split_and!; try lia; try done.
    destruct Ho as [-> | [-> ->]]; [by rewrite andb_false_r|done].
Qed.

Lemma ring_sizes_ok t : check_tx_ring_size_and_unique_members t utxos h (v1_0_12_rules_active n h) = Ok tt <->
  forall i, i ∈ inputs t -> len (ring_members i) = required_ring /\ NoDup (map public_key (ring_members i)).
Proof.
  unfold check_tx_ring_size_and_unique_members. rewrite try_each_ok. fold required_ring.
  split; intros Hr i Hi; specialize (Hr i Hi); autorewrite with checks in *; naive_solver set_solver.
Qed.

Lemma ring_members_ok t : check_tx_ring_members n t utxos h (v1_0_12_rules_active n h) = Ok tt <->
  (v1_0_12_rules_active n h = true -> NoDup (map stealth_address (outputs t))
    /\ forall o, o ∈ outputs t -> Utxo.get_output_index_entry utxos (stealth_address o) = None)
  /\ forall i m, i ∈ inputs t -> m ∈ ring_members i -> valid_member m.
Proof.
  unfold check_tx_ring_members. rewrite seq_ok, if_ok, try_each_ok. setoid_rewrite try_each_ok.
  setoid_rewrite check_member_ok. rewrite try_fresh_ok.
  assert (Ha : (forall x, x ∈ map stealth_address (outputs t) -> x ∉ (∅ : gset Z) /\
      match Utxo.get_output_index_entry utxos x with Some _ => Err InvalidTransaction | None => Ok tt end = Ok tt)
    <-> forall o, o ∈ outputs t -> Utxo.get_output_index_entry utxos (stealth_address o) = None).
  { split.
    - intros Hx o Ho. destruct (Hx (stealth_address o)) as [_ He]; [by apply list_elem_of_fmap_2|].
      by destruct (Utxo.get_output_index_entry utxos (stealth_address o)).
    - intros Hx a (o & -> & Ho)%list_elem_of_fmap. rewrite (Hx o Ho). set_solver. }
  rewrite Ha. naive_solver.
Qed.

Lemma no_double_spend_ok t : check_tx_no_double_spend t utxos = Ok tt <->
  NoDup (key_images t) /\ forall ki, ki ∈ key_images t -> ki ∉ Utxo.key_images utxos.
Proof.
  unfold check_tx_no_double_spend. rewrite try_fresh_ok. unfold Utxo.contains_key_image.
  setoid_rewrite require_ok. setoid_rewrite negb_true_iff. setoid_rewrite bool_decide_eq_false. set_solver.
Qed.

Lemma ring_cap_ok t : (forall i, i ∈ inputs t -> len (ring_members i) = required_ring) ->
  check_tx_ring_size_cap t = Ok tt.
Proof.
  intros Hr. apply try_each_ok. intros i Hi. rewrite require_ok, Z.leb_le, (Hr i Hi).
  pose proof required_ring_bounds. unfold MAX_RING_SIZE. lia.
Qed.

Lemma version_ok t : fits u8_max (tx_version t) ->
  check_tx_version_range t = Ok tt /\ check_tx_v2_activation t h = Ok tt <->
  tx_version t = 1 \/ (tx_version t = 2 /\ V2_TX_ACTIVATION_HEIGHT <= h).
Proof.
  unfold check_tx_version_range, check_tx_v2_activation, MAX_TX_VERSION, fits. intros Hv.
  rewrite !require_ok, !negb_true_iff, orb_false_iff, andb_false_iff, Z.eqb_neq, Z.leb_gt, !Z.ltb_ge. lia.
Qed.

Lemma spend_kind t : tx_type t = Transfer \/ tx_type t = Churn -> is_coinbase t = false /\ is_shielded t = false.
Proof. unfold is_coinbase, is_shielded. by intros [-> | ->]. Qed.

Lemma spend_ok t : tx_type t = Transfer \/ tx_type t = Churn -> fits u8_max (tx_version t) -> 0 <= h ->
  validate_transaction_for_network C t utxos h n = Ok tt <-> valid_spend t.
Proof.
  intros Hty Hv Hh. unfold validate_transaction_for_network, validate_transaction_for_network_ctx.
  destruct (spend_kind t Hty) as [-> ->].
  pose proof (version_ok t Hv) as Hver. pose proof (shape_ok t (v1_0_12_rules_active n h) Hty Hh) as Hsh.
  rewrite !seq_ok, check_points_ok, no_double_spend_ok, ring_members_ok, ring_sizes_ok.
  unfold check_tx_ring_signatures, check_tx_range_proofs, check_tx_balance_proof.
  rewrite !require_ok, forallb_elem.
  split.
  - intros (Hr & Ha & Hp & Hc & Hio & Hu & (Hds & Hm & Hrs) & _ & Hsig & Hrp & Hb).
    destruct (proj1 Hver (conj Hr Ha)) as [?|?], (proj1 Hsh (conj Hc (conj Hio Hu))) as (? & ? & ?).
    all: destruct Hds, Hm; by constructor; eauto.
  - intros []. split_and!; try done; try tauto. apply ring_cap_ok. naive_solver.
Qed.

(** C37: The full validation of a transparent spend accepts exactly the spends that may be
    mined at the height: two inputs and two outputs (three for a transfer with an asset
    output), every output field a curve point other than the identity, from hard fork
    1.0.12 fresh distinct addresses and bounded fields, distinct unspent key images, rings
    of exactly the required size whose distinct members are existing, mature, unlocked
    outputs with their commitments, and valid signatures, range proofs and balance. *)
Theorem spend_valid_iff t : tx_type t = Transfer \/ tx_type t = Churn -> fits u8_max (tx_version t) -> 0 <= h ->
  validate_transaction_for_network C t utxos h n = Ok tt <-> valid_spend t.
Proof. apply spend_ok. Qed.

(** A spend that may be mined enters the mempool exactly when it also has a size from
    100 to 500000 bytes, pays the minimum fee rate, carries a range proof, has key images
    that are points other than the identity, and the required ring size is at least 11: on
    a young chain, where the required size is smaller, no minable spend is relayed. *)
Theorem minable_spend_relayed_iff t : tx_type t = Transfer \/ tx_type t = Churn -> fits u8_max (tx_version t) ->
  0 <= tx_size C t -> v1_0_12_rules_active n h = true -> valid_spend t ->
  validate_transaction_basic C t = Ok tt <->
  100 <= tx_size C t <= 500000 /\ 1000 * tx_size C t <= fee t /\ range_proof t <> []
  /\ 11 <= required_ring /\ forall i, i ∈ inputs t -> hidden (key_image i).
Proof.
  intros Hty Hv Hs Hact []. unfold validate_transaction_basic.
  destruct (spend_kind t Hty) as [-> ->]. rewrite andb_false_r. cbn [negb].
  rewrite !seq_ok, !require_ok, check_points_ok, !try_each_ok, try_fresh_ok, !andb_true_r, !negb_true_iff.
  unfold len in *. rewrite vs_inputs0.
  assert (Hin : exists i, i ∈ inputs t) by (destruct (inputs t) as [|i ?]; [done|exists i; left]).
  assert (Hout : length (outputs t) <> 0%nat /\ (length (outputs t) <= 3)%nat) by (destruct vs_outputs0 as [-> | [-> _]]; lia).
  assert (Hwrap : tx_size C t <= 500000 -> wrap u64_max (tx_size C t * 1000) = 1000 * tx_size C t).
  { intros. rewrite wrap_small by mach. lia. }
  autounfold with mach in *. setoid_rewrite seq_ok. setoid_rewrite require_ok.
  setoid_rewrite negb_true_iff. setoid_rewrite Z.leb_le. setoid_rewrite Z.eqb_neq. rewrite Z.ltb_ge.
  assert (Hrp : Z.of_nat (length (range_proof t)) <> 0 <-> range_proof t <> []) by (destruct (range_proof t); cbn; naive_solver lia).
  split.
  - intros (_ & _ & _ & _ & ? & ? & Hfee & (Hr & Hp) & _ & _ & _ & _ & _ & Hk). rewrite Hwrap in Hfee by done.
    split; [lia|]. split; [lia|]. split; [by apply Hrp|]. split; [|done].
    destruct Hin as [i Hi]. rewrite <- (proj1 (vs_rings0 i Hi)). by apply Hr.
  - intros (Hsz & Hfee & Hp & Hr & Hk). rewrite Hwrap by lia. 
    split; [unfold MAX_TX_VERSION; zcases|]. do 3 (split; [done || lia|]). do 3 (split; [lia|]).
    split; [split; [intros i Hi; by rewrite (proj1 (vs_rings0 i Hi))|by apply Hrp]|].
    split; [split; [done|intros x _; split; [apply not_elem_of_empty|done]]|]. do 2 (split; [lia|]).
    split; [|done].
    intros o Ho. destruct (vs_fields0 o Hact Ho) as [-> ?]. rewrite seq_ok, !require_ok, !Z.leb_le. lia.
Qed.
End Spec.

(** ** What every accepted transaction keeps *)

Section Accepted.
Context (C : Crypto) (n : NetworkType) (utxos : UtxoSet) (h : Z).

Lemma shielded_inputs_bridged t : inputs t <> [] -> check_shielded_tx C t n h = Ok tt ->
  shield_bridge_enabled C n h = true.
Proof.
  intros Hi. unfold check_shielded_tx. destruct (shield_bridge_enabled C n h); [done|]. cbn [negb].
  rewrite !seq_ok. unfold require_pure_shielded_shape at 1. rewrite !require_ok, andb_true_iff, !Z.eqb_eq.
  unfold len. intros (_ & [Hz _] & _). by destruct (inputs t).
Qed.

(** A transaction with inputs, transparent or shielded, spends them against the set. *)
Lemma inputs_checked t : is_coinbase t = false -> inputs t <> [] ->
  validate_transaction_for_network C t utxos h n = Ok tt ->
  check_tx_no_double_spend t utxos = Ok tt /\ check_tx_ring_members n t utxos h (v1_0_12_rules_active n h) = Ok tt
  /\ check_tx_ring_signatures C t = Ok tt.
Proof.
  intros Hcb Hi. unfold validate_transaction_for_network, validate_transaction_for_network_ctx. rewrite Hcb.
  destruct (is_shielded t).
  - rewrite !seq_ok. intros (_ & Hs & Hrest). rewrite (shielded_inputs_bridged t Hi Hs) in Hrest.
    assert (len (inputs t) =? 0 = false) as En by (unfold len; by destruct (inputs t)).
    rewrite En in Hrest. cbn [andb orb negb] in Hrest. rewrite !seq_ok in Hrest. tauto.
  - rewrite !seq_ok. tauto.
Qed.

Lemma images_unspent t : is_coinbase t = false -> validate_transaction_for_network C t utxos h n = Ok tt ->
  NoDup (key_images t) /\ forall ki, ki ∈ key_images t -> ki ∉ Utxo.key_images utxos.
Proof.
  intros Hcb Hok. unfold key_images at 1 2. destruct (inputs t) as [|i l] eqn:Ei; [split; [constructor|set_solver]|].
  rewrite <- Ei. fold (key_images t). apply no_double_spend_ok, inputs_checked; [done|by rewrite Ei|done].
Qed.

Lemma members_valid t i m : is_coinbase t = false -> validate_transaction_for_network C t utxos h n = Ok tt ->
  i ∈ inputs t -> m ∈ ring_members i -> valid_member n utxos h m.
Proof.
  intros Hcb Hok Hi Hm. destruct (inputs_checked t) as (_ & Hr & _); [done|by intros Ei; rewrite Ei in Hi; set_solver|done|].
  apply ring_members_ok in Hr as [_ Hr]. eauto.
Qed.
End Accepted.

(** ** A spend of two outputs on a chain of eleven *)

Definition sample_crypto : Crypto :=
  mkCrypto (fun _ => true) (fun v => v) (fun _ _ => true) (fun _ _ => true) (fun _ => true) (fun _ => 2000)
    (fun _ => None) (fun _ => None) (fun _ => true) false.

Definition sample_ring (outputs_ever : nat) : list RingMemberRef :=
  map (fun a => mkMember (Z.of_nat a) (100 + Z.of_nat a)) (seq 1 outputs_ever).

Definition sample_set (outputs_ever : nat) : UtxoSet :=
  Utxo.mkUtxoSet ∅ ∅ ∅ ∅ ∅ ∅
    (list_to_map (map (fun m => (public_key m, Utxo.mkIndexEntry (member_commitment m) 1 false None))
                    (sample_ring outputs_ever)))
    None (Z.of_nat outputs_ever) 0.

Definition sample_output (a : Z) : TxOutput := mkOutput a 7 8 [1; 2; 3; 4; 5; 6; 7; 8] 0 None [].

Definition sample_spend (outputs_ever : nat) : Transaction :=
  mkTx 1 Transfer [mkInput 50 (sample_ring outputs_ever) 0 0; mkInput 51 (sample_ring outputs_ever) 0 0]
    [sample_output 60; sample_output 61] 2000000 [1] [].

Lemma sample_accepted k : k ∈ [2; 11]%nat ->
  validate_transaction_for_network sample_crypto (sample_spend k) (sample_set k) 100 Ledger.Mainnet = Ok tt.
Proof. intros [-> | [-> | []%not_elem_of_nil]%elem_of_cons]%elem_of_cons; vm_compute; reflexivity. Qed.

Lemma sample_valid k : k ∈ [2; 11]%nat ->
  valid_spend sample_crypto Ledger.Mainnet (sample_set k) 100 (sample_spend k).
Proof.
  intros Hk. apply spend_ok; [by left | split; vm_compute; discriminate | lia | by apply sample_accepted].
Qed.

Lemma spend_valid_iff_witness :
  validate_transaction_for_network sample_crypto (sample_spend 11) (sample_set 11) 100 Ledger.Mainnet = Ok tt
  /\ valid_spend sample_crypto Ledger.Mainnet (sample_set 11) 100 (sample_spend 11).
Proof.
  split; [vm_compute; reflexivity|].
  apply spend_valid_iff; [by left | split; vm_compute; discriminate | lia | vm_compute; reflexivity].
Defined.

Lemma minable_spend_relayed_iff_witness :
  validate_transaction_basic sample_crypto (sample_spend 11) = Ok tt
  /\ validate_transaction_basic sample_crypto (sample_spend 2) <> Ok tt.
Proof.
  split.
  - apply (minable_spend_relayed_iff sample_crypto Ledger.Mainnet (sample_set 11) 100);
      [by left | split; vm_compute; discriminate | vm_compute; discriminate | reflexivity
      | apply sample_valid; set_solver |].
    split; [vm_compute; split; discriminate|]. split; [vm_compute; discriminate|]. split; [discriminate|].
    split; [vm_compute; discriminate|]. split; [|reflexivity].
    revert i H. apply list.Forall_forall. repeat constructor; vm_compute; discriminate.
  - intros Hok. apply (minable_spend_relayed_iff sample_crypto Ledger.Mainnet (sample_set 2) 100) in Hok;
      [|by left | split; vm_compute; discriminate | vm_compute; discriminate | reflexivity
       | apply sample_valid; set_solver].
    destruct Hok as (_ & _ & _ & Hr & _). by vm_compute in Hr.
Defined.
End TxValidation.
