(* ===== verification/BlockValidation.v ===== *)
(** * Block validation (src/src/consensus/validation.rs, src/src/config.rs)

    [validate_block_ctx] with its sub-checks in the order of the source.  The result is
    the record the checks append to; a message of the source is a constructor of
    [BlockError], with the diagnostic code the source registers for it.  What the
    validator takes from outside ([Env]): the proof-of-work verifier, the clock and the
    offset of the network time, the table of consensus checkpoints, and whether the build
    has the feature insecure-fast-sync.  The test-only feature test-fast-pow is off. *)

From Stdlib Require Import String.
From stdpp Require Import gmap list sets.
From S2P Require Import Prelude Constants Types Emission Difficulty FeeMarket Ledger Utxo TxValidation.

Module BlockValidation.
Import Types TxValidation.

Inductive BlockError :=
| WrongNetworkMagic
| ConsensusCheckpointMismatch
| VersionBelowMinimum
| VersionAboveMaximum
| NonGenesisWithoutParent
| VersionDecreased
| InvalidHeight
| PreviousHashMismatch
| TimestampNotGreater
| FutureCheckpointVote
| SystemClockError
| TimestampTooFarInFuture
| SparkRootNotZero
| ProofOfWorkInvalid
| NoPreviousBlockForPow
| TargetAboveMax
| TargetZero
| AdjustmentOutOfBounds
| BlockTooLarge
| BlockTooHeavy
| TooManyTransactions
| MissingCoinbase
| FirstNotCoinbase
| NoTransactions
| InvalidMerkleRoot
| PrivacyViolation (e : TxValidation.Error)
| CoinbaseMaxOverflow
| RewardBelowTail
| RewardAboveGenesis
| CoinbaseNoOutputs
| CoinbaseInputs
| CoinbaseTooManyOutputs
| CoinbaseDust
| CoinbaseAmountEncoding (idx : nat)
| CoinbaseCommitmentMismatch (idx : nat)
| CoinbaseZeroCommitment (idx : nat)
| CoinbaseInvalidPoint (idx : nat)
| CoinbaseSumOverflow (idx : nat)
| CoinbaseTotalMismatch
| DuplicateTxHash
| DuplicateKeyImageInBlock
| DuplicateStealthAddress
| FeeCalculationOverflow (idx : nat)
| FeeTooLowForCongestion (idx : nat)
| MultipleCoinbase (idx : nat)
| InvalidTx (idx : nat) (e : TxValidation.Error).

Inductive Warning := ClockBefore2020.

Record BlockValidation := mkValidation {
  valid : bool;
  errors : list BlockError;
  warnings : list Warning;
  codes : list string }.

Definition ok : BlockValidation := mkValidation true [] [] [].

Definition error (msg : BlockError) : BlockValidation := mkValidation false [msg] [] [].

Definition add_error (msg : BlockError) (r : BlockValidation) : BlockValidation :=
  mkValidation false (errors r ++ [msg]) (warnings r) (codes r).

Definition add_warning (msg : Warning) (r : BlockValidation) : BlockValidation :=
  mkValidation (valid r) (errors r) (warnings r ++ [msg]) (codes r).

Definition add_error_coded (code : string) (msg : BlockError) (r : BlockValidation) : BlockValidation :=
  mkValidation false (errors r ++ [msg]) (warnings r) (codes r ++ [code]).

Definition CYNC_CONS_001 : string := "CYNC-CONS-001".
Definition CYNC_CONS_002 : string := "CYNC-CONS-002".
Definition CYNC_CONS_004 : string := "CYNC-CONS-004".
Definition CYNC_CONS_005 : string := "CYNC-CONS-005".
Definition CYNC_POW_001 : string := "CYNC-POW-001".
Definition CYNC_EMIT_001 : string := "CYNC-EMIT-001".

(** [if bad { result.add_error(e) }] and its coded form. *)
Definition reject (bad : bool) (e : BlockError) (r : BlockValidation) : BlockValidation :=
  if bad then add_error e r else r.

Definition reject_coded (bad : bool) (c : string) (e : BlockError) (r : BlockValidation) : BlockValidation :=
  if bad then add_error_coded c e r else r.

(** ** Network parameters *)

Definition magic_bytes (n : NetworkType) : Z :=
  match n with
  | Ledger.Mainnet => MAINNET_MAGIC
  | Ledger.Testnet => TESTNET_MAGIC
  | Ledger.Regtest => REGTEST_MAGIC
  | Ledger.Beta => BETA_MAGIC
  end.

Definition fee_distribution_height (n : NetworkType) : Z :=
  match n with
  | Ledger.Mainnet => 0
  | Ledger.Testnet | Ledger.Regtest | Ledger.Beta => 525
  end.

Definition block_version_at_height (height : Z) : Z :=
  if V2_TX_ACTIVATION_HEIGHT <=? height then 2 else 1.

(** ** Outside *)

Record Env := mkEnv {
  blake3 : list Z -> Z;
  tx_hash : Transaction -> Z;
  crypto : Crypto;
  (** previous hash, height, timestamp, nonce, root, target, anchor, algorithm, binding *)
  verify_pow : Z -> Z -> Z -> Z -> Z -> Z -> Z -> Z -> Z -> bool;
  unix_now : Z;
  is_overridden : bool;
  offset_secs : Z;
  consensus_checkpoints : NetworkType -> list (Z * Z);
  allow_checkpoint_crypto_skip : bool }.

Section Checks.
Context (E : Env).

Abbreviation hash := (header_hash (blake3 E)) (only parsing).
Abbreviation size_of := (TxValidation.tx_size (crypto E)) (only parsing).

Definition expected_checkpoint_hash (n : NetworkType) (height : Z) : option Z :=
  snd <$> List.find (fun p => fst p =? height) (consensus_checkpoints E n).

(** ** The header *)

Definition check_block_network_magic (b : Block) (n : NetworkType) (r : BlockValidation) : bool * BlockValidation :=
  if (network_magic (header b) =? 0) && (block_height b =? 0) then (true, r)
  else if negb (network_magic (header b) =? magic_bytes n) then (false, add_error WrongNetworkMagic r)
  else (true, r).

Definition check_block_consensus_checkpoint (n : NetworkType) (b : Block) (r : BlockValidation)
  : bool * BlockValidation :=
  match expected_checkpoint_hash n (block_height b) with
  | Some expected_hash =>
      if negb (hash (header b) =? expected_hash) then (false, add_error ConsensusCheckpointMismatch r) else (true, r)
  | None => (true, r)
  end.

Definition check_header_version_min (h : BlockHeader) (r : BlockValidation) : BlockValidation :=
  let min_version := block_version_at_height (height h) in
  let r := reject (version h <? min_version) VersionBelowMinimum r in
  reject (MAX_BLOCK_VERSION <? version h) VersionAboveMaximum r.

Definition check_header_vs_prev (h : BlockHeader) (prev_header : option BlockHeader) (r : BlockValidation)
  : BlockValidation :=
  match prev_header with
  | None => reject (negb (height h =? 0)) NonGenesisWithoutParent r
  | Some prev =>
      let r := reject (version h <? version prev) VersionDecreased r in
      let r := reject (negb (height h =? saturating_add u64_max (height prev) 1)) InvalidHeight r in
      let r := reject (negb (prev_hash h =? hash prev)) PreviousHashMismatch r in
      reject_coded (timestamp h <=? timestamp prev) CYNC_CONS_005 TimestampNotGreater r
  end.

Definition check_header_checkpoint_vote (h : BlockHeader) (r : BlockValidation) : BlockValidation :=
  match checkpoint_vote h with
  | Some (cp_height, _) => reject (height h <=? cp_height) FutureCheckpointVote r
  | None => r
  end.

Definition MIN_REASONABLE_TIME : Z := 1577836800.

(** The local clock, a [u64], is read as an [i64] and shifted. *)
Definition current_time : Z :=
  Z.max 0 ((unix_now E + offset_secs E + 2 ^ 63) mod 2 ^ 64 - 2 ^ 63).

Definition check_header_future_timestamp (h : BlockHeader) (r : BlockValidation) : BlockValidation :=
  let local_time := unix_now E in
  if (local_time =? 0) && negb (is_overridden E) then add_error SystemClockError r
  else
    let r := if local_time <? MIN_REASONABLE_TIME then add_warning ClockBefore2020 r else r in
    reject_coded ((0 <? height h) && (wrap u64_max (current_time + MAX_TIMESTAMP_DRIFT) <? timestamp h))
      CYNC_CONS_004 TimestampTooFarInFuture r.

Definition validate_header (h : BlockHeader) (prev_header : option BlockHeader) (r : BlockValidation)
  : BlockValidation :=
  check_header_future_timestamp h
    (check_header_checkpoint_vote h
      (check_header_vs_prev h prev_header (check_header_version_min h r))).

(** ** The target *)

(** The first 16 bytes of a target. *)
Definition target_to_u128 (t : Z) : Z := be_value (take 16 (be_bytes 32 t)).

Definition ratio_scaled (target_value prev_value : Z) : Z :=
  if u128_max / 1000 <? target_value then
    let a := Z.shiftr target_value 10 in
    let b := Z.max (Z.shiftr prev_value 10) 1 in
    wrap u128_max (a * 1000) / b
  else wrap u128_max (target_value * 1000) / prev_value.

Definition validate_difficulty_target (b : Block) (prev_block : option Block) (r : BlockValidation)
  : BlockValidation :=
  let target_value := target_to_u128 (target (header b)) in
  let max_value := be_value (take 16 Difficulty.max_target) in
  if max_value <? target_value then add_error_coded CYNC_POW_001 TargetAboveMax r
  else if target (header b) =? 0 then add_error_coded CYNC_POW_001 TargetZero r
  else
    match prev_block with
    | None => r
    | Some prev =>
        let prev_value := target_to_u128 (target (header prev)) in
        if (0 <? prev_value) && (0 <? target_value) then
          let ratio := ratio_scaled target_value prev_value in
          let time_diff := saturating_sub (timestamp (header b)) (timestamp (header prev)) in
          let '(min_ratio, max_ratio) :=
            if TARGET_BLOCK_TIME * 5 <=? time_diff then (4, 256000) else (31, 32000) in
          reject ((ratio <? min_ratio) || (max_ratio <? ratio)) AdjustmentOutOfBounds r
        else r
    end.

Definition shielded_root_permitted (spark_set_root : Z) (n : NetworkType) (height : Z) : bool :=
  shielded_tx_active_at_height (crypto E) n height || (spark_set_root =? 0).

(** ** Size, weight and structure *)

Definition check_block_size (size : Z) (r : BlockValidation) : BlockValidation :=
  reject (MAX_BLOCK_SIZE <? size) BlockTooLarge r.

Definition RING_SIG_WEIGHT : Z := 256.
Definition MAX_BLOCK_WEIGHT : Z := MAX_BLOCK_SIZE * 4.

Definition total {A} (f : A -> Z) (l : list A) : Z := fold_left (fun acc a => wrap u64_max (acc + f a)) l 0.

Definition tx_weight (t : Transaction) : Z :=
  wrap u64_max (size_of t + total (fun i => len (ring_members i)) (inputs t) * RING_SIG_WEIGHT).

Definition check_block_weight (b : Block) (r : BlockValidation) : BlockValidation :=
  reject (MAX_BLOCK_WEIGHT <? total tx_weight (transactions b)) BlockTooHeavy r.

Definition check_block_tx_count (b : Block) (r : BlockValidation) : BlockValidation :=
  reject (MAX_TXS_PER_BLOCK <? len (transactions b)) TooManyTransactions r.

Definition check_block_has_coinbase (b : Block) (r : BlockValidation) : bool * BlockValidation :=
  match transactions b with
  | [] => (false, add_error MissingCoinbase r)
  | _ => (true, r)
  end.

Definition check_block_first_tx_is_coinbase (b : Block) (r : BlockValidation) : BlockValidation :=
  match transactions b with
  | first_tx :: _ => reject (negb (is_coinbase first_tx)) FirstNotCoinbase r
  | [] => add_error NoTransactions r
  end.

Definition check_block_merkle_root (b : Block) (hashes : list Z) (r : BlockValidation) : BlockValidation :=
  reject (negb (merkle_root (blake3 E) hashes =? tx_root (header b))) InvalidMerkleRoot r.

Definition check_block_privacy_policy (b : Block) (r : BlockValidation) : BlockValidation :=
  match enforce_privacy_policy (crypto E) b with
  | Err e => add_error (PrivacyViolation e) r
  | Ok _ => r
  end.

(** One error for every item that was seen before. *)
Fixpoint reject_repeats (add : BlockValidation -> BlockValidation) (seen : gset Z) (l : list Z)
    (r : BlockValidation) : BlockValidation :=
  match l with
  | [] => r
  | x :: l => reject_repeats add ({[x]} ∪ seen) l (if bool_decide (x ∈ seen) then add r else r)
  end.

Definition check_block_duplicate_tx_hashes (hashes : list Z) (r : BlockValidation) : BlockValidation :=
  reject_repeats (add_error DuplicateTxHash) ∅ hashes r.

Definition check_block_duplicate_key_images (b : Block) (r : BlockValidation) : BlockValidation :=
  reject_repeats (add_error_coded CYNC_CONS_002 DuplicateKeyImageInBlock) ∅
    (flat_map key_images (transactions b)) r.

(** The addresses of all outputs of the block. *)
Definition check_block_duplicate_addresses (b : Block) (r : BlockValidation) : BlockValidation :=
  reject_repeats (add_error DuplicateStealthAddress) ∅
    (flat_map (fun t => map stealth_address (outputs t)) (transactions b)) r.

(** ** The coinbase *)

Definition check_block_tail_supply (expected_reward : Z) (r : BlockValidation) : BlockValidation :=
  let r := reject (expected_reward <? TAIL_EMISSION) RewardBelowTail r in
  let genesis_reward := Curve.calculate_block_reward 0 in
  reject_coded (genesis_reward <? expected_reward) CYNC_EMIT_001 RewardAboveGenesis r.

Definition congestion_pct (size : Z) : Z := size * 100 / MAX_BLOCK_SIZE.

Definition max_coinbase (b : Block) (n : NetworkType) (size : Z) : option Z :=
  let expected_reward := Curve.calculate_block_reward (block_height b) in
  let fees := Types.total_fees b in
  if (fee_distribution_height n <=? block_height b) && (0 <? fees) then
    let congested := CONGESTION_THRESHOLD <=? congestion_pct size in
    let dist := FeeMarket.distribute_fee fees congested in
    checked_add u64_max expected_reward (FeeMarket.to_miner dist)
  else checked_add u64_max expected_reward fees.

(** The loop over the outputs of the coinbase: the declared total, whether all outputs
    were valid, and the result; [break] ends it. *)
Fixpoint check_coinbase_outputs (v1_0_12_active : bool) (idx : nat) (outs : list TxOutput)
    (total_declared : Z) (all_valid : bool) (r : BlockValidation) : Z * bool * BlockValidation :=
  match outs with
  | [] => (total_declared, all_valid, r)
  | output :: outs =>
      let length_ok := if v1_0_12_active then len (encrypted_amount output) =? 8
                       else 8 <=? len (encrypted_amount output) in
      if negb length_ok then
        check_coinbase_outputs v1_0_12_active (S idx) outs total_declared false
          (add_error (CoinbaseAmountEncoding idx) r)
      else
        let declared := declared_amount output in
        let mismatch := negb (commitment output =? commit0 (crypto E) declared) in
        let r := reject mismatch (CoinbaseCommitmentMismatch idx) r in
        let on_curve := is_point (crypto E) (commitment output) in
        let identity := on_curve && (commitment output =? 0) in
        let r := reject identity (CoinbaseZeroCommitment idx) r in
        let r := reject (negb on_curve) (CoinbaseInvalidPoint idx) r in
        let all_valid := all_valid && negb mismatch && negb identity && on_curve in
        match checked_add u64_max total_declared declared with
        | Some next => check_coinbase_outputs v1_0_12_active (S idx) outs next all_valid r
        | None => (total_declared, false, add_error (CoinbaseSumOverflow idx) r)
        end
  end.

Definition check_coinbase (b : Block) (n : NetworkType) (max : Z) (fast_sync : bool) (r : BlockValidation)
  : BlockValidation :=
  match Types.coinbase b with
  | None => r
  | Some coinbase =>
      let r := reject (len (outputs coinbase) =? 0) CoinbaseNoOutputs r in
      let r := reject (negb (len (inputs coinbase) =? 0) && negb (is_coinbase coinbase)) CoinbaseInputs r in
      let r := reject (16 <? len (outputs coinbase)) CoinbaseTooManyOutputs r in
      let r := if 1 <? len (outputs coinbase) then
                 let min_total := saturating_mul u64_max MIN_OUTPUT_AMOUNT (len (outputs coinbase)) in
                 reject (max <? min_total) CoinbaseDust r
               else r in
      if (0 <? block_height b) && negb fast_sync then
        let '(total_declared, all_valid, r) :=
          check_coinbase_outputs (v1_0_12_rules_active n (block_height b)) 0 (outputs coinbase) 0 true r in
        if all_valid then reject (negb (total_declared =? max)) CoinbaseTotalMismatch r else r
      else r
  end.

(** ** Fees and transactions *)

Definition dynamic_min (multiplier_x100 : Z) (t : Transaction) : option Z :=
  v ← checked_mul u64_max (size_of t) MIN_FEE_PER_BYTE;
  w ← checked_mul u64_max v multiplier_x100;
  Some (w / 100).

Definition check_dynamic_fee (multiplier_x100 : Z) (idx : nat) (t : Transaction) (r : BlockValidation)
  : BlockValidation :=
  match dynamic_min multiplier_x100 t with
  | None => add_error (FeeCalculationOverflow idx) r
  | Some min => reject (fee t <? min) (FeeTooLowForCongestion idx) r
  end.

Definition check_transaction (utxos : UtxoSet) (n : NetworkType) (height : Z) (contextual : bool)
    (idx : nat) (t : Transaction) (r : BlockValidation) : BlockValidation :=
  if is_coinbase t then add_error (MultipleCoinbase idx) r
  else
    match validate_transaction_for_network_ctx (crypto E) t utxos height n contextual with
    | Ok _ => r
    | Err e => add_error (InvalidTx idx e) r
    end.

(** [for (idx, tx) in .. .enumerate().skip(1)] *)
Fixpoint for_each_from {A} (f : nat -> A -> BlockValidation -> BlockValidation) (idx : nat) (l : list A)
    (r : BlockValidation) : BlockValidation :=
  match l with
  | [] => r
  | a :: l => for_each_from f (S idx) l (f idx a r)
  end.

(** ** The driver *)

Definition check_block_pow (b : Block) (prev_block : option Block) (fast_sync : bool) (r : BlockValidation)
  : BlockValidation :=
  if 0 <? block_height b then
    match prev_block with
    | Some prev =>
        let h := header b in
        let r := if fast_sync then r
                 else reject_coded
                        (negb (verify_pow E (hash (header prev)) (block_height b) (timestamp h) (nonce h)
                                 (tx_root h) (target h) (anchor h) (algorithm h) (pow_binding (blake3 E) h)))
                        CYNC_CONS_001 ProofOfWorkInvalid r in
        validate_difficulty_target b prev_block r
    | None => add_error NoPreviousBlockForPow r
    end
  else r.

(** From the structural checks to the last test of [result.valid]. *)
Definition check_block_body (b : Block) (n : NetworkType) (max : Z) (fast_sync : bool) (r : BlockValidation)
  : BlockValidation :=
  let v1_0_12_active := v1_0_12_rules_active n (block_height b) in
  let r := check_block_tail_supply (Curve.calculate_block_reward (block_height b)) r in
  let r := check_coinbase b n max fast_sync r in
  let r := check_block_duplicate_tx_hashes (tx_hashes (tx_hash E) b) r in
  let r := check_block_duplicate_key_images b r in
  if v1_0_12_active then check_block_duplicate_addresses b r else r.

Definition check_block_transactions (b : Block) (utxos : UtxoSet) (n : NetworkType) (size : Z)
    (fast_sync contextual : bool) (r : BlockValidation) : BlockValidation :=
  let txs := non_coinbase_transactions b in
  let r := if (0 <? block_height b) && negb fast_sync then
             for_each_from (check_dynamic_fee (FeeMarket.congestion_multiplier (congestion_pct size))) 1 txs r
           else r in
  if fast_sync then
    for_each_from (fun idx t => reject (is_coinbase t) (MultipleCoinbase idx)) 1 txs r
  else for_each_from (check_transaction utxos n (block_height b) contextual) 1 txs r.

Definition validate_block_ctx (b : Block) (prev_block : option Block) (utxos : UtxoSet)
    (checkpoint_height : option Z) (n : NetworkType) (contextual : bool) : BlockValidation :=
  let r := ok in
  let '(go, r) := check_block_network_magic b n r in
  if negb go then r else
  let '(go, r) := check_block_consensus_checkpoint n b r in
  if negb go then r else
  let fast_sync_requested := match checkpoint_height with Some cp => block_height b <=? cp | None => false end in
  let fast_sync := fast_sync_requested && allow_checkpoint_crypto_skip E in
  let r := validate_header (header b) (header <$> prev_block) r in
  if negb (shielded_root_permitted (spark_set_root (header b)) n (block_height b))
  then add_error SparkRootNotZero r else
  let r := check_block_pow b prev_block fast_sync r in
  let size := block_size size_of b in
  let r := check_block_size size r in
  let r := check_block_weight b r in
  let r := check_block_tx_count b r in
  let '(go, r) := check_block_has_coinbase b r in
  if negb go then r else
  let r := check_block_first_tx_is_coinbase b r in
  let r := check_block_merkle_root b (tx_hashes (tx_hash E) b) r in
  let r := check_block_privacy_policy b r in
  match max_coinbase b n size with
  | None => add_error CoinbaseMaxOverflow r
  | Some max =>
      let r := check_block_body b n max fast_sync r in
      if negb (valid r) then r
      else check_block_transactions b utxos n size fast_sync contextual r
  end.

Definition validate_block_with_checkpoint_for_network (b : Block) (prev_block : option Block) (utxos : UtxoSet)
    (checkpoint_height : option Z) (n : NetworkType) : BlockValidation :=
  validate_block_ctx b prev_block utxos checkpoint_height n true.
End Checks.

(** ** What the checks accept *)

(** [accepts f P]: the check [f] leaves the result valid exactly when [P] holds. *)
Definition accepts (f : BlockValidation -> BlockValidation) (P : Prop) : Prop :=
  forall r, valid (f r) = true <-> P /\ valid r = true.

Lemma accepts_iff f P Q : (P <-> Q) -> accepts f P -> accepts f Q.
Proof. intros H Hf r. rewrite (Hf r), H. done. Qed.

Lemma accepts_id : accepts (fun r => r) True.
Proof. intros r. tauto. Qed.

Lemma accepts_add e : accepts (add_error e) False.
Proof. intros r. cbn. naive_solver. Qed.

Lemma accepts_reject bad e : accepts (reject bad e) (bad = false).
Proof. intros r. destruct bad; cbn; naive_solver. Qed.

Lemma accepts_reject_coded bad c e : accepts (reject_coded bad c e) (bad = false).
Proof. intros r. destruct bad; cbn; naive_solver. Qed.

Lemma valid_reject bad e r : valid (reject bad e r) = true <-> bad = false /\ valid r = true.
Proof. apply accepts_reject. Qed.

Lemma valid_reject_coded bad c e r : valid (reject_coded bad c e r) = true <-> bad = false /\ valid r = true.
Proof. apply accepts_reject_coded. Qed.

Lemma accepts_repeats add l : (forall r, valid (add r) = false) -> forall seen,
  accepts (reject_repeats add seen l) (NoDup l /\ forall x, x ∈ l -> x ∉ seen).
Proof.
  intros Hadd. induction l as [|a l IH]; intros seen r; cbn [reject_repeats].
  - split; [|tauto]. intros. split; [|done]. split; [constructor|set_solver].
  - rewrite (IH _ _), list.NoDup_cons. setoid_rewrite elem_of_cons.
    destruct (decide (a ∈ seen)) as [Ha|Ha].
    + rewrite bool_decide_eq_true_2, Hadd by done. split; [naive_solver|]. intros [[_ H] _].
      by destruct (H a (or_introl eq_refl)).
    + rewrite bool_decide_eq_false_2 by done. set_solver.
Qed.

Lemma accepts_fresh add l : (forall r, valid (add r) = false) -> accepts (reject_repeats add ∅ l) (NoDup l).
Proof. intros Hadd. eapply accepts_iff; [|by apply accepts_repeats]. set_solver. Qed.

Lemma accepts_for_each {A} (f : nat -> A -> BlockValidation -> BlockValidation) (P : A -> Prop) l :
  (forall i a, accepts (f i a) (P a)) -> forall i, accepts (for_each_from f i l) (forall a, a ∈ l -> P a).
Proof.
  intros Hf. induction l as [|a l IH]; intros i r; cbn [for_each_from]; [set_solver|].
  rewrite (IH _ _), (Hf i a r). setoid_rewrite elem_of_cons. naive_solver.
Qed.

(** ** Errors and codes *)

(** The registered invariants among the errors. *)
Definition code_of (e : BlockError) : option string :=
  match e with
  | ProofOfWorkInvalid => Some CYNC_CONS_001
  | DuplicateKeyImageInBlock => Some CYNC_CONS_002
  | TimestampTooFarInFuture => Some CYNC_CONS_004
  | TimestampNotGreater => Some CYNC_CONS_005
  | TargetAboveMax | TargetZero => Some CYNC_POW_001
  | RewardAboveGenesis => Some CYNC_EMIT_001
  | _ => None
  end.

Definition consistent (r : BlockValidation) : Prop :=
  (valid r = true <-> errors r = []) /\ codes r = omap code_of (errors r).

Create HintDb verdict discriminated.
#[local] Hint Constants Opaque : verdict.

Lemma consistent_error e r : code_of e = None -> consistent r -> consistent (add_error e r).
Proof.
  intros He [_ Hc]. split; cbn [valid errors codes add_error].
  - split; [done|]. by destruct (errors r).
  - by rewrite omap_app, Hc; cbn; rewrite He, app_nil_r.
Qed.

Lemma consistent_coded c e r : code_of e = Some c -> consistent r -> consistent (add_error_coded c e r).
Proof.
  intros He [_ Hc]. split; cbn [valid errors codes add_error_coded].
  - split; [done|]. by destruct (errors r).
  - by rewrite omap_app, Hc; cbn; rewrite He.
Qed.

Lemma consistent_reject b e r : code_of e = None -> consistent r -> consistent (reject b e r).
Proof. destruct b; [apply consistent_error|done]. Qed.

Lemma consistent_reject_coded b c e r : code_of e = Some c -> consistent r -> consistent (reject_coded b c e r).
Proof. destruct b; [apply consistent_coded|done]. Qed.

Lemma consistent_if (b : bool) r r' : consistent r -> consistent r' -> consistent (if b then r else r').
Proof. by destruct b. Qed.

Lemma consistent_repeats add l : (forall r, consistent r -> consistent (add r)) -> forall seen r,
  consistent r -> consistent (reject_repeats add seen l r).
Proof. intros Hadd. induction l as [|x l IH]; intros seen r Hr; cbn; [done|]. apply IH. apply consistent_if; auto. Qed.

Lemma consistent_each {A} (f : nat -> A -> BlockValidation -> BlockValidation) l :
  (forall i a r, consistent r -> consistent (f i a r)) -> forall i r, consistent r -> consistent (for_each_from f i l r).
Proof. intros Hf. induction l as [|x l IH]; intros i r Hr; cbn; auto. Qed.

#[local] Hint Resolve consistent_error consistent_coded consistent_reject consistent_reject_coded consistent_if
  consistent_repeats consistent_each : verdict.
#[local] Hint Extern 1 (code_of _ = _) => reflexivity : verdict.

Section Consistency.
Context (E : Env).

Lemma consistent_header h prev r : consistent r -> consistent (validate_header E h prev r).
Proof.
  intros Hr. unfold validate_header.
  assert (H1 : consistent (check_header_version_min h r)) by (unfold check_header_version_min; eauto with verdict).
  assert (H2 : consistent (check_header_vs_prev E h prev (check_header_version_min h r))).
  { unfold check_header_vs_prev. destruct prev; eauto 12 with verdict. }
  set (r2 := check_header_vs_prev _ _ _ _) in *. clearbody r2.
  assert (H3 : consistent (check_header_checkpoint_vote h r2)).
  { unfold check_header_checkpoint_vote. destruct (checkpoint_vote h) as [[]|]; eauto with verdict. }
  unfold check_header_future_timestamp. destruct (_ && _); [eauto with verdict|].
  apply consistent_reject_coded; [done|]. apply consistent_if; [|done]. destruct H3. by split.
Qed.

Lemma consistent_pow b prev fs r : consistent r -> consistent (check_block_pow E b prev fs r).
Proof.
  intros Hr. unfold check_block_pow. destruct (0 <? _); [|done]. destruct prev as [p|]; [|eauto with verdict].
  set (r1 := if fs then r else _). assert (H1 : consistent r1) by (subst r1; eauto with verdict). clearbody r1.
  unfold validate_difficulty_target. apply consistent_if; [eauto with verdict|]. apply consistent_if; [eauto with verdict|].
  apply consistent_if; [|done]. destruct (_ <=? _); eauto with verdict.
Qed.

Lemma consistent_coinbase_outputs v outs : forall i t a r, consistent r ->
  consistent (snd (check_coinbase_outputs E v i outs t a r)).
Proof.
  induction outs as [|o outs IH]; intros i t a r Hr; cbn [check_coinbase_outputs snd]; [done|].
  destruct (negb _); [apply IH; eauto with verdict|].
  destruct (checked_add _ _ _); [apply IH|cbn [snd]]; eauto 12 with verdict.
Qed.

Lemma consistent_coinbase b n max fs r : consistent r -> consistent (check_coinbase E b n max fs r).
Proof.
  intros Hr. unfold check_coinbase. destruct (Types.coinbase b) as [cb|]; [|done].
  set (r0 := if 1 <? len (outputs cb) then _ else _). assert (H0 : consistent r0) by (subst r0; eauto 12 with verdict).
  clearbody r0. destruct (_ && _); [|done].
  pose proof (consistent_coinbase_outputs (v1_0_12_rules_active n (block_height b)) (outputs cb) 0%nat 0 true r0 H0) as Hc.
  destruct (check_coinbase_outputs _ _ _ _ _ _ _) as [[T a] r']. eauto with verdict.
Qed.

Lemma consistent_transactions b utxos n size fs ctx r : consistent r ->
  consistent (check_block_transactions E b utxos n size fs ctx r).
Proof.
  intros Hr. unfold check_block_transactions.
  assert (Hf : forall m i t r, consistent r -> consistent (check_dynamic_fee E m i t r)).
  { intros. unfold check_dynamic_fee. case_match; eauto with verdict. }
  assert (Ht : forall h i t r, consistent r -> consistent (check_transaction E utxos n h ctx i t r)).
  { intros. unfold check_transaction. repeat case_match; eauto with verdict. }
  destruct fs; eauto 12 with verdict.
Qed.
End Consistency.
#[local] Hint Resolve consistent_header consistent_pow consistent_coinbase consistent_transactions : verdict.

(** The verdict of the validator is explained: on every path, early returns, fast sync
    and non-contextual validation included, the block is valid exactly when no error was
    recorded, and the diagnostic codes are those of the recorded errors, in order. *)
Theorem verdict_explained E b prev utxos cp n ctx :
  let r := validate_block_ctx E b prev utxos cp n ctx in
  (valid r = true <-> errors r = []) /\ codes r = omap code_of (errors r).
Proof.
  cbv zeta. fold (consistent (validate_block_ctx E b prev utxos cp n ctx)).
  assert (Hok : consistent ok) by done. unfold validate_block_ctx.
  destruct (check_block_network_magic b n ok) as [go1 r1] eqn:E1.
  assert (H1 : consistent r1).
  { unfold check_block_network_magic in E1. repeat case_match; simplify_eq; eauto with verdict. }
  destruct (negb go1); [done|].
  destruct (check_block_consensus_checkpoint E n b r1) as [go2 r2] eqn:E2.
  assert (H2 : consistent r2).
  { unfold check_block_consensus_checkpoint in E2. repeat case_match; simplify_eq; eauto with verdict. }
  destruct (negb go2); [done|]. cbv zeta. apply consistent_if; [eauto with verdict|].
  set (r3 := check_block_tx_count _ _).
  assert (H3 : consistent r3).
  { subst r3. unfold check_block_tx_count, check_block_weight, check_block_size. eauto 12 with verdict. }
  clearbody r3. unfold check_block_has_coinbase. destruct (transactions b) eqn:Et; cbn [negb]; [eauto with verdict|].
  set (r4 := check_block_privacy_policy _ _ _).
  assert (H4 : consistent r4).
  { subst r4. unfold check_block_privacy_policy, check_block_merkle_root, check_block_first_tx_is_coinbase.
    destruct (enforce_privacy_policy _ _); rewrite Et; eauto 12 with verdict. }
  clearbody r4. destruct (max_coinbase _ _ _); [|eauto with verdict].
  assert (H5 : consistent (check_block_body E b n z (match cp with Some c => block_height b <=? c | None => false end
    && allow_checkpoint_crypto_skip E) r4)).
  { unfold check_block_body, check_block_tail_supply, check_block_duplicate_tx_hashes,
      check_block_duplicate_key_images, check_block_duplicate_addresses. eauto 20 with verdict. }
  apply consistent_if; eauto with verdict.
Qed.

Section Accepted.
Context (E : Env) (n : NetworkType).
Abbreviation hash := (header_hash (blake3 E)) (only parsing).
Abbreviation size_of := (TxValidation.tx_size (crypto E)) (only parsing).

(** The header [h] extends [prev]. *)
Definition linked (h : BlockHeader) (prev : option BlockHeader) : Prop :=
  match prev with
  | None => height h = 0
  | Some p => version p <= version h /\ height h = saturating_add u64_max (height p) 1
              /\ prev_hash h = hash p /\ timestamp p < timestamp h
  end.

Record header_accepted (h : BlockHeader) (prev : option BlockHeader) : Prop := {
  ha_version : block_version_at_height (height h) <= version h <= MAX_BLOCK_VERSION;
  ha_linked : linked h prev;
  ha_vote cp x : checkpoint_vote h = Some (cp, x) -> cp < height h;
  ha_clock : unix_now E <> 0 \/ is_overridden E = true;
  ha_future : 0 < height h -> timestamp h <= wrap u64_max (current_time E + MAX_TIMESTAMP_DRIFT) }.

Lemma accepts_header h prev : accepts (validate_header E h prev) (header_accepted h prev).
Proof.
  intros r. unfold validate_header.
  assert (Ht : forall r, valid (check_header_future_timestamp E h r) = true <->
    ((unix_now E <> 0 \/ is_overridden E = true)
     /\ (0 < height h -> timestamp h <= wrap u64_max (current_time E + MAX_TIMESTAMP_DRIFT))) /\ valid r = true).
  { clear r. intros r. unfold check_header_future_timestamp.
    destruct ((unix_now E =? 0) && negb (is_overridden E)) eqn:Ec.
    - apply andb_true_iff in Ec as [Ez Eo]. rewrite Z.eqb_eq, negb_true_iff in *. cbn [valid add_error]. naive_solver.
    - rewrite valid_reject_coded. apply andb_false_iff in Ec. rewrite Z.eqb_neq, negb_false_iff in Ec.
      replace (valid _) with (valid r) by (by destruct (unix_now E <? _)).
      rewrite andb_false_iff, !Z.ltb_ge. naive_solver lia. }
  assert (Hc : forall r, valid (check_header_checkpoint_vote h r) = true <->
    (forall cp x, checkpoint_vote h = Some (cp, x) -> cp < height h) /\ valid r = true).
  { clear r. intros r. unfold check_header_checkpoint_vote. destruct (checkpoint_vote h) as [[cp x]|]; [|naive_solver].
    rewrite valid_reject, Z.leb_gt. naive_solver. }
  assert (Hl : forall r, valid (check_header_vs_prev E h prev r) = true <-> linked h prev /\ valid r = true).
  { clear r. intros r. destruct prev as [p|]; cbn [check_header_vs_prev linked].
    - rewrite valid_reject_coded, !valid_reject, !negb_false_iff, !Z.ltb_ge, !Z.eqb_eq, Z.leb_gt. tauto.
    - by rewrite valid_reject, negb_false_iff, Z.eqb_eq. }
  rewrite Ht, Hc, Hl. unfold check_header_version_min. rewrite !valid_reject, !Z.ltb_ge.
  split.
  - intros ([] & ? & ? & ? & ? & ?). split; [|done]. by constructor.
  - intros [[] ?]. tauto.
Qed.

(** The loose bound on the change of the target. *)
Definition adjustment_ok (b prev : Block) : Prop :=
  let t := target_to_u128 (target (header b)) in
  let p := target_to_u128 (target (header prev)) in
  0 < p -> 0 < t ->
  if TARGET_BLOCK_TIME * 5 <=? saturating_sub (timestamp (header b)) (timestamp (header prev))
  then 4 <= ratio_scaled t p <= 256000 else 31 <= ratio_scaled t p <= 32000.

Lemma target_value_bounds t : 0 <= target_to_u128 t <= u128_max.
Proof.
  unfold target_to_u128. pose proof (be_value_bounds (take 16 (be_bytes 32 t))) as H.
  rewrite length_take, length_be_bytes in H. specialize (H (list.Forall_take _ _ _ (be_bytes_bytes 32 t))).
  change (256 ^ Z.of_nat (16 `min` 32)) with (u128_max + 1) in H. lia.
Qed.

(** The first check never fires: the maximum target is all ones. *)
Lemma accepts_target b prev :
  accepts (validate_difficulty_target b (Some prev)) (target (header b) <> 0 /\ adjustment_ok b prev).
Proof.
  intros r. unfold validate_difficulty_target, adjustment_ok.
  change (be_value (take 16 Difficulty.max_target)) with u128_max.
  pose proof (target_value_bounds (target (header b))).
  destruct (Z.ltb_spec u128_max (target_to_u128 (target (header b)))); [lia|].
  destruct (Z.eqb_spec (target (header b)) 0); [cbn; naive_solver|].
  destruct (Z.ltb_spec 0 (target_to_u128 (target (header prev)))), (Z.ltb_spec 0 (target_to_u128 (target (header b))));
    cbn [andb]; try (split; [intros; split; [split; [done|lia]|done]|tauto]).
  destruct (_ <=? saturating_sub _ _); rewrite valid_reject, orb_false_iff, !Z.ltb_ge; tauto.
Qed.

(** The retarget of [Difficulty] stays well inside the loose bounds. *)
Lemma ratio_bounds t r : 1 <= t <= u128_max -> Z.max (t / 2) 1 <= r -> r <= 8 * t -> r <= u128_max ->
  31 <= ratio_scaled r t <= 32000.
Proof.
  intros Ht Hlo Hhi Hr. unfold ratio_scaled. pose proof (Z.div_mod t 2 ltac:(lia)). pose proof (Z.mod_pos_bound t 2 ltac:(lia)).
  destruct (Z.ltb_spec (u128_max / 1000) r) as [Hbig|Hsmall].
  - change (u128_max / 1000) with 340282366920938463463374607431768211 in Hbig.
    rewrite !Z.shiftr_div_pow2 by lia. change (2 ^ 10) with 1024.
    pose proof (Z.div_mod r 1024 ltac:(lia)). pose proof (Z.mod_pos_bound r 1024 ltac:(lia)).
    pose proof (Z.div_mod t 1024 ltac:(lia)). pose proof (Z.mod_pos_bound t 1024 ltac:(lia)).
    rewrite wrap_small by (unfold fits; lia). rewrite Z.max_l by lia.
    split; [apply Z.div_le_lower_bound|apply Z.div_le_upper_bound]; lia.
  - change (u128_max / 1000) with 340282366920938463463374607431768211 in Hsmall.
    rewrite wrap_small by (unfold fits; lia).
    split; [apply Z.div_le_lower_bound|apply Z.div_le_upper_bound]; lia.
Qed.

(** The loose gate of the block validator never rejects a target that the difficulty
    retarget computes: if the header carries the retarget of a window that ends at its
    parent, the gate accepts it whatever the timestamps are. *)
Theorem retarget_passes_sanity_gate blocks h b prev tip r : (2 <= length blocks)%nat ->
  list.last blocks = Some tip -> Difficulty.calculate_difficulty blocks h = Some r ->
  be_bytes 32 (target (header prev)) = Difficulty.target tip -> be_bytes 32 (target (header b)) = r ->
  validate_difficulty_target b (Some prev) ok = ok.
Proof.
  intros Hlen Htip Hr Ep Eb.
  destruct (Difficulty.calculate_difficulty_shape blocks h Hlen) as (tip' & sa & la & Htip' & _ & _ & E').
  rewrite Htip in Htip'. injection Htip' as <-. rewrite Hr in E'. injection E' as ->.
  set (v := Difficulty.combine_targets _ _ _ _) in *.
  assert (Ht : 1 <= Difficulty.target_to_u128 (Difficulty.target tip) <= u128_max).
  { apply Difficulty.target_to_u128_bounds. rewrite <- Ep. apply be_bytes_bytes. }
  destruct (Difficulty.combine_targets_bounds _ (Difficulty.apply_asert (Difficulty.target_to_u128 (Difficulty.target sa)) sa tip TARGET_BLOCK_TIME ASERT_HALFLIFE)
    (Difficulty.apply_asert (Difficulty.target_to_u128 (Difficulty.target la)) la tip TARGET_BLOCK_TIME ASERT_HALFLIFE)
    (Difficulty.needs_emergency_drop blocks h) Ht) as (Hlo & Hhi & Hv).
  1, 2: apply Difficulty.apply_asert_nonneg; unfold Difficulty.target_to_u128; lia.
  fold v in Hlo, Hhi, Hv. clearbody v.
  assert (Etv : target_to_u128 (target (header b)) = v).
  { unfold target_to_u128. rewrite Eb. by apply Difficulty.target_bytes_value. }
  assert (Hnz : target (header b) <> 0) by (intros H0; rewrite H0 in Etv; vm_compute in Etv; lia).
  unfold validate_difficulty_target. change (be_value (take 16 Difficulty.max_target)) with u128_max. rewrite Etv.
  destruct (Z.ltb_spec u128_max v); [lia|]. destruct (Z.eqb_spec (target (header b)) 0); [done|].
  destruct (Z.ltb_spec 0 (target_to_u128 (target (header prev)))) as [Hp|]; [|done].
  destruct (Z.ltb_spec 0 v); [|lia]. cbn [andb].
  assert (Etp : target_to_u128 (target (header prev)) = Difficulty.target_to_u128 (Difficulty.target tip)).
  { revert Hp. unfold target_to_u128, Difficulty.target_to_u128. rewrite Ep. lia. }
  rewrite Etp. destruct (ratio_bounds (Difficulty.target_to_u128 (Difficulty.target tip)) v) as [? ?];
    [done|done| |lia|destruct (_ <=? saturating_sub _ _); unfold reject; zcases].
  clear -Hhi Ht. pose proof (div_le_self (Difficulty.target_to_u128 (Difficulty.target tip)) 2).
  destruct (Difficulty.needs_emergency_drop blocks h); lia.
Qed.

Definition pow_accepted (b : Block) (prev : option Block) : Prop :=
  0 < block_height b -> exists p, prev = Some p /\ target (header b) <> 0 /\ adjustment_ok b p /\
  let h := header b in
  verify_pow E (hash (header p)) (block_height b) (timestamp h) (nonce h) (tx_root h) (target h) (anchor h)
    (algorithm h) (pow_binding (blake3 E) h) = true.

Lemma accepts_pow b prev : accepts (check_block_pow E b prev false) (pow_accepted b prev).
Proof.
  intros r. unfold check_block_pow, pow_accepted.
  destruct (Z.ltb_spec 0 (block_height b)); [|split; [split; [lia|done]|tauto]].
  destruct prev as [p|]; [|cbn; naive_solver].
  rewrite (accepts_target b p _), valid_reject_coded, negb_false_iff. naive_solver.
Qed.

(** ** The coinbase *)

Definition declared_sum (outs : list TxOutput) : Z := foldr (fun o a => declared_amount o + a) 0 outs.

(** An output whose amount is public: the commitment opens to the declared amount with no
    blinding. *)
Definition revealed (v1_0_12_active : bool) (o : TxOutput) : Prop :=
  (if v1_0_12_active then length (encrypted_amount o) = 8%nat else (8 <= length (encrypted_amount o))%nat)
  /\ commitment o = commit0 (crypto E) (declared_amount o) /\ hidden (crypto E) (commitment o).

Lemma coinbase_outputs_invalid v outs : forall i t a r, valid r = false ->
  valid (snd (check_coinbase_outputs E v i outs t a r)) = false.
Proof.
  induction outs as [|o outs IH]; intros i t a r Hr; cbn [check_coinbase_outputs]; [done|].
  destruct (negb _); [by apply IH|].
  destruct (checked_add _ _ _); [apply IH|done]. unfold reject. by repeat destruct (negb _ || _) || case_match.
Qed.

Lemma declared_nonneg o : is_bytes (encrypted_amount o) -> 0 <= declared_amount o.
Proof.
  intros H. unfold declared_amount. apply be_value_bounds, List.Forall_rev. by apply list.Forall_take.
Qed.

Lemma declared_sum_nonneg outs : Forall (fun o => is_bytes (encrypted_amount o)) outs -> 0 <= declared_sum outs.
Proof. 
  induction 1 as [|o outs Ho _ IH]; [done|]. pose proof (declared_nonneg o Ho).
  cbn [declared_sum foldr]. fold (declared_sum outs). lia.
Qed.

(** An output with a defect leaves the result invalid to the end of the loop. *)
Lemma coinbase_outputs_defect v i outs t d a r : valid r = false ->
  valid (snd (match checked_add u64_max t d with
              | Some next => check_coinbase_outputs E v (S i) outs next a r
              | None => (t, false, add_error (CoinbaseSumOverflow i) r)
              end)) = false.
Proof. intros Hr. destruct (checked_add _ _ _); [by apply coinbase_outputs_invalid|done]. Qed.

Lemma coinbase_outputs_ok v outs : Forall (fun o => is_bytes (encrypted_amount o)) outs -> forall i t r,
  let '(total, all, r') := check_coinbase_outputs E v i outs t true r in
  (valid r' = true -> all = true /\ total = t + declared_sum outs) /\
  (valid r' = true <->
    (Forall (revealed v) outs /\ (outs = [] \/ t + declared_sum outs <= u64_max)) /\ valid r = true).
Proof.
  induction 1 as [|o outs Ho Houts IH]; intros i t r; cbn [check_coinbase_outputs].
  - cbn. split; [intros; split; [done|lia]|]. split; [intros; by repeat constructor; auto|tauto].
  - pose proof (declared_nonneg o Ho). pose proof (declared_sum_nonneg outs Houts).
    assert (Hcons := list.Forall_cons (revealed v) o outs).
    assert (Hsum : declared_sum (o :: outs) = declared_amount o + declared_sum outs) by done.
    assert (Hlen : (if v then len (encrypted_amount o) =? 8 else 8 <=? len (encrypted_amount o)) = true <->
      (if v then length (encrypted_amount o) = 8%nat else (8 <= length (encrypted_amount o))%nat)).
    { unfold len. destruct v; [rewrite Z.eqb_eq|rewrite Z.leb_le]; lia. }
    unfold revealed at 2, hidden in Hcons.
    destruct (if v then len _ =? 8 else _) eqn:El; cbn [negb].
    + apply proj1 in Hlen. specialize (Hlen eq_refl).
      destruct (commitment o =? commit0 (crypto E) (declared_amount o)) eqn:E1,
        (is_point (crypto E) (commitment o)) eqn:E2, (commitment o =? 0) eqn:E3; cbn [negb andb reject].
      all: rewrite ?Z.eqb_eq, ?Z.eqb_neq in *.
      2: { unfold checked_add. destruct (Z.leb_spec (t + declared_amount o) u64_max).
           - specialize (IH (S i) (t + declared_amount o) r).
             destruct (check_coinbase_outputs _ _ _ _ _ _ _) as [[T a] r']. destruct IH as [IH1 IH2]. split.
             + intros Hr. destruct (IH1 Hr). split; [done|lia].
             + rewrite IH2, Hcons, Hsum. clear -Hlen E1 E2 E3 H H0 H1. destruct outs; cbn [declared_sum foldr] in *; naive_solver lia.
           - cbn [valid add_error]. split; [done|]. split; [done|]. intros [[_ [?|?]] _]; [done|lia]. }
      all: match goal with |- context [match checked_add _ ?t ?d with Some next => check_coinbase_outputs _ ?v ?i ?l next ?a ?r | None => _ end] =>
             pose proof (coinbase_outputs_defect v (pred i) l t d a r eq_refl) as Hd end; cbn [pred] in Hd.
      all: destruct (match checked_add _ _ _ with Some _ => _ | None => _ end) as [[T a] r']; cbn in Hd; rewrite Hd;
           split; [done|split; [done|rewrite Hcons; clear -E1 E2 E3; naive_solver congruence]].
    + pose proof (coinbase_outputs_invalid v outs (S i) t false (add_error (CoinbaseAmountEncoding i) r) eq_refl) as Hd.
      destruct (check_coinbase_outputs _ _ _ _ _ _ _) as [[T a] r']. cbn in Hd. rewrite Hd.
      split; [done|]. split; [done|]. rewrite Hcons. intros [[[[Hl _] _] _] _]. apply Hlen in Hl. done.
Qed.

Definition coinbase_accepted (b : Block) (cb : Transaction) (max : Z) : Prop :=
  1 <= len (outputs cb) <= 16
  /\ (1 < len (outputs cb) -> MIN_OUTPUT_AMOUNT * len (outputs cb) <= max)
  /\ (0 < block_height b ->
        Forall (revealed (v1_0_12_rules_active n (block_height b))) (outputs cb) /\ declared_sum (outputs cb) = max).

(** The values of a block are values of their types. *)
Definition typed (b : Block) : Prop :=
  fits u64_max (block_height b)
  /\ (forall t o, t ∈ transactions b -> o ∈ outputs t -> is_bytes (encrypted_amount o))
  /\ forall t, t ∈ transactions b -> fits u64_max (fee t).

Lemma accepts_coinbase b cb txs max : typed b -> transactions b = cb :: txs -> max <= u64_max ->
  accepts (check_coinbase E b n max false)
    ((len (inputs cb) = 0 \/ is_coinbase cb = true) /\ coinbase_accepted b cb max).
Proof.
  intros (_ & Hb & _) Etx Hmax r. unfold check_coinbase, coinbase_accepted, Types.coinbase. rewrite Etx. cbn [head].
  rewrite andb_true_r. pose proof (len_nonneg (outputs cb)).
  set (r0 := if 1 <? len (outputs cb) then _ else _).
  assert (H0 : valid r0 = true <-> ((len (inputs cb) = 0 \/ is_coinbase cb = true) /\ 1 <= len (outputs cb) <= 16
    /\ (1 < len (outputs cb) -> MIN_OUTPUT_AMOUNT * len (outputs cb) <= max)) /\ valid r = true).
  { subst r0. unfold saturating_mul, MIN_OUTPUT_AMOUNT.
    destruct (Z.ltb_spec 1 (len (outputs cb)));
      rewrite !valid_reject, andb_false_iff, !negb_false_iff, ?Z.eqb_neq, ?Z.eqb_eq, ?Z.ltb_ge;
      split; intros; destruct_and!; split_and!; intros; done || lia. }
  clearbody r0. destruct (Z.ltb_spec 0 (block_height b)); [|rewrite H0; intuition lia].
  assert (Hbytes : Forall (fun o => is_bytes (encrypted_amount o)) (outputs cb)).
  { apply list.Forall_forall. intros o Ho. apply (Hb cb o); [rewrite Etx; left|done]. }
  pose proof (coinbase_outputs_ok (v1_0_12_rules_active n (block_height b)) _ Hbytes 0%nat 0 r0) as Hc.
  destruct (check_coinbase_outputs _ _ _ _ _ _ _) as [[T a] r']. destruct Hc as [Hc1 Hc2].
  assert (Hgoal : valid (if a then reject (negb (T =? max)) CoinbaseTotalMismatch r' else r') = true <->
    valid r' = true /\ declared_sum (outputs cb) = max).
  { destruct a; [rewrite valid_reject, negb_false_iff, Z.eqb_eq|].
    - split; [intros [-> Hv]; destruct (Hc1 Hv); split; [done|lia]|intros [Hv <-]; destruct (Hc1 Hv); split; [lia|done]].
    - split; [intros Hv; by destruct (Hc1 Hv)|]. tauto. }
  rewrite Hgoal, Hc2, H0. assert (declared_sum (outputs cb) = max -> 0 + declared_sum (outputs cb) <= u64_max) by lia.
  tauto.
Qed.

(** A block that may extend [prev] over the output set [utxos]. *)
Record block_accepted (b : Block) (prev : option Block) (utxos : UtxoSet) : Prop := {
  ba_magic : network_magic (header b) = magic_bytes n \/ (network_magic (header b) = 0 /\ block_height b = 0);
  ba_checkpoint x : expected_checkpoint_hash E n (block_height b) = Some x -> hash (header b) = x;
  ba_header : header_accepted (header b) (header <$> prev);
  ba_spark : shielded_tx_active_at_height (crypto E) n (block_height b) = true \/ spark_set_root (header b) = 0;
  ba_pow : pow_accepted b prev;
  ba_size : block_size size_of b <= MAX_BLOCK_SIZE;
  ba_weight : total (tx_weight E) (transactions b) <= MAX_BLOCK_WEIGHT;
  ba_count : len (transactions b) <= MAX_TXS_PER_BLOCK;
  ba_root : tx_root (header b) = merkle_root (blake3 E) (tx_hashes (tx_hash E) b);
  ba_privacy : enforce_privacy_policy (crypto E) b = Ok tt;
  ba_coinbase : exists cb max, head (transactions b) = Some cb /\ is_coinbase cb = true
    /\ max_coinbase b n (block_size size_of b) = Some max /\ coinbase_accepted b cb max;
  ba_hashes : NoDup (tx_hashes (tx_hash E) b);
  ba_images : NoDup (flat_map key_images (transactions b));
  ba_addresses : v1_0_12_rules_active n (block_height b) = true ->
    NoDup (flat_map (fun t => map stealth_address (outputs t)) (transactions b));
  ba_fees t : 0 < block_height b -> t ∈ non_coinbase_transactions b -> exists min,
    dynamic_min E (FeeMarket.congestion_multiplier (congestion_pct (block_size size_of b))) t = Some min /\ min <= fee t;
  ba_txs t : t ∈ non_coinbase_transactions b -> is_coinbase t = false
    /\ validate_transaction_for_network (crypto E) t utxos (block_height b) n = Ok tt }.

Lemma accepts_tail h : fits u64_max h -> accepts (check_block_tail_supply (Curve.calculate_block_reward h)) True.
Proof.
  intros Hh r. unfold check_block_tail_supply, Curve.calculate_block_reward. rewrite valid_reject_coded, valid_reject, !Z.ltb_ge.
  pose proof (Curve.base_reward_bounds h Hh). pose proof (Curve.base_reward_antitone 0 h).
  assert (Curve.base_reward h <= Curve.base_reward 0) by (apply Curve.base_reward_antitone; unfold fits in *; lia).
  intuition lia.
Qed.

Lemma accepts_fees b mult : accepts (for_each_from (check_dynamic_fee E mult) 1 (non_coinbase_transactions b))
  (forall t, t ∈ non_coinbase_transactions b -> exists min, dynamic_min E mult t = Some min /\ min <= fee t).
Proof.
  apply accepts_for_each. intros i t r. unfold check_dynamic_fee. destruct (dynamic_min E mult t).
  - rewrite valid_reject, Z.ltb_ge. naive_solver.
  - cbn. naive_solver.
Qed.

Lemma accepts_txs b utxos : accepts (for_each_from (check_transaction E utxos n (block_height b) true) 1 (non_coinbase_transactions b))
  (forall t, t ∈ non_coinbase_transactions b -> is_coinbase t = false
    /\ validate_transaction_for_network (crypto E) t utxos (block_height b) n = Ok tt).
Proof.
  apply accepts_for_each. intros i t r. unfold check_transaction, validate_transaction_for_network.
  destruct (is_coinbase t); [cbn; naive_solver|].
  destruct (validate_transaction_for_network_ctx _ _ _ _ _ _) as [[]|]; cbn; naive_solver.
Qed.

Lemma max_coinbase_fits b size max : max_coinbase b n size = Some max -> max <= u64_max.
Proof. unfold max_coinbase. destruct (_ && _); by intros [_ ?]%checked_add_inv. Qed.

Lemma accepts_body b cb txs max : typed b -> transactions b = cb :: txs -> max <= u64_max ->
  accepts (check_block_body E b n max false)
    ((len (inputs cb) = 0 \/ is_coinbase cb = true) /\ coinbase_accepted b cb max /\ NoDup (tx_hashes (tx_hash E) b) /\ NoDup (flat_map key_images (transactions b))
     /\ (v1_0_12_rules_active n (block_height b) = true ->
           NoDup (flat_map (fun t => map stealth_address (outputs t)) (transactions b)))).
Proof.
  intros Hb Etx Hmax r. unfold check_block_body.
  set (r1 := check_block_duplicate_key_images _ _).
  assert (H1 : valid r1 = true <-> ((len (inputs cb) = 0 \/ is_coinbase cb = true) /\ coinbase_accepted b cb max /\ NoDup (tx_hashes (tx_hash E) b)
    /\ NoDup (flat_map key_images (transactions b))) /\ valid r = true).
  { subst r1. unfold check_block_duplicate_key_images, check_block_duplicate_tx_hashes.
    rewrite (accepts_fresh (add_error_coded _ _) _ (fun _ => eq_refl) _), (accepts_fresh (add_error _) _ (fun _ => eq_refl) _).
    rewrite (accepts_coinbase b cb txs max Hb Etx Hmax _), (accepts_tail _ (proj1 Hb) _). tauto. }
  clearbody r1. destruct (v1_0_12_rules_active n (block_height b)); [|rewrite H1; naive_solver].
  unfold check_block_duplicate_addresses. rewrite (accepts_fresh (add_error _) _ (fun _ => eq_refl) _), H1. naive_solver.
Qed.

Lemma accepts_privacy b : accepts (check_block_privacy_policy E b) (enforce_privacy_policy (crypto E) b = Ok tt).
Proof.
  intros r. unfold check_block_privacy_policy. destruct (enforce_privacy_policy (crypto E) b) as [[]|]; cbn; naive_solver.
Qed.

Lemma accepts_transactions b utxos size r :
  valid (if negb (valid r) then r else check_block_transactions E b utxos n size false true r) = true <->
  ((forall t, 0 < block_height b -> t ∈ non_coinbase_transactions b ->
      exists min, dynamic_min E (FeeMarket.congestion_multiplier (congestion_pct size)) t = Some min /\ min <= fee t)
   /\ forall t, t ∈ non_coinbase_transactions b -> is_coinbase t = false
        /\ validate_transaction_for_network (crypto E) t utxos (block_height b) n = Ok tt) /\ valid r = true.
Proof.
  destruct (valid r) eqn:Er; cbn [negb]; [|rewrite Er; naive_solver].
  unfold check_block_transactions. rewrite (accepts_txs b utxos _), andb_true_r.
  destruct (Z.ltb_spec 0 (block_height b)); [rewrite (accepts_fees b _ _)|]; rewrite Er.
  - naive_solver.
  - split; [|tauto]. intros [Ht _]. split; [split; [lia|done]|done].
Qed.

(** The checks between the header and the coinbase amount. *)
Lemma accepts_middle b prev cb txs : transactions b = cb :: txs ->
  accepts (fun r => check_block_privacy_policy E b (check_block_merkle_root E b (tx_hashes (tx_hash E) b)
      (check_block_first_tx_is_coinbase b (check_block_tx_count b (check_block_weight E b
         (check_block_size (block_size size_of b) (check_block_pow E b prev false r)))))))
    (pow_accepted b prev /\ block_size size_of b <= MAX_BLOCK_SIZE
     /\ total (tx_weight E) (transactions b) <= MAX_BLOCK_WEIGHT /\ len (transactions b) <= MAX_TXS_PER_BLOCK
     /\ is_coinbase cb = true /\ tx_root (header b) = merkle_root (blake3 E) (tx_hashes (tx_hash E) b)
     /\ enforce_privacy_policy (crypto E) b = Ok tt).
Proof.
  intros Etx r. rewrite (accepts_privacy b _).
  unfold check_block_merkle_root, check_block_first_tx_is_coinbase, check_block_tx_count, check_block_weight, check_block_size.
  replace (match transactions b with [] => _ | _ => _ end)
    with (reject (negb (is_coinbase cb)) FirstNotCoinbase
       (reject (MAX_TXS_PER_BLOCK <? len (transactions b)) TooManyTransactions
          (reject (MAX_BLOCK_WEIGHT <? total (tx_weight E) (transactions b)) BlockTooHeavy
             (reject (MAX_BLOCK_SIZE <? block_size size_of b) BlockTooLarge (check_block_pow E b prev false r)))))
    by (by rewrite Etx).
  rewrite !valid_reject, (accepts_pow b prev _), !negb_false_iff, Z.eqb_eq, !Z.ltb_ge. naive_solver.
Qed.

(** A check that may end the validation: it passes and changes nothing, or it fails. *)
Definition gate (c : bool * BlockValidation) (r : BlockValidation) (P : Prop) : Prop :=
  (c = (true, r) /\ P) \/ (exists r', c = (false, r') /\ valid r' = false /\ ~ P).

Lemma gate_magic b r : gate (check_block_network_magic b n r) r
  (network_magic (header b) = magic_bytes n \/ (network_magic (header b) = 0 /\ block_height b = 0)).
Proof.
  unfold check_block_network_magic.
  destruct (Z.eqb_spec (network_magic (header b)) 0), (Z.eqb_spec (block_height b) 0),
    (Z.eqb_spec (network_magic (header b)) (magic_bytes n)); cbn [andb negb];
    solve [left; split; [done|tauto] | right; eexists; split; [done|split; [done|tauto]]].
Qed.

Lemma gate_checkpoint b r : gate (check_block_consensus_checkpoint E n b r) r
  (forall x, expected_checkpoint_hash E n (block_height b) = Some x -> hash (header b) = x).
Proof.
  unfold check_block_consensus_checkpoint. destruct (expected_checkpoint_hash E n (block_height b)) as [x|]; [|left; naive_solver].
  destruct (Z.eqb_spec (hash (header b)) x); cbn [negb]; [left; naive_solver|right]. eexists. split; [done|]. naive_solver.
Qed.

Lemma block_ok b prev utxos cp : allow_checkpoint_crypto_skip E = false -> typed b ->
  valid (validate_block_ctx E b prev utxos cp n true) = true <-> block_accepted b prev utxos.
Proof.
  intros Hskip Hb. unfold validate_block_ctx. rewrite Hskip, andb_false_r. cbv zeta.
  destruct (gate_magic b ok) as [[-> Hm] | (r & -> & Hr & Hm)]; cbn [negb]; [|rewrite Hr; split; [done|by intros []]].
  destruct (gate_checkpoint b ok) as [[-> Hc] | (r & -> & Hr & Hc)]; cbn [negb]; [|rewrite Hr; split; [done|by intros []]].
  unfold shielded_root_permitted. destruct (_ || _) eqn:Es; cbn [negb].
  2: { cbn [valid add_error]. split; [done|]. intros []. rewrite orb_false_iff, Z.eqb_neq in Es. destruct Es; intuition congruence. }
  apply orb_true_iff in Es. rewrite Z.eqb_eq in Es. unfold check_block_has_coinbase.
  destruct (transactions b) as [|cb txs] eqn:Etx; cbn [negb].
  { split; [done|]. intros [? ? ? ? ? ? ? ? ? ? (cb & ? & Hcb & _)]. by rewrite Etx in Hcb. }
  destruct (max_coinbase b n (block_size size_of b)) as [max|] eqn:Emax.
  2: { split; [done|]. intros [? ? ? ? ? ? ? ? ? ? (? & ? & _ & _ & Hcb & _)]. congruence. }
  rewrite accepts_transactions, (accepts_body b cb txs max Hb Etx (max_coinbase_fits _ _ _ Emax) _).
  pose proof (accepts_middle b prev cb txs Etx (validate_header E (header b) (header <$> prev) ok)) as Hmid.
  cbv beta in Hmid. rewrite Hmid, (accepts_header _ _ _). clear Hmid. split.
  - intros ([Hfee Htx] & (_ & Hcb & ? & ? & ?) & (? & ? & ? & ? & Hc1 & ? & ?) & ? & _). constructor; try done.
    exists cb, max. by rewrite Etx.
  - intros []. destruct ba_coinbase0 as (cb' & max' & Hcb & ? & Hmax & ?). rewrite Etx in Hcb. injection Hcb as <-.
    rewrite Emax in Hmax. injection Hmax as <-. tauto.
Qed.

(** C11: In a build without fast sync, whatever the checkpoint height asked for, a block is
    valid exactly when: the network and the consensus checkpoints match; the header links
    to its parent, its version is in range, its checkpoint vote is for a lower height, the
    clock can be read and its time is not too far ahead; the root of the shielded set is
    zero until shielded transactions are active; the proof of work verifies and the target
    is not zero nor out of proportion; size, weight and count are within limits; the
    transactions hash to the Merkle root, and respect the privacy policy; the coinbase
    declares, in 1 to 16 outputs (several if the total allows each the minimum) whose
    commitments open to the declared amounts, exactly the reward plus the miner's share of
    the fees; transaction hashes, key images and (from 1.0.12) output addresses are
    distinct; and every other transaction is not a coinbase, pays the congestion fee and
    passes the full validation against the output set. *)
Theorem block_valid_iff b prev utxos cp : allow_checkpoint_crypto_skip E = false -> typed b ->
  valid (validate_block_with_checkpoint_for_network E b prev utxos cp n) = true <-> block_accepted b prev utxos.
Proof. apply block_ok. Qed.

Lemma hashes_nonempty b cb : head (transactions b) = Some cb -> tx_hashes (tx_hash E) b <> [].
Proof. unfold tx_hashes. by destruct (transactions b). Qed.

Lemma hashes_width m b : (forall t, fits m (tx_hash E t)) -> Forall (fits m) (tx_hashes (tx_hash E) b).
Proof. intros H. apply list.Forall_forall. intros x (t & -> & _)%list_elem_of_fmap. apply H. Qed.

(** C38: The hash of a valid block commits to the whole block: two valid blocks with one
    hash have the same header and the same transactions in the same order (as transaction
    hashes), unless BLAKE3 collides on two of the byte strings hashed for them.  The check
    for duplicate transaction hashes is what rules out the doubled-leaf forgery. *)
Theorem block_hash_commits b b' prev prev' utxos utxos' cp cp' :
  allow_checkpoint_crypto_skip E = false -> typed b -> typed b' -> header_ok (header b) -> header_ok (header b') ->
  (forall x, fits (256 ^ 32 - 1) (blake3 E x)) -> (forall t, fits (256 ^ 32 - 1) (tx_hash E t)) ->
  valid (validate_block_with_checkpoint_for_network E b prev utxos cp n) = true ->
  valid (validate_block_with_checkpoint_for_network E b' prev' utxos' cp' n) = true ->
  block_hash (blake3 E) b = block_hash (blake3 E) b' ->
  (header b = header b' /\ tx_hashes (tx_hash E) b = tx_hashes (tx_hash E) b')
  \/ collision_in (blake3 E) ([hash_preimage (header b); hash_preimage (header b')]
       ++ merkle_preimages (blake3 E) (tx_hashes (tx_hash E) b)
       ++ merkle_preimages (blake3 E) (tx_hashes (tx_hash E) b')).
Proof.
  intros Hskip Hb Hb' Hok Hok' Hw Hwt [] %block_ok [] %block_ok Eh; [|done..].
  apply header_hash_inj in Eh as [Eh|Hc]; [|right; eapply collision_mono; [|exact Hc]; intros x; rewrite !elem_of_app; tauto|done|done].
  rewrite Eh, ba_root1 in ba_root0. apply merkle_root_inj in ba_root0 as [Et|Hc]; try done.
  - by left.
  - right. eapply collision_mono; [|exact Hc]. intros x. rewrite !elem_of_app. tauto.
  - destruct ba_coinbase1 as (cb & max & Hcb & _). by apply (hashes_nonempty b' cb).
  - destruct ba_coinbase0 as (cb & max & Hcb & _). by apply (hashes_nonempty b cb).
  - by apply hashes_width.
  - by apply hashes_width.
Qed.
End Accepted.

(** ** Samples *)

Definition typedb (b : Block) : bool :=
  fitsb u64_max (block_height b)
  && forallb (fun t => fitsb u64_max (fee t)
       && forallb (fun o => forallb (fitsb u8_max) (encrypted_amount o)) (outputs t)) (transactions b).

Lemma typedb_ok b : typedb b = true -> typed b.
Proof.
  unfold typedb, typed. rewrite andb_true_iff, fitsb_spec, forallb_elem. setoid_rewrite andb_true_iff.
  setoid_rewrite fitsb_spec. setoid_rewrite forallb_elem. intros [Hh Ht]. split; [done|]. split.
  - intros t o Hti Ho. apply list.Forall_forall. intros x Hx. destruct (Ht t Hti) as [_ H]. specialize (H o Ho).
    rewrite forallb_elem in H. by apply fitsb_spec, H.
  - intros t Hti. by apply Ht.
Qed.

Definition sample_env : Env :=
  mkEnv sample_hash
    (fun t => match outputs t with o :: _ => stealth_address o mod 2 ^ 256 | [] => 0 end)
    sample_crypto (fun _ _ _ _ _ _ _ _ _ => true) 1700000000 false 0 (fun _ => []) false.

Definition sample_coinbase (outs : list (Z * Z)) : Transaction :=
  mkTx 1 Coinbase [] (map (fun o => mkOutput (fst o) 7 (snd o) (le_bytes 8 (snd o)) 0 None []) outs) 0 [] [].

Definition sample_block_header (prev : option BlockHeader) (h root : Z) : BlockHeader :=
  mkHeader REGTEST_MAGIC 2 h (1000 + 120 * h) (match prev with Some p => header_hash (blake3 sample_env) p | None => 0 end)
    root 0 0 0 (2 ^ 200) 0 0 None 0 0.

Definition sample_block (prev : option Block) (h : Z) (txs : list Transaction) : Block :=
  mkBlock (sample_block_header (header <$> prev) h (merkle_root (blake3 sample_env) (map (tx_hash sample_env) txs))) txs.


Definition sample_genesis : Block := sample_block None 0 [sample_coinbase [(11, 600)]].
Definition sample_first : Block :=
  sample_block (Some sample_genesis) 1 [sample_coinbase [(1001, Curve.base_reward 1)]].

Lemma sample_first_typed : typed sample_first.
Proof. apply typedb_ok. vm_compute. reflexivity. Qed.

Lemma sample_first_header : header_ok (header sample_first).
Proof. split; vm_compute; repeat split; discriminate. Qed.

Lemma block_valid_iff_witness : block_accepted sample_env Ledger.Regtest sample_first (Some sample_genesis) Utxo.new.
Proof.
  apply (block_valid_iff sample_env Ledger.Regtest sample_first (Some sample_genesis) Utxo.new (Some 5));
    [reflexivity|exact sample_first_typed|vm_compute; reflexivity].
Defined.

Lemma sample_hash_fits x : fits (256 ^ 32 - 1) (sample_hash x).
Proof.
  unfold sample_hash, fits. pose proof (Z.mod_pos_bound (be_value x) (2 ^ 256) ltac:(lia)).
  change (256 ^ 32) with (2 ^ 256). lia.
Qed.

Lemma sample_tx_hash_fits t : fits (256 ^ 32 - 1) (tx_hash sample_env t).
Proof.
  cbn [tx_hash sample_env]. change (256 ^ 32) with (2 ^ 256). unfold fits. destruct (outputs t) as [|o l]; [lia|].
  pose proof (Z.mod_pos_bound (stealth_address o) (2 ^ 256) ltac:(lia)). lia.
Qed.

Lemma block_hash_commits_witness :
  (header sample_first = header sample_first
   /\ tx_hashes (tx_hash sample_env) sample_first = tx_hashes (tx_hash sample_env) sample_first)
  \/ collision_in sample_hash ([hash_preimage (header sample_first); hash_preimage (header sample_first)]
       ++ merkle_preimages sample_hash (tx_hashes (tx_hash sample_env) sample_first)
       ++ merkle_preimages sample_hash (tx_hashes (tx_hash sample_env) sample_first)).
Proof.
  apply (block_hash_commits sample_env Ledger.Regtest sample_first sample_first (Some sample_genesis)
    (Some sample_genesis) Utxo.new Utxo.new None None); try reflexivity.
  1, 2: exact sample_first_typed.
  1, 2: exact sample_first_header.
  - exact sample_hash_fits.
  - exact sample_tx_hash_fits.
Defined.

Definition sample_window : list Difficulty.DifficultyBlock :=
  [Difficulty.mkBlock 1 0 (be_bytes 32 (2 ^ 200)); Difficulty.mkBlock 2 900 (be_bytes 32 (2 ^ 200))].

Definition sample_retarget : Z :=
  match Difficulty.calculate_difficulty sample_window 3 with Some r => be_value r | None => 0 end.

Definition sample_next : Block :=
  mkBlock (mkHeader 0 1 2 1000 0 0 0 0 0 sample_retarget 0 0 None 0 0) [].

Lemma retarget_passes_sanity_gate_witness :
  validate_difficulty_target sample_next (Some sample_first) ok = ok /\ sample_retarget <> 2 ^ 200.
Proof.
  split; [|vm_compute; discriminate].
  apply (retarget_passes_sanity_gate sample_window 3 sample_next sample_first
    (Difficulty.mkBlock 2 900 (be_bytes 32 (2 ^ 200))) (be_bytes 32 sample_retarget));
    first [reflexivity | cbn; lia | vm_compute; reflexivity].
Defined.
End BlockValidation.
