(* ===== verification/ActiveChain.v ===== *)
(** * The active chain (src/src/chain.rs, src/src/consensus/validation.rs, src/src/storage/utxos.rs)

    Blocks that were validated against the output set of the chain below them and then
    connected to it: what the checks of one block guarantee about the whole chain.  The
    outside world (the clock above all) may differ from block to block, so the environment
    is indexed by the number of blocks below. *)

From stdpp Require Import gmap list sets.
From S2P Require Import Prelude Constants Types Emission FeeMarket Ledger Utxo TxValidation BlockValidation.

Module ActiveChain.
Import Types TxValidation BlockValidation.

(** The parts of a transaction that the output set reads. *)
Definition utxo_output (o : TxOutput) : Utxo.TxOutput :=
  Utxo.mkTxOutput (stealth_address o) (commitment o) (lock_height o).

Definition utxo_tx (tx_hash : Transaction -> Z) (t : Transaction) : Utxo.Transaction :=
  Utxo.mkTransaction (tx_hash t) (is_coinbase t) (key_images t) (map utxo_output (outputs t)).

Section Chain.
Context (n : NetworkType) (E : nat -> Env).
Hypothesis no_skip : forall i, allow_checkpoint_crypto_skip (E i) = false.

Definition block_txs (i : nat) (b : Block) : list Utxo.Transaction := map (utxo_tx (tx_hash (E i))) (transactions b).

(** The chain, newest block first, with its output set. *)
Inductive active_chain : list Block -> UtxoSet -> Prop :=
| active_nil : active_chain [] Utxo.new
| active_cons b c s cp :
    active_chain c s -> typed b ->
    valid (validate_block_with_checkpoint_for_network (E (length c)) b (head c) s cp n) = true ->
    active_chain (b :: c) (Utxo.connect s (block_height b) (block_txs (length c) b)).

(** The key images that the chain spends. *)
Definition block_spends (b : Block) : list Z := flat_map key_images (non_coinbase_transactions b).
Definition chain_spends (c : list Block) : list Z := flat_map block_spends c.

Lemma connect_images s h txs : Utxo.key_images (Utxo.connect s h txs) = Utxo.key_images s ∪ list_to_set (Utxo.block_images txs).
Proof.
  rewrite Utxo.connect_eq. cbv zeta. cbn [Utxo.key_images Utxo.set_key_images]. f_equal.
  generalize (Utxo.adds (Utxo.batch_from_block h txs)). intros l. revert s.
  induction l as [|[[[[th i] o] ht] cb] l IH]; intros s; cbn [fold_left]; [done|]. by rewrite IH.
Qed.

Lemma accepted_images i b prev s : block_accepted (E i) n b prev s ->
  Utxo.block_images (block_txs i b) = block_spends b.
Proof.
  intros []. destruct ba_coinbase0 as (cb & max & Hcb & Hc & _). unfold Utxo.block_images, block_txs, block_spends.
  unfold non_coinbase_transactions in *. destruct (transactions b) as [|cb' txs]; [done|]. injection Hcb as ->.
  cbn [Utxo.key_image_removals Utxo.batch_disconnect_block flat_map map utxo_tx Utxo.is_coinbase tail] in *.
  rewrite Hc. cbn [app].
  assert (Ht : forall t, t ∈ txs -> is_coinbase t = false) by (intros t ?; by apply ba_txs0).
  clear -Ht. induction txs as [|t txs IH]; [done|].
  cbn [map flat_map utxo_tx Utxo.is_coinbase Utxo.inputs]. rewrite (Ht t) by left. f_equal. apply IH. set_solver.
Qed.

Lemma accepted_spends_fresh i b prev s : block_accepted (E i) n b prev s ->
  NoDup (block_spends b) /\ forall ki, ki ∈ block_spends b -> ki ∉ Utxo.key_images s.
Proof.
  intros []. unfold block_spends. split.
  - unfold non_coinbase_transactions. destruct (transactions b) as [|cb txs]; [constructor|].
    cbn [flat_map tail] in *. by apply list.NoDup_app in ba_images0 as (_ & _ & ?).
  - intros ki (t & Ht & Hki)%list_elem_of_In%in_flat_map. apply list_elem_of_In in Ht, Hki.
    destruct (ba_txs0 t Ht) as [Hcb Hv]. by apply (images_unspent (crypto (E i)) n s (block_height b) t).
Qed.

Lemma chain_images c s : active_chain c s ->
  NoDup (chain_spends c) /\ Utxo.key_images s = list_to_set (chain_spends c).
Proof.
  induction 1 as [|b c s cp Hc [IH1 IH2] Hb Hv]; [split; [constructor|done]|].
  apply block_ok in Hv; [|done|done]. destruct (accepted_spends_fresh _ _ _ _ Hv) as [Hn Hf].
  rewrite connect_images, (accepted_images _ _ _ _ Hv), IH2. unfold chain_spends in *. cbn [flat_map].
  rewrite list_to_set_app_L. split; [|set_solver].
  apply list.NoDup_app. split; [done|]. split; [|done]. intros ki Hki. apply Hf in Hki. rewrite IH2 in Hki. set_solver.
Qed.

(** ** Where ring members come from *)

(** The outputs of a block with the records that the output set keeps of them. *)
Definition block_outputs (b : Block) : list (Z * Utxo.OutputIndexEntry) :=
  flat_map (fun t => map (fun o => (stealth_address o,
    Utxo.mkIndexEntry (commitment o) (block_height b) (is_coinbase t) (lock_height o))) (outputs t)) (transactions b).

Definition chain_outputs (c : list Block) : list (Z * Utxo.OutputIndexEntry) := flat_map block_outputs c.

Definition entry_of (r : Utxo.OutputRef) : Utxo.OutputIndexEntry :=
  Utxo.mkIndexEntry (Utxo.commitment (Utxo.output r)) (Utxo.height r) (Utxo.ref_is_coinbase r)
    (Utxo.lock_height (Utxo.output r)).

(** Everything the set knows of outputs is in the list. *)
Record recorded (L : list (Z * Utxo.OutputIndexEntry)) (s : UtxoSet) : Prop := {
  rec_outputs k r : Utxo.outputs s !! k = Some r -> (Utxo.stealth_address (Utxo.output r), entry_of r) ∈ L;
  rec_index a e : Utxo.output_index s !! a = Some e -> (a, e) ∈ L;
  rec_db : Utxo.db s = None }.

Lemma recorded_add L s th i o h cb : recorded L s ->
  (Utxo.stealth_address o, Utxo.mkIndexEntry (Utxo.commitment o) h cb (Utxo.lock_height o)) ∈ L ->
  recorded L (Utxo.add_output_ext s th i o h cb).
Proof.
  intros [Ho Hi Hd] HL. split; cbn [Utxo.add_output_ext Utxo.outputs Utxo.output_index Utxo.db]; [| |done].
  - intros k r. destruct (decide (k = (th, i))) as [-> | Hk].
    + rewrite lookup_insert_eq. by intros [= <-].
    + rewrite lookup_insert_ne by done. apply Ho.
  - intros a e. unfold Utxo.or_insert. destruct (Utxo.output_index s !! Utxo.stealth_address o) eqn:Ea; [apply Hi|].
    destruct (decide (a = Utxo.stealth_address o)) as [-> | Hne].
    + rewrite lookup_insert_eq. by intros [= <-].
    + rewrite lookup_insert_ne by done. apply Hi.
Qed.

Lemma recorded_adds L l : forall s, recorded L s ->
  (forall th i o h cb, (th, i, o, h, cb) ∈ l ->
    (Utxo.stealth_address o, Utxo.mkIndexEntry (Utxo.commitment o) h cb (Utxo.lock_height o)) ∈ L) ->
  recorded L (fold_left Utxo.add_one l s).
Proof.
  induction l as [|[[[[th i] o] h] cb] l IH]; intros s Hs HL; [done|]. cbn [fold_left]. apply IH.
  - apply recorded_add; [done|]. apply (HL th i). left.
  - intros. eapply HL. right. eassumption.
Qed.

Lemma batch_outputs i b th idx o h cb :
  (th, idx, o, h, cb) ∈ Utxo.adds (Utxo.batch_from_block (block_height b) (block_txs i b)) ->
  (Utxo.stealth_address o, Utxo.mkIndexEntry (Utxo.commitment o) h cb (Utxo.lock_height o)) ∈ block_outputs b.
Proof.
  cbn [Utxo.adds Utxo.batch_from_block]. unfold block_outputs, block_txs.
  intros (t' & Ht & Ho)%list_elem_of_In%in_flat_map. apply in_map_iff in Ht as (t & <- & Ht).
  apply in_map_iff in Ho as ([j o'] & [= <- <- <- <- <-] & Hj). cbn [fst snd] in *.
  apply list_elem_of_In, in_flat_map. exists t. split; [done|]. apply in_map_iff.
  apply list_elem_of_In, list_elem_of_lookup in Hj as (k & Hk). unfold Utxo.enumerate_u8 in Hk.
  apply list_lookup_imap_Some in Hk as (x & Hx & [= -> ->]). cbn [utxo_tx Utxo.outputs_of] in Hx.
  change (map utxo_output (outputs t)) with (utxo_output <$> outputs t) in Hx.
  apply list_lookup_fmap_Some in Hx as (x' & -> & Hx'). exists x'. split; [done|].
  by apply list_elem_of_In, (list_elem_of_lookup_2 _ k).
Qed.

Lemma recorded_mono L L' s : (forall x, x ∈ L -> x ∈ L') -> recorded L s -> recorded L' s.
Proof. intros H []. split; eauto. Qed.

Lemma chain_recorded c s : active_chain c s -> recorded (chain_outputs c) s.
Proof.
  induction 1 as [|b c s cp Hc IH Hb Hv]; [split; [done|done|done]|].
  rewrite Utxo.connect_eq. cbv zeta. unfold chain_outputs in *. cbn [flat_map].
  destruct (recorded_adds (block_outputs b ++ flat_map block_outputs c)
    (Utxo.adds (Utxo.batch_from_block (block_height b) (block_txs (length c) b))) s) as [H1 H2 H3].
  - eapply recorded_mono; [|exact IH]. set_solver.
  - intros. apply elem_of_app. left. by eapply batch_outputs.
  - split; cbn; done.
Qed.

(** ** Output keys *)

(** The keys (transaction hash, output index) of all outputs of the chain. *)
Fixpoint chain_keys (c : list Block) : list (Z * Z) :=
  match c with
  | [] => []
  | b :: c => Utxo.block_keys (block_txs (length c) b) ++ chain_keys c
  end.

Lemma block_fresh_ok b c s : Utxo.well_formed s -> (forall k, is_Some (Utxo.outputs s !! k) -> k ∈ chain_keys c) ->
  block_accepted (E (length c)) n b (head c) s -> NoDup (chain_keys (b :: c)) ->
  Utxo.block_fresh s (block_txs (length c) b).
Proof.
  intros Hwf Hk Hv (Hn1 & Hn2 & _)%list.NoDup_app. destruct (accepted_spends_fresh _ _ _ _ Hv) as [_ Hf].
  split; [done|]. split; [|by rewrite (accepted_images _ _ _ _ Hv)].
  intros k Hin. destruct (Utxo.outputs s !! k) eqn:Ek; [|done]. destruct (Hn2 k Hin). apply Hk. by rewrite Ek.
Qed.

(** Along a chain with distinct keys the set stays well formed. *)
Lemma chain_well_formed c s : active_chain c s -> NoDup (chain_keys c) ->
  Utxo.well_formed s /\ forall k, is_Some (Utxo.outputs s !! k) -> k ∈ chain_keys c.
Proof.
  induction 1 as [|b c s cp Hc IH Hb Hv]; intros Hn; [split; [apply Utxo.new_wf|by intros k [? ?]]|].
  pose proof Hn as (_ & _ & Hn3)%list.NoDup_app. destruct (IH Hn3) as [Hwf Hk].
  apply block_ok in Hv; [|done|done].
  destruct (Utxo.connect_pending s (block_height b) (block_txs (length c) b)) as [Hp _]; [done|by apply block_fresh_ok|].
  split; [apply (Utxo.pd_wf _ _ _ Hp)|]. intros k HS. cbn [chain_keys]. apply elem_of_app.
  destruct (decide (k ∈ Utxo.block_keys (block_txs (length c) b))) as [|Hni]; [by left|right].
  apply Hk. rewrite <- (Utxo.pd_same _ _ _ Hp k); [done|]. by rewrite elem_of_list_to_set.
Qed.

(** C2: No key image is spent twice on a chain of validated blocks, and the spent set of
    the output set is exactly the key images of its transactions: transparent or
    shielded, within a transaction, within a block, or between blocks. *)
Theorem no_double_spend c s : active_chain c s ->
  NoDup (chain_spends c) /\ forall ki, Utxo.contains_key_image s ki = true <-> ki ∈ chain_spends c.
Proof.
  intros Hc. destruct (chain_images c s Hc) as [Hn Hs]. split; [done|]. intros ki.
  unfold Utxo.contains_key_image. by rewrite bool_decide_eq_true, Hs, elem_of_list_to_set.
Qed.

(** Every ring member of a validated block's transactions is an output of an earlier
    block of the chain, with its own commitment, unlocked at the height of the block and,
    if a coinbase created it, at least the minimum age old. *)
Theorem ring_members_on_chain b c s cp t i m : active_chain c s -> NoDup (chain_keys c) -> typed b ->
  valid (validate_block_with_checkpoint_for_network (E (length c)) b (head c) s cp n) = true ->
  t ∈ non_coinbase_transactions b -> i ∈ inputs t -> m ∈ ring_members i ->
  exists b' t' o, b' ∈ c /\ t' ∈ transactions b' /\ o ∈ outputs t'
  /\ stealth_address o = public_key m /\ commitment o = member_commitment m
  /\ (is_coinbase t' = true -> block_height b' + min_output_age n (block_height b) <= block_height b)
  /\ (forall l, lock_height o = Some l -> l <= block_height b).
Proof.
  intros Hc Hn Hb Hv Ht Hi Hm. apply block_ok in Hv; [|done|done]. destruct Hv. destruct (ba_txs0 t Ht) as [Hcb Hok].
  destruct (members_valid _ _ _ _ t i m Hcb Hok Hi Hm) as (e & He & Hcm & Hmat & Hlock).
  assert (Hin : (public_key m, e) ∈ chain_outputs c).
  { destruct (chain_recorded c s Hc) as [Ho Hx Hd], (chain_well_formed c s Hc Hn) as [Hwf _].
    unfold output_record in He. destruct (Utxo.get_output_by_stealth s (public_key m)) as [r|] eqn:Er.
    - unfold Utxo.get_output_by_stealth in Er. apply bind_Some in Er as (k & Hk & Hr).
      destruct (Utxo.wf_stealth _ Hwf _ _ Hk) as (r' & Hr' & Ha). rewrite Hr in Hr'. injection Hr' as <-.
      injection He as <-. rewrite <- Ha. by eapply Ho.
    - unfold Utxo.get_output_index_entry in He. rewrite Hd in He. apply Hx. by destruct (Utxo.output_index s !! _). }
  apply list_elem_of_In, in_flat_map in Hin as (b' & Hb' & Hin). apply in_flat_map in Hin as (t' & Ht' & Hin).
  apply in_map_iff in Hin as (o & [= Ha <-] & Hin). exists b', t', o. rewrite !list_elem_of_In. cbn in *. eauto 10.
Qed.

(** Disconnecting the tip restores the output set, provided the keys of the outputs
    are distinct: the freshness of the key images, which the rollback needs too, follows
    from the validation of the block. *)
Theorem validated_block_rolls_back b c s cp : active_chain c s -> typed b -> NoDup (chain_keys (b :: c)) ->
  valid (validate_block_with_checkpoint_for_network (E (length c)) b (head c) s cp n) = true ->
  let txs := block_txs (length c) b in
  Utxo.core (Utxo.disconnect (Utxo.connect s (block_height b) txs) txs) = Utxo.core s.
Proof.
  intros Hc Hb Hn Hv. apply block_ok in Hv; [|done|done]. pose proof Hn as (_ & _ & Hn3)%list.NoDup_app.
  destruct (chain_well_formed c s Hc Hn3) as [Hwf Hk]. pose proof (block_fresh_ok b c s Hwf Hk Hv Hn) as Hf.
  destruct (Utxo.connect_pending s (block_height b) _ Hwf Hf) as [Hp Hki]. by apply Utxo.disconnect_core.
Qed.

(** ** Heights, links and the amount created *)

Lemma tip_height b c s : active_chain (b :: c) s -> Z.of_nat (length c) <= u64_max ->
  block_height b = Z.of_nat (length c).
Proof.
  revert b s. induction c as [|p c IH]; intros b s Hc Hlen; inversion Hc as [|? ? s0 cp Hc0 Hb Hv]; subst;
    apply block_ok in Hv; [|done|done| |done|done]; destruct Hv as [? ? [? Hl ? ? ?] ?]; cbn in Hl; [done|].
  destruct Hl as (_ & Hh & _). cbn [length] in *. specialize (IH p s0 Hc0).
  unfold block_height in *. rewrite Hh, IH by lia. unfold saturating_add. lia.
Qed.

(** The amount that the coinbase of a block declares. *)
Definition coinbase_amount (b : Block) : Z :=
  match transactions b with cb :: _ => declared_sum (outputs cb) | [] => 0 end.

(** A sum over the blocks above genesis. *)
Definition above_genesis (f : Block -> Z) (c : list Block) : Z :=
  foldr (fun b a => (if 0 <? block_height b then f b else 0) + a) 0 c.

Definition minted : list Block -> Z := above_genesis coinbase_amount.
Definition rewards : list Block -> Z := above_genesis (fun b => Curve.base_reward (block_height b)).
Definition fees : list Block -> Z := above_genesis total_fees.

Lemma above_genesis_le f g c : (forall b, b ∈ c -> 0 < block_height b -> f b <= g b) -> above_genesis f c <= above_genesis g c.
Proof.
  intros H. unfold above_genesis. induction c as [|b c IH]; cbn [foldr]; [lia|].
  specialize (H b) as Hb. destruct (Z.ltb_spec 0 (block_height b)); [specialize (Hb ltac:(left) ltac:(lia))|];
    enough (foldr (fun b a => (if 0 <? block_height b then f b else 0) + a) 0 c
            <= foldr (fun b a => (if 0 <? block_height b then g b else 0) + a) 0 c) by lia;
    apply IH; intros b' Hb'; apply H; by right.
Qed.

Lemma above_genesis_add f g c : above_genesis (fun b => f b + g b) c = above_genesis f c + above_genesis g c.
Proof. unfold above_genesis. induction c as [|b c IH]; cbn [foldr]; [done|]. destruct (0 <? block_height b); lia. Qed.

Lemma block_fees_fit b : typed b -> fits u64_max (total_fees b).
Proof.
  intros (_ & _ & H). unfold total_fees, non_coinbase_transactions. destruct (transactions b) as [|cb txs]; [done|]. cbn [tail].
  assert (Hf : forall t, t ∈ txs -> fits u64_max (fee t)) by (intros t Ht; apply H; by right). clear H.
  assert (G : forall a, fits u64_max a -> fits u64_max (fold_left (fun acc t => saturating_add u64_max acc (fee t)) txs a)); [|by apply G].
  induction txs as [|t txs IH]; intros a Ha; cbn [fold_left]; [done|].
  apply IH; [set_solver|]. apply saturating_add_fits; [done|]. apply Hf. left.
Qed.

(** The coinbase takes the reward and at most the fees. *)
Lemma coinbase_bound i b prev s : block_accepted (E i) n b prev s -> typed b -> 0 < block_height b ->
  Curve.base_reward (block_height b) <= coinbase_amount b <= Curve.base_reward (block_height b) + total_fees b.
Proof.
  intros [] Hb Hh. destruct ba_coinbase0 as (cb & max & Hcb & _ & Hmax & _ & _ & Hd).
  unfold coinbase_amount. destruct (transactions b) as [|cb' txs] eqn:Et; [done|]. injection Hcb as ->.
  destruct (Hd Hh) as [_ ->]. unfold max_coinbase in Hmax. pose proof (block_fees_fit b Hb) as Hf.
  destruct (_ && _); apply checked_add_inv in Hmax as [-> _]; unfold Curve.calculate_block_reward; [|unfold fits in Hf; lia].
  set (c := CONGESTION_THRESHOLD <=? _). destruct (FeeMarket.distribute_fee_eq (total_fees b) c Hf) as [-> ?].
  cbn [FeeMarket.to_miner]. lia.
Qed.

(** C12: A chain of validated blocks has consecutive heights from zero, and what the
    coinbases of its blocks above genesis create lies between the rewards that the emission
    curve gives for these blocks and those rewards plus the fees in these blocks: no block
    can inflate the supply. *)
Theorem minted_follows_emission c s : active_chain c s -> Z.of_nat (length c) <= u64_max ->
  (forall i b, c !! i = Some b -> block_height b = Z.of_nat (length c) - 1 - Z.of_nat i)
  /\ rewards c <= minted c <= rewards c + fees c.
Proof.
  intros Hc Hlen. assert (forall i b, c !! i = Some b -> block_height b = Z.of_nat (length c) - 1 - Z.of_nat i) as Hh.
  { induction Hc as [|b c s cp Hc IH Hb Hv]; [done|]. cbn [length] in Hlen.
    pose proof (tip_height b c _ (active_cons b c s cp Hc Hb Hv) ltac:(lia)) as Hh.
    intros [|i] b'; cbn [lookup list_lookup length]; [intros [= <-]; lia|]. intros Hi. rewrite (IH ltac:(lia) i b' Hi). lia. }
  split; [done|]. clear Hh Hlen. assert (forall b, b ∈ c -> 0 < block_height b ->
    Curve.base_reward (block_height b) <= coinbase_amount b <= Curve.base_reward (block_height b) + total_fees b) as Hm.
  { induction Hc as [|b c s cp Hc IH Hb Hv]; [by intros b ?%elem_of_nil|].
    intros b' [->|Hb']%elem_of_cons; [|by apply IH]. apply block_ok in Hv; [|done|done]. exact (coinbase_bound _ _ _ _ Hv Hb). }
  split; [|unfold rewards, fees; rewrite <- above_genesis_add]; apply above_genesis_le; intros b Hb Hp; by apply Hm.
Qed.

(** ** The chain as a computation *)

Fixpoint chain_set (c : list Block) : UtxoSet :=
  match c with
  | [] => Utxo.new
  | b :: c => Utxo.connect (chain_set c) (block_height b) (block_txs (length c) b)
  end.

Fixpoint chain_valid (c : list Block) : bool :=
  match c with
  | [] => true
  | b :: c => typedb b
              && valid (validate_block_with_checkpoint_for_network (E (length c)) b (head c) (chain_set c) None n)
              && chain_valid c
  end.

Lemma chain_valid_active c : chain_valid c = true -> active_chain c (chain_set c).
Proof.
  induction c as [|b c IH]; cbn [chain_valid chain_set]; [constructor|].
  rewrite !andb_true_iff. intros [[Hb Hv] Hc]. eapply active_cons; [by apply IH|by apply typedb_ok|exact Hv].
Qed.
End Chain.

(** ** A sample chain: ten blocks over a genesis with eleven outputs, then a spend *)

Fixpoint sample_chain (k : nat) : list Block :=
  match k with
  | O => [sample_block None 0 [sample_coinbase (map (fun m => (public_key m, member_commitment m)) (sample_ring 11))]]
  | S k => let c := sample_chain k in
           let h := Z.of_nat (S k) in
           sample_block (head c) h [sample_coinbase [(1000 + h, Curve.base_reward h)]] :: c
  end.

Definition sample_tip : Block :=
  sample_block (head (sample_chain 9)) 10
    [sample_coinbase [(1010, Curve.base_reward 10 + 2000000)]; sample_spend 11].

Definition sample_active : list Block := sample_tip :: sample_chain 9.
Definition sample_world : nat -> Env := fun _ => sample_env.

Lemma sample_valid_chain : chain_valid Ledger.Regtest sample_world sample_active = true.
Proof. vm_compute. reflexivity. Qed.

(** Two tail blocks with the same coinbase. *)
Definition tail_parent : Block := sample_block None 8999999 [].
Definition tail_first : Block := sample_block (Some tail_parent) 9000000 [sample_coinbase [(77, TAIL_EMISSION)]].
Definition tail_second : Block := sample_block (Some tail_first) 9000001 [sample_coinbase [(77, TAIL_EMISSION)]].

(** The validator does not compare a coinbase with the chain: a block may carry the
    coinbase of its parent, hash included.  Connecting it replaces the parent's output, and
    disconnecting it again removes that output from the set, so that a node that saw the
    block and rolled it back no longer knows an output that other nodes have. *)
Theorem replayed_coinbase_accepted :
  let s0 := Utxo.new in
  let txs1 := block_txs sample_world 0 tail_first in
  let txs2 := block_txs sample_world 0 tail_second in
  let s1 := Utxo.connect s0 9000000 txs1 in
  let s2 := Utxo.disconnect (Utxo.connect s1 9000001 txs2) txs2 in
  valid (validate_block_with_checkpoint_for_network sample_env tail_first (Some tail_parent) s0 None Ledger.Regtest) = true
  /\ valid (validate_block_with_checkpoint_for_network sample_env tail_second (Some tail_first) s1 None Ledger.Regtest) = true
  /\ transactions tail_first = transactions tail_second
  /\ (exists r, Utxo.get_output_by_stealth s1 77 = Some r /\ Utxo.height r = 9000000)
  /\ Utxo.get_output_by_stealth s2 77 = None /\ Utxo.get_output_index_entry s2 77 = None.
Proof.
  cbv zeta. split; [vm_compute; reflexivity|]. split; [vm_compute; reflexivity|]. split; [reflexivity|].
  split; [eexists; split; vm_compute; reflexivity|]. split; vm_compute; reflexivity.
Qed.

Lemma sample_below_active : active_chain Ledger.Regtest sample_world (sample_chain 9) (chain_set sample_world (sample_chain 9)).
Proof. apply chain_valid_active. vm_compute. reflexivity. Qed.

Lemma sample_keys_distinct : NoDup (chain_keys sample_world sample_active).
Proof. apply (bool_decide_unpack _). vm_compute. reflexivity. Qed.

Lemma no_double_spend_witness : NoDup (chain_spends sample_active) /\ chain_spends sample_active = [50; 51].
Proof.
  split; [|vm_compute; reflexivity].
  exact (proj1 (no_double_spend Ledger.Regtest sample_world (fun _ => eq_refl) _ _
                  (chain_valid_active _ _ _ sample_valid_chain))).
Defined.

Lemma ring_members_on_chain_witness :
  exists b' t' o, b' ∈ sample_chain 9 /\ t' ∈ transactions b' /\ o ∈ outputs t' /\ stealth_address o = 11.
Proof.
  destruct (ring_members_on_chain Ledger.Regtest sample_world (fun _ => eq_refl) sample_tip (sample_chain 9)
    (chain_set sample_world (sample_chain 9)) None (sample_spend 11) (mkInput 50 (sample_ring 11) 0 0) (mkMember 11 111))
    as (b' & t' & o & Hb & Ht & Ho & Ha & _).
  - exact sample_below_active.
  - exact (proj2 (proj2 (proj1 (list.NoDup_app _ _) sample_keys_distinct))).
  - apply typedb_ok. vm_compute. reflexivity.
  - vm_compute. reflexivity.
  - left.
  - left.
  - apply (list_elem_of_lookup_2 _ 10). reflexivity.
  - exists b', t', o. auto.
Defined.

Lemma validated_block_rolls_back_witness :
  let txs := block_txs sample_world 10 sample_tip in
  let s := chain_set sample_world (sample_chain 9) in
  Utxo.core (Utxo.disconnect (Utxo.connect s 10 txs) txs) = Utxo.core s.
Proof.
  apply (validated_block_rolls_back Ledger.Regtest sample_world (fun _ => eq_refl) sample_tip (sample_chain 9)
    (chain_set sample_world (sample_chain 9)) None).
  - exact sample_below_active.
  - apply typedb_ok. vm_compute. reflexivity.
  - exact sample_keys_distinct.
  - vm_compute. reflexivity.
Defined.

Lemma minted_follows_emission_witness :
  rewards sample_active <= minted sample_active <= rewards sample_active + fees sample_active
  /\ fees sample_active = 2000000.
Proof.
  split; [|vm_compute; reflexivity].
  apply (minted_follows_emission Ledger.Regtest sample_world (fun _ => eq_refl) sample_active
    (chain_set sample_world sample_active)); [exact (chain_valid_active _ _ _ sample_valid_chain)|vm_compute; discriminate].
Defined.
End ActiveChain.
