(* ===== verification/Miner.v ===== *)
(** * Block building (src/src/mining/template.rs, src/src/mining/block_builder.rs)

    The template that a node makes of its chain and its mempool (which transactions it packs
    and the pass that brings the packed set under the congestion fee floor), the candidate
    block that a miner builds from it (the coinbase with the claimable fees, the header and
    its anchor), the finished block and the split of the nonce space between the workers;
    and how such a block fares in the validation of [BlockValidation].

    Stealth-address generation, the anchor, the supply commitment hash and the byte encoding
    of a transaction are parameters. *)

From stdpp Require Import gmap list.
From S2P Require Import Prelude Constants Types Emission FeeMarket Ledger Utxo Mempool TxValidation BlockValidation ForkSignal.

Module Miner.
Import Types TxValidation BlockValidation.

(** ** The template *)

Definition COINBASE_HEADROOM : Z := 10 * 1024.
Definition MAX_TEMPLATE_TXS : Z := 4096.
Definition template_budget : Z := saturating_sub MAX_BLOCK_SIZE COINBASE_HEADROOM.

Definition congestion_pct_for_size (block_size : Z) : Z := wrap u64_max (block_size * 100 / MAX_BLOCK_SIZE).

Definition dynamic_min_fee (tx_size congestion_pct : Z) : option Z :=
  let mult_x100 := FeeMarket.congestion_multiplier congestion_pct in
  v ← checked_mul u64_max tx_size MIN_FEE_PER_BYTE;
  w ← checked_mul u64_max v mult_x100;
  Some (w / 100).

(** What the template reads of the chain. *)
Record ChainView := mkView {
  tip_height : Z;
  tip_hash : Z;
  tip_timestamp : Z;
  next_target : Z;
  next_difficulty : Z;
  chain_network : NetworkType;
  utxos : UtxoSet }.

(** A field of the JSON template: absent (or of another JSON type), not hexadecimal (or not
    a number), or a value. *)
Inductive Field (A : Type) := Missing | Malformed | Is (a : A).
Arguments Missing {A}.
Arguments Malformed {A}.
Arguments Is {A} a.

Record Template := mkTemplate {
  t_height : Field Z;
  t_prev_hash : Field Z;
  t_timestamp : Field Z;
  t_target : Field Z;
  t_difficulty : Field Z;
  (** the decoded bytes, whatever their number *)
  t_network_magic : Field (list Z);
  t_total_supply : Field Z;
  t_total_burned : Field Z;
  t_transactions : list (Field (list Z)) }.

Section Build.
Context (E : Env).
(** [borsh::to_vec] and [borsh::from_slice] of a transaction. *)
Context (to_vec : Transaction -> option (list Z)) (from_slice : list Z -> option Transaction).
Abbreviation size_of := (TxValidation.tx_size (crypto E)) (only parsing).

(** The arm [Some(floor) if tx.fee >= floor]. *)
Definition clears_floor (congestion_pct : Z) (t : Transaction) : bool :=
  match dynamic_min_fee (size_of t) congestion_pct with
  | Some floor => floor <=? fee t
  | None => false
  end.

(** [Blockchain::validate_transaction] *)
Definition validate_transaction (v : ChainView) (t : Transaction) : result Error unit :=
  validate_transaction_for_network (crypto E) t (utxos v) (wrap u64_max (tip_height v + 1)) (chain_network v).

Definition pack_one (v : ChainView) (st : Z * list Transaction) (t : Transaction) : Z * list Transaction :=
  let '(running_size, included) := st in
  if negb (is_ok (validate_transaction v t)) then st
  else
    let prospective := saturating_add u64_max running_size (size_of t) in
    if clears_floor (congestion_pct_for_size prospective) t then (prospective, included ++ [t]) else st.

(** One pass of the fixpoint loop. *)
Definition trim_step (st : Z * list Transaction) : (Z * list Transaction) + list Transaction :=
  let '(running_size, included) := st in
  let final_cong := congestion_pct_for_size running_size in
  let kept := List.filter (clears_floor final_cong) included in
  let shrink := fold_left (fun s t => if clears_floor final_cong t then s else saturating_add u64_max s (size_of t))
                  included 0 in
  if (length kept =? length included)%nat then inr kept else inl (saturating_sub running_size shrink, kept).

Definition pack (v : ChainView) (candidate_txs : list Transaction) : option (list Transaction) :=
  let st := fold_left (pack_one v) candidate_txs (COINBASE_HEADROOM, []) in
  iter trim_step (S (length (snd st))) st.

Definition build_template_json (v : ChainView) (candidate_txs : list Transaction) (now : Z) : option Template :=
  mempool_txs ← pack v candidate_txs;
  let tx_hex := omap to_vec mempool_txs in
  let timestamp := Z.max now (saturating_add u64_max (tip_timestamp v) 1) in
  Some (mkTemplate (Is (wrap u64_max (tip_height v + 1))) (Is (tip_hash v)) (Is timestamp) (Is (next_target v))
          (Is (next_difficulty v)) (Is (be_bytes 4 (magic_bytes (chain_network v)))) Missing Missing (map Is tx_hex)).

(** ** The candidate block *)

Inductive BuildError :=
| MissingHeight | MissingPrevHash | MissingTimestamp | PrevHashNotHex | TargetNotHex
| MissingTargetAndDifficulty | DifficultyNotU64 | StealthAddressFailed
| MagicNotHex | MagicLength (len : Z) | UnknownMagic | MissingSupply | AnchorFailed.

Record CandidateBlock := mkCandidate { c_header : BlockHeader; c_transactions : list Transaction }.

Definition set_nonce (h : BlockHeader) (nonce : Z) : BlockHeader :=
  mkHeader (network_magic h) (version h) (height h) (timestamp h) (prev_hash h) (tx_root h) (anchor h)
    (algorithm h) nonce (target h) (miner_pubkey h) (supply_commitment h) (checkpoint_vote h)
    (spark_set_root h) (mw_kernel_root h).

Definition into_block (c : CandidateBlock) (nonce : Z) : Block := mkBlock (set_nonce (c_header c) nonce) (c_transactions c).

Definition pow_inputs (c : CandidateBlock) : Z * Z * Z :=
  (anchor (c_header c), tx_root (c_header c), height (c_header c)).

(** [Hash::from_difficulty]: as many leading zero bits as the difficulty has doublings. *)
Definition from_difficulty (difficulty : Z) : Z :=
  if difficulty =? 0 then 2 ^ 256 - 1 else 2 ^ (256 - Z.log2 difficulty) - 1.

Definition parse_template_transactions (tpl : Template) : list Transaction :=
  omap (fun f => match f with Is bytes => from_slice bytes | _ => None end) (t_transactions tpl).

Definition claimable_fees_for_block_size (n : NetworkType) (height total_fees block_size : Z) : Z :=
  if total_fees =? 0 then 0
  else if height <? BlockValidation.fee_distribution_height n then total_fees
  else
    let congestion_pct := block_size * 100 / MAX_BLOCK_SIZE in
    let congested := CONGESTION_THRESHOLD <=? congestion_pct in
    FeeMarket.to_miner (FeeMarket.distribute_fee total_fees congested).

Definition assembled_block_size (coinbase : Transaction) (mempool_txs : list Transaction) : Z :=
  block_size_from_txs size_of (coinbase :: mempool_txs).

(** What [coinbase_stealth_address] and [generate_view_tag] return for the payout keys and a
    fresh secret: the one-time address, the transaction key and the view tag. *)
Definition Payout : Type := option (Z * Z * Z).

Definition coinbase_tx (keys : Z * Z * Z) (height total_amount signal_bits : Z) : Transaction :=
  let '(addr, tx_key, tag) := keys in
  mkTx 1 Coinbase []
    [mkOutput addr tx_key (commit0 (crypto E) total_amount) (le_bytes 8 total_amount) tag None []]
    0 [] (ForkSignal.encode_coinbase_extra height signal_bits).

Definition build_coinbase_with_fees (payout : Payout) (height total_fees signal_bits : Z)
  : result BuildError Transaction :=
  let reward := Curve.calculate_block_reward height in
  let total_amount := saturating_add u64_max reward total_fees in
  let? keys := ok_or payout StealthAddressFailed in
  Ok (coinbase_tx keys height total_amount signal_bits).

Definition from_magic_bytes (magic : Z) : option NetworkType :=
  if magic =? MAINNET_MAGIC then Some Ledger.Mainnet
  else if magic =? TESTNET_MAGIC then Some Ledger.Testnet
  else if magic =? REGTEST_MAGIC then Some Ledger.Regtest
  else if magic =? BETA_MAGIC then Some Ledger.Beta
  else None.

Definition resolve_network_magic (tpl : Template) (fallback_network : NetworkType) : result BuildError Z :=
  match t_network_magic tpl with
  | Missing => Ok (magic_bytes fallback_network)
  | Malformed => Err MagicNotHex
  | Is bytes =>
      if negb (len bytes =? 4) then Err (MagicLength (len bytes))
      else
        match from_magic_bytes (be_value bytes) with
        | None => Err UnknownMagic
        | Some _ => Ok (be_value bytes)
        end
  end.

Definition supply_commitment_enforce_height (n : NetworkType) : Z := u64_max.

(** The hash of the supply commitment and [compute_full_anchor] (previous hash, height,
    timestamp, binding; the mixed hash and the algorithm). *)
Context (supply_commitment_consensus : Z -> Z -> Z -> Z) (compute_full_anchor : Z -> Z -> Z -> Z -> option (Z * Z)).

(** The block as the statistics of the chain read it. *)
Definition burn_block (height : Z) (txs : list Transaction) : Ledger.Block :=
  Ledger.mkBlock 0 height [] (map (fun t => Ledger.mkTx (is_coinbase t) (fee t)) txs) (block_size_from_txs size_of txs).

Definition header_supply_commitment (tpl : Template) (n : NetworkType) (height : Z) (txs : list Transaction)
  : result BuildError Z :=
  if supply_commitment_enforce_height n <=? height then
    match t_total_supply tpl, t_total_burned tpl with
    | Is parent_emitted, Is parent_burned =>
        let burn := Ledger.block_fee_burn n (burn_block height txs) in
        let emission := Curve.calculate_block_reward height in
        let post_emitted := saturating_add u128_max parent_emitted emission in
        let post_burned := saturating_add u128_max parent_burned burn in
        Ok (supply_commitment_consensus post_emitted post_burned (saturating_sub MAX_SUPPLY post_emitted))
    | _, _ => Err MissingSupply
    end
  else Ok 0.

Definition present {A} (f : Field A) (e : BuildError) : result BuildError (Field A) :=
  match f with Missing => Err e | _ => Ok f end.

Definition build_block_from_template (tpl : Template) (sizing_payout payout : Payout) (fallback_network : NetworkType)
    (signal_bits : Z) : result BuildError CandidateBlock :=
  let? height := (match t_height tpl with Is h => Ok h | _ => Err MissingHeight end) in
  let? prev_hash_hex := present (t_prev_hash tpl) MissingPrevHash in
  let? timestamp := (match t_timestamp tpl with
     | Is ts => if (i64_min <=? ts) && (ts <=? i64_max) then Ok (wrap u64_max ts) else Err MissingTimestamp
     | _ => Err MissingTimestamp
     end) in
  let? prev_hash := (match prev_hash_hex with Is x => Ok x | _ => Err PrevHashNotHex end) in
  let? target :=
    (match t_target tpl with
     | Is x => Ok x
     | Malformed => Err TargetNotHex
     | Missing =>
         match t_difficulty tpl with
         | Missing => Err MissingTargetAndDifficulty
         | Malformed => Err DifficultyNotU64
         | Is d => if d <=? u64_max then Ok (from_difficulty d) else Err DifficultyNotU64
         end
     end) in
  let mempool_txs := parse_template_transactions tpl in
  let total_fees := total fee mempool_txs in
  let? sizing_coinbase := build_coinbase_with_fees sizing_payout height total_fees signal_bits in
  let block_size := assembled_block_size sizing_coinbase mempool_txs in
  let claimable_fees := claimable_fees_for_block_size fallback_network height total_fees block_size in
  let? coinbase := build_coinbase_with_fees payout height claimable_fees signal_bits in
  let all_txs := coinbase :: mempool_txs in
  let tx_root := merkle_root (blake3 E) (map (tx_hash E) all_txs) in
  let? network_magic := resolve_network_magic tpl fallback_network in
  let? supply := header_supply_commitment tpl fallback_network height all_txs in
  let header anchor algorithm :=
    mkHeader network_magic (block_version_at_height height) height timestamp prev_hash tx_root anchor algorithm 0
      target 0 supply None 0 0 in
  let binding := pow_binding (blake3 E) (header 0 0) in
  let? anchor := ok_or (compute_full_anchor prev_hash height timestamp binding) AnchorFailed in
  Ok (mkCandidate (header (fst anchor) (snd anchor)) all_txs).

Definition build_candidate_block (v : ChainView) (candidate_txs : list Transaction) (now : Z)
    (sizing_payout payout : Payout) (fallback_network : NetworkType) (signal_bits : Z)
  : option (result BuildError CandidateBlock) :=
  tpl ← build_template_json v candidate_txs now;
  Some (build_block_from_template tpl sizing_payout payout fallback_network signal_bits).
End Build.

(** ** The nonce space *)

(** The half-open range that worker [tid] of [n] searches. *)
Definition worker_range (threads nonce_base tid : Z) : Z * Z :=
  let n := Z.max threads 1 in
  let slice := u64_max / n in
  (wrap u64_max (saturating_mul u64_max tid slice + nonce_base),
   if tid + 1 =? n then u64_max else saturating_mul u64_max (tid + 1) slice).

(** Whether some worker tries the nonce. *)
Definition searched (threads nonce_base nonce : Z) : bool :=
  existsb (fun tid => let '(start, stop) := worker_range threads nonce_base (Z.of_nat tid) in
                      (start <=? nonce) && (nonce <? stop)) (seq 0 (Z.to_nat (Z.max threads 1))).

(** ** Sums *)

Definition sum {A} (f : A -> Z) (l : list A) : Z := foldr (fun a s => f a + s) 0 l.

Lemma sum_app {A} (f : A -> Z) l1 l2 : sum f (l1 ++ l2) = sum f l1 + sum f l2.
Proof. induction l1 as [|a l1 IH]; cbn [sum foldr app]; [done|]. fold (sum f (l1 ++ l2)) (sum f l1). lia. Qed.

Lemma sum_nonneg {A} (f : A -> Z) l : (forall a, a ∈ l -> 0 <= f a) -> 0 <= sum f l.
Proof.
  induction l as [|a l IH]; intros H; [done|]. cbn [sum foldr]. fold (sum f l).
  pose proof (H a (list_elem_of_here _ _)). assert (0 <= sum f l) by (apply IH; intros; apply H; by right). lia.
Qed.

Lemma sum_filter {A} (f : A -> Z) (p : A -> bool) l :
  sum f l = sum f (List.filter p l) + sum f (List.filter (fun a => negb (p a)) l).
Proof.
  induction l as [|a l IH]; [done|]. cbn [List.filter sum foldr]. fold (sum f l).
  destruct (p a); cbn [negb sum foldr]; fold (sum f (List.filter p l)) (sum f (List.filter (fun a => negb (p a)) l)); lia.
Qed.

Lemma sum_sublist {A} (f : A -> Z) l l' : l `sublist_of` l' -> (forall a, a ∈ l' -> 0 <= f a) -> sum f l <= sum f l'.
Proof.
  induction 1 as [|a l l' Hs IH|a l l' Hs IH]; intros H; [done| |]; cbn [sum foldr]; fold (sum f l) (sum f l').
  - assert (sum f l <= sum f l') by (apply IH; intros; apply H; by right). lia.
  - pose proof (H a (list_elem_of_here _ _)). assert (sum f l <= sum f l') by (apply IH; intros; apply H; by right). lia.
Qed.

(** The wrapping and the saturating sum are the sum when it fits. *)
Lemma wrapping_sum {A} (f : A -> Z) l acc : (forall a, a ∈ l -> 0 <= f a) -> 0 <= acc -> acc + sum f l <= u64_max ->
  fold_left (fun s a => wrap u64_max (s + f a)) l acc = acc + sum f l.
Proof.
  intros Hp. revert acc. induction l as [|a l IH]; intros acc H0 Hm; cbn [fold_left sum foldr] in *; [lia|].
  fold (sum f l) in *. pose proof (Hp a (list_elem_of_here _ _)).
  assert (0 <= sum f l) by (apply sum_nonneg; intros; apply Hp; by right).
  rewrite wrap_small by (unfold fits; lia). rewrite IH by (lia || (intros; apply Hp; by right)). lia.
Qed.

Lemma saturating_sum {A} (f : A -> Z) l acc : (forall a, a ∈ l -> 0 <= f a) -> 0 <= acc -> acc + sum f l <= u64_max ->
  fold_left (fun s a => saturating_add u64_max s (f a)) l acc = acc + sum f l.
Proof.
  intros Hp. revert acc. induction l as [|a l IH]; intros acc H0 Hm; cbn [fold_left sum foldr] in *; [lia|].
  fold (sum f l) in *. pose proof (Hp a (list_elem_of_here _ _)).
  assert (0 <= sum f l) by (apply sum_nonneg; intros; apply Hp; by right).
  replace (saturating_add u64_max acc (f a)) with (acc + f a) by (unfold saturating_add; lia). rewrite IH by (lia || (intros; apply Hp; by right)). lia.
Qed.

(** ** Packing *)

Section Packing.
Context (E : Env).
Abbreviation size_of := (TxValidation.tx_size (crypto E)) (only parsing).
Hypothesis size_nonneg : forall t, 0 <= size_of t.

Lemma multiplier_mono a b : a <= b -> FeeMarket.congestion_multiplier a <= FeeMarket.congestion_multiplier b.
Proof. unfold FeeMarket.congestion_multiplier. zcases. Qed.

Lemma multiplier_pos a : 100 <= FeeMarket.congestion_multiplier a.
Proof. unfold FeeMarket.congestion_multiplier. zcases. Qed.

(** A lower congestion has a lower floor. *)
Lemma floor_mono s a b m : 0 <= s -> a <= b -> dynamic_min_fee s b = Some m ->
  exists m', dynamic_min_fee s a = Some m' /\ m' <= m.
Proof.
  intros Hs Hab. unfold dynamic_min_fee, checked_mul. change MIN_FEE_PER_BYTE with 1000.
  destruct (Z.leb_spec (s * 1000) u64_max); [|done]. cbn [mbind option_bind].
  pose proof (multiplier_mono a b Hab). pose proof (multiplier_pos a).
  destruct (Z.leb_spec (s * 1000 * FeeMarket.congestion_multiplier b) u64_max); [|done].
  intros [= <-]. rewrite (proj2 (Z.leb_le _ _)) by nia. eexists. split; [done|]. apply Z.div_le_mono; nia.
Qed.

Lemma pct_small s : 0 <= s -> s <= MAX_BLOCK_SIZE -> congestion_pct_for_size s = congestion_pct s.
Proof.
  intros H0 Hs. unfold congestion_pct_for_size, congestion_pct. apply wrap_small. unfold fits.
  change MAX_BLOCK_SIZE with 2097152 in *. split; [apply Z.div_pos; lia|]. apply Z.div_le_upper_bound; lia.
Qed.

(** The running size is the headroom and what is packed. *)
Definition packed (v : ChainView) (cands : list Transaction) (st : Z * list Transaction) : Prop :=
  fst st = COINBASE_HEADROOM + sum size_of (snd st) /\ snd st `sublist_of` cands
  /\ forall t, t ∈ snd st -> validate_transaction E v t = Ok tt.

Lemma pack_one_packed v cands t st : sum size_of (cands ++ [t]) + COINBASE_HEADROOM <= u64_max ->
  packed v cands st -> packed v (cands ++ [t]) (pack_one E v st t).
Proof.
  destruct st as [run inc]. intros Hmax (Hrun & Hsub & Hval). cbn [fst snd] in *.
  assert (Hkeep : packed v (cands ++ [t]) (run, inc)).
  { split_and!; [done|by apply sublist_inserts_r|done]. }
  unfold pack_one. destruct (validate_transaction E v t) as [[]|] eqn:Ev; cbn [is_ok negb]; [|done].
  destruct (clears_floor _ _ t); [|done].
  rewrite sum_app in Hmax. cbn [sum foldr] in Hmax. pose proof (sum_sublist size_of inc cands Hsub (fun a _ => size_nonneg a)).
  split_and!; cbn [fst snd].
  - unfold saturating_add. rewrite sum_app. cbn [sum foldr]. rewrite Hrun. lia.
  - by apply sublist_app.
  - intros u [Hu | ->%list_elem_of_singleton]%elem_of_app; [by apply Hval|done].
Qed.

Lemma pack_fold v cands : sum size_of cands + COINBASE_HEADROOM <= u64_max ->
  packed v cands (fold_left (pack_one E v) cands (COINBASE_HEADROOM, [])).
Proof.
  induction cands as [|t cands IH] using rev_ind; intros Hm; [by repeat split; try set_solver|].
  rewrite fold_left_app. cbn [fold_left]. apply pack_one_packed; [done|]. apply IH.
  rewrite sum_app in Hm. cbn [sum foldr] in Hm. pose proof (size_nonneg t). lia.
Qed.

Lemma shrink_sum (p : Transaction -> bool) l acc : 0 <= acc -> acc + sum size_of l <= u64_max ->
  fold_left (fun s t => if p t then s else saturating_add u64_max s (size_of t)) l acc
  = acc + sum size_of (List.filter (fun t => negb (p t)) l).
Proof.
  revert acc. induction l as [|t l IH]; intros acc H0 Hm; cbn [fold_left List.filter sum foldr] in *; [lia|].
  fold (sum size_of l) in Hm. pose proof (size_nonneg t). pose proof (sum_nonneg size_of l (fun a _ => size_nonneg a)).
  destruct (p t); cbn [negb]; [by apply IH; lia|].
  replace (saturating_add u64_max acc (size_of t)) with (acc + size_of t) by (unfold saturating_add; lia).
  rewrite IH by lia. cbn [sum foldr]. fold (sum size_of (List.filter (fun t => negb (p t)) l)). lia.
Qed.

Lemma filter_length {A} (p : A -> bool) l : (length (List.filter p l) <= length l)%nat
  /\ (length (List.filter p l) = length l -> List.filter p l = l /\ forall a, a ∈ l -> p a = true).
Proof.
  induction l as [|a l [IH1 IH2]]; [split; [cbn; lia|split; [done|set_solver]]|]. cbn [List.filter].
  destruct (p a) eqn:Ep; cbn [length]; split; try lia. intros [-> Ha]%Nat.succ_inj%IH2. split; [done|].
  intros b [-> | Hb]%elem_of_cons; [done|by apply Ha].
Qed.

Lemma filter_sublist {A} (p : A -> bool) (l : list A) : List.filter p l `sublist_of` l.
Proof. induction l as [|a l IH]; cbn [List.filter]; [done|]. destruct (p a); by constructor. Qed.

(** A pass keeps the running size exact and drops something, or ends with every packed
    transaction above the floor. *)
Lemma trim_pass v cands st : sum size_of cands + COINBASE_HEADROOM <= u64_max -> packed v cands st ->
  match trim_step E st with
  | inl st' => packed v cands st' /\ (length (snd st') < length (snd st))%nat
  | inr l => l = snd st /\ forall t, t ∈ l -> clears_floor E (congestion_pct_for_size (fst st)) t = true
  end.
Proof.
  destruct st as [run inc]. intros Hmax (Hrun & Hsub & Hval). cbn [fst snd] in *. unfold trim_step.
  set (p := clears_floor E (congestion_pct_for_size run)). destruct (filter_length p inc) as [Hle Hall].
  destruct (Nat.eqb_spec (length (List.filter p inc)) (length inc)) as [Heq|Hne].
  - apply Hall in Heq as [-> Ha]. split; [done|exact Ha].
  - pose proof (sum_sublist size_of inc cands Hsub (fun a _ => size_nonneg a)).
    rewrite shrink_sum by (unfold COINBASE_HEADROOM in *; lia). cbn [snd]. split; [|lia].
    pose proof (filter_sublist p inc) as Hfs. split_and!; cbn [fst snd].
    + rewrite Hrun, (sum_filter size_of p inc). unfold saturating_sub.
      pose proof (sum_nonneg size_of (List.filter p inc) (fun a _ => size_nonneg a)). unfold COINBASE_HEADROOM. lia.
    + by etrans.
    + intros t Ht. apply Hval. apply (elem_of_sublist _ _ _ Ht Hfs).
Qed.

(** The packing ends, and what it returns is a selection of valid transactions that all
    pay the floor of the reserved size. *)
Lemma pack_spec v cands : sum size_of cands + COINBASE_HEADROOM <= u64_max -> exists l,
  pack E v cands = Some l /\ l `sublist_of` cands /\ (forall t, t ∈ l -> validate_transaction E v t = Ok tt)
  /\ forall t, t ∈ l -> clears_floor E (congestion_pct_for_size (COINBASE_HEADROOM + sum size_of l)) t = true.
Proof.
  intros Hmax. pose proof (pack_fold v cands Hmax) as H0. unfold pack. set (st := fold_left _ _ _) in *. clearbody st.
  destruct (iter_total (trim_step E) (fun st => length (snd st)) (packed v cands)) with (fuel := S (length (snd st))) (s := st)
    as [l Hl]; [|done|lia|].
  { intros s s' Hs Es. pose proof (trim_pass v cands s Hmax Hs) as Hp. by rewrite Es in Hp. }
  exists l. split; [done|]. revert Hl. apply (iter_inv (trim_step E) (packed v cands)
    (fun l => l `sublist_of` cands /\ (forall t, t ∈ l -> validate_transaction E v t = Ok tt) /\
       forall t, t ∈ l -> clears_floor E (congestion_pct_for_size (COINBASE_HEADROOM + sum size_of l)) t = true)); [..|done].
  - intros s s' Hs Es. pose proof (trim_pass v cands s Hmax Hs) as Hp. rewrite Es in Hp. apply Hp.
  - intros s a Hs Es. pose proof (trim_pass v cands s Hmax Hs) as Hp. rewrite Es in Hp. destruct Hp as [-> Hp].
    destruct Hs as (Hrun & Hsub & Hval). rewrite <- Hrun. done.
Qed.
End Packing.

(** ** The candidate block *)

Section Candidate.
Context (E : Env) (to_vec : Transaction -> option (list Z)) (from_slice : list Z -> option Transaction).
Context (supply_hash : Z -> Z -> Z -> Z) (full_anchor : Z -> Z -> Z -> Z -> option (Z * Z)).
Abbreviation size_of := (TxValidation.tx_size (crypto E)) (only parsing).

(** Borsh reads back what it wrote. *)
Hypothesis borsh_roundtrip : forall t, exists bytes, to_vec t = Some bytes /\ from_slice bytes = Some t.

Lemma template_txs l : omap (fun f => match f with Is bytes => from_slice bytes | _ => None end) (map Is (omap to_vec l)) = l.
Proof.
  induction l as [|t l IH]; [done|]. destruct (borsh_roundtrip t) as (bytes & Ht & Hb).
  cbn [omap list_omap]. rewrite Ht. cbn [map omap list_omap]. rewrite Hb. cbn. f_equal. exact IH.
Qed.

Lemma magic_resolved n tpl : t_network_magic tpl = Is (be_bytes 4 (magic_bytes n)) ->
  resolve_network_magic tpl n = Ok (magic_bytes n).
Proof. unfold resolve_network_magic. intros ->. by destruct n. Qed.

(** The fields of a candidate built on a view, for the packed transactions [l]. *)
Record built (v : ChainView) (now : Z) (l : list Transaction) (k0 k : Z * Z * Z) (bits : Z) (c : CandidateBlock) : Prop := {
  b_height : height (c_header c) = wrap u64_max (tip_height v + 1);
  b_magic : network_magic (c_header c) = magic_bytes (chain_network v);
  b_version : version (c_header c) = block_version_at_height (height (c_header c));
  b_prev : prev_hash (c_header c) = tip_hash v;
  b_time : timestamp (c_header c) = Z.max now (saturating_add u64_max (tip_timestamp v) 1) /\ timestamp (c_header c) <= i64_max;
  b_root : tx_root (c_header c) = merkle_root (blake3 E) (map (tx_hash E) (c_transactions c));
  b_vote : checkpoint_vote (c_header c) = None;
  b_spark : spark_set_root (c_header c) = 0;
  b_txs : c_transactions c =
    let h := height (c_header c) in
    let reward := Curve.calculate_block_reward h in
    let fees := total fee l in
    let sizing := coinbase_tx E k0 h (saturating_add u64_max reward fees) bits in
    coinbase_tx E k h
      (saturating_add u64_max reward
         (claimable_fees_for_block_size (chain_network v) h fees (assembled_block_size E sizing l))) bits :: l }.

Lemma candidate_built v cands l now sp py bits c : 0 <= now -> pack E v cands = Some l ->
  build_candidate_block E to_vec from_slice supply_hash full_anchor v cands now sp py (chain_network v) bits = Some (Ok c) ->
  exists k0 k, sp = Some k0 /\ py = Some k /\ built v now l k0 k bits c.
Proof.
  intros Hnow Hp Hc. unfold build_candidate_block, build_template_json in Hc. rewrite Hp in Hc.
  cbn [mbind option_bind] in Hc. injection Hc as Hc. unfold build_block_from_template in Hc.
  cbn [t_height t_prev_hash t_timestamp t_target present rbind] in Hc.
  set (ts := Z.max now _) in *. assert (0 <= ts) by lia.
  destruct ((i64_min <=? ts) && (ts <=? i64_max)) eqn:Ets; [|done]. cbn [rbind] in Hc.
  apply andb_true_iff in Ets as [_ Ets%Z.leb_le]. rewrite (wrap_small u64_max ts) in Hc by (unfold fits; lia).
  unfold parse_template_transactions in Hc. cbn [t_transactions] in Hc. rewrite template_txs in Hc.
  unfold build_coinbase_with_fees in Hc. destruct sp as [k0|]; [|done]. destruct py as [k|]; [|done]. cbn [ok_or rbind] in Hc.
  rewrite (magic_resolved (chain_network v)) in Hc by done. cbn [rbind] in Hc.
  destruct (header_supply_commitment _ _ _ _ _ _) as [supply|]; [|done]. cbn [rbind] in Hc.
  destruct (full_anchor _ _ _ _) as [[a alg]|]; [|done]. cbn [ok_or rbind fst snd] in Hc. injection Hc as <-.
  exists k0, k. split; [done|]. split; [done|]. by split.
Qed.

(** ** The candidate against the validator *)

Hypothesis size_nonneg : forall t, 0 <= size_of t.
(** A commitment to a positive amount is a point and not the identity. *)
Hypothesis commit_point : forall a, 0 < a <= u64_max -> hidden (crypto E) (commit0 (crypto E) a).

(** The mempool's view of a transaction. *)
Definition pooled (t : Transaction) : Mempool.Transaction :=
  Mempool.mkTx (tx_hash E t) (fee t) (size_of t) (key_images t) (is_coinbase t) (extra t).

(** What the mempool hands to the template. *)
Definition selected (tags : Mempool.Transaction -> result Mempool.Error (list Z)) (m : Mempool.Mempool)
    (cands : list Transaction) : Prop :=
  Mempool.pool_ok tags m /\ map pooled cands = Mempool.get_block_transactions tags m template_budget MAX_TEMPLATE_TXS.

Lemma selected_sizes tags m cands : selected tags m cands ->
  sum size_of cands <= template_budget /\ Z.of_nat (length cands) <= MAX_TEMPLATE_TXS /\ NoDup (map (tx_hash E) cands)
  /\ (forall t, t ∈ cands -> is_coinbase t = false)
  /\ (forall t u x, t ∈ cands -> u ∈ cands -> x ∈ key_images t -> x ∈ key_images u -> tx_hash E t = tx_hash E u).
Proof.
  intros [Hm Heq]. pose proof (Mempool.template_ok tags m template_budget MAX_TEMPLATE_TXS Hm ltac:(done) ltac:(done)) as H.
  cbv zeta in H. rewrite <- Heq in H. destruct H as (Hs & Hl & Hn & _ & Hin & _). rewrite length_map in Hl.
  assert (Hget : forall t, t ∈ cands -> Mempool.get m (tx_hash E t) = Some (pooled t)).
  { intros t Ht. apply (Hin (pooled t)). apply list_elem_of_fmap. eauto. }
  split_and!; [|done| | |].
  - etrans; [|exact Hs]. clear. induction cands as [|t l IH]; [done|]. cbn [sum foldr map Mempool.txs_size].
    fold (sum size_of l) (Mempool.txs_size (map pooled l)). unfold Mempool.tx_size. cbn [Mempool.size pooled]. lia.
  - by rewrite map_map in Hn.
  - intros t Ht. specialize (Hget t Ht). unfold Mempool.get in Hget. apply fmap_Some in Hget as (e & He & Et).
    destruct (Mempool.ok_entry _ _ Hm _ _ He) as (_ & _ & _ & _ & Hc). by rewrite <- Et in Hc.
  - intros t u x Ht Hu Hx Hy. pose proof (Hget t Ht) as Gt. pose proof (Hget u Hu) as Gu. unfold Mempool.get in Gt, Gu.
    apply fmap_Some in Gt as (e & He & Et). apply fmap_Some in Gu as (e' & He' & Eu).
    apply (proj2 (Mempool.ok_images _ _ Hm) _ _ e e' x He He'); by rewrite <- ?Et, <- ?Eu.
Qed.

Lemma images_distinct l : NoDup (map (tx_hash E) l) -> (forall t, t ∈ l -> NoDup (key_images t)) ->
  (forall t u x, t ∈ l -> u ∈ l -> x ∈ key_images t -> x ∈ key_images u -> tx_hash E t = tx_hash E u) ->
  NoDup (flat_map key_images l).
Proof.
  induction l as [|t l IH]; intros Hh Hn Hd; [constructor|]. cbn [flat_map]. cbn [map] in Hh.
  apply list.NoDup_cons in Hh as [Hnew Hh]. apply list.NoDup_app. split_and!.
  - apply Hn. left.
  - intros x Hx Hin. apply list_elem_of_In, in_flat_map in Hin as (u & Hu%list_elem_of_In & Hxu%list_elem_of_In).
    apply Hnew. rewrite (Hd t u x); [|left|by right|done|done]. apply list_elem_of_fmap. eauto.
  - apply IH; [done|intros; apply Hn; by right|]. intros. eapply Hd; [by right|by right|done|done].
Qed.

(** A transaction that the full validation accepts respects the privacy policy. *)
Lemma validated_private t u h n : is_coinbase t = false ->
  validate_transaction_for_network (crypto E) t u h n = Ok tt ->
  (if is_coinbase t then Ok tt else if is_shielded t then Ok tt else check_tx_privacy (crypto E) t) = Ok tt.
Proof.
  intros Hc. rewrite Hc. unfold validate_transaction_for_network, validate_transaction_for_network_ctx, check_tx_privacy.
  rewrite Hc. destruct (is_shielded t); [done|]. unfold check_tx_input_output_counts.
  rewrite !seq_ok. intros (_ & _ & Hp & (Hi & _) & _). rewrite check_points_ok in Hp.
  unfold hidden in Hp. unfold hidden_point. rewrite require_ok in Hi.
  rewrite !try_each_ok, require_ok. split_and!; [| |done];
    intros o Ho; rewrite require_ok, andb_true_iff, negb_true_iff, Z.eqb_neq; destruct (Hp o Ho) as ([] & _ & []); done.
Qed.

Lemma assembled_size cb l : 200 + size_of cb + sum size_of l <= u64_max ->
  block_size_from_txs size_of (cb :: l) = 200 + size_of cb + sum size_of l.
Proof.
  intros Hm. unfold block_size_from_txs, BLOCK_HEADER_SIZE_ESTIMATE.
  rewrite saturating_sum; cbn [sum foldr]; fold (sum size_of l); auto; lia.
Qed.

Lemma fee_sums b cb l : transactions b = cb :: l -> (forall t, t ∈ l -> 0 <= fee t) -> sum fee l <= u64_max ->
  total fee l = sum fee l /\ total_fees b = sum fee l.
Proof.
  intros Hb Hp Hm. unfold total, total_fees, non_coinbase_transactions. rewrite Hb. cbn [tail].
  rewrite wrapping_sum, saturating_sum; auto; lia.
Qed.

(** The builder claims exactly what the validator grants. *)
Lemma claim_granted b cb l n sizing : transactions b = cb :: l -> 0 <= block_height b <= u64_max ->
  (forall t, t ∈ l -> 0 <= fee t) ->
  Curve.calculate_block_reward (block_height b) + sum fee l <= u64_max -> size_of sizing = size_of cb ->
  let claim := saturating_add u64_max (Curve.calculate_block_reward (block_height b))
                 (claimable_fees_for_block_size n (block_height b) (total fee l) (assembled_block_size E sizing l)) in
  max_coinbase b n (block_size size_of b) = Some claim /\ 0 < claim <= u64_max.
Proof.
  intros Hb Hh Hp Hm Hsz claim. pose proof (sum_nonneg fee l Hp) as Hs.
  pose proof (Curve.base_reward_bounds (block_height b) Hh) as Hr. unfold Curve.calculate_block_reward in *.
  change TAIL_EMISSION with 600000000000 in Hr.
  destruct (fee_sums b cb l Hb Hp ltac:(lia)) as [Ht Hf].
  assert (Hcl : 0 <= claimable_fees_for_block_size n (block_height b) (total fee l) (assembled_block_size E sizing l) <= sum fee l
    /\ max_coinbase b n (block_size size_of b)
       = Some (Curve.base_reward (block_height b)
               + claimable_fees_for_block_size n (block_height b) (total fee l) (assembled_block_size E sizing l))).
  { unfold claimable_fees_for_block_size, max_coinbase, Curve.calculate_block_reward. rewrite Ht, Hf.
    assert (Hsize : block_size size_of b = assembled_block_size E sizing l).
    { unfold block_size, assembled_block_size, block_size_from_txs. rewrite Hb. cbn [fold_left]. by rewrite Hsz. }
    rewrite Hsize. unfold congestion_pct. set (cong := CONGESTION_THRESHOLD <=? _).
    destruct (FeeMarket.distribute_fee_eq (sum fee l) cong ltac:(unfold fits; lia)) as [Hd Hb2]. rewrite Hd. cbn [FeeMarket.to_miner].
    destruct (Z.eqb_spec (sum fee l) 0) as [Hz|Hz], (Z.ltb_spec (block_height b) (BlockValidation.fee_distribution_height n)),
      (Z.leb_spec (BlockValidation.fee_distribution_height n) (block_height b)), (Z.ltb_spec 0 (sum fee l)); try lia; cbn [andb];
      rewrite ?Hz; (split; [lia|]); unfold checked_add; rewrite (proj2 (Z.leb_le _ _)); f_equal; lia. }
  destruct Hcl as [Hcl ->]. subst claim. unfold saturating_add. split; [f_equal; lia|lia].
Qed.

(** What the builder leaves to chance: the conditions of the validator that building a
    block does not establish. *)
Record unchecked (n : NetworkType) (b p : Block) : Prop := {
  uc_version : version (header p) <= block_version_at_height (block_height b);
  uc_checkpoint x : expected_checkpoint_hash E n (block_height b) = Some x -> header_hash (blake3 E) (header b) = x;
  uc_clock : unix_now E <> 0 \/ is_overridden E = true;
  uc_time : timestamp (header b) <= wrap u64_max (current_time E + MAX_TIMESTAMP_DRIFT);
  uc_pow : pow_accepted E b (Some p);
  uc_weight : total (tx_weight E) (transactions b) <= MAX_BLOCK_WEIGHT;
  uc_hash cb l : transactions b = cb :: l -> tx_hash E cb ∉ map (tx_hash E) l;
  uc_addresses : v1_0_12_rules_active n (block_height b) = true ->
    NoDup (flat_map (fun t => map stealth_address (outputs t)) (transactions b)) }.

Lemma declared_le a : 0 <= a <= u64_max -> forall x k v tag, declared_amount (mkOutput x k v (le_bytes 8 a) tag None []) = a.
Proof.
  intros Ha x k v tag. unfold declared_amount. cbn [encrypted_amount].
  rewrite take_ge by (by rewrite ForkSignal.length_le). rewrite ForkSignal.rev_le_bytes.
  apply be_value_be_bytes. change (256 ^ Z.of_nat 8) with (u64_max + 1). lia.
Qed.

Lemma coinbase_fits b k h a bits n : block_height b = h -> 0 < a <= u64_max ->
  coinbase_accepted E n b (coinbase_tx E k h a bits) a.
Proof.
  intros _ Ha. destruct k as [[addr key] tag]. unfold coinbase_accepted, coinbase_tx. cbn [outputs].
  split; [by cbn|]. split; [by cbn|]. intros _. cbn [declared_sum foldr]. rewrite declared_le by lia. split; [|lia].
  constructor; [|constructor]. unfold revealed. rewrite declared_le by lia. cbn [encrypted_amount commitment].
  rewrite ForkSignal.length_le. split; [by destruct (v1_0_12_rules_active _ _)|]. split; [done|]. by apply commit_point.
Qed.

Lemma dynamic_min_floor mult_pct t m : dynamic_min_fee (size_of t) mult_pct = Some m ->
  dynamic_min E (FeeMarket.congestion_multiplier mult_pct) t = Some m.
Proof. done. Qed.

(** The fee floor that the packed set clears covers the floor of the finished block. *)
Lemma floor_cleared l s t : t ∈ l -> 0 <= s <= COINBASE_HEADROOM + sum size_of l ->
  COINBASE_HEADROOM + sum size_of l <= MAX_BLOCK_SIZE ->
  clears_floor E (congestion_pct_for_size (COINBASE_HEADROOM + sum size_of l)) t = true ->
  exists min, dynamic_min E (FeeMarket.congestion_multiplier (congestion_pct s)) t = Some min /\ min <= fee t.
Proof.
  intros Ht Hs Hm Hc. unfold clears_floor in Hc. destruct (dynamic_min_fee _ _) as [m|] eqn:Em; [|done].
  apply Z.leb_le in Hc. rewrite pct_small in Em by lia.
  apply (floor_mono _ (congestion_pct s)) in Em as (m' & Em & ?); [|auto|apply Z.div_le_mono; [done|lia]].
  exists m'. split; [by apply dynamic_min_floor|lia].
Qed.

(** The packed transactions and the coinbase of a built block, as the validator sees them. *)
Lemma packed_accepted tags m v cands l b cb :
  selected tags m cands -> l `sublist_of` cands -> transactions b = cb :: l -> is_coinbase cb = true ->
  key_images cb = [] -> block_height b = wrap u64_max (tip_height v + 1) ->
  (forall t, t ∈ l -> validate_transaction E v t = Ok tt) ->
  enforce_privacy_policy (crypto E) b = Ok tt /\ NoDup (flat_map key_images (transactions b))
  /\ NoDup (map (tx_hash E) l) /\ len (transactions b) <= MAX_TXS_PER_BLOCK
  /\ (forall t, t ∈ l -> is_coinbase t = false
       /\ validate_transaction_for_network (crypto E) t (utxos v) (block_height b) (chain_network v) = Ok tt)
  /\ sum size_of l <= template_budget.
Proof.
  intros Hsel Hsub Hb Hcb Hk Hh Hval. destruct (selected_sizes tags m cands Hsel) as (Hs & Hl & Hn & Hc & Hd).
  assert (Hin : forall t, t ∈ l -> t ∈ cands) by (intros t Ht; exact (elem_of_sublist _ _ _ Ht Hsub)).
  assert (Hval' : forall t, t ∈ l -> is_coinbase t = false
     /\ validate_transaction_for_network (crypto E) t (utxos v) (block_height b) (chain_network v) = Ok tt).
  { intros t Ht. split; [by apply Hc, Hin|]. rewrite Hh. by apply Hval. }
  assert (Hnl : NoDup (map (tx_hash E) l)).
  { apply (sublist_NoDup _ (map (tx_hash E) cands)); [done|]. by apply (fmap_sublist (tx_hash E)). }
  split_and!; [| |done| |done|].
  - unfold enforce_privacy_policy. apply try_each_ok. rewrite Hb. intros t [-> | Ht]%elem_of_cons; [by rewrite Hcb|].
    destruct (Hval' t Ht) as [Hct Hvt]. by apply (validated_private t _ _ _ Hct) in Hvt.
  - rewrite Hb. cbn [flat_map]. rewrite Hk. cbn [app]. apply images_distinct; [done| |].
    + intros t Ht. destruct (Hval' t Ht) as [Hct Hvt]. by apply images_unspent in Hvt as [? _].
    + intros t u x Ht Hu. apply Hd; by apply Hin.
  - rewrite Hb. unfold len. cbn [length]. apply sublist_length in Hsub. change MAX_TXS_PER_BLOCK with 5000.
    change MAX_TEMPLATE_TXS with 4096 in Hl. lia.
  - etrans; [|exact Hs]. apply sum_sublist; auto.
Qed.

(** What building establishes. *)
Record well_built (v : ChainView) (b p : Block) : Prop := {
  wb_magic : network_magic (header b) = magic_bytes (chain_network v);
  wb_version : version (header b) = block_version_at_height (block_height b);
  wb_height : 0 < block_height b /\ block_height b = saturating_add u64_max (block_height p) 1;
  wb_prev : prev_hash (header b) = header_hash (blake3 E) (header p);
  wb_time : timestamp (header p) < timestamp (header b);
  wb_vote : checkpoint_vote (header b) = None;
  wb_spark : spark_set_root (header b) = 0;
  wb_size : block_size size_of b <= MAX_BLOCK_SIZE;
  wb_count : len (transactions b) <= MAX_TXS_PER_BLOCK;
  wb_root : tx_root (header b) = merkle_root (blake3 E) (tx_hashes (tx_hash E) b);
  wb_privacy : enforce_privacy_policy (crypto E) b = Ok tt;
  wb_coinbase : exists cb max, head (transactions b) = Some cb /\ is_coinbase cb = true
    /\ max_coinbase b (chain_network v) (block_size size_of b) = Some max /\ coinbase_accepted E (chain_network v) b cb max;
  wb_hashes : NoDup (map (tx_hash E) (non_coinbase_transactions b));
  wb_images : NoDup (flat_map key_images (transactions b));
  wb_fees t : t ∈ non_coinbase_transactions b -> exists min,
    dynamic_min E (FeeMarket.congestion_multiplier (congestion_pct (block_size size_of b))) t = Some min /\ min <= fee t;
  wb_txs t : t ∈ non_coinbase_transactions b -> is_coinbase t = false
    /\ validate_transaction_for_network (crypto E) t (utxos v) (block_height b) (chain_network v) = Ok tt }.

Lemma well_built_accepted v b p : well_built v b p ->
  block_accepted E (chain_network v) b (Some p) (utxos v) <-> unchecked (chain_network v) b p.
Proof.
  intros [Hm Hv [Hpos Hh] Hp Ht Hvo Hsp Hs Hc Hr Hpr (cb & max & Hcb & Hcbt & Hmax & Hacc) Hn Hi Hf Hx].
  unfold non_coinbase_transactions in *. destruct (transactions b) as [|cb' l] eqn:Eb; [done|]. injection Hcb as ->. cbn [tail] in *.
  split.
  - intros [? ? [? Hl ? ? Hfu] ? ? ? ? ? ? ? ? Hhs ? ? ? ?]. destruct Hl as (Hver & _). unfold tx_hashes in Hhs. rewrite Eb in *.
    split; rewrite ?Eb; try done.
    + by rewrite <- Hv.
    + by apply Hfu.
    + intros ? ? [= <- <-]. cbn [map] in Hhs. by apply list.NoDup_cons in Hhs as [? _].
  - intros [Hver]. rewrite Eb in *. constructor; rewrite ?Eb; try done.
    + by left.
    + constructor; try done.
      * unfold block_height in Hv. rewrite Hv. unfold block_version_at_height, MAX_BLOCK_VERSION. case_match; lia.
      * cbn [fmap option_fmap option_map linked]. rewrite Hv. by split_and!.
      * intros x y. by rewrite Hvo.
    + by right.
    + by exists cb, max.
    + unfold tx_hashes. rewrite Eb. apply list.NoDup_cons. by eauto.
    + unfold non_coinbase_transactions. rewrite Eb. by eauto.
    + unfold non_coinbase_transactions. rewrite Eb. by eauto.
Qed.

(** The coinbase is of one size, within the headroom. *)
Definition coinbase_sized (h bits : Z) : Prop :=
  forall k a k' a', size_of (coinbase_tx E k h a bits) = size_of (coinbase_tx E k' h a' bits)
    /\ 200 + size_of (coinbase_tx E k h a bits) <= COINBASE_HEADROOM.

(** The view is of the chain whose tip is [p]. *)
Definition view_of (v : ChainView) (p : Block) : Prop :=
  tip_height v = block_height p /\ tip_hash v = header_hash (blake3 E) (header p) /\ tip_timestamp v = timestamp (header p)
  /\ 0 <= block_height p < u64_max /\ 0 <= timestamp (header p).

Lemma candidate_well_built tags m v p cands now sp py bits c nonce :
  selected tags m cands -> view_of v p -> 0 <= now ->
  build_candidate_block E to_vec from_slice supply_hash full_anchor v cands now sp py (chain_network v) bits = Some (Ok c) ->
  coinbase_sized (block_height p + 1) bits -> (forall t, t ∈ cands -> 0 <= fee t) ->
  Curve.calculate_block_reward (block_height p + 1) + sum fee cands <= u64_max ->
  well_built v (into_block c nonce) p.
Proof.
  intros Hsel (Hth & Hhash & Htime & Hhp & Hts) Hnow Hbuild Hcbs Hfee Hrew.
  destruct (selected_sizes tags m cands Hsel) as (Hs & _).
  change template_budget with 2086912 in Hs. change COINBASE_HEADROOM with 10240 in *.
  destruct (pack_spec E size_nonneg v cands) as (l & Hp & Hsub & Hval & Hfl); [change COINBASE_HEADROOM with 10240; lia|].
  destruct (candidate_built v cands l now sp py bits c Hnow Hp Hbuild) as (k0 & k & _ & _ & Hc).
  destruct Hc as [Hh Hmag Hver Hprev [Htm Htm'] Hroot Hvote Hspark Htx]. cbv zeta in Htx.
  rewrite Hth, wrap_small in Hh by (unfold fits; lia). rewrite Hh in Htx.
  set (b := into_block c nonce). assert (Hbh : block_height b = block_height p + 1) by exact Hh.
  set (sizing := coinbase_tx E k0 _ _ _) in Htx. set (cb := coinbase_tx E k _ _ _) in Htx.
  assert (Hb : transactions b = cb :: l) by exact Htx.
  assert (is_coinbase cb = true /\ key_images cb = []) as [Hcb Hki] by (subst cb; by destruct k as [[? ?] ?]).
  assert (Hbv : block_height b = wrap u64_max (tip_height v + 1)) by (rewrite Hbh, Hth, wrap_small by (unfold fits; lia); done).
  destruct (packed_accepted tags m v cands l b cb Hsel Hsub Hb Hcb Hki Hbv Hval) as (Hpriv & Himg & Hhs & Hcount & Htxs & Hsum).
  change template_budget with 2086912 in Hsum. pose proof (sum_nonneg size_of l (fun a _ => size_nonneg a)) as Hsl.
  assert (Hcbmax : 200 + size_of cb <= 10240) by (by apply (Hcbs k _ k 0)). pose proof (size_nonneg cb).
  assert (Hsize : block_size size_of b = 200 + size_of cb + sum size_of l).
  { unfold block_size. rewrite Hb. apply assembled_size. lia. }
  destruct (claim_granted b cb l (chain_network v) sizing Hb) as [Hmax Hpos].
  { lia. } { intros t Ht. apply Hfee. exact (elem_of_sublist _ _ _ Ht Hsub). }
  { rewrite Hbh. pose proof (sum_sublist fee l cands Hsub Hfee). lia. } { apply Hcbs. }
  constructor; unfold non_coinbase_transactions; rewrite ?Hb; cbn [tail]; try done.
  - split; [lia|]. unfold saturating_add. lia.
  - cbn. by rewrite Hprev.
  - cbn. rewrite Htm, Htime in *. unfold saturating_add in *. lia.
  - rewrite Hsize. change MAX_BLOCK_SIZE with 2097152. lia.
  - by rewrite Hb in Hcount.
  - exists cb. eexists. split; [done|]. split; [done|]. split; [exact Hmax|].
    subst cb. rewrite Hbh. by apply coinbase_fits; [|rewrite <- Hbh].
  - by rewrite Hb in Himg.
  - intros t Ht. rewrite Hsize.
    apply (floor_cleared l); [done|change COINBASE_HEADROOM with 10240; lia| |by apply Hfl].
    change COINBASE_HEADROOM with 10240. change MAX_BLOCK_SIZE with 2097152. lia.
Qed.

(** C14: A block built on the tip from what the mempool selects, with any nonce, is valid
    exactly when what the builder leaves to chance holds: the parent's version is not above
    the scheduled one, the consensus checkpoint, the clock, the proof of work, the weight
    limit, a coinbase hash of its own, and (from 1.0.12) distinct output addresses across
    the block.  Everything else (height, links, size, count, Merkle root, privacy policy,
    the coinbase amount with the claimable fees, distinct key images and hashes, the
    congestion fee of every transaction at the final size and their full validation) holds
    by construction, given that the encoding of a transaction reads back, the coinbase is
    of one size within the headroom, and the fees of the block do not exceed 64 bits. *)
Theorem built_block_valid_iff tags m v p cands now sp py bits c nonce cp :
  allow_checkpoint_crypto_skip E = false -> selected tags m cands -> view_of v p -> 0 <= now ->
  build_candidate_block E to_vec from_slice supply_hash full_anchor v cands now sp py (chain_network v) bits = Some (Ok c) ->
  coinbase_sized (block_height p + 1) bits -> typed (into_block c nonce) -> (forall t, t ∈ cands -> 0 <= fee t) ->
  Curve.calculate_block_reward (block_height p + 1) + sum fee cands <= u64_max ->
  valid (validate_block_with_checkpoint_for_network E (into_block c nonce) (Some p) (utxos v) cp (chain_network v)) = true
  <-> unchecked (chain_network v) (into_block c nonce) p.
Proof.
  intros Hskip Hsel Hv Hnow Hbuild Hcbs Hty Hfee Hrew. unfold validate_block_with_checkpoint_for_network.
  rewrite block_ok by done. apply well_built_accepted. by eapply candidate_well_built.
Qed.

Lemma build_packs v cands now sp py n bits c :
  build_candidate_block E to_vec from_slice supply_hash full_anchor v cands now sp py n bits = Some (Ok c) ->
  exists l, pack E v cands = Some l.
Proof. unfold build_candidate_block, build_template_json. destruct (pack E v cands) as [l|]; [eauto|done]. Qed.

(** A parent whose version is above the scheduled one ends block production: whatever
    the node builds on it, with any nonce, is refused.  The validator accepts such a parent
    (version 2 below the activation height), so one block mined early stalls every builder
    until the activation height. *)
Theorem early_version_stalls_builders v p cands now sp py bits c nonce cp :
  allow_checkpoint_crypto_skip E = false -> view_of v p -> 0 <= now ->
  build_candidate_block E to_vec from_slice supply_hash full_anchor v cands now sp py (chain_network v) bits = Some (Ok c) ->
  typed (into_block c nonce) -> block_version_at_height (block_height p + 1) < version (header p) ->
  valid (validate_block_with_checkpoint_for_network E (into_block c nonce) (Some p) (utxos v) cp (chain_network v)) = false.
Proof.
  intros Hskip (Hth & _ & _ & Hhp & _) Hnow Hbuild Hty Hv. destruct (build_packs _ _ _ _ _ _ _ _ Hbuild) as [l Hl].
  destruct (candidate_built v cands l now sp py bits c Hnow Hl Hbuild) as (k0 & k & _ & _ & Hc).
  apply not_true_iff_false. intros [_ _ [_ (Hver & _) _ _ _] _ _ _ _ _ _ _ _ _ _ _ _ _]%block_ok; [|done|done].
  cbn in Hver. rewrite (b_version _ _ _ _ _ _ _ Hc), (b_height _ _ _ _ _ _ _ Hc), Hth, wrap_small in Hver; [lia|].
  unfold fits. lia.
Qed.

(** The template does not compare output addresses across transactions, the validator
    (from 1.0.12) does: when two packed transactions pay to one address, each valid on its
    own, the block built from the template is refused whatever the nonce. *)
Theorem shared_address_poisons_template v p cands l l1 l2 l3 t u a now sp py bits c nonce cp :
  allow_checkpoint_crypto_skip E = false -> 0 <= now ->
  build_candidate_block E to_vec from_slice supply_hash full_anchor v cands now sp py (chain_network v) bits = Some (Ok c) ->
  typed (into_block c nonce) -> v1_0_12_rules_active (chain_network v) (wrap u64_max (tip_height v + 1)) = true ->
  pack E v cands = Some l -> l = l1 ++ t :: l2 ++ u :: l3 ->
  a ∈ map stealth_address (outputs t) -> a ∈ map stealth_address (outputs u) ->
  valid (validate_block_with_checkpoint_for_network E (into_block c nonce) (Some p) (utxos v) cp (chain_network v)) = false.
Proof.
  intros Hskip Hnow Hbuild Hty Hact Hl El Ht Hu.
  destruct (candidate_built v cands l now sp py bits c Hnow Hl Hbuild) as (k0 & k & _ & _ & Hc).
  apply not_true_iff_false. intros [_ _ _ _ _ _ _ _ _ _ _ _ _ Had _ _]%block_ok; [|done|done].
  change (block_height (into_block c nonce)) with (height (c_header c)) in Had.
  rewrite (b_height _ _ _ _ _ _ _ Hc) in Had. specialize (Had Hact).
  change (transactions (into_block c nonce)) with (c_transactions c) in Had. rewrite (b_txs _ _ _ _ _ _ _ Hc), El in Had. cbv zeta in Had.
  rewrite app_comm_cons in Had. rewrite flat_map_app in Had. apply list.NoDup_app in Had as (_ & _ & Had).
  cbn [flat_map] in Had. apply list.NoDup_app in Had as (_ & Hd & _). apply (Hd a Ht).
  rewrite flat_map_app. cbn [flat_map]. rewrite !elem_of_app. by right; left.
Qed.
End Candidate.

(** ** The nonce space *)

Lemma worker_bounds threads base tid : 1 <= threads -> 0 <= base < u64_max / threads -> 0 <= tid < threads ->
  worker_range threads base tid = (tid * (u64_max / threads) + base,
    if tid + 1 =? threads then u64_max else (tid + 1) * (u64_max / threads)).
Proof.
  intros Hn Hb Ht. unfold worker_range. rewrite Z.max_l by lia.
  set (s := u64_max / threads) in *. assert (threads * s <= u64_max) by (apply Z.mul_div_le; lia).
  assert (0 <= tid * s) by nia. assert (tid * s + s <= u64_max) by nia. unfold saturating_mul.
  rewrite !Z.min_r by nia. rewrite wrap_small by (unfold fits; lia). done.
Qed.

(** Which nonces the workers try.  With a base below the slice of a worker, a nonce is
    tried exactly when it is not the last one and its offset in its worker's slice is at
    least the base: all of them for base zero, and otherwise every slice but the offsets
    below the base. *)
Theorem nonces_searched threads base nonce : 1 <= threads -> 0 <= base < u64_max / threads -> 0 <= nonce <= u64_max ->
  let slice := u64_max / threads in
  searched threads base nonce = true
  <-> nonce < u64_max /\ base <= nonce - slice * Z.min (nonce / slice) (threads - 1).
Proof.
  intros Hn Hb Hx slice. assert (Hs : threads * slice <= u64_max) by (apply Z.mul_div_le; lia).
  assert (0 < slice) by lia. unfold searched. rewrite Z.max_l by lia. rewrite existsb_exists.
  pose proof (Z.div_mod nonce slice ltac:(lia)). pose proof (Z.mod_pos_bound nonce slice ltac:(lia)).
  set (q := nonce / slice) in *. assert (0 <= q) by (apply Z.div_pos; lia). split.
  - intros (tid & Hin%in_seq & Hr). rewrite worker_bounds in Hr by lia. fold slice in Hr.
    apply andb_true_iff in Hr as [Hr1%Z.leb_le Hr2%Z.ltb_lt]. destruct (Z.eqb_spec (Z.of_nat tid + 1) threads).
    + split; [lia|]. assert (threads - 1 <= q) by nia. rewrite Z.min_r by lia. nia.
    + assert (q = Z.of_nat tid) by nia. rewrite Z.min_l by lia. split; nia.
  - intros [Hlt Hoff]. set (tid := Z.min q (threads - 1)) in *. exists (Z.to_nat tid).
    assert (0 <= tid < threads) by lia. split; [apply in_seq; lia|]. rewrite Z2Nat.id, worker_bounds by lia. fold slice.
    apply andb_true_iff. rewrite Z.leb_le, Z.ltb_lt. split; [nia|].
    destruct (Z.eqb_spec (tid + 1) threads); [lia|]. assert (tid = q) as -> by lia. nia.
Qed.

(** Two workers from base zero share no nonce. *)
Lemma workers_disjoint threads base i j x : 1 <= threads -> 0 <= base < u64_max / threads -> 0 <= i < j -> j < threads ->
  ~ (fst (worker_range threads base i) <= x < snd (worker_range threads base i)
     /\ fst (worker_range threads base j) <= x < snd (worker_range threads base j)).
Proof.
  intros Hn Hb Hi Hj. rewrite !worker_bounds by lia. cbn [fst snd]. set (s := u64_max / threads) in *.
  destruct (Z.eqb_spec (i + 1) threads); [lia|]. nia.
Qed.

(** ** Samples: two spends that pay to one address *)

(** An encoding of transactions that reads back. *)
#[local] Instance TxType_countable : Countable TxType.
Proof.
  refine (inj_countable' (fun t => match t with Coinbase => 0 | Transfer => 1 | Churn => 2 | Shielded => 3 end%nat)
    (fun k => match k with 0%nat => Coinbase | 1%nat => Transfer | 2%nat => Churn | _ => Shielded end) _).
  by intros [].
Defined.
#[local] Instance member_eq_dec : EqDecision RingMemberRef.
Proof. solve_decision. Defined.
#[local] Instance member_countable : Countable RingMemberRef.
Proof. refine (inj_countable' (fun m => (public_key m, member_commitment m)) (fun m => mkMember m.1 m.2) _). by intros []. Defined.
#[local] Instance input_eq_dec : EqDecision TxInput.
Proof. solve_decision. Defined.
#[local] Instance input_countable : Countable TxInput.
Proof.
  refine (inj_countable' (fun i => (key_image i, ring_members i, signature i, pseudo_output_commitment i))
    (fun '(a, b, c, d) => mkInput a b c d) _). by intros [].
Defined.
#[local] Instance output_eq_dec : EqDecision TxOutput.
Proof. solve_decision. Defined.
#[local] Instance output_countable : Countable TxOutput.
Proof.
  refine (inj_countable' (fun o => (stealth_address o, tx_public_key o, commitment o, encrypted_amount o, view_tag o,
      lock_height o, encrypted_memo o)) (fun '(a, b, c, d, e, f, g) => mkOutput a b c d e f g) _). by intros [].
Defined.
#[local] Instance transaction_eq_dec : EqDecision Transaction.
Proof. solve_decision. Defined.
#[local] Instance transaction_countable : Countable Transaction.
Proof.
  refine (inj_countable' (fun t => (tx_version t, tx_type t, inputs t, outputs t, fee t, range_proof t, extra t))
    (fun '(a, b, c, d, e, f, g) => mkTx a b c d e f g) _). by intros [].
Defined.

Definition sample_to_vec (t : Transaction) : option (list Z) := Some [Z.pos (encode t)].
Definition sample_from_slice (bytes : list Z) : option Transaction :=
  match bytes with [Z.pos x] => decode x | _ => None end.

Lemma sample_roundtrip t : exists bytes, sample_to_vec t = Some bytes /\ sample_from_slice bytes = Some t.
Proof. eexists. split; [done|]. apply decode_encode. Qed.

Lemma sample_sizes t : 0 <= TxValidation.tx_size (crypto sample_env) t.
Proof. done. Qed.

Lemma sample_commit a : 0 < a <= u64_max -> hidden (crypto sample_env) (commit0 (crypto sample_env) a).
Proof. intros Ha. split; [cbn; lia|done]. Qed.

Definition spend_with (ki : Z) (addrs : list Z) : Transaction :=
  mkTx 1 Transfer [mkInput ki (sample_ring 11) 0 0; mkInput (ki + 1) (sample_ring 11) 0 0]
    (map sample_output addrs) 6000000 [1] [].

(** A parent of version 1 or 2 at height one. *)
Definition sample_parent (ver : Z) : Block :=
  let h := sample_block_header (Some (header sample_genesis)) 1 0 in
  mkBlock (mkHeader (network_magic h) ver 1 (timestamp h) (prev_hash h)
             (merkle_root sample_hash [1001]) 0 0 0 (2 ^ 200) 0 0 None 0 0)
    [sample_coinbase [(1001, Curve.base_reward 1)]].

Definition sample_view (ver : Z) : ChainView :=
  mkView 1 (header_hash sample_hash (header (sample_parent ver))) (timestamp (header (sample_parent ver)))
    (2 ^ 200) 256 Ledger.Regtest (sample_set 11).

Definition sample_pool (l : list Transaction) : Mempool.Mempool :=
  fold_left (fun m t => fst (Mempool.add Mempool.ex_tags Mempool.ex_checks m 5 (pooled sample_env t))) l
    (Mempool.with_max_size 100000).

Lemma sample_pool_ok l : Forall (fun t => Mempool.sane_tx (pooled sample_env t)) l ->
  Mempool.pool_ok Mempool.ex_tags (sample_pool l).
Proof.
  intros Hl. apply (Mempool.reachable_ok Mempool.ex_tags Mempool.ex_checks 100000); [split; vm_compute; discriminate|].
  unfold sample_pool. generalize (Mempool.with_max_size 100000). induction Hl as [|t l Ht Hl IH]; intros m; [apply rtc_refl|].
  cbn [fold_left]. eapply rtc_l; [|apply IH]. eapply (Mempool.step_add _ _ _ 5 (pooled sample_env t)); [done|apply surjective_pairing].
Qed.

Definition sample_build (ver : Z) (cands : list Transaction) : option (result BuildError CandidateBlock) :=
  build_candidate_block sample_env sample_to_vec sample_from_slice (fun _ _ _ => 0) (fun _ _ _ _ => Some (7, 0))
    (sample_view ver) cands 1500 (Some (2001, 7, 0)) (Some (2002, 7, 0)) Ledger.Regtest 0.

Definition sample_candidate (ver : Z) (cands : list Transaction) : CandidateBlock :=
  match sample_build ver cands with
  | Some (Ok c) => c
  | _ => mkCandidate (sample_block_header None 0 0) []
  end.

Definition one_spend : list Transaction := [spend_with 50 [60; 61]].
Definition two_spends : list Transaction := [spend_with 52 [62; 61]; spend_with 50 [60; 61]].

Lemma sample_built ver : ver ∈ [1; 2] -> forall l, l ∈ [one_spend; two_spends] ->
  sample_build ver l = Some (Ok (sample_candidate ver l)) /\ typed (into_block (sample_candidate ver l) 9).
Proof.
  intros Hv l Hl. rewrite !elem_of_cons in Hv. rewrite !elem_of_cons in Hl.
  destruct Hv as [-> | [-> | []%elem_of_nil]], Hl as [-> | [-> | []%elem_of_nil]];
    (split; [vm_compute; reflexivity|apply typedb_ok; vm_compute; reflexivity]).
Qed.

Lemma sample_view_of ver : view_of sample_env (sample_view ver) (sample_parent ver).
Proof. repeat split; vm_compute; congruence. Qed.

Lemma sample_selected : selected sample_env Mempool.ex_tags (sample_pool one_spend) one_spend.
Proof.
  split; [apply sample_pool_ok|vm_compute; reflexivity]. repeat constructor; vm_compute; congruence.
Qed.

Lemma built_block_valid_iff_witness :
  unchecked sample_env Ledger.Regtest (into_block (sample_candidate 1 one_spend) 9) (sample_parent 1).
Proof.
  destruct (sample_built 1 ltac:(set_solver) one_spend ltac:(set_solver)) as [Hb Ht].
  apply (built_block_valid_iff sample_env sample_to_vec sample_from_slice (fun _ _ _ => 0) (fun _ _ _ _ => Some (7, 0))
    sample_roundtrip sample_sizes sample_commit Mempool.ex_tags (sample_pool one_spend) (sample_view 1) (sample_parent 1)
    one_spend 1500 (Some (2001, 7, 0)) (Some (2002, 7, 0)) 0 _ 9 None eq_refl sample_selected (sample_view_of 1)).
  - lia.
  - exact Hb.
  - intros k a k' a'. split; [reflexivity|vm_compute; discriminate].
  - exact Ht.
  - intros t [-> | []%elem_of_nil]%elem_of_cons. vm_compute. discriminate.
  - vm_compute. discriminate.
  - vm_compute. reflexivity.
Defined.

(** The parent of version 2 is itself valid on the genesis block. *)
Lemma early_version_stalls_builders_witness :
  valid (validate_block_with_checkpoint_for_network sample_env (sample_parent 2) (Some sample_genesis) Utxo.new None Ledger.Regtest) = true
  /\ valid (validate_block_with_checkpoint_for_network sample_env (into_block (sample_candidate 2 one_spend) 9)
       (Some (sample_parent 2)) (sample_set 11) None Ledger.Regtest) = false.
Proof.
  split; [vm_compute; reflexivity|].
  destruct (sample_built 2 ltac:(set_solver) one_spend ltac:(set_solver)) as [Hb Ht].
  apply (early_version_stalls_builders sample_env sample_to_vec sample_from_slice (fun _ _ _ => 0) (fun _ _ _ _ => Some (7, 0))
    sample_roundtrip (sample_view 2) (sample_parent 2) one_spend 1500 (Some (2001, 7, 0)) (Some (2002, 7, 0)) 0 _ 9 None eq_refl
    (sample_view_of 2)); [lia|exact Hb|exact Ht|vm_compute; reflexivity].
Defined.

(** Both spends are in the pool's selection, and either alone makes a valid block. *)
Lemma shared_address_poisons_template_witness :
  map (pooled sample_env) two_spends
    = Mempool.get_block_transactions Mempool.ex_tags (sample_pool (rev two_spends)) template_budget MAX_TEMPLATE_TXS
  /\ valid (validate_block_with_checkpoint_for_network sample_env (into_block (sample_candidate 1 two_spends) 9)
       (Some (sample_parent 1)) (sample_set 11) None Ledger.Regtest) = false.
Proof.
  split; [vm_compute; reflexivity|].
  destruct (sample_built 1 ltac:(set_solver) two_spends ltac:(set_solver)) as [Hb Ht].
  apply (shared_address_poisons_template sample_env sample_to_vec sample_from_slice (fun _ _ _ => 0) (fun _ _ _ _ => Some (7, 0))
    sample_roundtrip (sample_view 1) (sample_parent 1) two_spends two_spends [] [] []
    (spend_with 52 [62; 61]) (spend_with 50 [60; 61]) 61 1500 (Some (2001, 7, 0)) (Some (2002, 7, 0)) 0 _ 9 None eq_refl);
    [lia|exact Hb|exact Ht|vm_compute; reflexivity..|reflexivity| |]; rewrite list_elem_of_In; vm_compute; tauto.
Defined.

Lemma nonces_searched_witness : searched 4 1000000 999999 = false /\ searched 4 0 999999 = true.
Proof.
  assert (Hs : u64_max / 4 = 4611686018427387903) by reflexivity. split.
  - apply not_true_iff_false. rewrite (nonces_searched 4 1000000 999999) by (rewrite ?Hs; lia).
    vm_compute. intros [_ H]. by apply H.
  - rewrite (nonces_searched 4 0 999999) by (rewrite ?Hs; lia). vm_compute. split; congruence.
Defined.
End Miner.
