(* ===== verification/Wallet.v ===== *)
(** * Wallet balance and scanning (src/src/wallet/balance.rs, src/src/wallet/scanner.rs,
    src/src/bin/wallet_support/legacy.rs)

    The wallet's outputs with their reservations and the key-image index, the scanner's
    position and journal, and the loop of [cmd_scan] that feeds blocks to both and rewinds
    them when the node has reorganised.  Which outputs of a block belong to the wallet is
    curve arithmetic and a parameter; so is the block hash.  The transaction history, the
    scan counters and the log are left out. *)

From stdpp Require Import gmap list.
From S2P Require Import Prelude Constants Types.

Module Wallet.

(** ** Balance *)

(** The address, blinding, epoch and locator fields, which nothing here reads, are one
    opaque field. *)
Record UTXO := mkUTXO {
  tx_hash : Z;
  output_index : Z;
  amount : Z;
  height : Z;
  key_image : Z;
  spent : bool;
  lock_height : option Z;
  secrets : Z }.

Definition utxo_key (u : UTXO) : Z * Z := (tx_hash u, output_index u).

Definition set_spent (x : bool) (u : UTXO) : UTXO :=
  mkUTXO (tx_hash u) (output_index u) (amount u) (height u) (key_image u) x (lock_height u) (secrets u).

Record Reservation := mkReservation { by_tx : Z; res_height : Z }.

Definition RESERVATION_EXPIRY_BLOCKS : Z := 300.

Record ReservationConflict := mkConflict { conflict_key : Z * Z; existing : option Reservation }.

Record Balance := mkBalance {
  utxos : gmap (Z * Z) UTXO;
  reservations : gmap (Z * Z) Reservation;
  key_image_index : gmap Z (Z * Z) }.

Definition new : Balance := mkBalance ∅ ∅ ∅.

Definition add_utxo (w : Balance) (u : UTXO) : Balance :=
  let key := utxo_key u in
  mkBalance (<[key := u]> (utxos w)) (reservations w) (<[key_image u := key]> (key_image_index w)).

Definition from_utxos (l : list UTXO) : Balance := fold_left add_utxo l new.

Definition lookup_by_key_image (w : Balance) (ki : Z) : option (Z * Z) :=
  key ← key_image_index w !! ki;
  match utxos w !! key with
  | Some u => if spent u then None else Some key
  | None => None
  end.

Definition remove_output (w : Balance) (key : Z * Z) : Balance :=
  match utxos w !! key with
  | Some u => mkBalance (delete key (utxos w)) (delete key (reservations w)) (delete (key_image u) (key_image_index w))
  | None => w
  end.

Definition remove_outputs (w : Balance) (outputs : list (Z * Z)) : Balance * Z :=
  fold_left (fun '(w, removed) key =>
    (remove_output w key, if bool_decide (is_Some (utxos w !! key)) then removed + 1 else removed)) outputs (w, 0).

Definition mark_spent (w : Balance) (key : Z * Z) : Balance :=
  mkBalance (alter (set_spent true) key (utxos w)) (delete key (reservations w)) (key_image_index w).

Definition mark_spent_by_key_image (w : Balance) (ki : Z) : Balance :=
  match lookup_by_key_image w ki with Some key => mark_spent w key | None => w end.

Definition unmark_spent_by_key_image (w : Balance) (ki : Z) : Balance * bool :=
  match key_image_index w !! ki with
  | None => (w, false)
  | Some key =>
      match utxos w !! key with
      | Some u => if spent u
                  then (mkBalance (<[key := set_spent false u]> (utxos w)) (reservations w) (key_image_index w), true)
                  else (w, false)
      | None => (w, false)
      end
  end.

Definition is_reserved (w : Balance) (key : Z * Z) (current_height : Z) : bool :=
  match reservations w !! key with
  | Some r => current_height <? saturating_add u64_max (res_height r) RESERVATION_EXPIRY_BLOCKS
  | None => false
  end.

Definition is_available (w : Balance) (current_height min_age : Z) (u : UTXO) : bool :=
  negb (spent u) && (saturating_add u64_max (height u) min_age <=? current_height)
  && match lock_height u with Some lh => lh <=? current_height | None => true end
  && negb (is_reserved w (utxo_key u) current_height).

(** [.map(|u| u.amount).sum()] over the values of the map that pass the filter. *)
Definition sum_amounts (p : UTXO -> bool) (m : gmap (Z * Z) UTXO) : Z :=
  map_fold (fun _ u a => if p u then saturating_add u64_max a (amount u) else a) 0 m.

Definition total (w : Balance) : Z := sum_amounts (fun u => negb (spent u)) (utxos w).

Definition spendable (w : Balance) (current_height min_age : Z) : Z :=
  sum_amounts (is_available w current_height min_age) (utxos w).

Definition available_utxos (w : Balance) (current_height min_age : Z) : gmap (Z * Z) UTXO :=
  filter (fun '(_, u) => is_available w current_height min_age u = true) (utxos w).

Definition is_locked (current_height : Z) (u : UTXO) : bool :=
  negb (spent u) && match lock_height u with Some lh => current_height <? lh | None => false end.

Definition locked_balance (w : Balance) (current_height : Z) : Z := sum_amounts (is_locked current_height) (utxos w).

Definition set_reservations (w : Balance) (r : gmap (Z * Z) Reservation) : Balance :=
  mkBalance (utxos w) r (key_image_index w).

Definition reserve_utxos (w : Balance) (keys : list (Z * Z)) (tx current_height : Z)
  : Balance * result ReservationConflict unit :=
  match List.find (fun k => is_reserved w k current_height) keys with
  | Some k => (w, Err (mkConflict k (reservations w !! k)))
  | None =>
      (set_reservations w (fold_left (fun r k => <[k := mkReservation tx current_height]> r) keys (reservations w)), Ok tt)
  end.

Definition release_reservations_by_tx (w : Balance) (tx : Z) : Balance * Z :=
  (set_reservations w (filter (fun '(_, r) => by_tx r <> tx) (reservations w)),
   Z.of_nat (size (filter (fun '(_, r) => by_tx r = tx) (reservations w)))).

Definition expired (current_height : Z) (r : Reservation) : bool :=
  saturating_add u64_max (res_height r) RESERVATION_EXPIRY_BLOCKS <=? current_height.

Definition release_expired_reservations (w : Balance) (current_height : Z) : Balance * Z :=
  (set_reservations w (filter (fun '(_, r) => expired current_height r = false) (reservations w)),
   Z.of_nat (size (filter (fun '(_, r) => expired current_height r = true) (reservations w)))).

Definition restore_reservations (w : Balance) (entries : list ((Z * Z) * Reservation)) (current_height : Z) : Balance :=
  set_reservations w
    (fold_left (fun m '(k, r) => if expired current_height r then m else <[k := r]> m) entries (reservations w)).

(** ** The scanner *)

Record BlockApplyDiff := mkDiff {
  d_height : Z;
  block_hash : Z;
  prev_block_hash : Z;
  outputs_added : list (Z * Z);
  key_images_marked_spent : list Z }.

Definition JOURNAL_MAX_DEFAULT : nat := 1100.

(** The journal, oldest entry first. *)
Record WalletScanner := mkScanner {
  last_height : Z;
  last_hash : Z;
  journal : list BlockApplyDiff;
  journal_max : nat }.

Definition new_scanner : WalletScanner := mkScanner 0 0 [] JOURNAL_MAX_DEFAULT.

Inductive ScanResult :=
| Scanned (outputs : list UTXO) (height block_hash : Z)
| ReorgDetected (at_height actual_prev expected_prev : Z).

Inductive RewindError :=
| OutsideJournalWindow (target_height earliest_in_journal : Z)
| TargetAboveCurrent (target_height current_height : Z).

Record RewindOutcome := mkOutcome {
  entries_undone : Z;
  outputs_to_remove : list (Z * Z);
  key_images_to_unspend : list Z;
  new_height : Z;
  new_hash : Z }.

Definition journal_pairs (s : WalletScanner) : list (Z * Z) := map (fun d => (d_height d, block_hash d)) (journal s).

Definition record_journal_entry (s : WalletScanner) (d : BlockApplyDiff) : WalletScanner :=
  if d_height d <? last_height s then s
  else
    let j := journal s ++ [d] in
    mkScanner (d_height d) (block_hash d) (drop (length j - journal_max s) j) (journal_max s).

Definition add_spend (ki : Z) (d : BlockApplyDiff) : BlockApplyDiff :=
  mkDiff (d_height d) (block_hash d) (prev_block_hash d) (outputs_added d) (key_images_marked_spent d ++ [ki]).

Definition record_spend_for_last_block (s : WalletScanner) (ki : Z) : WalletScanner * bool :=
  match list.last (journal s) with
  | Some d => (mkScanner (last_height s) (last_hash s) (removelast (journal s) ++ [add_spend ki d]) (journal_max s), true)
  | None => (s, false)
  end.

(** The loop that pops the entries above the target, newest first. *)
Fixpoint pop_above (target : Z) (newest_first : list BlockApplyDiff) (o : RewindOutcome)
  : list BlockApplyDiff * RewindOutcome :=
  match newest_first with
  | [] => ([], o)
  | d :: rest =>
      if d_height d <=? target then (newest_first, o)
      else pop_above target rest
             (mkOutcome (entries_undone o + 1) (outputs_to_remove o ++ outputs_added d)
                (key_images_to_unspend o ++ key_images_marked_spent d) (new_height o) (new_hash o))
  end.

Definition rewind_to_height (s : WalletScanner) (target_height : Z) : WalletScanner * result RewindError RewindOutcome :=
  if last_height s <? target_height then (s, Err (TargetAboveCurrent target_height (last_height s)))
  else
    match head (journal s) with
    | Some front =>
        if (target_height <? d_height front) && negb (target_height =? 0)
        then (s, Err (OutsideJournalWindow target_height (d_height front)))
        else
          let '(kept, o) := pop_above target_height (rev (journal s)) (mkOutcome 0 [] [] target_height 0) in
          let '(h, x) := match kept with d :: _ => (d_height d, block_hash d) | [] => (0, 0) end in
          (mkScanner h x (rev kept) (journal_max s),
           Ok (mkOutcome (entries_undone o) (outputs_to_remove o) (key_images_to_unspend o) h x))
    | None => (mkScanner 0 0 [] (journal_max s), Ok (mkOutcome 0 [] [] 0 0))
    end.

(** ** The scan loop *)

Section Scan.
(** The outputs of a block that are the wallet's, as [scan_transaction] and
    [decrypted_to_utxo] make them: unspent, at the block's height. *)
Context (blake3 : list Z -> Z) (found : Types.Block -> list UTXO).

Definition scan_block_with_result (s : WalletScanner) (b : Types.Block) : WalletScanner * ScanResult :=
  let hash := Types.block_hash blake3 b in
  let h := Types.block_height b in
  let prev := Types.prev_hash (Types.header b) in
  let reorg_signal :=
    match list.last (journal s) with
    | Some e =>
        if (h =? wrap u64_max (d_height e + 1)) && negb (prev =? block_hash e) then Some (block_hash e)
        else if h <=? d_height e then Some (block_hash e)
        else None
    | None => None
    end in
  match reorg_signal with
  | Some expected_prev => (s, ReorgDetected h prev expected_prev)
  | None =>
      let outs := found b in
      let d := mkDiff h hash prev (map utxo_key outs) [] in
      (record_journal_entry (mkScanner h hash (journal s) (journal_max s)) d, Scanned outs h hash)
  end.

(** The body of the loop over the key images of the block. *)
Definition spend_one (st : Balance * WalletScanner) (ki : Z) : Balance * WalletScanner :=
  let '(w, s) := st in
  let s := match lookup_by_key_image w ki with Some _ => fst (record_spend_for_last_block s ki) | None => s end in
  (mark_spent_by_key_image w ki, s).

Definition block_images (b : Types.Block) : list Z := flat_map Types.key_images (Types.transactions b).

(** One block of the scan loop; [None] when the scanner reports a reorganisation. *)
Definition scan_one (st : Balance * WalletScanner) (b : Types.Block) : option (Balance * WalletScanner) :=
  let '(w, s) := st in
  match scan_block_with_result s b with
  | (s, Scanned outs _ _) => Some (fold_left spend_one (block_images b) (fold_left add_utxo outs w, s))
  | (s, ReorgDetected _ _ _) => None
  end.

(** A run of blocks, oldest first, without reorganisation. *)
Definition scan_run (st : Balance * WalletScanner) (l : list Types.Block) : option (Balance * WalletScanner) :=
  fold_left (fun o b => st ← o; scan_one st b) l (Some st).

(** The recovery of [cmd_scan] at the fork point that the node names. *)
Definition recover (st : Balance * WalletScanner) (fork : Z) : result RewindError (Balance * WalletScanner) :=
  let '(w, s) := st in
  match rewind_to_height s fork with
  | (_, Err e) => Err e
  | (s, Ok outcome) =>
      let w := fst (remove_outputs w (outputs_to_remove outcome)) in
      let w := fold_left (fun w ki => fst (unmark_spent_by_key_image w ki)) (key_images_to_unspend outcome) w in
      Ok (w, s)
  end.
End Scan.

(** ** The outputs and the index *)

(** The part of the balance that the chain determines. *)
Definition core (w : Balance) : gmap (Z * Z) UTXO * gmap Z (Z * Z) := (utxos w, key_image_index w).

(** Every output is under its own key, and the index is the inverse of the key images. *)
Record wf (w : Balance) : Prop := {
  wf_key k u : utxos w !! k = Some u -> utxo_key u = k;
  wf_index ki k : key_image_index w !! ki = Some k <-> exists u, utxos w !! k = Some u /\ key_image u = ki }.

(** Set the flag of an output whose key image is listed. *)
Definition mark_in (x : bool) (l : list Z) (u : UTXO) : UTXO := if bool_decide (key_image u ∈ l) then set_spent x u else u.

(** Set the flag of the outputs whose key image is listed. *)
Definition flag (x : bool) (l : list Z) (m : gmap (Z * Z) UTXO) : gmap (Z * Z) UTXO := mark_in x l <$> m.

Definition without {A} (ks : list (Z * Z)) (m : gmap (Z * Z) A) : gmap (Z * Z) A := filter (fun p => p.1 ∉ ks) m.
Definition unindexed (ks : list (Z * Z)) (m : gmap Z (Z * Z)) : gmap Z (Z * Z) := filter (fun p => p.2 ∉ ks) m.

Lemma set_spent_id u : set_spent (spent u) u = u.
Proof. by destruct u. Qed.

Lemma mark_in_cons x ki (l : list Z) u : mark_in x l (mark_in x [ki] u) = mark_in x (ki :: l) u.
Proof.
  unfold mark_in. destruct (decide (key_image u = ki)) as [He|He].
  - rewrite (bool_decide_true (key_image u ∈ [ki])) by (rewrite He; apply list_elem_of_here).
    rewrite (bool_decide_true (key_image u ∈ ki :: l)) by (rewrite He; apply list_elem_of_here). by destruct (bool_decide _).
  - rewrite (bool_decide_false (key_image u ∈ [ki])) by (by rewrite list_elem_of_singleton).
    erewrite bool_decide_ext; [done|]. rewrite elem_of_cons. tauto.
Qed.

Lemma mark_in_image x (l : list Z) u : key_image (mark_in x l u) = key_image u.
Proof. unfold mark_in. by destruct (bool_decide _). Qed.

Lemma mark_in_app x (l1 l2 : list Z) u : mark_in x l2 (mark_in x l1 u) = mark_in x (l1 ++ l2) u.
Proof.
  revert u. induction l1 as [|ki l1 IH]; intros u; cbn [app]; [done|].
  by rewrite <- (mark_in_cons x ki l1), IH, mark_in_cons.
Qed.

Lemma flag_lookup x (l : list Z) m k u : flag x l m !! k = Some u <->
  exists v, m !! k = Some v /\ u = if bool_decide (key_image v ∈ l) then set_spent x v else v.
Proof. unfold flag. rewrite lookup_fmap, fmap_Some. done. Qed.

Lemma flag_image x (l : list Z) v : key_image (if bool_decide (key_image v ∈ l) then set_spent x v else v) = key_image v
  /\ utxo_key (if bool_decide (key_image v ∈ l) then set_spent x v else v) = utxo_key v.
Proof. by destruct (bool_decide _). Qed.

Lemma flag_nil x m : flag x [] m = m.
Proof.
  unfold flag. rewrite <- (map_fmap_id m) at 2. apply map_fmap_ext. intros k u _. unfold mark_in.
  by rewrite bool_decide_false by apply not_elem_of_nil.
Qed.

Lemma flag_app x (l1 l2 : list Z) m : flag x l2 (flag x l1 m) = flag x (l1 ++ l2) m.
Proof.
  unfold flag. rewrite <- map_fmap_compose. apply map_fmap_ext. intros k u _. apply mark_in_app.
Qed.

Lemma flag_cons x ki (l : list Z) m : flag x l (flag x [ki] m) = flag x (ki :: l) m.
Proof. apply (flag_app x [ki] l). Qed.

Lemma flag_wf x l w r : wf w -> wf (mkBalance (flag x l (utxos w)) r (key_image_index w)).
Proof.
  intros [Hk Hi]. split; cbn [utxos key_image_index].
  - intros k u (v & Hv & ->)%flag_lookup. rewrite (proj2 (flag_image x l v)). by apply Hk.
  - intros ki k. rewrite Hi. setoid_rewrite flag_lookup. split.
    + intros (v & Hv & <-). eexists. split; [eauto|]. by apply flag_image.
    + intros (u & (v & Hv & ->) & <-). exists v. split; [done|]. symmetry. apply flag_image.
Qed.

(** A single change through the index is the flag of that image. *)
Lemma flag_one x w ki k u : wf w -> key_image_index w !! ki = Some k -> utxos w !! k = Some u ->
  <[k := set_spent x u]> (utxos w) = flag x [ki] (utxos w).
Proof.
  intros [Hk Hi] Hik Hku. apply map_eq. intros k'. unfold flag, mark_in. rewrite lookup_fmap.
  assert (Hu : key_image u = ki). { apply Hi in Hik as (v & Hv & <-). congruence. }
  destruct (decide (k' = k)) as [->|Hne].
  - rewrite lookup_insert_eq, Hku. cbn. by rewrite bool_decide_true by (rewrite Hu; apply list_elem_of_here).
  - rewrite lookup_insert_ne by done. destruct (utxos w !! k') as [v|] eqn:Ev; [|done]. cbn.
    rewrite bool_decide_false; [done|]. intros Hv%list_elem_of_singleton.
    assert (key_image_index w !! ki = Some k') by (apply Hi; eauto). congruence.
Qed.

(** No output has the image, or the one that has it already carries the flag. *)
Lemma flag_none x ki w : wf w ->
  (forall k u, key_image_index w !! ki = Some k -> utxos w !! k = Some u -> spent u = x) ->
  flag x [ki] (utxos w) = utxos w.
Proof.
  intros [Hk Hi] H. rewrite <- (map_fmap_id (utxos w)) at 2. apply map_fmap_ext. intros k u Hu. unfold mark_in. cbn [id].
  destruct (bool_decide _) eqn:Eb; [|done]. apply bool_decide_eq_true, list_elem_of_singleton in Eb.
  rewrite <- (H k u), set_spent_id; [done| |done]. apply Hi. eauto.
Qed.

Lemma mark_core w ki : wf w -> core (mark_spent_by_key_image w ki) = (flag true [ki] (utxos w), key_image_index w).
Proof.
  intros Hw. unfold mark_spent_by_key_image, lookup_by_key_image, core.
  destruct (key_image_index w !! ki) as [k|] eqn:Ei; cbn [mbind option_bind].
  - destruct (proj1 (wf_index w Hw ki k) Ei) as (u & Hu & _). rewrite Hu. destruct (spent u) eqn:Es.
    + rewrite flag_none; [done|done|]. intros k' u' ? ?. congruence.
    + cbn [mark_spent utxos key_image_index]. rewrite <- (flag_one true w ki k u) by done.
      f_equal. rewrite <- (insert_id (utxos w) k u) at 1 by done. by rewrite alter_insert_eq.
  - rewrite flag_none; [done|done|]. intros. congruence.
Qed.

Lemma unmark_core w ki : wf w -> core (fst (unmark_spent_by_key_image w ki)) = (flag false [ki] (utxos w), key_image_index w).
Proof.
  intros Hw. unfold unmark_spent_by_key_image, core. destruct (key_image_index w !! ki) as [k|] eqn:Ei.
  - destruct (proj1 (wf_index w Hw ki k) Ei) as (u & Hu & _). rewrite Hu. destruct (spent u) eqn:Es; cbn [fst].
    + cbn [utxos key_image_index]. by rewrite (flag_one false w ki k u).
    + rewrite flag_none; [done|done|]. intros k' u' ? ?. congruence.
  - cbn [fst]. rewrite flag_none; [done|done|]. intros. congruence.
Qed.

Lemma core_wf w w' : core w = core w' -> wf w -> wf w'.
Proof. unfold core. intros [= Hu Hi] [H1 H2]. split; rewrite <- Hu, <- ?Hi; done. Qed.

Lemma core_flag_wf x l w w' : wf w -> core w' = (flag x l (utxos w), key_image_index w) -> wf w'.
Proof. intros Hw Hc. apply (core_wf (mkBalance (flag x l (utxos w)) ∅ (key_image_index w))); [by rewrite Hc|by apply flag_wf]. Qed.

Lemma unmark_all_core l w : wf w ->
  core (fold_left (fun w ki => fst (unmark_spent_by_key_image w ki)) l w) = (flag false l (utxos w), key_image_index w).
Proof.
  revert w. induction l as [|ki l IH]; intros w Hw; cbn [fold_left]; [by rewrite flag_nil|].
  pose proof (unmark_core w ki Hw) as Hc. rewrite IH by (by eapply core_flag_wf). unfold core in Hc. injection Hc as -> ->.
  by rewrite flag_cons.
Qed.

(** ** Removals *)

Lemma remove_output_core w k : wf w ->
  core (remove_output w k) = (without [k] (utxos w), unindexed [k] (key_image_index w)).
Proof.
  intros [Hk Hi]. unfold remove_output, core.
  assert (Hout : without [k] (utxos w) = delete k (utxos w)).
  { apply map_eq. intros k'. unfold without. destruct (decide (k' = k)) as [->|Hne].
    - rewrite lookup_delete_eq. apply map_lookup_filter_None. right. intros v _. cbn. rewrite list_elem_of_singleton. tauto.
    - rewrite lookup_delete_ne by done. apply option_eq. intros v. rewrite map_lookup_filter_Some. cbn.
      rewrite list_elem_of_singleton. naive_solver. }
  rewrite Hout. destruct (utxos w !! k) as [u|] eqn:Eu; cbn [utxos key_image_index].
  - f_equal. apply map_eq. intros ki. unfold unindexed. apply option_eq. intros k'. rewrite map_lookup_filter_Some. cbn.
    rewrite list_elem_of_singleton. destruct (decide (ki = key_image u)) as [->|Hne].
    + rewrite lookup_delete_eq. split; [done|]. intros [H1 H2]. exfalso. apply H2.
      assert (key_image_index w !! key_image u = Some k) by (apply Hi; eauto). congruence.
    + rewrite lookup_delete_ne by done. split; [|tauto]. intros H. split; [done|]. intros ->.
      apply Hi in H as (v & ? & ?). congruence.
  - f_equal; [by rewrite delete_id|]. apply map_eq. intros ki. unfold unindexed. apply option_eq. intros k'.
    rewrite map_lookup_filter_Some. cbn. rewrite list_elem_of_singleton. split; [|tauto]. intros H. split; [done|]. intros ->.
    apply Hi in H as (v & ? & ?). congruence.
Qed.

Lemma without_wf w w' (ks : list (Z * Z)) : wf w -> core w' = (without ks (utxos w), unindexed ks (key_image_index w)) -> wf w'.
Proof.
  intros [Hk Hi] Hc. apply (core_wf (mkBalance (without ks (utxos w)) ∅ (unindexed ks (key_image_index w)))); [by rewrite Hc|].
  split; cbn [utxos key_image_index]; unfold without, unindexed.
  - intros k u [Hu _]%map_lookup_filter_Some. by apply Hk.
  - intros ki k. rewrite map_lookup_filter_Some, Hi. cbn. setoid_rewrite map_lookup_filter_Some. cbn. naive_solver.
Qed.

Lemma without_cons {A} (k : Z * Z) (ks : list (Z * Z)) (m : gmap (Z * Z) A) : without ks (without [k] m) = without (k :: ks) m.
Proof.
  apply map_eq. intros k'. apply option_eq. intros v. unfold without. rewrite !map_lookup_filter_Some. cbn.
  rewrite list_elem_of_singleton, elem_of_cons. tauto.
Qed.

Lemma without_app {A} (k1 k2 : list (Z * Z)) (m : gmap (Z * Z) A) : without k2 (without k1 m) = without (k1 ++ k2) m.
Proof.
  apply map_eq. intros k'. apply option_eq. intros v. unfold without. rewrite !map_lookup_filter_Some. cbn.
  rewrite elem_of_app. tauto.
Qed.

Lemma unindexed_cons (k : Z * Z) (ks : list (Z * Z)) m : unindexed ks (unindexed [k] m) = unindexed (k :: ks) m.
Proof.
  apply map_eq. intros k'. apply option_eq. intros v. unfold unindexed. rewrite !map_lookup_filter_Some. cbn.
  rewrite list_elem_of_singleton, elem_of_cons. tauto.
Qed.

Lemma remove_outputs_fold (ks : list (Z * Z)) w r :
  fst (fold_left (fun '(w, removed) key =>
    (remove_output w key, if bool_decide (is_Some (utxos w !! key)) then removed + 1 else removed)) ks (w, r))
  = fold_left remove_output ks w.
Proof. revert w r. induction ks as [|k ks IH]; intros w r; cbn [fold_left]; [done|]. apply IH. Qed.

Lemma remove_outputs_core (ks : list (Z * Z)) w : wf w ->
  core (fst (remove_outputs w ks)) = (without ks (utxos w), unindexed ks (key_image_index w)).
Proof.
  unfold remove_outputs. rewrite remove_outputs_fold. revert w. induction ks as [|k ks IH]; intros w Hw; cbn [fold_left].
  - unfold core, without, unindexed. f_equal; symmetry; apply map_filter_id; intros; apply not_elem_of_nil.
  - pose proof (remove_output_core w k Hw) as Hc. rewrite IH by (by eapply without_wf). unfold core in Hc. injection Hc as -> ->.
    by rewrite without_cons, unindexed_cons.
Qed.

(** Flags and removals commute. *)
Lemma flag_without x l (ks : list (Z * Z)) m : flag x l (without ks m) = without ks (flag x l m).
Proof.
  apply map_eq. intros k. apply option_eq. intros u. unfold without. rewrite map_lookup_filter_Some, !flag_lookup.
  setoid_rewrite map_lookup_filter_Some. naive_solver.
Qed.

(** ** Additions *)

(** New outputs: keys and key images that the wallet does not have, each once. *)
Definition fresh (w : Balance) (outs : list UTXO) : Prop :=
  NoDup (map utxo_key outs) /\ NoDup (map key_image outs)
  /\ (forall u, u ∈ outs -> utxos w !! utxo_key u = None /\ key_image_index w !! key_image u = None).

Lemma add_wf w u : wf w -> utxos w !! utxo_key u = None -> key_image_index w !! key_image u = None -> wf (add_utxo w u).
Proof.
  intros [Hk Hi] Hn Hin. split; cbn [add_utxo utxos key_image_index].
  - intros k v. destruct (decide (k = utxo_key u)) as [->|Hne]; [rewrite lookup_insert_eq; congruence|].
    rewrite lookup_insert_ne by done. apply Hk.
  - intros ki k. destruct (decide (ki = key_image u)) as [->|Hne].
    + rewrite lookup_insert_eq. split; [intros [= <-]; exists u; by rewrite lookup_insert_eq|].
      intros (v & Hv & Ev). destruct (decide (k = utxo_key u)) as [->|Hne]; [done|]. rewrite lookup_insert_ne in Hv by done.
      assert (key_image_index w !! key_image u = Some k) by (apply Hi; eauto). congruence.
    + rewrite lookup_insert_ne by done. rewrite Hi. destruct (decide (k = utxo_key u)) as [->|Hne'].
      * rewrite lookup_insert_eq, Hn. naive_solver.
      * by rewrite lookup_insert_ne by done.
Qed.

Lemma fresh_cons w u outs : fresh w (u :: outs) ->
  utxos w !! utxo_key u = None /\ key_image_index w !! key_image u = None /\ fresh (add_utxo w u) outs.
Proof.
  intros (H1 & H2 & H3). cbn [map] in H1, H2. apply list.NoDup_cons in H1 as [Hk H1], H2 as [Hi H2].
  destruct (H3 u (list_elem_of_here _ _)) as [? ?]. split; [done|]. split; [done|]. split; [done|]. split; [done|].
  intros v Hv. destruct (H3 v (list_elem_of_further _ _ _ Hv)) as [? ?]. cbn [add_utxo utxos key_image_index].
  rewrite !lookup_insert_ne; [done| |]; intros He; [apply Hi; rewrite He|apply Hk; rewrite He]; apply list_elem_of_fmap; eauto.
Qed.

Lemma adds_core outs w : wf w -> fresh w outs ->
  let w' := fold_left add_utxo outs w in
  wf w' /\ without (map utxo_key outs) (utxos w') = utxos w
  /\ unindexed (map utxo_key outs) (key_image_index w') = key_image_index w.
Proof.
  revert w. induction outs as [|u outs IH]; intros w Hw Hf; cbn [fold_left map].
  - split; [done|]. split; apply map_filter_id; intros; apply not_elem_of_nil.
  - apply fresh_cons in Hf as (Hk & Hi & Hf). pose proof (add_wf w u Hw Hk Hi) as Hw'.
    destruct (IH _ Hw' Hf) as (Hwf & E1 & E2). split; [done|].
    assert (Hu : utxos w = without [utxo_key u] (utxos (add_utxo w u))).
    { apply map_eq. intros k. apply option_eq. intros v. unfold without. rewrite map_lookup_filter_Some. cbn.
      rewrite list_elem_of_singleton. destruct (decide (k = utxo_key u)) as [->|Hne]; [rewrite Hk; naive_solver|].
      rewrite lookup_insert_ne by done. naive_solver. }
    assert (Hx : key_image_index w = unindexed [utxo_key u] (key_image_index (add_utxo w u))).
    { apply map_eq. intros ki. apply option_eq. intros k. unfold unindexed. rewrite map_lookup_filter_Some. cbn.
      rewrite list_elem_of_singleton. destruct (decide (ki = key_image u)) as [->|Hne].
      - rewrite lookup_insert_eq, Hi. naive_solver.
      - rewrite lookup_insert_ne by done. split; [|tauto]. intros H. split; [done|]. intros ->.
        apply (wf_index w Hw) in H as (v & ? & ?). congruence. }
    rewrite Hu, Hx, <- E1, <- E2. split; apply map_eq; intros ?; apply option_eq; intros ?; unfold without, unindexed;
      rewrite !map_lookup_filter_Some; cbn; rewrite elem_of_cons, list_elem_of_singleton; tauto.
Qed.

(** ** Spends *)

(** The key images that the loop over a block's images records. *)
Fixpoint new_spends (w : Balance) (kis : list Z) : list Z :=
  match kis with
  | [] => []
  | ki :: kis =>
      match lookup_by_key_image w ki with
      | Some _ => ki :: new_spends (mark_spent_by_key_image w ki) kis
      | None => new_spends (mark_spent_by_key_image w ki) kis
      end
  end.

Lemma lookup_image_at w ki k : wf w ->
  lookup_by_key_image w ki = Some k <-> exists u, utxos w !! k = Some u /\ key_image u = ki /\ spent u = false.
Proof.
  intros Hw. unfold lookup_by_key_image. split.
  - intros H. destruct (key_image_index w !! ki) as [k'|] eqn:Ei; [|done]. cbn [mbind option_bind] in H.
    apply (wf_index _ Hw) in Ei as (u & Hu & Hi). rewrite Hu in H. destruct (spent u) eqn:Es; [done|]. injection H as ->. eauto.
  - intros (u & Hu & Hi & Es). assert (key_image_index w !! ki = Some k) as -> by (apply (wf_index _ Hw); eauto).
    cbn [mbind option_bind]. by rewrite Hu, Es.
Qed.

Lemma lookup_image w ki : wf w ->
  is_Some (lookup_by_key_image w ki) <-> exists k u, utxos w !! k = Some u /\ key_image u = ki /\ spent u = false.
Proof.
  intros Hw. split; [intros [k H%lookup_image_at]|intros (k & H); exists k; apply lookup_image_at]; eauto.
Qed.

(** A recorded image is one of the block's that belongs to an output unspent before. *)
Lemma new_spends_spec kis : forall w ki, wf w ->
  ki ∈ new_spends w kis <-> ki ∈ kis /\ exists k u, utxos w !! k = Some u /\ key_image u = ki /\ spent u = false.
Proof.
  induction kis as [|x kis IH]; intros w ki Hw; cbn [new_spends]; [rewrite !elem_of_nil; tauto|].
  pose proof (mark_core w x Hw) as Hc. pose proof (core_flag_wf _ _ _ _ Hw Hc) as Hw'. injection Hc as Hu _.
  specialize (IH _ ki Hw'). rewrite Hu in IH. setoid_rewrite flag_lookup in IH. pose proof (lookup_image w x Hw) as Hl.
  assert (Hrest : (exists k u, (exists v, utxos w !! k = Some v
      /\ u = if bool_decide (key_image v ∈ [x]) then set_spent true v else v) /\ key_image u = ki /\ spent u = false)
    <-> ki <> x /\ exists k u, utxos w !! k = Some u /\ key_image u = ki /\ spent u = false).
  { split.
    - intros (k & u & (v & Hv & ->) & Hki & Hs). destruct (bool_decide (key_image v ∈ [x])) eqn:Eb; [done|].
      apply bool_decide_eq_false in Eb. rewrite list_elem_of_singleton in Eb. split; [congruence|eauto].
    - intros (Hne & k & u & Hv & Hki & Hs). exists k, u. split; [|done]. exists u. split; [done|].
      rewrite bool_decide_false; [done|]. rewrite list_elem_of_singleton. congruence. }
  rewrite Hrest in IH. destruct (lookup_by_key_image w x) as [k|] eqn:El.
  - rewrite !elem_of_cons, IH. assert (exists k u, utxos w !! k = Some u /\ key_image u = x /\ spent u = false) by (apply Hl; eauto).
    destruct (decide (ki = x)) as [->|]; tauto.
  - rewrite IH, elem_of_cons. assert (~ exists k u, utxos w !! k = Some u /\ key_image u = x /\ spent u = false)
      by (intros H%Hl; by destruct H). destruct (decide (ki = x)) as [->|]; tauto.
Qed.

Lemma mark_all_core kis w : wf w ->
  core (fold_left mark_spent_by_key_image kis w) = (flag true kis (utxos w), key_image_index w).
Proof.
  revert w. induction kis as [|ki kis IH]; intros w Hw; cbn [fold_left]; [by rewrite flag_nil|].
  pose proof (mark_core w ki Hw) as Hc. rewrite IH by (by eapply core_flag_wf). unfold core in Hc. injection Hc as -> ->.
  by rewrite flag_cons.
Qed.

(** ** One block and its undoing *)

Definition with_spends (d : BlockApplyDiff) (l : list Z) : BlockApplyDiff :=
  mkDiff (d_height d) (block_hash d) (prev_block_hash d) (outputs_added d) (key_images_marked_spent d ++ l).

Definition unmark_all (l : list Z) (w : Balance) : Balance :=
  fold_left (fun w ki => fst (unmark_spent_by_key_image w ki)) l w.

Lemma spend_loop kis : forall w s J d, journal s = J ++ [d] ->
  fold_left spend_one kis (w, s)
  = (fold_left mark_spent_by_key_image kis w,
     mkScanner (last_height s) (last_hash s) (J ++ [with_spends d (new_spends w kis)]) (journal_max s)).
Proof.
  induction kis as [|ki kis IH]; intros w s J d HJ; cbn [fold_left new_spends].
  - destruct s, d; cbn in *. unfold with_spends. cbn. by rewrite app_nil_r, HJ.
  - unfold spend_one at 2. destruct (lookup_by_key_image w ki) as [k|].
    + unfold record_spend_for_last_block. rewrite HJ, last_snoc, removelast_last.
      rewrite (IH _ _ J (add_spend ki d)) by done. cbn [fst last_height last_hash journal_max]. do 4 f_equal.
      unfold with_spends, add_spend. cbn. by rewrite <- app_assoc.
    + by apply IH.
Qed.

Section Runs.
Context (blake3 : list Z -> Z) (found : Types.Block -> list UTXO).
Abbreviation scan_one := (scan_one blake3 found) (only parsing).
Abbreviation scan_run := (scan_run blake3 found) (only parsing).

(** The journal entry of a block scanned over the balance [w]. *)
Definition diff_of (w : Balance) (b : Types.Block) : BlockApplyDiff :=
  mkDiff (Types.block_height b) (Types.block_hash blake3 b) (Types.prev_hash (Types.header b))
    (map utxo_key (found b)) (new_spends (fold_left add_utxo (found b) w) (block_images b)).

(** The balance after a block. *)
Definition after (w : Balance) (b : Types.Block) : Balance :=
  fold_left mark_spent_by_key_image (block_images b) (fold_left add_utxo (found b) w).

Lemma scan_one_some w s b w' s' : (0 < journal_max s)%nat -> scan_one (w, s) b = Some (w', s') ->
  w' = after w b /\ last_height s' = Types.block_height b /\ last_hash s' = Types.block_hash blake3 b
  /\ journal_max s' = journal_max s
  /\ journal s' = drop (S (length (journal s)) - journal_max s) (journal s) ++ [diff_of w b]
  /\ (forall e, list.last (journal s) = Some e -> d_height e < Types.block_height b).
Proof.
  intros Hmax H. unfold Wallet.scan_one, scan_block_with_result in H.
  assert (Hlt : forall e, list.last (journal s) = Some e -> d_height e < Types.block_height b).
  { intros e He. rewrite He in H. destruct (_ && _); [done|]. destruct (Z.leb_spec (Types.block_height b) (d_height e)); [done|lia]. }
  destruct (match list.last (journal s) with Some _ => _ | None => _ end); [done|]. cbn [journal journal_max] in H.
  unfold record_journal_entry in H. cbn [d_height last_height] in H. rewrite Z.ltb_irrefl in H. cbn [journal journal_max block_hash] in H.
  rewrite length_app, Nat.add_1_r in H. cbn [length] in H.
  rewrite drop_app_le in H by lia.
  rewrite (spend_loop _ _ _ (drop (S (length (journal s)) - journal_max s) (journal s))
    (mkDiff (Types.block_height b) (Types.block_hash blake3 b) (Types.prev_hash (Types.header b)) (map utxo_key (found b)) [])) in H by done.
  injection H as <- <-. cbn [last_height last_hash journal journal_max]. done.
Qed.

(** Removing the block's outputs and clearing its recorded spends restores the balance. *)
Lemma undo_block w b : wf w -> fresh w (found b) ->
  core (unmark_all (key_images_marked_spent (diff_of w b)) (fst (remove_outputs (after w b) (outputs_added (diff_of w b)))))
    = core w /\ wf (after w b).
Proof.
  intros Hw Hf. unfold diff_of, after, unmark_all. cbn [outputs_added key_images_marked_spent].
  set (w1 := fold_left add_utxo (found b) w). set (S := new_spends w1 (block_images b)).
  destruct (adds_core (found b) w Hw Hf) as (Hw1 & Eu & Ei). fold w1 in Hw1, Eu, Ei.
  pose proof (mark_all_core (block_images b) w1 Hw1) as Hm. pose proof (core_flag_wf _ _ _ _ Hw1 Hm) as Hw2.
  set (w2 := fold_left mark_spent_by_key_image (block_images b) w1) in *. split; [|done].
  pose proof (remove_outputs_core (map utxo_key (found b)) w2 Hw2) as Hr. pose proof (without_wf _ _ _ Hw2 Hr) as Hw3.
  rewrite unmark_all_core by done. unfold core in Hr, Hm. injection Hr as -> ->. injection Hm as -> ->.
  rewrite Ei, <- flag_without, Eu. unfold core. f_equal. apply map_eq. intros k. unfold flag, mark_in. rewrite !lookup_fmap.
  destruct (utxos w !! k) as [u|] eqn:Hu; [|done]. cbn. f_equal.
  assert (Hu1 : utxos w1 !! k = Some u).
  { rewrite <- Eu in Hu. unfold without in Hu. by apply map_lookup_filter_Some in Hu as [? _]. }
  assert (HS : key_image u ∈ S <-> key_image u ∈ block_images b /\ spent u = false).
  { subst S. rewrite new_spends_spec by done. split.
    - intros (Hin & k' & v & Hv & Ek & Hs). split; [done|]. assert (k' = k) as ->; [|congruence].
      assert (key_image_index w1 !! key_image u = Some k') by (apply (wf_index _ Hw1); eauto).
      assert (key_image_index w1 !! key_image u = Some k) by (apply (wf_index _ Hw1); eauto). congruence.
    - intros [? ?]. split; [done|]. eauto. }
  destruct (bool_decide (key_image u ∈ block_images b)) eqn:Eb.
  - apply bool_decide_eq_true in Eb. cbn [key_image set_spent]. destruct (spent u) eqn:Es.
    + rewrite bool_decide_false by (intros [_ ?]%HS; done). rewrite <- Es. by rewrite set_spent_id.
    + rewrite bool_decide_true by (by apply HS). rewrite <- (set_spent_id u) at 2. by rewrite Es.
  - apply bool_decide_eq_false in Eb. by rewrite bool_decide_false by (intros [? _]%HS; done).
Qed.

(** ** A run and its undoing *)

(** The undoing of journal entries, newest first, on the outputs and the index. *)
Definition undone (ds : list BlockApplyDiff) (c : gmap (Z * Z) UTXO * gmap Z (Z * Z)) : gmap (Z * Z) UTXO * gmap Z (Z * Z) :=
  (flag false (flat_map key_images_marked_spent ds) (without (flat_map outputs_added ds) c.1),
   unindexed (flat_map outputs_added ds) c.2).

Lemma undone_cons d ds c : undone ds (undone [d] c) = undone (d :: ds) c.
Proof.
  unfold undone. cbn [flat_map fst snd]. rewrite !app_nil_r. f_equal.
  - by rewrite <- flag_without, flag_app, without_app.
  - apply map_eq. intros k. apply option_eq. intros u. unfold unindexed. rewrite !map_lookup_filter_Some. cbn.
    rewrite elem_of_app. tauto.
Qed.

Lemma undone_core ds w : wf w ->
  core (unmark_all (flat_map key_images_marked_spent ds) (fst (remove_outputs w (flat_map outputs_added ds)))) = undone ds (core w).
Proof.
  intros Hw. pose proof (remove_outputs_core (flat_map outputs_added ds) w Hw) as Hr.
  unfold unmark_all. rewrite unmark_all_core by (by eapply without_wf). unfold core in Hr. injection Hr as -> ->. done.
Qed.

Lemma undone_block w b : wf w -> fresh w (found b) -> undone [diff_of w b] (core (after w b)) = core w.
Proof.
  intros Hw Hf. destruct (undo_block w b Hw Hf) as [Hu Hw']. rewrite <- Hu. symmetry.
  pose proof (undone_core [diff_of w b] (after w b) Hw') as H. cbn [flat_map] in H. by rewrite !app_nil_r in H.
Qed.

(** What a block adds to the keys and the images. *)
Lemma adds_domain outs w : forall k ki,
  (is_Some (utxos (fold_left add_utxo outs w) !! k) <-> is_Some (utxos w !! k) \/ k ∈ map utxo_key outs)
  /\ (is_Some (key_image_index (fold_left add_utxo outs w) !! ki) <-> is_Some (key_image_index w !! ki) \/ ki ∈ map key_image outs).
Proof.
  revert w. induction outs as [|u outs IH]; intros w k ki; cbn [fold_left map]; [rewrite !elem_of_nil; tauto|].
  destruct (IH (add_utxo w u) k ki) as [-> ->]. cbn [add_utxo utxos key_image_index]. rewrite !elem_of_cons. split.
  - destruct (decide (k = utxo_key u)) as [->|Hne]; [rewrite lookup_insert_eq|rewrite lookup_insert_ne by done];
      unfold is_Some; naive_solver.
  - destruct (decide (ki = key_image u)) as [->|Hne]; [rewrite lookup_insert_eq|rewrite lookup_insert_ne by done];
      unfold is_Some; naive_solver.
Qed.

Lemma after_domain w b : wf w -> fresh w (found b) -> forall k ki,
  (is_Some (utxos (after w b) !! k) <-> is_Some (utxos w !! k) \/ k ∈ map utxo_key (found b))
  /\ (is_Some (key_image_index (after w b) !! ki) <-> is_Some (key_image_index w !! ki) \/ ki ∈ map key_image (found b)).
Proof.
  intros Hw Hf k ki. destruct (adds_core (found b) w Hw Hf) as (Hw1 & _). pose proof (mark_all_core (block_images b) _ Hw1) as Hm.
  fold (after w b) in Hm. unfold core in Hm. injection Hm as -> ->. destruct (adds_domain (found b) w k ki) as [<- <-].
  split; [|done]. unfold flag. by rewrite lookup_fmap, fmap_is_Some.
Qed.

Lemma fresh_run w b outs : wf w -> fresh w (found b ++ outs) -> fresh w (found b) /\ fresh (after w b) outs.
Proof.
  intros Hw (H1 & H2 & H3). rewrite map_app in H1, H2. apply list.NoDup_app in H1 as (H1 & D1 & H1'), H2 as (H2 & D2 & H2').
  assert (Hf : fresh w (found b)). { split; [done|]. split; [done|]. intros u Hu. apply H3, elem_of_app. by left. }
  split; [done|]. split; [done|]. split; [done|]. intros u Hu.
  destruct (H3 u) as [Hk Hi]; [apply elem_of_app; by right|].
  destruct (after_domain w b Hw Hf (utxo_key u) (key_image u)) as [Dk Di].
  split; apply eq_None_not_Some; [intros [Hs|Hs]%Dk|intros [Hs|Hs]%Di].
  - rewrite Hk in Hs. by apply is_Some_None in Hs.
  - apply (D1 _ Hs), list_elem_of_fmap. eauto.
  - rewrite Hi in Hs. by apply is_Some_None in Hs.
  - apply (D2 _ Hs), list_elem_of_fmap. eauto.
Qed.

(** The scanner stands at the newest entry of its journal. *)
Record scanner_ok (s : WalletScanner) : Prop := {
  so_max : (length (journal s) <= journal_max s)%nat;
  so_below d : d ∈ journal s -> d_height d <= last_height s;
  so_last : exists e, list.last (journal s) = Some e /\ d_height e = last_height s /\ block_hash e = last_hash s }.

Lemma scan_one_ok w s b w' s' : scanner_ok s -> scan_one (w, s) b = Some (w', s') ->
  scanner_ok s' /\ last_height s < last_height s'.
Proof.
  intros [Hm Hb (e & He & Hh & _)] H.
  assert (0 < journal_max s)%nat by (destruct (journal s); [done|cbn in Hm; lia]).
  apply scan_one_some in H as (_ & Eh & Ex & Em & Ej & Hlt); [|done]. specialize (Hlt e He). rewrite Eh. split; [|lia].
  split; rewrite ?Ej, ?Em, ?Eh, ?Ex.
  - rewrite length_app, length_drop. cbn [length]. lia.
  - intros d [Hd | ->%list_elem_of_singleton]%elem_of_app; [|done].
    assert (d_height d <= last_height s); [|lia]. apply Hb. by apply (elem_of_suffix _ _ _ Hd), suffix_drop.
  - exists (diff_of w b). by rewrite last_snoc.
Qed.

Lemma scan_run_none l : fold_left (fun o b => st ← o; scan_one st b) l None = None.
Proof. induction l; cbn [fold_left]; [done|]. done. Qed.

(** A run appends one entry per block, trimmed to the journal's length, and undoing the
    entries restores the outputs and the index. *)
Lemma run_undone Q : forall w s w' s', wf w -> fresh w (flat_map found Q) -> scanner_ok s -> scan_run (w, s) Q = Some (w', s') ->
  exists ds, length ds = length Q
  /\ journal s' = drop (length (journal s) + length ds - journal_max s) (journal s ++ ds)
  /\ (forall d, d ∈ ds -> last_height s < d_height d)
  /\ undone (rev ds) (core w') = core w /\ wf w' /\ last_height s <= last_height s' /\ journal_max s' = journal_max s.
Proof.
  induction Q as [|b Q IH]; intros w s w' s' Hw Hf Hs H; cbn [Wallet.scan_run fold_left] in H.
  - injection H as <- <-. exists []. cbn [length rev]. split_and!; [done| | | |done|lia|done].
    + rewrite app_nil_r. pose proof (so_max s Hs). replace (length (journal s) + 0 - journal_max s)%nat with 0%nat by lia. done.
    + by intros d ?%elem_of_nil.
    + unfold undone. cbn [flat_map]. rewrite flag_nil. unfold core. cbn [fst snd].
      f_equal; apply map_filter_id; intros; apply not_elem_of_nil.
  - cbn [mbind option_bind] in H. destruct (scan_one (w, s) b) as [[w1 s1]|] eqn:E1; [|by rewrite scan_run_none in H].
    cbn [flat_map] in Hf. apply fresh_run in Hf as [Hfb Hf]; [|done].
    destruct (scan_one_ok _ _ _ _ _ Hs E1) as [Hs1 Hlt].
    assert (0 < journal_max s)%nat.
    { destruct (so_last s Hs) as (e & He & _). pose proof (so_max s Hs). destruct (journal s); [done|cbn in *; lia]. }
    apply scan_one_some in E1 as (-> & Eh & Ex & Em & Ej & _); [|done].
    destruct (undo_block w b Hw Hfb) as [_ Hw1]. destruct (IH _ _ _ _ Hw1 Hf Hs1 H) as (ds & Hl & Hj & Hd & Hu & Hw' & Hle & Hm).
    exists (diff_of w b :: ds). cbn [length]. split_and!; [lia| | | |done|lia|congruence].
    + rewrite Hj, Ej, Em, <- app_assoc. cbn [app]. rewrite length_app, length_drop. cbn [length].
      rewrite <- drop_app_le by (pose proof (so_max s Hs); lia). rewrite drop_drop. f_equal. pose proof (so_max s Hs). lia.
    + intros d [-> | Hin]%elem_of_cons; [cbn; lia|]. specialize (Hd d Hin). lia.
    + cbn [rev]. assert (Happ : forall l c, undone (l ++ [diff_of w b]) c = undone [diff_of w b] (undone l c)).
      { induction l as [|x l IHl]; intros c; cbn [app]; [|by rewrite <- undone_cons, IHl, undone_cons].
        unfold undone at 3. cbn [flat_map]. rewrite flag_nil. unfold without, unindexed. cbn [fst snd].
        rewrite !map_filter_id by (intros; apply not_elem_of_nil). by destruct c. }
      rewrite Happ, Hu. by apply undone_block.
Qed.

Lemma pop_above_all target ds kept o : (forall d, d ∈ ds -> target < d_height d) ->
  (forall d, head kept = Some d -> d_height d <= target) ->
  pop_above target (ds ++ kept) o
  = (kept, mkOutcome (entries_undone o + Z.of_nat (length ds)) (outputs_to_remove o ++ flat_map outputs_added ds)
             (key_images_to_unspend o ++ flat_map key_images_marked_spent ds) (new_height o) (new_hash o)).
Proof.
  revert o. induction ds as [|d ds IH]; intros o Hd Hk; cbn [app flat_map length].
  - rewrite !app_nil_r, Z.add_0_r. destruct o. destruct kept as [|d kept]; [done|]. cbn [pop_above].
    rewrite (proj2 (Z.leb_le _ _)) by (by apply Hk). done.
  - cbn [pop_above]. rewrite (proj2 (Z.leb_gt _ _)) by (apply Hd, list_elem_of_here).
    rewrite IH; [|intros; apply Hd; by right|done]. cbn. rewrite <- !app_assoc. do 2 f_equal. lia.
Qed.

(** A run shorter than the journal leaves an older entry under its own. *)
Lemma run_journal Q w s w' s' : wf w -> fresh w (flat_map found Q) -> scanner_ok s -> (length Q < journal_max s)%nat ->
  scan_run (w, s) Q = Some (w', s') ->
  exists J ds, journal s' = J ++ ds /\ J `suffix_of` journal s /\ J <> [] /\ (forall d, d ∈ ds -> last_height s < d_height d)
  /\ undone (rev ds) (core w') = core w /\ wf w' /\ last_height s <= last_height s' /\ journal_max s' = journal_max s.
Proof.
  intros Hw Hf Hs HQ H. destruct (run_undone Q w s w' s' Hw Hf Hs H) as (ds & Hl & Hj & Hd & Hu & Hw' & Hle & Hm).
  pose proof (so_max s Hs) as Hmax. destruct (so_last s Hs) as (e & He & _).
  assert (Hne : (0 < length (journal s))%nat) by (destruct (journal s); [done|cbn; lia]).
  exists (drop (length (journal s) + length ds - journal_max s) (journal s)), ds. split_and!; try done.
  - rewrite Hj. apply drop_app_le. lia.
  - apply suffix_drop.
  - intros Hn. apply (f_equal length) in Hn. rewrite length_drop in Hn. cbn in Hn. lia.
Qed.

Lemma suffix_last {A} (J L : list A) : J `suffix_of` L -> J <> [] -> list.last J = list.last L.
Proof. intros [K ->] Hne. destruct J as [|x J] using rev_ind; [done|]. by rewrite app_assoc, !last_snoc. Qed.

Lemma recover_run Q w s w' s' : wf w -> fresh w (flat_map found Q) -> scanner_ok s -> (length Q < journal_max s)%nat ->
  scan_run (w, s) Q = Some (w', s') ->
  exists w'' s'', recover (w', s') (last_height s) = Ok (w'', s'')
  /\ core w'' = core w /\ last_height s'' = last_height s /\ last_hash s'' = last_hash s
  /\ journal_max s'' = journal_max s /\ journal s'' `suffix_of` journal s /\ journal s'' <> [].
Proof.
  intros Hw Hf Hs HQ H. destruct (run_journal Q w s w' s' Hw Hf Hs HQ H) as (J & ds & Ej & HJ & Hne & Hd & Hu & Hw' & Hle & Hm).
  destruct (so_last s Hs) as (e & He & Eh & Ex). rewrite <- (suffix_last J _ HJ Hne) in He.
  unfold recover, rewind_to_height. rewrite (proj2 (Z.ltb_ge _ _)) by lia. rewrite Ej.
  destruct J as [|f J]; [done|]. cbn [app head].
  rewrite (proj2 (Z.ltb_ge (last_height s) (d_height f))) by (apply (so_below s Hs), (elem_of_suffix _ _ _ (list_elem_of_here f J)), HJ).
  cbn [andb]. change (f :: J ++ ds) with ((f :: J) ++ ds). rewrite rev_app_distr.
  assert (Hrev : exists r, rev (f :: J) = e :: r).
  { destruct (f :: J) as [|x J'] using rev_ind; [done|]. rewrite last_snoc in He. injection He as ->.
    rewrite rev_app_distr. by eexists. }
  destruct Hrev as [r Hr]. rewrite pop_above_all.
  2: { intros d Hin. apply Hd. apply list_elem_of_In, in_rev. by apply list_elem_of_In. }
  2: { rewrite Hr. intros d [= <-]. lia. }
  rewrite Hr. cbn [entries_undone outputs_to_remove key_images_to_unspend new_height new_hash app].
  eexists _, _. split; [reflexivity|]. cbn [last_height last_hash journal journal_max]. rewrite <- Hr, rev_involutive.
  split_and!; try done. rewrite <- Hu. by apply undone_core.
Qed.

(** ** Scans depend on the outputs and on the newest journal entry only *)

Definition same_view (x y : Balance * WalletScanner) : Prop :=
  core x.1 = core y.1 /\ list.last (journal x.2) = list.last (journal y.2)
  /\ (0 < journal_max x.2)%nat /\ (0 < journal_max y.2)%nat.

Lemma lookup_core w1 w2 ki : core w1 = core w2 -> lookup_by_key_image w1 ki = lookup_by_key_image w2 ki.
Proof. unfold core, lookup_by_key_image. intros [= -> ->]. done. Qed.

Lemma add_core w1 w2 outs : core w1 = core w2 -> core (fold_left add_utxo outs w1) = core (fold_left add_utxo outs w2).
Proof.
  revert w1 w2. induction outs as [|u outs IH]; intros w1 w2 Hc; [done|]. apply IH. unfold core, add_utxo in *. cbn.
  injection Hc as -> ->. done.
Qed.

Lemma mark_view w1 w2 ki : core w1 = core w2 -> core (mark_spent_by_key_image w1 ki) = core (mark_spent_by_key_image w2 ki).
Proof.
  intros Hc. unfold mark_spent_by_key_image. rewrite (lookup_core w1 w2 ki Hc). destruct (lookup_by_key_image w2 ki); [|done].
  unfold core, mark_spent in *. cbn. injection Hc as -> ->. done.
Qed.

Lemma marks_view kis : forall w1 w2, core w1 = core w2 ->
  core (fold_left mark_spent_by_key_image kis w1) = core (fold_left mark_spent_by_key_image kis w2)
  /\ new_spends w1 kis = new_spends w2 kis.
Proof.
  induction kis as [|ki kis IH]; intros w1 w2 Hc; [done|]. cbn [fold_left new_spends].
  destruct (IH _ _ (mark_view w1 w2 ki Hc)) as [-> ->]. by rewrite (lookup_core w1 w2 ki Hc).
Qed.

Lemma diff_view w1 w2 b : core w1 = core w2 -> diff_of w1 b = diff_of w2 b /\ core (after w1 b) = core (after w2 b).
Proof.
  intros Hc. destruct (marks_view (block_images b) _ _ (add_core w1 w2 (found b) Hc)) as [E1 E2].
  split; [|done]. unfold diff_of. by rewrite E2.
Qed.

(** Whether the scanner accepts a block is decided by the newest entry. *)
Lemma scan_one_accepts x y b : list.last (journal x.2) = list.last (journal y.2) ->
  is_Some (scan_one x b) -> is_Some (scan_one y b).
Proof.
  destruct x as [w1 s1], y as [w2 s2]. cbn [snd]. intros Hl. unfold Wallet.scan_one, scan_block_with_result. rewrite Hl.
  destruct (match list.last (journal s2) with Some _ => _ | None => _ end); [|done]. by intros [? [=]].
Qed.

Lemma scan_one_view x y b x' : same_view x y -> scan_one x b = Some x' ->
  exists y', scan_one y b = Some y' /\ same_view x' y'.
Proof.
  intros (Hc & Hl & Hx & Hy) H. destruct (scan_one_accepts x y b Hl) as [y' Hy']; [by eexists|].
  exists y'. split; [done|]. destruct x as [w1 s1], y as [w2 s2], x' as [w1' s1'], y' as [w2' s2']. cbn [fst snd] in *.
  apply scan_one_some in H as (-> & _ & _ & E1 & J1 & _); [|done]. apply scan_one_some in Hy' as (-> & _ & _ & E2 & J2 & _); [|done].
  destruct (diff_view w1 w2 b Hc) as [Ed Ea]. unfold same_view. cbn [fst snd]. rewrite E1, E2, J1, J2, !last_snoc, Ed. done.
Qed.

Lemma scan_run_view Q : forall x y x', same_view x y -> scan_run x Q = Some x' ->
  exists y', scan_run y Q = Some y' /\ same_view x' y'.
Proof.
  induction Q as [|b Q IH]; intros x y x' Hv H; [injection H as <-; by exists y|].
  unfold Wallet.scan_run in *. cbn [fold_left mbind option_bind] in *.
  destruct (scan_one x b) as [x1|] eqn:E; [|by rewrite scan_run_none in H].
  destruct (scan_one_view x y b x1 Hv E) as (y1 & -> & Hv1). by apply (IH x1 y1 x').
Qed.

(** ** What a scan leaves alone *)

(** The output at [k] is the only one that the index sends to [k]. *)
Definition sole_image (w : Balance) (k : Z * Z) (ki : Z) : Prop := forall x, key_image_index w !! x = Some k <-> x = ki.

Lemma wf_sole w k u : wf w -> utxos w !! k = Some u -> sole_image w k (key_image u).
Proof.
  intros Hw Hu x. rewrite (wf_index _ Hw). split; [intros (v & Hv & <-); congruence|]. intros ->. eauto.
Qed.

Lemma adds_keep outs k ki : forall w, sole_image w k ki -> (forall o, o ∈ outs -> utxo_key o <> k /\ key_image o <> ki) ->
  sole_image (fold_left add_utxo outs w) k ki /\ utxos (fold_left add_utxo outs w) !! k = utxos w !! k.
Proof.
  induction outs as [|o outs IH]; intros w Hs Ho; [done|]. cbn [fold_left].
  destruct (Ho o (list_elem_of_here _ _)) as [Hk Hi]. destruct (IH (add_utxo w o)) as [H1 H2].
  - intros x. cbn [add_utxo key_image_index]. destruct (decide (x = key_image o)) as [->|Hne].
    + rewrite lookup_insert_eq. split; congruence.
    + rewrite lookup_insert_ne by done. apply Hs.
  - intros o' Ho'. apply Ho. by right.
  - split; [done|]. rewrite H2. cbn [add_utxo utxos]. by rewrite lookup_insert_ne.
Qed.

Lemma adds_put outs o w : sole_image w (utxo_key o) (key_image o) -> o ∈ outs ->
  NoDup (map utxo_key outs) -> NoDup (map key_image outs) ->
  sole_image (fold_left add_utxo outs w) (utxo_key o) (key_image o) /\ utxos (fold_left add_utxo outs w) !! utxo_key o = Some o.
Proof.
  intros Hs (l1 & l2 & ->)%list_elem_of_split H1 H2. rewrite map_app in H1, H2. cbn [map] in H1, H2.
  apply list.NoDup_app in H1 as (_ & D1 & H1), H2 as (_ & D2 & H2). apply list.NoDup_cons in H1 as [N1 _], H2 as [N2 _].
  rewrite fold_left_app. cbn [fold_left].
  destruct (adds_keep l1 (utxo_key o) (key_image o) w Hs) as [Hs1 _].
  { intros o' Ho'. split; intros He.
    - apply (D1 (utxo_key o')); [apply list_elem_of_fmap; eauto|rewrite He; apply list_elem_of_here].
    - apply (D2 (key_image o')); [apply list_elem_of_fmap; eauto|rewrite He; apply list_elem_of_here]. }
  set (w1 := fold_left add_utxo l1 w) in *.
  destruct (adds_keep l2 (utxo_key o) (key_image o) (add_utxo w1 o)) as [Hs2 Hu2].
  - intros x. cbn [add_utxo key_image_index].
    destruct (decide (x = key_image o)) as [->|Hne]; [by rewrite lookup_insert_eq|rewrite lookup_insert_ne by done; apply Hs1].
  - intros o' Ho'. split; intros He.
    + apply N1, list_elem_of_fmap. eauto.
    + apply N2, list_elem_of_fmap. eauto.
  - split; [done|]. rewrite Hu2. cbn [add_utxo utxos]. by rewrite lookup_insert_eq.
Qed.

Lemma mark_keep w k u ki : sole_image w k (key_image u) -> utxos w !! k = Some u ->
  sole_image (mark_spent_by_key_image w ki) k (key_image u)
  /\ utxos (mark_spent_by_key_image w ki) !! k = Some (mark_in true [ki] u).
Proof.
  intros Hs Hu. unfold mark_spent_by_key_image, lookup_by_key_image, mark_in.
  destruct (key_image_index w !! ki) as [k'|] eqn:Ei; cbn [mbind option_bind].
  - destruct (decide (k' = k)) as [->|Hne].
    + apply Hs in Ei as ->. rewrite Hu, bool_decide_true by apply list_elem_of_here. destruct (spent u) eqn:Es.
      * split; [done|]. by rewrite Hu, <- Es, set_spent_id.
      * split; [done|]. cbn [mark_spent utxos]. by rewrite lookup_alter_eq, Hu.
    + rewrite bool_decide_false.
      2: { rewrite list_elem_of_singleton. intros He. assert (key_image_index w !! key_image u = Some k) by (by apply Hs). congruence. }
      destruct (utxos w !! k') as [v|]; [|done]. destruct (spent v); [done|]. split; [done|].
      cbn [mark_spent utxos]. by rewrite lookup_alter_ne.
  - rewrite bool_decide_false; [done|]. rewrite list_elem_of_singleton. intros He.
    assert (key_image_index w !! key_image u = Some k) by (by apply Hs). congruence.
Qed.

Lemma marks_keep kis k : forall w u, sole_image w k (key_image u) -> utxos w !! k = Some u ->
  sole_image (fold_left mark_spent_by_key_image kis w) k (key_image u)
  /\ utxos (fold_left mark_spent_by_key_image kis w) !! k = Some (mark_in true kis u).
Proof.
  induction kis as [|ki kis IH]; intros w u Hs Hu; [done|]. cbn [fold_left].
  destruct (mark_keep w k u ki Hs Hu) as [Hs' Hu']. rewrite <- mark_in_cons, <- (mark_in_image true [ki] u) in *.
  by apply IH.
Qed.

Lemma run_keeps Q k : forall w s w' s' u, (0 < journal_max s)%nat -> scan_run (w, s) Q = Some (w', s') ->
  sole_image w k (key_image u) -> utxos w !! k = Some u ->
  (forall o, o ∈ flat_map found Q -> utxo_key o <> k /\ key_image o <> key_image u) ->
  utxos w' !! k = Some (mark_in true (flat_map block_images Q) u).
Proof.
  induction Q as [|b Q IH]; intros w s w' s' u Hm H Hs Hu Ho; [by injection H as <- <-|].
  unfold Wallet.scan_run in *. cbn [fold_left mbind option_bind] in H.
  destruct (scan_one (w, s) b) as [[w1 s1]|] eqn:E; [|by rewrite scan_run_none in H].
  apply scan_one_some in E as (-> & _ & _ & Em & _); [|done]. cbn [flat_map] in *.
  destruct (adds_keep (found b) k (key_image u) w Hs) as [Hs1 Hu1]; [intros o Hin; apply Ho, elem_of_app; by left|].
  rewrite Hu in Hu1. destruct (marks_keep (block_images b) k _ u Hs1 Hu1) as [Hs2 Hu2].
  rewrite <- mark_in_app. eapply IH; [by rewrite Em|exact H| |exact Hu2|]; rewrite mark_in_image; [done|].
  intros o Hin. apply Ho, elem_of_app. by right.
Qed.

(** C21: a wallet that has scanned a branch and learns from the node that the branch was
    orphaned ends up as if it had never seen it.  From a well-formed balance and a scanner
    that stands at its newest journal entry, let the loop scan the blocks [Q] (fewer than
    the journal holds, each output new to the wallet).  Then the recovery at the old height
    succeeds, gives back exactly the old outputs, spent flags and key-image index and the
    old position, and whatever branch [P] the wallet could have scanned instead it now
    scans without a reorganisation and to the same outputs, flags and index. *)
Theorem reorg_recovery_exact w s Q w' s' : wf w -> fresh w (flat_map found Q) -> scanner_ok s ->
  (length Q < journal_max s)%nat -> scan_run (w, s) Q = Some (w', s') ->
  exists w'' s'', recover (w', s') (last_height s) = Ok (w'', s'')
  /\ core w'' = core w /\ last_height s'' = last_height s /\ last_hash s'' = last_hash s
  /\ (forall P r, scan_run (w, s) P = Some r ->
       exists r', scan_run (w'', s'') P = Some r' /\ core r'.1 = core r.1 /\ list.last (journal r'.2) = list.last (journal r.2)).
Proof.
  intros Hw Hf Hs HQ H. destruct (recover_run Q w s w' s' Hw Hf Hs HQ H) as (w'' & s'' & Hr & Hc & Hh & Hx & Hm & HJ & Hne).
  exists w'', s''. split_and!; try done. intros P r HP.
  destruct (scan_run_view P (w, s) (w'', s'') r) as (r' & Hr' & Ec & El & _); [|done|by exists r'].
  unfold same_view. cbn [fst snd]. rewrite Hc, (suffix_last _ _ HJ Hne), Hm. split_and!; try done; lia.
Qed.

(** a scan session that starts with a new scanner cannot see a reorganisation that
    happened before it: its first block is accepted whatever its parent is, and every output
    the session does not find again keeps its place in the balance, its spent flag set when
    the session sees its key image and otherwise left as it was.  An output of an orphaned
    block stays spendable and an output spent only by an orphaned block stays spent. *)
Theorem new_session_blind_to_reorg w b Q k u : wf w -> utxos w !! k = Some u ->
  (forall o, o ∈ flat_map found (b :: Q) -> utxo_key o <> k /\ key_image o <> key_image u) ->
  is_Some (scan_one (w, new_scanner) b)
  /\ forall w' s', scan_run (w, new_scanner) (b :: Q) = Some (w', s') ->
      utxos w' !! k = Some (mark_in true (flat_map block_images (b :: Q)) u).
Proof.
  intros Hw Hu Ho. split; [by eexists|]. intros w' s' H.
  apply (run_keeps (b :: Q) k w new_scanner w' s' u); try done; [|by apply wf_sole]. unfold new_scanner, JOURNAL_MAX_DEFAULT. cbn [journal_max]. lia.
Qed.

(** scanning a block again is not idempotent: an output of the block that the wallet
    already holds is put back with the flag it is found with, unspent, unless the same block
    spends it.  The mark left by a transaction the wallet has submitted and no block has
    confirmed is lost, and the key image is offered for spending again. *)
Theorem rescan_reopens_spend w s b w' s' o v : wf w -> (0 < journal_max s)%nat -> scan_one (w, s) b = Some (w', s') ->
  utxos w !! utxo_key o = Some v -> key_image v = key_image o ->
  o ∈ found b -> NoDup (map utxo_key (found b)) -> NoDup (map key_image (found b)) ->
  spent o = false -> key_image o ∉ block_images b ->
  utxos w' !! utxo_key o = Some o /\ lookup_by_key_image w' (key_image o) = Some (utxo_key o).
Proof.
  intros Hw Hm H Hv Hi Hin Hn1 Hn2 Ho Hb. apply scan_one_some in H as (-> & _); [|done]. unfold after.
  assert (Hs : sole_image (fold_left add_utxo (found b) w) (utxo_key o) (key_image o)
               /\ utxos (fold_left add_utxo (found b) w) !! utxo_key o = Some o).
  { apply adds_put; [|done..]. rewrite <- Hi. by apply wf_sole. }
  destruct Hs as [Hs Hu]. destruct (marks_keep (block_images b) _ _ o Hs Hu) as [Hs' Hu'].
  unfold mark_in in Hu'. rewrite bool_decide_false in Hu' by done. split; [done|].
  unfold lookup_by_key_image. rewrite (proj2 (Hs' _) eq_refl). cbn [mbind option_bind]. by rewrite Hu', Ho.
Qed.
End Runs.

(** ** Reservations *)

Lemma reserve_all_lookup (keys : list (Z * Z)) (r0 : Reservation) (m : gmap (Z * Z) Reservation) (k : Z * Z) :
  fold_left (fun m k => <[k := r0]> m) keys m !! k = if bool_decide (k ∈ keys) then Some r0 else m !! k.
Proof.
  revert m. induction keys as [|k' keys IH]; intros m; cbn [fold_left].
  - by rewrite bool_decide_false by apply not_elem_of_nil.
  - rewrite IH. destruct (decide (k = k')) as [->|Hne].
    + rewrite (bool_decide_true (k' ∈ k' :: keys)) by apply list_elem_of_here. rewrite lookup_insert_eq. by destruct (bool_decide _).
    + rewrite lookup_insert_ne by done. erewrite bool_decide_ext; [done|]. rewrite elem_of_cons. tauto.
Qed.

Lemma is_reserved_mono w k h h' : h <= h' -> is_reserved w k h = false -> is_reserved w k h' = false.
Proof. unfold is_reserved. destruct (reservations w !! k); [|done]. rewrite !Z.ltb_ge. lia. Qed.

Lemma available_lookup w h m k u : wf w ->
  available_utxos w h m !! k = Some u <->
  utxos w !! k = Some u /\ spent u = false /\ saturating_add u64_max (height u) m <= h
  /\ match lock_height u with Some lh => lh <= h | None => True end /\ is_reserved w k h = false.
Proof.
  intros Hw. unfold available_utxos. rewrite map_lookup_filter_Some. unfold is_available.
  rewrite !andb_true_iff, !negb_true_iff, Z.leb_le. split.
  - intros (Hu & ((Hs & Ha) & Hl) & Hr). rewrite (wf_key _ Hw _ _ Hu) in Hr. split_and!; try done.
    destruct (lock_height u); [by apply Z.leb_le|done].
  - intros (Hu & Hs & Ha & Hl & Hr). rewrite (wf_key _ Hw _ _ Hu). split_and!; try done.
    destruct (lock_height u); [by apply Z.leb_le|done].
Qed.

(** reserving is all or nothing and excludes a second taker.  When some listed output
    is held at the current height the call changes nothing and names such an output with its
    holder; otherwise outputs and index are unchanged, and from the current height on an
    output is offered for spending exactly when it was before and, if it is one of the
    reserved ones, the 300 blocks of the reservation are over; until then any attempt to
    reserve a set that contains one of them is refused. *)
Theorem reservation_protocol w keys tx h : wf w ->
  match reserve_utxos w keys tx h with
  | (w', Err c) => w' = w /\ conflict_key c ∈ keys /\ is_reserved w (conflict_key c) h = true
                   /\ existing c = reservations w !! conflict_key c
  | (w', Ok _) =>
      core w' = core w /\ (forall k, k ∈ keys -> is_reserved w k h = false)
      /\ (forall h' m k u, h <= h' -> available_utxos w' h' m !! k = Some u <->
            available_utxos w h' m !! k = Some u
            /\ (k ∈ keys -> saturating_add u64_max h RESERVATION_EXPIRY_BLOCKS <= h'))
      /\ (forall h' keys' tx' k, h' < saturating_add u64_max h RESERVATION_EXPIRY_BLOCKS -> k ∈ keys -> k ∈ keys' ->
            exists c, reserve_utxos w' keys' tx' h' = (w', Err c))
  end.
Proof.
  intros Hw. unfold reserve_utxos at 1. destruct (List.find _ keys) as [k|] eqn:Ef.
  { apply find_some in Ef as [Hin Hr]. cbn [conflict_key existing]. split_and!; try done. by apply list_elem_of_In. }
  assert (Hfree : forall k, k ∈ keys -> is_reserved w k h = false)
    by (intros k Hk; by apply (find_none _ _ Ef), list_elem_of_In).
  set (w' := set_reservations w _). assert (Hc : core w' = core w) by done.
  assert (Hw' : wf w') by (by apply (core_wf w)).
  assert (Hres : forall k h', is_reserved w' k h' = if bool_decide (k ∈ keys)
      then h' <? saturating_add u64_max h RESERVATION_EXPIRY_BLOCKS else is_reserved w k h').
  { intros k h'. unfold is_reserved at 1, w'. cbn [set_reservations reservations]. rewrite reserve_all_lookup.
    by destruct (bool_decide _). }
  split_and!; try done.
  - intros h' m k u Hh. rewrite !available_lookup by done. rewrite Hres. change (utxos w') with (utxos w).
    destruct (decide (k ∈ keys)) as [Hk|Hk].
    + rewrite bool_decide_true, Z.ltb_ge by done. rewrite (is_reserved_mono w k h h' Hh (Hfree k Hk)). tauto.
    + rewrite bool_decide_false by done. tauto.
  - intros h' keys' tx' k Hh Hk Hk'. unfold reserve_utxos.
    destruct (List.find _ keys') as [k'|] eqn:Ef'; [by eexists|]. exfalso.
    apply list_elem_of_In in Hk'. pose proof (find_none _ _ Ef' k Hk') as Hn. cbn beta in Hn. rewrite Hres in Hn.
    rewrite bool_decide_true, Z.ltb_ge in Hn by done. lia.
Qed.

(** ** Reachable balances *)

Lemma wf_new : wf new.
Proof.
  split; cbn [new key_image_index utxos]; [intros k u; by rewrite lookup_empty|]. intros ki k.
  rewrite lookup_empty. split; [done|]. intros (u & Hu & _). by rewrite lookup_empty in Hu.
Qed.

(** The calls by which the commands change a balance without receiving an output. *)
Inductive wallet_step : Balance -> Balance -> Prop :=
| step_remove w ks : wallet_step w (fst (remove_outputs w ks))
| step_mark w k : wallet_step w (mark_spent w k)
| step_spend w ki : wallet_step w (mark_spent_by_key_image w ki)
| step_unspend w ki : wallet_step w (fst (unmark_spent_by_key_image w ki))
| step_reserve w ks tx h : wallet_step w (fst (reserve_utxos w ks tx h))
| step_release w tx : wallet_step w (fst (release_reservations_by_tx w tx))
| step_expire w h : wallet_step w (fst (release_expired_reservations w h))
| step_restore w l h : wallet_step w (restore_reservations w l h).

(** The balances that the calls produce, with the outputs [A] received so far, newest
    first.  [add_utxo] takes any output, one already stored and one whose key image is
    already indexed included; what is asked of the caller is that an outpoint (a
    transaction hash and a position) names one output, hence one key image. *)
Inductive reachable : list UTXO -> Balance -> Prop :=
| reach_new : reachable [] new
| reach_add A w u : reachable A w -> (forall v, v ∈ A -> utxo_key v = utxo_key u -> key_image v = key_image u) ->
    reachable (u :: A) (add_utxo w u)
| reach_step A w w' : reachable A w -> wallet_step w w' -> reachable A w'.

(** No other received output has the key image of [u]. *)
Definition lone (A : list UTXO) (u : UTXO) : Prop := forall v, v ∈ A -> key_image v = key_image u -> utxo_key v = utxo_key u.

(** What holds of the stored outputs and the index whatever was received: stored outputs
    were received, an index entry names a stored output with that image, and the entry of
    an output that shares its image with no other received one is there. *)
Record indexed (A : list UTXO) (w : Balance) : Prop := {
  ix_key k u : utxos w !! k = Some u -> utxo_key u = k;
  ix_origin k u : utxos w !! k = Some u -> exists v, v ∈ A /\ utxo_key v = k /\ key_image v = key_image u;
  ix_sound ki k : key_image_index w !! ki = Some k -> exists u, utxos w !! k = Some u /\ key_image u = ki;
  ix_lone k u : utxos w !! k = Some u -> lone A u -> key_image_index w !! key_image u = Some k }.

Lemma indexed_new : indexed [] new.
Proof. split; intros ??; cbn [new key_image_index utxos]; rewrite lookup_empty; done. Qed.

Lemma indexed_add A w u : indexed A w -> (forall v, v ∈ A -> utxo_key v = utxo_key u -> key_image v = key_image u) ->
  indexed (u :: A) (add_utxo w u).
Proof.
  intros [Hk Ho Hs Hl] Hu. split; cbn [add_utxo utxos key_image_index].
  - intros k x [[<- <-]|[_ Hx]]%lookup_insert_Some; [done|by apply Hk].
  - intros k x [[<- <-]|[_ Hx]]%lookup_insert_Some; [exists u; split; [apply list_elem_of_here|done]|].
    destruct (Ho k x Hx) as (v & Hv & ?). exists v. split; [by apply list_elem_of_further|done].
  - intros ki k [[<- <-]|[Hne Hx]]%lookup_insert_Some; [exists u; by rewrite lookup_insert_eq|].
    destruct (Hs ki k Hx) as (x & Hxk & <-). exists x. rewrite lookup_insert_ne; [done|]. intros <-.
    destruct (Ho _ _ Hxk) as (v & Hv & Hvk & Hvi). apply Hne. by rewrite <- Hvi, (Hu v Hv Hvk).
  - intros k x [[<- <-]|[Hne Hx]]%lookup_insert_Some Hx'; [by rewrite lookup_insert_eq|].
    rewrite lookup_insert_ne.
    + apply Hl; [done|]. intros v Hv. apply Hx'. by apply list_elem_of_further.
    + intros He. apply Hne. rewrite <- (Hk k x Hx). apply Hx'; [apply list_elem_of_here|done].
Qed.

Lemma indexed_remove A w k : indexed A w -> indexed A (remove_output w k).
Proof.
  intros H. unfold remove_output. destruct (utxos w !! k) as [u|] eqn:Eu; [|done]. destruct H as [Hk Ho Hs Hl].
  split; cbn [utxos key_image_index].
  - intros k' x [_ Hx]%lookup_delete_Some. by apply Hk.
  - intros k' x [_ Hx]%lookup_delete_Some. by apply (Ho k').
  - intros ki k' [Hne Hx]%lookup_delete_Some. destruct (Hs ki k' Hx) as (x & Hxk & <-). exists x. split; [|done].
    rewrite lookup_delete_ne; [done|]. intros <-. congruence.
  - intros k' x [Hne Hx]%lookup_delete_Some Hl'. rewrite lookup_delete_ne; [by apply Hl|]. intros He.
    destruct (Ho k u Eu) as (v & Hv & Hvk & Hvi). apply Hne. rewrite <- Hvk, <- (Hk k' x Hx). apply Hl'; [done|congruence].
Qed.

Lemma indexed_removes A ks : forall w, indexed A w -> indexed A (fst (remove_outputs w ks)).
Proof.
  intros w. unfold remove_outputs. generalize 0. revert w.
  induction ks as [|k ks IH]; intros w n H; [done|]. cbn [fold_left]. by apply IH, indexed_remove.
Qed.

(** The outputs of a balance with their flags forgotten. *)
Definition images (w : Balance) : gmap (Z * Z) UTXO := set_spent false <$> utxos w.

Lemma images_at w w' k u : images w' = images w -> utxos w' !! k = Some u ->
  exists v, utxos w !! k = Some v /\ utxo_key v = utxo_key u /\ key_image v = key_image u.
Proof.
  intros He Hu. assert (Hi : images w !! k = Some (set_spent false u)) by (by rewrite <- He; unfold images; rewrite lookup_fmap, Hu).
  unfold images in Hi. rewrite lookup_fmap in Hi. apply fmap_Some in Hi as (v & Hv & Hi). exists v. split; [done|].
  destruct u, v. injection Hi as -> -> -> -> -> -> ->. done.
Qed.

(** A call that only moves flags and reservations keeps the correspondence. *)
Lemma indexed_flags A w w' : images w' = images w -> key_image_index w' = key_image_index w -> indexed A w -> indexed A w'.
Proof.
  intros Hi Hx [Hk Ho Hs Hl]. split.
  - intros k u Hu. destruct (images_at w w' k u Hi Hu) as (v & Hv & <- & _). by apply Hk.
  - intros k u Hu. destruct (images_at w w' k u Hi Hu) as (v & Hv & _ & <-). by apply Ho.
  - intros ki k. rewrite Hx. intros (u & Hu & <-)%Hs.
    destruct (images_at w' w k u (eq_sym Hi) Hu) as (v & Hv & _ & Hvi). eauto.
  - intros k u Hu Hl'. destruct (images_at w w' k u Hi Hu) as (v & Hv & Hvk & Hvi). rewrite Hx, <- Hvi. apply Hl; [done|].
    intros x. rewrite Hvk, Hvi. apply Hl'.
Qed.

Lemma images_mark w k : images (mark_spent w k) = images w.
Proof.
  apply map_eq. intros k'. unfold images, mark_spent. cbn [utxos]. rewrite !lookup_fmap.
  destruct (decide (k' = k)) as [->|Hne]; [rewrite lookup_alter_eq|by rewrite lookup_alter_ne].
  by destruct (utxos w !! k).
Qed.

Lemma images_unmark w ki : images (fst (unmark_spent_by_key_image w ki)) = images w
  /\ key_image_index (fst (unmark_spent_by_key_image w ki)) = key_image_index w.
Proof.
  unfold unmark_spent_by_key_image. destruct (key_image_index w !! ki) as [k|]; [|done].
  destruct (utxos w !! k) as [u|] eqn:Eu; [|done]. destruct (spent u); [|done]. split; [|done].
  unfold images. cbn [fst utxos]. rewrite fmap_insert. apply insert_id. by rewrite lookup_fmap, Eu.
Qed.

Lemma indexed_step A w w' : indexed A w -> wallet_step w w' -> indexed A w'.
Proof.
  intros Hw Hs. destruct Hs.
  - by apply indexed_removes.
  - by apply (indexed_flags A w); [apply images_mark| |].
  - unfold mark_spent_by_key_image. destruct (lookup_by_key_image w ki); [|done].
    by apply (indexed_flags A w); [apply images_mark| |].
  - by apply (indexed_flags A w); [apply images_unmark..|].
  - apply (indexed_flags A w); [..|done]; unfold reserve_utxos; by destruct (List.find _ _).
  - by apply (indexed_flags A w).
  - by apply (indexed_flags A w).
  - by apply (indexed_flags A w).
Qed.

Lemma reachable_indexed A w : reachable A w -> indexed A w.
Proof. induction 1; [apply indexed_new|by apply indexed_add|by eapply indexed_step]. Qed.

(** C39: the key-image index is never wrong, and is complete for every output whose key
    image is its own.  In every balance that receiving outputs in any order, again or with
    a key image already indexed, and every other call of the wallet can produce (an
    outpoint naming one output is all that is assumed): each stored output was received and
    is under its own outpoint; an outpoint answered for a key image holds an unspent output
    with that image; and a stored output whose key image no other received output has is
    found by it exactly while it is unspent.  Outputs that share a key image have one
    index entry between them, so for those the answer may be missing. *)
Theorem reachable_index_exact A w : reachable A w ->
  (forall k u, utxos w !! k = Some u -> utxo_key u = k /\ exists v, v ∈ A /\ utxo_key v = k /\ key_image v = key_image u)
  /\ (forall ki k, lookup_by_key_image w ki = Some k ->
       exists u, utxos w !! k = Some u /\ key_image u = ki /\ spent u = false)
  /\ (forall k u, utxos w !! k = Some u -> lone A u -> lookup_by_key_image w (key_image u) = Some k <-> spent u = false).
Proof.
  intros [Hk Ho Hs Hl]%reachable_indexed. unfold lookup_by_key_image. split_and!.
  - eauto.
  - intros ki k (k' & Hx & Hm)%bind_Some. destruct (Hs ki k' Hx) as (u & Hu & Hi). rewrite Hu in Hm.
    destruct (spent u) eqn:Es; [done|]. injection Hm as <-. eauto.
  - intros k u Hu Hu'. rewrite (Hl k u Hu Hu'). cbn [mbind option_bind]. rewrite Hu. by destruct (spent u).
Qed.

(** ** Concrete runs *)

(** A stand-in for the digest and the wallet's outputs: each block
    pays the wallet once. *)
Definition sample_hash (l : list Z) : Z := fold_left (fun a x => (a * 257 + x) mod (2 ^ 61 - 1)) l 7.
Definition sample_utxo (id h : Z) : UTXO := mkUTXO id 0 (100 * id) h (1000 + id) false None 0.
Definition sample_found (b : Types.Block) : list UTXO :=
  [sample_utxo (Types.nonce (Types.header b)) (Types.block_height b)].

(** A block with the given id and parent that spends the listed key images. *)
Definition sample_block (id h : Z) (parent : option Types.Block) (kis : list Z) : Types.Block :=
  Types.mkBlock
    (Types.mkHeader 0 1 h 0 (match parent with Some p => Types.block_hash sample_hash p | None => 0 end) 0 0 0 id 0 0 0 None 0 0)
    [Types.mkTx 1 Types.Transfer (map (fun k => Types.mkInput k [] 0 0) kis) [] 0 [] []].

Definition block1 := sample_block 1 1 None [].
Definition block2 := sample_block 2 2 (Some block1) [1001].
Definition block3 := sample_block 3 3 (Some block2) [1002].
Definition block2' := sample_block 4 2 (Some block1) [].

Definition wallet1 : Balance := after sample_found new block1.
Definition scanner1 : WalletScanner :=
  mkScanner 1 (Types.block_hash sample_hash block1) [diff_of sample_hash sample_found new block1] JOURNAL_MAX_DEFAULT.

Lemma wallet1_wf : wf wallet1.
Proof.
  apply (undo_block sample_hash); [apply wf_new|]. split; [vm_compute; repeat constructor; by intros ?%elem_of_nil|].
  split; [vm_compute; repeat constructor; by intros ?%elem_of_nil|]. done.
Qed.

Lemma scanner1_ok : scanner_ok scanner1.
Proof.
  split; cbn [scanner1 journal last_height last_hash journal_max length].
  - unfold JOURNAL_MAX_DEFAULT. lia.
  - by intros d ->%list_elem_of_singleton.
  - by eexists.
Qed.

(** Both branches are scanned, and the orphaned one spends the wallet's output. *)
Example sample_branches :
  (forall r, scan_run sample_hash sample_found (wallet1, scanner1) [block2; block3] = Some r -> total r.1 = 300)
  /\ is_Some (scan_run sample_hash sample_found (wallet1, scanner1) [block2; block3])
  /\ is_Some (scan_run sample_hash sample_found (wallet1, scanner1) [block2']).
Proof. split_and!; [intros r Hr; vm_compute in Hr; by injection Hr as <-|vm_compute; by eexists|vm_compute; by eexists]. Qed.

Lemma reorg_recovery_exact_witness :
  exists w' s' w'' s'', scan_run sample_hash sample_found (wallet1, scanner1) [block2; block3] = Some (w', s')
  /\ recover (w', s') 1 = Ok (w'', s'') /\ core w'' = core wallet1.
Proof.
  destruct (scan_run sample_hash sample_found (wallet1, scanner1) [block2; block3]) as [[w' s']|] eqn:E; [|vm_compute in E; discriminate].
  destruct (reorg_recovery_exact sample_hash sample_found wallet1 scanner1 [block2; block3] w' s') as (w'' & s'' & Hr & Hc & _).
  - exact wallet1_wf.
  - split; [|split].
    + refine (bool_decide_unpack _ _). vm_compute. exact I.
    + refine (bool_decide_unpack _ _). vm_compute. exact I.
    + intros u Hu. vm_compute in Hu. apply elem_of_cons in Hu as [-> | ->%list_elem_of_singleton]; split; vm_compute; reflexivity.
  - exact scanner1_ok.
  - cbn [scanner1 journal_max length]. unfold JOURNAL_MAX_DEFAULT. lia.
  - exact E.
  - exists w', s', w'', s''. split; [reflexivity|]. split; [exact Hr|exact Hc].
Defined.

(** The wallet was closed at block 1; the node has since replaced it by [block2'] on
    another parent, which the new session takes without noticing. *)
Definition foreign2 := sample_block 4 2 None [].

Lemma new_session_blind_to_reorg_witness :
  is_Some (scan_one sample_hash sample_found (wallet1, new_scanner) foreign2)
  /\ exists w' s', scan_run sample_hash sample_found (wallet1, new_scanner) [foreign2] = Some (w', s')
     /\ utxos w' !! (1, 0) = Some (sample_utxo 1 1).
Proof.
  assert (Hu : utxos wallet1 !! (1, 0) = Some (sample_utxo 1 1)) by (vm_compute; reflexivity).
  destruct (new_session_blind_to_reorg sample_hash sample_found wallet1 foreign2 [] (1, 0) (sample_utxo 1 1) wallet1_wf Hu) as [H1 H2].
  - intros o Ho. vm_compute in Ho. apply list_elem_of_singleton in Ho as ->. split; vm_compute; discriminate.
  - split; [exact H1|].
    destruct (scan_run sample_hash sample_found (wallet1, new_scanner) [foreign2]) as [[w' s']|] eqn:E; [|vm_compute in E; discriminate].
    exists w', s'. split; [reflexivity|]. exact (H2 w' s' eq_refl).
Defined.

(** The output of block 1 is spent by a submitted transaction; block 1 is scanned again. *)
Definition submitted : Balance := mark_spent_by_key_image wallet1 1001.

Lemma rescan_reopens_spend_witness :
  lookup_by_key_image submitted 1001 = None
  /\ exists w' s', scan_one sample_hash sample_found (submitted, new_scanner) block1 = Some (w', s')
     /\ lookup_by_key_image w' 1001 = Some (1, 0).
Proof.
  split; [vm_compute; reflexivity|].
  destruct (scan_one sample_hash sample_found (submitted, new_scanner) block1) as [[w' s']|] eqn:E; [|vm_compute in E; discriminate].
  exists w', s'. split; [reflexivity|].
  destruct (rescan_reopens_spend sample_hash sample_found submitted new_scanner block1 w' s' (sample_utxo 1 1)
    (set_spent true (sample_utxo 1 1))) as [_ Hl].
  - eapply core_flag_wf; [exact wallet1_wf|]. by apply mark_core, wallet1_wf.
  - cbn [new_scanner journal_max]. unfold JOURNAL_MAX_DEFAULT. lia.
  - exact E.
  - vm_compute. reflexivity.
  - reflexivity.
  - apply list_elem_of_here.
  - refine (bool_decide_unpack _ _). vm_compute. exact I.
  - refine (bool_decide_unpack _ _). vm_compute. exact I.
  - reflexivity.
  - refine (bool_decide_unpack _ _). vm_compute. exact I.
  - exact Hl.
Defined.

Lemma reservation_protocol_witness :
  let w' := fst (reserve_utxos wallet1 [(1, 0)] 77 50) in
  available_utxos w' 349 10 !! (1, 0) = None /\ available_utxos w' 350 10 !! (1, 0) = Some (sample_utxo 1 1).
Proof.
  intros w'. pose proof (reservation_protocol wallet1 [(1, 0)] 77 50 wallet1_wf) as H.
  assert (E : reserve_utxos wallet1 [(1, 0)] 77 50 = (w', Ok tt)) by (vm_compute; reflexivity). rewrite E in H.
  destruct H as (_ & _ & H & _). split.
  - destruct (available_utxos w' 349 10 !! (1, 0)) as [u|] eqn:Eu; [|reflexivity]. exfalso.
    apply H in Eu as [_ Hk]; [|lia]. specialize (Hk (list_elem_of_here _ _)). vm_compute in Hk. exact (Hk eq_refl).
  - apply H; [lia|]. split; [vm_compute; reflexivity|]. intros _. vm_compute. discriminate.
Defined.

(** Two received outputs with one key image, and a third with its own. *)
Definition twin1 : UTXO := mkUTXO 5 0 10 1 77 false None 0.
Definition twin2 : UTXO := mkUTXO 6 0 20 2 77 false None 0.
Definition twins : Balance := add_utxo (add_utxo (add_utxo new (sample_utxo 1 1)) twin1) twin2.

Lemma twins_reachable : reachable [twin2; twin1; sample_utxo 1 1] twins.
Proof.
  repeat (apply reach_add || apply reach_new); intros v Hv He;
    repeat (apply elem_of_cons in Hv as [->|Hv]; [done|]); by apply elem_of_nil in Hv.
Qed.

(** The index answers for the later of the two only; once that one is marked spent, the
    earlier is unspent, counted in the balance, and not found by its key image. *)
Example shared_image_hidden :
  lookup_by_key_image twins 77 = Some (6, 0)
  /\ (let w := mark_spent_by_key_image twins 77 in
      lookup_by_key_image w 77 = None /\ utxos w !! (5, 0) = Some twin1 /\ total w = 110).
Proof. vm_compute. split_and!; reflexivity. Qed.

Lemma reachable_index_exact_witness :
  lookup_by_key_image twins 1001 = Some (1, 0) /\ (exists u, utxos twins !! (6, 0) = Some u /\ key_image u = 77).
Proof.
  destruct (reachable_index_exact _ _ twins_reachable) as (_ & Hs & Hl). split.
  - apply (Hl (1, 0) (sample_utxo 1 1)); [reflexivity| |reflexivity].
    intros v Hv He. repeat (apply elem_of_cons in Hv as [->|Hv]; [done|]). by apply elem_of_nil in Hv.
  - destruct (Hs 77 (6, 0)) as (u & Hu & Hi & _); [reflexivity|]. exists u. exact (conj Hu Hi).
Defined.

(** With a journal of one entry that has been trimmed, a rewind to height 0 is not refused:
    it undoes the retained entry alone and reports height 0, with the older output kept. *)
Example rewind_zero_after_trim :
  let s0 := mkScanner 1 (last_hash scanner1) (journal scanner1) 1 in
  exists w' s' w'' s'', scan_run sample_hash sample_found (wallet1, s0) [block2] = Some (w', s')
  /\ recover (w', s') 0 = Ok (w'', s'') /\ last_height s'' = 0 /\ utxos w'' !! (1, 0) = Some (sample_utxo 1 1).
Proof. vm_compute. do 4 eexists. split; [reflexivity|]. split; [reflexivity|]. split; reflexivity. Qed.
End Wallet.
