(* ===== verification/Sync.v ===== *)
(** * Block synchronisation: state and operations (src/src/network/sync.rs)

    The synchronisation manager of the node: the heights and the work that peers claim, the
    queue of headers to download with its per-peer attribution, the blocks in flight, the
    orphan pool, the outstanding header requests and the state of the machine.  The fields
    of [ChainSync] are grouped into records by concern.  The system clock that the methods
    read is the argument [clock]; the order in which a HashMap is iterated is a parameter. *)

From stdpp Require Import gmap list.
From S2P Require Import Prelude Types.

Module Sync.

(** ** Data *)

Inductive SyncState := Idle | Headers | Blocks | ConfirmingSynced | Synced.

#[global] Instance SyncState_eq_dec : EqDecision SyncState.
Proof. solve_decision. Defined.

Record BlockRequest := mkRequest { req_hash : Z; requested_from : Z; requested_at : Z; req_seq : Z }.
Record OrphanBlock := mkOrphan { block : Types.Block; received_at : Z; from : option Z }.
Record DownloadEntry := mkEntry { entered_at : Z; seq : Z }.

Definition MAX_ORPHAN_BLOCKS : Z := 1000.
Definition MAX_PENDING_REQUESTS : Z := 10000.
Definition ORPHAN_TTL_SECONDS : Z := 30 * 60.
Definition ORPHAN_CLEANUP_INTERVAL : Z := 60.
Definition HEADERS_VERIFY_CAP_SECS : Z := 600.
Definition VERIFIED_HEADERS_MAX : Z := 50000.
Definition MAX_ORPHANS_PER_PEER : Z := u64_max.
Definition STUCK_DOWNLOAD_TIMEOUT_SECS : Z := 8.
Definition BLOCKS_STUCK_TIMEOUT : Z := 10.
Definition BLOCK_DOWNLOAD_TIMEOUT_BASE : Z := 5.
Definition BLOCK_DOWNLOAD_TIMEOUT_PER_PEER : Z := 2.
Definition WORK_CLAIM_TTL_SECS : Z := 600.
Definition WORK_SUBSTANTIATION_GRACE_SECS : Z := WORK_CLAIM_TTL_SECS.
Definition MAX_HEADERS_PER_PEER : Z := 5000.
(** The limit on queued headers, a local constant of two methods. *)
Definition MAX_PH : Z := 50000.
Definition RANDOMX_KEY_EPOCH : Z := 2048.

(** The height of the tip and the heights that peers claim. *)
Record Heights := mkHeights {
  local_height : Z;
  local_tip : Z;
  best_known_height : Z;
  peer_heights : gmap Z Z }.

(** The work of the tip and the work that peers claim. *)
Record Work := mkWork {
  peer_difficulties : gmap Z Z;
  best_known_difficulty : Z;
  local_total_difficulty : Z;
  peer_difficulty_seen_at : gmap Z Z;
  work_behind_since : option Z;
  last_work_progress_at : Z }.

(** Which peer queued a header, and how many each peer has queued. *)
Record Attribution := mkAttribution { pending_header_peer : gmap Z Z; headers_per_peer : gmap Z Z }.

(** The blocks in flight and the counter that orders them. *)
Record Flight := mkFlight {
  downloading : gset Z;
  download_timestamps : gmap Z DownloadEntry;
  pending_requests : gmap Z BlockRequest;
  next_request_seq : Z }.

(** The headers still to download. *)
Record Pending := mkPending {
  pending_headers : list Z;
  requeued_seq : gmap Z Z;
  pending_header_height : gmap Z Z;
  verified_header_hashes : gset Z }.

Record Orphans := mkOrphans {
  orphan_blocks : gmap Z OrphanBlock;
  orphan_by_parent : gmap Z (list Z);
  orphans_per_peer : gmap Z Z;
  last_orphan_cleanup : Z }.

(** The outstanding header requests; a nonce carries its peer and its generation. *)
Record Requests := mkRequests {
  headers_request_time : option Z;
  headers_response_at : option Z;
  pending_header_nonces : gmap Z (Z * Z);
  header_nonce_generation : Z;
  next_header_nonce : Z }.

Record ChainSync := mkSync {
  heights : Heights;
  work : Work;
  attribution : Attribution;
  flight : Flight;
  pending : Pending;
  orphans : Orphans;
  requests : Requests;
  peer_failures : gmap Z Z;
  sync_banned_peers : gmap Z Z;
  last_sync_peer : option Z;
  state : SyncState;
  headers_received_this_cycle : bool;
  blocks_entered_at : option Z;
  blocks_delivered : Z;
  max_concurrent : Z;
  request_timeout : Z }.

(** Field updates. *)
Definition with_heights x (s : ChainSync) : ChainSync :=
  mkSync x (work s) (attribution s) (flight s) (pending s) (orphans s) (requests s) (peer_failures s)
    (sync_banned_peers s) (last_sync_peer s) (state s) (headers_received_this_cycle s) (blocks_entered_at s) (blocks_delivered s) (max_concurrent s) (request_timeout s).
Definition with_work x (s : ChainSync) : ChainSync :=
  mkSync (heights s) x (attribution s) (flight s) (pending s) (orphans s) (requests s) (peer_failures s)
    (sync_banned_peers s) (last_sync_peer s) (state s) (headers_received_this_cycle s) (blocks_entered_at s) (blocks_delivered s) (max_concurrent s) (request_timeout s).
Definition with_attribution x (s : ChainSync) : ChainSync :=
  mkSync (heights s) (work s) x (flight s) (pending s) (orphans s) (requests s) (peer_failures s)
    (sync_banned_peers s) (last_sync_peer s) (state s) (headers_received_this_cycle s) (blocks_entered_at s) (blocks_delivered s) (max_concurrent s) (request_timeout s).
Definition with_flight x (s : ChainSync) : ChainSync :=
  mkSync (heights s) (work s) (attribution s) x (pending s) (orphans s) (requests s) (peer_failures s)
    (sync_banned_peers s) (last_sync_peer s) (state s) (headers_received_this_cycle s) (blocks_entered_at s) (blocks_delivered s) (max_concurrent s) (request_timeout s).
Definition with_pending x (s : ChainSync) : ChainSync :=
  mkSync (heights s) (work s) (attribution s) (flight s) x (orphans s) (requests s) (peer_failures s)
    (sync_banned_peers s) (last_sync_peer s) (state s) (headers_received_this_cycle s) (blocks_entered_at s) (blocks_delivered s) (max_concurrent s) (request_timeout s).
Definition with_orphans x (s : ChainSync) : ChainSync :=
  mkSync (heights s) (work s) (attribution s) (flight s) (pending s) x (requests s) (peer_failures s)
    (sync_banned_peers s) (last_sync_peer s) (state s) (headers_received_this_cycle s) (blocks_entered_at s) (blocks_delivered s) (max_concurrent s) (request_timeout s).
Definition with_requests x (s : ChainSync) : ChainSync :=
  mkSync (heights s) (work s) (attribution s) (flight s) (pending s) (orphans s) x (peer_failures s)
    (sync_banned_peers s) (last_sync_peer s) (state s) (headers_received_this_cycle s) (blocks_entered_at s) (blocks_delivered s) (max_concurrent s) (request_timeout s).
Definition with_peer_failures x (s : ChainSync) : ChainSync :=
  mkSync (heights s) (work s) (attribution s) (flight s) (pending s) (orphans s) (requests s) x
    (sync_banned_peers s) (last_sync_peer s) (state s) (headers_received_this_cycle s) (blocks_entered_at s) (blocks_delivered s) (max_concurrent s) (request_timeout s).
Definition with_sync_banned_peers x (s : ChainSync) : ChainSync :=
  mkSync (heights s) (work s) (attribution s) (flight s) (pending s) (orphans s) (requests s) (peer_failures s)
    x (last_sync_peer s) (state s) (headers_received_this_cycle s) (blocks_entered_at s) (blocks_delivered s) (max_concurrent s) (request_timeout s).
Definition with_last_sync_peer x (s : ChainSync) : ChainSync :=
  mkSync (heights s) (work s) (attribution s) (flight s) (pending s) (orphans s) (requests s) (peer_failures s)
    (sync_banned_peers s) x (state s) (headers_received_this_cycle s) (blocks_entered_at s) (blocks_delivered s) (max_concurrent s) (request_timeout s).
Definition with_state x (s : ChainSync) : ChainSync :=
  mkSync (heights s) (work s) (attribution s) (flight s) (pending s) (orphans s) (requests s) (peer_failures s)
    (sync_banned_peers s) (last_sync_peer s) x (headers_received_this_cycle s) (blocks_entered_at s) (blocks_delivered s) (max_concurrent s) (request_timeout s).
Definition with_headers_received_this_cycle x (s : ChainSync) : ChainSync :=
  mkSync (heights s) (work s) (attribution s) (flight s) (pending s) (orphans s) (requests s) (peer_failures s)
    (sync_banned_peers s) (last_sync_peer s) (state s) x (blocks_entered_at s) (blocks_delivered s) (max_concurrent s) (request_timeout s).
Definition with_blocks_entered_at x (s : ChainSync) : ChainSync :=
  mkSync (heights s) (work s) (attribution s) (flight s) (pending s) (orphans s) (requests s) (peer_failures s)
    (sync_banned_peers s) (last_sync_peer s) (state s) (headers_received_this_cycle s) x (blocks_delivered s) (max_concurrent s) (request_timeout s).
Definition with_blocks_delivered x (s : ChainSync) : ChainSync :=
  mkSync (heights s) (work s) (attribution s) (flight s) (pending s) (orphans s) (requests s) (peer_failures s)
    (sync_banned_peers s) (last_sync_peer s) (state s) (headers_received_this_cycle s) (blocks_entered_at s) x (max_concurrent s) (request_timeout s).
Definition with_max_concurrent x (s : ChainSync) : ChainSync :=
  mkSync (heights s) (work s) (attribution s) (flight s) (pending s) (orphans s) (requests s) (peer_failures s)
    (sync_banned_peers s) (last_sync_peer s) (state s) (headers_received_this_cycle s) (blocks_entered_at s) (blocks_delivered s) x (request_timeout s).
Definition with_request_timeout x (s : ChainSync) : ChainSync :=
  mkSync (heights s) (work s) (attribution s) (flight s) (pending s) (orphans s) (requests s) (peer_failures s)
    (sync_banned_peers s) (last_sync_peer s) (state s) (headers_received_this_cycle s) (blocks_entered_at s) (blocks_delivered s) (max_concurrent s) x.

Definition new (height tip : Z) : ChainSync :=
  mkSync (mkHeights height tip height ∅) (mkWork ∅ 0 0 ∅ None 0) (mkAttribution ∅ ∅) (mkFlight ∅ ∅ ∅ 0)
    (mkPending [] ∅ ∅ ∅) (mkOrphans ∅ ∅ ∅ 0) (mkRequests None None ∅ 0 1) ∅ ∅ None Idle false None 0 100 30.

(** The collections that "nothing is queued or in flight" refers to. *)
Definition no_pending (s : ChainSync) : bool := bool_decide (pending_headers (pending s) = []).
Definition no_downloads (s : ChainSync) : bool := bool_decide (downloading (flight s) = ∅).
Definition no_requests (s : ChainSync) : bool := bool_decide (pending_requests (flight s) = ∅).

Definition settled (s : ChainSync) : bool :=
  match state s with Synced | Idle | ConfirmingSynced => true | Headers | Blocks => false end.

Definition forget_request (r : Requests) : Requests :=
  mkRequests None None (pending_header_nonces r) (header_nonce_generation r) (next_header_nonce r).

(** The transition into [Headers] that four methods share. *)
Definition enter_headers (s : ChainSync) : ChainSync :=
  with_headers_received_this_cycle false (with_requests (forget_request (requests s)) (with_state Headers s)).

(** [if self.blocks_entered_at.is_none() { ... = Some(unix_now()) }] *)
Definition stamp_blocks (clock : Z) (s : ChainSync) : ChainSync :=
  match blocks_entered_at s with Some _ => s | None => with_blocks_entered_at (Some clock) s end.

(** The end of the re-queue paths: a synced machine goes back to [Blocks]. *)
Definition leave_synced (clock : Z) (s : ChainSync) : ChainSync :=
  if decide (state s = Synced) then stamp_blocks clock (with_state Blocks s) else s.

Definition set_state (s : ChainSync) (st : SyncState) : ChainSync :=
  with_state st (if decide (st = Blocks) then s else with_blocks_entered_at None s).

(** ** Heights *)

(** [values().copied().max().unwrap_or(0)] *)
Definition max_value (m : gmap Z Z) : Z := map_fold (fun _ x a => Z.max x a) 0 m.

Definition refresh_best_known (h : Heights) : Heights :=
  mkHeights (local_height h) (local_tip h) (Z.max (local_height h) (max_value (peer_heights h))) (peer_heights h).

Definition with_peer_heights (m : gmap Z Z) (h : Heights) : Heights :=
  mkHeights (local_height h) (local_tip h) (best_known_height h) m.

Definition prune_stale_peer_heights (h : Heights) : Heights :=
  with_peer_heights (filter (fun '(_, x) => local_height h < x) (peer_heights h)) h.

Definition true_best_height (h : Heights) : Z := Z.max (best_known_height h) (max_value (peer_heights h)).
Definition is_synced (h : Heights) : bool := true_best_height h <=? local_height h.
Definition blocks_behind (h : Heights) : Z := saturating_sub (best_known_height h) (local_height h).

Definition set_local_tip (s : ChainSync) (height tip : Z) : ChainSync :=
  let h := mkHeights height tip (best_known_height (heights s)) (peer_heights (heights s)) in
  let h := refresh_best_known (prune_stale_peer_heights h) in
  let s := with_heights h s in
  if (best_known_height h <=? local_height h) && no_pending s && no_downloads s then with_state Synced s else s.

Definition set_local_height (s : ChainSync) (height : Z) : ChainSync :=
  let h := heights s in with_heights (mkHeights height (local_tip h) (best_known_height h) (peer_heights h)) s.

Definition update_peer_height_for (s : ChainSync) (peer height : Z) : ChainSync :=
  let h := heights s in
  if saturating_add u64_max (local_height h) 10000 <? height then s
  else if height <=? local_height h then
    with_heights (refresh_best_known (with_peer_heights (delete peer (peer_heights h)) h)) s
  else
    let s := with_heights (refresh_best_known (with_peer_heights (<[peer := height]> (peer_heights h)) h)) s in
    if settled s then enter_headers s else s.

Definition update_peer_height (s : ChainSync) (height : Z) : ChainSync :=
  let h := heights s in
  if saturating_add u64_max (local_height h) 10000 <? height then s
  else
    let best := if best_known_height h <? height then height else best_known_height h in
    let best := if best <? local_height h then local_height h else best in
    with_heights (mkHeights (local_height h) (local_tip h) best (peer_heights h)) s.

(** ** Work *)

Definition recompute_best_difficulty (clock : Z) (w : Work) : Work :=
  let best := Z.max (local_total_difficulty w) (max_value (peer_difficulties w)) in
  let since :=
    if local_total_difficulty w <? best
    then match work_behind_since w with None => Some clock | Some t => Some t end
    else None in
  mkWork (peer_difficulties w) best (local_total_difficulty w) (peer_difficulty_seen_at w) since (last_work_progress_at w).

Definition with_claims (m seen : gmap Z Z) (w : Work) : Work :=
  mkWork m (best_known_difficulty w) (local_total_difficulty w) seen (work_behind_since w) (last_work_progress_at w).

Definition drop_claim (peer : Z) (w : Work) : Work :=
  with_claims (delete peer (peer_difficulties w)) (delete peer (peer_difficulty_seen_at w)) w.

Definition claim_cap (w : Work) : Z :=
  let observed_max := if decide (peer_difficulties w = ∅) then best_known_difficulty w else max_value (peer_difficulties w) in
  Z.max (saturating_mul u128_max observed_max 2) (Z.shiftl 1 60).

Definition update_peer_difficulty_for (clock : Z) (s : ChainSync) (peer total_difficulty : Z) : ChainSync :=
  let w := work s in
  if claim_cap w <? total_difficulty then s
  else if total_difficulty <=? local_total_difficulty w then with_work (recompute_best_difficulty clock (drop_claim peer w)) s
  else
    let w := with_claims (<[peer := total_difficulty]> (peer_difficulties w)) (<[peer := clock]> (peer_difficulty_seen_at w)) w in
    let s := with_work (recompute_best_difficulty clock w) s in
    if settled s then enter_headers s else s.

Definition set_local_total_difficulty (clock : Z) (s : ChainSync) (total_difficulty : Z) : ChainSync :=
  let w := work s in
  let progress := if local_total_difficulty w <? total_difficulty then clock else last_work_progress_at w in
  let claims := filter (fun '(_, d) => total_difficulty < d) (peer_difficulties w) in
  let seen := filter (fun '(p, _) => is_Some (claims !! p)) (peer_difficulty_seen_at w) in
  with_work (recompute_best_difficulty clock
    (mkWork claims (best_known_difficulty w) total_difficulty seen (work_behind_since w) progress)) s.

Definition work_heavier_peers (w : Work) : gset Z := dom (peer_difficulties w).

Definition work_behind_substantiated (w : Work) (now : Z) : bool :=
  if best_known_difficulty w <=? local_total_difficulty w then false
  else
    let fresh := match work_behind_since w with
                 | Some t0 => saturating_sub now t0 <? WORK_SUBSTANTIATION_GRACE_SECS
                 | None => true
                 end in
    fresh || (saturating_sub now (last_work_progress_at w) <? WORK_SUBSTANTIATION_GRACE_SECS).

Definition should_retrigger_sync_at (s : ChainSync) (height slack now : Z) : bool :=
  (saturating_add u64_max height slack <? true_best_height (heights s)) || work_behind_substantiated (work s) now.

Definition clear_peer_difficulty (clock : Z) (s : ChainSync) (peer : Z) : ChainSync :=
  let w := drop_claim peer (work s) in
  with_work (if decide (is_Some (peer_difficulties (work s) !! peer)) then recompute_best_difficulty clock w else w) s.

Definition remove_peer_height (clock : Z) (s : ChainSync) (peer : Z) : ChainSync :=
  let h := with_peer_heights (delete peer (peer_heights (heights s))) (heights s) in
  with_work (recompute_best_difficulty clock (drop_claim peer (work s))) (with_heights (refresh_best_known h) s).

Definition retain_connected_peers (clock : Z) (s : ChainSync) (connected : gset Z) : ChainSync * Z :=
  let h := heights s in
  let w := work s in
  let h' := with_peer_heights (filter (fun '(p, _) => p ∈ connected) (peer_heights h)) h in
  let w' := with_claims (filter (fun '(p, _) => p ∈ connected) (peer_difficulties w))
              (filter (fun '(p, _) => p ∈ connected) (peer_difficulty_seen_at w)) w in
  let pruned := saturating_sub (Z.of_nat (size (peer_heights h))) (Z.of_nat (size (peer_heights h'))) in
  if (0 <? pruned) || negb (bool_decide (peer_difficulties w' = ∅))
  then (with_work (recompute_best_difficulty clock w') (with_heights (refresh_best_known h') s), pruned)
  else (with_work w' (with_heights h' s), pruned).

Definition expire_stale_work_claims (clock : Z) (s : ChainSync) (now ttl : Z) : ChainSync * Z :=
  let w := work s in
  let cutoff := saturating_sub now ttl in
  let stale := filter (fun '(_, seen) => seen < cutoff) (peer_difficulty_seen_at w) in
  let w' := with_claims (filter (fun '(p, _) => stale !! p = None) (peer_difficulties w))
              (filter (fun '(p, _) => stale !! p = None) (peer_difficulty_seen_at w)) w in
  (with_work (if decide (stale = ∅) then w' else recompute_best_difficulty clock w') s, Z.of_nat (size stale)).

(** ** The header queue *)

Definition note_header_heights (s : ChainSync) (hs : list (Z * Z)) : ChainSync :=
  let q := pending s in
  let m := fold_left (fun m '(hash, height) =>
             if local_height (heights s) <? height then <[hash := height]> m else m) hs (pending_header_height q) in
  with_pending (mkPending (pending_headers q) (requeued_seq q) m (verified_header_hashes q)) s.

Definition with_pending_headers (l : list Z) (q : Pending) : Pending :=
  mkPending l (requeued_seq q) (pending_header_height q) (verified_header_hashes q).

(** §10: a hash of a verified batch; the set is emptied when it is full. *)
Definition note_verified (hash : Z) (q : Pending) : Pending :=
  let v := verified_header_hashes q in
  let v := if VERIFIED_HEADERS_MAX <=? Z.of_nat (size v) then ∅ else v in
  mkPending (pending_headers q) (requeued_seq q) (pending_header_height q) ({[hash]} ∪ v).

(** The loop over the received hashes, with its two exits. *)
Fixpoint queue_loop (known : Z -> bool) (peer : option Z) (room : option Z) (headers : list Z)
    (q : Pending) (hp : gmap Z Z) (added : Z) : Pending * gmap Z Z * Z :=
  match headers with
  | [] => (q, hp, added)
  | hash :: rest =>
      if MAX_PH <=? Z.of_nat (length (pending_headers q)) then (q, hp, added)
      else if match room with Some cap => cap <=? added | None => false end then (q, hp, added)
      else
        let q := match peer with Some _ => note_verified hash q | None => q end in
        if negb (known hash) && bool_decide (hp !! hash = None)
        then
          let q := with_pending_headers (pending_headers q ++ [hash]) q in
          match peer with
          | Some p => queue_loop known peer room rest q (<[hash := p]> hp) (added + 1)
          | None => queue_loop known peer room rest q hp added
          end
        else queue_loop known peer room rest q hp added
  end.

Definition count_of (m : gmap Z Z) (p : Z) : Z := default 0 (m !! p).

Definition queue_headers_inner (clock : Z) (s : ChainSync) (headers : list Z) (peer : option Z) : ChainSync :=
  match headers with
  | [] =>
      let s := if decide (state s = ConfirmingSynced) then if 0 <? local_height (heights s) then with_state Synced s else s else s in
      match state s with
      | Headers | ConfirmingSynced =>
          if wrap u64_max (local_height (heights s) + 2) <? true_best_height (heights s)
          then with_requests (forget_request (requests s)) (with_state Headers s) else s
      | _ => s
      end
  | _ =>
      let s := with_headers_received_this_cycle true s in
      let a := attribution s in
      let room := match peer with
                  | Some p => Some (saturating_sub MAX_HEADERS_PER_PEER (count_of (headers_per_peer a) p))
                  | None => None
                  end in
      let known hash := bool_decide (hash ∈ downloading (flight s)) || bool_decide (is_Some (orphan_blocks (orphans s) !! hash)) in
      let '(q, hp, added) := queue_loop known peer room headers (pending s) (pending_header_peer a) 0 in
      let counts := match peer with
                    | Some p => if 0 <? added then <[p := count_of (headers_per_peer a) p + added]> (headers_per_peer a)
                                else headers_per_peer a
                    | None => headers_per_peer a
                    end in
      let s := with_attribution (mkAttribution hp counts) (with_pending q s) in
      if no_pending s then s else stamp_blocks clock (with_state Blocks s)
  end.

Definition queue_headers (clock : Z) (s : ChainSync) (headers : list Z) : ChainSync := queue_headers_inner clock s headers None.
Definition queue_headers_from_peer (clock : Z) (s : ChainSync) (peer : Z) (headers : list Z) : ChainSync :=
  queue_headers_inner clock s headers (Some peer).

Definition untrack_pending_header (hash : Z) (a : Attribution) : Attribution :=
  match pending_header_peer a !! hash with
  | None => a
  | Some peer =>
      let hp := delete hash (pending_header_peer a) in
      match headers_per_peer a !! peer with
      | Some count => mkAttribution hp (if 1 <? count then <[peer := count - 1]> (headers_per_peer a)
                                        else delete peer (headers_per_peer a))
      | None => mkAttribution hp (headers_per_peer a)
      end
  end.

(** ** Blocks in flight *)

Definition next_seq (f : Flight) : Z * Flight :=
  (next_request_seq f, mkFlight (downloading f) (download_timestamps f) (pending_requests f)
                         (wrap u64_max (next_request_seq f + 1))).

(** Take a hash out of the three collections. *)
Definition drop_flight (hash : Z) (f : Flight) : Flight :=
  mkFlight (downloading f ∖ {[hash]}) (delete hash (download_timestamps f)) (delete hash (pending_requests f)) (next_request_seq f).

Definition enter_flight (hash : Z) (e : DownloadEntry) (f : Flight) : Flight :=
  mkFlight ({[hash]} ∪ downloading f) (<[hash := e]> (download_timestamps f)) (pending_requests f) (next_request_seq f).

(** [iter().max_by_key(..)] gives the last of the largest, [min_by_key] the first of the
    smallest. *)
Definition max_by_key {A} (key : A -> Z) (l : list A) : option A :=
  fold_left (fun acc x => match acc with Some y => if key y <=? key x then Some x else Some y | None => Some x end) l None.
Definition min_by_key {A} (key : A -> Z) (l : list A) : option A :=
  fold_left (fun acc x => match acc with Some y => if key x <? key y then Some x else Some y | None => Some x end) l None.

(** A stable sort by key. *)
Fixpoint insert_by_key (x : Z * Z) (l : list (Z * Z)) : list (Z * Z) :=
  match l with
  | [] => [x]
  | y :: l' => if x.1 <=? y.1 then x :: l else y :: insert_by_key x l'
  end.
Definition sort_by_key (l : list (Z * Z)) : list (Z * Z) := fold_right insert_by_key [] l.

Definition push_front_ordered (items : list (Z * Z)) (q : Pending) : Pending :=
  fold_left (fun q '(seq, h) =>
    mkPending (h :: pending_headers q) (if seq =? u64_max then requeued_seq q else <[h := seq]> (requeued_seq q))
      (pending_header_height q) (verified_header_hashes q))
    (rev (sort_by_key items)) q.

(** The place of a hash that leaves the flight for the queue. *)
Definition keep_seq (hash : Z) (f : Flight) (q : Pending) : Pending :=
  match download_timestamps f !! hash with
  | Some e => mkPending (pending_headers q) (<[hash := seq e]> (requeued_seq q)) (pending_header_height q) (verified_header_hashes q)
  | None => q
  end.

Definition push_front (hash : Z) (q : Pending) : Pending := with_pending_headers (hash :: pending_headers q) q.

Section Orders.
(** The iteration orders of the hash tables, and the key derivation of RandomX from the
    epoch. *)
Context (order : forall A, gmap Z A -> list (Z * A)) (set_order : gset Z -> list Z) (epoch_key : Z -> Z).
Arguments order {A}.

Definition randomx_seed_for_height (height : Z) : Z := epoch_key (height / RANDOMX_KEY_EPOCH).

Definition best_peer_by_difficulty (w : Work) : option (Z * Z) := max_by_key snd (order (peer_difficulties w)).

Definition peers_above_height (h : Heights) (min : Z) : list Z :=
  map fst (List.filter (fun '(_, x) => min <=? x) (order (peer_heights h))).

Definition crosses_key_epoch (s : ChainSync) (hash : Z) : bool :=
  let next := wrap u64_max (local_height (heights s) + 1) in
  match pending_header_height (pending s) !! hash with
  | Some h => (next <? h) && negb (randomx_seed_for_height h =? randomx_seed_for_height next)
  | None => false
  end.

(** One popped hash of the download loop. *)
Definition pop_header (clock : Z) (s : ChainSync) (h : Z) (rest : list Z) : ChainSync * bool :=
  let q := pending s in
  let q := mkPending rest (requeued_seq q) (delete h (pending_header_height q)) (verified_header_hashes q) in
  let s := with_attribution (untrack_pending_header h (attribution s)) (with_pending q s) in
  let f := flight s in
  if bool_decide (h ∈ downloading f) then (s, false)
  else
    match requeued_seq q !! h with
    | Some n => (with_pending (mkPending rest (delete h (requeued_seq q)) (pending_header_height q) (verified_header_hashes q))
                   (with_flight (enter_flight h (mkEntry clock n) f) s), true)
    | None => let '(n, f) := next_seq f in (with_flight (enter_flight h (mkEntry clock n) f) s, true)
    end.

Fixpoint request_loop (clock : Z) (limit : Z) (queue : list Z) (s : ChainSync) (out : list Z) : ChainSync * list Z :=
  match queue with
  | [] => (s, out)
  | h :: rest =>
      if limit <=? Z.of_nat (length out) then (s, out)
      else if crosses_key_epoch s h then (s, out)
      else let '(s, fresh) := pop_header clock s h rest in
           request_loop clock limit rest s (if fresh then out ++ [h] else out)
  end.

Definition get_blocks_to_request (clock : Z) (s : ChainSync) (max : Z) : ChainSync * list Z :=
  let slots := saturating_sub (max_concurrent s) (Z.of_nat (size (downloading (flight s)))) in
  request_loop clock (Z.min max slots) (pending_headers (pending s)) s [].

Definition record_request (s : ChainSync) (hash peer ts : Z) : ChainSync :=
  let f := flight s in
  let f :=
    if (MAX_PENDING_REQUESTS <=? Z.of_nat (size (pending_requests f))) && bool_decide (pending_requests f !! hash = None)
    then match min_by_key (fun '(_, r) => requested_at r) (order (pending_requests f)) with
         | Some (k, _) => drop_flight k f
         | None => f
         end
    else f in
  let '(n, f) :=
    match download_timestamps f !! hash with
    | Some e => (seq e, mkFlight ({[hash]} ∪ downloading f) (download_timestamps f) (pending_requests f) (next_request_seq f))
    | None => let '(n, f) := next_seq f in (n, enter_flight hash (mkEntry ts n) f)
    end in
  with_flight (mkFlight (downloading f) (download_timestamps f)
                 (<[hash := mkRequest hash peer ts n]> (pending_requests f)) (next_request_seq f)) s.

Definition track_direct_request := record_request.

(** ** Delivery *)

Definition on_block_success (s : ChainSync) (peer : Z) : ChainSync :=
  with_request_timeout (Z.max (wrap u64_max (request_timeout s * 85) / 100) 15)
    (with_peer_failures (delete peer (peer_failures s)) s).

Definition increase_timeout (s : ChainSync) : ChainSync :=
  with_request_timeout (Z.min (wrap u64_max (request_timeout s * 2)) 64) s.

Definition mark_block_received (s : ChainSync) (hash : Z) : ChainSync :=
  let f := flight s in
  let s := match pending_requests f !! hash with Some req => on_block_success s (requested_from req) | None => s end in
  with_flight (drop_flight hash f) s.

Definition mark_block_failed (s : ChainSync) (hash : Z) : ChainSync :=
  with_pending (push_front hash (keep_seq hash (flight s) (pending s))) (with_flight (drop_flight hash (flight s)) s).

Definition on_timeout (clock : Z) (s : ChainSync) (hash : Z) : ChainSync :=
  let s :=
    match pending_requests (flight s) !! hash with
    | Some req =>
        let p := requested_from req in
        let c := wrap u32_max (count_of (peer_failures s) p + 1) in
        if 3 <=? c then
          with_work (recompute_best_difficulty clock (drop_claim p (work s)))
            (with_peer_failures (delete p (peer_failures s))
              (with_sync_banned_peers (<[p := wrap u64_max (clock + 300)]> (sync_banned_peers s)) s))
        else with_peer_failures (<[p := c]> (peer_failures s)) s
    | None => s
    end in
  with_pending (push_front hash (pending s)) (with_flight (drop_flight hash (flight s)) s).

Definition get_timed_out (s : ChainSync) (now : Z) : list (Z * Z) :=
  map (fun '(h, r) => (h, requested_from r))
    (List.filter (fun '(_, r) => wrap u64_max (requested_at r + request_timeout s) <? now) (order (pending_requests (flight s)))).

Definition requeue_failed (clock : Z) (s : ChainSync) (hashes : list Z) : ChainSync :=
  let s' := fold_left (fun s h => mark_block_failed s h) (rev hashes) s in
  match hashes with [] => s' | _ => leave_synced clock s' end.

(** The requests and the bare downloads that are overdue, with their places. *)
Definition timed_out (s : ChainSync) (now : Z) : list (Z * Z) :=
  map (fun '(h, r) => (req_seq r, h))
    (List.filter (fun '(_, r) => wrap u64_max (requested_at r + request_timeout s) <? now) (order (pending_requests (flight s)))).
Definition is_stuck (f : Flight) (now : Z) (h : Z) (e : DownloadEntry) : bool :=
  bool_decide (pending_requests f !! h = None) && (wrap u64_max (entered_at e + STUCK_DOWNLOAD_TIMEOUT_SECS) <? now).
Definition stuck_entries (f : Flight) (now : Z) : list (Z * Z) :=
  map (fun '(h, e) => (seq e, h)) (List.filter (fun '(h, e) => is_stuck f now h e) (order (download_timestamps f))).

(** Take the listed hashes out of flight and put them back in the queue, in order. *)
Definition requeue (items : list (Z * Z)) (s : ChainSync) : ChainSync :=
  with_pending (push_front_ordered items (pending s))
    (with_flight (fold_left (fun f '(_, h) => drop_flight h f) items (flight s)) s).

Definition get_blocks_to_retry (clock : Z) (s : ChainSync) (now : Z) : ChainSync * list Z :=
  let to := timed_out s now in
  let s := requeue to s in
  let stuck := stuck_entries (flight s) now in
  let s := requeue stuck s in
  let s := match to ++ stuck with [] => s | _ => leave_synced clock s end in
  let s :=
    if (5 <=? Z.of_nat (length stuck)) && bool_decide (state s = Blocks) then
      let q := pending s in
      with_attribution (mkAttribution ∅ ∅)
        (with_pending (mkPending [] ∅ (pending_header_height q) (verified_header_hashes q))
          (with_blocks_entered_at None (enter_headers s)))
    else s in
  (s, map snd (to ++ stuck)).

Definition recover_stuck_downloads (clock : Z) (s : ChainSync) : ChainSync * Z :=
  let f := flight s in
  let items := map (fun h => (match download_timestamps f !! h with Some e => seq e | None => u64_max end, h))
                 (List.filter (fun h => bool_decide (pending_requests f !! h = None)) (set_order (downloading f))) in
  let s := requeue items s in
  (match items with [] => s | _ => leave_synced clock s end, Z.of_nat (length items)).

Definition on_peer_disconnected (clock : Z) (s : ChainSync) (peer : Z) : ChainSync :=
  let o := orphans s in
  let w := work s in
  let s := with_peer_failures (delete peer (peer_failures s)) s in
  let s := with_heights (refresh_best_known (with_peer_heights (delete peer (peer_heights (heights s))) (heights s))) s in
  let s := with_work (recompute_best_difficulty clock (with_claims (delete peer (peer_difficulties w)) (peer_difficulty_seen_at w) w)) s in
  let s := with_orphans (mkOrphans (orphan_blocks o) (orphan_by_parent o) (delete peer (orphans_per_peer o)) (last_orphan_cleanup o)) s in
  let rq := map (fun '(h, r) => (req_seq r, h)) (List.filter (fun '(_, r) => requested_from r =? peer) (order (pending_requests (flight s)))) in
  let s := requeue rq s in
  match rq with [] => s | _ => leave_synced clock s end.

Definition is_stalled (s : ChainSync) (now timeout : Z) : bool :=
  if settled s then false
  else
    let f := flight s in
    let all_to := negb (no_requests s)
      && forallb (fun '(_, r) => wrap u64_max (requested_at r + timeout) <? now) (order (pending_requests f)) in
    all_to || existsb (fun '(h, e) => is_stuck f now h e) (order (download_timestamps f)).

(** ** The orphan pool *)

(** Take a hash out of its parent's list. *)
Definition drop_child (parent hash : Z) (m : gmap Z (list Z)) : gmap Z (list Z) :=
  match m !! parent with
  | Some children =>
      let children := List.filter (fun h => negb (h =? hash)) children in
      match children with [] => delete parent m | _ => <[parent := children]> m end
  | None => m
  end.

Definition orphan_parent (o : OrphanBlock) : Z := Types.prev_hash (Types.header (block o)).

Definition remove_orphan (hash parent : Z) (o : Orphans) : Orphans :=
  mkOrphans (delete hash (orphan_blocks o)) (drop_child parent hash (orphan_by_parent o)) (orphans_per_peer o) (last_orphan_cleanup o).

Definition cleanup_expired_orphans (s : ChainSync) (current_time : Z) : ChainSync * Z :=
  let o := orphans s in
  let last := if current_time <? last_orphan_cleanup o then current_time else last_orphan_cleanup o in
  let o := mkOrphans (orphan_blocks o) (orphan_by_parent o) (orphans_per_peer o) last in
  if current_time <? wrap u64_max (last + ORPHAN_CLEANUP_INTERVAL) then (with_orphans o s, 0)
  else
    let o := mkOrphans (orphan_blocks o) (orphan_by_parent o) (orphans_per_peer o) current_time in
    let cutoff := saturating_sub current_time ORPHAN_TTL_SECONDS in
    let q := pending s in
    let q := mkPending (pending_headers q) (requeued_seq q)
               (filter (fun '(_, h) => local_height (heights s) < h) (pending_header_height q)) (verified_header_hashes q) in
    let expired := map (fun '(k, x) => (k, orphan_parent x))
                     (List.filter (fun '(_, x) => received_at x <=? cutoff) (order (orphan_blocks o))) in
    let o := fold_left (fun o '(bh, ph) => remove_orphan bh ph o) expired o in
    (with_orphans o (with_pending q s), Z.of_nat (length expired)).

Definition orphan_height (o : OrphanBlock) : Z := Types.block_height (block o).

(** One turn of the eviction loop: [inr] with the answer when it ends. *)
Definition room_step (height : Z) (o : Orphans) : Orphans + Orphans * bool :=
  if MAX_ORPHAN_BLOCKS <=? Z.of_nat (size (orphan_blocks o)) then
    match max_by_key (fun '(_, e) => orphan_height e) (order (orphan_blocks o)) with
    | Some (k, e) => if orphan_height e <=? height then inr (o, false) else inl (remove_orphan k (orphan_parent e) o)
    | None => inr (o, true)
    end
  else inr (o, true).

Definition make_room_for_orphan (height : Z) (o : Orphans) : Orphans * bool :=
  default (o, false) (iter (room_step height) (S (size (orphan_blocks o))) o).

Definition resolve_credit (origin : option Z) (m : gmap Z Z) : gmap Z Z :=
  match origin with
  | Some p => match m !! p with Some c => <[p := saturating_sub c 1]> m | None => m end
  | None => m
  end.

(** The children of a parent leave the pool. *)
Fixpoint take_children (children : list Z) (o : Orphans) (out : list OrphanBlock) : Orphans * list OrphanBlock :=
  match children with
  | [] => (o, out)
  | ch :: rest =>
      match orphan_blocks o !! ch with
      | Some x =>
          take_children rest (mkOrphans (delete ch (orphan_blocks o)) (orphan_by_parent o)
            (resolve_credit (from x) (orphans_per_peer o)) (last_orphan_cleanup o)) (out ++ [x])
      | None => take_children rest o out
      end
  end.

Definition take_of (parent : Z) (o : Orphans) : Orphans * list OrphanBlock :=
  match orphan_by_parent o !! parent with
  | Some children =>
      take_children children (mkOrphans (orphan_blocks o) (delete parent (orphan_by_parent o))
        (orphans_per_peer o) (last_orphan_cleanup o)) []
  | None => (o, [])
  end.

Definition take_orphans_of (s : ChainSync) (parent_hash : Z) : ChainSync * list (Types.Block * option Z) :=
  let '(o, l) := take_of parent_hash (orphans s) in
  (with_orphans o s, map (fun x => (block x, from x)) l).

Section Blocks.
Context (blake3 : list Z -> Z).
Abbreviation hash_of := (Types.block_hash blake3).

(** One parent of the breadth-first walk over the pool. *)
Definition walk_step (st : list Z * Orphans * list Types.Block)
  : (list Z * Orphans * list Types.Block) + (Orphans * list Types.Block) :=
  let '(queue, o, out) := st in
  match queue with
  | [] => inr (o, out)
  | ph :: queue =>
      let '(o, l) := take_of ph o in
      inl (queue ++ map (fun x => hash_of (block x)) l, o, out ++ map block l)
  end.

Definition deliver_with_orphans (b : Types.Block) (o : Orphans) : Orphans * list Types.Block :=
  default (o, [b]) (iter walk_step (S (S (size (orphan_blocks o)))) ([hash_of b], o, [b])).

Definition target_all (byte : Z) (b : Types.Block) : bool :=
  forallb (fun x => x =? byte) (be_bytes 32 (Types.target (Types.header b))).

(** [hash.meets_difficulty(&target)]: the bytes compare as big-endian numbers. *)
Definition meets_difficulty (hash target : Z) : bool := hash <=? target.

Definition blame (from : option Z) (s : ChainSync) : ChainSync :=
  match from with
  | Some p => with_peer_failures (<[p := wrap u32_max (count_of (peer_failures s) p + 1)]> (peer_failures s)) s
  | None => s
  end.

(** The per-peer count of pooled orphans; [None] at the cap. *)
Definition charge_orphan (from : option Z) (o : Orphans) : option Orphans :=
  match from with
  | Some p =>
      let c := count_of (orphans_per_peer o) p in
      if MAX_ORPHANS_PER_PEER <=? c then None
      else Some (mkOrphans (orphan_blocks o) (orphan_by_parent o) (<[p := c + 1]> (orphans_per_peer o)) (last_orphan_cleanup o))
  | None => Some o
  end.

Definition store_orphan (clock : Z) (b : Types.Block) (from : option Z) (o : Orphans) : Orphans :=
  let bh := hash_of b in
  let ph := Types.prev_hash (Types.header b) in
  mkOrphans (<[bh := mkOrphan b clock from]> (orphan_blocks o))
    (<[ph := default [] (orphan_by_parent o !! ph) ++ [bh]]> (orphan_by_parent o)) (orphans_per_peer o) (last_orphan_cleanup o).

(** [entry(pid).or_insert(0)] leaves a zero behind when the cap refuses. *)
Definition touch_peer (from : option Z) (o : Orphans) : Orphans :=
  match from with
  | Some p => mkOrphans (orphan_blocks o) (orphan_by_parent o) (<[p := count_of (orphans_per_peer o) p]> (orphans_per_peer o)) (last_orphan_cleanup o)
  | None => o
  end.

(** Make room, charge the peer and store the block. *)
Definition pool_orphan (clock : Z) (b : Types.Block) (from : option Z) (o : Orphans) : Orphans :=
  let '(o, room) := make_room_for_orphan (Types.block_height b) o in
  if room then match charge_orphan from o with Some o => store_orphan clock b from o | None => touch_peer from o end else o.

Definition on_block_received_from (clock : Z) (s : ChainSync) (b : Types.Block) (from : option Z) : ChainSync * list Types.Block :=
  let hash := hash_of b in
  let height := Types.block_height b in
  if saturating_add u64_max (local_height (heights s)) 10000 <? height then (blame from s, [])
  else if target_all 255 b || target_all 0 b then (blame from s, [])
  else if negb (meets_difficulty hash (Types.target (Types.header b))) then (blame from s, [])
  else
    let '(s, _) := cleanup_expired_orphans s clock in
    let was_req := bool_decide (hash ∈ downloading (flight s)) in
    let s := with_flight (drop_flight hash (flight s)) s in
    let connects := (Types.prev_hash (Types.header b) =? local_tip (heights s)) || (height =? 0) in
    if connects || was_req then
      let '(o, out) := deliver_with_orphans b (orphans s) in
      (with_blocks_delivered (saturating_add u64_max (blocks_delivered s) (Z.of_nat (length out))) (with_orphans o s), out)
    else (with_orphans (pool_orphan clock b from (orphans s)) s, []).

Definition mark_block_orphan (clock : Z) (s : ChainSync) (b : Types.Block) (from : option Z) (parent_hash : Z) : ChainSync :=
  let orphan_hash := hash_of b in
  let s := with_flight (drop_flight orphan_hash (flight s)) s in
  let s := if decide (is_Some (orphan_blocks (orphans s) !! orphan_hash)) then s
           else with_orphans (pool_orphan clock b from (orphans s)) s in
  if parent_hash =? local_tip (heights s) then s
  else if bool_decide (parent_hash ∈ downloading (flight s)) then s
  else if bool_decide (parent_hash ∈ pending_headers (pending s)) then s
  else if bool_decide (is_Some (orphan_blocks (orphans s) !! parent_hash)) then s
  else if Z.of_nat (length (pending_headers (pending s))) <? MAX_PH then
    let s := with_pending (push_front parent_hash (pending s)) s in
    if settled s then with_state Blocks s else s
  else s.
End Blocks.
End Orders.

Definition on_block_processed (s : ChainSync) (hash height : Z) : ChainSync :=
  let h := heights s in
  let q := pending s in
  let s := with_heights (refresh_best_known (mkHeights height hash (best_known_height h) (peer_heights h))) s in
  let s := with_pending (mkPending (pending_headers q) (requeued_seq q) (delete hash (pending_header_height q))
                           (verified_header_hashes q ∖ {[hash]})) s in
  if no_pending s && no_downloads s then
    let s := with_blocks_entered_at None s in
    if height <? saturating_sub (true_best_height (heights s)) 1 then with_headers_received_this_cycle false (with_state Headers s)
    else if (height =? 0) && negb (bool_decide (peer_heights h = ∅))
            && bool_decide (filter (fun '(_, x) => 0 < x) (peer_heights h) = ∅)
    then with_headers_received_this_cycle false (with_state Headers s)
    else with_headers_received_this_cycle false (with_state ConfirmingSynced s)
  else s.

(** ** Bans *)

Definition is_sync_banned (s : ChainSync) (peer now : Z) : bool :=
  match sync_banned_peers s !! peer with Some t => now <? t | None => false end.

Definition cleanup_sync_bans (s : ChainSync) (now : Z) : ChainSync :=
  with_sync_banned_peers (filter (fun '(_, t) => t <= now) (sync_banned_peers s)) s.

(** ** Header requests *)

Definition begin_headers_request (s : ChainSync) (peer now : Z) : ChainSync * option Z :=
  let r := requests s in
  match headers_request_time r with
  | Some _ => (s, None)
  | None =>
      let n := next_header_nonce r in
      (with_requests (mkRequests (Some now) None (<[n := (peer, header_nonce_generation r)]> (pending_header_nonces r))
                        (header_nonce_generation r) (wrap u64_max (n + 1))) s, Some n)
  end.

Definition is_header_nonce_outstanding (s : ChainSync) (n from_peer : Z) : bool :=
  match pending_header_nonces (requests s) !! n with
  | Some (peer, generation) => (peer =? from_peer) && (generation =? header_nonce_generation (requests s))
  | None => false
  end.

(** Take the nonce and end the request cycle. *)
Definition consume_nonce (s : ChainSync) (n : Z) : ChainSync :=
  let r := requests s in
  with_requests (mkRequests None None (delete n (pending_header_nonces r)) (header_nonce_generation r) (next_header_nonce r)) s.

Definition cancel_headers_request (s : ChainSync) (n peer : Z) : ChainSync * bool :=
  if is_header_nonce_outstanding s n peer then (consume_nonce s n, true) else (s, false).

Definition validate_header_nonce (s : ChainSync) (n from_peer : Z) : ChainSync * bool :=
  if is_header_nonce_outstanding s n from_peer then (consume_nonce s n, true) else (s, false).

Definition headers_timed_out (s : ChainSync) (now : Z) : bool :=
  match headers_request_time (requests s), headers_response_at (requests s) with
  | Some _, Some received => wrap u64_max (received + HEADERS_VERIFY_CAP_SECS) <? now
  | Some sent, None => wrap u64_max (sent + 60) <? now
  | None, _ => false
  end.

Definition mark_headers_received (s : ChainSync) (n from_peer now : Z) : ChainSync * bool :=
  if is_header_nonce_outstanding s n from_peer then
    let r := requests s in
    match headers_response_at r with
    | None => (with_requests (mkRequests (headers_request_time r) (Some now) (pending_header_nonces r)
                                (header_nonce_generation r) (next_header_nonce r)) s, true)
    | Some _ => (s, true)
    end
  else (s, false).

Definition headers_request_pending (s : ChainSync) : bool := bool_decide (is_Some (headers_request_time (requests s))).

Definition reset_headers_timeout (s : ChainSync) : ChainSync :=
  let r := requests s in
  with_requests (mkRequests None None ∅ (wrap u64_max (header_nonce_generation r + 1)) (next_header_nonce r)) s.

Definition request_timeout_scaled (s : ChainSync) (peer_count : Z) : Z :=
  let bonus := wrap u64_max (BLOCK_DOWNLOAD_TIMEOUT_PER_PEER * saturating_sub peer_count 1) in
  Z.max (request_timeout s) (saturating_add u64_max BLOCK_DOWNLOAD_TIMEOUT_BASE bonus).

(** ** The machine *)

Definition clear (s : ChainSync) : ChainSync :=
  let q := pending s in
  let s := with_flight (mkFlight ∅ ∅ ∅ (next_request_seq (flight s))) s in
  let s := with_orphans (mkOrphans ∅ ∅ ∅ (last_orphan_cleanup (orphans s))) s in
  let s := with_pending (mkPending [] ∅ (pending_header_height q) (verified_header_hashes q)) s in
  let s := with_attribution (mkAttribution ∅ ∅) s in
  with_blocks_entered_at None (with_state Idle s).

(** [P2PNode::force_resync] *)
Definition force_resync (s : ChainSync) : ChainSync := set_local_height (clear s) 0.

Definition trigger_resync (s : ChainSync) : ChainSync * bool :=
  match state s with Synced | Idle => (enter_headers s, true) | _ => (s, false) end.

Definition arm_near_tip_catchup (s : ChainSync) : ChainSync * bool :=
  let idle := no_pending s && no_downloads s && no_requests s && bool_decide (headers_response_at (requests s) = None) in
  if idle && negb (is_synced (heights s)) then (enter_headers s, true) else (s, false).

Definition blocks_state_stuck (s : ChainSync) (now : Z) : bool :=
  if decide (state s = Blocks) then
    match blocks_entered_at s with
    | Some e => no_pending s && no_downloads s && no_requests s
                && (local_height (heights s) <? true_best_height (heights s)) && (wrap u64_max (e + BLOCKS_STUCK_TIMEOUT) <? now)
    | None => false
    end
  else false.

Definition needs_more_peers (s : ChainSync) : bool := negb (is_synced (heights s)) && no_downloads s && no_pending s.

(** ** Locators *)

(** One turn of the loop of [build_locator], on the height, the step and the hashes. *)
Definition locator_step (get_hash : Z -> option Z) (st : Z * Z * list Z) : (Z * Z * list Z) + list Z :=
  let '(h, step, loc) := st in
  if 0 <? h then
    let loc := match get_hash h with Some x => loc ++ [x] | None => loc end in
    let step := if 10 <=? Z.of_nat (length loc) then wrap u64_max (step * 2) else step in
    if h <? step then inr loc else inl (h - step, step, loc)
  else inr loc.

Definition build_locator (tip : Z) (get_hash : Z -> option Z) : list Z :=
  let loc := default [] (iter (locator_step get_hash) (S (Z.to_nat tip)) (tip, 1, [])) in
  match get_hash 0 with
  | Some g => if decide (list.last loc = Some g) then loc else loc ++ [g]
  | None => loc
  end.
End Sync.
