(* ===== verification/SyncInv.v ===== *)
(** * Block synchronisation: invariants and behaviour

    Runs of the operations of [Sync] from a new manager, the invariants of each group of
    fields over all runs, and what the operations achieve: the delivery of a branch from the
    orphan pool, the recovery of overdue downloads, the matching of header responses, and
    the sync target. *)

From stdpp Require Import gmap list sorting.
From S2P Require Import Prelude Types Sync.

Module SyncInv.
Import Sync.

(** ** Which fields an operation touches *)

Ltac cases := repeat case_match; cbn in *; simplify_eq; try done.

(** The operations without a loop of their own. *)
Ltac unfold_ops :=
  unfold set_local_tip, set_local_height, update_peer_height_for, update_peer_height, update_peer_difficulty_for,
    set_local_total_difficulty, clear_peer_difficulty, remove_peer_height, retain_connected_peers, expire_stale_work_claims,
    set_state, note_header_heights, record_request, on_block_processed, on_block_success, increase_timeout, cleanup_sync_bans,
    begin_headers_request, cancel_headers_request, validate_header_nonce, mark_headers_received, mark_block_received,
    reset_headers_timeout, trigger_resync, arm_near_tip_catchup, clear, mark_block_failed, on_timeout in *.

Lemma flight_leave c s : flight (leave_synced c s) = flight s /\ pending (leave_synced c s) = pending s
  /\ orphans (leave_synced c s) = orphans s /\ attribution (leave_synced c s) = attribution s
  /\ heights (leave_synced c s) = heights s /\ work (leave_synced c s) = work s /\ requests (leave_synced c s) = requests s
  /\ request_timeout (leave_synced c s) = request_timeout s.
Proof. unfold leave_synced, stamp_blocks. cases. Qed.

Lemma leave_orphans c s : orphans (leave_synced c s) = orphans s.
Proof. apply flight_leave. Qed.

(** ** Blocks in flight *)

(** The three collections agree, a request carries the place of its download, and the
    requests are bounded. *)
Record flight_ok (f : Flight) : Prop := {
  fo_dom : dom (download_timestamps f) = downloading f;
  fo_req h r : pending_requests f !! h = Some r ->
    req_hash r = h /\ exists e, download_timestamps f !! h = Some e /\ seq e = req_seq r;
  fo_size : Z.of_nat (size (pending_requests f)) <= MAX_PENDING_REQUESTS }.

Lemma fo_in f h : flight_ok f -> h ∈ downloading f <-> is_Some (download_timestamps f !! h).
Proof. intros Hf. by rewrite <- (fo_dom f Hf), elem_of_dom. Qed.

Lemma fo_not f h : flight_ok f -> h ∉ downloading f -> download_timestamps f !! h = None /\ pending_requests f !! h = None.
Proof.
  intros Hf Hh. assert (Hn : download_timestamps f !! h = None).
  { apply eq_None_not_Some. by rewrite <- fo_in. }
  split; [done|]. destruct (pending_requests f !! h) as [r|] eqn:E; [|done].
  destruct (fo_req f Hf h r E) as (_ & e & He & _). congruence.
Qed.

Lemma next_seq_ok f : flight_ok f -> flight_ok (snd (next_seq f)).
Proof. intros [H1 H2 H3]. by split. Qed.

Lemma drop_flight_ok h f : flight_ok f -> flight_ok (drop_flight h f).
Proof.
  intros [H1 H2 H3]. split; cbn.
  - rewrite dom_delete_L. by rewrite H1.
  - intros k r [Hne Hr]%lookup_delete_Some. destruct (H2 k r Hr) as (Hh & e & He & Hs). split; [done|].
    exists e. by rewrite lookup_delete_ne.
  - etrans; [|exact H3]. apply inj_le, map_subseteq_size, delete_subseteq.
Qed.

Lemma requeue_ok items s : flight_ok (flight s) -> flight_ok (flight (requeue items s)).
Proof.
  unfold requeue. cbn. generalize (flight s) as f. induction items as [|[n x] l IH]; intros f Hf; [done|]. by apply IH, drop_flight_ok.
Qed.

Lemma enter_flight_ok h e f : flight_ok f -> h ∉ downloading f -> flight_ok (enter_flight h e f).
Proof.
  intros Hf Hh. destruct (fo_not f h Hf Hh) as [_ Hn]. destruct Hf as [H1 H2 H3]. split; cbn; [|intros k r Hr|done].
  - by rewrite dom_insert_L, H1.
  - destruct (H2 k r Hr) as (Hk & e' & He & Hs). split; [done|]. exists e'. rewrite lookup_insert_ne by congruence. done.
Qed.

Lemma flight_clear n : flight_ok (mkFlight ∅ ∅ ∅ n).
Proof. split; cbn; [set_solver| |]; [intros h r; by rewrite lookup_empty|by rewrite map_size_empty]. Qed.

(** Dropping several hashes. *)
Lemma drop_all_spec (items : list (Z * Z)) f : let f' := fold_left (fun f '(_, h) => drop_flight h f) items f in
  forall h, (h ∈ downloading f' <-> h ∈ downloading f /\ h ∉ map snd items)
  /\ download_timestamps f' !! h = (if decide (h ∈ map snd items) then None else download_timestamps f !! h)
  /\ pending_requests f' !! h = (if decide (h ∈ map snd items) then None else pending_requests f !! h).
Proof.
  revert f. induction items as [|[n x] items IH]; intros f f' h; cbn [fold_left map snd] in *.
  - rewrite !decide_False by apply not_elem_of_nil. rewrite elem_of_nil. tauto.
  - destruct (IH (drop_flight x f) h) as (H1 & H2 & H3). subst f'. rewrite H1, H2, H3. cbn [drop_flight downloading download_timestamps pending_requests].
    split; [rewrite elem_of_difference, elem_of_singleton, elem_of_cons; tauto|].
    destruct (decide (h ∈ map snd items)).
    { by rewrite !decide_True by (apply elem_of_cons; by right). }
    destruct (decide (h = x)) as [->|Hne].
    { rewrite !lookup_delete_eq. by rewrite !decide_True by apply list_elem_of_here. }
    rewrite !lookup_delete_ne by done. by rewrite !decide_False by (by intros [? | ?]%elem_of_cons).
Qed.

Lemma insert_by_key_perm x l : insert_by_key x l ≡ₚ x :: l.
Proof. induction l as [|y l IH]; cbn; [done|]. destruct (_ <=? _); [done|]. rewrite IH. apply Permutation_swap. Qed.

Lemma sort_by_key_perm l : sort_by_key l ≡ₚ l.
Proof. induction l as [|x l IH]; cbn; [done|]. by rewrite insert_by_key_perm, IH. Qed.

Lemma insert_by_key_sorted x l : StronglySorted (fun a b : Z * Z => a.1 <= b.1) l -> StronglySorted (fun a b : Z * Z => a.1 <= b.1) (insert_by_key x l).
Proof.
  induction 1 as [|y l Hs IH Hy]; cbn; [repeat constructor|]. destruct (Z.leb_spec x.1 y.1).
  - constructor; [by constructor|]. constructor; [done|]. eapply list.Forall_impl; [exact Hy|]. cbn. lia.
  - constructor; [done|]. rewrite insert_by_key_perm. apply list.Forall_cons. split; [lia|done].
Qed.

Lemma sort_by_key_sorted l : StronglySorted (fun a b : Z * Z => a.1 <= b.1) (sort_by_key l).
Proof. induction l as [|x l IH]; cbn; [constructor|]. by apply insert_by_key_sorted. Qed.

Create HintDb sync.
#[local] Hint Resolve drop_flight_ok requeue_ok next_seq_ok flight_clear : sync.

(** ** Attribution of queued headers *)

(** How many queued headers are attributed to a peer. *)
Definition share (p : Z) (m : gmap Z Z) : Z := Z.of_nat (size (filter (fun '(_, x) => x = p) m)).

(** The counters are exact and within the cap, and an attributed header is in the queue. *)
Record attribution_ok (q : list Z) (a : Attribution) : Prop := {
  ao_count p : match headers_per_peer a !! p with
               | Some n => n = share p (pending_header_peer a) /\ 0 < n <= MAX_HEADERS_PER_PEER
               | None => share p (pending_header_peer a) = 0
               end;
  ao_queued h p : pending_header_peer a !! h = Some p -> h ∈ q }.

Lemma share_nonneg p m : 0 <= share p m.
Proof. unfold share. lia. Qed.

Lemma share_insert p p' h (m : gmap Z Z) : m !! h = None ->
  share p (<[h := p']> m) = share p m + (if decide (p' = p) then 1 else 0).
Proof.
  intros Hn. unfold share. destruct (decide (p' = p)) as [->|Hne].
  - rewrite map_filter_insert_True by done. rewrite map_size_insert_None; [lia|].
    apply map_lookup_filter_None. by left.
  - rewrite map_filter_insert_False by done. rewrite delete_id by done. lia.
Qed.

Lemma share_delete p p' h (m : gmap Z Z) : m !! h = Some p' ->
  share p m = share p (delete h m) + (if decide (p' = p) then 1 else 0).
Proof.
  intros Hs. rewrite <- (insert_delete_id m h p') at 1 by done. apply share_insert, lookup_delete_eq.
Qed.

Lemma share_pos h p (m : gmap Z Z) : m !! h = Some p -> 0 < share p m.
Proof. intros H. rewrite (share_delete p p h m H), decide_True by done. pose proof (share_nonneg p (delete h m)). lia. Qed.

Lemma attribution_clear q : attribution_ok q (mkAttribution ∅ ∅).
Proof. split; cbn; intros; [by rewrite lookup_empty|]. by rewrite lookup_empty in *. Qed.

Lemma attribution_grow q q' a : attribution_ok q a -> q ⊆ q' -> attribution_ok q' a.
Proof. intros [H1 H2] Hq. split; [done|]. intros h p Hp. by apply Hq, (H2 h p). Qed.

Lemma untrack_ok h rest a : attribution_ok (h :: rest) a -> attribution_ok rest (untrack_pending_header h a).
Proof.
  intros [H1 H2]. unfold untrack_pending_header. destruct (pending_header_peer a !! h) as [p|] eqn:Eh.
  - pose proof (H1 p) as Hp. pose proof (share_pos h p _ Eh) as Hpos.
    destruct (headers_per_peer a !! p) as [n|] eqn:En; [|lia]. destruct Hp as [Hn Hb].
    assert (Hd : forall p', share p' (delete h (pending_header_peer a))
                  = share p' (pending_header_peer a) - (if decide (p = p') then 1 else 0)).
    { intros p'. rewrite (share_delete p' p h _ Eh). lia. }
    split; cbn.
    + intros p'. rewrite Hd. specialize (H1 p'). destruct (decide (p = p')) as [<-|Hne].
      * destruct (Z.ltb_spec 1 n); [rewrite lookup_insert_eq|rewrite lookup_delete_eq]; lia.
      * replace ((if 1 <? n then <[p := n - 1]> (headers_per_peer a) else delete p (headers_per_peer a)) !! p')
          with (headers_per_peer a !! p').
        2: { destruct (1 <? n); [by rewrite lookup_insert_ne|by rewrite lookup_delete_ne]. }
        destruct (headers_per_peer a !! p'); lia.
    + intros h' p' [Hne Hh]%lookup_delete_Some. apply H2, elem_of_cons in Hh as [-> | ?]; done.
  - split; [done|]. intros h' p' Hh. pose proof (H2 h' p' Hh) as [-> | ?]%elem_of_cons; [congruence|done].
Qed.

(** The loop adds to the queue and charges the peer what it adds. *)
Lemma queue_loop_some known p cap l : forall q hp added q' hp' added', 0 <= added ->
  queue_loop known (Some p) (Some cap) l q hp added = (q', hp', added') ->
  added <= added' /\ (added <= cap -> added' <= cap)
  /\ share p hp' = share p hp + (added' - added)
  /\ (forall p', p' <> p -> share p' hp' = share p' hp)
  /\ pending_headers q `prefix_of` pending_headers q'
  /\ (forall h x, hp' !! h = Some x -> hp !! h = Some x \/ h ∈ pending_headers q').
Proof.
  induction l as [|hash l IH]; intros q hp added q' hp' added' Ha; cbn [queue_loop].
  { intros [= <- <- <-]. split_and!; try done; [lia|intros h x Hx; by left]. }
  destruct (MAX_PH <=? _); [intros [= <- <- <-]; split_and!; try done; [lia|intros h x Hx; by left]|].
  destruct (Z.leb_spec cap added); [intros [= <- <- <-]; split_and!; try done; [lia|intros h x Hx; by left]|].
  destruct (negb (known hash) && bool_decide (hp !! hash = None)) eqn:Ek.
  - apply andb_true_iff in Ek as [_ Hn%bool_decide_eq_true]. intros H1.
    apply IH in H1 as (G1 & G2 & G3 & G4 & G5 & G6); [|lia]. cbn [with_pending_headers note_verified pending_headers] in G5.
    split_and!; [lia|lia| | | |].
    + rewrite G3, share_insert, decide_True by done. lia.
    + intros p' Hne. rewrite G4, share_insert, decide_False by done. lia.
    + by apply prefix_app_l in G5.
    + intros h x Hx. destruct (G6 h x Hx) as [Hi|Hi]; [|by right]. destruct (decide (h = hash)) as [->|Hne].
      * right. destruct G5 as [k ->]. apply elem_of_app. left. apply elem_of_app. right. apply list_elem_of_singleton. done.
      * left. by rewrite lookup_insert_ne in Hi.
  - intros H1. apply IH in H1 as (G1 & G2 & G3 & G4 & G5 & G6); [|lia]. done.
Qed.

Lemma queue_loop_none known l : forall q hp added q' hp' added',
  queue_loop known None None l q hp added = (q', hp', added') ->
  hp' = hp /\ pending_headers q `prefix_of` pending_headers q'.
Proof.
  induction l as [|hash l IH]; intros q hp added q' hp' added'; cbn [queue_loop]; [by intros [= <- <- <-]|].
  destruct (MAX_PH <=? _); [by intros [= <- <- <-]|].
  destruct (negb (known hash) && _); intros [-> Hp]%IH; split; try done. by apply prefix_app_l in Hp.
Qed.

Lemma queue_attribution_ok c s l peer : attribution_ok (pending_headers (pending s)) (attribution s) ->
  attribution_ok (pending_headers (pending (queue_headers_inner c s l peer))) (attribution (queue_headers_inner c s l peer)).
Proof.
  intros Ha. unfold queue_headers_inner. destruct l as [|h l]; [cases|]. cbn [with_headers_received_this_cycle attribution pending].
  destruct (queue_loop _ _ _ _ _ _ _) as [[q hp] added] eqn:E. unfold stamp_blocks.
  set (counts := match peer with Some _ => _ | None => _ end). enough (H : attribution_ok (pending_headers q) (mkAttribution hp counts)) by cases.
  destruct peer as [p|].
  - apply queue_loop_some in E as (G1 & G2 & G3 & G4 & G5 & G6); [|lia]. destruct Ha as [H1 H2].
    pose proof (H1 p) as Hp. set (n := count_of (headers_per_peer (attribution s)) p) in *.
    assert (Hn : n = share p (pending_header_peer (attribution s)) /\ 0 <= n <= MAX_HEADERS_PER_PEER).
    { subst n. unfold count_of. destruct (headers_per_peer (attribution s) !! p); cbn; [lia|]. unfold MAX_HEADERS_PER_PEER. lia. }
    unfold saturating_sub in G2. split; cbn [pending_header_peer headers_per_peer].
    + intros p'. subst counts. destruct (decide (p' = p)) as [->|Hne].
      * destruct (Z.ltb_spec 0 added); [rewrite lookup_insert_eq; lia|]. rewrite G3. replace (added - 0) with 0 by lia.
        rewrite Z.add_0_r. apply H1.
      * rewrite G4 by done. replace ((if 0 <? added then _ else _) !! p') with (headers_per_peer (attribution s) !! p'); [apply H1|].
        destruct (0 <? added); [by rewrite lookup_insert_ne|done].
    + intros h' x Hx. destruct (G6 h' x Hx) as [Hi|Hi]; [|done]. destruct G5 as [k ->]. apply elem_of_app. left. by apply (H2 h' x).
  - apply queue_loop_none in E as [-> [k ->]]. subst counts. eapply attribution_grow; [by destruct Ha|].
    intros x Hx. apply elem_of_app. by left.
Qed.

(** ** The orphan pool *)

Section Pool.
(** The blocks that can reach the node: one hash, one parent. *)
Context (blake3 : list Z -> Z) (known : Types.Block -> Prop).
Abbreviation hash_of := (Types.block_hash blake3).
Hypothesis one_parent : forall b b', known b -> known b' -> hash_of b = hash_of b' ->
  Types.prev_hash (Types.header b) = Types.prev_hash (Types.header b').

Definition kids (o : Orphans) (p : Z) : list Z := default [] (orphan_by_parent o !! p).

(** Every block is under its hash and listed under its parent, and nothing else is. *)
Record pool_ok (o : Orphans) : Prop := {
  po_hash h x : orphan_blocks o !! h = Some x -> hash_of (block x) = h;
  po_known h x : orphan_blocks o !! h = Some x -> known (block x);
  po_index p h : h ∈ kids o p <-> exists x, orphan_blocks o !! h = Some x /\ orphan_parent x = p;
  po_nonempty p : orphan_by_parent o !! p <> Some [];
  po_size : Z.of_nat (size (orphan_blocks o)) <= MAX_ORPHAN_BLOCKS }.

Lemma pool_counters o c t : pool_ok o -> pool_ok (mkOrphans (orphan_blocks o) (orphan_by_parent o) c t).
Proof. intros [H1 H2 H3 H4 H5]. by split. Qed.

Lemma pool_empty c t : pool_ok (mkOrphans ∅ ∅ c t).
Proof.
  split; cbn.
  - intros h x. by rewrite lookup_empty.
  - intros h x. by rewrite lookup_empty.
  - intros p h. unfold kids. cbn. rewrite lookup_empty. cbn. rewrite elem_of_nil. split; [done|]. intros (x & Hx & _).
    by rewrite lookup_empty in Hx.
  - intros p. by rewrite lookup_empty.
  - by rewrite map_size_empty.
Qed.

Lemma drop_child_kids o p h q : (forall q', orphan_by_parent o !! q' <> Some []) ->
  let m := drop_child p h (orphan_by_parent o) in
  (forall k, k ∈ default [] (m !! q) <-> k ∈ kids o q /\ ~ (q = p /\ k = h)) /\ m !! q <> Some [].
Proof.
  intros Hne m. subst m. unfold drop_child, kids. destruct (orphan_by_parent o !! p) as [l|] eqn:Ep.
  - assert (Hf : forall k, k ∈ List.filter (fun h' => negb (h' =? h)) l <-> k ∈ l /\ k <> h).
    { intros k. rewrite list_elem_of_In, filter_In, <- list_elem_of_In, negb_true_iff, Z.eqb_neq. done. }
    destruct (List.filter _ l) as [|y l'] eqn:El.
    + destruct (decide (q = p)) as [->|Hq].
      * rewrite lookup_delete_eq, Ep. cbn. split; [|done]. intros k. rewrite Hf. tauto.
      * rewrite lookup_delete_ne by done. split; [|apply Hne]. intros k. tauto.
    + destruct (decide (q = p)) as [->|Hq].
      * rewrite lookup_insert_eq, Ep. cbn [default]. split; [|done]. intros k. rewrite Hf. tauto.
      * rewrite lookup_insert_ne by done. split; [|apply Hne]. intros k. tauto.
  - split; [|apply Hne]. intros k. split; [|tauto]. intros Hk. split; [done|]. intros [-> ->]. rewrite Ep in Hk. by apply elem_of_nil in Hk.
Qed.

Lemma remove_orphan_ok h p o : pool_ok o -> (forall x, orphan_blocks o !! h = Some x -> orphan_parent x = p) -> pool_ok (remove_orphan h p o).
Proof.
  intros [H1 H2 H3 H4 H5] Hp. split; cbn.
  - intros k x [_ Hx]%lookup_delete_Some. by apply H1.
  - intros k x [_ Hx]%lookup_delete_Some. by apply (H2 k).
  - intros q k. unfold kids. cbn. rewrite (proj1 (drop_child_kids o p h q H4) k), H3. split.
    + intros ((x & Hx & <-) & Hn). exists x. split; [|done]. rewrite lookup_delete_ne; [done|]. intros ->. apply Hn. split; [|done]. by apply Hp.
    + intros (x & [Hne Hx]%lookup_delete_Some & <-). split; [eauto|]. intros [_ ->]. done.
  - intros q. apply (drop_child_kids o p h q H4).
  - etrans; [|exact H5]. apply inj_le, map_subseteq_size, delete_subseteq.
Qed.

Lemma remove_orphans_ok l : forall o, pool_ok o ->
  (forall h p, (h, p) ∈ l -> forall x, orphan_blocks o !! h = Some x -> orphan_parent x = p) ->
  pool_ok (fold_left (fun o '(bh, ph) => remove_orphan bh ph o) l o).
Proof.
  induction l as [|[h p] l IH]; intros o Ho Hl; [done|]. cbn [fold_left]. apply IH.
  - apply remove_orphan_ok; [done|]. apply Hl, list_elem_of_here.
  - intros h' p' Hin x. cbn [remove_orphan orphan_blocks]. intros [_ Hx]%lookup_delete_Some. apply (Hl h'); [by right|done].
Qed.

Lemma store_orphan_ok c b f o : pool_ok o -> known b -> Z.of_nat (size (orphan_blocks o)) < MAX_ORPHAN_BLOCKS ->
  pool_ok (store_orphan blake3 c b f o).
Proof.
  intros [H1 H2 H3 H4 H5] Hb Hsz. unfold store_orphan. set (bh := hash_of b). set (ph := Types.prev_hash (Types.header b)).
  assert (Hsame : forall x, orphan_blocks o !! bh = Some x -> orphan_parent x = ph).
  { intros x Hx. apply (one_parent (block x) b); [by apply (H2 bh)|done|by apply H1]. }
  split; cbn.
  - intros h x. destruct (decide (h = bh)) as [->|Hne]; [rewrite lookup_insert_eq; by intros [= <-]|rewrite lookup_insert_ne by done; apply H1].
  - intros h x. destruct (decide (h = bh)) as [->|Hne]; [rewrite lookup_insert_eq; by intros [= <-]|rewrite lookup_insert_ne by done; apply H2].
  - intros p h. assert (Hk : h ∈ default [] (<[ph := kids o ph ++ [bh]]> (orphan_by_parent o) !! p) <-> h ∈ kids o p \/ (p = ph /\ h = bh)).
    { destruct (decide (p = ph)) as [->|Hne].
      - rewrite lookup_insert_eq. cbn [from_option id]. rewrite elem_of_app, list_elem_of_singleton. tauto.
      - rewrite lookup_insert_ne by done. fold (kids o p). tauto. }
    unfold kids in *. cbn. rewrite Hk, H3. destruct (decide (h = bh)) as [->|Hne].
    + rewrite lookup_insert_eq. split.
      * intros [(x & Hx & <-) | [-> _]]; eexists; (split; [reflexivity|]); cbn; [symmetry; by apply Hsame|done].
      * intros (x & [= <-] & <-). by right.
    + rewrite lookup_insert_ne by done. split; [intros [? | [_ ?]]; done|tauto].
  - intros p. destruct (decide (p = ph)) as [->|Hne]; [|by rewrite lookup_insert_ne]. rewrite lookup_insert_eq. intros [= He]. by apply app_nil in He as [_ ?].
  - rewrite map_size_insert. unfold id. destruct (orphan_blocks o !! bh); cbn; lia.
Qed.

(** *** Taking the children of a block *)

Lemma take_children_spec cs : forall o out, exists o' l, take_children cs o out = (o', out ++ l)
  /\ orphan_by_parent o' = orphan_by_parent o
  /\ orphan_blocks o' = filter (fun '(h, _) => h ∉ cs) (orphan_blocks o)
  /\ (size (orphan_blocks o) = size (orphan_blocks o') + length l)%nat
  /\ (forall x, x ∈ l <-> exists h, h ∈ cs /\ orphan_blocks o !! h = Some x)
  /\ (forall g : OrphanBlock -> Z, (forall h x, orphan_blocks o !! h = Some x -> g x = h) -> NoDup (map g l)).
Proof.
  induction cs as [|ch cs IH]; intros o out; cbn [take_children].
  - exists o, []. rewrite app_nil_r. split_and!; [done|done| |cbn; lia| |].
    + symmetry. apply map_filter_id. intros h x _. apply not_elem_of_nil.
    + intros x. rewrite elem_of_nil. split; [done|]. intros (h & Hh & _). by apply elem_of_nil in Hh.
    + intros. constructor.
  - destruct (orphan_blocks o !! ch) as [y|] eqn:Ey.
    + set (o1 := mkOrphans _ _ _ _). destruct (IH o1 (out ++ [y])) as (o' & l & -> & E1 & E2 & E3 & E4 & E5).
      cbn [o1 orphan_by_parent orphan_blocks] in *. exists o', (y :: l). rewrite <- app_assoc. split_and!; [done|done| | | |].
      * rewrite E2. apply map_eq. intros h. apply option_eq. intros x. rewrite !map_lookup_filter_Some, lookup_delete_Some.
        rewrite not_elem_of_cons. naive_solver.
      * rewrite map_size_delete_Some in E3 by eauto. cbn [length].
        assert (size (orphan_blocks o) <> 0%nat); [|lia]. intros Hz%map_size_empty_inv. by rewrite Hz, lookup_empty in Ey.
      * intros x. rewrite elem_of_cons, E4. setoid_rewrite elem_of_cons. setoid_rewrite lookup_delete_Some. split.
        -- intros [-> | (h & Hh & Hne & Hx)]; eauto.
        -- intros (h & [-> | Hh] & Hx); [left; congruence|]. destruct (decide (ch = h)) as [->|Hne]; [left; congruence|]. right. eauto.
      * intros g Hg. cbn [map]. apply list.NoDup_cons. split.
        -- intros (x & Hx & Hin)%list_elem_of_fmap. apply E4 in Hin as (h & _ & [Hne Hh]%lookup_delete_Some).
           rewrite (Hg h x Hh), (Hg ch y Ey) in Hx. congruence.
        -- apply E5. intros h x [_ Hh]%lookup_delete_Some. by apply Hg.
    + destruct (IH o out) as (o' & l & -> & E1 & E2 & E3 & E4 & E5). exists o', l. split_and!; try done.
      * rewrite E2. apply map_eq. intros h. apply option_eq. intros x. rewrite !map_lookup_filter_Some, not_elem_of_cons. naive_solver.
      * intros x. rewrite E4. setoid_rewrite elem_of_cons. split; [naive_solver|]. intros (h & [-> | Hh] & Hx); [congruence|eauto].
Qed.

(** What [take_of] hands out is the pooled children of the block, and no more. *)
Lemma take_of_spec ph o : pool_ok o -> exists o' l, take_of ph o = (o', l) /\ pool_ok o'
  /\ (forall h x, orphan_blocks o' !! h = Some x <-> orphan_blocks o !! h = Some x /\ orphan_parent x <> ph)
  /\ (forall x, x ∈ l <-> exists h, orphan_blocks o !! h = Some x /\ orphan_parent x = ph)
  /\ (size (orphan_blocks o) = size (orphan_blocks o') + length l)%nat
  /\ NoDup (map (fun x => hash_of (block x)) l).
Proof.
  intros Ho. pose proof Ho as [H1 H2 H3 H4 H5]. unfold take_of. destruct (orphan_by_parent o !! ph) as [cs|] eqn:Ec.
  - assert (Hcs : forall h, h ∈ cs <-> exists x, orphan_blocks o !! h = Some x /\ orphan_parent x = ph).
    { intros h. rewrite <- H3. unfold kids. by rewrite Ec. }
    set (o1 := mkOrphans _ _ _ _). destruct (take_children_spec cs o1 []) as (o' & l & -> & E1 & E2 & E3 & E4 & E5).
    cbn [o1 orphan_by_parent orphan_blocks app] in *. exists o', l.
    assert (Hl : forall h x, orphan_blocks o' !! h = Some x <-> orphan_blocks o !! h = Some x /\ orphan_parent x <> ph).
    { intros h x. rewrite E2, map_lookup_filter_Some, Hcs. split; intros [Hx Hn]; (split; [done|]).
      - intros Hp. apply Hn. eauto.
      - intros (y & Hy & Hp). congruence. }
    split_and!; [done| |done| |done|apply (E5 (fun x => hash_of (block x))), H1].
    + split.
      * intros h x [Hx _]%Hl. by apply H1.
      * intros h x [Hx _]%Hl. by apply (H2 h).
      * intros p h. unfold kids. rewrite E1. setoid_rewrite Hl. destruct (decide (p = ph)) as [->|Hne].
        -- rewrite lookup_delete_eq. cbn. rewrite elem_of_nil. split; [done|]. by intros (x & [_ ?] & ?).
        -- rewrite lookup_delete_ne by done. fold (kids o p). rewrite H3. split; [intros (x & Hx & <-); eauto|intros (x & [Hx _] & <-); eauto].
      * intros p. rewrite E1, lookup_delete_Some. intros [_ Hp]. by apply (H4 p).
      * lia.
    + intros x. rewrite E4. setoid_rewrite Hcs. split.
      * intros (h & (y & Hy & Hp) & Hx). exists h. split; [done|]. congruence.
      * intros (h & Hx & Hp). eauto.
  - assert (Hno : forall h x, orphan_blocks o !! h = Some x -> orphan_parent x <> ph).
    { intros h x Hx Hp. assert (Hk : h ∈ kids o ph) by (apply H3; eauto). unfold kids in Hk. rewrite Ec in Hk. by apply elem_of_nil in Hk. }
    exists o, []. split_and!; [done|done| | |cbn; lia|constructor].
    + intros h x. split; [intros Hx; split; [done|by apply (Hno h)]|tauto].
    + intros x. rewrite elem_of_nil. split; [done|]. intros (h & Hx & Hp). by apply (Hno h x).
Qed.

(** *** Delivering a block with its pooled descendants *)

(** The pooled blocks that descend from the block with hash [r]. *)
Inductive descends (o : Orphans) (r : Z) : OrphanBlock -> Prop :=
| desc_child h x : orphan_blocks o !! h = Some x -> orphan_parent x = r -> descends o r x
| desc_step h x y : orphan_blocks o !! h = Some x -> descends o r y -> orphan_parent x = hash_of (block y) -> descends o r x.

(** Each block after the first comes after its parent. *)
Definition parents_first (out : list Types.Block) : Prop :=
  forall i b, out !! S i = Some b -> exists j a, (j <= i)%nat /\ out !! j = Some a /\ Types.prev_hash (Types.header b) = hash_of a.

Lemma parents_first_app out l a : parents_first out -> out <> [] -> a ∈ out ->
  (forall x, x ∈ l -> Types.prev_hash (Types.header x) = hash_of a) -> parents_first (out ++ l).
Proof.
  intros Hp Hne [ja Hj]%list_elem_of_lookup Hl i b Hb. apply lookup_app_Some in Hb as [Hb | [Hge Hb]].
  - destruct (Hp i b Hb) as (j & c & Hji & Hc & He). exists j, c. split_and!; [done|by apply lookup_app_l_Some|done].
  - exists ja, a. pose proof (lookup_lt_Some _ _ _ Hj). split_and!; [lia|by apply lookup_app_l_Some|].
    apply Hl. by eapply list_elem_of_lookup_2.
Qed.

(** The state of the walk: the blocks already handed out, of which a first part has no
    child left in the pool and the rest is the queue. *)
Record walk_ok (b : Types.Block) (o0 : Orphans) (queue : list Z) (o : Orphans) (out : list Types.Block) : Prop := {
  wk_pool : pool_ok o;
  wk_out : exists l, out = b :: map block l /\ (forall x, x ∈ l <-> (exists h, orphan_blocks o0 !! h = Some x) /\ ~ (exists h, orphan_blocks o !! h = Some x))
                     /\ (forall x, x ∈ l -> descends o0 (hash_of b) x)
                     /\ (size (orphan_blocks o0) = size (orphan_blocks o) + length l)%nat
                     /\ NoDup (map (fun x => hash_of (block x)) l);
  wk_sub : orphan_blocks o ⊆ orphan_blocks o0;
  wk_first : parents_first out;
  wk_done : exists d r, out = d ++ r /\ queue = map hash_of r
            /\ (forall a h x, a ∈ d -> orphan_blocks o !! h = Some x -> orphan_parent x <> hash_of a) }.

Lemma walk_step_ok b o0 queue o out st' : pool_ok o0 -> walk_ok b o0 queue o out ->
  walk_step blake3 (queue, o, out) = inl st' ->
  walk_ok b o0 st'.1.1 st'.1.2 st'.2 /\ (length st'.1.1 + size (orphan_blocks st'.1.2) < length queue + size (orphan_blocks o))%nat.
Proof.
  intros Ho0 [Hp (l & Eo & Hl & Hd & Hs & Hn) Hsub Hf (d & r & Ed & Eq & Hdone)]. unfold walk_step.
  destruct queue as [|ph queue]; [done|]. destruct r as [|a r]; [done|]. cbn [map] in Eq. injection Eq as -> ->.
  destruct (take_of_spec (hash_of a) o Hp) as (o' & t & -> & Hp' & Hl' & Ht & Hs' & Hn'). intros [= <-]. cbn [fst snd].
  assert (Ha : a ∈ out) by (rewrite Ed; apply elem_of_app; right; constructor).
  assert (Hsub' : orphan_blocks o' ⊆ orphan_blocks o) by (apply map_subseteq_spec; intros h x [Hx _]%Hl'; done).
  assert (Htin : forall x, x ∈ t -> exists h, orphan_blocks o0 !! h = Some x /\ orphan_parent x = hash_of a).
  { intros x (h & Hx & Hxp)%Ht. exists h. split; [by eapply lookup_weaken|done]. }
  split.
  - split; [done| |by etrans| |].
    + exists (l ++ t). split_and!.
      * by rewrite Eo, map_app.
      * intros x. rewrite elem_of_app, Hl, Ht. split.
        -- intros [[Hin Hno] | (h & Hx & Hxp)].
           ++ split; [done|]. intros (h & [Hx _]%Hl'). eauto.
           ++ split; [exists h; by eapply lookup_weaken|]. intros (h' & [_ Hnp]%Hl'). done.
        -- intros [[h Hin] Hno]. destruct (orphan_blocks o !! h) as [y|] eqn:Ey.
           ++ assert (y = x) as -> by (assert (orphan_blocks o0 !! h = Some y) by (by eapply lookup_weaken); congruence).
              right. exists h. split; [done|]. destruct (decide (orphan_parent x = hash_of a)); [done|].
              destruct Hno. exists h. by apply Hl'.
           ++ left. split; [eauto|]. intros (h' & Hx'). assert (h' = h); [|congruence].
              by rewrite <- (po_hash o Hp h' x Hx'), <- (po_hash o0 Ho0 h x Hin).
      * intros x [Hx | Hx]%elem_of_app; [by apply Hd|]. destruct (Htin x Hx) as (h & Hx0 & Hxp).
        rewrite Eo in Ha. apply elem_of_cons in Ha as [-> | (y & -> & Hy)%list_elem_of_fmap]; [by eapply desc_child|].
        eapply desc_step; [done|by apply Hd|done].
      * rewrite length_app. lia.
      * rewrite map_app. apply list.NoDup_app. split_and!; [done| |done].
        intros k (x & -> & Hx)%list_elem_of_fmap (y & Hy & (h & Hyo & _)%Ht)%list_elem_of_fmap.
        apply Hl in Hx as [(hx & Hx0) Hno]. apply Hno.
        assert (h = hx) as ->.
        { rewrite <- (po_hash o Hp h y Hyo), <- (po_hash o0 Ho0 hx x Hx0). done. }
        assert (orphan_blocks o0 !! hx = Some y) by (by eapply lookup_weaken). exists hx. congruence.
    + apply (parents_first_app _ _ a); [done|by rewrite Eo|done|]. intros c (x & -> & Hx)%list_elem_of_fmap.
      by destruct (Htin x Hx) as (h & _ & Hxp).
    + exists (d ++ [a]), (r ++ map block t). split_and!.
      * rewrite Ed. by rewrite <- !app_assoc.
      * by rewrite map_app, map_map.
      * intros c h x [Hc | ->%list_elem_of_singleton]%elem_of_app [Hx Hnp]%Hl'; [by apply (Hdone c h)|done].
  - rewrite length_app. cbn [length]. rewrite !length_map. lia.
Qed.

Lemma deliver_spec b o : pool_ok o -> exists o' l, deliver_with_orphans blake3 b o = (o', b :: map block l) /\ pool_ok o'
  /\ (forall x, x ∈ l <-> descends o (hash_of b) x)
  /\ (forall h x, orphan_blocks o' !! h = Some x <-> orphan_blocks o !! h = Some x /\ ~ descends o (hash_of b) x)
  /\ parents_first (b :: map block l) /\ NoDup (map (fun x => hash_of (block x)) l).
Proof.
  intros Ho. set (I := fun st : list Z * Orphans * list Types.Block => walk_ok b o st.1.1 st.1.2 st.2).
  assert (Hinit : I ([hash_of b], o, [b])).
  { split; cbn; [done| |done| |].
    - exists []. split_and!; [done| | |cbn; lia|constructor].
      + intros x. rewrite elem_of_nil. split; [done|]. by intros [? []].
      + by intros x ?%elem_of_nil.
    - intros i c Hc. done.
    - exists [], [b]. split_and!; [done|done|]. by intros a h x ?%elem_of_nil. }
  assert (Hstep : forall st st', I st -> walk_step blake3 st = inl st' ->
    I st' /\ (length st'.1.1 + size (orphan_blocks st'.1.2) < length st.1.1 + size (orphan_blocks st.1.2))%nat).
  { intros [[q o1] out] st' Hst Hw. by apply (walk_step_ok b o q o1 out st'). }
  destruct (iter_total (walk_step blake3) (fun st => length st.1.1 + size (orphan_blocks st.1.2))%nat I Hstep
    (S (S (size (orphan_blocks o)))) ([hash_of b], o, [b]) Hinit) as [[o' out] Hit]; [cbn; lia|].
  assert (Hend : walk_ok b o [] o' out).
  { refine (iter_inv (walk_step blake3) I (fun r => walk_ok b o [] r.1 r.2) _ _ _ _ _ Hinit Hit).
    - intros st st' Hst Hw. by apply (Hstep st st').
    - intros [[q o1] out1] r Hst. unfold walk_step. destruct q as [|ph q]; [|by destruct (take_of ph o1)]. intros [= <-]. exact Hst. }
  destruct Hend as [Hp (l & -> & Hl & Hd & _ & Hn) Hsub Hf (d & r & Ed & Er & Hdone)].
  assert (r = []) as -> by (by destruct r). rewrite app_nil_r in Ed. subst d.
  assert (Hin : forall x, descends o (hash_of b) x -> x ∈ l).
  { intros x Hx. induction Hx as [h x Hx Hxp | h x y Hx Hy IH Hxp].
    - apply Hl. split; [eauto|]. intros (h' & Hx'). apply (Hdone b h' x); [constructor|done|done].
    - apply Hl. split; [eauto|]. intros (h' & Hx'). apply (Hdone (block y) h' x); [|done|done].
      right. apply list_elem_of_fmap. eauto. }
  exists o', l. unfold deliver_with_orphans. rewrite Hit. split_and!; try done.
  - intros x. split; [apply Hd|apply Hin].
  - intros h x. split.
    + intros Hx. split; [by eapply lookup_weaken|]. intros Hdx%Hin%Hl. destruct Hdx as [_ Hno]. eauto.
    + intros [Hx Hnd]. destruct (orphan_blocks o' !! h) as [y|] eqn:Ey.
      * assert (orphan_blocks o !! h = Some y) by (by eapply lookup_weaken). congruence.
      * destruct Hnd. apply Hd, Hl. split; [eauto|]. intros (h' & Hx').
        assert (h' = h) as ->; [|congruence]. rewrite <- (po_hash o Ho h x Hx). by rewrite (po_hash o' Hp h' x Hx').
Qed.
End Pool.

Section Machine.
Context (order : forall A, gmap Z A -> list (Z * A)) (set_order : gset Z -> list Z) (epoch_key : Z -> Z) (blake3 : list Z -> Z).

(** ** Runs *)

Inductive Op :=
| SetLocalTip (height tip : Z)
| SetLocalHeight (height : Z)
| UpdatePeerHeightFor (peer height : Z)
| UpdatePeerHeight (height : Z)
| UpdatePeerDifficultyFor (clock peer d : Z)
| SetLocalTotalDifficulty (clock d : Z)
| ClearPeerDifficulty (clock peer : Z)
| RemovePeerHeight (clock peer : Z)
| RetainConnectedPeers (clock : Z) (connected : gset Z)
| ExpireStaleWorkClaims (clock now ttl : Z)
| SetState (st : SyncState)
| NoteHeaderHeights (l : list (Z * Z))
| QueueHeaders (clock : Z) (l : list Z)
| QueueHeadersFromPeer (clock peer : Z) (l : list Z)
| GetBlocksToRequest (clock max : Z)
| RecordRequest (hash peer ts : Z)
| OnBlockReceivedFrom (clock : Z) (b : Types.Block) (from : option Z)
| TakeOrphansOf (parent : Z)
| MarkBlockReceived (hash : Z)
| MarkBlockFailed (hash : Z)
| MarkBlockOrphan (clock : Z) (b : Types.Block) (from : option Z) (parent : Z)
| OnBlockProcessed (hash height : Z)
| OnTimeout (clock hash : Z)
| OnBlockSuccess (peer : Z)
| IncreaseTimeout
| CleanupSyncBans (now : Z)
| CleanupExpiredOrphans (now : Z)
| BeginHeadersRequest (peer now : Z)
| CancelHeadersRequest (n peer : Z)
| ValidateHeaderNonce (n peer : Z)
| MarkHeadersReceived (n peer now : Z)
| ResetHeadersTimeout
| RequeueFailed (clock : Z) (l : list Z)
| Clear
| GetBlocksToRetry (clock now : Z)
| RecoverStuckDownloads (clock : Z)
| OnPeerDisconnected (clock peer : Z)
| TriggerResync
| ArmNearTipCatchup.

Definition exec (s : ChainSync) (op : Op) : ChainSync :=
  match op with
  | SetLocalTip h t => set_local_tip s h t
  | SetLocalHeight h => set_local_height s h
  | UpdatePeerHeightFor p h => update_peer_height_for s p h
  | UpdatePeerHeight h => update_peer_height s h
  | UpdatePeerDifficultyFor c p d => update_peer_difficulty_for c s p d
  | SetLocalTotalDifficulty c d => set_local_total_difficulty c s d
  | ClearPeerDifficulty c p => clear_peer_difficulty c s p
  | RemovePeerHeight c p => remove_peer_height c s p
  | RetainConnectedPeers c k => fst (retain_connected_peers c s k)
  | ExpireStaleWorkClaims c n t => fst (expire_stale_work_claims c s n t)
  | SetState st => set_state s st
  | NoteHeaderHeights l => note_header_heights s l
  | QueueHeaders c l => queue_headers c s l
  | QueueHeadersFromPeer c p l => queue_headers_from_peer c s p l
  | GetBlocksToRequest c m => fst (get_blocks_to_request epoch_key c s m)
  | RecordRequest h p t => record_request order s h p t
  | OnBlockReceivedFrom c b f => fst (on_block_received_from order blake3 c s b f)
  | TakeOrphansOf p => fst (take_orphans_of s p)
  | MarkBlockReceived h => mark_block_received s h
  | MarkBlockFailed h => mark_block_failed s h
  | MarkBlockOrphan c b f p => mark_block_orphan order blake3 c s b f p
  | OnBlockProcessed h n => on_block_processed s h n
  | OnTimeout c h => on_timeout c s h
  | OnBlockSuccess p => on_block_success s p
  | IncreaseTimeout => increase_timeout s
  | CleanupSyncBans n => cleanup_sync_bans s n
  | CleanupExpiredOrphans n => fst (cleanup_expired_orphans order s n)
  | BeginHeadersRequest p n => fst (begin_headers_request s p n)
  | CancelHeadersRequest n p => fst (cancel_headers_request s n p)
  | ValidateHeaderNonce n p => fst (validate_header_nonce s n p)
  | MarkHeadersReceived n p t => fst (mark_headers_received s n p t)
  | ResetHeadersTimeout => reset_headers_timeout s
  | RequeueFailed c l => requeue_failed c s l
  | Clear => clear s
  | GetBlocksToRetry c n => fst (get_blocks_to_retry order c s n)
  | RecoverStuckDownloads c => fst (recover_stuck_downloads set_order c s)
  | OnPeerDisconnected c p => on_peer_disconnected order c s p
  | TriggerResync => fst (trigger_resync s)
  | ArmNearTipCatchup => fst (arm_near_tip_catchup s)
  end.

Definition run (s : ChainSync) (ops : list Op) : ChainSync := fold_left exec ops s.

Hypothesis order_perm : forall A (m : gmap Z A), order A m ≡ₚ map_to_list m.

Lemma order_elem {A} (m : gmap Z A) k x : (k, x) ∈ order A m <-> m !! k = Some x.
Proof. by rewrite order_perm, elem_of_map_to_list. Qed.

Lemma order_full {A} (m : gmap Z A) n : 0 < n -> n <= Z.of_nat (size m) -> order A m <> [].
Proof.
  intros Hn Hs He. pose proof (order_perm A m) as Hp. rewrite He in Hp. apply Permutation_nil_l in Hp. symmetry in Hp.
  apply map_to_list_empty_iff in Hp. rewrite Hp, map_size_empty in Hs. lia.
Qed.

Lemma min_by_key_some {A} (key : A -> Z) l : l <> [] -> exists x, min_by_key key l = Some x /\ x ∈ l.
Proof.
  unfold min_by_key. destruct l as [|x l]; [done|]. intros _. cbn [fold_left]. revert x.
  assert (H : forall (l : list A) x, exists y, fold_left (fun acc z => match acc with Some w => if key z <? key w then Some z else Some w
            | None => Some z end) l (Some x) = Some y /\ y ∈ x :: l).
  { intros l'. induction l' as [|z l' IH]; intros x; cbn [fold_left]; [exists x; split; [done|constructor]|].
    destruct (key z <? key x).
    - destruct (IH z) as (y & Hy & Hin). exists y. split; [done|]. by right.
    - destruct (IH x) as (y & Hy & Hin). exists y. split; [done|]. apply elem_of_cons in Hin as [-> | Hin]; [by left|]. by right; right. }
  intros x. apply H.
Qed.

Lemma pop_header_ok c s h rest : flight_ok (flight s) -> flight_ok (flight (fst (pop_header c s h rest))).
Proof.
  intros Hf. unfold pop_header. cbn. destruct (bool_decide_reflect (h ∈ downloading (flight s))); [done|].
  destruct (requeued_seq (pending s) !! h); cbn; [by apply enter_flight_ok|]. apply enter_flight_ok; [by apply next_seq_ok|done].
Qed.

Lemma request_loop_ok c limit queue : forall s out, flight_ok (flight s) ->
  flight_ok (flight (fst (request_loop epoch_key c limit queue s out))).
Proof.
  induction queue as [|h rest IH]; intros s out Hf; cbn [request_loop]; [done|].
  destruct (limit <=? _); [done|]. destruct (crosses_key_epoch _ _ _); [done|].
  pose proof (pop_header_ok c s h rest Hf) as Hp. destruct (pop_header c s h rest) as [s1 fr]. by apply IH.
Qed.

Lemma record_request_ok s h p t : flight_ok (flight s) -> flight_ok (flight (record_request order s h p t)).
Proof.
  intros Hf. unfold record_request. set (f1 := if _ && _ then _ else _).
  assert (H1 : flight_ok f1 /\ (pending_requests f1 !! h = None -> Z.of_nat (size (pending_requests f1)) < MAX_PENDING_REQUESTS)).
  { subst f1. destruct (Z.leb_spec MAX_PENDING_REQUESTS (Z.of_nat (size (pending_requests (flight s))))) as [Hle|Hlt]; cbn [andb]; [|done].
    destruct (bool_decide_reflect (pending_requests (flight s) !! h = None)) as [Hn|Hn]; [|done].
    destruct (min_by_key_some (fun '(_, r) => requested_at r) (order _ (pending_requests (flight s)))) as ([k r] & -> & Hin).
    { by apply (order_full _ MAX_PENDING_REQUESTS). }
    split; [by apply drop_flight_ok|]. intros _. apply order_elem in Hin. cbn. rewrite map_size_delete_Some by eauto.
    pose proof (fo_size _ Hf). assert (size (pending_requests (flight s)) <> 0%nat).
    { intros Hz%map_size_empty_inv. by rewrite Hz, lookup_empty in Hin. }
    lia. }
  destruct H1 as [Hf1 Hsz]. clearbody f1.
  destruct (download_timestamps f1 !! h) as [e|] eqn:He; cbn [with_flight flight].
  - destruct Hf1 as [H1 H2 H3]. split; cbn.
    + assert (h ∈ downloading f1) by (rewrite <- H1; apply elem_of_dom; eauto). set_solver.
    + intros k r. destruct (decide (k = h)) as [->|Hne].
      * rewrite lookup_insert_eq. intros [= <-]. cbn. eauto.
      * rewrite lookup_insert_ne by done. apply H2.
    + destruct (pending_requests f1 !! h) eqn:E.
      * rewrite map_size_insert_Some by eauto. done.
      * rewrite map_size_insert_None by done. specialize (Hsz eq_refl). lia.
  - assert (Hh : h ∉ downloading f1) by (rewrite (fo_in f1 h Hf1), He; by intros [? [=]]).
    destruct (fo_not f1 h Hf1 Hh) as [_ Hn]. destruct (enter_flight_ok h (mkEntry t (next_request_seq f1)) (snd (next_seq f1))) as [G1 G2 G3];
      [by apply next_seq_ok|done|].
    split; cbn in *.
    + done.
    + intros k r. destruct (decide (k = h)) as [->|Hne].
      * rewrite !lookup_insert_eq. intros [= <-]. cbn. eauto.
      * rewrite (lookup_insert_ne (pending_requests f1)) by done. apply G2.
    + rewrite map_size_insert_None by done. specialize (Hsz Hn). lia.
Qed.

Lemma mark_all_failed_ok l s : flight_ok (flight s) -> flight_ok (flight (fold_left (fun s h => mark_block_failed s h) l s)).
Proof. revert s. induction l as [|h l IH]; intros s Hf; [done|]. apply IH. by apply drop_flight_ok. Qed.

Lemma queue_flight c s l peer : flight (queue_headers_inner c s l peer) = flight s.
Proof.
  unfold queue_headers_inner, stamp_blocks. destruct l as [|h l]; [cases|].
  destruct (queue_loop _ _ _ _ _ _ _) as [[q hp] added]. cases.
Qed.

Lemma cleanup_flight s t : flight (fst (cleanup_expired_orphans order s t)) = flight s.
Proof. unfold cleanup_expired_orphans. cases. Qed.

Lemma exec_flight_ok s op : flight_ok (flight s) -> flight_ok (flight (exec s op)).
Proof.
  intros Hf. destruct op; cbn [exec];
    try (unfold_ops; unfold take_orphans_of, queue_headers, queue_headers_from_peer;
         rewrite ?queue_flight, ?cleanup_flight; cases; auto with sync; fail).
  - by apply request_loop_ok.
  - by apply record_request_ok.
  - unfold on_block_received_from, blame. cases; try (by destruct from); pose proof (cleanup_flight s clock) as Hc;
      rewrite H2 in Hc; cbn in Hc; rewrite Hc; by apply drop_flight_ok.
  - unfold mark_block_orphan. cases; by apply drop_flight_ok.
  - unfold requeue_failed. destruct l; [by apply mark_all_failed_ok|]. rewrite (proj1 (flight_leave _ _)). by apply mark_all_failed_ok.
  - unfold get_blocks_to_retry. cbn [fst]. set (s1 := requeue _ s). set (s2 := requeue _ s1).
    assert (flight_ok (flight s2)) by (by do 2 apply requeue_ok). clearbody s2.
    set (s3 := match _ with [] => _ | _ => _ end). assert (flight s3 = flight s2) as E by (subst s3; cases; apply flight_leave).
    clearbody s3. destruct (_ && _); cbn; by rewrite E.
  - unfold recover_stuck_downloads. cbn [fst]. cases; rewrite ?(proj1 (flight_leave _ _)); by apply requeue_ok.
  - unfold on_peer_disconnected. set (s1 := with_orphans _ _). assert (flight_ok (flight s1)) by done. clearbody s1.
    cases; rewrite ?(proj1 (flight_leave _ _)); by apply requeue_ok.
Qed.

(** *** Attribution over runs *)

Definition queue_ok (s : ChainSync) : Prop := attribution_ok (pending_headers (pending s)) (attribution s).

Lemma queue_ok_frame s s' : attribution s' = attribution s -> pending_headers (pending s) ⊆ pending_headers (pending s') ->
  queue_ok s -> queue_ok s'.
Proof. unfold queue_ok. intros -> Hp Hq. by eapply attribution_grow. Qed.

Lemma push_front_ordered_headers items q :
  pending_headers (push_front_ordered items q) = map snd (sort_by_key items) ++ pending_headers q.
Proof.
  unfold push_front_ordered. rewrite <- (rev_involutive (sort_by_key items)) at 2. generalize (rev (sort_by_key items)) as l.
  intros l. revert q. induction l as [|[n h] l IH]; intros q; [done|]. cbn [fold_left rev]. rewrite IH. cbn [pending_headers].
  rewrite map_app. cbn. by rewrite <- app_assoc.
Qed.

Lemma requeue_queue_ok items s : queue_ok s -> queue_ok (requeue items s).
Proof.
  apply queue_ok_frame; [done|]. cbn. rewrite push_front_ordered_headers. intros x Hx. apply elem_of_app. by right.
Qed.

Lemma leave_queue_ok c s : queue_ok s -> queue_ok (leave_synced c s).
Proof. destruct (flight_leave c s) as (_ & Hp & _ & Ha & _). apply queue_ok_frame; [done|by rewrite Hp]. Qed.

Lemma failed_queue_ok s h : queue_ok s -> queue_ok (mark_block_failed s h).
Proof.
  apply queue_ok_frame; [done|]. cbn. unfold keep_seq. intros x Hx. right. by destruct (download_timestamps (flight s) !! h).
Qed.

Lemma all_failed_queue_ok l s : queue_ok s -> queue_ok (fold_left (fun s h => mark_block_failed s h) l s).
Proof. revert s. induction l as [|h l IH]; intros s Hq; [done|]. apply IH. by apply failed_queue_ok. Qed.

Lemma request_loop_queue_ok c limit queue : forall s out, pending_headers (pending s) = queue -> queue_ok s ->
  queue_ok (fst (request_loop epoch_key c limit queue s out)).
Proof.
  induction queue as [|h rest IH]; intros s out Hp Hq; cbn [request_loop]; [done|].
  destruct (limit <=? _); [done|]. destruct (crosses_key_epoch _ _ _); [done|].
  assert (H1 : queue_ok (fst (pop_header c s h rest)) /\ pending_headers (pending (fst (pop_header c s h rest))) = rest).
  { unfold queue_ok in *. rewrite Hp in Hq. apply untrack_ok in Hq. unfold pop_header. cbn. cases. }
  destruct (pop_header c s h rest) as [s1 fr]. destruct H1. by apply IH.
Qed.

Lemma exec_queue_ok s op : queue_ok s -> queue_ok (exec s op).
Proof.
  intros Hq. destruct op; cbn [exec];
    try (apply (queue_ok_frame s); [| |exact Hq];
         unfold_ops; unfold take_orphans_of, cleanup_expired_orphans; cases; fail).
  - by apply queue_attribution_ok.
  - by apply queue_attribution_ok.
  - by apply request_loop_queue_ok.
  - apply (queue_ok_frame s); [| |exact Hq]; unfold on_block_received_from, blame, cleanup_expired_orphans; cases; by destruct from.
  - by apply failed_queue_ok.
  - apply (queue_ok_frame s); [| |exact Hq]; unfold mark_block_orphan; cases; intros x Hx; by right.
  - apply (queue_ok_frame s); [| |exact Hq]; unfold on_timeout; cases; intros x Hx; by right.
  - unfold requeue_failed. destruct l; [by apply all_failed_queue_ok|]. by apply leave_queue_ok, all_failed_queue_ok.
  - apply attribution_clear.
  - unfold get_blocks_to_retry. cbn [fst]. set (s1 := requeue _ s). set (s2 := requeue _ s1).
    assert (queue_ok s2) by (by do 2 apply requeue_queue_ok). clearbody s2.
    set (s3 := match _ with [] => _ | _ => _ end). assert (queue_ok s3) by (subst s3; cases; by apply leave_queue_ok). clearbody s3.
    destruct (_ && _); [|done]. apply attribution_clear.
  - unfold recover_stuck_downloads. cbn [fst]. cases; try apply leave_queue_ok; by apply requeue_queue_ok.
  - unfold on_peer_disconnected. set (s1 := with_orphans _ _). assert (queue_ok s1) by done. clearbody s1.
    cases; try apply leave_queue_ok; by apply requeue_queue_ok.
Qed.

(** *** The orphan pool over runs *)

Lemma max_by_key_some {A} (key : A -> Z) l : l <> [] ->
  exists x, max_by_key key l = Some x /\ x ∈ l /\ forall y, y ∈ l -> key y <= key x.
Proof.
  unfold max_by_key. destruct l as [|x l]; [done|]. intros _. cbn [fold_left]. revert x.
  assert (H : forall (l : list A) x, exists y, fold_left (fun acc z => match acc with Some w => if key w <=? key z then Some z else Some w
            | None => Some z end) l (Some x) = Some y /\ y ∈ x :: l /\ forall z, z ∈ x :: l -> key z <= key y).
  { intros l'. induction l' as [|z l' IH]; intros x; cbn [fold_left].
    - exists x. split_and!; [done|constructor|]. by intros z ->%list_elem_of_singleton.
    - destruct (Z.leb_spec (key x) (key z)) as [Hle|Hlt].
      + destruct (IH z) as (y & Hy & Hin & Hmax). exists y. split_and!; [done|by right|].
        intros w [-> | Hw]%elem_of_cons; [|by apply Hmax]. etrans; [exact Hle|]. apply Hmax. constructor.
      + destruct (IH x) as (y & Hy & Hin & Hmax). exists y. split_and!; [done| |].
        * apply elem_of_cons in Hin as [-> | Hin]; [by left|]. by right; right.
        * intros w [-> | [-> | Hw]%elem_of_cons]%elem_of_cons; [apply Hmax; constructor| |apply Hmax; by right].
          etrans; [|apply Hmax; constructor]. lia. }
  intros x. apply H.
Qed.

Section Pool.
Context (known : Types.Block -> Prop).
Hypothesis one_parent : forall b b', known b -> known b' -> Types.block_hash blake3 b = Types.block_hash blake3 b' ->
  Types.prev_hash (Types.header b) = Types.prev_hash (Types.header b').
Abbreviation pool_ok := (pool_ok blake3 known).

Lemma room_step_ok height o o' : pool_ok o -> room_step order height o = inl o' ->
  pool_ok o' /\ (size (orphan_blocks o') < size (orphan_blocks o))%nat.
Proof.
  intros Ho. unfold room_step. destruct (Z.leb_spec MAX_ORPHAN_BLOCKS (Z.of_nat (size (orphan_blocks o)))); [|done].
  destruct (max_by_key_some (fun '(_, e) => orphan_height e) (order _ (orphan_blocks o))) as ([k e] & -> & Hin & _).
  { by apply (order_full _ MAX_ORPHAN_BLOCKS). }
  apply order_elem in Hin. destruct (_ <=? _); intros [= <-]. split.
  - apply remove_orphan_ok; [done|]. intros x Hx. congruence.
  - cbn. rewrite map_size_delete_Some by eauto.
    assert (size (orphan_blocks o) <> 0%nat); [|lia]. intros Hz%map_size_empty_inv. by rewrite Hz, lookup_empty in Hin.
Qed.

(** The loop ends within its fuel; it refuses only a block that is at least as far from the
    tip as everything in a full pool. *)
Lemma make_room_spec height o : pool_ok o -> exists o' r, make_room_for_orphan order height o = (o', r) /\ pool_ok o'
  /\ iter (room_step order height) (S (size (orphan_blocks o))) o = Some (o', r)
  /\ (r = true -> Z.of_nat (size (orphan_blocks o')) < MAX_ORPHAN_BLOCKS)
  /\ (r = false -> MAX_ORPHAN_BLOCKS <= Z.of_nat (size (orphan_blocks o'))
        /\ forall h x, orphan_blocks o' !! h = Some x -> orphan_height x <= height).
Proof.
  intros Ho. destruct (iter_total (room_step order height) (fun o => size (orphan_blocks o)) pool_ok
    (fun o o' => room_step_ok height o o') (S (size (orphan_blocks o))) o Ho) as [[o' r] Hit]; [lia|].
  exists o', r. unfold make_room_for_orphan. rewrite Hit. split_and!; [done|..|done| |].
  - refine (iter_inv (room_step order height) pool_ok (fun x => pool_ok x.1) _ _ _ _ _ Ho Hit).
    + intros x y Hx Hs. by apply (room_step_ok height x y).
    + intros x [y c] Hx. unfold room_step. cases; by intros [= <- _].
  - intros ->. refine (iter_inv (room_step order height) pool_ok (fun x => x.2 = true -> Z.of_nat (size (orphan_blocks x.1)) < MAX_ORPHAN_BLOCKS)
      _ _ _ _ _ Ho Hit eq_refl).
    + intros x y Hx Hs. by apply (room_step_ok height x y).
    + intros x [y c] Hx. unfold room_step. destruct (Z.leb_spec MAX_ORPHAN_BLOCKS (Z.of_nat (size (orphan_blocks x)))); [|intros [= <- <-]; cbn; lia].
      destruct (max_by_key_some (fun '(_, e) => orphan_height e) (order _ (orphan_blocks x))) as ([k e] & -> & _).
      { by apply (order_full _ MAX_ORPHAN_BLOCKS). }
      destruct (_ <=? _); [|done]. by intros [= <- <-].
  - intros ->. refine (iter_inv (room_step order height) pool_ok (fun x => x.2 = false -> MAX_ORPHAN_BLOCKS <= Z.of_nat (size (orphan_blocks x.1))
        /\ forall h y, orphan_blocks x.1 !! h = Some y -> orphan_height y <= height) _ _ _ _ _ Ho Hit eq_refl).
    + intros x y Hx Hs. by apply (room_step_ok height x y).
    + intros x [y c] Hx. unfold room_step. destruct (Z.leb_spec MAX_ORPHAN_BLOCKS (Z.of_nat (size (orphan_blocks x)))); [|by intros [= <- <-]].
      destruct (decide (order _ (orphan_blocks x) = [])) as [He|He]; [rewrite He; cbn; by intros [= <- <-]|].
      destruct (max_by_key_some (fun '(_, e) => orphan_height e) _ He) as ([k e] & -> & _ & Hmax).
      destruct (Z.leb_spec (orphan_height e) height); [|done]. intros [= <- <-] _. cbn. split; [done|].
      intros h z Hz. specialize (Hmax (h, z)). cbn in Hmax. rewrite order_elem in Hmax. specialize (Hmax Hz). lia.
Qed.

Lemma pool_orphan_ok c b f o : pool_ok o -> known b -> pool_ok (pool_orphan order blake3 c b f o).
Proof.
  intros Ho Hb. unfold pool_orphan. destruct (make_room_spec (Types.block_height b) o Ho) as (o' & r & -> & Ho' & _ & Hr & _).
  destruct r; [|done]. unfold charge_orphan, touch_peer. destruct f as [p|]; [|apply store_orphan_ok; [done|done|done|by apply Hr]].
  destruct (_ <=? _); [by apply pool_counters|]. apply store_orphan_ok; [done|by apply pool_counters|done|by apply Hr].
Qed.

Lemma cleanup_pool_ok s t : pool_ok (orphans s) -> pool_ok (orphans (fst (cleanup_expired_orphans order s t))).
Proof.
  intros Ho. unfold cleanup_expired_orphans. set (last := if _ <? _ then _ else _). destruct (_ <? _); [by apply pool_counters|].
  cbn [fst with_orphans orphans orphan_blocks orphan_by_parent orphans_per_peer]. apply remove_orphans_ok; [exact (pool_counters blake3 known (orphans s) _ _ Ho)|].
  cbn [orphan_blocks]. intros h p ([k x] & [= -> ->] & Hin)%list_elem_of_fmap y Hy.
  apply list_elem_of_In, filter_In in Hin as [Hin _]. apply list_elem_of_In, order_elem in Hin. congruence.
Qed.

Definition op_known (op : Op) : Prop :=
  match op with OnBlockReceivedFrom _ b _ | MarkBlockOrphan _ b _ _ => known b | _ => True end.

Lemma queue_orphans c s l peer : orphans (queue_headers_inner c s l peer) = orphans s.
Proof.
  unfold queue_headers_inner, stamp_blocks. destruct l as [|h l]; [cases|].
  destruct (queue_loop _ _ _ _ _ _ _) as [[q hp] added]. cases.
Qed.

Lemma all_failed_orphans l s : orphans (fold_left (fun s h => mark_block_failed s h) l s) = orphans s.
Proof. revert s. induction l as [|h l IH]; intros s; [done|]. cbn [fold_left]. by rewrite IH. Qed.

Lemma request_loop_orphans c limit queue : forall s out, orphans (fst (request_loop epoch_key c limit queue s out)) = orphans s.
Proof.
  induction queue as [|h rest IH]; intros s out; cbn [request_loop]; [done|].
  destruct (limit <=? _); [done|]. destruct (crosses_key_epoch _ _ _); [done|].
  assert (Hp : orphans (fst (pop_header c s h rest)) = orphans s) by (unfold pop_header; cases).
  destruct (pop_header c s h rest) as [s1 fr]. by rewrite IH.
Qed.

Lemma exec_pool_ok s op : op_known op -> pool_ok (orphans s) -> pool_ok (orphans (exec s op)).
Proof.
  intros Hk Ho. assert (Hframe : forall s', orphans s' = orphans s -> pool_ok (orphans s')) by (by intros s' ->).
  destruct op; cbn [exec op_known] in *; try (apply Hframe; unfold_ops; cases; fail).
  - apply Hframe, queue_orphans.
  - apply Hframe, queue_orphans.
  - apply Hframe, request_loop_orphans.
  - unfold on_block_received_from. pose proof (cleanup_pool_ok s clock Ho) as Hc.
    destruct (_ <? _); [apply Hframe; by destruct from0|]. destruct (_ || _); [apply Hframe; by destruct from0|].
    destruct (negb _); [apply Hframe; by destruct from0|]. destruct (cleanup_expired_orphans order s clock) as [s1 n]. cbn [fst] in Hc.
    destruct (_ || _).
    + destruct (deliver_spec blake3 known b (orphans (with_flight (drop_flight (Types.block_hash blake3 b) (flight s1)) s1)) Hc)
        as (o' & l & -> & Ho' & _). done.
    + by apply pool_orphan_ok.
  - unfold take_orphans_of. by destruct (take_of_spec blake3 known parent (orphans s) Ho) as (o' & l & -> & Ho' & _).
  - unfold mark_block_orphan. set (s1 := if decide _ then _ else _). assert (H1 : pool_ok (orphans s1)).
    { subst s1. destruct (decide _); [done|]. by apply pool_orphan_ok. }
    clearbody s1. cases.
  - by apply cleanup_pool_ok.
  - apply Hframe. unfold requeue_failed. destruct l; [apply all_failed_orphans|].
    rewrite leave_orphans. apply all_failed_orphans.
  - apply pool_empty.
  - apply Hframe. unfold get_blocks_to_retry. cbn [fst]. set (s1 := requeue _ s). set (s2 := requeue _ s1).
    set (s3 := match _ with [] => _ | _ => _ end). assert (E : orphans s3 = orphans s2) by (subst s3; destruct (_ ++ _); [done|apply leave_orphans]).
    clearbody s3. destruct (_ && _); cbn; by rewrite E.
  - apply Hframe. unfold recover_stuck_downloads. cbn [fst]. cases; by rewrite leave_orphans.
  - unfold on_peer_disconnected. set (s1 := with_orphans _ _). assert (H1 : pool_ok (orphans s1)) by (by apply pool_counters).
    clearbody s1. cases; by rewrite leave_orphans.
Qed.
End Pool.

(** *** Properties of runs *)

Lemma ops_inv (I : ChainSync -> Prop) (P : Op -> Prop) s ops :
  (forall s op, P op -> I s -> I (exec s op)) -> I s -> Forall P ops -> I (run s ops).
Proof.
  intros Hstep. revert s. induction ops as [|op ops IH]; intros s HI HP; [done|]. apply list.Forall_cons in HP as [Hop HP].
  apply IH; [by apply Hstep|done].
Qed.

Lemma run_flight_ok h t ops : flight_ok (flight (run (new h t) ops)).
Proof.
  apply (ops_inv (fun s => flight_ok (flight s)) (fun _ => True)); [intros s op _; apply exec_flight_ok|apply flight_clear|].
  by apply Forall_true.
Qed.

(** C31: the download books balance in every run of the manager from start: the set of
    blocks in flight is exactly the set with a time stamp, every request to a peer is for a
    block in flight and carries its place in the download order, at most 10,000 requests are
    outstanding; and the per-peer counters of queued headers are exact, within the cap of
    5,000, and count headers that are in the queue. *)
Theorem sync_books_exact h t ops : let s := run (new h t) ops in
  dom (download_timestamps (flight s)) = downloading (flight s)
  /\ (forall k r, pending_requests (flight s) !! k = Some r -> k ∈ downloading (flight s)
        /\ exists e, download_timestamps (flight s) !! k = Some e /\ seq e = req_seq r)
  /\ Z.of_nat (size (pending_requests (flight s))) <= MAX_PENDING_REQUESTS
  /\ (forall p, count_of (headers_per_peer (attribution s)) p = share p (pending_header_peer (attribution s))
        /\ share p (pending_header_peer (attribution s)) <= MAX_HEADERS_PER_PEER)
  /\ (forall k p, pending_header_peer (attribution s) !! k = Some p -> k ∈ pending_headers (pending s)).
Proof.
  intros s. pose proof (run_flight_ok h t ops) as Hf. fold s in Hf.
  assert (Hq : queue_ok s).
  { apply (ops_inv queue_ok (fun _ => True)); [intros s' op _; apply exec_queue_ok|apply attribution_clear|]. by apply Forall_true. }
  split_and!; [apply Hf| |apply Hf| |apply Hq].
  - intros k r Hr. destruct (fo_req _ Hf k r Hr) as (_ & e & He & Hs). split; [|eauto]. apply fo_in; eauto.
  - intros p. pose proof (ao_count _ _ Hq p) as Hp. unfold count_of.
    destruct (headers_per_peer (attribution s) !! p); cbn; [lia|]. unfold MAX_HEADERS_PER_PEER. lia.
Qed.

(** A block in flight that is overdue: its request has timed out, or it has none and has
    waited too long. *)
Definition overdue (s : ChainSync) (now k : Z) : Prop :=
  (exists r, pending_requests (flight s) !! k = Some r /\ wrap u64_max (requested_at r + request_timeout s) < now)
  \/ (exists e, download_timestamps (flight s) !! k = Some e /\ pending_requests (flight s) !! k = None
       /\ wrap u64_max (entered_at e + STUCK_DOWNLOAD_TIMEOUT_SECS) < now).

Lemma timed_out_elem s now n k : (n, k) ∈ timed_out order s now <->
  exists r, pending_requests (flight s) !! k = Some r /\ req_seq r = n /\ wrap u64_max (requested_at r + request_timeout s) < now.
Proof.
  unfold timed_out. rewrite list_elem_of_fmap. split.
  - intros ([k' r] & [= -> ->] & Hin). apply list_elem_of_In, filter_In in Hin as [Hin Hlt%Z.ltb_lt].
    apply list_elem_of_In, order_elem in Hin. eauto.
  - intros (r & Hr & <- & Hlt). exists (k, r). split; [done|]. apply list_elem_of_In, filter_In. split; [|by apply Z.ltb_lt].
    by apply list_elem_of_In, order_elem.
Qed.

Lemma stuck_elem f now n k : (n, k) ∈ stuck_entries order f now <->
  exists e, download_timestamps f !! k = Some e /\ seq e = n /\ pending_requests f !! k = None
            /\ wrap u64_max (entered_at e + STUCK_DOWNLOAD_TIMEOUT_SECS) < now.
Proof.
  unfold stuck_entries. rewrite list_elem_of_fmap. split.
  - intros ([k' e] & [= -> ->] & Hin). apply list_elem_of_In, filter_In in Hin as [Hin Hst].
    apply list_elem_of_In, order_elem in Hin. unfold is_stuck in Hst. apply andb_true_iff in Hst as [Hn%bool_decide_eq_true Hlt%Z.ltb_lt]. eauto.
  - intros (e & He & <- & Hn & Hlt). exists (k, e). split; [done|]. apply list_elem_of_In, filter_In. split; [by apply list_elem_of_In, order_elem|].
    unfold is_stuck. rewrite bool_decide_true by done. by apply Z.ltb_lt.
Qed.

Lemma in_snd (items : list (Z * Z)) k : k ∈ map snd items <-> exists n, (n, k) ∈ items.
Proof. rewrite list_elem_of_fmap. split; [intros ([n x] & -> & H); eauto|intros [n H]; by exists (n, k)]. Qed.

Lemma stuck_after_retry s now k : (exists n, (n, k) ∈ stuck_entries order (flight (requeue (timed_out order s now) s)) now) <->
  (exists e, download_timestamps (flight s) !! k = Some e /\ pending_requests (flight s) !! k = None
       /\ wrap u64_max (entered_at e + STUCK_DOWNLOAD_TIMEOUT_SECS) < now).
Proof.
  setoid_rewrite stuck_elem. unfold requeue. cbn [with_pending with_flight flight].
  destruct (drop_all_spec (timed_out order s now) (flight s) k) as (_ & -> & ->). destruct (decide _) as [Hin|Hin].
  - split; [by intros (n & e & ? & _)|]. apply in_snd in Hin as [n (r & Hr & _)%timed_out_elem]. intros (e & _ & Hn & _). congruence.
  - split; [intros (n & e & He & _ & Hn & Hlt); eauto|]. intros (e & He & Hn & Hlt). exists (seq e), e. done.
Qed.

(** the recovery of overdue downloads finds every block in flight whose request has
    timed out or that has no request and has waited too long, and no other; it takes exactly
    those out of flight, so that none is overdue afterwards; and they are at the front of the
    queue, those without a request first, each group in the order of the original download,
    with the old queue behind, unless at least five were without a request while blocks were
    being downloaded, in which case the queue is emptied and the machine asks for headers. *)
Theorem retry_recovers clock s now :
  let (s', l) := get_blocks_to_retry order clock s now in
  (forall k, k ∈ l <-> overdue s now k)
  /\ (forall k, k ∈ downloading (flight s') <-> k ∈ downloading (flight s) /\ ~ overdue s now k)
  /\ (forall k, ~ overdue s' now k)
  /\ ((exists a b, pending_headers (pending s') = map snd a ++ map snd b ++ pending_headers (pending s)
          /\ StronglySorted (fun x y : Z * Z => x.1 <= y.1) a /\ StronglySorted (fun x y : Z * Z => x.1 <= y.1) b
          /\ l ≡ₚ map snd b ++ map snd a)
       \/ (5 <= Z.of_nat (length l) /\ state s' = Headers /\ pending_headers (pending s') = [])).
Proof.
  unfold get_blocks_to_retry. set (to := timed_out order s now). set (s1 := requeue to s).
  set (st := stuck_entries order (flight s1) now). set (s2 := requeue st s1).
  set (s3 := match _ with [] => _ | _ => _ end). set (s4 := if _ && _ then _ else _).
  assert (Hl : forall k, k ∈ map snd (to ++ st) <-> overdue s now k).
  { intros k. rewrite map_app, elem_of_app, !in_snd. unfold overdue. rewrite <- stuck_after_retry. fold to s1 st.
    split; intros [H | H]; [left|by right|left|by right].
    - destruct H as [n (r & ? & _ & ?)%timed_out_elem]. eauto.
    - destruct H as (r & ? & ?). exists (req_seq r). apply timed_out_elem. eauto. }
  assert (E3 : flight s3 = flight s2 /\ pending s3 = pending s2 /\ request_timeout s3 = request_timeout s2).
  { subst s3. destruct (to ++ st); [done|]. destruct (flight_leave clock s2) as (? & ? & _ & _ & _ & _ & _ & ?). done. }
  destruct E3 as (E3 & P3 & R3).
  assert (E4 : flight s4 = flight s2 /\ request_timeout s4 = request_timeout s).
  { subst s4. destruct (_ && _); cbn; by rewrite E3, R3. }
  destruct E4 as (E4 & R4).
  assert (Hlook : forall k, (k ∈ downloading (flight s4) <-> k ∈ downloading (flight s) /\ k ∉ map snd (to ++ st))
     /\ download_timestamps (flight s4) !! k = (if decide (k ∈ map snd (to ++ st)) then None else download_timestamps (flight s) !! k)
     /\ pending_requests (flight s4) !! k = (if decide (k ∈ map snd (to ++ st)) then None else pending_requests (flight s) !! k)).
  { intros k. rewrite E4. subst s2 s1. unfold requeue. cbn [with_pending with_flight flight]. fold to. rewrite <- fold_left_app. apply drop_all_spec. }
  split_and!.
  - exact Hl.
  - intros k. rewrite (proj1 (Hlook k)), Hl. done.
  - intros k. destruct (Hlook k) as (_ & Ht & Hp). unfold overdue at 1. rewrite Ht, Hp, R4. destruct (decide _) as [Hin|Hin].
    + intros [(r & ? & _) | (e & ? & _)]; done.
    + intros H. apply Hin, Hl. exact H.
  - subst s4. destruct (_ && _) eqn:E5.
    + right. apply andb_true_iff in E5 as [H5%Z.leb_le _]. rewrite map_app, length_app, !length_map. split_and!; [lia|done|done].
    + left. exists (sort_by_key st), (sort_by_key to). rewrite P3. subst s2. unfold requeue at 1. cbn [with_pending pending].
      rewrite push_front_ordered_headers. subst s1. unfold requeue at 1. cbn [with_pending pending]. rewrite push_front_ordered_headers.
      split_and!; [done|apply sort_by_key_sorted|apply sort_by_key_sorted|]. by rewrite map_app, !sort_by_key_perm.
Qed.

(** ** Delivery of a branch *)

(** The checks a received block must pass before it is looked at. *)
Definition acceptable (s : ChainSync) (b : Types.Block) : Prop :=
  Types.block_height b <= saturating_add u64_max (local_height (heights s)) 10000
  /\ target_all 255 b = false /\ target_all 0 b = false
  /\ meets_difficulty (Types.block_hash blake3 b) (Types.target (Types.header b)) = true.

(** C20: in every run in which equal block hashes name one parent, a received block that
    passes the cheap checks of the receiver (its height is at most 10000 above the node's, its
    target is neither all zeros nor all ones, and its header hash meets it; a block that fails
    them is dropped) and that extends the tip or was asked for is handed to the chain together
    with every pooled block that descends from it, directly or through other pooled blocks:
    each exactly once, each after its parent, and the pool keeps exactly the blocks that do
    not descend from it. *)
Theorem branch_delivered (known : Types.Block -> Prop) h t ops clock b from :
  (forall b b', known b -> known b' -> Types.block_hash blake3 b = Types.block_hash blake3 b' ->
    Types.prev_hash (Types.header b) = Types.prev_hash (Types.header b')) ->
  Forall (op_known known) ops ->
  let s := run (new h t) ops in
  acceptable s b ->
  Types.prev_hash (Types.header b) = local_tip (heights s) \/ Types.block_hash blake3 b ∈ downloading (flight s) ->
  let o := orphans (fst (cleanup_expired_orphans order s clock)) in
  let (s', out) := on_block_received_from order blake3 clock s b from in
  exists l, out = b :: map block l
  /\ (forall x, x ∈ l <-> descends blake3 o (Types.block_hash blake3 b) x)
  /\ parents_first blake3 out /\ NoDup (map (fun x => Types.block_hash blake3 (block x)) l)
  /\ (forall k x, orphan_blocks (orphans s') !! k = Some x <->
        orphan_blocks o !! k = Some x /\ ~ descends blake3 o (Types.block_hash blake3 b) x).
Proof.
  intros Hone Hops s Hacc Hcon o.
  assert (Ho : pool_ok blake3 known (orphans s)).
  { apply (ops_inv (fun s => pool_ok blake3 known (orphans s)) (op_known known)); [|apply pool_empty|done].
    intros s' op Hop. by apply exec_pool_ok. }
  destruct Hacc as (Hh & Ht1 & Ht2 & Hm). unfold on_block_received_from.
  rewrite (proj2 (Z.ltb_ge _ _)) by done. rewrite Ht1, Ht2, Hm. cbn [orb negb].
  pose proof (cleanup_pool_ok known s clock Ho) as Hp. pose proof (cleanup_flight s clock) as Hfl.
  assert (Hhs : heights (fst (cleanup_expired_orphans order s clock)) = heights s) by (unfold cleanup_expired_orphans; cases).
  subst o. destruct (cleanup_expired_orphans order s clock) as [s1 n]. cbn [fst] in *. rewrite Hfl. cbn [with_flight heights]. rewrite Hhs.
  replace (((Types.prev_hash (Types.header b) =? local_tip (heights s)) || (Types.block_height b =? 0))
    || bool_decide (Types.block_hash blake3 b ∈ downloading (flight s))) with true.
  2: { destruct Hcon as [-> | Hin]; [by rewrite Z.eqb_refl|]. rewrite bool_decide_true by done. by rewrite orb_true_r. }
  cbn [with_flight orphans]. destruct (deliver_spec blake3 known b (orphans s1) Hp) as (o' & l & -> & _ & Hl & Ho' & Hpf & Hn).
  exists l. cbn [with_blocks_delivered with_orphans orphans]. done.
Qed.

(** ** The sync target *)

Definition heights_ok (h : Heights) : Prop := best_known_height h = Z.max (local_height h) (max_value (peer_heights h)).

Definition work_ok (w : Work) : Prop :=
  best_known_difficulty w = Z.max (local_total_difficulty w) (max_value (peer_difficulties w))
  /\ (is_Some (work_behind_since w) <-> local_total_difficulty w < best_known_difficulty w).

Lemma recompute_ok c w : work_ok (recompute_best_difficulty c w).
Proof.
  split; [done|]. cbn. destruct (Z.ltb_spec (local_total_difficulty w) (Z.max (local_total_difficulty w) (max_value (peer_difficulties w)))).
  - destruct (work_behind_since w); unfold is_Some; split; eauto.
  - split; [by intros [? [=]]|lia].
Qed.

Lemma same_size_filter (P : Z * Z -> Prop) `{forall x, Decision (P x)} (m : gmap Z Z) :
  (size m <= size (filter P m))%nat -> filter P m = m.
Proof. intros Hs. apply map_subseteq_size_eq; [apply map_filter_subseteq|done]. Qed.

Definition sound_heights (op : Op) : Prop := match op with UpdatePeerHeight _ | SetLocalHeight _ => False | _ => True end.
Definition sound_work (op : Op) : Prop := match op with RetainConnectedPeers _ _ => False | _ => True end.

Lemma queue_targets c s l peer : heights (queue_headers_inner c s l peer) = heights s /\ work (queue_headers_inner c s l peer) = work s.
Proof.
  unfold queue_headers_inner, stamp_blocks. destruct l as [|h l]; [cases|].
  destruct (queue_loop _ _ _ _ _ _ _) as [[q hp] added]. cases.
Qed.

Lemma request_loop_targets c limit queue : forall s out,
  heights (fst (request_loop epoch_key c limit queue s out)) = heights s /\ work (fst (request_loop epoch_key c limit queue s out)) = work s.
Proof.
  induction queue as [|h rest IH]; intros s out; cbn [request_loop]; [done|].
  destruct (limit <=? _); [done|]. destruct (crosses_key_epoch _ _ _); [done|].
  assert (Hp : heights (fst (pop_header c s h rest)) = heights s /\ work (fst (pop_header c s h rest)) = work s) by (unfold pop_header; cases).
  destruct (pop_header c s h rest) as [s1 fr]. destruct Hp as [<- <-]. apply IH.
Qed.

Lemma all_failed_targets l s : heights (fold_left (fun s h => mark_block_failed s h) l s) = heights s
  /\ work (fold_left (fun s h => mark_block_failed s h) l s) = work s.
Proof. revert s. induction l as [|h l IH]; intros s; [done|]. cbn [fold_left]. by destruct (IH (mark_block_failed s h)) as [-> ->]. Qed.

Lemma leave_targets c s : heights (leave_synced c s) = heights s /\ work (leave_synced c s) = work s.
Proof. split; apply flight_leave. Qed.

Lemma requeue_failed_targets c s l : heights (requeue_failed c s l) = heights s /\ work (requeue_failed c s l) = work s.
Proof.
  unfold requeue_failed. destruct l; [apply all_failed_targets|]. destruct (leave_targets c (fold_left (fun s h => mark_block_failed s h) (rev (z :: l)) s)) as [-> ->].
  apply all_failed_targets.
Qed.

Lemma retry_targets c s n : heights (fst (get_blocks_to_retry order c s n)) = heights s /\ work (fst (get_blocks_to_retry order c s n)) = work s.
Proof.
  unfold get_blocks_to_retry. cbn [fst]. set (s1 := requeue _ s). set (s2 := requeue _ s1). set (s3 := match _ with [] => _ | _ => _ end).
  assert (E : heights s3 = heights s /\ work s3 = work s) by (subst s3; destruct (_ ++ _); [done|exact (leave_targets c s2)]).
  clearbody s3. destruct (_ && _); exact E.
Qed.

Lemma recover_targets c s : heights (fst (recover_stuck_downloads set_order c s)) = heights s
  /\ work (fst (recover_stuck_downloads set_order c s)) = work s.
Proof. unfold recover_stuck_downloads. cbn [fst]. destruct (map _ _) as [|x l]; [done|exact (leave_targets c (requeue (x :: l) s))]. Qed.

Lemma received_targets c s b f : heights (fst (on_block_received_from order blake3 c s b f)) = heights s
  /\ work (fst (on_block_received_from order blake3 c s b f)) = work s.
Proof.
  unfold on_block_received_from, blame. destruct f as [p|]; cases; unfold cleanup_expired_orphans in *; cases.
Qed.

Lemma exec_heights_ok s op : sound_heights op -> heights_ok (heights s) -> heights_ok (heights (exec s op)).
Proof.
  intros Hs Hh. assert (Hframe : forall s', heights s' = heights s -> heights_ok (heights s')) by (by intros s' ->).
  destruct op; cbn [exec sound_heights] in *; try done;
    try (unfold set_local_tip, update_peer_height_for, remove_peer_height, on_block_processed; cases; fail);
    try (apply Hframe; unfold_ops; unfold take_orphans_of, mark_block_orphan, cleanup_expired_orphans; cases; fail).
  - unfold retain_connected_peers. destruct ((0 <? _) || _) eqn:E; [done|]. apply orb_false_iff in E as [E%Z.ltb_ge _].
    cbn [fst with_work with_heights heights]. unfold heights_ok, with_peer_heights. cbn [best_known_height local_height peer_heights].
    rewrite same_size_filter; [done|]. cbn [with_peer_heights peer_heights] in E. unfold saturating_sub in E. lia.
  - apply Hframe, queue_targets.
  - apply Hframe, queue_targets.
  - apply Hframe, request_loop_targets.
  - apply Hframe, received_targets.
  - apply Hframe, requeue_failed_targets.
  - apply Hframe, retry_targets.
  - apply Hframe, recover_targets.
  - unfold on_peer_disconnected. set (s1 := with_orphans _ _). assert (H1 : heights_ok (heights s1)) by done. clearbody s1.
    cases; by rewrite ?(proj1 (leave_targets _ _)).
Qed.

(** An operation leaves the work alone, or prunes claims without touching the rest, or ends
    in a recomputation on the same start of the episode. *)
Inductive work_change (w : Work) : Work -> Prop :=
| work_same : work_change w w
| work_seen seen : work_change w (with_claims (peer_difficulties w) seen w)
| work_recomputed c w1 : work_behind_since w1 = work_behind_since w ->
    (last_work_progress_at w1 = last_work_progress_at w \/ local_total_difficulty w < local_total_difficulty w1) ->
    work_change w (recompute_best_difficulty c w1).

Lemma exec_work s op : sound_work op -> work_change (work s) (work (exec s op)).
Proof.
  intros Hs. assert (Hframe : forall s', work s' = work s -> work_change (work s) (work s')) by (intros s' ->; constructor).
  destruct op; cbn [exec sound_work] in *; try done;
    try (apply Hframe; unfold_ops; unfold take_orphans_of, mark_block_orphan, cleanup_expired_orphans; cases; fail).
  - unfold update_peer_difficulty_for. cases; try (by constructor); by apply work_recomputed; [|left].
  - unfold set_local_total_difficulty. apply work_recomputed; [done|]. cbn.
    destruct (Z.ltb_spec (local_total_difficulty (work s)) d); [by right|by left].
  - unfold clear_peer_difficulty, drop_claim. cbn. destruct (decide _) as [Hd|Hd]; [by apply work_recomputed; [|left]|].
    rewrite delete_id by (by apply eq_None_not_Some). apply work_seen.
  - by apply work_recomputed; [|left].
  - unfold expire_stale_work_claims. cbn. destruct (decide _) as [Hd|Hd]; [|by apply work_recomputed; [|left]].
    rewrite Hd. rewrite map_filter_id by (intros; apply lookup_empty). apply work_seen.
  - apply Hframe, queue_targets.
  - apply Hframe, queue_targets.
  - apply Hframe, request_loop_targets.
  - apply Hframe, received_targets.
  - unfold on_timeout. cases; try (by constructor). by apply work_recomputed; [|left].
  - apply Hframe, requeue_failed_targets.
  - apply Hframe, retry_targets.
  - apply Hframe, recover_targets.
  - unfold on_peer_disconnected. set (s1 := with_orphans _ _).
    assert (H1 : work_change (work s) (work s1)) by (by apply work_recomputed; [|left]). clearbody s1.
    cases; by rewrite ?(proj2 (leave_targets _ _)).
Qed.

Lemma exec_work_ok s op : sound_work op -> work_ok (work s) -> work_ok (work (exec s op)).
Proof. intros Hs Hw. destruct (exec_work s op Hs); [done|done|apply recompute_ok]. Qed.

(** in every run the height and the work to reach are recomputed and never left behind:
    the best known height is the larger of the tip and the highest recorded claim, so that
    the node counts as synced exactly when no recorded claim is above the tip; the best known
    work is the larger of the tip's and the heaviest recorded claim, and an episode of being
    behind on work is open exactly while a claim is above the tip's work.  The heights need
    the run to be without the anonymous height update and the bare assignment of the local
    height, the work without the pruning to the connected peers. *)
Theorem sync_target_exact h t ops : 0 <= h -> let s := run (new h t) ops in
  (Forall sound_heights ops -> best_known_height (heights s) = Z.max (local_height (heights s)) (max_value (peer_heights (heights s)))
     /\ (is_synced (heights s) = true <-> max_value (peer_heights (heights s)) <= local_height (heights s)))
  /\ (Forall sound_work ops -> best_known_difficulty (work s) = Z.max (local_total_difficulty (work s)) (max_value (peer_difficulties (work s)))
     /\ (is_Some (work_behind_since (work s)) <-> local_total_difficulty (work s) < max_value (peer_difficulties (work s)))).
Proof.
  intros Hh s. split; intros Hops.
  - assert (Ho : heights_ok (heights s)).
    { apply (ops_inv (fun s => heights_ok (heights s)) sound_heights); [apply exec_heights_ok| |done].
      unfold heights_ok, max_value. cbn. rewrite map_fold_empty. lia. }
    split; [done|]. unfold is_synced, true_best_height. rewrite Ho, Z.leb_le. lia.
  - assert (Ho : work_ok (work s)).
    { apply (ops_inv (fun s => work_ok (work s)) sound_work); [apply exec_work_ok| |done].
      unfold work_ok, max_value. cbn. rewrite map_fold_empty. split; [done|]. split; [by intros [? [=]]|lia]. }
    destruct Ho as [Hb Hi]. split; [done|]. rewrite Hi, Hb. lia.
Qed.

(** ** The work-behind veto *)

(** Throughout the run some claim stays above the tip's work, which does not rise. *)
Fixpoint claimed_without_progress (s : ChainSync) (ops : list Op) : Prop :=
  match ops with
  | [] => True
  | op :: ops =>
      let s' := exec s op in
      local_total_difficulty (work s') < best_known_difficulty (work s')
      /\ local_total_difficulty (work s') <= local_total_difficulty (work s)
      /\ sound_work op /\ claimed_without_progress s' ops
  end.

Lemma claimed_step s op t0 : sound_work op -> work_behind_since (work s) = Some t0 ->
  local_total_difficulty (work (exec s op)) < best_known_difficulty (work (exec s op)) ->
  local_total_difficulty (work (exec s op)) <= local_total_difficulty (work s) ->
  work_behind_since (work (exec s op)) = Some t0 /\ last_work_progress_at (work (exec s op)) = last_work_progress_at (work s).
Proof.
  intros Hs Ht. destruct (exec_work s op Hs) as [|seen|c w1 Hw Hp]; [done|done|].
  cbn. intros Hb Hl. rewrite Hw, Ht. split; [|destruct Hp; [done|lia]].
  by rewrite (proj2 (Z.ltb_lt _ _)).
Qed.

(** an unsubstantiated claim stops vetoing the miner.  Once the node is behind on work
    since [t0], whatever peers send in the meantime, as long as some claim stays above the
    tip's work and that work does not rise, the veto is lifted 600 seconds after both [t0]
    and the last progress: repeating or raising a claim does not restart the grace period. *)
Theorem unsubstantiated_veto_lifts ops : forall s t0 now, work_behind_since (work s) = Some t0 ->
  claimed_without_progress s ops -> t0 + WORK_SUBSTANTIATION_GRACE_SECS <= now ->
  last_work_progress_at (work s) + WORK_SUBSTANTIATION_GRACE_SECS <= now ->
  work_behind_substantiated (work (run s ops)) now = false.
Proof.
  induction ops as [|op ops IH]; intros s t0 now Ht Hc H1 H2.
  - cbn. unfold work_behind_substantiated. destruct (_ <=? _); [done|]. rewrite Ht. unfold saturating_sub.
    unfold WORK_SUBSTANTIATION_GRACE_SECS, WORK_CLAIM_TTL_SECS in *. apply orb_false_iff. rewrite !Z.ltb_ge. lia.
  - destruct Hc as (Hb & Hl & Hs & Hc). destruct (claimed_step s op t0 Hs Ht Hb Hl) as [Ht' Hp'].
    apply (IH (exec s op) t0); [done|done|done|lia].
Qed.

(** ** Header requests and responses *)

Inductive HeaderEvent := Issued (nonce peer : Z) | Accepted (nonce peer : Z).

Definition events (s : ChainSync) (op : Op) : list HeaderEvent :=
  match op with
  | BeginHeadersRequest p now => match snd (begin_headers_request s p now) with Some n => [Issued n p] | None => [] end
  | ValidateHeaderNonce n p => if snd (validate_header_nonce s n p) then [Accepted n p] else []
  | _ => []
  end.

Fixpoint history (s : ChainSync) (ops : list Op) : list HeaderEvent :=
  match ops with [] => [] | op :: ops => events s op ++ history (exec s op) ops end.

Definition issued_nonces (l : list HeaderEvent) : list Z := omap (fun e => match e with Issued n _ => Some n | _ => None end) l.
Definition accepted_nonces (l : list HeaderEvent) : list Z := omap (fun e => match e with Accepted n _ => Some n | _ => None end) l.

(** Other operations only forget nonces. *)
Definition forgets (r r' : Requests) : Prop :=
  pending_header_nonces r' ⊆ pending_header_nonces r /\ next_header_nonce r' = next_header_nonce r.

Lemma forgets_refl r : forgets r r.
Proof. done. Qed.

Lemma queue_requests c s l peer : forgets (requests s) (requests (queue_headers_inner c s l peer)).
Proof.
  unfold queue_headers_inner, stamp_blocks. destruct l as [|h l]; [cases|].
  destruct (queue_loop _ _ _ _ _ _ _) as [[q hp] added]. cases.
Qed.

Lemma request_loop_requests c limit queue : forall s out, requests (fst (request_loop epoch_key c limit queue s out)) = requests s.
Proof.
  induction queue as [|h rest IH]; intros s out; cbn [request_loop]; [done|].
  destruct (limit <=? _); [done|]. destruct (crosses_key_epoch _ _ _); [done|].
  assert (Hp : requests (fst (pop_header c s h rest)) = requests s) by (unfold pop_header; cases).
  destruct (pop_header c s h rest) as [s1 fr]. by rewrite IH.
Qed.

Lemma all_failed_requests l s : requests (fold_left (fun s h => mark_block_failed s h) l s) = requests s.
Proof. revert s. induction l as [|h l IH]; intros s; [done|]. cbn [fold_left]. by rewrite IH. Qed.

Lemma leave_requests c s : requests (leave_synced c s) = requests s.
Proof. apply flight_leave. Qed.

Lemma exec_requests s op : match op with BeginHeadersRequest _ _ => False | _ => True end -> forgets (requests s) (requests (exec s op)).
Proof.
  intros Hb. assert (Hframe : forall s', requests s' = requests s -> forgets (requests s) (requests s')) by (intros s' ->; done).
  destruct op; cbn [exec] in *; try done;
    try (unfold_ops; unfold take_orphans_of, mark_block_orphan, cleanup_expired_orphans; cases; fail).
  - apply queue_requests.
  - apply queue_requests.
  - apply Hframe, request_loop_requests.
  - apply Hframe. unfold on_block_received_from, blame. destruct from0; cases; unfold cleanup_expired_orphans in *; cases.
  - unfold cancel_headers_request. destruct (is_header_nonce_outstanding _ _ _); [|done]. split; [apply delete_subseteq|done].
  - unfold validate_header_nonce. destruct (is_header_nonce_outstanding _ _ _); [|done]. split; [apply delete_subseteq|done].
  - split; [apply map_empty_subseteq|done].
  - apply Hframe. unfold requeue_failed. destruct l; [apply all_failed_requests|]. rewrite leave_requests. apply all_failed_requests.
  - unfold get_blocks_to_retry. cbn [fst]. set (s1 := requeue _ s). set (s2 := requeue _ s1). set (s3 := match _ with [] => _ | _ => _ end).
    assert (E : requests s3 = requests s) by (subst s3; destruct (_ ++ _); [done|by rewrite leave_requests]).
    clearbody s3. destruct (_ && _); [|by rewrite E]. cbn. by rewrite E.
  - apply Hframe. unfold recover_stuck_downloads. cbn [fst]. destruct (map _ _); [done|by rewrite leave_requests].
  - apply Hframe. unfold on_peer_disconnected. set (s1 := with_orphans _ _). assert (H1 : requests s1 = requests s) by done. clearbody s1.
    cases; by rewrite ?leave_requests.
Qed.

(** The nonces handed out so far are below the counter, and an outstanding one was issued
    to its peer and not yet accepted. *)
Record nonces_ok (past : list HeaderEvent) (r : Requests) : Prop := {
  no_below n : n ∈ issued_nonces past -> n < next_header_nonce r;
  no_issued : NoDup (issued_nonces past);
  no_accepted : NoDup (accepted_nonces past);
  no_out n p g : pending_header_nonces r !! n = Some (p, g) -> Issued n p ∈ past /\ n ∉ accepted_nonces past;
  no_matched i n p : past !! i = Some (Accepted n p) -> exists j, (j < i)%nat /\ past !! j = Some (Issued n p) }.

Lemma nonces_forget past r r' : nonces_ok past r -> forgets r r' -> nonces_ok past r'.
Proof.
  intros [H1 H2 H3 H4 H5] [Hs Hn]. split; try done; [by rewrite Hn|]. intros n p g Hl. apply (H4 n p g). by eapply lookup_weaken.
Qed.

Lemma matched_app past e : (forall i n p, past !! i = Some (Accepted n p) -> exists j, (j < i)%nat /\ past !! j = Some (Issued n p)) ->
  (forall n p, e = Accepted n p -> Issued n p ∈ past) ->
  forall i n p, (past ++ [e]) !! i = Some (Accepted n p) -> exists j, (j < i)%nat /\ (past ++ [e]) !! j = Some (Issued n p).
Proof.
  intros Hm He i n p Hi. apply lookup_app_Some in Hi as [Hi | [Hge Hi]].
  - destruct (Hm i n p Hi) as (j & Hj & Hl). exists j. split; [done|by apply lookup_app_l_Some].
  - assert (i - length past = 0)%nat as E0 by (apply lookup_lt_Some in Hi; cbn in Hi; lia). rewrite E0 in Hi. injection Hi as Hi.
    destruct (proj1 (list_elem_of_lookup _ _) (He n p Hi)) as [j Hj]. exists j. split; [apply lookup_lt_Some in Hj; lia|].
    by apply lookup_app_l_Some.
Qed.

Lemma nonces_begin past s p now : 0 < next_header_nonce (requests s) < u64_max -> nonces_ok past (requests s) ->
  nonces_ok (past ++ events s (BeginHeadersRequest p now)) (requests (exec s (BeginHeadersRequest p now)))
  /\ 0 < next_header_nonce (requests (exec s (BeginHeadersRequest p now))) <= next_header_nonce (requests s) + 1.
Proof.
  intros Hn Hok. cbn [exec events]. unfold begin_headers_request. destruct (headers_request_time (requests s)); cbn [fst snd].
  { rewrite app_nil_r. split; [done|lia]. }
  remember (next_header_nonce (requests s)) as n eqn:En. cbn [with_requests requests next_header_nonce pending_header_nonces].
  rewrite (wrap_small u64_max (n + 1)) by (unfold fits; lia). split; [|lia]. destruct Hok as [H1 H2 H3 H4 H5].
  assert (Hi : issued_nonces (past ++ [Issued n p]) = issued_nonces past ++ [n]) by (unfold issued_nonces; by rewrite omap_app).
  assert (Ha : accepted_nonces (past ++ [Issued n p]) = accepted_nonces past) by (unfold accepted_nonces; rewrite omap_app; apply app_nil_r).
  split; cbn [next_header_nonce pending_header_nonces].
  - intros m. rewrite Hi, elem_of_app, list_elem_of_singleton. intros [Hm%H1 | Hm]; lia.
  - rewrite Hi. apply list.NoDup_app. split_and!; [done| |apply NoDup_singleton]. intros m Hm%H1 Hx%list_elem_of_singleton. lia.
  - by rewrite Ha.
  - intros m q g. rewrite Ha. destruct (decide (m = n)) as [->|Hne].
    + rewrite lookup_insert_eq. intros [= <- <-]. split; [apply elem_of_app; right; apply list_elem_of_singleton; done|].
      intros Hin. assert (Hx : n ∈ issued_nonces past); [|apply H1 in Hx; lia].
      unfold accepted_nonces in Hin. apply list_elem_of_omap in Hin as (e & He & Heq). destruct e as [|m q']; [done|]. injection Heq as ->.
      apply list_elem_of_lookup in He as [i Hi']. destruct (H5 i n q' Hi') as (j & _ & Hj). apply list_elem_of_lookup_2 in Hj.
      unfold issued_nonces. apply list_elem_of_omap. eauto.
    + rewrite lookup_insert_ne by done. intros Hl. destruct (H4 m q g Hl) as [Hx Hy]. split; [apply elem_of_app; by left|done].
  - by apply matched_app.
Qed.

Lemma nonces_validate past s n p : nonces_ok past (requests s) ->
  nonces_ok (past ++ events s (ValidateHeaderNonce n p)) (requests (exec s (ValidateHeaderNonce n p))).
Proof.
  intros Hok. cbn [exec events]. unfold validate_header_nonce, is_header_nonce_outstanding.
  destruct (pending_header_nonces (requests s) !! n) as [[q g]|] eqn:El; [|cbn; by rewrite app_nil_r].
  destruct ((q =? p) && _) eqn:Ep; [|cbn; by rewrite app_nil_r]. apply andb_true_iff in Ep as [->%Z.eqb_eq _].
  destruct Hok as [H1 H2 H3 H4 H5]. destruct (H4 n p g El) as [Hin Hno]. cbn [fst snd consume_nonce with_requests requests].
  assert (Hi : issued_nonces (past ++ [Accepted n p]) = issued_nonces past) by (unfold issued_nonces; rewrite omap_app; apply app_nil_r).
  assert (Ha : accepted_nonces (past ++ [Accepted n p]) = accepted_nonces past ++ [n]) by (unfold accepted_nonces; by rewrite omap_app).
  split; cbn [next_header_nonce pending_header_nonces]; rewrite ?Hi, ?Ha; try done.
  - apply list.NoDup_app. split_and!; [done| |apply NoDup_singleton]. by intros m Hm ->%list_elem_of_singleton.
  - intros m q' g' [Hne Hl]%lookup_delete_Some. destruct (H4 m q' g' Hl) as [Hx Hy]. split; [apply elem_of_app; by left|].
    rewrite elem_of_app, list_elem_of_singleton. by intros [? | ?].
  - apply matched_app; [done|]. by intros m q' [= -> ->].
Qed.

Lemma history_ok ops : forall past s, nonces_ok past (requests s) -> 0 < next_header_nonce (requests s) ->
  next_header_nonce (requests s) + Z.of_nat (length ops) <= u64_max ->
  nonces_ok (past ++ history s ops) (requests (run s ops)).
Proof.
  induction ops as [|op ops IH]; intros past s Hok Hpos Hb; cbn [history]; [by rewrite app_nil_r|].
  rewrite app_assoc. cbn [length] in Hb.
  assert (Hstep : nonces_ok (past ++ events s op) (requests (exec s op))
    /\ 0 < next_header_nonce (requests (exec s op)) <= next_header_nonce (requests s) + 1).
  { assert (Hc : (exists p now, op = BeginHeadersRequest p now) \/ match op with BeginHeadersRequest _ _ => False | _ => True end)
      by (destruct op; eauto).
    destruct Hc as [(p & now & ->) | Hc]; [apply nonces_begin; [lia|done]|].
    pose proof (exec_requests s op Hc) as Hf. split; [|destruct Hf as [_ ->]; lia].
    destruct op; cbn [events]; rewrite ?app_nil_r; try (by eapply nonces_forget). by apply nonces_validate. }
  destruct Hstep as [H1 H2]. apply IH; [done|lia|lia].
Qed.

(** header responses are matched to requests.  Over every run (of fewer than 2^64 - 1
    operations) no nonce is issued twice, no nonce is accepted twice, and whenever a response
    is accepted its nonce was issued before to the very peer that answers. *)
Theorem header_responses_matched h t ops : Z.of_nat (length ops) < u64_max ->
  let past := history (new h t) ops in
  NoDup (issued_nonces past) /\ NoDup (accepted_nonces past)
  /\ forall i n p, past !! i = Some (Accepted n p) -> exists j, (j < i)%nat /\ past !! j = Some (Issued n p).
Proof.
  intros Hl past. assert (Hok : nonces_ok past (requests (run (new h t) ops))).
  { apply (history_ok ops [] (new h t)); [|done|cbn; lia]. split.
    - intros n Hn. by apply elem_of_nil in Hn.
    - constructor.
    - constructor.
    - intros n p g Hx. cbn in Hx. by rewrite lookup_empty in Hx.
    - intros i n p Hi. by rewrite lookup_nil in Hi. }
  by destruct Hok.
Qed.
End Machine.

(** ** Where the manager does not do what it means to *)

(** the periodic clean-up of synchronisation bans removes the bans that are in force and
    keeps the expired ones: after it no peer whose ban runs past the present is banned. *)
Theorem ban_cleanup_inverted s now peer t : sync_banned_peers s !! peer = Some t ->
  is_sync_banned (cleanup_sync_bans s now) peer now = false
  /\ (sync_banned_peers (cleanup_sync_bans s now) !! peer = None <-> is_sync_banned s peer now = true).
Proof.
  intros Ht. unfold is_sync_banned, cleanup_sync_bans. cbn. rewrite Ht. rewrite Z.ltb_lt.
  destruct (filter _ _ !! peer) as [u|] eqn:E.
  - apply map_lookup_filter_Some in E as [Hu Hle]. split; [by apply Z.ltb_ge|]. split; [done|]. assert (u = t) by congruence. lia.
  - split; [done|]. split; [|done]. intros _. apply map_lookup_filter_None in E as [E | E]; [congruence|]. specialize (E t Ht). lia.
Qed.

(** pruning to the connected peers can leave a departed peer's work claim in force: when
    every peer with a recorded height is connected and no peer with a work claim is, the
    claims are dropped but the best known work keeps its value, although no claim supports
    it, and goes on vetoing the miner. *)
Theorem departed_claim_survives clock s connected now :
  (forall p x, peer_heights (heights s) !! p = Some x -> p ∈ connected) ->
  (forall p x, peer_difficulties (work s) !! p = Some x -> p ∉ connected) ->
  let s' := fst (retain_connected_peers clock s connected) in
  peer_difficulties (work s') = ∅
  /\ best_known_difficulty (work s') = best_known_difficulty (work s)
  /\ work_behind_substantiated (work s') now = work_behind_substantiated (work s) now.
Proof.
  intros Hh Hd s'. subst s'. unfold retain_connected_peers.
  rewrite (map_filter_id _ (peer_heights (heights s))) by (intros p x Hp; by apply (Hh p x)).
  assert (E : filter (fun '(p, _) => p ∈ connected) (peer_difficulties (work s)) = ∅).
  { apply map_empty. intros p. apply map_lookup_filter_None. right. intros x Hx. by apply (Hd p x). }
  cbn [with_peer_heights peer_heights with_claims peer_difficulties]. rewrite E, bool_decide_true by done.
  unfold saturating_sub. replace (0 <? _) with false by (symmetry; apply Z.ltb_ge; lia). done.
Qed.

(** a peer that alternates a claim at or below the node's work with a claim above it
    restarts the grace period each time: if it is the only one with a claim, the second
    message opens a new episode at that moment, so the veto is in force for the next 600
    seconds whatever the progress was, and the peer can repeat this. *)
Theorem alternating_claims_hold_veto c1 c2 s peer d :
  let w := work s in
  (forall p x, peer_difficulties w !! p = Some x -> p = peer) ->
  0 <= local_total_difficulty w < d -> d <= Z.shiftl 1 60 ->
  let s' := update_peer_difficulty_for c2 (update_peer_difficulty_for c1 s peer 0) peer d in
  (forall now, c2 <= now < c2 + WORK_SUBSTANTIATION_GRACE_SECS -> work_behind_substantiated (work s') now = true)
  /\ local_total_difficulty (work s') = local_total_difficulty w
  /\ (forall p x, peer_difficulties (work s') !! p = Some x -> p = peer).
Proof.
  intros w Hsole Hl Hd.
  assert (E1 : work (update_peer_difficulty_for c1 s peer 0) = recompute_best_difficulty c1 (drop_claim peer w)).
  { unfold update_peer_difficulty_for. fold w. rewrite (proj2 (Z.ltb_ge _ _)); [|unfold claim_cap; change (Z.shiftl 1 60) with (2 ^ 60); lia].
    by rewrite (proj2 (Z.leb_le _ _)) by lia. }
  set (s1 := update_peer_difficulty_for c1 s peer 0) in *. clearbody s1.
  assert (Ee : delete peer (peer_difficulties w) = ∅).
  { apply map_empty. intros p. apply eq_None_not_Some. intros [x [Hne Hx]%lookup_delete_Some]. apply Hne. symmetry. by apply (Hsole p x). }
  assert (Em : max_value (delete peer (peer_difficulties w)) = 0) by (rewrite Ee; apply map_fold_empty).
  intros s'. subst s'. unfold update_peer_difficulty_for. rewrite E1. cbn [recompute_best_difficulty drop_claim with_claims peer_difficulties
    local_total_difficulty peer_difficulty_seen_at work_behind_since].
  rewrite (proj2 (Z.ltb_ge (claim_cap _) d)) by (unfold claim_cap; lia). rewrite (proj2 (Z.leb_gt _ _)) by lia.
  set (w2 := recompute_best_difficulty c2 _).
  assert (Hw2 : best_known_difficulty w2 = d /\ work_behind_since w2 = Some c2 /\ local_total_difficulty w2 = local_total_difficulty w
                /\ peer_difficulties w2 = <[peer := d]> ∅).
  { subst w2. cbn. rewrite Ee.
    assert (Ei : max_value (<[peer := d]> ∅) = d) by (unfold max_value; rewrite map_fold_insert_L; [rewrite map_fold_empty; lia|intros; lia|apply lookup_empty]).
    rewrite Ei. replace (Z.max (local_total_difficulty w) d) with d by lia. rewrite (proj2 (Z.ltb_lt (local_total_difficulty w) d)) by lia.
    rewrite <- Ee, Em. replace (Z.max (local_total_difficulty w) 0) with (local_total_difficulty w) by lia. rewrite Z.ltb_irrefl. done. }
  destruct Hw2 as (B & S & L & D). clearbody w2.
  assert (Hwork : forall s2, work s2 = w2 ->
    (forall now, c2 <= now < c2 + WORK_SUBSTANTIATION_GRACE_SECS -> work_behind_substantiated (work s2) now = true)
    /\ local_total_difficulty (work s2) = local_total_difficulty w
    /\ (forall p x, peer_difficulties (work s2) !! p = Some x -> p = peer)).
  { intros s2 ->. split_and!; [|done|].
    - intros now Hn. unfold work_behind_substantiated. rewrite B, L, S, (proj2 (Z.leb_gt _ _)) by lia. unfold saturating_sub.
      by rewrite (proj2 (Z.ltb_lt _ _)) by lia.
    - intros p x. rewrite D, insert_empty. intros [<- _]%lookup_singleton_Some. done. }
  destruct (settled _); by apply Hwork.
Qed.

(** a queued header of a peer that is requested and fails goes back to the queue without
    its attribution: the queue is as before, the peer's counter is one lower, so the peer can
    queue further headers beyond its cap. *)
Theorem requeue_refunds_quota epoch_key clock s h rest p :
  pending_headers (pending s) = h :: rest -> pending_header_peer (attribution s) !! h = Some p ->
  h ∉ downloading (flight s) -> crosses_key_epoch epoch_key s h = false ->
  0 < max_concurrent s - Z.of_nat (size (downloading (flight s))) -> attribution_ok (h :: rest) (attribution s) ->
  let '(s1, l) := get_blocks_to_request epoch_key clock s 1 in
  let s2 := mark_block_failed s1 h in
  l = [h] /\ pending_headers (pending s2) = h :: rest
  /\ pending_header_peer (attribution s2) !! h = None
  /\ count_of (headers_per_peer (attribution s2)) p = count_of (headers_per_peer (attribution s)) p - 1.
Proof.
  intros Hq Hp Hd Hc Hroom Ha. unfold get_blocks_to_request. rewrite Hq.
  replace (Z.min 1 (saturating_sub (max_concurrent s) (Z.of_nat (size (downloading (flight s)))))) with 1 by (unfold saturating_sub; lia).
  cbn [request_loop length]. change (1 <=? Z.of_nat 0) with false. cbn iota. rewrite Hc.
  assert (H1 : exists s1, pop_header clock s h rest = (s1, true) /\ pending_headers (pending s1) = rest
                          /\ attribution s1 = untrack_pending_header h (attribution s)).
  { unfold pop_header. cbn. rewrite bool_decide_false by done. destruct (requeued_seq (pending s) !! h); by eexists. }
  destruct H1 as (s1 & -> & Hr & Hat).
  assert (Hl : request_loop epoch_key clock 1 rest s1 ([] ++ [h]) = (s1, [h])) by (by destruct rest). rewrite Hl.
  pose proof (ao_count _ _ Ha p) as Hcp. pose proof (share_pos h p _ Hp) as Hpos.
  split_and!; [done| | |].
  - cbn. unfold keep_seq. destruct (download_timestamps (flight s1) !! h); cbn; by rewrite Hr.
  - cbn. rewrite Hat. unfold untrack_pending_header. rewrite Hp. destruct (headers_per_peer (attribution s) !! p); cbn; apply lookup_delete_eq.
  - cbn. rewrite Hat. unfold untrack_pending_header, count_of. rewrite Hp. destruct (headers_per_peer (attribution s) !! p) as [n|]; [|lia].
    cbn. destruct (Z.ltb_spec 1 n); [by rewrite lookup_insert_eq|]. rewrite lookup_delete_eq. cbn. lia.
Qed.

(** ** Locators *)

Section Locator.
Context (f : Z -> Z) (tip : Z).
Hypothesis tip_range : 0 < tip < 2 ^ 63.

(** The heights listed so far: descending from the tip, consecutive at first. *)
Record listed (h : Z) (hs : list Z) : Prop := {
  li_sorted : StronglySorted (fun a b => b < a) hs;
  li_above : Forall (fun x => h < x <= tip) hs;
  li_head : hs <> [] -> head hs = Some tip;
  li_near i : (i < 10)%nat -> (i < length hs)%nat -> hs !! i = Some (tip - Z.of_nat i) }.

Definition stride (n : nat) : Z := if (n <? 10)%nat then 1 else 2 ^ (Z.of_nat n - 9).

Record locator_inv (st : Z * Z * list Z) : Prop := {
  lo_list : exists hs, st.2 = map f hs /\ listed st.1.1 hs /\ st.1.2 = stride (length hs)
    /\ (hs = [] -> st.1.1 = tip) /\ ((length hs < 10)%nat -> st.1.1 = tip - Z.of_nat (length hs))
    /\ ((10 <= length hs)%nat -> st.1.2 <= tip);
  lo_range : 0 <= st.1.1 <= tip }.

Lemma listed_snoc h hs h' : listed h hs -> 0 <= h -> (hs = [] -> h = tip) -> h <= tip -> h' < h ->
  ((length hs < 10)%nat -> h = tip - Z.of_nat (length hs)) -> listed h' (hs ++ [h]).
Proof.
  intros [H1 H2 H3 H4] Hh He Hle Hlt Hn. split.
  - clear -H1 H2. induction H1 as [|x l Hs IH Hx]; cbn; [repeat constructor|]. apply list.Forall_cons in H2 as [Hx' H2].
    constructor; [by apply IH|]. apply list.Forall_app. split; [done|]. apply list.Forall_singleton. lia.
  - apply list.Forall_app. split; [|apply list.Forall_singleton; lia]. eapply list.Forall_impl; [exact H2|]. cbn. lia.
  - intros _. destruct hs as [|x hs]; [cbn; by rewrite He|]. cbn. by apply H3.
  - intros i Hi Hl. rewrite length_app in Hl. cbn in Hl. destruct (decide (i < length hs)%nat) as [Hl'|Hl'].
    + rewrite lookup_app_l by done. by apply H4.
    + rewrite lookup_app_r by lia. replace (i - length hs)%nat with 0%nat by lia. cbn. rewrite Hn by lia. do 2 f_equal. lia.
Qed.

Lemma stride_next n : stride (S n) = if 10 <=? Z.of_nat (S n) then stride n * 2 else stride n.
Proof.
  unfold stride. destruct (Nat.ltb_spec n 10), (Nat.ltb_spec (S n) 10), (Z.leb_spec 10 (Z.of_nat (S n))); try lia.
  - assert (n = 9%nat) as -> by lia. done.
  - replace (Z.of_nat (S n) - 9) with (Z.succ (Z.of_nat n - 9)) by lia. rewrite Z.pow_succ_r by lia. lia.
Qed.

Lemma stride_pos n : 1 <= stride n.
Proof. unfold stride. destruct (Nat.ltb_spec n 10); [lia|]. pose proof (Z.pow_pos_nonneg 2 (Z.of_nat n - 9)). lia. Qed.

(** One turn: it lists the height, and goes on below it or ends. *)
Lemma locator_turn h step loc : locator_inv (h, step, loc) -> 0 < h -> exists hs,
  loc = map f hs /\ listed (h - 1) (hs ++ [h]) /\ stride (length hs) <= tip
  /\ locator_step (fun x => Some (f x)) (h, step, loc)
     = if h <? stride (S (length hs)) then inr (map f (hs ++ [h]))
       else inl (h - stride (S (length hs)), stride (S (length hs)), map f (hs ++ [h])).
Proof.
  intros [(hs & E & Hl & Es & He & Hn & Hb) Hr] Hh. cbn [fst snd] in *. subst loc step. exists hs.
  assert (Hst : stride (length hs) <= tip).
  { destruct (decide (10 <= length hs)%nat) as [H10|H10]; [by apply Hb|]. unfold stride.
    destruct (Nat.ltb_spec (length hs) 10); lia. }
  split_and!; [done|by apply (listed_snoc h); auto; lia|done|].
  unfold locator_step. rewrite (proj2 (Z.ltb_lt 0 h)) by lia. rewrite length_app, length_map. cbn [length]. rewrite Nat.add_1_r.
  rewrite map_app. cbn [map].
  assert (Ew : (if 10 <=? Z.of_nat (S (length hs)) then wrap u64_max (stride (length hs) * 2) else stride (length hs)) = stride (S (length hs))).
  { rewrite stride_next. destruct (_ <=? _); [|done]. apply wrap_small. pose proof (stride_pos (length hs)). unfold fits.
    change (2 ^ 63) with 9223372036854775808 in tip_range. lia. }
  by rewrite Ew.
Qed.

Lemma locator_step_inl st st' : locator_inv st -> locator_step (fun x => Some (f x)) st = inl st' ->
  locator_inv st' /\ (Z.to_nat st'.1.1 < Z.to_nat st.1.1)%nat.
Proof.
  destruct st as [[h step] loc]. intros HI Hs. destruct (decide (0 < h)) as [Hh|Hh].
  2: { unfold locator_step in Hs. by rewrite (proj2 (Z.ltb_ge 0 h)) in Hs by lia. }
  pose proof (lo_range _ HI) as Hr. cbn [fst snd] in Hr.
  pose proof HI as [(hs0 & E0 & Hl0 & Es0 & He0 & Hn0 & Hb0) _]. cbn [fst snd] in E0, Hn0.
  destruct (locator_turn h step loc HI Hh) as (hs & E & Hl & Hst & Et).
  rewrite Et in Hs. pose proof (stride_pos (S (length hs))). destruct (Z.ltb_spec h (stride (S (length hs)))); [done|]. injection Hs as <-.
  assert (length hs = length hs0) as Elen by (rewrite E in E0; apply (f_equal length) in E0; by rewrite !length_map in E0).
  split; [|cbn; lia]. split; cbn [fst snd]; [|lia]. exists (hs ++ [h]). split_and!.
  - done.
  - destruct Hl as [L1 L2 L3 L4]. split; try done. eapply list.Forall_impl; [exact L2|]. cbn. lia.
  - by rewrite length_app, Nat.add_1_r.
  - by intros [_ [=]]%app_nil.
  - rewrite length_app. cbn [length]. intros Hlt. unfold stride. destruct (Nat.ltb_spec (S (length hs)) 10); [|lia]. rewrite Hn0 by lia. lia.
  - lia.
Qed.

Lemma locator_step_inr st loc : locator_inv st -> locator_step (fun x => Some (f x)) st = inr loc ->
  exists hs, loc = map f hs /\ listed 0 hs /\ hs <> [] /\ Z.of_nat (length hs) <= 10 + Z.log2 tip.
Proof.
  destruct st as [[h step] l]. intros HI Hs. pose proof (lo_range _ HI) as Hr. cbn [fst snd] in Hr. destruct (decide (0 < h)) as [Hh|Hh].
  - destruct (locator_turn h step l HI Hh) as (hs & E & Hl & Hst & Et). rewrite Et in Hs. destruct (_ <? _); [|done]. injection Hs as <-.
    exists (hs ++ [h]). split_and!; [done| |by intros [_ [=]]%app_nil|].
    + destruct Hl as [L1 L2 L3 L4]. split; try done. eapply list.Forall_impl; [exact L2|]. cbn. lia.
    + rewrite length_app. cbn [length]. unfold stride in Hst. destruct (Nat.ltb_spec (length hs) 10).
      * pose proof (Z.log2_nonneg tip). lia.
      * apply Z.log2_le_pow2 in Hst; lia.
  - assert (h = 0) as -> by lia. unfold locator_step in Hs. cbn in Hs. injection Hs as <-.
    destruct HI as [(hs & E & Hl & Es & He & Hn & Hb) _]. cbn [fst snd] in *. exists hs. split_and!; [done|done| |].
    + intros ->. specialize (He eq_refl). lia.
    + destruct (decide (10 <= length hs)%nat) as [H10|H10]; [|pose proof (Z.log2_nonneg tip); lia].
      specialize (Hb H10). rewrite Es in Hb. unfold stride in Hb. destruct (Nat.ltb_spec (length hs) 10); [lia|].
      apply Z.log2_le_pow2 in Hb; lia.
Qed.

(** the locator of a chain names the tip first and the genesis last, at strictly
    descending heights, the first ten consecutive, with at most 11 + log2 of the tip height
    entries, and the loop ends. *)
Theorem locator_spans : (forall x, 0 < x -> f x <> f 0) ->
  exists hs, build_locator tip (fun x => Some (f x)) = map f (hs ++ [0])
  /\ head hs = Some tip /\ StronglySorted (fun a b => b < a) (hs ++ [0])
  /\ (forall i, (i < 10)%nat -> (i < length hs)%nat -> hs !! i = Some (tip - Z.of_nat i))
  /\ Z.of_nat (length (hs ++ [0])) <= 11 + Z.log2 tip.
Proof.
  intros Hf. assert (Hinit : locator_inv (tip, 1, [])).
  { split; cbn [fst snd]; [|lia]. exists []. split_and!; try done; [|cbn; lia|cbn; lia]. split; try constructor; try done; cbn; lia. }
  destruct (iter_total (locator_step (fun x => Some (f x))) (fun st => Z.to_nat st.1.1) locator_inv locator_step_inl
    (S (Z.to_nat tip)) (tip, 1, []) Hinit) as [loc Hit]; [cbn; lia|].
  assert (Hend : exists hs, loc = map f hs /\ listed 0 hs /\ hs <> [] /\ Z.of_nat (length hs) <= 10 + Z.log2 tip).
  { refine (iter_inv (locator_step (fun x => Some (f x))) locator_inv _ _ locator_step_inr _ _ _ Hinit Hit).
    intros st st' HI Hs. by apply locator_step_inl in Hs as [? _]. }
  destruct Hend as (hs & -> & [L1 L2 L3 L4] & Hne & Hlen). exists hs. unfold build_locator. rewrite Hit. cbn [from_option id].
  rewrite decide_False.
  2: { destruct hs as [|x hs _] using rev_ind; [done|]. rewrite map_app. cbn [map]. rewrite last_snoc. intros [= He].
       apply list.Forall_app in L2 as [_ L2]. rewrite list.Forall_singleton in L2. apply (Hf x); [lia|done]. }
  split_and!; [by rewrite map_app|by apply L3| |done|rewrite length_app; cbn; lia].
  clear -L1 L2. induction L1 as [|x l Hs IH Hx]; cbn; [repeat constructor|]. apply list.Forall_cons in L2 as [Hx' L2].
  constructor; [by apply IH|]. apply list.Forall_app. split; [done|]. apply list.Forall_singleton. lia.
Qed.
End Locator.

(** ** Concrete runs *)

Definition sample_order (A : Type) (m : gmap Z A) : list (Z * A) := map_to_list m.
Definition sample_set_order (X : gset Z) : list Z := elements X.
Definition sample_hash (l : list Z) : Z := fold_left (fun a x => (a * 257 + x) mod (2 ^ 61 - 1)) l 7.
Abbreviation sample_run := (run sample_order sample_set_order id sample_hash).

Lemma sample_order_perm A (m : gmap Z A) : sample_order A m ≡ₚ map_to_list m.
Proof. reflexivity. Qed.

Lemma sync_books_exact_witness :
  let s := sample_run (new 5 1) [QueueHeadersFromPeer 10 7 [11; 12; 13]; GetBlocksToRequest 10 2; RecordRequest 11 7 10; OnPeerDisconnected 12 7] in
  dom (download_timestamps (flight s)) = downloading (flight s) /\ pending_headers (pending s) = [11; 13].
Proof.
  split; [|vm_compute; reflexivity].
  exact (proj1 (sync_books_exact sample_order sample_set_order id sample_hash sample_order_perm 5 1
    [QueueHeadersFromPeer 10 7 [11; 12; 13]; GetBlocksToRequest 10 2; RecordRequest 11 7 10; OnPeerDisconnected 12 7])).
Defined.

(** Two downloads without a request are overdue at 19. *)
Definition overdue_sample : ChainSync := sample_run (new 5 1) [QueueHeadersFromPeer 10 7 [11; 12; 13]; GetBlocksToRequest 10 2].

Lemma retry_recovers_witness :
  overdue overdue_sample 19 11 /\ pending_headers (pending (fst (get_blocks_to_retry sample_order 19 overdue_sample 19))) = [11; 12; 13].
Proof.
  split; [|vm_compute; reflexivity].
  pose proof (retry_recovers sample_order sample_order_perm 19 overdue_sample 19) as H.
  destruct (get_blocks_to_retry sample_order 19 overdue_sample 19) as [s' l] eqn:E. destruct H as (H & _). apply H.
  assert (l = snd (get_blocks_to_retry sample_order 19 overdue_sample 19)) as -> by (rewrite E; reflexivity).
  refine (bool_decide_unpack _ _). vm_compute. exact I.
Defined.

(** Three blocks above the tip that arrive in the reverse order. *)
Definition sample_block (id h prev : Z) : Types.Block :=
  Types.mkBlock (Types.mkHeader 0 1 h 0 prev 0 0 0 id (2 ^ 255) 0 0 None 0 0) [].
Definition sample_b1 := sample_block 1 6 1.
Definition sample_b2 := sample_block 2 7 (Types.block_hash sample_hash sample_b1).
Definition sample_b3 := sample_block 3 8 (Types.block_hash sample_hash sample_b2).
Definition sample_known (b : Types.Block) : Prop := b = sample_b1 \/ b = sample_b2 \/ b = sample_b3.
Definition reverse_arrival : list Op := [OnBlockReceivedFrom 5000 sample_b3 (Some 7); OnBlockReceivedFrom 5001 sample_b2 None].

Lemma sample_one_parent b b' : sample_known b -> sample_known b' ->
  Types.block_hash sample_hash b = Types.block_hash sample_hash b' ->
  Types.prev_hash (Types.header b) = Types.prev_hash (Types.header b').
Proof.
  assert (H12 : (Types.block_hash sample_hash sample_b1 =? Types.block_hash sample_hash sample_b2) = false) by (vm_compute; reflexivity).
  assert (H13 : (Types.block_hash sample_hash sample_b1 =? Types.block_hash sample_hash sample_b3) = false) by (vm_compute; reflexivity).
  assert (H23 : (Types.block_hash sample_hash sample_b2 =? Types.block_hash sample_hash sample_b3) = false) by (vm_compute; reflexivity).
  apply Z.eqb_neq in H12, H13, H23.
  intros [-> | [-> | ->]] [-> | [-> | ->]] He;
    [reflexivity|case (H12 He)|case (H13 He)|case (H12 (eq_sym He))|reflexivity|case (H23 He)
    |case (H13 (eq_sym He))|case (H23 (eq_sym He))|reflexivity].
Qed.

Lemma branch_delivered_witness :
  exists l, snd (on_block_received_from sample_order sample_hash 5002 (sample_run (new 5 1) reverse_arrival) sample_b1 None)
    = sample_b1 :: map block l /\ map block l = [sample_b2; sample_b3].
Proof.
  pose proof (branch_delivered sample_order sample_set_order id sample_hash sample_order_perm sample_known 5 1 reverse_arrival 5002 sample_b1 None) as H.
  cbv zeta in H. destruct (on_block_received_from _ _ _ _ _ _) as [s' out] eqn:E.
  destruct H as (l & Hl & _).
  - exact sample_one_parent.
  - constructor; [right; right; reflexivity|]. constructor; [right; left; reflexivity|]. constructor.
  - split; [vm_compute; discriminate|]. split; [|split]; vm_compute; reflexivity.
  - left. vm_compute. reflexivity.
  - exists l. split; [exact Hl|].
    assert (Ho : snd (on_block_received_from sample_order sample_hash 5002 (sample_run (new 5 1) reverse_arrival) sample_b1 None)
                 = [sample_b1; sample_b2; sample_b3]) by (vm_compute; reflexivity).
    rewrite E in Ho. cbn [snd] in Ho.
    rewrite Ho in Hl. injection Hl as Hl. symmetry. exact Hl.
Defined.

Lemma sync_target_exact_witness :
  let s := sample_run (new 5 1) [UpdatePeerHeightFor 7 9; UpdatePeerHeightFor 8 12; OnPeerDisconnected 3 8] in
  best_known_height (heights s) = 9 /\ is_synced (heights s) = false.
Proof.
  assert (H0 : 0 <= 5) by lia.
  pose proof (sync_target_exact sample_order sample_set_order id sample_hash 5 1
    [UpdatePeerHeightFor 7 9; UpdatePeerHeightFor 8 12; OnPeerDisconnected 3 8] H0) as [H _].
  destruct H as [H _]; [repeat constructor|]. intros s. split; [|vm_compute; reflexivity].
  transitivity (Z.max (local_height (heights s)) (max_value (peer_heights (heights s)))); [exact H|vm_compute; reflexivity].
Defined.

(** A peer claims a work of 50 at time 1000 and repeats the claim. *)
Definition claimed : ChainSync := sample_run (new 5 1) [UpdatePeerDifficultyFor 1000 7 50].

Lemma unsubstantiated_veto_lifts_witness :
  work_behind_substantiated (work claimed) 1599 = true
  /\ work_behind_substantiated (work (sample_run claimed [UpdatePeerDifficultyFor 1500 7 60; UpdatePeerDifficultyFor 1590 7 70])) 1600 = false.
Proof.
  split; [vm_compute; reflexivity|].
  apply (unsubstantiated_veto_lifts sample_order sample_set_order id sample_hash _ claimed 1000 1600).
  - vm_compute. reflexivity.
  - repeat split; vm_compute; first [reflexivity | discriminate].
  - vm_compute. discriminate.
  - vm_compute. discriminate.
Defined.

Lemma header_responses_matched_witness :
  let past := history sample_order sample_set_order id sample_hash (new 5 1)
    [BeginHeadersRequest 7 10; ValidateHeaderNonce 1 8; ValidateHeaderNonce 1 7; ValidateHeaderNonce 1 7] in
  past = [Issued 1 7; Accepted 1 7] /\ NoDup (accepted_nonces past).
Proof.
  split; [vm_compute; reflexivity|].
  apply (header_responses_matched sample_order sample_set_order id sample_hash 5 1
    [BeginHeadersRequest 7 10; ValidateHeaderNonce 1 8; ValidateHeaderNonce 1 7; ValidateHeaderNonce 1 7]).
  vm_compute. reflexivity.
Defined.

Lemma ban_cleanup_inverted_witness :
  let s := with_sync_banned_peers {[7 := 400]} (new 5 1) in
  is_sync_banned s 7 100 = true /\ is_sync_banned (cleanup_sync_bans s 100) 7 100 = false.
Proof.
  split; [vm_compute; reflexivity|].
  apply (ban_cleanup_inverted (with_sync_banned_peers {[7 := 400]} (new 5 1)) 100 7 400). vm_compute. reflexivity.
Defined.

Lemma departed_claim_survives_witness :
  best_known_difficulty (work (fst (retain_connected_peers 1100 claimed ∅))) = 50.
Proof.
  destruct (departed_claim_survives 1100 claimed ∅ 1200) as (_ & -> & _).
  - intros p x H. vm_compute in H. destruct p; discriminate H.
  - intros p x _. apply not_elem_of_empty.
  - vm_compute. reflexivity.
Defined.

Lemma alternating_claims_hold_veto_witness :
  work_behind_substantiated (work (update_peer_difficulty_for 1600 (update_peer_difficulty_for 1600 claimed 7 0) 7 50)) 2100 = true.
Proof.
  apply (alternating_claims_hold_veto 1600 1600 claimed 7 50).
  - intros p x H. apply elem_of_map_to_list in H. vm_compute in H. apply list_elem_of_singleton in H. injection H as -> _. reflexivity.
  - vm_compute. split; [discriminate|reflexivity].
  - vm_compute. discriminate.
  - vm_compute. split; [discriminate|reflexivity].
Defined.

Lemma requeue_refunds_quota_witness :
  let s := sample_run (new 5 1) [QueueHeadersFromPeer 10 7 [11; 12]] in
  let s2 := mark_block_failed (fst (get_blocks_to_request id 10 s 1)) 11 in
  pending_headers (pending s2) = [11; 12] /\ count_of (headers_per_peer (attribution s2)) 7 = 1.
Proof.
  intros s s2. pose proof (requeue_refunds_quota id 10 s 11 [12] 7) as H.
  destruct (get_blocks_to_request id 10 s 1) as [s1 l] eqn:E. destruct H as (_ & H1 & _ & H2).
  - vm_compute. reflexivity.
  - vm_compute. reflexivity.
  - refine (bool_decide_unpack _ _). vm_compute. exact I.
  - vm_compute. reflexivity.
  - vm_compute. reflexivity.
  - exact (exec_queue_ok sample_order sample_set_order id sample_hash (new 5 1) (QueueHeadersFromPeer 10 7 [11; 12]) (attribution_clear [])).
  - split; [exact H1|]. transitivity (count_of (headers_per_peer (attribution s)) 7 - 1); [exact H2|vm_compute; reflexivity].
Defined.

Lemma locator_spans_witness : build_locator 30 (fun x => Some x) = [30; 29; 28; 27; 26; 25; 24; 23; 22; 21; 19; 15; 7; 0].
Proof.
  assert (H : 0 < 30 < 2 ^ 63) by (vm_compute; split; reflexivity).
  destruct (locator_spans (fun x => x) 30 H) as (hs & E & _); [intros x Hx; lia|].
  rewrite E, <- E. vm_compute. reflexivity.
Defined.

(** A block that fails while the machine is synced is queued without leaving that state,
    and the near-tip recovery does not see an idle machine. *)
Example failed_block_in_synced :
  let s := mark_block_failed (set_local_tip (update_peer_height_for (set_local_tip (new 5 1) 5 1) 7 9) 9 2) 11 in
  let s := exec sample_order sample_set_order id sample_hash s (SetState Synced) in
  state s = Synced /\ pending_headers (pending s) = [11] /\ snd (arm_near_tip_catchup s) = false.
Proof. vm_compute. done. Qed.

(** A height claim that interrupts the synced state forgets the request but not its nonce:
    two header requests are outstanding, and the answer to the first ends the second. *)
Example two_requests_outstanding :
  let s := fst (begin_headers_request (set_state (new 5 1) Synced) 7 10) in
  let s := update_peer_height_for s 8 9 in
  let (s, second) := begin_headers_request s 8 11 in
  second = Some 2 /\ is_header_nonce_outstanding s 1 7 = true
  /\ headers_request_pending (fst (validate_header_nonce s 1 7)) = false
  /\ is_header_nonce_outstanding (fst (validate_header_nonce s 1 7)) 2 8 = true.
Proof. vm_compute. done. Qed.
End SyncInv.
