(* ===== verification/FrostSession.v ===== *)
(** * FROST signing sessions (src/crates/coincync-frost-coordinator/src/session.rs, invitations.rs, error.rs)

    The coordinator's session machine: a session collects the participants who attach, the
    message, a commitment and a signature share of each signer, and the aggregate
    signature, within the deadline of each state.  [apply] returns the session it leaves
    behind together with the result, because an error may leave a changed session.
    Invitation tokens are the authenticated statements that let a key attach.

    HMAC-SHA256 is a parameter; a participant's key and a session's UUID are numbers, a
    byte string is a list of numbers. *)

From stdpp Require Import gmap strings pretty.
From S2P Require Import Prelude.

Module FrostSession.
Local Open Scope string_scope.
Local Open Scope Z_scope.

Definition INVITED_TIMEOUT_SECS : Z := 7 * 24 * 60 * 60.
Definition ROUND_1_TIMEOUT_SECS : Z := 60 * 60.
Definition ROUND_2_TIMEOUT_SECS : Z := 60 * 60.
Definition AGGREGATED_RETENTION_SECS : Z := 30 * 24 * 60 * 60.

(** ** Errors *)

Inductive CoordinatorError :=
| InvalidTransition (transition state : string)
| UnauthorizedParticipant
| SessionTerminal (state : string)
| SessionExpired (state : string)
| ThresholdViolation (what : string)
| DuplicateAction (what : string)
| Internal (what : string).

(** ** Identifiers in text

    A participant's key is written as 64 lower-case hexadecimal digits; a character is
    its code. *)

Definition hex_char (n : Z) : Z := if n <? 10 then 48 + n else 87 + n.

Definition encode_hex32 (bytes : list Z) : list Z :=
  flat_map (fun b => [hex_char (Z.shiftr b 4); hex_char (Z.land b 15)]) bytes.

Definition decode_hex_nibble (b : Z) : option Z :=
  if (48 <=? b) && (b <=? 57) then Some (b - 48)
  else if (97 <=? b) && (b <=? 102) then Some (b - 97 + 10)
  else if (65 <=? b) && (b <=? 70) then Some (b - 65 + 10)
  else None.

Inductive HexError := WrongLength (len : Z) | NonHex (offset : Z).

Fixpoint decode_pairs (i : Z) (s : list Z) : result HexError (list Z) :=
  match s with
  | a :: b :: rest =>
      match decode_hex_nibble a with
      | None => Err (NonHex (i * 2))
      | Some hi =>
          match decode_hex_nibble b with
          | None => Err (NonHex (i * 2 + 1))
          | Some lo => let? out := decode_pairs (i + 1) rest in Ok (Z.lor (Z.shiftl hi 4) lo :: out)
          end
      end
  | _ => Ok []
  end.

Definition decode_hex32 (s : list Z) : result HexError (list Z) :=
  if negb (length s =? 64)%nat then Err (WrongLength (Z.of_nat (length s))) else decode_pairs 0 s.

(** ** The session *)

Record ParticipantState := mkParticipant {
  attached : bool;
  commitment : option (list Z);
  sig_share : option (list Z);
}.

Definition invited : ParticipantState := mkParticipant false None None.

Inductive SessionState := Created | Invited | Round1 | Round2 | Aggregated | Aborted | Expired.

#[global] Instance SessionState_eq_dec : EqDecision SessionState.
Proof. solve_decision. Defined.

Definition is_terminal (s : SessionState) : bool :=
  match s with Aggregated | Aborted | Expired => true | _ => false end.

Definition timeout_secs (s : SessionState) : option Z :=
  match s with
  | Created => Some INVITED_TIMEOUT_SECS
  | Invited => Some INVITED_TIMEOUT_SECS
  | Round1 => Some ROUND_1_TIMEOUT_SECS
  | Round2 => Some ROUND_2_TIMEOUT_SECS
  | Aggregated => None
  | Aborted | Expired => None
  end.

Definition name (s : SessionState) : string :=
  match s with
  | Created => "Created" | Invited => "Invited" | Round1 => "Round1" | Round2 => "Round2"
  | Aggregated => "Aggregated" | Aborted => "Aborted" | Expired => "Expired"
  end.

Record Session := mkSession {
  id : Z;
  state : SessionState;
  threshold : Z;
  total : Z;
  group_pubkey : Z;
  creator : Z;
  message : option (list Z);
  participants : gmap Z ParticipantState;
  aggregate_signature : option (list Z);
  created_at : Z;
  state_entered_at : Z;
}.

(** [SessionId::new] is the fresh UUID [uuid]. *)
Definition new (uuid threshold total group_pubkey creator now : Z) : result CoordinatorError Session :=
  if threshold <? 2 then Err (ThresholdViolation "threshold must be >= 2")
  else if total <? threshold then Err (ThresholdViolation "total must be >= threshold")
  else if 255 <? total then Err (ThresholdViolation "total must be <= 255 (FROST participant ID byte)")
  else Ok (mkSession uuid Created threshold total group_pubkey creator None ∅ None now now).

Inductive Transition :=
| AttachParticipant (participant : Z)
| DeclareMessage (msg : list Z)
| SubmitRound1 (participant : Z) (commit : list Z)
| SubmitRound2 (participant : Z) (share : list Z)
| SubmitAggregate (signature : list Z)
| Abort (participant : Z)
| Tick.

Definition transition_to (s : Session) (new_state : SessionState) (now : Z) : Session :=
  mkSession (id s) new_state (threshold s) (total s) (group_pubkey s) (creator s) (message s)
    (participants s) (aggregate_signature s) (created_at s) now.

Definition with_participants (s : Session) (ps : gmap Z ParticipantState) : Session :=
  mkSession (id s) (state s) (threshold s) (total s) (group_pubkey s) (creator s) (message s)
    ps (aggregate_signature s) (created_at s) (state_entered_at s).

Definition with_message (s : Session) (m : list Z) : Session :=
  mkSession (id s) (state s) (threshold s) (total s) (group_pubkey s) (creator s) (Some m)
    (participants s) (aggregate_signature s) (created_at s) (state_entered_at s).

Definition with_signature (s : Session) (sig : list Z) : Session :=
  mkSession (id s) (state s) (threshold s) (total s) (group_pubkey s) (creator s) (message s)
    (participants s) (Some sig) (created_at s) (state_entered_at s).

(** [participants.values().filter(f).count()] *)
Definition count (f : ParticipantState -> bool) (ps : gmap Z ParticipantState) : Z :=
  Z.of_nat (size (filter (fun kv : Z * ParticipantState => f kv.2 = true) ps)).

Definition committed (p : ParticipantState) : bool := bool_decide (is_Some (commitment p)).
Definition shared (p : ParticipantState) : bool := bool_decide (is_Some (sig_share p)).

Definition round1_count (s : Session) : Z := count committed (participants s).
Definition round2_count (s : Session) : Z := count shared (participants s).

Definition handle_attach (s : Session) (participant now : Z) : Session * result CoordinatorError unit :=
  let admit_to (s : Session) :=
    if (total s <=? Z.of_nat (size (participants s))) && bool_decide (participants s !! participant = None)
    then (s, Err (ThresholdViolation ("session already has total=" +:+ pretty (total s) +:+ " participants")))
    else
      let entry := default invited (participants s !! participant) in
      (with_participants s (<[participant := mkParticipant true (commitment entry) (sig_share entry)]> (participants s)), Ok tt) in
  match state s with
  | Created => admit_to (transition_to s Invited now)
  | Invited => admit_to s
  | other => (s, Err (InvalidTransition "AttachParticipant" (name other)))
  end.

Definition handle_declare_message (s : Session) (msg : list Z) (now : Z) : Session * result CoordinatorError unit :=
  match state s with
  | Invited =>
      match message s with
      | Some _ => (s, Err (DuplicateAction "message-declaration"))
      | None =>
          let n := count attached (participants s) in
          if n <? threshold s
          then (s, Err (ThresholdViolation ("need " +:+ pretty (threshold s)
                          +:+ " attached participants to start Round1, have " +:+ pretty n)))
          else (transition_to (with_message s msg) Round1 now, Ok tt)
      end
  | other => (s, Err (InvalidTransition "DeclareMessage" (name other)))
  end.

Definition handle_round1 (s : Session) (participant : Z) (commit : list Z) (now : Z)
  : Session * result CoordinatorError unit :=
  if negb (bool_decide (state s = Round1)) then (s, Err (InvalidTransition "SubmitRound1" (name (state s))))
  else
    match participants s !! participant with
    | None => (s, Err UnauthorizedParticipant)
    | Some entry =>
        if negb (attached entry) then (s, Err UnauthorizedParticipant)
        else if committed entry then (s, Err (DuplicateAction "round-1 commitment"))
        else
          let s := with_participants s
                     (<[participant := mkParticipant (attached entry) (Some commit) (sig_share entry)]> (participants s)) in
          let collected := count committed (participants s) in
          ((if threshold s <=? collected then transition_to s Round2 now else s), Ok tt)
    end.

Definition handle_round2 (s : Session) (participant : Z) (share : list Z) (now : Z)
  : Session * result CoordinatorError unit :=
  if negb (bool_decide (state s = Round2)) then (s, Err (InvalidTransition "SubmitRound2" (name (state s))))
  else
    match participants s !! participant with
    | None => (s, Err UnauthorizedParticipant)
    | Some entry =>
        if negb (committed entry) then (s, Err UnauthorizedParticipant)
        else if shared entry then (s, Err (DuplicateAction "round-2 share"))
        else
          (with_participants s
             (<[participant := mkParticipant (attached entry) (commitment entry) (Some share)]> (participants s)), Ok tt)
    end.

Definition handle_aggregate (s : Session) (signature : list Z) (now : Z) : Session * result CoordinatorError unit :=
  if negb (bool_decide (state s = Round2)) then (s, Err (InvalidTransition "SubmitAggregate" (name (state s))))
  else
    let collected := count shared (participants s) in
    if collected <? threshold s
    then (s, Err (ThresholdViolation ("need " +:+ pretty (threshold s)
                    +:+ " sig shares to aggregate, have " +:+ pretty collected)))
    else (transition_to (with_signature s signature) Aggregated now, Ok tt).

(** The deadline of the state has passed. *)
Definition overdue (s : Session) (now : Z) : bool :=
  match timeout_secs (state s) with
  | Some timeout => wrap u64_max (state_entered_at s + timeout) <=? now
  | None => false
  end.

Definition dispatch (s : Session) (t : Transition) (now : Z) : Session * result CoordinatorError unit :=
  match t with
  | AttachParticipant p => handle_attach s p now
  | DeclareMessage m => handle_declare_message s m now
  | SubmitRound1 p c => handle_round1 s p c now
  | SubmitRound2 p x => handle_round2 s p x now
  | SubmitAggregate sig => handle_aggregate s sig now
  | Abort _ => (transition_to s Aborted now, Ok tt)
  | Tick => (s, Ok tt)
  end.

Definition apply (s : Session) (t : Transition) (now : Z) : Session * result CoordinatorError unit :=
  if is_terminal (state s) then (s, Err (SessionTerminal (name (state s))))
  else if overdue s now then (transition_to s Expired now, Err (SessionExpired (name (state s))))
  else dispatch s t now.

(** A run of a session: each transition with the time it is applied at; the results are
    kept. *)
Definition run (s : Session) (l : list (Transition * Z)) : Session * list (result CoordinatorError unit) :=
  fold_left (fun '(s, rs) '(t, now) => let '(s, r) := apply s t now in (s, app rs [r])) l (s, []).

(** ** Invitation tokens *)

Definition SESSION_SECRET_LEN : nat := 32.

Record InvitationToken := mkToken {
  session_id : Z;
  participant_pubkey : Z;
  expires_at : Z;
  mac : list Z;
}.

Inductive InvitationError := BadSecretLength | TokenExpired (expires now : Z) | BadMac.

(** The bytes of [CYNC.CIP-008.invite.] and the zero that ends them. *)
Definition invite_domain : list Z :=
  [67; 89; 78; 67; 46; 67; 73; 80; 45; 48; 48; 56; 46; 105; 110; 118; 105; 116; 101; 46; 0].

Definition mac_input (sid p expires : Z) : list Z :=
  app invite_domain (app (be_bytes 16 sid) (app (be_bytes 32 p) (rev (be_bytes 8 expires)))).

Section Hmac.
Variable hmac : list Z -> list Z -> list Z.

Definition compute_mac (secret : list Z) (sid p expires : Z) : list Z := hmac secret (mac_input sid p expires).

Definition mint_token (secret : list Z) (sid p expires : Z) : result InvitationError InvitationToken :=
  if negb (length secret =? SESSION_SECRET_LEN)%nat then Err BadSecretLength
  else Ok (mkToken sid p expires (compute_mac secret sid p expires)).

Definition verify_token (secret : list Z) (t : InvitationToken) (now : Z) : result InvitationError unit :=
  if negb (length secret =? SESSION_SECRET_LEN)%nat then Err BadSecretLength
  else if expires_at t <? now then Err (TokenExpired (expires_at t) now)
  else if bool_decide (compute_mac secret (session_id t) (participant_pubkey t) (expires_at t) = mac t)
  then Ok tt else Err BadMac.
End Hmac.

(** ** Counting participants *)

Lemma count_insert f k v m : count f (<[k := v]> m) = count f (delete k m) + Z.b2z (f v).
Proof.
  unfold count. rewrite <- insert_delete_eq. destruct (f v) eqn:E; cbn [Z.b2z].
  - rewrite map_filter_insert_True by done. rewrite map_size_insert_None; [lia|].
    apply map_lookup_filter_None. left. apply lookup_delete_eq.
  - rewrite map_filter_insert_False by (cbn; congruence). rewrite delete_delete_eq. lia.
Qed.

Lemma count_lookup f k v m : m !! k = Some v -> count f m = count f (delete k m) + Z.b2z (f v).
Proof. intros H. rewrite <- count_insert. by rewrite insert_id. Qed.

Lemma count_update f k old v m : m !! k = Some old ->
  count f (<[k := v]> m) = count f m - Z.b2z (f old) + Z.b2z (f v).
Proof. intros H. rewrite count_insert, (count_lookup f k old m H). lia. Qed.

Lemma count_new f k v m : m !! k = None -> count f (<[k := v]> m) = count f m + Z.b2z (f v).
Proof. intros H. rewrite count_insert. by rewrite delete_id. Qed.

Lemma count_zero f m : count f m = 0 <-> forall k v, m !! k = Some v -> f v = false.
Proof.
  unfold count. change 0 with (Z.of_nat 0). rewrite Nat2Z.inj_iff, map_size_empty_iff. split.
  - intros H k v Hk. destruct (f v) eqn:E; [|done].
    assert (Hf : filter (fun kv : Z * ParticipantState => f kv.2 = true) m !! k = Some v)
      by (apply map_lookup_filter_Some; split; done).
    rewrite H in Hf. by rewrite lookup_empty in Hf.
  - intros H. apply map_eq. intros k. rewrite lookup_empty. apply map_lookup_filter_None.
    right. intros v Hk. cbn. by rewrite (H k v Hk).
Qed.

Lemma count_le f g m : (forall k v, m !! k = Some v -> f v = true -> g v = true) -> count f m <= count g m.
Proof.
  intros H. unfold count. apply inj_le, map_subseteq_size. apply map_subseteq_spec. intros k v Hk.
  apply map_lookup_filter_Some in Hk as [Hk Hf]. apply map_lookup_filter_Some. split; [done|]. by apply (H k).
Qed.

Lemma count_all f m : (forall k v, m !! k = Some v -> f v = true) -> count f m = Z.of_nat (size m).
Proof. intros H. unfold count. f_equal. f_equal. apply map_filter_id. intros k v Hk. by apply (H k). Qed.

Lemma count_nonneg f m : 0 <= count f m.
Proof. unfold count. lia. Qed.

(** Equal counts of a stronger and a weaker predicate: the two select the same
    participants. *)
Lemma count_same f g m : (forall k v, m !! k = Some v -> f v = true -> g v = true) -> count g m <= count f m ->
  forall k v, m !! k = Some v -> g v = true -> f v = true.
Proof.
  intros Hfg Hle k v Hk Hg. destruct (f v) eqn:E; [done|]. exfalso.
  pose proof (count_lookup f k v m Hk) as Hf. pose proof (count_lookup g k v m Hk) as Hg'. rewrite E in Hf. rewrite Hg in Hg'.
  assert (count f (delete k m) <= count g (delete k m)); [|cbn in *; lia].
  apply count_le. intros k' v' [_ Hk']%lookup_delete_Some. by apply (Hfg k').
Qed.

(** ** The invariant of a session *)

Definition phase_ok (s : Session) : Prop :=
  match state s with
  | Created => participants s = ∅ /\ message s = None
  | Invited => message s = None /\ round1_count s = 0 /\ round2_count s = 0
  | Round1 => is_Some (message s) /\ threshold s <= Z.of_nat (size (participants s))
              /\ round1_count s < threshold s /\ round2_count s = 0
  | Round2 => is_Some (message s) /\ round1_count s = threshold s
  | Aggregated => is_Some (message s) /\ round1_count s = threshold s /\ round2_count s = threshold s
  | Aborted | Expired => round1_count s <= threshold s
  end.

Record session_ok (s : Session) : Prop := {
  ok_config : 2 <= threshold s <= total s /\ total s <= 255;
  ok_size : Z.of_nat (size (participants s)) <= total s;
  ok_participant k p : participants s !! k = Some p -> attached p = true /\ (shared p = true -> committed p = true);
  ok_signature : is_Some (aggregate_signature s) <-> state s = Aggregated;
  ok_phase : phase_ok s;
}.

Lemma shares_le_commitments s : session_ok s -> round2_count s <= round1_count s.
Proof. intros H. apply count_le. intros k v Hk. by apply (ok_participant s H k). Qed.

Lemma new_ok uuid t n g c now s : new uuid t n g c now = Ok s -> session_ok s.
Proof.
  unfold new. zcases; intros E; inv_res; subst s. split; cbn; try done; try lia.
  rewrite map_size_empty. lia.
Qed.

(** Entering a terminal state other than [Aggregated] keeps the invariant. *)
Lemma end_ok s st now : session_ok s -> st = Aborted \/ st = Expired -> is_terminal (state s) = false ->
  session_ok (transition_to s st now).
Proof.
  intros [Hc Hs Hp Hsig Hph] Hst Ht. split; try done.
  - cbn. destruct Hst as [-> | ->], (state s); try discriminate; rewrite Hsig; split; discriminate.
  - unfold phase_ok. assert (Hle : round1_count s <= threshold s).
    { unfold phase_ok in Hph. destruct (state s); try discriminate; try lia.
      destruct Hph as [He _]. unfold round1_count. rewrite He. replace (count committed ∅) with 0; [lia|]. symmetry. by apply count_zero. }
    destruct Hst as [-> | ->]; exact Hle.
Qed.

Lemma attach_ok s p now : session_ok s -> session_ok (fst (handle_attach s p now)).
Proof.
  intros Hok. assert (Hadm : forall s, session_ok s -> state s = Invited ->
    session_ok (fst (if (total s <=? Z.of_nat (size (participants s))) && bool_decide (participants s !! p = None)
      then (s, Err (ThresholdViolation ("session already has total=" +:+ pretty (total s) +:+ " participants")))
      else let entry := default invited (participants s !! p) in
      (with_participants s (<[p := mkParticipant true (commitment entry) (sig_share entry)]> (participants s)), Ok tt)))).
  { clear s Hok. intros s [Hc Hs Hp Hsig Hph] Est. destruct (_ && _) eqn:Efull; [by split|].
    unfold phase_ok in Hph. rewrite Est in Hph. destruct Hph as (Hm & H1 & H2).
    cbn [fst]. set (e := default invited (participants s !! p)).
    assert (He : committed e = false /\ shared e = false).
    { unfold e. destruct (participants s !! p) as [e'|] eqn:E; [|done].
      split; [by apply (proj1 (count_zero _ _) H1 p)|by apply (proj1 (count_zero _ _) H2 p)]. }
    assert (Hcount : forall f, f e = false -> f (mkParticipant true (commitment e) (sig_share e)) = false ->
      count f (participants s) = 0 -> count f (<[p := mkParticipant true (commitment e) (sig_share e)]> (participants s)) = 0).
    { intros f Hf Hf' H0. destruct (participants s !! p) as [e'|] eqn:E.
      - rewrite (count_update f p e') by done. cbn in e. subst e. rewrite Hf, Hf', H0. done.
      - rewrite count_new by done. by rewrite Hf', H0. }
    split; cbn; try done.
    - rewrite map_size_insert. destruct (participants s !! p) eqn:E; [done|].
      rewrite bool_decide_true, andb_true_r in Efull by done. apply Z.leb_gt in Efull. lia.
    - intros k q [[<- <-] | [Hne Hk]]%lookup_insert_Some; [|by apply (Hp k)]. split; [done|].
      intros Hx. unfold shared in Hx. cbn in Hx. destruct He as [_ He]. unfold shared in He. congruence.
    - unfold phase_ok. cbn. rewrite Est. split_and!; [done| |]; apply Hcount; try done; by destruct He. }
  unfold handle_attach. destruct (state s) eqn:Est; try done.
  - apply Hadm; [|done]. destruct Hok as [Hc Hs Hp Hsig Hph]. unfold phase_ok in Hph. rewrite Est in Hph. destruct Hph as [He Hm].
    split; try done; cbn; [rewrite Hsig, Est; split; discriminate|].
    unfold phase_ok, round1_count, round2_count. cbn. rewrite He. split_and!; [done| |]; by apply count_zero.
  - by apply Hadm.
Qed.

Lemma declare_ok s m now : session_ok s -> session_ok (fst (handle_declare_message s m now)).
Proof.
  intros Hok. pose proof Hok as [Hc Hs Hp Hsig Hph]. unfold handle_declare_message. destruct (state s) eqn:Est; try done.
  destruct (message s) eqn:Em; [done|]. destruct (Z.ltb_spec (count attached (participants s)) (threshold s)); [done|].
  unfold phase_ok in Hph. rewrite Est in Hph. destruct Hph as (_ & H1 & H2).
  split; cbn; try done; [rewrite Hsig; split; discriminate|].
  rewrite (count_all attached) in H by (intros k v Hk; by apply (Hp k)).
  unfold phase_ok. cbn. split_and!; [done|done| |exact H2]. unfold round1_count in *. cbn. lia.
Qed.

Lemma round1_ok s p c now : session_ok s -> session_ok (fst (handle_round1 s p c now)).
Proof.
  intros Hok. pose proof Hok as [Hc Hs Hp Hsig Hph]. unfold handle_round1.
  case_bool_decide as Est; cbn [negb]; [|done]. destruct (participants s !! p) as [e|] eqn:E; [|done].
  destruct (attached e) eqn:Ea; cbn [negb]; [|done]. destruct (committed e) eqn:Ec; [done|].
  unfold phase_ok in Hph. rewrite Est in Hph. destruct Hph as (Hm & Hsz & H1 & H2).
  assert (Hsh : shared e = false) by (apply (proj1 (count_zero _ _) H2 p); done).
  assert (E1 : count committed (<[p := mkParticipant true (Some c) (sig_share e)]> (participants s)) = round1_count s + 1).
  { rewrite (count_update committed p e) by done. unfold round1_count. rewrite Ec. cbn. lia. }
  assert (E2 : count shared (<[p := mkParticipant true (Some c) (sig_share e)]> (participants s)) = 0).
  { rewrite (count_update shared p e) by done. unfold round2_count in H2. rewrite H2, Hsh. unfold shared in *. cbn. by rewrite Hsh. }
  cbn [fst with_participants participants threshold]. rewrite E1.
  assert (Hpart : forall k q, <[p := mkParticipant true (Some c) (sig_share e)]> (participants s) !! k = Some q ->
     attached q = true /\ (shared q = true -> committed q = true)).
  { intros k q [[<- <-] | [Hne Hk]]%lookup_insert_Some; [done|by apply (Hp k)]. }
  assert (Hsize : size (<[p := mkParticipant true (Some c) (sig_share e)]> (participants s)) = size (participants s)).
  { rewrite map_size_insert. by rewrite E. }
  destruct (Z.leb_spec (threshold s) (round1_count s + 1)); split; cbn; try done;
    rewrite ?Hsize; try done; try (rewrite Hsig, Est; split; discriminate).
  - unfold phase_ok. cbn. split; [done|]. unfold round1_count at 1. cbn. lia.
  - unfold phase_ok. cbn. rewrite Est. unfold round1_count at 1, round2_count. cbn. rewrite Hsize. split_and!; [done|lia|lia|done].
Qed.

Lemma round2_ok s p x now : session_ok s -> session_ok (fst (handle_round2 s p x now)).
Proof.
  intros Hok. pose proof Hok as [Hc Hs Hp Hsig Hph]. unfold handle_round2.
  case_bool_decide as Est; cbn [negb]; [|done]. destruct (participants s !! p) as [e|] eqn:E; [|done].
  destruct (committed e) eqn:Ec; cbn [negb]; [|done]. destruct (shared e) eqn:Ex; [done|].
  unfold phase_ok in Hph. rewrite Est in Hph. destruct Hph as (Hm & H1). cbn [fst].
  split; cbn; try done.
  - rewrite map_size_insert. by rewrite E.
  - intros k q [[<- <-] | [Hne Hk]]%lookup_insert_Some; [|by apply (Hp k)]. cbn. split; [by apply (Hp p)|done].
  - unfold phase_ok, round1_count. cbn. rewrite Est. split; [done|]. rewrite (count_update committed p e) by done.
    unfold round1_count in H1. unfold committed in *. cbn. lia.
Qed.

Lemma aggregate_ok s sig now : session_ok s -> session_ok (fst (handle_aggregate s sig now)).
Proof.
  intros Hok. pose proof Hok as [Hc Hs Hp Hsig Hph]. unfold handle_aggregate.
  case_bool_decide as Est; cbn [negb]; [|done]. destruct (Z.ltb_spec (count shared (participants s)) (threshold s)); [done|].
  pose proof (shares_le_commitments s Hok) as Hle. unfold phase_ok in Hph. rewrite Est in Hph. destruct Hph as (Hm & H1).
  cbn [fst]. split; cbn; try done. unfold phase_ok. cbn. unfold round1_count, round2_count in *. cbn. split_and!; [done|lia|lia].
Qed.

Lemma apply_ok s t now : session_ok s -> session_ok (fst (apply s t now)).
Proof.
  intros Hok. unfold apply. destruct (is_terminal (state s)) eqn:Et; [done|].
  destruct (overdue s now); [by apply end_ok; auto|].
  destruct t; cbn [dispatch]; auto using attach_ok, declare_ok, round1_ok, round2_ok, aggregate_ok.
  by apply end_ok; auto.
Qed.

(** A session as the coordinator can hold it. *)
Inductive reachable : Session -> Prop :=
| reach_new uuid t n g c now s : new uuid t n g c now = Ok s -> reachable s
| reach_apply s t now : reachable s -> reachable (fst (apply s t now)).

Lemma reachable_session_ok s : reachable s -> session_ok s.
Proof. induction 1; eauto using new_ok, apply_ok. Qed.

(** ** What a transition may change *)

Definition rank (s : SessionState) : Z :=
  match s with Created => 0 | Invited => 1 | Round1 => 2 | Round2 => 3 | Aggregated | Aborted | Expired => 4 end.

Record extends (s s' : Session) : Prop := {
  ext_config : (id s', threshold s', total s', group_pubkey s', creator s', created_at s')
               = (id s, threshold s, total s, group_pubkey s, creator s, created_at s);
  ext_rank : rank (state s) <= rank (state s');
  ext_terminal : is_terminal (state s) = true -> s' = s;
  ext_message m : message s = Some m -> message s' = Some m;
  ext_participant k p : participants s !! k = Some p -> exists p', participants s' !! k = Some p'
    /\ (attached p = true -> attached p' = true)
    /\ (forall c, commitment p = Some c -> commitment p' = Some c)
    /\ (forall x, sig_share p = Some x -> sig_share p' = Some x);
}.

#[global] Instance extends_preorder : PreOrder extends.
Proof.
  split.
  - intros s. split; try done; eauto; lia.
  - intros a b c [A1 A2 A3 A4 A5] [B1 B2 B3 B4 B5]. split; [congruence|lia| |auto|].
    + intros H. pose proof (A3 H). subst b. auto.
    + intros k p Hp. destruct (A5 k p Hp) as (q & Hq & Q1 & Q2 & Q3). destruct (B5 k q Hq) as (r & Hr & R1 & R2 & R3).
      exists r. split_and!; auto.
Qed.

(** A transition to a later state with the same participants and message. *)
Lemma extends_to s st now : is_terminal (state s) = false -> rank (state s) <= rank st -> extends s (transition_to s st now).
Proof. intros Ht Hr. split; cbn; try done; eauto; congruence. Qed.

Lemma extends_insert s k e : is_terminal (state s) = false ->
  (forall old, participants s !! k = Some old -> (attached old = true -> attached e = true)
     /\ (forall c, commitment old = Some c -> commitment e = Some c) /\ (forall x, sig_share old = Some x -> sig_share e = Some x)) ->
  extends s (with_participants s (<[k := e]> (participants s))).
Proof.
  intros Ht He. split; cbn; try done; try congruence. intros j p Hp. destruct (decide (j = k)) as [-> | Hne].
  - rewrite lookup_insert_eq. exists e. by destruct (He p Hp).
  - rewrite lookup_insert_ne by done. eauto.
Qed.

Lemma apply_extends s t now : extends s (fst (apply s t now)).
Proof.
  unfold apply. destruct (is_terminal (state s)) eqn:Et; [reflexivity|].
  destruct (overdue s now); [apply extends_to; [done|]; by destruct (state s)|].
  destruct t; cbn [dispatch fst].
  - assert (Hadm : forall s, is_terminal (state s) = false -> extends s (fst (if (total s <=? Z.of_nat (size (participants s)))
         && bool_decide (participants s !! participant = None)
       then (s, Err (ThresholdViolation ("session already has total=" +:+ pretty (total s) +:+ " participants")))
       else let entry := default invited (participants s !! participant) in
       (with_participants s (<[participant := mkParticipant true (commitment entry) (sig_share entry)]> (participants s)), Ok tt)))).
    { clear. intros s Ht. destruct (_ && _); [reflexivity|]. apply extends_insert; [done|]. intros old ->. done. }
    unfold handle_attach. destruct (state s) eqn:Es; try reflexivity; [|apply Hadm; by rewrite Es].
    transitivity (transition_to s Invited now); [by apply extends_to; rewrite Es|by apply Hadm].
  - unfold handle_declare_message. destruct (state s) eqn:Es; try reflexivity. destruct (message s) eqn:Em; [reflexivity|].
    destruct (_ <? _); [reflexivity|]. split; cbn; rewrite ?Es; try done; eauto; congruence.
  - unfold handle_round1. case_bool_decide as Es; cbn [negb]; [|reflexivity].
    destruct (participants s !! participant) as [e|] eqn:E; [|reflexivity]. destruct (attached e) eqn:Ea; [|reflexivity].
    destruct (committed e) eqn:Ec; cbn [negb]; [reflexivity|].
    assert (Hx : extends s (with_participants s (<[participant := mkParticipant true (Some commit) (sig_share e)]> (participants s)))).
    { apply extends_insert; [done|]. intros old Ho. rewrite E in Ho. injection Ho as <-. cbn. split_and!; [done| |done].
      intros c Hc. unfold committed in Ec. rewrite Hc in Ec. apply bool_decide_eq_false in Ec. destruct Ec. eauto. }
    cbn [fst]. destruct (_ <=? _); [|exact Hx]. etransitivity; [exact Hx|]. apply extends_to; cbn; by rewrite Es.
  - unfold handle_round2. case_bool_decide as Es; cbn [negb]; [|reflexivity].
    destruct (participants s !! participant) as [e|] eqn:E; [|reflexivity].
    destruct (committed e) eqn:Ec; [|reflexivity]. destruct (shared e) eqn:Ex; cbn [negb]; [reflexivity|].
    apply extends_insert; [done|]. intros old Ho. rewrite E in Ho. injection Ho as <-. cbn. split_and!; [done|done|].
    intros x Hx. unfold shared in Ex. rewrite Hx in Ex. apply bool_decide_eq_false in Ex. destruct Ex. eauto.
  - unfold handle_aggregate. case_bool_decide as Es; cbn [negb]; [|reflexivity]. destruct (_ <? _); [reflexivity|].
    split; cbn; rewrite ?Es; try done. eauto.
  - apply extends_to; [done|]. by destruct (state s).
  - reflexivity.
Qed.

Lemma run_cons s t now l : run s ((t, now) :: l)
  = (fst (run (fst (apply s t now)) l), snd (apply s t now) :: snd (run (fst (apply s t now)) l)).
Proof.
  unfold run. cbn [fold_left]. destruct (apply s t now) as [s1 r]. cbn [fst snd]. rewrite app_nil_l.
  enough (H : forall l s rs, fold_left (fun '(s, rs) '(t, now) => let '(s, r) := apply s t now in (s, app rs [r])) l (s, rs)
    = let '(s', rs') := fold_left (fun '(s, rs) '(t, now) => let '(s, r) := apply s t now in (s, app rs [r])) l (s, []) in (s', app rs rs')).
  { rewrite H. by destruct (fold_left _ l (s1, [])). }
  clear. induction l as [|[t now] l IH]; intros s rs; cbn [fold_left]; [by rewrite app_nil_r|].
  destruct (apply s t now) as [s1 r]. rewrite (IH s1 (app rs [r])), (IH s1 (app [] [r])).
  destruct (fold_left _ l (s1, [])) as [s' rs']. by rewrite app_nil_l, <- app_assoc.
Qed.

Lemma run_extends l s : extends s (fst (run s l)).
Proof.
  revert s. induction l as [|[t now] l IH]; intros s; [reflexivity|]. rewrite run_cons. cbn [fst].
  etransitivity; [apply apply_extends|apply IH].
Qed.

(** ** When a transition is accepted *)

Definition enabled (s : Session) (t : Transition) : Prop :=
  match t with
  | AttachParticipant p => (state s = Created \/ state s = Invited)
      /\ (Z.of_nat (size (participants s)) < total s \/ is_Some (participants s !! p))
  | DeclareMessage _ => state s = Invited /\ threshold s <= Z.of_nat (size (participants s))
  | SubmitRound1 p _ => state s = Round1 /\ exists e, participants s !! p = Some e /\ committed e = false
  | SubmitRound2 p _ => state s = Round2 /\ exists e, participants s !! p = Some e /\ committed e = true /\ shared e = false
  | SubmitAggregate _ => state s = Round2 /\ forall k e, participants s !! k = Some e -> committed e = true -> shared e = true
  | Abort _ | Tick => True
  end.

(** In a sound session the shares suffice exactly when every signer has given one. *)
Lemma shares_complete s : session_ok s -> state s = Round2 ->
  (threshold s <= round2_count s <-> forall k e, participants s !! k = Some e -> committed e = true -> shared e = true).
Proof.
  intros Hok Es. pose proof (ok_phase s Hok) as Hph. unfold phase_ok in Hph. rewrite Es in Hph. destruct Hph as [_ H1]. split.
  - intros Hle. apply count_same; [|unfold round1_count, round2_count in *; lia].
    intros k v Hk. by apply (ok_participant s Hok k).
  - intros Hall. rewrite <- H1. by apply count_le.
Qed.

(** Two ways to be refused: the session is left as it was, or the transition is carried out. *)
Lemma dispatch_outcome s t now : session_ok s -> is_terminal (state s) = false ->
  (enabled s t /\ snd (dispatch s t now) = Ok tt)
  \/ (~ enabled s t /\ fst (dispatch s t now) = s /\ snd (dispatch s t now) <> Ok tt).
Proof.
  intros Hok Ht. pose proof Hok as [Hc Hs Hp Hsig Hph]. unfold phase_ok in Hph. destruct t; cbn [dispatch enabled].
  - unfold handle_attach. destruct (state s) eqn:Es; cbn; try (right; split_and!; [by intros [[H | H] _]|done|done]).
    + destruct Hph as [He _]. rewrite He, lookup_empty, map_size_empty. left.
      replace (total s <=? Z.of_nat 0) with false by (symmetry; apply Z.leb_gt; lia). split; [split; [by left|left; lia]|done].
    + destruct (participants s !! participant) as [e|] eqn:E.
      * rewrite bool_decide_false, andb_false_r by done. left. split; [split; [by right|right; eauto]|done].
      * rewrite bool_decide_true, andb_true_r by done. destruct (Z.leb_spec (total s) (Z.of_nat (size (participants s)))).
        -- right. split_and!; [|done|done]. intros [_ [H' | [? H']]]; [lia|done].
        -- left. split; [split; [by right|left; lia]|done].
  - unfold handle_declare_message. destruct (state s) eqn:Es; cbn; try (right; split_and!; [by intros [H _]|done|done]).
    destruct Hph as [-> _]. rewrite (count_all attached) by (intros k v Hk; by apply (Hp k)).
    destruct (Z.ltb_spec (Z.of_nat (size (participants s))) (threshold s)); [right|left]; split_and!; try done; lia.
  - unfold handle_round1. case_bool_decide as Es; cbn [negb]; [|right; split_and!; [by intros [H _]|done|done]].
    destruct (participants s !! participant) as [e|] eqn:E; [|right; split_and!; [by intros (_ & e & H & _)|done|done]].
    destruct (Hp _ _ E) as [-> _]. cbn [negb]. destruct (committed e) eqn:Ec.
    + right. split_and!; [|done|done]. intros (_ & e' & He & Hx). congruence.
    + left. split; [eauto|done].
  - unfold handle_round2. case_bool_decide as Es; cbn [negb]; [|right; split_and!; [by intros [H _]|done|done]].
    destruct (participants s !! participant) as [e|] eqn:E; [|right; split_and!; [by intros (_ & e & H & _)|done|done]].
    destruct (committed e) eqn:Ec; cbn [negb]; [|right; split_and!; [|done|done]; intros (_ & e' & He & Hx & _); congruence].
    destruct (shared e) eqn:Ex; [right|left; split; [|done]; eauto 6].
    split_and!; [|done|done]. intros (_ & e' & He & _ & Hx). congruence.
  - unfold handle_aggregate. case_bool_decide as Es; cbn [negb]; [|right; split_and!; [by intros [H _]|done|done]].
    pose proof (shares_complete s Hok Es) as Hsh. unfold round2_count in Hsh.
    destruct (Z.ltb_spec (count shared (participants s)) (threshold s)); [right|left]; cbn; rewrite <- Hsh; split_and!; try done; lia.
  - left. done.
  - left. done.
Qed.

(** a transition is accepted exactly when the session is not terminal, its deadline has
    not passed and the transition's conditions hold; past the deadline every transition
    is refused and expires the session; every other refusal leaves the session as it was. *)
Theorem apply_outcome s t now : reachable s ->
  (snd (apply s t now) = Ok tt <-> is_terminal (state s) = false /\ overdue s now = false /\ enabled s t)
  /\ (is_terminal (state s) = false -> overdue s now = true ->
        apply s t now = (transition_to s Expired now, Err (SessionExpired (name (state s)))))
  /\ (snd (apply s t now) <> Ok tt -> is_terminal (state s) = true \/ overdue s now = false -> fst (apply s t now) = s).
Proof.
  intros Hok%reachable_session_ok. unfold apply. destruct (is_terminal (state s)) eqn:Et.
  { split_and!; try done. split; [done|]. by intros [H _]. }
  destruct (overdue s now) eqn:Eo.
  { split_and!; try done; [|by intros _ [? | ?]]. split; [done|]. by intros (_ & H & _). }
  destruct (dispatch_outcome s t now Hok Et) as [[He Hr] | (He & Hs & Hr)]; split_and!; try done; try by (split; [|intros (_ & _ & ?)]).
Qed.

(** in every reachable session the configuration is valid, at most [total] participants
    have attached and no stranger is among them; from [Round2] on exactly [threshold] of
    them have committed, whatever the number that attached; only they can have given a
    share; the aggregate signature is there exactly in [Aggregated], where every one of
    them has given a share, and one silent signer is enough to refuse an aggregate. *)
Theorem reachable_session_sound s : reachable s ->
  session_ok s
  /\ (state s = Round2 \/ state s = Aggregated -> round1_count s = threshold s)
  /\ (state s = Aggregated -> forall k p, participants s !! k = Some p -> committed p = shared p)
  /\ (forall k p sig now, participants s !! k = Some p -> committed p = true -> shared p = false ->
        snd (apply s (SubmitAggregate sig) now) <> Ok tt).
Proof.
  intros Hok%reachable_session_ok. pose proof (ok_phase s Hok) as Hph. unfold phase_ok in Hph. split_and!; [done| | |].
  - intros [Es | Es]; rewrite Es in Hph; tauto.
  - intros Es k p Hk. rewrite Es in Hph. destruct Hph as (_ & H1 & H2). destruct (ok_participant s Hok k p Hk) as [_ Hsc].
    assert (Hcs : committed p = true -> shared p = true); [|destruct (committed p), (shared p); intuition congruence].
    apply (count_same shared committed (participants s)) with (k := k); [|unfold round1_count, round2_count in *; lia|done].
    intros k' v Hk'. by apply (ok_participant s Hok k').
  - intros k p sig now Hk Hc Hx. unfold apply. destruct (is_terminal (state s)) eqn:Et; [done|]. destruct (overdue s now); [done|].
    destruct (dispatch_outcome s (SubmitAggregate sig) now Hok Et) as [[[_ He] _] | (_ & _ & Hr)]; [|done].
    rewrite (He k p Hk Hc) in Hx. done.
Qed.

(** along any run a session only grows: its configuration never changes, a declared
    message, a commitment and a share are never replaced or withdrawn, a participant is
    never dropped, the state only moves forward and a terminal session never changes. *)
Theorem session_history_grows s l : extends s (fst (run s l)).
Proof. apply run_extends. Qed.

(** ** A ceremony that is carried out *)

(** The transitions of [l] are accepted one after the other and lead to [s']. *)
Inductive steps : Session -> list (Transition * Z) -> Session -> Prop :=
| steps_nil s : steps s [] s
| steps_cons s t now s1 l s2 : apply s t now = (s1, Ok tt) -> steps s1 l s2 -> steps s ((t, now) :: l) s2.

Lemma steps_run s l s' : steps s l s' -> run s l = (s', replicate (length l) (Ok tt)).
Proof. induction 1 as [s|s t now s1 l s2 H _ IH]; [done|]. rewrite run_cons, H. cbn. by rewrite IH. Qed.

Lemma steps_app s l1 s1 l2 s2 : steps s l1 s1 -> steps s1 l2 s2 -> steps s (app l1 l2) s2.
Proof. induction 1; intros; cbn; [done|]. econstructor; eauto. Qed.

Lemma steps_ok s l s' : steps s l s' -> session_ok s -> session_ok s'.
Proof. induction 1 as [|s t now s1 l s2 H _ IH]; [done|]. intros Hs. apply IH. pose proof (apply_ok s t now Hs). by rewrite H in *. Qed.

(** The hour of the ceremony, which starts at [t0]. *)
Definition within (t0 now : Z) : Prop := t0 <= now < t0 + ROUND_1_TIMEOUT_SECS.

Definition entered_within (t0 : Z) (s : Session) : Prop :=
  0 <= t0 /\ t0 + 2 * INVITED_TIMEOUT_SECS <= u64_max /\ within t0 (state_entered_at s).

Lemma not_overdue t0 s now : entered_within t0 s -> within t0 now -> overdue s now = false.
Proof.
  intros (H0 & Hm & Hs) Hn. unfold overdue, within, ROUND_1_TIMEOUT_SECS, INVITED_TIMEOUT_SECS in *.
  destruct (timeout_secs (state s)) as [x|] eqn:E; [|done]. apply Z.leb_gt.
  assert (3600 <= x <= 604800).
  { destruct (state s); cbn in E; inv_res; subst; unfold INVITED_TIMEOUT_SECS, ROUND_1_TIMEOUT_SECS, ROUND_2_TIMEOUT_SECS; lia. }
  rewrite wrap_small by (unfold fits; lia). lia.
Qed.

Lemma entered_to t0 s s' now st : entered_within t0 s -> within t0 now -> entered_within t0 (transition_to s' st now).
Proof. intros (H0 & Hm & _) Hn. done. Qed.

(** Inside the hour an open session carries out what is enabled. *)
Lemma apply_within t0 s t now : entered_within t0 s -> within t0 now -> is_terminal (state s) = false ->
  apply s t now = dispatch s t now.
Proof. intros Hs Hn Ht. unfold apply. by rewrite Ht, (not_overdue t0 s now). Qed.

Lemma attach_steps t0 l : forall s qs, session_ok s -> entered_within t0 s -> state s = Invited ->
  l.*1 = AttachParticipant <$> qs -> Forall (within t0) l.*2 -> NoDup qs -> (forall q, q ∈ qs -> participants s !! q = None) ->
  Z.of_nat (size (participants s) + length qs) <= total s ->
  exists s', steps s l s' /\ state s' = Invited /\ entered_within t0 s' /\ threshold s' = threshold s
    /\ dom (participants s') = dom (participants s) ∪ list_to_set qs.
Proof.
  induction l as [|[t now] l IH]; intros s [|q qs] Hok He Es Hl Hw Hnd Hfresh Hsz; try discriminate.
  { exists s. split_and!; try done; [constructor|set_solver]. }
  cbn in Hl, Hw. injection Hl as -> Hl. inversion Hw as [|? ? Hw1 Hw2]; subst. apply list.NoDup_cons in Hnd as [Hq Hnd].
  assert (Hqn : participants s !! q = None) by (apply Hfresh; set_solver).
  set (s1 := with_participants s (<[q := mkParticipant true None None]> (participants s))).
  assert (E : apply s (AttachParticipant q) now = (s1, Ok tt)).
  { rewrite (apply_within t0) by (done || by rewrite Es). cbn [dispatch]. unfold handle_attach. rewrite Es, Hqn.
    replace (total s <=? _) with false by (symmetry; apply Z.leb_gt; cbn in Hsz; lia). done. }
  pose proof (apply_ok s (AttachParticipant q) now Hok) as Hok1. rewrite E in Hok1.
  destruct (IH s1 qs) as (s' & Hst & Es' & He' & Hth & Hdom); try done.
  - intros q' Hq'. cbn. rewrite lookup_insert_ne by (intros ->; done). apply Hfresh. set_solver.
  - cbn. rewrite map_size_insert_None by done. cbn in Hsz. lia.
  - exists s'. split_and!; try done; [by econstructor|]. rewrite Hdom. cbn. rewrite dom_insert_L. set_solver.
Qed.

Lemma round1_steps t0 c l : forall s ps, session_ok s -> entered_within t0 s -> state s = Round1 ->
  l.*1 = (fun p => SubmitRound1 p (c p)) <$> ps -> Forall (within t0) l.*2 -> NoDup ps -> ps <> [] ->
  (forall p, p ∈ ps -> exists e, participants s !! p = Some e /\ committed e = false) ->
  round1_count s + Z.of_nat (length ps) = threshold s ->
  exists s', steps s l s' /\ state s' = Round2 /\ entered_within t0 s' /\ threshold s' = threshold s /\ round2_count s' = 0
    /\ (forall p, p ∈ ps -> exists e, participants s' !! p = Some e /\ committed e = true).
Proof.
  induction l as [|[t now] l IH]; intros s [|p ps] Hok He Es Hl Hw Hnd Hne Hin Hcnt; try done.
  cbn in Hl, Hw. injection Hl as -> Hl. inversion Hw as [|? ? Hw1 Hw2]; subst. apply list.NoDup_cons in Hnd as [Hp Hnd].
  destruct (Hin p) as (e & Hpe & Hce); [set_solver|].
  pose proof (ok_phase s Hok) as Hph. unfold phase_ok in Hph. rewrite Es in Hph. destruct Hph as (_ & _ & _ & H2).
  destruct (ok_participant s Hok p e Hpe) as [Hat _].
  assert (Hse : shared e = false) by (apply (proj1 (count_zero _ _) H2 p); done).
  set (e1 := mkParticipant true (Some (c p)) (sig_share e)).
  set (s1 := with_participants s (<[p := e1]> (participants s))).
  assert (E1 : round1_count s1 = round1_count s + 1).
  { unfold round1_count, s1. cbn. rewrite (count_update committed p e) by done. rewrite Hce. cbn. lia. }
  assert (E2 : round2_count s1 = 0).
  { unfold round2_count, s1. cbn. rewrite (count_update shared p e) by done. unfold round2_count in H2. rewrite H2, Hse.
    unfold e1, shared in *. cbn. by rewrite Hse. }
  assert (E : apply s (SubmitRound1 p (c p)) now = ((if threshold s <=? round1_count s1 then transition_to s1 Round2 now else s1), Ok tt)).
  { rewrite (apply_within t0) by (done || by rewrite Es). cbn [dispatch]. unfold handle_round1.
    rewrite bool_decide_true by done. cbn [negb]. rewrite Hpe, Hat, Hce. done. }
  pose proof (apply_ok s (SubmitRound1 p (c p)) now Hok) as Hok1. rewrite E in Hok1. cbn [fst] in Hok1.
  destruct ps as [|p' ps].
  - destruct l; [|done]. cbn in Hcnt. rewrite E1 in E. rewrite (proj2 (Z.leb_le _ _)) in E by lia.
    exists (transition_to s1 Round2 now). split; [exact (steps_cons _ _ _ _ _ _ E (steps_nil _))|].
    split; [done|]. split; [by apply (entered_to t0 s)|]. split_and!; [done|done|]. intros q Hq. apply list_elem_of_singleton in Hq as ->. exists e1. split; [apply lookup_insert_eq|done].
  - rewrite E1 in E, Hok1. cbn [length] in Hcnt. rewrite (proj2 (Z.leb_gt _ _)) in E, Hok1 by lia.
    destruct (IH s1 (p' :: ps)) as (s' & Hst & Es' & He' & Hth & Hr2 & Hall); try done.
    + intros q Hq. cbn. rewrite lookup_insert_ne by (intros ->; done). apply Hin. set_solver.
    + rewrite E1. cbn [length]. change (threshold s1) with (threshold s). lia.
    + exists s'. split_and!; try done; [by econstructor|]. intros q Hq. apply elem_of_cons in Hq as [-> | Hq]; [|auto].
      assert (Hx : extends s1 s') by (pose proof (run_extends l s1) as Hx; by rewrite (steps_run _ _ _ Hst) in Hx).
      destruct (ext_participant _ _ Hx p e1) as (e' & He1 & _ & Hcc & _); [apply lookup_insert_eq|].
      exists e'. split; [done|]. unfold committed. by rewrite (Hcc (c p) eq_refl).
Qed.

Lemma round2_steps t0 x l : forall s ps, session_ok s -> entered_within t0 s -> state s = Round2 ->
  l.*1 = (fun p => SubmitRound2 p (x p)) <$> ps -> Forall (within t0) l.*2 -> NoDup ps ->
  (forall p, p ∈ ps -> exists e, participants s !! p = Some e /\ committed e = true /\ shared e = false) ->
  exists s', steps s l s' /\ state s' = Round2 /\ entered_within t0 s' /\ threshold s' = threshold s
    /\ round2_count s' = round2_count s + Z.of_nat (length ps).
Proof.
  induction l as [|[t now] l IH]; intros s [|p ps] Hok He Es Hl Hw Hnd Hin; try done.
  { exists s. split_and!; try done; [constructor|cbn; lia]. }
  cbn in Hl, Hw. injection Hl as -> Hl. inversion Hw as [|? ? Hw1 Hw2]; subst. apply list.NoDup_cons in Hnd as [Hp Hnd].
  destruct (Hin p) as (e & Hpe & Hce & Hse); [set_solver|].
  set (s1 := with_participants s (<[p := mkParticipant (attached e) (commitment e) (Some (x p))]> (participants s))).
  assert (E : apply s (SubmitRound2 p (x p)) now = (s1, Ok tt)).
  { rewrite (apply_within t0) by (done || by rewrite Es). cbn [dispatch]. unfold handle_round2.
    rewrite bool_decide_true by done. cbn [negb]. rewrite Hpe, Hce, Hse. done. }
  assert (E2 : round2_count s1 = round2_count s + 1).
  { unfold round2_count, s1. cbn. rewrite (count_update shared p e) by done. rewrite Hse. cbn. lia. }
  pose proof (apply_ok s (SubmitRound2 p (x p)) now Hok) as Hok1. rewrite E in Hok1.
  destruct (IH s1 ps) as (s' & Hst & Es' & He' & Hth & Hr2); try done.
  - intros q Hq. cbn. rewrite lookup_insert_ne by (intros ->; done). apply Hin. set_solver.
  - exists s'. split_and!; try done; [by econstructor|]. cbn [length]. lia.
Qed.

(** The ceremony: [qs] attach, [m] is declared, the signers [ps] commit and give their
    shares, and the signature is submitted. *)
Definition ceremony (qs ps : list Z) (m : list Z) (c x : Z -> list Z) (sig : list Z) : list Transition :=
  (AttachParticipant <$> qs) ++ [DeclareMessage m] ++ ((fun p => SubmitRound1 p (c p)) <$> ps)
  ++ ((fun p => SubmitRound2 p (x p)) <$> ps) ++ [SubmitAggregate sig].

Lemma timed_app {A} (l : list (A * Z)) a b : l.*1 = app a b -> exists l1 l2, l = app l1 l2 /\ l1.*1 = a /\ l2.*1 = b.
Proof.
  intros H. exists (take (length a) l), (drop (length a) l). rewrite take_drop. split_and!; [done| |].
  - rewrite fmap_take, H. by rewrite take_app_length.
  - rewrite fmap_drop, H. by rewrite drop_app_length.
Qed.

Lemma timed_one {A} (l : list (A * Z)) a : l.*1 = [a] -> exists now, l = [(a, now)].
Proof. destruct l as [|[b now] [|]]; try done. intros [= ->]. eauto. Qed.

(** The first attachment of a fresh session opens it. *)
Lemma first_attach_opens t0 uuid th n g cr s q now : new uuid th n g cr t0 = Ok s -> entered_within t0 s -> within t0 now ->
  exists s1, apply s (AttachParticipant q) now = (s1, Ok tt) /\ state s1 = Invited /\ entered_within t0 s1
    /\ threshold s1 = th /\ total s1 = n /\ dom (participants s1) = {[q]}.
Proof.
  unfold new. zcases. intros E He Hw. inv_res. subst s. rewrite (apply_within t0) by done. cbn [dispatch]. unfold handle_attach.
  cbn. rewrite map_size_empty, (proj2 (Z.leb_gt _ _)) by lia. cbn. eexists. split; [done|]. cbn.
  rewrite dom_insert_L, dom_empty_L, (right_id_L ∅ _). split; [done|]. split; [|done]. destruct He as (? & ? & ?). done.
Qed.

Lemma sessions_dom_size (m : gmap Z ParticipantState) : size m = size (dom m).
Proof. by rewrite size_dom. Qed.

(** The attachments: the session is open and its participants are those who attached. *)
Lemma attach_phase uuid th n g cr t0 s qs la : new uuid th n g cr t0 = Ok s -> entered_within t0 s ->
  NoDup qs -> qs <> [] -> Z.of_nat (length qs) <= n -> la.*1 = AttachParticipant <$> qs -> Forall (within t0) la.*2 ->
  exists s', steps s la s' /\ state s' = Invited /\ entered_within t0 s' /\ threshold s' = th
    /\ dom (participants s') = list_to_set qs.
Proof.
  intros Hnew Hent Hqs Hne Hn Hla Hwa. assert (Hok : session_ok s) by eauto using new_ok.
  destruct qs as [|q qs]; [done|]. destruct la as [|[t ta] la]; [done|].
  cbn in Hla, Hwa. injection Hla as -> Hla. inversion Hwa as [|? ? Hwa1 Hwa2]; subst.
  destruct (first_attach_opens t0 _ _ _ _ _ _ q ta Hnew Hent Hwa1) as (sa & Ea & Sa & Ha & Tha & Tna & Da).
  pose proof (apply_ok s (AttachParticipant q) ta Hok) as Hoka. rewrite Ea in Hoka. apply list.NoDup_cons in Hqs as [Hq Hqs].
  destruct (attach_steps t0 la sa qs Hoka Ha Sa Hla Hwa2 Hqs) as (sb & Hab & Sb & Hb & Thb & Db).
  { intros q' Hq'. apply not_elem_of_dom. rewrite Da. set_solver. }
  { rewrite sessions_dom_size, Da, size_singleton, Tna. cbn in Hn. lia. }
  exists sb. split; [by econstructor|]. split; [done|]. split; [done|]. split; [congruence|]. rewrite Db, Da. set_solver.
Qed.

(** From the declaration on. *)
Lemma signing_phase t0 s ps m c x sig l td : session_ok s -> entered_within t0 s -> state s = Invited ->
  NoDup ps -> list_to_set ps ⊆ dom (participants s) -> Z.of_nat (length ps) = threshold s -> within t0 td ->
  l.*1 = app ((fun p => SubmitRound1 p (c p)) <$> ps) (app ((fun p => SubmitRound2 p (x p)) <$> ps) [SubmitAggregate sig]) ->
  Forall (within t0) l.*2 ->
  exists s', steps s ((DeclareMessage m, td) :: l) s' /\ state s' = Aggregated /\ message s' = Some m
    /\ aggregate_signature s' = Some sig.
Proof.
  intros Hok Hent Es Hps Hsub Hth Hwd Hl Hw. apply timed_app in Hl as (l1 & l3 & -> & Hl1 & Hl).
  apply timed_app in Hl as (l2 & lg & -> & Hl2 & Hlg). apply timed_one in Hlg as [tg ->].
  rewrite !fmap_app, !list.Forall_app in Hw. destruct Hw as (Hw1 & Hw2 & Hwg). cbn in Hwg. rewrite list.Forall_singleton in Hwg.
  pose proof (ok_phase _ Hok) as Hph. unfold phase_ok in Hph. rewrite Es in Hph. destruct Hph as (Mb & R1b & R2b).
  set (sc := transition_to (with_message s m) Round1 td).
  assert (Ec : apply s (DeclareMessage m) td = (sc, Ok tt)).
  { rewrite (apply_within t0) by (done || by rewrite Es). cbn [dispatch]. unfold handle_declare_message. rewrite Es, Mb.
    rewrite (count_all attached) by (intros k v Hk; by apply (ok_participant _ Hok k)). rewrite (proj2 (Z.ltb_ge _ _)); [done|].
    apply subseteq_size in Hsub. rewrite size_list_to_set, <- sessions_dom_size in Hsub by done. lia. }
  pose proof (apply_ok s (DeclareMessage m) td Hok) as Hokc. rewrite Ec in Hokc. cbn [fst] in Hokc.
  destruct (round1_steps t0 c l1 sc ps Hokc) as (sd & Hcd & Sd & Hd & Thd & R2d & Hcomm); try done.
  { by apply (entered_to t0 s). }
  { intros ->. cbn in Hth. pose proof (ok_config _ Hok). lia. }
  { intros p Hp. assert (Hin : p ∈ dom (participants s)) by (apply Hsub, elem_of_list_to_set, Hp).
    apply elem_of_dom in Hin as [e He]. exists e. split; [done|]. by apply (proj1 (count_zero _ _) R1b p). }
  { change (round1_count s + Z.of_nat (length ps) = threshold s). lia. }
  destruct (round2_steps t0 x l2 sd ps (steps_ok _ _ _ Hcd Hokc) Hd Sd Hl2 Hw2 Hps) as (se & Hde & Se & He & The & R2e).
  { intros p Hp. destruct (Hcomm p Hp) as (e & Hpe & Hce). exists e. split_and!; [done|done|]. by apply (proj1 (count_zero _ _) R2d p). }
  assert (Hsig : apply se (SubmitAggregate sig) tg = (transition_to (with_signature se sig) Aggregated tg, Ok tt)).
  { rewrite (apply_within t0) by (done || by rewrite Se). cbn [dispatch]. unfold handle_aggregate.
    rewrite bool_decide_true by done. cbn [negb]. unfold round2_count in *. cbn in Thd. by rewrite (proj2 (Z.ltb_ge _ _)) by lia. }
  exists (transition_to (with_signature se sig) Aggregated tg). split; [|split_and!; [done| |done]].
  - econstructor; [done|]. apply (steps_app _ l1 sd _ _ Hcd), (steps_app _ l2 se _ _ Hde). econstructor; [done|constructor].
  - pose proof (run_extends l1 sc) as X1. rewrite (steps_run _ _ _ Hcd) in X1.
    pose proof (run_extends l2 sd) as X2. rewrite (steps_run _ _ _ Hde) in X2. by apply (ext_message _ _ X2), (ext_message _ _ X1).
Qed.

(** C34: a signing ceremony completes: if at least [threshold] distinct participants attach, no
    more than [total], and [threshold] of them commit and give their shares, each step once
    and all within an hour of the creation, then every step is accepted and the session
    ends in [Aggregated] with the signature for the declared message. *)
Theorem signing_completes uuid th n g cr t0 s qs ps m c x sig l :
  new uuid th n g cr t0 = Ok s -> 0 <= t0 -> t0 + 2 * INVITED_TIMEOUT_SECS <= u64_max ->
  NoDup qs -> Z.of_nat (length qs) <= n -> NoDup ps -> (forall p, p ∈ ps -> p ∈ qs) -> Z.of_nat (length ps) = th ->
  l.*1 = ceremony qs ps m c x sig -> Forall (within t0) l.*2 ->
  exists s', run s l = (s', replicate (length l) (Ok tt))
    /\ state s' = Aggregated /\ message s' = Some m /\ aggregate_signature s' = Some sig.
Proof.
  intros Hnew H0 Hmax Hqs Hn Hps Hsub Hth Hl Hw. assert (Hent : entered_within t0 s /\ 2 <= th).
  { unfold new in Hnew. zcases. inv_res. rewrite <- Hnew. split; [|lia].
    split; [done|]. split; [done|]. unfold within, ROUND_1_TIMEOUT_SECS. cbn [state_entered_at]. lia. }
  destruct Hent as [Hent H2]. apply timed_app in Hl as (la & l' & -> & Hla & Hl).
  apply timed_app in Hl as (ld & l'' & -> & Hld & Hl). apply timed_one in Hld as [td ->].
  rewrite !fmap_app, !list.Forall_app in Hw. cbn in Hw. rewrite list.Forall_singleton in Hw. destruct Hw as (Hwa & Hwd & Hw).
  assert (qs <> []) by (intros ->; destruct ps as [|p ps]; [cbn in Hth; lia|set_solver]).
  destruct (attach_phase _ _ _ _ _ _ _ qs la Hnew Hent) as (sb & Hab & Sb & Hb & Thb & Db); try done.
  destruct (signing_phase t0 sb ps m c x sig l'' td) as (s' & Hs' & Hend); try done.
  - eauto using steps_ok, new_ok.
  - rewrite Db. set_solver.
  - congruence.
  - exists s'. split; [|done]. apply steps_run, (steps_app _ la sb _ _ Hab). exact Hs'.
Qed.

(** ** Invitations and identifiers *)

Definition fields_fit (sid p e : Z) : Prop := 0 <= sid < 2 ^ 128 /\ 0 <= p < 2 ^ 256 /\ fits u64_max e.

Lemma mac_input_inj sid p e sid' p' e' : fields_fit sid p e -> fields_fit sid' p' e' ->
  mac_input sid p e = mac_input sid' p' e' -> (sid, p, e) = (sid', p', e').
Proof.
  intros (H1 & H2 & H3) (H1' & H2' & H3') E. unfold mac_input in E. apply (inj (app invite_domain)) in E.
  apply app_inj_1 in E as [E1 E]; [|by rewrite !length_be_bytes]. apply app_inj_1 in E as [E2 E3]; [|by rewrite !length_be_bytes].
  apply (f_equal (@rev Z)) in E3. rewrite !rev_involutive in E3. unfold fits in *.
  apply be_bytes_inj in E1; [|cbn; unfold fits; lia..]. apply be_bytes_inj in E2; [|cbn; unfold fits; lia..].
  apply be_bytes_inj in E3; [congruence|cbn; unfold fits; lia..].
Qed.

(** a minted invitation is accepted exactly until its expiry, and an accepted token
    binds its fields: a token that carries the MAC of an invitation for another session, key
    or expiry is accepted only if HMAC has the same value on two different inputs. *)
Theorem invitation_binding hmac secret sid p e t : length secret = SESSION_SECRET_LEN -> fields_fit sid p e ->
  mint_token hmac secret sid p e = Ok t ->
  (forall now, verify_token hmac secret t now = Ok tt <-> now <= e)
  /\ (forall t' now, fields_fit (session_id t') (participant_pubkey t') (expires_at t') -> mac t' = mac t ->
        verify_token hmac secret t' now = Ok tt -> t' = t \/ exists a b, a <> b /\ hmac secret a = hmac secret b).
Proof.
  intros Hlen Hfit Hm. unfold mint_token in Hm. rewrite Hlen in Hm. cbn in Hm. inv_res. subst t. split.
  - intros now. unfold verify_token. rewrite Hlen. cbn [Nat.eqb SESSION_SECRET_LEN negb expires_at mac session_id participant_pubkey].
    rewrite bool_decide_true by done. destruct (Z.ltb_spec e now); split; try done; lia.
  - intros [sid' p' e' mac'] now Hfit' Hmac. cbn in Hmac. subst mac'. unfold verify_token. rewrite Hlen. cbn.
    destruct (_ <? _); [done|]. case_bool_decide as E; [|done]. intros _. unfold compute_mac in E.
    destruct (decide (mac_input sid' p' e' = mac_input sid p e)) as [Ei | Hne]; [left|right; by eexists _, _].
    injection (mac_input_inj _ _ _ _ _ _ Hfit' Hfit Ei) as -> -> ->. done.
Qed.

Lemma nibble_roundtrip n : 0 <= n <= 15 -> decode_hex_nibble (hex_char n) = Some n.
Proof.
  intros H. unfold hex_char. destruct (Z.ltb_spec n 10); unfold decode_hex_nibble.
  - rewrite (proj2 (Z.leb_le 48 _)), (proj2 (Z.leb_le _ 57)) by lia. cbn. f_equal. lia.
  - rewrite (proj2 (Z.leb_le 48 _)), (proj2 (Z.leb_gt _ 57)) by lia. cbn [andb].
    rewrite (proj2 (Z.leb_le 97 _)), (proj2 (Z.leb_le _ 102)) by lia. cbn. f_equal. lia.
Qed.

Lemma byte_halves b : 0 <= b <= 255 -> 0 <= Z.shiftr b 4 <= 15 /\ 0 <= Z.land b 15 <= 15
  /\ Z.lor (Z.shiftl (Z.shiftr b 4) 4) (Z.land b 15) = b.
Proof.
  intros Hb. assert (H : Forall (fun b => 0 <= Z.shiftr b 4 <= 15 /\ 0 <= Z.land b 15 <= 15
    /\ Z.lor (Z.shiftl (Z.shiftr b 4) 4) (Z.land b 15) = b) (seqZ 0 256)) by (apply (bool_decide_unpack _); vm_compute; exact I).
  rewrite list.Forall_forall in H. apply H, elem_of_seqZ. lia.
Qed.

Lemma decode_pairs_encode i bs : is_bytes bs -> decode_pairs i (encode_hex32 bs) = Ok bs.
Proof.
  revert i. induction bs as [|b bs IH]; intros i Hb; [done|]. inversion Hb as [|? ? Hb1 Hb2]; subst.
  destruct (byte_halves b Hb1) as (H1 & H2 & H3). unfold encode_hex32. cbn [flat_map app decode_pairs].
  rewrite !nibble_roundtrip by done. fold (encode_hex32 bs). rewrite IH by done. cbn [rbind]. by rewrite H3.
Qed.

(** The text form of a participant's key reads back as the key. *)
Lemma hex_roundtrip bs : length bs = 32%nat -> is_bytes bs -> decode_hex32 (encode_hex32 bs) = Ok bs.
Proof.
  intros Hl Hb. unfold decode_hex32. assert (E : length (encode_hex32 bs) = 64%nat).
  { unfold encode_hex32. assert (H : forall l, length (flat_map (fun b => [hex_char (Z.shiftr b 4); hex_char (Z.land b 15)]) l) = (2 * length l)%nat).
    { intros l. induction l as [|b l IH]; [done|]. cbn. rewrite IH. lia. }
    rewrite H, Hl. done. }
  rewrite E. cbn. by apply decode_pairs_encode.
Qed.

(** ** Runs on concrete inputs *)

Definition sample_session : Session := mkSession 7 Created 2 3 11 170 None ∅ None 1000 1000.

Lemma sample_reachable : reachable sample_session.
Proof. apply (reach_new 7 2 3 11 170 1000). reflexivity. Qed.

(** Three attach, two commit; the third is then too late, and the signer who stays silent
    holds the session until it expires an hour after the commitments. *)
Definition sample_run : list (Transition * Z) :=
  [(AttachParticipant 170, 1001); (AttachParticipant 187, 1002); (AttachParticipant 204, 1003);
   (DeclareMessage [1; 2; 3], 1004); (SubmitRound1 170 [5], 1005); (SubmitRound1 204 [6], 1006)].

Lemma sample_run_reachable : reachable (fst (run sample_session sample_run)).
Proof.
  unfold sample_run. rewrite !run_cons. cbn [fst]. unfold run. cbn [fold_left fst].
  repeat apply reach_apply. apply sample_reachable.
Qed.

Example silent_signer :
  let s := fst (run sample_session sample_run) in
  state s = Round2
  /\ snd (apply s (SubmitRound1 187 [7]) 1007) = Err (InvalidTransition "SubmitRound1" "Round2")
  /\ snd (run s [(SubmitRound2 170 [8], 1008); (SubmitAggregate [9], 1009); (Tick, 4606)])
     = [Ok tt; Err (ThresholdViolation "need 2 sig shares to aggregate, have 1"); Err (SessionExpired "Round2")].
Proof. vm_compute. done. Qed.

Lemma apply_outcome_witness : reachable (fst (run sample_session sample_run))
  /\ fst (apply (fst (run sample_session sample_run)) (SubmitAggregate [9]) 1009) = fst (run sample_session sample_run).
Proof.
  split; [apply sample_run_reachable|].
  apply (proj2 (proj2 (apply_outcome _ (SubmitAggregate [9]) 1009 sample_run_reachable))).
  - vm_compute. discriminate.
  - right. vm_compute. reflexivity.
Defined.

Lemma reachable_session_sound_witness : reachable (fst (run sample_session sample_run))
  /\ round1_count (fst (run sample_session sample_run)) = threshold (fst (run sample_session sample_run)).
Proof.
  split; [apply sample_run_reachable|].
  apply (proj1 (proj2 (reachable_session_sound _ sample_run_reachable))). left. vm_compute. reflexivity.
Defined.

Definition sample_ceremony : list (Transition * Z) :=
  imap (fun i t => (t, 1001 + Z.of_nat i)) (ceremony [170; 187; 204] [204; 170] [1; 2; 3] (fun p => [p; 1]) (fun p => [p; 2]) [9; 9]).

Lemma signing_completes_witness : exists s', run sample_session sample_ceremony = (s', replicate 9 (Ok tt)) /\ state s' = Aggregated.
Proof.
  destruct (signing_completes 7 2 3 11 170 1000 sample_session [170; 187; 204] [204; 170] [1; 2; 3]
    (fun p => [p; 1]) (fun p => [p; 2]) [9; 9] sample_ceremony) as (s' & Hr & Hs & _).
  - reflexivity.
  - lia.
  - vm_compute. discriminate.
  - apply (bool_decide_unpack _). vm_compute. exact I.
  - cbn. lia.
  - apply (bool_decide_unpack _). vm_compute. exact I.
  - intros p Hp. rewrite !elem_of_cons in *. tauto.
  - reflexivity.
  - reflexivity.
  - apply (bool_decide_unpack _). vm_compute. exact I.
  - exists s'. split; [exact Hr|exact Hs].
Defined.

Definition sample_hmac (key data : list Z) : list Z := app key data.

Lemma invitation_binding_witness :
  verify_token sample_hmac (replicate 32 66) (mkToken 7 170 2000 (compute_mac sample_hmac (replicate 32 66) 7 170 2000)) 2000 = Ok tt.
Proof.
  apply (proj1 (invitation_binding sample_hmac (replicate 32 66) 7 170 2000 _ eq_refl
    ltac:(unfold fields_fit, fits; lia) eq_refl)). lia.
Defined.

End FrostSession.
