(* ===== verification/FrostCoord.v ===== *)
(** * The FROST coordinator (src/crates/coincync-frost-coordinator/src/persistence.rs, bin/coord.rs, bin/coord_cli.rs)

    The session store on disk, the server that applies the participants' requests to its
    sessions, and the operator's commands.

    The disk holds the store's file and its temporary file.  What was written but not
    synced, and a rename whose directory was not synced, may be lost in a crash: [crash]
    relates a disk to what may be found afterwards.  Which system call of a save fails is
    an argument.  serde_json, the rate limiter, HMAC, the clock and the order of a
    HashMap are parameters; what is sent on a session's channel, the subscriptions and the
    metrics are the events an operation returns. *)

From stdpp Require Import gmap strings pretty.
From S2P Require Import Prelude.
From S2P Require Import FrostSession.

Module FrostCoord.
Import FrostSession.
Local Open Scope string_scope.
Local Open Scope Z_scope.

(** ** The session store *)

Definition PERSISTENCE_VERSION : Z := 1.

Record PersistFile := mkPersist { version : Z; saved_at : Z; saved_sessions : list Session }.

Inductive PersistError := Io | Json | UnsupportedVersion (file_version supported : Z).

Record File := mkFile { data : list Z; synced : bool }.

(** [stale] holds the directory entries of the store's path that a rename has replaced and
    no directory sync has made final. *)
Record Disk := mkDisk { main : option File; tmp : option File; stale : list (option File) }.

(** The system calls of a save. *)
Inductive Call := OpenTmp | WriteAll (json : list Z) | SyncTmp | Rename | SyncDir.

Definition exec (c : Call) (d : Disk) : Disk :=
  match c with
  | OpenTmp => mkDisk (main d) (Some (mkFile [] false)) (stale d)
  | WriteAll json => mkDisk (main d) ((fun f => mkFile (app (data f) json) false) <$> tmp d) (stale d)
  | SyncTmp => mkDisk (main d) ((fun f => mkFile (data f) true) <$> tmp d) (stale d)
  | Rename => match tmp d with
              | Some f => mkDisk (Some f) None (main d :: stale d)
              | None => d
              end
  | SyncDir => mkDisk (main d) (tmp d) []
  end.

(** A call that fails changes nothing, but a failed write may have written a part. *)
Definition attempt (partial : nat) (c : Call) (d : Disk) : Disk :=
  match c with WriteAll json => exec (WriteAll (take partial json)) d | _ => d end.

(** The failure of a save: the index of the call that fails, and how much of the file a
    failing write leaves. *)
Record Faults := mkFaults { fail_at : option nat; partial : nat }.

Definition no_fault : Faults := mkFaults None 0.

Fixpoint perform (fail : option nat) (part : nat) (cs : list Call) (d : Disk) : Disk * result PersistError unit :=
  match cs with
  | [] => (d, Ok tt)
  | c :: cs' =>
      match fail with
      | Some O => match c with SyncDir => perform None part cs' d | _ => (attempt part c d, Err Io) end
      | Some (S n) => perform (Some n) part cs' (exec c d)
      | None => perform None part cs' (exec c d)
      end
  end.

(** The disks that [perform] passes through: a crash may follow any of its calls. *)
Fixpoint passed (fail : option nat) (part : nat) (cs : list Call) (d : Disk) : list Disk :=
  d :: match cs with
       | [] => []
       | c :: cs' =>
           match fail with
           | Some O => match c with SyncDir => passed None part cs' d | _ => [attempt part c d] end
           | Some (S n) => passed (Some n) part cs' (exec c d)
           | None => passed None part cs' (exec c d)
           end
       end.

(** A path without a parent directory behaves as one whose directory sync fails: the error
    is ignored either way. *)
Definition save_calls (json : list Z) : list Call := [OpenTmp; WriteAll json; SyncTmp; Rename; SyncDir].

Section Store.
Variable to_vec_pretty : PersistFile -> option (list Z).
Variable from_slice : list Z -> option PersistFile.

Definition save (d : Disk) (now : Z) (sessions : list Session) (f : Faults) : Disk * result PersistError unit :=
  match to_vec_pretty (mkPersist PERSISTENCE_VERSION now sessions) with
  | None => (d, Err Json)
  | Some json => perform (fail_at f) (partial f) (save_calls json) d
  end.

Definition save_passes (d : Disk) (now : Z) (sessions : list Session) (f : Faults) : list Disk :=
  match to_vec_pretty (mkPersist PERSISTENCE_VERSION now sessions) with
  | None => [d]
  | Some json => passed (fail_at f) (partial f) (save_calls json) d
  end.

Definition load (d : Disk) : result PersistError (list Session) :=
  match main d with
  | None => Ok []
  | Some f =>
      match from_slice (data f) with
      | None => Err Json
      | Some payload =>
          if PERSISTENCE_VERSION <? version payload
          then Err (UnsupportedVersion (version payload) PERSISTENCE_VERSION)
          else Ok (saved_sessions payload)
      end
  end.

(** [SessionStore::update] *)
Definition update (d : Disk) (now : Z) (f : list Session -> list Session) (io : Faults) : Disk * result PersistError unit :=
  match load d with
  | Err e => (d, Err e)
  | Ok sessions => save d now (f sessions) io
  end.

(** ** The server *)

Inductive Response :=
| Accepted (request_id new_state : string)
| Rejected (request_id code text : string)
| StateChange (sid : Z) (new_state : string)
| AggregatedMsg (sid : Z) (signature : list Z)
| AbortedMsg (sid : Z) (reason : string).

Inductive Event :=
| Sent (sid : Z) (r : Response)
| Subscribed (sid : Z)
| Inc (counter : string) (labels : list string)
| Gauge (gauge : string) (value : Z)
| PersistFailed.

Inductive Request :=
| Attach (request_id : string) (token : InvitationToken)
| ReqDeclareMessage (request_id : string) (sid : Z) (msg : list Z)
| ReqSubmitRound1 (request_id : string) (sid participant : Z) (commit : list Z)
| ReqSubmitRound2 (request_id : string) (sid participant : Z) (share : list Z)
| ReqSubmitAggregate (request_id : string) (sid : Z) (signature : list Z)
| ReqAbort (request_id : string) (sid participant : Z)
| ReqTick (request_id : string) (sid : Z).

Record Coord := mkCoord {
  sessions : gmap Z Session;
  broadcasters : gset Z;
  invite_secret : list Z;
  store : Disk;
  connections : Z;
}.

Definition with_sessions (c : Coord) (m : gmap Z Session) : Coord :=
  mkCoord m (broadcasters c) (invite_secret c) (store c) (connections c).
Definition with_store (c : Coord) (d : Disk) : Coord :=
  mkCoord (sessions c) (broadcasters c) (invite_secret c) d (connections c).
Definition with_connections (c : Coord) (n : Z) : Coord :=
  mkCoord (sessions c) (broadcasters c) (invite_secret c) (store c) n.

Definition coord_new (secret : list Z) (d : Disk) : Coord := mkCoord ∅ ∅ secret d 0.

Definition load_existing_sessions (c : Coord) : result PersistError (Coord * Z) :=
  let? loaded := load (store c) in
  let put '(m, b) s := (<[id s := s]> m, {[id s]} ∪ b) in
  let '(m, b) := fold_left put loaded (sessions c, broadcasters c) in
  Ok (mkCoord m b (invite_secret c) (store c) (connections c), Z.of_nat (length loaded)).

(** The values of a HashMap in its order. *)
Variable values : gmap Z Session -> list Session.

Definition persist (c : Coord) (now : Z) (io : Faults) : Coord * result PersistError unit :=
  let '(d, r) := save (store c) now (values (sessions c)) io in (with_store c d, r).

Definition broadcast (c : Coord) (prior : SessionState) (s : Session) : list Event :=
  if bool_decide (id s ∈ broadcasters c) then
    [Sent (id s) (StateChange (id s) (name (state s)))]
    ++ (if bool_decide (state s = Aggregated)
        then match aggregate_signature s with Some sig => [Sent (id s) (AggregatedMsg (id s) sig)] | None => [] end
        else [])
    ++ (if negb (is_terminal prior) && is_terminal (state s) && negb (bool_decide (state s = Aggregated))
        then [Sent (id s) (AbortedMsg (id s) ("session entered " +:+ name (state s)))] else [])
  else [].

(** What the environment gives an operation: the clock at its reads, the answer of the rate
    limiter, and the fate of the save. *)
Record Env := mkEnv { clock_token : Z; clock : Z; clock_save : Z; admitted : bool; io : Faults }.

Definition apply_transition (c : Coord) (e : Env) (sid : Z) (t : Transition)
  : Coord * result CoordinatorError string * list Event :=
  match sessions c !! sid with
  | None => (c, Err (Internal "unknown session"), [])
  | Some s =>
      let prior := state s in
      let '(s, r) := apply s t (clock e) in
      let c := with_sessions c (<[sid := s]> (sessions c)) in
      match r with
      | Err err => (c, Err err, [])
      | Ok _ =>
          let '(c, saved) := persist c (clock_save e) (io e) in
          let failed := if is_ok saved then [] else [PersistFailed] in
          (c, Ok (name (state s)), app failed (broadcast c prior s))
      end
  end.

Definition transition_kind (t : Transition) : string :=
  match t with
  | AttachParticipant _ => "attach"
  | DeclareMessage _ => "declare_message"
  | SubmitRound1 _ _ => "submit_round1"
  | SubmitRound2 _ _ => "submit_round2"
  | SubmitAggregate _ => "submit_aggregate"
  | Abort _ => "abort"
  | Tick => "tick"
  end.

Definition invitation_error_code (e : InvitationError) : string :=
  match e with BadSecretLength => "bad_secret_length" | TokenExpired _ _ => "token_expired" | BadMac => "token_invalid" end.

Definition coordinator_error_code (e : CoordinatorError) : string :=
  match e with
  | InvalidTransition _ _ => "invalid_transition"
  | UnauthorizedParticipant => "unauthorized_participant"
  | SessionTerminal _ => "session_terminal"
  | SessionExpired _ => "session_expired"
  | ThresholdViolation _ => "threshold_violation"
  | DuplicateAction _ => "duplicate_action"
  | Internal _ => "internal_error"
  end.

(** The messages of the errors ([Display]). *)
Definition invitation_display (e : InvitationError) : string :=
  match e with
  | BadSecretLength => "session secret must be exactly 32 bytes"
  | TokenExpired x now => "invitation token expired at " +:+ pretty x +:+ ", now is " +:+ pretty now
  | BadMac => "invitation token MAC did not verify"
  end.

Definition coordinator_display (e : CoordinatorError) : string :=
  match e with
  | InvalidTransition t s => "invalid transition '" +:+ t +:+ "' from state '" +:+ s +:+ "'"
  | UnauthorizedParticipant => "participant unauthorized for this session"
  | SessionTerminal s => "session is in terminal state '" +:+ s +:+ "'"
  | SessionExpired s => "session deadline elapsed for state '" +:+ s +:+ "'"
  | ThresholdViolation w => "threshold violation: " +:+ w
  | DuplicateAction w => "duplicate " +:+ w +:+ " from participant"
  | Internal w => "coordinator internal: " +:+ w
  end.

Definition apply_helper (c : Coord) (e : Env) (request_id : string) (sid : Z) (t : Transition)
  : Coord * Response * list Event :=
  let kind := transition_kind t in
  let '(c, r, ev) := apply_transition c e sid t in
  match r with
  | Ok new_state => (c, Accepted request_id new_state, app ev [Inc "transitions" [kind; "accepted"]])
  | Err err => (c, Rejected request_id (coordinator_error_code err) (coordinator_display err),
                app ev [Inc "transitions" [kind; "rejected"]])
  end.

Variable hmac : list Z -> list Z -> list Z.

(** The connection's subscriptions are [attached]. *)
Definition coord_attach (c : Coord) (e : Env) (attached : gset Z) (request_id : string) (token : InvitationToken)
  : Coord * gset Z * Response * list Event :=
  if negb (admitted e) then
    (c, attached, Rejected request_id "rate_limited" "attach rate limit exceeded (60 attempts/min/IP)",
     [Inc "attach_rate_limit_hits" []; Inc "attach_attempts" ["rate_limited"]])
  else
    match verify_token hmac (invite_secret c) token (clock_token e) with
    | Err err => (c, attached, Rejected request_id (invitation_error_code err) (invitation_display err),
                  [Inc "attach_attempts" ["bad_token"]])
    | Ok _ =>
        match sessions c !! session_id token with
        | None => (c, attached, Rejected request_id "unknown_session" "session not found in coordinator state",
                   [Inc "attach_attempts" ["unknown_session"]])
        | Some _ =>
            let '(c, r, ev) := apply_transition c e (session_id token) (AttachParticipant (participant_pubkey token)) in
            match r with
            | Ok new_state =>
                let sub := bool_decide (session_id token ∈ broadcasters c) in
                (c, (if sub then {[session_id token]} ∪ attached else attached), Accepted request_id new_state,
                 app ev (app (if sub then [Subscribed (session_id token)] else []) [Inc "attach_attempts" ["accepted"]]))
            | Err err => (c, attached, Rejected request_id (coordinator_error_code err) (coordinator_display err),
                          app ev [Inc "attach_attempts" ["rejected"]])
            end
        end
    end.

(** The request is what serde_json made of the text, or its error. *)
Definition handle_request (c : Coord) (e : Env) (attached : gset Z) (req : result string Request)
  : Coord * gset Z * Response * list Event :=
  let help request_id sid t := let '(c, r, ev) := apply_helper c e request_id sid t in (c, attached, r, ev) in
  match req with
  | Err msg => (c, attached, Rejected "" "bad_request" ("malformed JSON: " +:+ msg), [])
  | Ok (Attach request_id token) => coord_attach c e attached request_id token
  | Ok (ReqDeclareMessage request_id sid msg) => help request_id sid (DeclareMessage msg)
  | Ok (ReqSubmitRound1 request_id sid p x) => help request_id sid (SubmitRound1 p x)
  | Ok (ReqSubmitRound2 request_id sid p x) => help request_id sid (SubmitRound2 p x)
  | Ok (ReqSubmitAggregate request_id sid sig) => help request_id sid (SubmitAggregate sig)
  | Ok (ReqAbort request_id sid p) => help request_id sid (Abort p)
  | Ok (ReqTick request_id sid) => help request_id sid Tick
  end.

(** ** Connections *)

Definition MAX_CONNECTIONS : Z := 1000.

(** The two ends of [handle_connection]: what it does before and after the connection runs. *)
Definition open_connection (c : Coord) : Coord * bool * list Event :=
  if MAX_CONNECTIONS <=? connections c
  then (c, false, [Inc "connections_attempted" []; Inc "connections_rejected_limit" []])
  else (with_connections c (connections c + 1), true,
        [Inc "connections_attempted" []; Gauge "connections_active" (connections c + 1)]).

Definition close_connection (c : Coord) : Coord * list Event :=
  let count := saturating_sub (connections c) 1 in
  (with_connections c count, [Gauge "connections_active" count]).

Inductive IpAddr := V4 (a b c d : Z) | V6 (s0 s1 s2 s3 s4 s5 s6 s7 : Z).

Definition canonicalize_ip_for_rate_limit (ip : IpAddr) : IpAddr :=
  match ip with
  | V4 _ _ _ _ => ip
  | V6 s0 s1 s2 s3 s4 s5 high low =>
      if (s0 =? 0) && (s1 =? 0) && (s2 =? 0) && (s3 =? 0) && (s4 =? 0) && (s5 =? 65535)
      then V4 (Z.shiftr high 8) (Z.land high 255) (Z.shiftr low 8) (Z.land low 255)
      else V6 s0 s1 s2 s3 0 0 0 0
  end.

(** ** The server's secret *)

(** [u8::from_str_radix(_, 16)] of the standard library on a string of two characters: a
    leading plus sign is skipped. *)
Definition from_str_radix16 (a b : Z) : option Z :=
  if a =? 43 then decode_hex_nibble b
  else hi ← decode_hex_nibble a; lo ← decode_hex_nibble b; Some (16 * hi + lo).

(** The two bytes are valid UTF-8. *)
Definition utf8_pair (a b : Z) : bool :=
  ((a <? 128) && (b <? 128)) || ((194 <=? a) && (a <=? 223) && (128 <=? b) && (b <=? 191)).

Inductive SecretError := SecretLength | NonAscii | NonHexCharacter.

Fixpoint parse_secret_pairs (s : list Z) : result SecretError (list Z) :=
  match s with
  | a :: b :: rest =>
      if negb (utf8_pair a b) then Err NonAscii
      else match from_str_radix16 a b with
           | None => Err NonHexCharacter
           | Some x => let? out := parse_secret_pairs rest in Ok (x :: out)
           end
  | _ => Ok []
  end.

Definition parse_invite_secret (hex_str : list Z) : result SecretError (list Z) :=
  if negb (length hex_str =? SESSION_SECRET_LEN * 2)%nat then Err SecretLength else parse_secret_pairs hex_str.

(** ** The operator's commands *)

Inductive CliError := CliSession (e : CoordinatorError) | CliStore (e : PersistError) | NotFound | CliMint (e : InvitationError)
| HoursTooLarge | ExpiryOverflow.

Definition create_session (d : Disk) (uuid threshold total group_pubkey creator now now_save : Z) (io : Faults)
  : Disk * result CliError Z :=
  match new uuid threshold total group_pubkey creator now with
  | Err e => (d, Err (CliSession e))
  | Ok session =>
      match load d with
      | Err e => (d, Err (CliStore e))
      | Ok existing =>
          match save d now_save (app existing [session]) io with
          | (d, Ok _) => (d, Ok (id session))
          | (d, Err e) => (d, Err (CliStore e))
          end
      end
  end.

Definition mint_invitation (secret : list Z) (sid p expires_in_hours now : Z) : result CliError InvitationToken :=
  let? secs := ok_or (checked_mul u64_max expires_in_hours 3600) HoursTooLarge in
  let? expires := ok_or (checked_add u64_max now secs) ExpiryOverflow in
  match mint_token hmac secret sid p expires with Ok t => Ok t | Err e => Err (CliMint e) end.

(** The first session with the identifier is replaced by what [f] makes of it. *)
Fixpoint alter_first {E} (sid : Z) (f : Session -> result E Session) (l : list Session) : option (result E (list Session)) :=
  match l with
  | [] => None
  | s :: rest =>
      if id s =? sid then Some (rmap (fun s => s :: rest) (f s))
      else option_map (rmap (cons s)) (alter_first sid f rest)
  end.

Definition force_abort (d : Disk) (sid participant now now_save : Z) (io : Faults) : Disk * result CliError unit :=
  match load d with
  | Err e => (d, Err (CliStore e))
  | Ok l =>
      match alter_first sid (fun s => match apply s (Abort participant) now with
                                      | (s, Ok _) => Ok s
                                      | (_, Err e) => Err e
                                      end) l with
      | None => (d, Err NotFound)
      | Some (Err e) => (d, Err (CliSession e))
      | Some (Ok l) =>
          match save d now_save l io with (d, Ok _) => (d, Ok tt) | (d, Err e) => (d, Err (CliStore e)) end
      end
  end.

Definition RETENTION_SECS : Z := 30 * 24 * 60 * 60.

Definition purgeable (now : Z) (s : Session) : bool :=
  is_terminal (state s) && (RETENTION_SECS <=? saturating_sub now (state_entered_at s)).

Definition gc_terminal (d : Disk) (now now_save : Z) (dry_run : bool) (io : Faults) : Disk * result CliError (list Z) :=
  match load d with
  | Err e => (d, Err (CliStore e))
  | Ok l =>
      let keep := List.filter (fun s => negb (purgeable now s)) l in
      let purged := id <$> List.filter (purgeable now) l in
      if bool_decide (purged = []) then (d, Ok [])
      else if dry_run then (d, Ok purged)
      else match save d now_save keep io with (d, Ok _) => (d, Ok purged) | (d, Err e) => (d, Err (CliStore e)) end
  end.
End Store.

(** ** Crashes *)

Inductive survives : option File -> option File -> Prop :=
| survives_none : survives None None
| survives_synced f : synced f = true -> survives (Some f) (Some f)
| survives_torn f n : synced f = false -> survives (Some f) (Some (mkFile (take n (data f)) true)).

(** After a crash the store's path holds its last entry or one that a rename replaced
    without a directory sync; a file that was not synced may have lost its end.  What is
    left at the temporary path is arbitrary. *)
Inductive crash (d : Disk) : Disk -> Prop :=
| crashed f f' t : f ∈ main d :: stale d -> survives f f' -> crash d (mkDisk f' t []).

(** ** The store survives crashes *)

Section Storage.
Context (to_vec : PersistFile -> option (list Z)) (from_slice : list Z -> option PersistFile).
Hypothesis codec : forall p json, to_vec p = Some json -> from_slice json = Some p.

(** Every file the store's path may show after a crash was synced. *)
Definition disk_ok (d : Disk) : Prop := Forall (fun f : option File => forall x, f = Some x -> synced x = true) (main d :: stale d).

Definition saved_file (json : list Z) : File := mkFile json true.

Lemma crash_synced d d' : disk_ok d -> crash d d' -> exists f, f ∈ main d :: stale d /\ main d' = f.
Proof.
  intros Hok Hc. destruct Hc as [f f' t Hf Hs]. exists f. split; [done|]. cbn.
  unfold disk_ok in Hok. rewrite list.Forall_forall in Hok. specialize (Hok f Hf).
  inversion Hs as [|? Hx|? n Hx]; subst; try done. by rewrite (Hok f0 eq_refl) in Hx.
Qed.

Lemma load_saved json p d : to_vec p = Some json -> version p = PERSISTENCE_VERSION -> main d = Some (saved_file json) ->
  load from_slice d = Ok (saved_sessions p).
Proof. intros Hj Hv Hm. unfold load. rewrite Hm. cbn. by rewrite (codec p json Hj), Hv. Qed.

Lemma load_main d d' : main d = main d' -> load from_slice d = load from_slice d'.
Proof. unfold load. by intros ->. Qed.

(** What a save leaves: the new file in place, or the old one. *)
Lemma save_effect d now l f d' r : save to_vec d now l f = (d', r) ->
  (exists json, to_vec (mkPersist PERSISTENCE_VERSION now l) = Some json /\ r = Ok tt /\ main d' = Some (saved_file json)
     /\ (stale d' = [] \/ stale d' = main d :: stale d) /\ (fail_at f <> Some 4%nat -> stale d' = []))
  \/ (r <> Ok tt /\ main d' = main d /\ stale d' = stale d).
Proof.
  unfold save. destruct (to_vec _) as [json|]; [|intros [= <- <-]; by right].
  unfold save_calls. destruct (fail_at f) as [n|]; cbn.
  - do 4 (destruct n as [|n]; cbn; [intros [= <- <-]; by right|]). intros H. left. exists json.
    destruct n; injection H as <- <-; split_and!; try done; auto.
  - intros [= <- <-]. left. exists json. split_and!; auto.
Qed.

(** On every disk that a save passes through, the path holds the file from before or the
    complete new one. *)
Lemma save_passes_effect d now l f d1 : d1 ∈ save_passes to_vec d now l f ->
  (main d1 = main d /\ stale d1 = stale d)
  \/ exists json, to_vec (mkPersist PERSISTENCE_VERSION now l) = Some json /\ main d1 = Some (saved_file json)
       /\ (stale d1 = [] \/ stale d1 = main d :: stale d).
Proof.
  unfold save_passes. destruct (to_vec _) as [json|]; [|intros ->%list_elem_of_singleton; by left].
  assert (K : forall l, Forall (fun d1 => (main d1 = main d /\ stale d1 = stale d)
    \/ exists json', Some json = Some json' /\ main d1 = Some (saved_file json') /\ (stale d1 = [] \/ stale d1 = main d :: stale d)) l
    -> d1 ∈ l -> (main d1 = main d /\ stale d1 = stale d)
    \/ exists json', Some json = Some json' /\ main d1 = Some (saved_file json') /\ (stale d1 = [] \/ stale d1 = main d :: stale d)).
  { intros l0 F. rewrite list.Forall_forall in F. apply F. }
  apply K. unfold save_calls.
  destruct (fail_at f) as [[|[|[|[|[|n]]]]]|]; cbn;
    repeat (constructor; [first [by left|right; exists json; by auto]|]); constructor.
Qed.

(** C32: saving the sessions is atomic under faults and crashes: whichever system call
    fails and whichever one a crash follows, the store then reads back as one of the
    contents it could have shown before the save, or as the new sessions. A save that
    returns an error leaves the old contents, one that succeeds leaves the new ones, and
    these survive a crash unless the sync of the directory failed or could not be made,
    which the save ignores. *)
Theorem save_crash_atomic d now l f d1 r : disk_ok d -> save to_vec d now l f = (d1, r) ->
  (forall dk d', dk ∈ save_passes to_vec d now l f -> crash dk d' ->
     load from_slice d' = Ok l
     \/ exists g, g ∈ main d :: stale d /\ load from_slice d' = load from_slice (mkDisk g None []))
  /\ (r <> Ok tt -> load from_slice d1 = load from_slice d)
  /\ (r = Ok tt -> load from_slice d1 = Ok l
       /\ (fail_at f <> Some 4%nat -> forall d', crash d1 d' -> load from_slice d' = Ok l)).
Proof.
  intros Hok Hs.
  assert (Hnew : forall json x, to_vec (mkPersist PERSISTENCE_VERSION now l) = Some json ->
    main x = Some (saved_file json) -> load from_slice x = Ok l)
    by (intros json x Hj; by apply (load_saved json (mkPersist PERSISTENCE_VERSION now l))).
  split; [|split].
  - intros dk d' Hd Hc. apply save_passes_effect in Hd. assert (disk_ok dk) as Hk.
    { unfold disk_ok. destruct Hd as [[-> ->]|(json & _ & -> & [-> | ->])]; [done| |];
        (constructor; [by intros x [= <-]|]); [constructor|exact Hok]. }
    destruct (crash_synced dk d' Hk Hc) as (g & Hg & Hm).
    destruct Hd as [[Em Es]|(json & Hj & Em & Es)]; rewrite Em in Hg.
    + right. exists g. rewrite Es in Hg. split; [done|]. by apply load_main.
    + apply elem_of_cons in Hg as [-> | Hg]; [left; by apply (Hnew json)|]. destruct Es as [Es|Es]; rewrite Es in Hg.
      * by apply elem_of_nil in Hg.
      * right. exists g. split; [done|]. by apply load_main.
  - intros Hr. apply save_effect in Hs as [(json & _ & Hok' & _)|(_ & Hm & _)]; [done|]. by apply load_main.
  - intros ->. apply save_effect in Hs as [(json & Hj & _ & Hm & _ & Hst)|(? & _)]; [|done].
    split; [by apply (Hnew json)|]. intros Hf d' Hc. apply (crash_synced d1) in Hc as (g & Hg & Hm').
    + rewrite Hm, (Hst Hf) in Hg. apply list_elem_of_singleton in Hg as ->. by apply (Hnew json).
    + unfold disk_ok. rewrite Hm, (Hst Hf). constructor; [by intros x [= <-]|constructor].
Qed.

Lemma save_disk_ok d now l f d' r : save to_vec d now l f = (d', r) -> disk_ok d -> disk_ok d'.
Proof.
  unfold disk_ok. intros [(json & _ & _ & -> & Hs & _) | (_ & -> & ->)]%save_effect Hd; [|done].
  destruct Hs as [-> | ->]; constructor; try (by intros x [= <-]); [constructor|done].
Qed.
End Storage.

(** ** The server *)

Section Server.
Context (to_vec : PersistFile -> option (list Z)) (from_slice : list Z -> option PersistFile).
Context (values : gmap Z Session -> list Session) (hmac : list Z -> list Z -> list Z).
Hypothesis codec : forall p json, to_vec p = Some json -> from_slice json = Some p.
Hypothesis values_perm : forall m, values m ≡ₚ (map_to_list m).*2.

Abbreviation handle := (handle_request to_vec values hmac).

Lemma elem_of_values m s : s ∈ values m <-> exists k, m !! k = Some s.
Proof.
  rewrite values_perm, list_elem_of_fmap. split.
  - intros ([k x] & -> & H%elem_of_map_to_list). eauto.
  - intros [k H]. exists (k, s). split; [done|]. by apply elem_of_map_to_list.
Qed.

(** Sessions are filed under their own identifiers. *)
Definition keyed (m : gmap Z Session) : Prop := forall k s, m !! k = Some s -> id s = k.

Lemma apply_id s t now : id (fst (apply s t now)) = id s.
Proof. pose proof (ext_config _ _ (apply_extends s t now)) as H. congruence. Qed.

Lemma keyed_insert m sid s t now : keyed m -> m !! sid = Some s -> keyed (<[sid := fst (apply s t now)]> m).
Proof. intros Hk Hs k x [[<- <-] | [_ Hx]]%lookup_insert_Some; [by rewrite apply_id, (Hk _ _ Hs)|by apply Hk]. Qed.

(** Reading back the sessions of a map, in any order, gives the map. *)
Lemma load_rebuilds l : forall m b, NoDup (id <$> l) -> (forall s, s ∈ l -> m !! id s = None) ->
  fold_left (fun '(m, b) s => (<[id s := s]> m, {[id s]} ∪ b)) l (m, b)
  = (list_to_map ((fun s => (id s, s)) <$> l) ∪ m, list_to_set (id <$> l) ∪ b) :> gmap Z Session * gset Z.
Proof.
  induction l as [|s l IH]; intros m b Hnd Hfr; cbn.
  { f_equal; [by rewrite (left_id_L ∅ _)|set_solver]. }
  apply list.NoDup_cons in Hnd as [Hs Hnd]. rewrite IH; [|done|].
  - f_equal; [|set_solver]. apply map_eq. intros k. rewrite !lookup_union. destruct (decide (k = id s)) as [-> | Hne].
    + rewrite !lookup_insert_eq, not_elem_of_list_to_map_1.
      * by destruct (m !! id s).
      * by rewrite <- list_fmap_compose.
    + by rewrite !lookup_insert_ne.
  - intros x Hx. rewrite lookup_insert_ne; [apply Hfr; set_solver|].
    intros E. apply Hs. rewrite E. by apply list_elem_of_fmap_2.
Qed.

Lemma rebuild_values m b : keyed m ->
  fold_left (fun '(m, b) s => (<[id s := s]> m, {[id s]} ∪ b)) (values m) (∅, b) = (m, dom m ∪ b) :> gmap Z Session * gset Z.
Proof.
  intros Hk. assert (Hids : id <$> values m ≡ₚ (map_to_list m).*1).
  { rewrite values_perm, <- list_fmap_compose. erewrite list_fmap_ext; [done|].
    intros i [k s] Hx%list_elem_of_lookup_2%elem_of_map_to_list. by apply Hk. }
  rewrite load_rebuilds.
  - f_equal.
    + rewrite (right_id_L ∅ _). apply map_eq. intros k. apply option_eq. intros s. rewrite <- elem_of_list_to_map.
      * rewrite list_elem_of_fmap. split.
        -- intros (x & [= -> ->] & Hx). apply elem_of_values in Hx as [j Hj]. by rewrite (Hk _ _ Hj).
        -- intros Hs. exists s. rewrite (Hk _ _ Hs). split; [done|]. apply elem_of_values. eauto.
      * rewrite <- list_fmap_compose. change (NoDup (id <$> values m)). rewrite Hids. apply NoDup_fst_map_to_list.
    + f_equal. apply set_eq. intros k. rewrite elem_of_list_to_set, Hids, elem_of_dom, list_elem_of_fmap. split.
      * intros ([j s] & -> & Hx%elem_of_map_to_list). eauto.
      * intros [s Hs]. exists (k, s). split; [done|]. by apply elem_of_map_to_list.
  - rewrite Hids. apply NoDup_fst_map_to_list.
  - intros s _. apply lookup_empty.
Qed.

(** How a request reaches a session: at most one transition is applied. *)
Lemma apply_transition_cases c e sid t c' r ev : apply_transition to_vec values c e sid t = (c', r, ev) ->
  (sessions c !! sid = None /\ c' = c /\ ev = [] /\ r = Err (Internal "unknown session"))
  \/ exists s, sessions c !! sid = Some s /\ sessions c' = <[sid := fst (apply s t (clock e))]> (sessions c)
     /\ broadcasters c' = broadcasters c /\ invite_secret c' = invite_secret c /\ connections c' = connections c
     /\ match snd (apply s t (clock e)) with
        | Err err => r = Err err /\ store c' = store c /\ ev = []
        | Ok _ => r = Ok (name (state (fst (apply s t (clock e)))))
                  /\ store c' = fst (save to_vec (store c) (clock_save e) (values (sessions c')) (io e))
                  /\ (snd (save to_vec (store c) (clock_save e) (values (sessions c')) (io e)) = Ok tt ->
                      ev = broadcast c' (state s) (fst (apply s t (clock e))))
        end.
Proof.
  unfold apply_transition. destruct (sessions c !! sid) as [s|] eqn:Es; [|intros [= <- <- <-]; by left].
  destruct (apply s t (clock e)) as [s1 r1] eqn:Ea. cbn [fst snd]. destruct r1 as [[]|err].
  - unfold persist. cbn [sessions with_sessions store].
    destruct (save _ _ _ _ _) as [d r2] eqn:Esv. intros [= <- <- <-]. right. exists s. rewrite Ea. cbn. rewrite Esv. cbn.
    split_and!; try done. by intros ->.
  - intros [= <- <- <-]. right. exists s. by rewrite Ea.
Qed.

(** The transition and the session of a request that is not an attachment. *)
Definition request_transition (req : Request) : Z * Transition :=
  match req with
  | Attach _ t => (session_id t, AttachParticipant (participant_pubkey t))
  | ReqDeclareMessage _ sid m => (sid, DeclareMessage m)
  | ReqSubmitRound1 _ sid p x => (sid, SubmitRound1 p x)
  | ReqSubmitRound2 _ sid p x => (sid, SubmitRound2 p x)
  | ReqSubmitAggregate _ sid sig => (sid, SubmitAggregate sig)
  | ReqAbort _ sid p => (sid, Abort p)
  | ReqTick _ sid => (sid, Tick)
  end.

(** What a request does to the coordinator: nothing, or what [apply_transition] does, for
    an attachment only with a verified token. *)
Lemma handle_cases c e att req : let '(c', _, resp, ev) := handle c e att req in
  (c' = c /\ (forall q, req = Ok q -> exists rid code text, resp = Rejected rid code text))
  \/ exists q, req = Ok q
     /\ (forall rid t, q = Attach rid t -> verify_token hmac (invite_secret c) t (clock_token e) = Ok tt)
     /\ exists r tev, apply_transition to_vec values c e (fst (request_transition q)) (snd (request_transition q)) = (c', r, tev)
        /\ (forall sid m, Sent sid m ∈ ev <-> Sent sid m ∈ tev)
        /\ match r with
           | Ok st => exists rid, resp = Accepted rid st
           | Err err => exists rid, resp = Rejected rid (coordinator_error_code err) (coordinator_display err)
           end.
Proof.
  destruct req as [q|msg]; cbn; [|left; split; [done|]; discriminate].
  assert (Hother : forall rid, let '(c', resp, ev) := apply_helper to_vec values c e rid (fst (request_transition q)) (snd (request_transition q)) in
    exists r tev, apply_transition to_vec values c e (fst (request_transition q)) (snd (request_transition q)) = (c', r, tev)
      /\ (forall sid m, Sent sid m ∈ ev <-> Sent sid m ∈ tev)
      /\ match r with
         | Ok st => exists rid, resp = Accepted rid st
         | Err err => exists rid, resp = Rejected rid (coordinator_error_code err) (coordinator_display err)
         end).
  { intros rid. unfold apply_helper. destruct (apply_transition _ _ _ _ _ _) as [[c' r] tev]. destruct r as [st|err];
      (eexists _, tev; split; [done|]; split; [intros sid m; rewrite elem_of_app, list_elem_of_singleton; naive_solver|eauto]). }
  destruct q as [rid t| | | | | |]; cbn in Hother;
    try (specialize (Hother request_id); destruct (apply_helper _ _ _ _ _ _ _) as [[c' resp] ev]; right; eexists;
         split; [done|]; split; [discriminate|exact Hother]).
  unfold coord_attach. destruct (admitted e); cbn [negb]; [|left; split; [done|]; eauto].
  destruct (verify_token hmac (invite_secret c) t (clock_token e)) as [[]|err] eqn:Ev; [|left; split; [done|]; eauto].
  destruct (sessions c !! session_id t) eqn:Es; [|left; split; [done|]; eauto].
  destruct (apply_transition _ _ _ _ _ _) as [[c' r] tev] eqn:Ea. destruct r as [st|err].
  - right. eexists. split; [done|]. split; [intros ? ? [= <- <-]; done|]. exists (Ok st), tev. split; [exact Ea|]. split; [|eauto].
    intros sid m. rewrite !elem_of_app, list_elem_of_singleton. case_bool_decide; [rewrite list_elem_of_singleton|rewrite elem_of_nil]; naive_solver.
  - right. eexists. split; [done|]. split; [intros ? ? [= <- <-]; done|]. exists (Err err), tev. split; [exact Ea|]. split; [|eauto].
    intros sid m. rewrite elem_of_app, list_elem_of_singleton. naive_solver.
Qed.

(** Sessions that were saved are the ones a restart finds, even after a crash. *)
Lemma saved_map_restarts m d0 now d1 d secret : keyed m -> save to_vec d0 now (values m) no_fault = (d1, Ok tt) -> crash d1 d ->
  load_existing_sessions from_slice (coord_new secret d) = Ok (mkCoord m (dom m) secret d 0, Z.of_nat (size m)).
Proof.
  intros Hk Hs Hc. destruct (save_effect to_vec _ _ _ _ _ _ Hs) as [(json & Hj & _ & Hmain & _ & Hsync) | [H _]]; [|done].
  specialize (Hsync ltac:(done)). destruct (crash_synced d1 d) as (f & Hf & Hmd); [|done|].
  { unfold disk_ok. rewrite Hmain, Hsync. constructor; [|constructor]. by intros x [= <-]. }
  rewrite Hmain, Hsync in Hf. apply list_elem_of_singleton in Hf as ->. unfold load_existing_sessions. cbn [store coord_new].
  rewrite (load_saved to_vec from_slice codec json _ d Hj eq_refl Hmd). cbn [rbind saved_sessions sessions broadcasters invite_secret connections coord_new].
  rewrite rebuild_values by done. rewrite (right_id_L ∅ _). do 2 f_equal.
  rewrite values_perm, length_fmap. by rewrite length_map_to_list.
Qed.

Lemma save_no_fault d now l : (forall p, is_Some (to_vec p)) -> snd (save to_vec d now l no_fault) = Ok tt.
Proof. intros H. unfold save. by destruct (H (mkPersist PERSISTENCE_VERSION now l)) as [j ->]. Qed.

(** an accepted request survives: after the response, a crash and a restart give back
    exactly the sessions the server held, each with its channel, if the save met no error. *)
Theorem accepted_survives_crash c e att req c' att' rid st ev d : keyed (sessions c) ->
  io e = no_fault -> (forall p, is_Some (to_vec p)) ->
  handle c e att req = (c', att', Accepted rid st, ev) -> crash (store c') d ->
  load_existing_sessions from_slice (coord_new (invite_secret c) d)
  = Ok (mkCoord (sessions c') (dom (sessions c')) (invite_secret c) d 0, Z.of_nat (size (sessions c'))).
Proof.
  intros Hk Hio Htot Hh Hc. pose proof (handle_cases c e att req) as H. rewrite Hh in H.
  destruct H as [[_ H] | (q & -> & _ & r & tev & Ha & _ & Hr)].
  { destruct req as [q|msg]; [destruct (H q eq_refl) as (? & ? & ? & ?); discriminate|]. cbn in Hh. congruence. }
  destruct r as [st'|err]; [|destruct Hr as (? & ?); discriminate].
  apply apply_transition_cases in Ha as [(_ & _ & _ & ?) | (s & Hs & Hss & _ & _ & _ & Hm)]; [discriminate|].
  destruct (snd (apply s _ _)) as [[]|err]; [|destruct Hm; discriminate]. destruct Hm as (_ & Hst & _). rewrite Hio in Hst.
  pose proof (save_no_fault (store c) (clock_save e) (values (sessions c')) Htot) as Hok.
  destruct (save to_vec (store c) (clock_save e) (values (sessions c')) no_fault) as [d1 r1] eqn:Esv. cbn in Hst, Hok. subst r1 d1.
  eapply saved_map_restarts; [|done|done]. rewrite Hss. by apply keyed_insert.
Qed.

(** an expiry is silent: the first request for a session past its deadline expires it in
    memory and is refused, and neither a message on the session's channel nor the file on
    disk says so. *)
Theorem expiry_is_silent c e att q s : sessions c !! fst (request_transition q) = Some s ->
  is_terminal (state s) = false -> overdue s (clock e) = true -> (forall rid t, q <> Attach rid t) ->
  let '(c', _, resp, ev) := handle c e att (Ok q) in
  sessions c' !! fst (request_transition q) = Some (transition_to s Expired (clock e))
  /\ (exists rid text, resp = Rejected rid "session_expired" text)
  /\ store c' = store c /\ (forall sid m, ~ Sent sid m ∈ ev).
Proof.
  intros Hs Ht Ho Hq. pose proof (handle_cases c e att (Ok q)) as H. destruct (handle c e att (Ok q)) as [[[c' att'] resp] ev] eqn:Eh.
  assert (Ea : forall t, apply s t (clock e) = (transition_to s Expired (clock e), Err (SessionExpired (name (state s)))))
    by (intros t; unfold apply; by rewrite Ht, Ho).
  destruct H as [[-> H] | (q' & [= <-] & _ & r & tev & Hap & Hev & Hr)].
  - exfalso. assert (Hreq : forall rid sid t, sid = fst (request_transition q) ->
      fst (fst (apply_helper to_vec values c e rid sid t)) = c -> False).
    { intros rid sid t -> Hc. unfold apply_helper, apply_transition in Hc. rewrite Hs, Ea in Hc. cbn in Hc.
      assert (E : sessions c !! fst (request_transition q) = Some (transition_to s Expired (clock e)))
        by (rewrite <- Hc at 1; cbn; apply lookup_insert_eq).
      rewrite Hs in E. injection E as E. rewrite E in Ht. discriminate. }
    destruct q as [rid t| | | | | |]; [by destruct (Hq rid t)|..]; cbn in Eh, Hreq;
      destruct (apply_helper _ _ _ _ _ _ _) as [[c2 r2] ev2] eqn:E2; injection Eh as <- _ _ _;
      (eapply Hreq; [reflexivity|]; by rewrite E2).
  - apply apply_transition_cases in Hap as [(? & _) | (s' & Hs' & Hss & _ & _ & _ & Hm)]; [congruence|].
    rewrite Hs in Hs'. injection Hs' as <-. rewrite Ea in Hss, Hm. cbn in Hss, Hm. destruct Hm as (-> & Hst & ->). destruct Hr as [rid ->].
    split_and!; [rewrite Hss; apply lookup_insert_eq|by eexists _, _|done|]. intros sid m Hin%Hev. by apply elem_of_nil in Hin.
Qed.

(** ** What every coordinator state satisfies *)

(** A transition adds no participant but the one it attaches. *)
Lemma apply_dom s t now : dom (participants (fst (apply s t now)))
  ⊆ dom (participants s) ∪ match t with AttachParticipant p => {[p]} | _ => ∅ end.
Proof.
  assert (Hup : forall p e (ps : gmap Z ParticipantState), is_Some (ps !! p) -> dom (<[p := e]> ps) = dom ps).
  { intros p e ps Hp. rewrite dom_insert_L. apply elem_of_dom in Hp. set_solver. }
  unfold apply. destruct (is_terminal _); [apply union_subseteq_l|]. destruct (overdue _ _); [apply union_subseteq_l|].
  destruct t; cbn [dispatch].
  - assert (H : forall s, dom (participants (fst (if (total s <=? Z.of_nat (size (participants s))) && bool_decide (participants s !! participant = None)
      then (s, Err (ThresholdViolation ("session already has total=" +:+ pretty (total s) +:+ " participants")))
      else let entry := default invited (participants s !! participant) in
      (with_participants s (<[participant := mkParticipant true (commitment entry) (sig_share entry)]> (participants s)), Ok tt))))
      ⊆ dom (participants s) ∪ {[participant]}).
    { clear. intros s. destruct (_ && _); cbn; [apply union_subseteq_l|]. rewrite dom_insert_L. set_solver. }
    unfold handle_attach. destruct (state s); try apply union_subseteq_l; [apply (H (transition_to s Invited now))|apply (H s)].
  - unfold handle_declare_message. destruct (state s), (message s); try destruct (_ <? _); apply union_subseteq_l.
  - unfold handle_round1. case_bool_decide; cbn [negb]; [|apply union_subseteq_l].
    destruct (participants s !! participant) as [e|] eqn:E; [|apply union_subseteq_l].
    destruct (attached e), (committed e); cbn [negb fst]; try apply union_subseteq_l.
    destruct (_ <=? _); cbn; rewrite Hup by eauto; apply union_subseteq_l.
  - unfold handle_round2. case_bool_decide; cbn [negb]; [|apply union_subseteq_l].
    destruct (participants s !! participant) as [e|] eqn:E; [|apply union_subseteq_l].
    destruct (committed e), (shared e); cbn; try apply union_subseteq_l. rewrite Hup by eauto. apply union_subseteq_l.
  - unfold handle_aggregate. case_bool_decide; cbn [negb]; [|apply union_subseteq_l]. destruct (_ <? _); apply union_subseteq_l.
  - apply union_subseteq_l.
  - apply union_subseteq_l.
Qed.

(** [g] is the set of pairs of a session and a key whose invitation has been verified. *)
Definition vouched (g : gset (Z * Z)) (s : Session) : Prop :=
  session_ok s /\ forall k, k ∈ dom (participants s) -> (id s, k) ∈ g.

Lemma vouched_mono g g' s : g ⊆ g' -> vouched g s -> vouched g' s.
Proof. intros Hg [H1 H2]. split; [done|]. intros k Hk. by apply Hg, H2. Qed.

Lemma vouched_apply g s t now : vouched g s -> (forall p, t = AttachParticipant p -> (id s, p) ∈ g) -> vouched g (fst (apply s t now)).
Proof.
  intros [H1 H2] Ht. split; [by apply apply_ok|]. intros k Hk%apply_dom. rewrite apply_id.
  apply elem_of_union in Hk as [Hk | Hk]; [by apply H2|]. destruct t; set_solver.
Qed.

(** Every content the store's path may show holds vouched sessions only. *)
Definition disk_vouched (g : gset (Z * Z)) (d : Disk) : Prop :=
  disk_ok d /\ forall f l, f ∈ main d :: stale d -> load from_slice (mkDisk f None []) = Ok l -> Forall (vouched g) l.

Lemma disk_vouched_load g d l : disk_vouched g d -> load from_slice d = Ok l -> Forall (vouched g) l.
Proof. intros [_ H] Hl. apply (H (main d)); [left|]. by rewrite <- Hl. Qed.

Lemma save_vouched g d now l f d' r : save to_vec d now l f = (d', r) -> Forall (vouched g) l -> disk_vouched g d -> disk_vouched g d'.
Proof.
  intros Hs Hl [Hd Hv]. split; [by eapply save_disk_ok|]. intros x lx Hx Hld.
  destruct (save_effect to_vec _ _ _ _ _ _ Hs) as [(json & Hj & _ & Hm & Hst & _) | (_ & Hm & Hst)].
  - assert (Hin : x = Some (saved_file json) \/ x ∈ main d :: stale d) by (rewrite Hm in Hx; destruct Hst as [E | E]; rewrite E in Hx; set_solver).
    destruct Hin as [-> | Hin]; [|by apply (Hv x)].
    rewrite (load_saved to_vec from_slice codec json _ _ Hj eq_refl) in Hld by done. cbn in Hld. congruence.
  - rewrite Hm, Hst in Hx. by apply (Hv x).
Qed.

Lemma crash_vouched g d d' : disk_vouched g d -> crash d d' -> disk_vouched g d'.
Proof.
  intros [Hd Hv] Hc. destruct (crash_synced d d' Hd Hc) as (f & Hf & Hm). pose proof Hc as Hc'. destruct Hc' as [f1 f' t _ _]. cbn in Hm. subst f'.
  unfold disk_ok in Hd. rewrite list.Forall_forall in Hd. split.
  - constructor; [by apply Hd|constructor].
  - intros x l Hx. apply list_elem_of_singleton in Hx as ->. by apply (Hv f).
Qed.

Record coord_ok (g : gset (Z * Z)) (c : Coord) : Prop := {
  co_keyed : keyed (sessions c);
  co_vouched : forall k s, sessions c !! k = Some s -> vouched g s;
  co_disk : disk_vouched g (store c);
  co_connections : 0 <= connections c <= MAX_CONNECTIONS;
}.

(** One event in the life of the coordinator, with the invitations verified so far:
    a request, a connection that opens or closes, a crash and a restart, a shutdown that
    saves the sessions, and the operator's commands, whose work on the store a running server
    does not see. *)
Inductive coord_step : gset (Z * Z) * Coord -> gset (Z * Z) * Coord -> Prop :=
| step_request g c e att req c' att' resp ev : handle c e att req = (c', att', resp, ev) ->
    coord_step (g, c) (match req with
                       | Ok (Attach _ t) => if is_ok (verify_token hmac (invite_secret c) t (clock_token e))
                                            then {[(session_id t, participant_pubkey t)]} ∪ g else g
                       | _ => g
                       end, c')
| step_open g c : coord_step (g, c) (g, fst (fst (open_connection c)))
| step_close g c : coord_step (g, c) (g, fst (close_connection c))
| step_shutdown g c now io : coord_step (g, c) (g, fst (persist to_vec values c now io))
| step_restart g c d c' n : crash (store c) d -> load_existing_sessions from_slice (coord_new (invite_secret c) d) = Ok (c', n) ->
    coord_step (g, c) (g, c')
| step_create g c uuid t n gp cr now now' io : coord_step (g, c)
    (g, with_store c (fst (create_session to_vec from_slice (store c) uuid t n gp cr now now' io)))
| step_abort g c sid p now now' io : coord_step (g, c) (g, with_store c (fst (force_abort to_vec from_slice (store c) sid p now now' io)))
| step_gc g c now now' dry io : coord_step (g, c) (g, with_store c (fst (gc_terminal to_vec from_slice (store c) now now' dry io))).

Lemma alter_first_vouched g sid (f : Session -> result CoordinatorError Session) l l' : (forall s s', vouched g s -> f s = Ok s' -> vouched g s') ->
  alter_first sid f l = Some (Ok l') -> Forall (vouched g) l -> Forall (vouched g) l'.
Proof.
  intros Hf. revert l'. induction l as [|s l IH]; intros l' E Hl; [done|]. cbn in E. inversion Hl as [|? ? Hs Hl']; subst.
  destruct (_ =? _).
  - destruct (f s) as [s'|] eqn:Es; [|done]. cbn in E. injection E as <-. constructor; eauto.
  - destruct (alter_first sid f l) as [[lx|]|]; try done. cbn in E. injection E as <-. constructor; eauto.
Qed.

Lemma create_vouched g d uuid t n gp cr now now' io : disk_vouched g d ->
  disk_vouched g (fst (create_session to_vec from_slice d uuid t n gp cr now now' io)).
Proof.
  intros Hd. unfold create_session. destruct (new _ _ _ _ _ _) as [s|] eqn:En; [|done].
  destruct (load from_slice d) as [l|] eqn:El; [|done]. destruct (save _ _ _ _ _) as [d1 r] eqn:Es.
  assert (Hd1 : disk_vouched g d1); [|by destruct r]. eapply save_vouched; [done| |done]. apply list.Forall_app. split; [by eapply disk_vouched_load|].
  rewrite list.Forall_singleton. split; [by eapply new_ok|]. unfold new in En. zcases. inv_res. subst s. cbn. set_solver.
Qed.

Lemma force_abort_vouched g d sid p now now' io : disk_vouched g d ->
  disk_vouched g (fst (force_abort to_vec from_slice d sid p now now' io)).
Proof.
  intros Hd. unfold force_abort. destruct (load from_slice d) as [l|] eqn:El; [|done].
  destruct (alter_first _ _ l) as [[l'|]|] eqn:Ea; try done. destruct (save _ _ _ _ _) as [d1 r] eqn:Es.
  assert (Hd1 : disk_vouched g d1); [|by destruct r]. eapply save_vouched; [done| |done].
  eapply alter_first_vouched; [|done|by eapply disk_vouched_load]. cbn. intros s s' Hs E.
  pose proof (vouched_apply g s (Abort p) now Hs) as H. destruct (apply s (Abort p) now) as [s1 [|]]; [|done]. injection E as <-. by apply H.
Qed.

Lemma gc_vouched g d now now' dry io : disk_vouched g d -> disk_vouched g (fst (gc_terminal to_vec from_slice d now now' dry io)).
Proof.
  intros Hd. unfold gc_terminal. destruct (load from_slice d) as [l|] eqn:El; [|done]. case_bool_decide; [done|]. destruct dry; [done|].
  destruct (save _ _ _ _ _) as [d1 r] eqn:Es. assert (Hd1 : disk_vouched g d1); [|by destruct r]. eapply save_vouched; [done| |done].
  pose proof (disk_vouched_load g d l Hd El) as Hl. rewrite list.Forall_forall in *. intros s Hs. apply Hl.
  apply list_elem_of_In, filter_In in Hs as [Hs _]. by apply list_elem_of_In.
Qed.

Lemma restart_ok g c d c' n : disk_vouched g d -> load_existing_sessions from_slice (coord_new (invite_secret c) d) = Ok (c', n) -> coord_ok g c'.
Proof.
  intros Hd. unfold load_existing_sessions. cbn [store coord_new]. destruct (load from_slice d) as [l|] eqn:El; [|done]. cbn [rbind].
  pose proof (disk_vouched_load g d l Hd El) as Hl. clear El.
  enough (H : forall (m : gmap Z Session) (b : gset Z), (forall k s, m !! k = Some s -> id s = k /\ vouched g s) ->
    forall k s, fst (fold_left (fun '(m, b) s => (<[id s := s]> m, {[id s]} ∪ b)) l (m, b)) !! k = Some s -> id s = k /\ vouched g s).
  { specialize (H ∅ ∅ ltac:(intros k s E; by rewrite lookup_empty in E)). cbn [sessions broadcasters coord_new].
    destruct (fold_left _ l (∅, ∅)) as [m b]. intros [= <- <-]. cbn in H.
    split; cbn; [intros k s Hk; by apply H|intros k s Hk; by eapply H|done|unfold MAX_CONNECTIONS; lia]. }
  induction Hl as [|s l Hs _ IH]; intros m b Hm; [exact Hm|]. cbn. apply IH.
  intros k x [[<- <-] | [_ Hx]]%lookup_insert_Some; [done|by apply Hm].
Qed.

Lemma save_ok g c now l io : coord_ok g c -> Forall (vouched g) l -> coord_ok g (with_store c (fst (save to_vec (store c) now l io))).
Proof.
  intros [H1 H2 H3 H4] Hl. split; try done. cbn. destruct (save _ _ _ _ _) as [d r] eqn:E. by eapply save_vouched.
Qed.

Lemma values_vouched g m : (forall k s, m !! k = Some s -> vouched g s) -> Forall (vouched g) (values m).
Proof. intros H. apply list.Forall_forall. intros s Hs. apply elem_of_values in Hs as [k Hk]. eauto. Qed.

Lemma transition_ok g c e sid t c' r ev : coord_ok g c -> apply_transition to_vec values c e sid t = (c', r, ev) ->
  (forall p, t = AttachParticipant p -> (sid, p) ∈ g) -> coord_ok g c'.
Proof.
  intros Hok Ha Hg. apply apply_transition_cases in Ha as [(_ & -> & _) | (s & Hs & Hss & _ & _ & Hcn & Hm)]; [done|].
  pose proof Hok as [H1 H2 H3 H4].
  assert (Hv : forall k x, sessions c' !! k = Some x -> vouched g x).
  { rewrite Hss. intros k x [[<- <-] | [_ Hx]]%lookup_insert_Some; [|by eapply H2].
    apply vouched_apply; [by eapply H2|]. rewrite (H1 _ _ Hs). exact Hg. }
  split; [rewrite Hss; by apply keyed_insert|done| |by rewrite Hcn].
  destruct (snd (apply s t (clock e))); destruct Hm as (_ & -> & _); [|done].
  destruct (save _ _ _ _ _) as [d r'] eqn:Es. eapply save_vouched; [done| |done]. by apply values_vouched.
Qed.

Lemma coord_step_ok g c g' c' : coord_step (g, c) (g', c') -> coord_ok g c -> coord_ok g' c'.
Proof.
  intros Hstep Hok. pose proof Hok as [H1 H2 H3 H4].
  inversion Hstep as [? ? e att req ? att' resp ev Hh | | | | | | | ]; subst.
  - assert (Hmono : forall g', g ⊆ g' -> coord_ok g' c).
    { intros g' Hg. split; try done; [eauto using vouched_mono|]. destruct H3 as [Hd Hv]. split; [done|].
      intros f l Hf Hl. eapply list.Forall_impl; [by eapply Hv|]. eauto using vouched_mono. }
    pose proof (handle_cases c e att req) as H. rewrite Hh in H. destruct H as [[-> _] | (q & -> & Hver & r & tev & Ha & _)].
    + apply Hmono. destruct req as [[]|]; try done. destruct (is_ok _); set_solver.
    + destruct q as [rid t| | | | | |]; try (by eapply transition_ok; [done|done|cbn; discriminate]).
      rewrite (Hver rid t eq_refl). cbn [is_ok]. cbn in Ha. eapply transition_ok; [apply Hmono; set_solver|exact Ha|].
      intros p [= <-]. set_solver.
  - unfold open_connection. destruct (Z.leb_spec MAX_CONNECTIONS (connections c)); [done|]. split; try done. cbn. lia.
  - split; try done. cbn. unfold saturating_sub. lia.
  - unfold persist. pose proof (save_ok g' c now (values (sessions c)) io0 Hok (values_vouched _ _ H2)) as H.
    by destruct (save _ _ _ _ _).
  - eapply restart_ok; [by eapply crash_vouched|done].
  - split; try done. by apply create_vouched.
  - split; try done. by apply force_abort_vouched.
  - split; try done. by apply gc_vouched.
Qed.

(** A coordinator with an empty store, before any invitation. *)
Definition fresh (secret : list Z) : gset (Z * Z) * Coord := (∅, coord_new secret (mkDisk None None [])).

(** C28: only invited keys take part: whatever the requests, the crashes and restarts and the
    operator's commands, every session the coordinator holds is filed under its own
    identifier and is sound, and each of its participants presented an invitation for that
    session that verified; no more than [MAX_CONNECTIONS] connections are open. *)
Theorem only_invited_attach secret g c : rtc coord_step (fresh secret) (g, c) ->
  forall sid s, sessions c !! sid = Some s -> id s = sid /\ session_ok s
    /\ (forall p, p ∈ dom (participants s) -> (sid, p) ∈ g) /\ 0 <= connections c <= MAX_CONNECTIONS.
Proof.
  intros Hr. assert (Hok : coord_ok g c).
  { assert (H : forall x y, rtc coord_step x y -> coord_ok x.1 x.2 -> coord_ok y.1 y.2).
    { induction 1 as [|[g1 c1] [g2 c2] y Hs _ IH]; [done|]. intros Hx. by apply IH, (coord_step_ok g1 c1). }
    apply (H _ _ Hr). cbn. split; cbn; try (intros ? ? E; by rewrite lookup_empty in E); [|unfold MAX_CONNECTIONS; lia].
    split; [by repeat constructor|]. intros f l Hf. apply list_elem_of_singleton in Hf as ->. cbn. intros [= <-]. constructor. }
  intros sid s Hs. destruct (co_vouched _ _ Hok sid s Hs) as [Hso Hv]. rewrite <- (co_keyed _ _ Hok sid s Hs).
  split_and!; try done; apply Hok.
Qed.

(** any connection can abort a session, or declare the message to be signed, without
    having attached and without naming one of its participants. *)
Theorem strangers_drive_sessions c e rid sid s p : sessions c !! sid = Some s ->
  is_terminal (state s) = false -> overdue s (clock e) = false ->
  (let '(c', _, resp, _) := handle c e ∅ (Ok (ReqAbort rid sid p)) in
   resp = Accepted rid "Aborted" /\ sessions c' !! sid = Some (transition_to s Aborted (clock e)))
  /\ (forall m, state s = Invited -> message s = None -> threshold s <= count attached (participants s) ->
      let '(c', _, resp, _) := handle c e ∅ (Ok (ReqDeclareMessage rid sid m)) in
      resp = Accepted rid "Round1" /\ message <$> sessions c' !! sid = Some (Some m)).
Proof.
  intros Hs Ht Ho. split.
  - cbn. unfold apply_helper, apply_transition. rewrite Hs. unfold apply. rewrite Ht, Ho. cbn.
    unfold persist. cbn. destruct (save _ _ _ _ _) as [d r]. cbn. split; [done|apply lookup_insert_eq].
  - intros m Est Hm Hth. cbn. unfold apply_helper, apply_transition. rewrite Hs. unfold apply. rewrite Ht, Ho. cbn [dispatch].
    unfold handle_declare_message. rewrite Est, Hm, (proj2 (Z.ltb_ge _ _)) by done. cbn.
    unfold persist. cbn. destruct (save _ _ _ _ _) as [d r]. cbn. by rewrite lookup_insert_eq.
Qed.

(** What a successful [force-abort] leaves on disk. *)
Lemma force_abort_effect d sid p now now_save d1 : force_abort to_vec from_slice d sid p now now_save no_fault = (d1, Ok tt) ->
  exists l s, load from_slice d1 = Ok l /\ s ∈ l /\ id s = sid /\ state s = Aborted.
Proof.
  unfold force_abort. destruct (load from_slice d) as [l|]; [|done]. destruct (alter_first _ _ l) as [[l'|]|] eqn:Ea; try done.
  destruct (save _ _ _ _ _) as [d' r] eqn:Es. destruct r as [[]|]; [|done]. intros [= <-].
  destruct (save_effect to_vec _ _ _ _ _ _ Es) as [(json & Hj & _ & Hm & _) | [H _]]; [|done].
  assert (Hl : exists s, s ∈ l' /\ id s = sid /\ state s = Aborted).
  { clear -Ea. revert l' Ea. induction l as [|x l IH]; intros l' E; [done|]. cbn in E. destruct (Z.eqb_spec (id x) sid) as [Hid | _].
    - destruct (apply x (Abort p) now) as [s' [u|]] eqn:Ex; [|done]. cbn in E. injection E as <-. exists s'. split; [left|].
      pose proof (apply_id x (Abort p) now) as Hi. rewrite Ex in Hi. cbn in Hi. split; [congruence|].
      unfold apply in Ex. destruct (is_terminal _); [done|]. destruct (overdue _ _); [done|]. cbn in Ex. by injection Ex as <-.
    - destruct (alter_first _ _ l) as [[lx|]|]; try done. cbn in E. injection E as <-. destruct (IH lx eq_refl) as (s & Hs & Hx).
      exists s. split; [by right|done]. }
  destruct Hl as (s & Hs). exists l', s. split; [|done]. by rewrite (load_saved to_vec from_slice codec json _ d' Hj eq_refl Hm).
Qed.

(** what the operator does to the store while the server runs is undone by the server's
    next save, the one at shutdown included: a session that [force-abort] has aborted on
    disk is back, in the state the server held, after the shutdown and the restart that
    the command asks for. *)
Theorem operator_abort_lost c sid s p now now_save now_down d1 d2 : keyed (sessions c) -> (forall p, is_Some (to_vec p)) ->
  sessions c !! sid = Some s ->
  force_abort to_vec from_slice (store c) sid p now now_save no_fault = (d1, Ok tt) ->
  crash (store (fst (persist to_vec values (with_store c d1) now_down no_fault))) d2 ->
  (exists l s', load from_slice d1 = Ok l /\ s' ∈ l /\ id s' = sid /\ state s' = Aborted)
  /\ exists c', load_existing_sessions from_slice (coord_new (invite_secret c) d2) = Ok (c', Z.of_nat (size (sessions c)))
     /\ sessions c' !! sid = Some s.
Proof.
  intros Hk Htot Hs Hf Hc. split; [by eapply force_abort_effect|].
  unfold persist in Hc. cbn in Hc. pose proof (save_no_fault d1 now_down (values (sessions c)) Htot) as Hok.
  destruct (save to_vec d1 now_down (values (sessions c)) no_fault) as [d' r] eqn:E. cbn in Hok, Hc. subst r.
  eexists. split; [by eapply saved_map_restarts|done].
Qed.
End Server.

(** ** The rate limiter's buckets and the secret *)

Lemma high_half x : 0 <= x <= 65535 -> 0 <= Z.shiftr x 8 <= 255 /\ 0 <= Z.land x 255 <= 255 /\ 256 * Z.shiftr x 8 + Z.land x 255 = x.
Proof.
  intros Hx. assert (E : Z.land x 255 = x mod 256) by (change 255 with (Z.ones 8); by rewrite Z.land_ones by lia).
  rewrite E, Z.shiftr_div_pow2 by lia. change (2 ^ 8) with 256.
  pose proof (Z.mod_pos_bound x 256 ltac:(lia)). pose proof (Z.div_mod x 256 ltac:(lia)). lia.
Qed.

(** One client has one bucket: an IPv4 address shares it with its IPv6-mapped form and with
    no other mapped address. *)
Lemma one_bucket_per_client a b c d g h :
  Forall (fun x => 0 <= x <= 255) [a; b; c; d] -> 0 <= g <= 65535 -> 0 <= h <= 65535 ->
  canonicalize_ip_for_rate_limit (V6 0 0 0 0 0 65535 (256 * a + b) (256 * c + d)) = V4 a b c d
  /\ (canonicalize_ip_for_rate_limit (V6 0 0 0 0 0 65535 g h) = canonicalize_ip_for_rate_limit (V4 a b c d) ->
      g = 256 * a + b /\ h = 256 * c + d).
Proof.
  intros Hf Hg Hh. rewrite !list.Forall_cons in Hf. destruct Hf as (Ha & Hb & Hc & Hd & _). cbn.
  pose proof (high_half (256 * a + b) ltac:(lia)). pose proof (high_half (256 * c + d) ltac:(lia)).
  pose proof (high_half g Hg). pose proof (high_half h Hh). split.
  - f_equal; lia.
  - intros [= <- <- <- <-]. lia.
Qed.

(** The secret's parser lets a plus sign stand for a digit. *)
Example plus_is_a_digit : parse_invite_secret (concat (replicate 32 [43; 49])) = Ok (replicate 32 1).
Proof. reflexivity. Qed.

(** ** Runs on concrete inputs *)

(** A concrete codec: the file is the number that encodes the sessions. *)
Definition state_code (s : SessionState) : nat :=
  match s with Created => 0 | Invited => 1 | Round1 => 2 | Round2 => 3 | Aggregated => 4 | Aborted => 5 | Expired => 6 end.
Definition code_state (n : nat) : SessionState :=
  match n with 0 => Created | 1 => Invited | 2 => Round1 | 3 => Round2 | 4 => Aggregated | 5 => Aborted | _ => Expired end%nat.

Definition participant_tuple (p : ParticipantState) := (attached p, commitment p, sig_share p).
Definition tuple_participant (x : bool * option (list Z) * option (list Z)) :=
  let '(a, c, s) := x in mkParticipant a c s.

Definition session_tuple (s : Session) :=
  (id s, state_code (state s), threshold s, total s, group_pubkey s, creator s, message s,
   map_to_list (participant_tuple <$> participants s), aggregate_signature s, created_at s, state_entered_at s).
Definition tuple_session x : Session :=
  let '(i, st, t, n, g, cr, m, ps, sig, c, e) := x in
  mkSession i (code_state st) t n g cr m (tuple_participant <$> list_to_map ps) sig c e.

Lemma tuple_session_tuple s : tuple_session (session_tuple s) = s.
Proof.
  destruct s as [i st t n g cr m ps sig c e]. cbn. rewrite list_to_map_to_list, <- map_fmap_compose. f_equal; [by destruct st|].
  apply map_eq. intros k. rewrite lookup_fmap. destruct (ps !! k) as [[]|]; done.
Qed.

Definition sample_to_vec (p : PersistFile) : option (list Z) :=
  Some [Z.pos (encode (version p, saved_at p, session_tuple <$> saved_sessions p))].
Definition sample_from_slice (l : list Z) : option PersistFile :=
  match l with
  | [Z.pos x] => (fun '(v, t, ss) => mkPersist v t (tuple_session <$> ss)) <$> decode x
  | _ => None
  end.

Lemma sample_codec p json : sample_to_vec p = Some json -> sample_from_slice json = Some p.
Proof.
  unfold sample_to_vec. intros [= <-]. cbn. rewrite decode_encode. cbn. rewrite <- list_fmap_compose.
  destruct p as [v t ss]. cbn. do 2 f_equal. rewrite <- (list_fmap_id ss) at 2. apply list_fmap_ext.
  intros i s _. apply tuple_session_tuple.
Qed.

Definition sample_values (m : gmap Z Session) : list Session := (map_to_list m).*2.

Definition sample_old : Disk :=
  mkDisk (Some (saved_file (default [] (sample_to_vec (mkPersist 1 4 []))))) None [].
Definition sample_saved (f : Faults) : Disk := (save sample_to_vec sample_old 5 [sample_session] f).1.

(** The save that succeeds without the sync of the directory, and a crash that undoes it. *)
Lemma save_crash_atomic_witness :
  load sample_from_slice (sample_saved (mkFaults (Some 4%nat) 0)) = Ok [sample_session]
  /\ crash (sample_saved (mkFaults (Some 4%nat) 0)) sample_old /\ load sample_from_slice sample_old = Ok []
  /\ load sample_from_slice (mkDisk (main (sample_saved no_fault)) None []) = Ok [sample_session].
Proof.
  assert (Hok : disk_ok sample_old) by (apply list.Forall_singleton; by intros x [= <-]).
  destruct (save_crash_atomic sample_to_vec sample_from_slice sample_codec sample_old 5 [sample_session]
    (mkFaults (Some 4%nat) 0) (sample_saved (mkFaults (Some 4%nat) 0)) (Ok tt) Hok eq_refl) as (_ & _ & H1).
  destruct (save_crash_atomic sample_to_vec sample_from_slice sample_codec sample_old 5 [sample_session]
    no_fault (sample_saved no_fault) (Ok tt) Hok eq_refl) as (_ & _ & H2).
  split_and!; [exact (proj1 (H1 eq_refl))|..].
  - apply (crashed _ (main sample_old) (main sample_old) None); [|by constructor].
    change (main sample_old ∈ [main (sample_saved (mkFaults (Some 4%nat) 0)); main sample_old]). right. left.
  - vm_compute. reflexivity.
  - apply (H2 eq_refl); [discriminate|]. apply (crashed _ (main (sample_saved no_fault)) _ None); [|by constructor].
    change (main (sample_saved no_fault) ∈ [main (sample_saved no_fault)]). left.
Defined.

Definition sample_coord : Coord := mkCoord {[7 := sample_session]} {[7]} (replicate 32 66) (mkDisk None None []) 0.
Definition sample_token : InvitationToken := mkToken 7 170 2000 (compute_mac sample_hmac (replicate 32 66) 7 170 2000).

Lemma sample_keyed : keyed (sessions sample_coord).
Proof. intros k s Hs. cbn [sessions sample_coord] in Hs. apply lookup_singleton_Some in Hs as [<- <-]. reflexivity. Qed.

Definition sample_attach : Coord * gset Z * Response * list Event :=
  handle_request sample_to_vec sample_values sample_hmac sample_coord (mkEnv 1001 1001 1001 true no_fault) ∅ (Ok (Attach "r1" sample_token)).

Definition attached_session : Session := fst (apply sample_session (AttachParticipant 170) 1001).

Lemma sample_attach_response : snd (fst sample_attach) = Accepted "r1" "Invited" /\ sessions (fst (fst (fst sample_attach))) = {[7 := attached_session]}.
Proof. split; vm_compute; reflexivity. Qed.

Lemma accepted_survives_crash_witness :
  let c' := fst (fst (fst sample_attach)) in
  load_existing_sessions sample_from_slice (coord_new (replicate 32 66) (mkDisk (main (store c')) None []))
  = Ok (mkCoord (sessions c') (dom (sessions c')) (replicate 32 66) (mkDisk (main (store c')) None []) 0, 1).
Proof.
  cbn zeta. destruct sample_attach as [[[c' att'] resp] ev] eqn:E. pose proof sample_attach_response as [Hr Hs]. rewrite E in Hr, Hs.
  cbn [fst snd] in *. subst resp.
  pose proof (accepted_survives_crash sample_to_vec sample_from_slice sample_values sample_hmac sample_codec (fun m => Permutation_refl _)
    sample_coord (mkEnv 1001 1001 1001 true no_fault) ∅ (Ok (Attach "r1" sample_token)) c' att' "r1" "Invited" ev
    (mkDisk (main (store c')) None []) sample_keyed eq_refl (fun p => ex_intro _ _ eq_refl) E) as H.
  rewrite Hs in *. apply H. assert (Hm : main (store (fst (fst (fst sample_attach)))) = main (store c')) by (by rewrite E).
  apply (crashed _ (main (store c'))); [left|].
  destruct (main (store c')) as [f|]; [|constructor]. constructor.
  assert (Hsy : (synced <$> main (store (fst (fst (fst sample_attach))))) = Some true) by (vm_compute; reflexivity).
  rewrite Hm in Hsy. cbn in Hsy. by injection Hsy.
Defined.

Lemma expiry_is_silent_witness :
  let '(c', _, resp, ev) := handle_request sample_to_vec sample_values sample_hmac sample_coord (mkEnv 0 605800 0 true no_fault) ∅ (Ok (ReqTick "r2" 7)) in
  store c' = store sample_coord /\ (forall sid m, ~ Sent sid m ∈ ev).
Proof.
  pose proof (expiry_is_silent sample_to_vec sample_values sample_hmac sample_coord (mkEnv 0 605800 0 true no_fault) ∅ (ReqTick "r2" 7)
    sample_session eq_refl eq_refl eq_refl ltac:(discriminate)) as H.
  destruct (handle_request _ _ _ _ _ _ _) as [[[c' att] resp] ev]. destruct H as (_ & _ & H1 & H2). split; [exact H1|exact H2].
Defined.

Lemma only_invited_attach_witness :
  exists g c, rtc (coord_step sample_to_vec sample_from_slice sample_values sample_hmac) (fresh (replicate 32 66)) (g, c)
    /\ 0 <= connections c <= MAX_CONNECTIONS.
Proof.
  set (c0 := coord_new (replicate 32 66) (mkDisk None None [])).
  set (d1 := fst (create_session sample_to_vec sample_from_slice (store c0) 7 2 3 11 170 1000 1000 no_fault)).
  assert (Hd : main d1 = Some (saved_file (default [] (sample_to_vec (mkPersist 1 1000 [sample_session]))))) by (vm_compute; reflexivity).
  set (d2 := mkDisk (main d1) None []).
  set (c1 := mkCoord {[7 := sample_session]} {[7]} (replicate 32 66) d2 0).
  assert (Hr : rtc (coord_step sample_to_vec sample_from_slice sample_values sample_hmac) (fresh (replicate 32 66)) (∅, c1)).
  { eapply rtc_l; [apply (step_create _ _ _ _ ∅ c0 7 2 3 11 170 1000 1000 no_fault)|].
    apply rtc_once. apply (step_restart _ _ _ _ _ (with_store c0 d1) d2 c1 1).
    - apply (crashed _ (main d1)); [left|]. rewrite Hd. by constructor.
    - unfold load_existing_sessions. cbn [store coord_new].
      rewrite (load_saved sample_to_vec sample_from_slice sample_codec _ (mkPersist 1 1000 [sample_session]) d2 eq_refl eq_refl Hd).
      reflexivity. }
  exists ∅, c1. split; [exact Hr|].
  apply (only_invited_attach sample_to_vec sample_from_slice sample_values sample_hmac sample_codec (fun m => Permutation_refl _)
    (replicate 32 66) ∅ c1 Hr 7 sample_session eq_refl).
Defined.

Lemma strangers_drive_sessions_witness :
  let '(c', _, resp, _) := handle_request sample_to_vec sample_values sample_hmac sample_coord (mkEnv 0 1001 0 true no_fault) ∅ (Ok (ReqAbort "r3" 7 99)) in
  resp = Accepted "r3" "Aborted" /\ sessions c' !! 7 = Some (transition_to sample_session Aborted 1001).
Proof.
  exact (proj1 (strangers_drive_sessions sample_to_vec sample_values sample_hmac sample_coord (mkEnv 0 1001 0 true no_fault) "r3" 7
    sample_session 99 eq_refl eq_refl eq_refl)).
Defined.

(** A server that runs on a store with one session. *)
Definition running : Coord :=
  mkCoord {[7 := sample_session]} {[7]} (replicate 32 66) (fst (save sample_to_vec (mkDisk None None []) 1000 [sample_session] no_fault)) 0.

Lemma operator_abort_lost_witness :
  let d1 := fst (force_abort sample_to_vec sample_from_slice (store running) 7 170 1500 1500 no_fault) in
  let d2 := mkDisk (main (store (fst (persist sample_to_vec sample_values (with_store running d1) 1600 no_fault)))) None [] in
  (exists l s', load sample_from_slice d1 = Ok l /\ s' ∈ l /\ id s' = 7 /\ state s' = Aborted)
  /\ exists c', load_existing_sessions sample_from_slice (coord_new (replicate 32 66) d2) = Ok (c', 1)
     /\ sessions c' !! 7 = Some sample_session.
Proof.
  cbn zeta. set (d1 := fst (force_abort _ _ _ _ _ _ _ _)). set (st := store (fst (persist _ _ _ _ _))).
  assert (Hf : force_abort sample_to_vec sample_from_slice (store running) 7 170 1500 1500 no_fault = (d1, Ok tt)).
  { assert (H : snd (force_abort sample_to_vec sample_from_slice (store running) 7 170 1500 1500 no_fault) = Ok tt) by (vm_compute; reflexivity).
    unfold d1. destruct (force_abort _ _ _ _ _ _ _ _) as [x r]. cbn in H. by rewrite H. }
  refine (operator_abort_lost sample_to_vec sample_from_slice sample_values sample_codec (fun m => Permutation_refl _) running 7
    sample_session 170 1500 1500 1600 d1 (mkDisk (main st) None []) _ (fun p => ex_intro _ _ eq_refl) eq_refl Hf _).
  - exact sample_keyed.
  - apply (crashed _ (main st)); [left|]. assert (Hm : synced <$> main st = Some true) by (vm_compute; reflexivity).
    destruct (main st) as [f|]; [|constructor]. constructor. by injection Hm.
Defined.
End FrostCoord.
