(* ===== verification/SwapHandshake.v ===== *)
(** * Negotiating a swap (src/crates/coincync-swap/src/coordinator.rs)

    The handshake of Alice and Bob before anything is locked: the session machine of each
    role, the length-prefixed transport, and the drivers that run a session over it.  The
    two drivers are then connected by byte streams of which each side may have received
    any prefix.

    serde_json is a parameter with its round-trip law; the verification of the adaptor
    material is the caller's and is a parameter too. *)

From stdpp Require Import strings countable.
From S2P Require Import Prelude.
From S2P Require Import Swap.

Module SwapHandshake.
Import Swap.
Local Open Scope string_scope.
Local Open Scope Z_scope.

Record AdaptorBundle := mkBundle { btc_adaptor : list Z; cync_adaptor : list Z; dl_proof : list Z; refund_tx : list Z }.

Inductive Message :=
| Hello (sid : string) (bob_btc_pubkey bob_cync_pubkey : list Z)
| HelloAck (alice_btc_pubkey alice_cync_pubkey : list Z) (params : SwapParameters)
| Accept
| AdaptorMaterial (material : AdaptorBundle)
| Ready
| AbortMsg (reason : string).

Inductive Phase := Initial | AwaitingAck | ExchangingAdaptors | AwaitingReady | PhaseNegotiated | PhaseAborted.

#[export] Instance phase_eq_dec : EqDecision Phase.
Proof. solve_decision. Defined.

Definition phase_is_terminal (p : Phase) : bool :=
  match p with PhaseNegotiated | PhaseAborted => true | _ => false end.

Record HandshakeSession := mkHandshake {
  hs_role : Role;
  phase : Phase;
  swap_id : string;
  counterparty_btc_pubkey : option (list Z);
  counterparty_cync_pubkey : option (list Z);
  hs_parameters : option SwapParameters;
  sent_adaptors : bool;
  received_adaptors : bool;
}.

Inductive HandshakeAction :=
| Send (m : Message)
| WaitForCaller (next_call : string)
| Done
| VerifyAdaptorMaterial (material : AdaptorBundle)
| ActionAborted (reason : string).

Inductive HandshakeError :=
| OutOfOrder (message_kind : string) (p : Phase)
| SwapIdMismatch (session_swap_id incoming_swap_id : string)
| Terminal (p : Phase)
| Duplicate (kind : string).

Definition new_alice (sid : string) : HandshakeSession := mkHandshake Alice Initial sid None None None false false.
Definition new_bob (sid : string) : HandshakeSession := mkHandshake Bob Initial sid None None None false false.

Definition with_phase (s : HandshakeSession) (p : Phase) : HandshakeSession :=
  mkHandshake (hs_role s) p (swap_id s) (counterparty_btc_pubkey s) (counterparty_cync_pubkey s) (hs_parameters s)
    (sent_adaptors s) (received_adaptors s).
Definition with_keys (s : HandshakeSession) (btc cync : list Z) : HandshakeSession :=
  mkHandshake (hs_role s) (phase s) (swap_id s) (Some btc) (Some cync) (hs_parameters s) (sent_adaptors s) (received_adaptors s).
Definition with_params (s : HandshakeSession) (p : SwapParameters) : HandshakeSession :=
  mkHandshake (hs_role s) (phase s) (swap_id s) (counterparty_btc_pubkey s) (counterparty_cync_pubkey s) (Some p)
    (sent_adaptors s) (received_adaptors s).
Definition with_adaptors (s : HandshakeSession) (sent received : bool) : HandshakeSession :=
  mkHandshake (hs_role s) (phase s) (swap_id s) (counterparty_btc_pubkey s) (counterparty_cync_pubkey s) (hs_parameters s)
    sent received.

Definition maybe_advance_to_awaiting_ready (s : HandshakeSession) : HandshakeSession :=
  if sent_adaptors s && received_adaptors s then with_phase s AwaitingReady else s.

Definition message_kind (m : Message) : string :=
  match m with
  | Hello _ _ _ => "Hello" | HelloAck _ _ _ => "HelloAck" | Accept => "Accept"
  | AdaptorMaterial _ => "AdaptorMaterial" | Ready => "Ready" | AbortMsg _ => "Abort"
  end.

Definition start_bob (s : HandshakeSession) (btc cync : list Z) : HandshakeSession * result HandshakeError Message :=
  if negb (bool_decide (hs_role s = Bob)) then (s, Err (OutOfOrder "start_bob" (phase s)))
  else if negb (bool_decide (phase s = Initial)) then (s, Err (OutOfOrder "start_bob" (phase s)))
  else (with_phase s AwaitingAck, Ok (Hello (swap_id s) btc cync)).

Definition send_adaptors (s : HandshakeSession) (b : AdaptorBundle) : HandshakeSession * result HandshakeError Message :=
  if negb (bool_decide (phase s = ExchangingAdaptors)) then (s, Err (OutOfOrder "send_adaptors" (phase s)))
  else if sent_adaptors s then (s, Err (Duplicate "outbound AdaptorMaterial"))
  else (maybe_advance_to_awaiting_ready (with_adaptors s true (received_adaptors s)), Ok (AdaptorMaterial b)).

Definition send_ready (s : HandshakeSession) : HandshakeSession * result HandshakeError Message :=
  if negb (bool_decide (phase s = AwaitingReady)) then (s, Err (OutOfOrder "send_ready" (phase s))) else (s, Ok Ready).

Definition send_abort (s : HandshakeSession) (reason : string) : HandshakeSession * Message :=
  (with_phase s PhaseAborted, AbortMsg reason).

Definition handle_inbound (s : HandshakeSession) (msg : Message) : HandshakeSession * result HandshakeError HandshakeAction :=
  if phase_is_terminal (phase s) then (s, Err (Terminal (phase s)))
  else
    match msg, hs_role s, phase s with
    | AbortMsg reason, _, _ => (with_phase s PhaseAborted, Ok (ActionAborted reason))
    | Hello sid btc cync, Alice, Initial =>
        if negb (bool_decide (sid = swap_id s)) then (s, Err (SwapIdMismatch (swap_id s) sid))
        else (with_phase (with_keys s btc cync) AwaitingAck, Ok (WaitForCaller "respond_with_hello_ack"))
    | HelloAck btc cync params, Bob, AwaitingAck =>
        (with_phase (with_params (with_keys s btc cync) params) AwaitingAck, Ok (WaitForCaller "accept_or_send_abort"))
    | Accept, Alice, AwaitingAck => (with_phase s ExchangingAdaptors, Ok (WaitForCaller "send_adaptors"))
    | AdaptorMaterial b, _, ExchangingAdaptors =>
        if received_adaptors s then (s, Err (Duplicate "AdaptorMaterial"))
        else (maybe_advance_to_awaiting_ready (with_adaptors s (sent_adaptors s) true), Ok (VerifyAdaptorMaterial b))
    | Ready, _, AwaitingReady => (with_phase s PhaseNegotiated, Ok Done)
    | m, _, p => (s, Err (OutOfOrder (message_kind m) p))
    end.

Definition respond_with_hello_ack (s : HandshakeSession) (btc cync : list Z) (params : SwapParameters)
  : HandshakeSession * result HandshakeError Message :=
  if negb (bool_decide (hs_role s = Alice)) then (s, Err (OutOfOrder "respond_with_hello_ack" (phase s)))
  else if negb (bool_decide (phase s = AwaitingAck)) then (s, Err (OutOfOrder "respond_with_hello_ack" (phase s)))
  else if negb (is_timeout_safe params) then (s, Err (OutOfOrder "respond_with_hello_ack (unsafe timeouts)" (phase s)))
  else (with_params s params, Ok (HelloAck btc cync params)).

Definition accept (s : HandshakeSession) : HandshakeSession * result HandshakeError Message :=
  if negb (bool_decide (hs_role s = Bob)) then (s, Err (OutOfOrder "accept" (phase s)))
  else if negb (bool_decide (phase s = AwaitingAck)) then (s, Err (OutOfOrder "accept" (phase s)))
  else if bool_decide (hs_parameters s = None) then (s, Err (OutOfOrder "accept (no parameters)" (phase s)))
  else (with_phase s ExchangingAdaptors, Ok Accept).

(** ** The transport *)

Definition MAX_FRAME_BYTES : Z := 16 * 1024 * 1024.

(** A socket: the bytes that have arrived and were not read, the bytes written, and how many
    more can be written before a write fails ([None]: no failure). *)
Record TcpTransport := mkTransport { inbound : list Z; outbound : list Z; writable : option nat }.

Inductive TransportError := Serialize | FrameTooLarge (len : Z) | WriteFailed | ReadFailed | Deserialize.

Definition write_all (t : TcpTransport) (bytes : list Z) : TcpTransport * result TransportError unit :=
  match writable t with
  | None => (mkTransport (inbound t) (app (outbound t) bytes) None, Ok tt)
  | Some n =>
      if (length bytes <=? n)%nat
      then (mkTransport (inbound t) (app (outbound t) bytes) (Some (n - length bytes)%nat), Ok tt)
      else (mkTransport (inbound t) (app (outbound t) (take n bytes)) (Some 0%nat), Err WriteFailed)
  end.

(** [read_exact]: the bytes, or an error when the stream ends or the read times out first. *)
Definition read_exact (t : TcpTransport) (n : nat) : TcpTransport * result TransportError (list Z) :=
  if (n <=? length (inbound t))%nat
  then (mkTransport (drop n (inbound t)) (outbound t) (writable t), Ok (take n (inbound t)))
  else (mkTransport [] (outbound t) (writable t), Err ReadFailed).

Definition recv_framed_bytes (t : TcpTransport) : TcpTransport * result TransportError (list Z) :=
  match read_exact t 4 with
  | (t, Err e) => (t, Err e)
  | (t, Ok len_buf) =>
      let len := be_value len_buf in
      if MAX_FRAME_BYTES <? len then (t, Err (FrameTooLarge len)) else read_exact t (Z.to_nat len)
  end.

(** ** The drivers *)

Section Drivers.
Variable to_vec : Message -> option (list Z).
Variable from_slice : list Z -> option Message.

Definition send (t : TcpTransport) (msg : Message) : TcpTransport * result TransportError unit :=
  match to_vec msg with
  | None => (t, Err Serialize)
  | Some bytes =>
      if MAX_FRAME_BYTES <? Z.of_nat (length bytes) then (t, Err (FrameTooLarge (Z.of_nat (length bytes))))
      else
        match write_all t (be_bytes 4 (Z.of_nat (length bytes))) with
        | (t, Err e) => (t, Err e)
        | (t, Ok _) => write_all t bytes
        end
  end.

Definition recv (t : TcpTransport) : TcpTransport * result TransportError Message :=
  match recv_framed_bytes t with
  | (t, Err e) => (t, Err e)
  | (t, Ok body) => (t, match from_slice body with Some m => Ok m | None => Err Deserialize end)
  end.

Inductive DriveError :=
| OnTransport (e : TransportError)
| OnSession (e : HandshakeError)
| CounterpartyAborted (reason : string)
| Unexpected (a : HandshakeAction)
| Rejected.

(** A driver reads and writes its transport and its session, and may stop with an error. *)
Definition M (A : Type) : Type := TcpTransport * HandshakeSession -> (TcpTransport * HandshakeSession) * result DriveError A.

Definition mbind_ {A B} (m : M A) (k : A -> M B) : M B := fun st =>
  match m st with (st, Ok a) => k a st | (st, Err e) => (st, Err e) end.
Definition on_transport {A} (f : TcpTransport -> TcpTransport * result TransportError A) : M A := fun '(t, s) =>
  match f t with (t, Ok a) => ((t, s), Ok a) | (t, Err e) => ((t, s), Err (OnTransport e)) end.
Definition on_session {A} (f : HandshakeSession -> HandshakeSession * result HandshakeError A) : M A := fun '(t, s) =>
  match f s with (s, Ok a) => ((t, s), Ok a) | (s, Err e) => ((t, s), Err (OnSession e)) end.
Definition check (r : result DriveError unit) : M unit := fun st => (st, r).

Notation "'let!' x := m 'in' k" := (mbind_ m (fun x => k)) (at level 10, x pattern, m at level 100, k at level 200).

Definition expect_wait_for (a : HandshakeAction) (expected : string) : result DriveError unit :=
  match a with
  | WaitForCaller next_call => if bool_decide (next_call = expected) then Ok tt else Err (Unexpected a)
  | ActionAborted reason => Err (CounterpartyAborted reason)
  | other => Err (Unexpected other)
  end.

Definition expect_done (a : HandshakeAction) : result DriveError unit :=
  match a with
  | Done => Ok tt
  | ActionAborted reason => Err (CounterpartyAborted reason)
  | other => Err (Unexpected other)
  end.

Definition run_verifier (a : HandshakeAction) (verifier : AdaptorBundle -> bool) : result DriveError unit :=
  match a with
  | VerifyAdaptorMaterial b => if verifier b then Ok tt else Err Rejected
  | ActionAborted reason => Err (CounterpartyAborted reason)
  | other => Err (Unexpected other)
  end.

Definition transmit (f : HandshakeSession -> HandshakeSession * result HandshakeError Message) : M unit :=
  let! m := on_session f in on_transport (fun t => send t m).

Definition receive : M HandshakeAction :=
  let! m := on_transport recv in on_session (fun s => handle_inbound s m).

(** Receive a message, pass it to the session and check what the session asks for. *)
Definition await (c : HandshakeAction -> result DriveError unit) : M unit := let! a := receive in check (c a).

(** The public keys of a party, Bitcoin's first. *)
Definition run_alice_post_hello (keys : list Z * list Z) (params : SwapParameters) (adaptors : AdaptorBundle)
  (verifier : AdaptorBundle -> bool) : M unit :=
  let! _ := transmit (fun s => respond_with_hello_ack s (fst keys) (snd keys) params) in
  let! _ := await (fun a => expect_wait_for a "send_adaptors") in
  let! _ := transmit (fun s => send_adaptors s adaptors) in
  let! _ := await (fun a => run_verifier a verifier) in
  let! _ := transmit send_ready in
  await expect_done.

Definition run_alice (keys : list Z * list Z) (params : SwapParameters) (adaptors : AdaptorBundle)
  (verifier : AdaptorBundle -> bool) : M unit :=
  let! _ := await (fun a => expect_wait_for a "respond_with_hello_ack") in
  run_alice_post_hello keys params adaptors verifier.

Definition run_bob (keys : list Z * list Z) (adaptors : AdaptorBundle) (verifier : AdaptorBundle -> bool) : M unit :=
  let! _ := transmit (fun s => start_bob s (fst keys) (snd keys)) in
  let! _ := await (fun a => expect_wait_for a "accept_or_send_abort") in
  let! _ := transmit accept in
  let! _ := transmit (fun s => send_adaptors s adaptors) in
  let! _ := await (fun a => run_verifier a verifier) in
  let! _ := transmit send_ready in
  await expect_done.

(** [validate_hello_plain]: a fresh session that has taken the peer's [Hello]. *)
Definition validate_hello_plain (t : TcpTransport) (sid : string) : TcpTransport * result DriveError HandshakeSession :=
  match await (fun a => expect_wait_for a "respond_with_hello_ack") (t, new_alice sid) with
  | ((t, s), Ok _) => (t, Ok s)
  | ((t, _), Err e) => (t, Err e)
  end.

(** The accept loop of [listen_filtered] over the connections that arrive, one per attempt;
    when [accept] fails there are no more. *)
Fixpoint accept_loop (peers : list TcpTransport) (sid : string) (max_attempts : nat) (last : option DriveError)
  : result (option DriveError) (TcpTransport * HandshakeSession) :=
  match max_attempts with
  | O => Err last
  | S n =>
      match peers with
      | [] => Err last
      | t :: rest =>
          match validate_hello_plain t sid with
          | (t, Ok s) => Ok (t, s)
          | (_, Err e) => accept_loop rest sid n (Some e)
          end
      end
  end.

End Drivers.

(** ** The session machine *)

(** A refused message leaves the session as it was. *)
Lemma handle_inbound_error s m s' e : handle_inbound s m = (s', Err e) -> s' = s.
Proof.
  unfold handle_inbound. destruct (phase_is_terminal (phase s)); [by intros [= <-]|].
  destruct m, (hs_role s), (phase s); try (by intros [= <-]); try (by intros [=]); try (case_bool_decide; by intros [= <-]);
    destruct (received_adaptors s); by intros [= <-].
Qed.

(** Alice's session takes an [Accept] before she has answered the [Hello]: the handshake can
    then be completed with no parameters agreed. *)
Example accept_before_parameters :
  let s1 := fst (handle_inbound (new_alice "s") (Hello "s" [1] [2])) in
  let s2 := fst (handle_inbound s1 Accept) in
  let b := mkBundle [] [] [] [] in
  let s3 := fst (handle_inbound (fst (send_adaptors s2 b)) (AdaptorMaterial b)) in
  let s4 := fst (handle_inbound s3 Ready) in
  phase s4 = PhaseNegotiated /\ hs_parameters s4 = None.
Proof. done. Qed.

(** ** Two drivers over two streams *)

Section Streams.
Context (to_vec : Message -> option (list Z)) (from_slice : list Z -> option Message).
Hypothesis codec : forall m b, to_vec m = Some b -> from_slice b = Some m.

Definition encodable (m : Message) : Prop := exists b, to_vec m = Some b /\ Z.of_nat (length b) <= MAX_FRAME_BYTES.

Definition frame (m : Message) : list Z :=
  match to_vec m with Some b => app (be_bytes 4 (Z.of_nat (length b))) b | None => [] end.

Definition frames (l : list Message) : list Z := flat_map frame l.

Lemma frames_app l1 l2 : frames (app l1 l2) = app (frames l1) (frames l2).
Proof. apply flat_map_app. Qed.

Lemma frame_length m : encodable m -> (4 <= length (frame m))%nat.
Proof. intros (b & E & _). unfold frame. rewrite E, length_app, length_be_bytes. lia. Qed.

(** What has arrived of a stream of frames: the next frame, whole, is read, or nothing. *)
Lemma recv_next t m l t' r : encodable m -> inbound t `prefix_of` frames (m :: l) -> recv from_slice t = (t', r) ->
  outbound t' = outbound t /\ writable t' = writable t
  /\ (r = Ok m -> inbound t = app (frame m) (inbound t') /\ inbound t' `prefix_of` frames l) /\ (forall x, r = Ok x -> x = m).
Proof.
  intros (b & Eb & Hb) Hp. unfold recv, recv_framed_bytes, read_exact. cbn [frames flat_map] in Hp.
  assert (Ef : frame m = app (be_bytes 4 (Z.of_nat (length b))) b) by (unfold frame; by rewrite Eb).
  destruct Hp as [rest Hp]. symmetry in Hp. rewrite Ef in Hp. fold (frames l) in Hp.
  destruct (Nat.leb_spec 4 (length (inbound t))) as [H4 | H4]; [|intros [= <- <-]; by split_and!].
  assert (E4 : take 4 (inbound t) = be_bytes 4 (Z.of_nat (length b))).
  { apply (f_equal (take 4)) in Hp. rewrite take_app_le in Hp by done. rewrite <- app_assoc, take_app_le in Hp by (by rewrite length_be_bytes).
    rewrite (take_ge (be_bytes 4 _)) in Hp by (by rewrite length_be_bytes). done. }
  assert (Ed : app (drop 4 (inbound t)) rest = app b (frames l)).
  { apply (f_equal (drop 4)) in Hp. rewrite drop_app_le in Hp by done. rewrite <- app_assoc, drop_app_le in Hp by (by rewrite length_be_bytes).
    rewrite (drop_ge (be_bytes 4 _)) in Hp by (by rewrite length_be_bytes). done. }
  cbn [inbound outbound writable]. rewrite E4, be_value_be_bytes by (unfold MAX_FRAME_BYTES in Hb; change (256 ^ Z.of_nat 4) with 4294967296; lia).
  rewrite (proj2 (Z.ltb_ge _ _)) by done. rewrite Nat2Z.id. cbn [inbound outbound writable].
  destruct (Nat.leb_spec (length b) (length (drop 4 (inbound t)))) as [Hl | Hl]; [|intros [= <- <-]; by split_and!].
  assert (Eb' : take (length b) (drop 4 (inbound t)) = b).
  { apply (f_equal (take (length b))) in Ed. rewrite take_app_le in Ed by done. by rewrite take_app_length in Ed. }
  assert (El : app (drop (length b) (drop 4 (inbound t))) rest = frames l).
  { apply (f_equal (drop (length b))) in Ed. rewrite drop_app_le in Ed by done. by rewrite drop_app_length in Ed. }
  rewrite Eb', (codec m b Eb). intros [= <- <-]. cbn [inbound outbound writable]. split_and!; [done|done| |by intros x [= <-]].
  intros _. split; [|by exists rest]. rewrite Ef, <- E4, <- Eb' at 1. rewrite <- app_assoc. by rewrite !take_drop.
Qed.

(** A send puts the whole frame on the stream, or a part of it when it fails. *)
Lemma write_all_spec t bytes t' r : write_all t bytes = (t', r) ->
  inbound t' = inbound t /\ (r = Ok tt -> outbound t' = app (outbound t) bytes) /\ outbound t' `prefix_of` app (outbound t) bytes
  /\ (writable t = None -> writable t' = None /\ r = Ok tt).
Proof.
  unfold write_all. destruct (writable t) as [n|]; [destruct (_ <=? _)%nat|]; intros [= <- <-]; cbn; split_and!; try done.
  apply prefix_app. eexists. symmetry. apply take_drop.
Qed.

Lemma send_spec t m t' r : encodable m -> send to_vec t m = (t', r) ->
  inbound t' = inbound t /\ (r = Ok tt -> outbound t' = app (outbound t) (frame m)) /\ outbound t' `prefix_of` app (outbound t) (frame m)
  /\ (writable t = None -> writable t' = None /\ r = Ok tt).
Proof.
  intros (b & Eb & Hb). unfold send, frame. rewrite Eb, (proj2 (Z.ltb_ge _ _)) by done.
  destruct (write_all t _) as [t1 r1] eqn:E1. apply write_all_spec in E1 as (I1 & O1 & P1 & N1). destruct r1 as [[]|e].
  - intros E2. apply write_all_spec in E2 as (I2 & O2 & P2 & N2). rewrite (O1 eq_refl) in O2, P2. rewrite app_assoc.
    split_and!; [congruence|done|done|]. intros Hw. destruct (N1 Hw) as [Hw1 _]. auto.
  - intros [= <- <-]. split_and!; [done|done| |].
    + etrans; [exact P1|]. rewrite app_assoc. by apply prefix_app_r.
    + intros Hw. by destruct (N1 Hw).
Qed.

Lemma bind_inv {A B} (m : M A) (k : A -> M B) st st' r : mbind_ m k st = (st', r) ->
  (exists e, m st = (st', Err e) /\ r = Err e) \/ exists a st1, m st = (st1, Ok a) /\ k a st1 = (st', r).
Proof. unfold mbind_. destruct (m st) as [st1 [a|e]]; [right; eauto|]. intros [= <- <-]. eauto. Qed.

(** *** Scripts *)

Inductive Step := Tx (f : HandshakeSession -> HandshakeSession * result HandshakeError Message)
| Rx (c : HandshakeAction -> result DriveError unit).

Definition perform (x : Step) : M unit := match x with Tx f => transmit to_vec f | Rx c => await from_slice c end.

Fixpoint interp (prog : list Step) : M unit :=
  match prog with
  | [] => check (Ok tt)
  | [x] => perform x
  | x :: rest => mbind_ (perform x) (fun _ => interp rest)
  end.

Inductive Ev := Out (m : Message) | In (m : Message).

Definition outs (l : list Ev) : list Message := omap (fun e => match e with Out m => Some m | In _ => None end) l.
Definition ins (l : list Ev) : list Message := omap (fun e => match e with In m => Some m | Out _ => None end) l.

(** The session's course through a program, given what it is sent: to the end, or up to a
    message it refuses. *)
Inductive plays : HandshakeSession -> list Step -> list Ev -> bool -> Prop :=
| plays_end s : plays s [] [] true
| plays_out f s s1 m prog evs ok : f s = (s1, Ok m) -> plays s1 prog evs ok -> plays s (Tx f :: prog) (Out m :: evs) ok
| plays_stuck f s s1 e prog : f s = (s1, Err e) -> plays s (Tx f :: prog) [] false
| plays_in c s m s1 act prog evs ok : handle_inbound s m = (s1, Ok act) -> c act = Ok tt -> plays s1 prog evs ok ->
    plays s (Rx c :: prog) (In m :: evs) ok
| plays_refuse c s m s1 r prog : handle_inbound s m = (s1, r) -> (forall act, r = Ok act -> c act <> Ok tt) ->
    plays s (Rx c :: prog) [In m] false.

(** The session after the events it has taken part in. *)
Inductive after : HandshakeSession -> list Step -> list Ev -> HandshakeSession -> Prop :=
| after_nil s prog : after s prog [] s
| after_stuck f s s1 e prog : f s = (s1, Err e) -> after s (Tx f :: prog) [] s1
| after_out f s s1 m prog evs s' : f s = (s1, Ok m) -> after s1 prog evs s' -> after s (Tx f :: prog) (Out m :: evs) s'
| after_in c s m s1 r prog evs s' : handle_inbound s m = (s1, r) -> after s1 prog evs s' -> after s (Rx c :: prog) (In m :: evs) s'.

Lemma perform_out f s s1 m t t' s' r : f s = (s1, Ok m) -> encodable m -> perform (Tx f) (t, s) = ((t', s'), r) ->
  s' = s1 /\ inbound t' = inbound t /\ (r = Ok tt -> outbound t' = app (outbound t) (frame m))
  /\ outbound t' `prefix_of` app (outbound t) (frame m) /\ (writable t = None -> writable t' = None /\ r = Ok tt).
Proof.
  intros Hf He. cbn. unfold transmit, mbind_, on_session, on_transport. rewrite Hf. destruct (send to_vec t m) as [t1 r1] eqn:Es.
  destruct (send_spec t m t1 r1 He Es) as (I & O & P & N). destruct r1 as [[]|e]; intros [= <- <- <-]; split_and!; auto; try done;
    intros Hw; by destruct (N Hw).
Qed.

(** The next message of the stream reaches the session, or the read fails. *)
Lemma perform_in c s m l t t' s' r : encodable m -> inbound t `prefix_of` frames (m :: l) -> perform (Rx c) (t, s) = ((t', s'), r) ->
  outbound t' = outbound t /\ writable t' = writable t
  /\ ((r <> Ok tt /\ s' = s)
      \/ (inbound t = app (frame m) (inbound t') /\ inbound t' `prefix_of` frames l /\ s' = fst (handle_inbound s m)
          /\ (r = Ok tt <-> exists act, snd (handle_inbound s m) = Ok act /\ c act = Ok tt))).
Proof.
  intros He Hp. cbn. unfold await, receive, mbind_, on_transport, on_session, check. destruct (recv from_slice t) as [t1 r1] eqn:Er.
  destruct (recv_next t m l t1 r1 He Hp Er) as (O & W & Hin & Hx). destruct r1 as [x|e]; [|intros [= <- <- <-]; split_and!; auto].
  rewrite (Hx x eq_refl) in *. destruct (Hin eq_refl) as [E1 E2]. destruct (handle_inbound s m) as [s1 [act|e]]; intros [= <- <- <-].
  - split_and!; try done. right. split_and!; try done. split; [eauto|]. by intros (act' & [= <-] & ?).
  - split_and!; try done. right. split_and!; try done. split; [done|]. by intros (act' & ? & _).
Qed.

Lemma interp_cons x prog st st' r : interp (x :: prog) st = (st', r) ->
  (exists e, perform x st = (st', Err e) /\ r = Err e) \/ exists st1, perform x st = (st1, Ok tt) /\ interp prog st1 = (st', r).
Proof.
  destruct prog as [|y prog]; cbn [interp].
  - intros H. destruct r as [[]|e]; [right|left; eauto]. exists st'. done.
  - intros H. apply bind_inv in H as [H | ([] & st1 & H)]; [by left|right; eauto].
Qed.

Lemma plays_trace l s prog evs ok : plays s prog evs ok -> forall t t' s' r,
  Forall encodable (outs evs) -> Forall encodable (ins evs) -> inbound t `prefix_of` frames (app (ins evs) l) ->
  interp prog (t, s) = ((t', s'), r) ->
  exists evs1, evs1 `prefix_of` evs /\ after s prog evs1 s' /\ outbound t' `prefix_of` app (outbound t) (frames (outs evs1))
    /\ frames (ins evs1) `prefix_of` inbound t
    /\ (r = Ok tt -> evs1 = evs /\ ok = true /\ outbound t' = app (outbound t) (frames (outs evs))).
Proof.
  induction 1 as [s|f s s1 m prog evs ok Hf _ IH|f s s1 e prog Hf|c s m s1 act prog evs ok Hh Hc _ IH|c s m s1 rh prog Hh Hc];
    intros t t' s' r Ho Hi Hin H.
  - cbn in H. injection H as <- <- <-. exists []. split; [done|]. split; [constructor|]. cbn. rewrite app_nil_r. split_and!; try done; apply prefix_nil.
  - cbn [outs omap list_omap] in Ho. inversion Ho as [|? ? Hm Ho']; subst. cbn [ins omap list_omap] in Hi, Hin.
    apply interp_cons in H as [(e & H & ->) | ([t1 s2] & H1 & H)].
    + destruct (perform_out f s s1 m _ _ _ _ Hf Hm H) as (-> & _ & _ & P & _). exists [Out m].
      split; [by apply prefix_cons, prefix_nil|]. split; [econstructor; [done|constructor]|]. cbn. rewrite app_nil_r. split_and!; [done|apply prefix_nil|done].
    + destruct (perform_out f s s1 m _ _ _ _ Hf Hm H1) as (-> & I1 & O1 & _ & _). rewrite <- I1 in Hin.
      destruct (IH _ _ _ _ Ho' Hi Hin H) as (evs1 & Hp & Ha & HO & HI & HR). rewrite (O1 eq_refl) in HO, HR. exists (Out m :: evs1).
      split; [by apply prefix_cons|]. split; [by econstructor|]. cbn. rewrite app_assoc. rewrite I1 in HI. split_and!; [done|done|].
      intros Hr. destruct (HR Hr) as (-> & -> & ->). split_and!; [done|done|]. by rewrite <- app_assoc.
  - apply interp_cons in H as [(e' & H & ->) | ([t1 s2] & H1 & H)]; cbn in *; unfold transmit, mbind_, on_session in *; rewrite Hf in *; [|done].
    injection H as <- <- <-. exists []. split; [done|]. split; [by eapply after_stuck|]. cbn. rewrite app_nil_r. split_and!; try done; apply prefix_nil.
  - cbn [ins omap list_omap app] in Hi, Hin. inversion Hi as [|? ? Hm Hi']; subst. cbn [outs omap list_omap] in Ho.
    apply interp_cons in H as [(e & H & ->) | ([t1 s2] & H1 & H)].
    + destruct (perform_in c s m _ _ _ _ _ Hm Hin H) as (O & _ & [[_ ->] | (E & _ & -> & Hr)]).
      * exists []. split; [apply prefix_nil|]. split; [constructor|]. cbn. rewrite O, app_nil_r. split_and!; try done; apply prefix_nil.
      * exfalso. rewrite Hh in Hr. cbn in Hr. assert (Err e = Ok tt) by (apply Hr; eauto). done.
    + destruct (perform_in c s m _ _ _ _ _ Hm Hin H1) as (O & _ & [[? _] | (E & Hp1 & -> & _)]); [done|]. rewrite Hh in H. cbn [fst] in H.
      destruct (IH _ _ _ _ Ho Hi' Hp1 H) as (evs1 & Hp & Ha & HO & HI & HR). rewrite O in HO, HR. exists (In m :: evs1).
      split; [by apply prefix_cons|]. split; [by econstructor|]. cbn. rewrite E. split_and!; [done|by apply prefix_app|].
      intros Hr. destruct (HR Hr) as (-> & -> & ->). by split_and!.
  - cbn in Hi, Hin. rewrite list.Forall_singleton in Hi. change (inbound t `prefix_of` frames (m :: l)) in Hin.
    assert (H' : exists e, perform (Rx c) (t, s) = ((t', s'), Err e) /\ r = Err e).
    { apply interp_cons in H as [H | ([t1 s2] & H1 & H)]; [done|]. exfalso.
      destruct (perform_in c s m l _ _ _ _ Hi Hin H1) as (_ & _ & [[? _] | (_ & _ & _ & Hr)]); [done|].
      destruct (proj1 Hr eq_refl) as (act & Ea & Hca). rewrite Hh in Ea. by apply (Hc act). }
    destruct H' as (e & H' & ->). destruct (perform_in c s m l _ _ _ _ Hi Hin H') as (O & _ & [[_ ->] | (E & _ & -> & _)]).
    + exists []. split; [apply prefix_nil|]. split; [constructor|]. cbn. rewrite O, app_nil_r. split_and!; try done; apply prefix_nil.
    + exists [In m]. split; [done|]. rewrite Hh. split; [econstructor; [done|constructor]|]. cbn. rewrite O, !app_nil_r, E. split_and!; [done|by apply prefix_app_r|done].
Qed.

(** When all of it has arrived and nothing fails, a course to the end is taken to the end. *)
Lemma recv_full t m rest : encodable m -> inbound t = app (frame m) rest ->
  recv from_slice t = (mkTransport rest (outbound t) (writable t), Ok m).
Proof.
  intros (b & Eb & Hb) Hin. unfold frame in Hin. rewrite Eb, <- app_assoc in Hin. unfold recv, recv_framed_bytes, read_exact. rewrite Hin.
  rewrite (proj2 (Nat.leb_le _ _)) by (rewrite length_app, length_be_bytes; lia). cbn [inbound outbound writable].
  rewrite take_app_le, drop_app_le by (by rewrite length_be_bytes). rewrite take_ge, drop_ge by (by rewrite length_be_bytes).
  rewrite be_value_be_bytes by (unfold MAX_FRAME_BYTES in Hb; change (256 ^ Z.of_nat 4) with 4294967296; lia).
  rewrite (proj2 (Z.ltb_ge _ _)) by done. rewrite Nat2Z.id, app_nil_l.
  rewrite (proj2 (Nat.leb_le _ _)) by (rewrite length_app; lia). cbn [inbound outbound writable].
  by rewrite take_app_length, drop_app_length, (codec m b Eb).
Qed.

Lemma plays_complete s prog evs ok : plays s prog evs ok -> ok = true -> forall t,
  Forall encodable (outs evs) -> Forall encodable (ins evs) -> inbound t = frames (ins evs) -> writable t = None ->
  snd (interp prog (t, s)) = Ok tt.
Proof.
  induction 1 as [s|f s s1 m prog evs ok Hf _ IH|f s s1 e prog Hf|c s m s1 act prog evs ok Hh Hc _ IH|c s m s1 rh prog Hh Hc];
    intros Hok t Ho Hi Hin Hw; try discriminate; [done| |].
  - cbn [outs omap list_omap] in Ho. inversion Ho as [|? ? Hm Ho']; subst. destruct (interp (Tx f :: prog) (t, s)) as [st' r] eqn:E.
    apply interp_cons in E as [(e & H & ->) | ([t1 s2] & H1 & H)].
    + destruct st' as [t' s']. destruct (perform_out f s s1 m _ _ _ _ Hf Hm H) as (_ & _ & _ & _ & N). by destruct (N Hw).
    + destruct (perform_out f s s1 m _ _ _ _ Hf Hm H1) as (-> & I1 & _ & _ & N). destruct (N Hw) as [Hw1 _].
      pose proof (IH eq_refl t1 Ho' Hi ltac:(by rewrite I1) Hw1) as Hr. by rewrite H in Hr.
  - cbn [ins omap list_omap] in Hi, Hin. inversion Hi as [|? ? Hm Hi']; subst. destruct (interp (Rx c :: prog) (t, s)) as [st' r] eqn:E.
    pose proof (recv_full t m (frames (ins evs)) Hm Hin) as Hrecv.
    assert (Hstep : perform (Rx c) (t, s) = ((mkTransport (frames (ins evs)) (outbound t) (writable t), s1), Ok tt)).
    { cbn. unfold await, receive, mbind_, on_transport, on_session, check. by rewrite Hrecv, Hh, Hc. }
    apply interp_cons in E as [(e & H & ->) | ([t1 s2] & H1 & H)]; [congruence|]. rewrite Hstep in H1. injection H1 as <- <-.
    pose proof (IH eq_refl (mkTransport (frames (ins evs)) (outbound t) (writable t)) Ho Hi' eq_refl Hw) as Hr. by rewrite H in Hr.
Qed.

Lemma recv_outbound t t' r : recv from_slice t = (t', r) -> outbound t' = outbound t.
Proof.
  unfold recv, recv_framed_bytes, read_exact. destruct (_ <=? _)%nat; [|by intros [= <- <-]]. destruct (_ <? _); [by intros [= <- <-]|].
  destruct (_ <=? _)%nat; by intros [= <- <-].
Qed.

Lemma interp_grows prog : forall t s t' s' r, interp prog (t, s) = ((t', s'), r) -> outbound t `prefix_of` outbound t'.
Proof.
  assert (Hw : forall t l t' r, write_all t l = (t', r) -> outbound t `prefix_of` outbound t').
  { intros t l t' r. unfold write_all. repeat case_match; intros [= <- <-]; cbn; by apply prefix_app_r. }
  assert (Hstep : forall x t s t' s' r, perform x (t, s) = ((t', s'), r) -> outbound t `prefix_of` outbound t').
  { intros [f|c] t s t' s' r; cbn.
    - unfold transmit, mbind_, on_session, on_transport, send. destruct (f s) as [s1 [m|e]]; [|by intros [= <- <- <-]].
      destruct (to_vec m) as [bs|]; [|by intros [= <- <- <-]]. destruct (_ <? _); [by intros [= <- <- <-]|].
      destruct (write_all t _) as [t1 r1] eqn:E1. pose proof (Hw _ _ _ _ E1) as P1. destruct r1; [|by intros [= <- <- <-]].
      destruct (write_all t1 _) as [t2 r2] eqn:E2. pose proof (Hw _ _ _ _ E2) as P2. assert (outbound t `prefix_of` outbound t2) by (by etrans).
      destruct r2; by intros [= <- <- <-].
    - unfold await, receive, mbind_, on_transport, on_session, check. destruct (recv from_slice t) as [t1 [m|e]] eqn:E; rewrite <- (recv_outbound _ _ _ E).
      + destruct (handle_inbound s m) as [s1 [act|e]]; by intros [= <- <- <-].
      + by intros [= <- <- <-]. }
  induction prog as [|x prog IH]; intros t s t' s' r H; [by injection H as <- _ _|].
  apply interp_cons in H as [(e & H & ->) | ([t1 s1] & H1 & H)]; [by eapply Hstep|]. etrans; [by eapply Hstep|by eapply IH].
Qed.

(** What has arrived so far carries a session so far along its course. *)
Lemma plays_progress s prog evs ok : plays s prog evs ok -> forall e1 e2 t t' s' r, evs = app e1 e2 ->
  Forall encodable (outs evs) -> Forall encodable (ins evs) -> writable t = None -> frames (ins e1) `prefix_of` inbound t ->
  interp prog (t, s) = ((t', s'), r) -> app (outbound t) (frames (outs e1)) `prefix_of` outbound t'.
Proof.
  induction 1 as [s|f s s1 m prog evs ok Hf _ IH|f s s1 e prog Hf|c s m s1 act prog evs ok Hh Hc _ IH|c s m s1 rh prog Hh Hc];
    intros e1 e2 t t' s' r He Ho Hi Hw Hin H; destruct e1 as [|e1h e1]; try (cbn; rewrite app_nil_r; by eapply interp_grows); try discriminate.
  - injection He as <- ->. cbn [outs omap list_omap] in Ho. inversion Ho as [|? ? Hm Ho']; subst.
    apply interp_cons in H as [(e & H & ->) | ([t1 s2] & H1 & H)].
    + destruct (perform_out f s s1 m _ _ _ _ Hf Hm H) as (_ & _ & _ & _ & N). by destruct (N Hw).
    + destruct (perform_out f s s1 m _ _ _ _ Hf Hm H1) as (-> & I1 & O1 & _ & N). destruct (N Hw) as [Hw1 _].
      change (frames (outs (Out m :: e1))) with (app (frame m) (frames (outs e1))). rewrite app_assoc, <- (O1 eq_refl).
      eapply IH; try done. by rewrite I1.
  - injection He as <- ->. cbn [ins omap list_omap] in Hi, Hin. inversion Hi as [|? ? Hm Hi']; subst. destruct Hin as [rest Hrest].
    cbn in Hrest. rewrite <- app_assoc in Hrest. pose proof (recv_full t m _ Hm Hrest) as Hrecv.
    assert (Hstep : perform (Rx c) (t, s) = ((mkTransport (app (frames (ins e1)) rest) (outbound t) (writable t), s1), Ok tt)).
    { cbn. unfold await, receive, mbind_, on_transport, on_session, check. by rewrite Hrecv, Hh, Hc. }
    apply interp_cons in H as [(e & H & ->) | ([t1 s2] & H1 & H)]; [congruence|]. rewrite Hstep in H1. injection H1 as <- <-.
    eapply (IH e1 e2 (mkTransport (app (frames (ins e1)) rest) (outbound t) (writable t))); try done. by apply prefix_app_r.
  - injection He as <- He. symmetry in He. apply app_nil in He as [-> _]. cbn. rewrite app_nil_r. by eapply interp_grows.
Qed.

(** What a program can send, whatever it receives. *)
Inductive emits (I : HandshakeSession -> Prop) : list Step -> list Message -> Prop :=
| emits_nil : emits I [] []
| emits_tx f m prog l : (forall s s1 r, I s -> f s = (s1, r) -> I s1 /\ (forall m', r = Ok m' -> m' = m)) ->
    emits I prog l -> emits I (Tx f :: prog) (m :: l)
| emits_rx c prog l : emits I prog l -> emits I (Rx c :: prog) l.

Lemma interp_emits I prog l : (forall s m s1 r, I s -> handle_inbound s m = (s1, r) -> I s1) -> emits I prog l ->
  forall t s t' s' r, I s -> Forall encodable l -> interp prog (t, s) = ((t', s'), r) ->
  outbound t' `prefix_of` app (outbound t) (frames l).
Proof.
  intros Hhandle. induction 1 as [|f m prog l Hf _ IH|c prog l _ IH]; intros t s t' s' r Hs He H.
  - cbn in H. injection H as <- _ _. by rewrite app_nil_r.
  - inversion He as [|? ? Hm He']; subst. destruct (f s) as [s1 [x|e]] eqn:Ef; destruct (Hf _ _ _ Hs Ef) as [Hs1 Hx].
    + rewrite (Hx x eq_refl) in Ef. apply interp_cons in H as [(e & H & ->) | ([t1 s2] & H1 & H)].
      * destruct (perform_out f s s1 m _ _ _ _ Ef Hm H) as (_ & _ & _ & P & _). etrans; [exact P|]. cbn. rewrite app_assoc. by apply prefix_app_r.
      * destruct (perform_out f s s1 m _ _ _ _ Ef Hm H1) as (-> & _ & O1 & _). cbn. fold (frames l). rewrite app_assoc, <- (O1 eq_refl). by apply (IH _ _ _ _ _ Hs1 He' H).
    + apply interp_cons in H as [(e' & H & ->) | ([t1 s2] & H1 & H)]; cbn in *; unfold transmit, mbind_, on_session in *; rewrite Ef in *; [|done].
      injection H as <- _ _. by apply prefix_app_r.
  - apply interp_cons in H as [(e & H & ->) | ([t1 s1] & H1 & H)]; cbn in *; unfold await, receive, mbind_, on_transport, on_session, check in *.
    + destruct (recv from_slice t) as [t1 [m|e1]] eqn:Er; [destruct (handle_inbound s m) as [s2 [act|e2]]|];
        injection H as <- _ _; rewrite (recv_outbound t t1 _ Er); by apply prefix_app_r.
    + destruct (recv from_slice t) as [t2 [m|e1]] eqn:Er; [|done]. destruct (handle_inbound s m) as [s2 [act|e2]] eqn:Eh; [|done].
      injection H1 as <- <- _. rewrite <- (recv_outbound t t2 _ Er). apply (IH _ _ _ _ _ (Hhandle _ _ _ _ Hs Eh) He H).
Qed.

(** *** The two parties *)

(** What each party has to say, in order. *)
Definition script_alice (akeys : list Z * list Z) (params : SwapParameters) (a : AdaptorBundle) : list Message :=
  [HelloAck (fst akeys) (snd akeys) params; AdaptorMaterial a; Ready].
Definition script_bob (sid : string) (bkeys : list Z * list Z) (b : AdaptorBundle) : list Message :=
  [Hello sid (fst bkeys) (snd bkeys); Accept; AdaptorMaterial b; Ready].

Definition prog_alice (akeys : list Z * list Z) (params : SwapParameters) (a : AdaptorBundle) (va : AdaptorBundle -> bool) : list Step :=
  [Rx (fun x => expect_wait_for x "respond_with_hello_ack"); Tx (fun s => respond_with_hello_ack s (fst akeys) (snd akeys) params);
   Rx (fun x => expect_wait_for x "send_adaptors"); Tx (fun s => send_adaptors s a); Rx (fun x => run_verifier x va);
   Tx send_ready; Rx expect_done].
Definition prog_bob (bkeys : list Z * list Z) (b : AdaptorBundle) (vb : AdaptorBundle -> bool) : list Step :=
  [Tx (fun s => start_bob s (fst bkeys) (snd bkeys)); Rx (fun x => expect_wait_for x "accept_or_send_abort"); Tx accept;
   Tx (fun s => send_adaptors s b); Rx (fun x => run_verifier x vb); Tx send_ready; Rx expect_done].

Lemma run_alice_prog akeys params a va : run_alice to_vec from_slice akeys params a va = interp (prog_alice akeys params a va).
Proof. done. Qed.
Lemma run_bob_prog bkeys b vb : run_bob to_vec from_slice bkeys b vb = interp (prog_bob bkeys b vb).
Proof. done. Qed.

(** Follow a session along events that are known. *)
Ltac follow_step :=
  match goal with
  | H : start_bob ?s _ _ = _ |- _ => assert_fails (is_var s); unfold start_bob in H
  | H : accept ?s = _ |- _ => assert_fails (is_var s); unfold accept in H
  | H : send_adaptors ?s _ = _ |- _ => assert_fails (is_var s); unfold send_adaptors in H
  | H : send_ready ?s = _ |- _ => assert_fails (is_var s); unfold send_ready in H
  | H : respond_with_hello_ack ?s _ _ _ = _ |- _ => assert_fails (is_var s); unfold respond_with_hello_ack in H
  | H : handle_inbound ?s _ = _ |- _ => assert_fails (is_var s); unfold handle_inbound in H
  | H : context [bool_decide _] |- _ => (rewrite bool_decide_true in H by done) || (rewrite bool_decide_false in H by done)
  | H : context [is_timeout_safe ?p], E : is_timeout_safe ?p = _ |- _ => assert_fails (constr_eq H E); rewrite E in H
  | H : (_, _) = (_, _) |- _ => injection H as H; subst
  | H : _ = (_, _) |- _ => progress (cbn -[is_timeout_safe bool_decide] in H)
  end.
Ltac follow H :=
  repeat match goal with
  | H : after _ _ (_ :: _) _ |- _ => inversion H; clear H; subst
  | H : after _ _ [] _ |- _ => inversion H; clear H; subst
  end; repeat follow_step.

Section Parties.
Context (sida sid : string) (akeys bkeys : list Z * list Z) (params : SwapParameters) (a b : AdaptorBundle) (va vb : AdaptorBundle -> bool).

(** The course of each party when the other follows its script. *)
Definition course_alice : list Ev :=
  In (Hello sid (fst bkeys) (snd bkeys)) ::
  (if bool_decide (sid = sida) && is_timeout_safe params
   then [Out (HelloAck (fst akeys) (snd akeys) params); In Accept; Out (AdaptorMaterial a); In (AdaptorMaterial b)]
        ++ (if va b then [Out Ready; In Ready] else [])
   else []).
Definition course_bob : list Ev :=
  [Out (Hello sid (fst bkeys) (snd bkeys)); In (HelloAck (fst akeys) (snd akeys) params); Out Accept; Out (AdaptorMaterial b);
   In (AdaptorMaterial a)] ++ (if vb a then [Out Ready; In Ready] else []).

Lemma bob_plays : plays (new_bob sid) (prog_bob bkeys b vb) course_bob (vb a).
Proof.
  unfold prog_bob, course_bob. cbn [app].
  eapply plays_out; [reflexivity|]. eapply plays_in; [reflexivity|reflexivity|]. eapply plays_out; [reflexivity|].
  eapply plays_out; [reflexivity|]. destruct (vb a) eqn:E.
  - eapply plays_in; [reflexivity|cbn; by rewrite E|]. eapply plays_out; [reflexivity|]. eapply plays_in; [reflexivity|reflexivity|]. constructor.
  - eapply plays_refuse; [reflexivity|]. intros act [= <-]. cbn. by rewrite E.
Qed.

Lemma alice_plays : plays (new_alice sida) (prog_alice akeys params a va) course_alice
  (bool_decide (sid = sida) && is_timeout_safe params && va b).
Proof.
  unfold prog_alice, course_alice. case_bool_decide as Hs; cbn [andb].
  - subst sida. eapply plays_in; [cbn; rewrite bool_decide_true by done; reflexivity|reflexivity|]. destruct (is_timeout_safe params) eqn:Et; cbn [andb app].
    + eapply plays_out; [unfold respond_with_hello_ack; rewrite !bool_decide_true, Et by done; reflexivity|]. eapply plays_in; [reflexivity|reflexivity|]. eapply plays_out; [reflexivity|].
      destruct (va b) eqn:E.
      * eapply plays_in; [reflexivity|cbn; by rewrite E|]. eapply plays_out; [reflexivity|]. eapply plays_in; [reflexivity|reflexivity|]. constructor.
      * eapply plays_refuse; [reflexivity|]. intros act [= <-]. cbn. by rewrite E.
    + eapply plays_stuck. unfold respond_with_hello_ack. rewrite !bool_decide_true, Et by done. reflexivity.
  - eapply plays_refuse; [cbn; rewrite bool_decide_false by done; reflexivity|]. by intros act [=].
Qed.

Lemma handle_keeps_id s m s1 r : handle_inbound s m = (s1, r) -> swap_id s1 = swap_id s.
Proof.
  unfold handle_inbound, maybe_advance_to_awaiting_ready. destruct (phase_is_terminal (phase s)); [by intros [= <- <-]|].
  destruct m, (hs_role s), (phase s); try (by intros [= <- <-]); try (case_bool_decide; by intros [= <- <-]);
    destruct (received_adaptors s); try (by intros [= <- <-]); destruct (_ && _); by intros [= <- <-].
Qed.

Ltac solve_emits :=
  intros s s1 r Hs; unfold start_bob, accept, respond_with_hello_ack, send_adaptors, send_ready, maybe_advance_to_awaiting_ready;
  repeat match goal with |- context [if ?x then _ else _] => destruct x end; intros [= <- <-]; split; try done; intros m' [=]; by subst.

Lemma bob_emits : emits (fun s => swap_id s = sid) (prog_bob bkeys b vb) (script_bob sid bkeys b).
Proof. unfold prog_bob, script_bob. repeat (apply emits_nil || apply emits_rx || (apply emits_tx; [solve_emits|])). Qed.

Lemma alice_emits : emits (fun _ => True) (prog_alice akeys params a va) (script_alice akeys params a).
Proof. unfold prog_alice, script_alice. repeat (apply emits_nil || apply emits_rx || (apply emits_tx; [solve_emits|])). Qed.

(** What a session knows once the keys and parameters are exchanged. *)
Definition agreed (s : HandshakeSession) (keys : list Z * list Z) : Prop :=
  counterparty_btc_pubkey s = Some (fst keys) /\ counterparty_cync_pubkey s = Some (snd keys) /\ hs_parameters s = Some params.


Hypothesis enc_a : Forall encodable (script_alice akeys params a).
Hypothesis enc_b : Forall encodable (script_bob sid bkeys b).

Lemma enc_courses : Forall encodable (ins course_alice) /\ Forall encodable (outs course_alice)
  /\ Forall encodable (ins course_bob) /\ Forall encodable (outs course_bob).
Proof.
  pose proof enc_a as Ha. pose proof enc_b as Hb. unfold script_alice, script_bob in Ha, Hb.
  repeat match goal with H : Forall _ (_ :: _) |- _ => apply list.Forall_cons in H as [? ?] end. unfold course_alice, course_bob. split_and!; repeat case_match; cbn; repeat constructor; done.
Qed.

(** The first [n] events of a course leave out something that is said only later. *)
Lemma frames_short l m : encodable m -> (length (frames l) < length (frames (app l [m])))%nat.
Proof. intros H%frame_length. rewrite frames_app, length_app. cbn. rewrite app_nil_r. lia. Qed.

Lemma prefix_cases {A} (l1 l2 k : list A) : k `prefix_of` app l1 l2 -> k `prefix_of` l1 \/ exists x k2, k = app l1 (x :: k2) /\ (x :: k2) `prefix_of` l2.
Proof.
  revert k. induction l1 as [|y l1 IH]; intros k Hk; (destruct k as [|z k]; [left; apply prefix_nil|]); [right; eauto|].
  cbn in Hk. pose proof (prefix_cons_inv_1 _ _ _ _ Hk) as ->. apply prefix_cons_inv_2 in Hk.
  destruct (IH k Hk) as [H | (x & k2 & -> & H)]; [left; by apply prefix_cons|right; eauto].
Qed.

Lemma bob_ready evs1 s' : evs1 `prefix_of` course_bob -> after (new_bob sid) (prog_bob bkeys b vb) evs1 s' ->
  frames (script_bob sid bkeys b) `prefix_of` frames (outs evs1) -> vb a = true /\ agreed s' akeys.
Proof.
  intros Hp Haft Hfull. unfold course_bob in Hp. apply prefix_cases in Hp as [Hp | (x & k2 & -> & Hp)].
  - exfalso. destruct Hp as [r Hr]. assert (Hl : (length (frames (outs evs1)) <= length (frames (take 3 (script_bob sid bkeys b))))%nat).
    { change (take 3 (script_bob sid bkeys b)) with (outs [Out (Hello sid (fst bkeys) (snd bkeys)); In (HelloAck (fst akeys) (snd akeys) params);
        Out Accept; Out (AdaptorMaterial b); In (AdaptorMaterial a)]). rewrite Hr. unfold outs. rewrite omap_app, frames_app, length_app. lia. }
    apply prefix_length in Hfull. pose proof (Forall_lookup_1 _ _ 3 Ready enc_b eq_refl) as H4.
    pose proof (frames_short (take 3 (script_bob sid bkeys b)) Ready H4) as Hs.
    change (app (take 3 (script_bob sid bkeys b)) [Ready]) with (script_bob sid bkeys b) in Hs. lia.
  - destruct (vb a); [|by apply prefix_nil_inv in Hp]. split; [done|].
    pose proof (prefix_cons_inv_1 _ _ _ _ Hp) as ->. apply prefix_cons_inv_2 in Hp. cbn [app] in Haft.
    destruct k2 as [|y k2]; [|pose proof (prefix_cons_inv_1 _ _ _ _ Hp) as ->; apply prefix_cons_inv_2, prefix_nil_inv in Hp as ->];
      follow Haft; done.
Qed.

Lemma alice_ready evs1 s' : evs1 `prefix_of` course_alice -> after (new_alice sida) (prog_alice akeys params a va) evs1 s' ->
  frames (script_alice akeys params a) `prefix_of` frames (outs evs1) ->
  sid = sida /\ is_timeout_safe params = true /\ va b = true /\ agreed s' bkeys.
Proof.
  intros Hp Haft Hfull. pose proof (Forall_lookup_1 _ _ 2 Ready enc_a eq_refl) as H3. pose proof (Forall_lookup_1 _ _ 1 _ enc_a eq_refl) as H2.
  pose proof (Forall_lookup_1 _ _ 0 _ enc_a eq_refl) as H1.
  unfold course_alice in Hp. case_bool_decide as Hs; cbn [andb] in Hp; [destruct (is_timeout_safe params) eqn:Et|].
  - rewrite app_comm_cons in Hp. apply prefix_cases in Hp as [Hp | (x & k2 & -> & Hp)].
    + exfalso. destruct Hp as [r Hr]. assert (Hl : (length (frames (outs evs1)) <= length (frames (take 2 (script_alice akeys params a))))%nat).
      { change (take 2 (script_alice akeys params a)) with (outs [In (Hello sid (fst bkeys) (snd bkeys)); Out (HelloAck (fst akeys) (snd akeys) params);
          In Accept; Out (AdaptorMaterial a); In (AdaptorMaterial b)]). rewrite Hr. unfold outs. rewrite omap_app, frames_app, length_app. lia. }
      apply prefix_length in Hfull. pose proof (frames_short (take 2 (script_alice akeys params a)) Ready H3) as Hsh.
      change (app (take 2 (script_alice akeys params a)) [Ready]) with (script_alice akeys params a) in Hsh. lia.
    + destruct (va b); [|by apply prefix_nil_inv in Hp]. split_and!; try done; subst sida;
        pose proof (prefix_cons_inv_1 _ _ _ _ Hp) as ->; apply prefix_cons_inv_2 in Hp; cbn [app] in Haft;
        (destruct k2 as [|y k2]; [|pose proof (prefix_cons_inv_1 _ _ _ _ Hp) as ->; apply prefix_cons_inv_2, prefix_nil_inv in Hp as ->]);
        follow Haft; done.
  - exfalso. apply prefix_length in Hfull. pose proof (frame_length _ H1). destruct Hp as [r Hr].
    apply (f_equal outs) in Hr. unfold outs in Hr. rewrite omap_app in Hr. cbn in Hr. symmetry in Hr. apply app_nil in Hr as [Hr _].
    unfold outs in Hfull. rewrite Hr in Hfull. cbn in Hfull. rewrite !length_app in Hfull. cbn in Hfull. lia.
  - exfalso. apply prefix_length in Hfull. pose proof (frame_length _ H1). destruct Hp as [r Hr].
    apply (f_equal outs) in Hr. unfold outs in Hr. rewrite omap_app in Hr. cbn in Hr. symmetry in Hr. apply app_nil in Hr as [Hr _].
    unfold outs in Hfull. rewrite Hr in Hfull. cbn in Hfull. rewrite !length_app in Hfull. cbn in Hfull. lia.
Qed.

(** Each side's stream holds no more than what the other has written. *)
Section Connected.
Context (tA tB tA' tB' : TcpTransport) (sA sB : HandshakeSession) (rA rB : result DriveError unit).
Hypothesis out_a : outbound tA = [].
Hypothesis out_b : outbound tB = [].
Hypothesis run_a : run_alice to_vec from_slice akeys params a va (tA, new_alice sida) = ((tA', sA), rA).
Hypothesis run_b : run_bob to_vec from_slice bkeys b vb (tB, new_bob sid) = ((tB', sB), rB).
Hypothesis in_a : inbound tA `prefix_of` outbound tB'.
Hypothesis in_b : inbound tB `prefix_of` outbound tA'.

Lemma alice_writes : outbound tA' `prefix_of` frames (script_alice akeys params a).
Proof.
  pose proof (interp_emits (fun _ => True) _ _ ltac:(done) alice_emits _ _ _ _ _ I enc_a run_a) as H. by rewrite out_a in H.
Qed.

Lemma bob_writes : outbound tB' `prefix_of` frames (script_bob sid bkeys b).
Proof.
  pose proof (interp_emits (fun s => swap_id s = sid) _ _ ltac:(intros ? ? ? ? <-; apply handle_keeps_id) bob_emits _ (new_bob sid) _ _ _ eq_refl enc_b run_b) as H.
  by rewrite out_b in H.
Qed.

Lemma ins_alice : exists l, app (ins course_alice) l = script_bob sid bkeys b.
Proof. unfold course_alice, script_bob. repeat case_match; cbn; by eexists. Qed.

Lemma ins_bob : exists l, app (ins course_bob) l = script_alice akeys params a.
Proof. unfold course_bob, script_alice. repeat case_match; cbn; by eexists. Qed.

Lemma alice_followed : exists evs, evs `prefix_of` course_alice /\ after (new_alice sida) (prog_alice akeys params a va) evs sA
  /\ outbound tA' `prefix_of` frames (outs evs) /\ frames (ins evs) `prefix_of` inbound tA
  /\ (rA = Ok tt -> evs = course_alice /\ bool_decide (sid = sida) && is_timeout_safe params && va b = true).
Proof.
  destruct enc_courses as (E1 & E2 & _), ins_alice as [l Hl].
  destruct (plays_trace l _ _ _ _ alice_plays tA tA' sA rA E2 E1) as (evs & H1 & H2 & H3 & H4 & H5).
  - rewrite Hl. etrans; [exact in_a|exact bob_writes].
  - exact run_a.
  - rewrite out_a in H3. exists evs. split_and!; try done. intros Hr. by destruct (H5 Hr) as (? & ? & _).
Qed.

Lemma bob_followed : exists evs, evs `prefix_of` course_bob /\ after (new_bob sid) (prog_bob bkeys b vb) evs sB
  /\ outbound tB' `prefix_of` frames (outs evs) /\ frames (ins evs) `prefix_of` inbound tB
  /\ (rB = Ok tt -> evs = course_bob /\ vb a = true).
Proof.
  destruct enc_courses as (_ & _ & E1 & E2), ins_bob as [l Hl].
  destruct (plays_trace l _ _ _ _ bob_plays tB tB' sB rB E2 E1) as (evs & H1 & H2 & H3 & H4 & H5).
  - rewrite Hl. etrans; [exact in_b|exact alice_writes].
  - exact run_b.
  - rewrite out_b in H3. exists evs. split_and!; try done. intros Hr. by destruct (H5 Hr) as (? & ? & _).
Qed.

(** If one side completes, everything the other needs has been said and accepted. *)
Lemma alice_done : rA = Ok tt -> sid = sida /\ is_timeout_safe params = true /\ va b = true /\ vb a = true
  /\ agreed sA bkeys /\ agreed sB akeys /\ phase sA = PhaseNegotiated.
Proof.
  intros Hr. destruct alice_followed as (evs & _ & Hafter & _ & Hread & Hok). destruct (Hok Hr) as [-> H].
  apply andb_true_iff in H as [[Hs Ht]%andb_true_iff Hv]. apply bool_decide_eq_true in Hs.
  assert (Hins : ins course_alice = script_bob sid bkeys b) by (unfold course_alice; by rewrite bool_decide_true, Ht, Hv by done).
  destruct bob_followed as (evsB & HpB & HaB & HwB & _ & _).
  destruct (bob_ready evsB sB HpB HaB) as [Hvb HgB].
  { rewrite Hins in Hread. etrans; [exact Hread|]. etrans; [exact in_a|exact HwB]. }
  assert (HA : agreed sA bkeys /\ phase sA = PhaseNegotiated).
  { unfold course_alice in Hafter. rewrite bool_decide_true, Ht, Hv in Hafter by done. cbn [andb app] in Hafter. clear Hins Hread Hok. rewrite <- Hs in Hafter. follow Hafter; done. }
  split_and!; try done; apply HA.
Qed.

Lemma bob_done : rB = Ok tt -> sid = sida /\ is_timeout_safe params = true /\ va b = true /\ vb a = true
  /\ agreed sA bkeys /\ agreed sB akeys /\ phase sB = PhaseNegotiated.
Proof.
  intros Hr. destruct bob_followed as (evs & _ & Hafter & _ & Hread & Hok). destruct (Hok Hr) as [-> Hv].
  assert (Hins : ins course_bob = script_alice akeys params a) by (unfold course_bob; by rewrite Hv).
  destruct alice_followed as (evsA & HpA & HaA & HwA & _ & _).
  destruct (alice_ready evsA sA HpA HaA) as (Hs & Ht & Hva & HgA).
  { rewrite Hins in Hread. etrans; [exact Hread|]. etrans; [exact in_b|exact HwA]. }
  assert (HB : agreed sB akeys /\ phase sB = PhaseNegotiated).
  { unfold course_bob in Hafter. rewrite Hv in Hafter. cbn [app] in Hafter. follow Hafter; done. }
  split_and!; try done; apply HB.
Qed.
End Connected.
End Parties.

(** C27: the handshake agrees.  Alice and Bob run their drivers over a connection that has
    delivered to each some part of the bytes the other has written, and may break at any
    point; each message fits a frame.  If either driver reports success, then both joined the same swap, both hold
    the same parameters, whose timeouts are safe, and each other's keys, and each has
    received and accepted the other's adaptor material. *)
Theorem handshake_agreement sida sid akeys bkeys params a b va vb tA tB tA' tB' sA sB rA rB :
  Forall encodable (script_alice akeys params a) -> Forall encodable (script_bob sid bkeys b) ->
  outbound tA = [] -> outbound tB = [] ->
  run_alice to_vec from_slice akeys params a va (tA, new_alice sida) = ((tA', sA), rA) ->
  run_bob to_vec from_slice bkeys b vb (tB, new_bob sid) = ((tB', sB), rB) ->
  inbound tA `prefix_of` outbound tB' -> inbound tB `prefix_of` outbound tA' -> rA = Ok tt \/ rB = Ok tt ->
  sid = sida /\ is_timeout_safe params = true /\ va b = true /\ vb a = true /\ agreed params sA bkeys /\ agreed params sB akeys
  /\ (rA = Ok tt -> phase sA = PhaseNegotiated) /\ (rB = Ok tt -> phase sB = PhaseNegotiated).
Proof.
  intros Ha Hb Oa Ob Ra Rb Ia Ib Hr.
  pose proof (alice_done sida sid akeys bkeys params a b va vb Ha Hb tA tB tA' tB' sA sB rA rB Oa Ob Ra Rb Ia Ib) as HA.
  pose proof (bob_done sida sid akeys bkeys params a b va vb Ha Hb tA tB tA' tB' sA sB rA rB Oa Ob Ra Rb Ia Ib) as HB.
  destruct Hr as [Hr | Hr]; [destruct (HA Hr) as (? & ? & ? & ? & ? & ? & _)|destruct (HB Hr) as (? & ? & ? & ? & ? & ? & _)];
    split_and!; try done; intros Hx; [apply (HA Hx)|apply (HB Hx)|apply (HA Hx)|apply (HB Hx)].
Qed.

(** C35: the handshake completes: when both join the same swap, Alice's parameters have safe
    timeouts, every message fits a frame, the connection delivers everything and both sides
    accept what they are shown, both drivers succeed. *)
Theorem handshake_completes sid akeys bkeys params a b va vb tA tB tA' tB' sA sB rA rB :
  Forall encodable (script_alice akeys params a) -> Forall encodable (script_bob sid bkeys b) ->
  is_timeout_safe params = true -> va b = true -> vb a = true ->
  outbound tA = [] -> outbound tB = [] -> writable tA = None -> writable tB = None ->
  run_alice to_vec from_slice akeys params a va (tA, new_alice sid) = ((tA', sA), rA) ->
  run_bob to_vec from_slice bkeys b vb (tB, new_bob sid) = ((tB', sB), rB) ->
  inbound tA = outbound tB' -> inbound tB = outbound tA' -> rA = Ok tt /\ rB = Ok tt.
Proof.
  intros Ha Hb Ht Hva Hvb Oa Ob Wa Wb Ra Rb Ia Ib.
  assert (Ia' : inbound tA `prefix_of` outbound tB') by (by rewrite Ia). assert (Ib' : inbound tB `prefix_of` outbound tA') by (by rewrite Ib).
  destruct (enc_courses sid sid akeys bkeys params a b va vb Ha Hb) as (EiA & EoA & EiB & EoB).
  pose proof (alice_plays sid sid akeys bkeys params a b va) as PA. pose proof (bob_plays sid akeys bkeys params a b vb) as PB.
  assert (HA : forall k, frames (ins (take k (course_alice sid sid akeys bkeys params a b va))) `prefix_of` outbound tB' ->
    frames (outs (take k (course_alice sid sid akeys bkeys params a b va))) `prefix_of` outbound tA').
  { intros k Hk. rewrite <- Ia in Hk.
    pose proof (plays_progress _ _ _ _ PA _ _ _ _ _ _ (eq_sym (take_drop k _)) EoA EiA Wa Hk Ra) as H. by rewrite Oa in H. }
  assert (HB : forall k, frames (ins (take k (course_bob sid akeys bkeys params a b vb))) `prefix_of` outbound tA' ->
    frames (outs (take k (course_bob sid akeys bkeys params a b vb))) `prefix_of` outbound tB').
  { intros k Hk. rewrite <- Ib in Hk.
    pose proof (plays_progress _ _ _ _ PB _ _ _ _ _ _ (eq_sym (take_drop k _)) EoB EiB Wb Hk Rb) as H. by rewrite Ob in H. }
  unfold course_alice in HA, EiA, EoA, PA. unfold course_bob in HB, EiB, EoB, PB.
  rewrite bool_decide_true, Ht, Hva in HA, EiA, EoA, PA by done. rewrite Hvb in HB, EiB, EoB, PB. cbn [andb app] in *.
  pose proof (HB 1%nat (prefix_nil _)) as B1. pose proof (HA 2%nat B1) as A1. pose proof (HB 4%nat A1) as B2.
  pose proof (HA 6%nat B2) as A2. pose proof (HB 6%nat ltac:(etrans; [|exact A2]; cbn; rewrite app_nil_r, app_assoc; by apply prefix_app_r)) as B3.
  assert (UA : outbound tA' `prefix_of` frames (script_alice akeys params a)) by (eapply alice_writes; [exact Ha|exact Oa|exact Ra]).
  assert (UB : outbound tB' `prefix_of` frames (script_bob sid bkeys b)) by (eapply bob_writes; [exact Hb|exact Ob|exact Rb]).
  assert (FA : outbound tA' = frames (script_alice akeys params a)) by (apply (anti_symm prefix); [exact UA|exact A2]).
  assert (FB : outbound tB' = frames (script_bob sid bkeys b)) by (apply (anti_symm prefix); [exact UB|exact B3]).
  split.
  - pose proof (plays_complete _ _ _ _ PA eq_refl tA EoA EiA ltac:(by rewrite Ia, FB) Wa) as H. rewrite run_alice_prog in Ra. by rewrite Ra in H.
  - pose proof (plays_complete _ _ _ _ PB eq_refl tB EoB EiB ltac:(by rewrite Ib, FA) Wb) as H. rewrite run_bob_prog in Rb. by rewrite Rb in H.
Qed.

(** Bob's driver accepts whatever parameters Alice proposes: with unsafe timeouts, which
    neither her own session nor [negotiate] would let pass, he still reports a completed
    negotiation that holds them. *)
Theorem bob_accepts_unsafe_timeouts sid akeys bkeys params a b vb t :
  Forall encodable (script_alice akeys params a) -> Forall encodable (script_bob sid bkeys b) ->
  vb a = true -> outbound t = [] -> writable t = None -> inbound t = frames (script_alice akeys params a) ->
  is_timeout_safe params = false ->
  exists t' s', run_bob to_vec from_slice bkeys b vb (t, new_bob sid) = ((t', s'), Ok tt)
    /\ phase s' = PhaseNegotiated /\ hs_parameters s' = Some params /\ is_ok (negotiate sid Bob params) = false.
Proof.
  intros Ha Hb Hv Ho Hw Hin Hsafe. pose proof (bob_plays sid akeys bkeys params a b vb) as PB.
  destruct (enc_courses sid sid akeys bkeys params a b vb vb Ha Hb) as (_ & _ & Ei & Eo).
  unfold course_bob in *. rewrite Hv in *. cbn [app] in *. rewrite run_bob_prog.
  pose proof (plays_complete _ _ _ _ PB eq_refl t Eo Ei Hin Hw) as Hr.
  destruct (interp (prog_bob bkeys b vb) (t, new_bob sid)) as [[t' s'] r] eqn:E. cbn in Hr. subst r. exists t', s'. split; [done|].
  destruct (plays_trace [] _ _ _ _ PB t t' s' (Ok tt) Eo Ei ltac:(by rewrite app_nil_r, Hin) E) as (evs & _ & Hafter & _ & _ & Hok).
  destruct (Hok eq_refl) as (-> & _). follow Hafter. unfold negotiate. by rewrite Hsafe.
Qed.
End Streams.

(** ** Runs on concrete inputs *)

Definition params_tuple (p : SwapParameters) :=
  (cync_amount p, btc_amount_sats p, cync_timeout_blocks p, btc_timeout_blocks p, alice_cync_address p, bob_btc_address p, cync_network p, btc_network p).
Definition tuple_params x : SwapParameters := let '(a, b, c, d, e, f, g, h) := x in mkParameters a b c d e f g h.

Definition message_tuple (m : Message) : nat * list (list Z) * list string * option (Z * Z * Z * Z * string * string * string * string) :=
  match m with
  | Hello sid a b => (0%nat, [a; b], [sid], None)
  | HelloAck a b p => (1%nat, [a; b], [], Some (params_tuple p))
  | Accept => (2%nat, [], [], None)
  | AdaptorMaterial b => (3%nat, [btc_adaptor b; cync_adaptor b; dl_proof b; refund_tx b], [], None)
  | Ready => (4%nat, [], [], None)
  | AbortMsg r => (5%nat, [], [r], None)
  end.
Definition tuple_message (x : nat * list (list Z) * list string * option (Z * Z * Z * Z * string * string * string * string)) : option Message :=
  match x with
  | (0%nat, [a; b], [sid], None) => Some (Hello sid a b)
  | (1%nat, [a; b], [], Some p) => Some (HelloAck a b (tuple_params p))
  | (2%nat, [], [], None) => Some Accept
  | (3%nat, [a; b; c; d], [], None) => Some (AdaptorMaterial (mkBundle a b c d))
  | (4%nat, [], [], None) => Some Ready
  | (5%nat, [], [r], None) => Some (AbortMsg r)
  | _ => None
  end.

(** A concrete codec: a message is the number that encodes it. *)
Definition sample_to_vec (m : Message) : option (list Z) := Some [Z.pos (encode (message_tuple m))].
Definition sample_from_slice (l : list Z) : option Message :=
  match l with [Z.pos x] => decode x ≫= tuple_message | _ => None end.

Lemma sample_message_codec m b : sample_to_vec m = Some b -> sample_from_slice b = Some m.
Proof.
  unfold sample_to_vec. intros [= <-]. cbn [sample_from_slice]. rewrite decode_encode. cbn [mbind option_bind].
  destruct m as [| ? ? []| |[]| |]; reflexivity.
Qed.

Lemma sample_encodable l : Forall (encodable sample_to_vec) l.
Proof. induction l; constructor; [|done]. eexists. split; [reflexivity|]. cbn. unfold MAX_FRAME_BYTES. lia. Qed.

Definition safe_params : SwapParameters := mkParameters 100 50 1000 100 "alice" "bob" "testnet" "signet".
Definition unsafe_params : SwapParameters := mkParameters 100 50 100 1000 "alice" "bob" "testnet" "signet".
Definition sample_bundle (x : Z) : AdaptorBundle := mkBundle [x] [x; x] [] [x].
Definition alice_says (p : SwapParameters) : list Z := frames sample_to_vec (script_alice ([1], [2]) p (sample_bundle 7)).
Definition bob_says : list Z := frames sample_to_vec (script_bob "swap" ([3], [4]) (sample_bundle 8)).
Definition accepts (x : Z) (b : AdaptorBundle) : bool := bool_decide (btc_adaptor b = [x]).

Definition alice_run := run_alice sample_to_vec sample_from_slice ([1], [2]) safe_params (sample_bundle 7) (accepts 8)
  (mkTransport bob_says [] None, new_alice "swap").
Definition bob_run := run_bob sample_to_vec sample_from_slice ([3], [4]) (sample_bundle 8) (accepts 7)
  (mkTransport (alice_says safe_params) [] None, new_bob "swap").

Lemma runs_connect : outbound (fst (fst alice_run)) = alice_says safe_params /\ outbound (fst (fst bob_run)) = bob_says /\ snd alice_run = Ok tt.
Proof. split_and!; vm_compute; reflexivity. Qed.

Lemma handshake_agreement_witness : agreed safe_params (snd (fst alice_run)) ([3], [4]) /\ agreed safe_params (snd (fst bob_run)) ([1], [2]).
Proof.
  destruct runs_connect as (Ha & Hb & Hr).
  destruct alice_run as [[tA sA] rA] eqn:EA, bob_run as [[tB sB] rB] eqn:EB. cbn [fst snd] in *.
  destruct (handshake_agreement sample_to_vec sample_from_slice sample_message_codec "swap" "swap" ([1], [2]) ([3], [4]) safe_params
    (sample_bundle 7) (sample_bundle 8) (accepts 8) (accepts 7) (mkTransport bob_says [] None) (mkTransport (alice_says safe_params) [] None)
    tA tB sA sB rA rB (sample_encodable _) (sample_encodable _) eq_refl eq_refl EA EB) as (_ & _ & _ & _ & H1 & H2 & _).
  - by rewrite Hb.
  - by rewrite Ha.
  - by left.
  - by split.
Defined.

Lemma handshake_completes_witness : snd alice_run = Ok tt /\ snd bob_run = Ok tt.
Proof.
  destruct runs_connect as (Ha & Hb & _).
  destruct alice_run as [[tA sA] rA] eqn:EA, bob_run as [[tB sB] rB] eqn:EB. cbn [fst snd] in *.
  apply (handshake_completes sample_to_vec sample_from_slice sample_message_codec "swap" ([1], [2]) ([3], [4]) safe_params
    (sample_bundle 7) (sample_bundle 8) (accepts 8) (accepts 7) (mkTransport bob_says [] None) (mkTransport (alice_says safe_params) [] None)
    tA tB sA sB rA rB (sample_encodable _) (sample_encodable _) eq_refl eq_refl eq_refl eq_refl eq_refl eq_refl eq_refl EA EB).
  - by rewrite Hb.
  - by rewrite Ha.
Defined.

Lemma bob_accepts_unsafe_timeouts_witness : exists t' s',
  run_bob sample_to_vec sample_from_slice ([3], [4]) (sample_bundle 8) (accepts 7) (mkTransport (alice_says unsafe_params) [] None, new_bob "swap")
  = ((t', s'), Ok tt) /\ hs_parameters s' = Some unsafe_params.
Proof.
  destruct (bob_accepts_unsafe_timeouts sample_to_vec sample_from_slice sample_message_codec "swap" ([1], [2]) ([3], [4]) unsafe_params
    (sample_bundle 7) (sample_bundle 8) (accepts 7) (mkTransport (alice_says unsafe_params) [] None) (sample_encodable _) (sample_encodable _)
    eq_refl eq_refl eq_refl eq_refl eq_refl) as (t' & s' & H1 & _ & H2 & _).
  exists t', s'. split; [exact H1|exact H2].
Defined.

End SwapHandshake.
