(* ===== verification/Node.v ===== *)
(** * The node's chain (src/src/chain.rs, src/src/chain/apply.rs, recovery.rs, queries.rs, src/src/db)

    [Blockchain] with its in-memory state and its database: how a block is added at the
    tip, stored on a side branch or adopted with its branch in a reorganisation (the
    disconnection of the old branch, the validation and connection of the new one, the two
    ways back when a block of it is refused, the commit), how the chain is rolled back, and
    how the state is loaded from the database at a restart.

    The modelled node has a database and no Phase-2 store attached: the fields
    [spark_store], [shielded_store] and [kernel_store] are [None], as [Blockchain]'s
    constructors leave them, so that the shielded double-spend gate and the checkpoint, apply
    and rewind calls of [add_block] do nothing (src/src/bin/node.rs attaches the stores;
    what they do is modelled in [Phase2] and [Spark]).  The rolling-finality adapter is
    absent, and the events and logs are left out.  The
    calls of the database return without an error.  A panic is [None].  The on-disk output
    index is one tree, which the node reaches through the [db] field of its output set. *)

From stdpp Require Import gmap list sorting.
From S2P Require Import Prelude Constants Types Emission Difficulty Ledger Utxo ForkCalc ForkChoice TxValidation BlockValidation ActiveChain Miner.

Module Node.
Import Types BlockValidation.
Abbreviation UtxoSet := Utxo.UtxoSet (only parsing).
Abbreviation NetworkType := Ledger.NetworkType (only parsing).

(** ** Data *)

Record ChainTip := mkTip { tip_hash : Z; tip_height : Z; tip_difficulty : Z; tip_timestamp : Z }.

Record Inner := mkInner {
  blocks : gmap Z Block;
  height_to_hash : gmap Z Z;
  tip : ChainTip;
  stats : Ledger.ChainStats;
  genesis_hash : option Z;
  utxos : UtxoSet }.

Record ChainStateData := mkState {
  s_tip_hash : Z;
  s_height : Z;
  s_total_difficulty : Z;
  s_total_supply : Z;
  s_total_burned : Z;
  last_checkpoint : Z }.

Record Database := mkDb {
  db_blocks : gmap Z Block;
  height_index : gmap Z Z;
  tx_index : gmap Z (Z * Z);
  chain_state : option ChainStateData;
  checkpoints : gmap Z Z;
  db_network : option NetworkType }.

Record Blockchain := mkChain { inner : Inner; database : option Database }.

Inductive Reason :=
| BadHeight
| CheckpointMismatch
| TimestampNotAfterMedian
| TargetMismatch
| Rejected (errors : list BlockError)
| SupplyCommitmentMismatch
| ForkBlockRejected (errors : list BlockError)
| ForkBlockTarget
| ForkBlockCommitment
| TipRejected (errors : list BlockError)
| TipCommitment
| TipTarget.

Inductive BlockStatus :=
| Accepted
| AcceptedFork
| AcceptedReorg (orphaned_txs : list Transaction)
| AlreadyKnown
| Orphan
| Invalid (why : Reason).

#[export] Instance NetworkType_eq_dec : EqDecision Ledger.NetworkType.
Proof. solve_decision. Defined.

Definition MAX_BLOCK_CACHE : nat := 500.
Definition MTP_WINDOW : nat := 11.

Definition MAINNET_GENESIS_HASH : Z :=
  0xc9eb73ab1ed2d9e40042a962990bba98114bc509b330bcda022b9ec8fe07635c.
Definition TESTNET_GENESIS_HASH : Z :=
  0xd2240feaa1f5aa29f25f4c9f3b6948368a9a3607443d637660637d28a00d82da.
Definition BETA_GENESIS_HASH : Z :=
  0x6b6318927ac699a0431b9c0cad667fe6291980730c692f999344c155cbe71976.

Definition expected_genesis_hash (n : NetworkType) : Z :=
  match n with
  | Ledger.Testnet | Ledger.Regtest => TESTNET_GENESIS_HASH
  | Ledger.Beta => BETA_GENESIS_HASH
  | Ledger.Mainnet => MAINNET_GENESIS_HASH
  end.

(** Mainnet's only checkpoint is its genesis; the testnet list, which is empty, also serves
    the regtest and beta networks. *)
Definition verify_checkpoint (n : NetworkType) (height hash : Z) : option bool :=
  match n with
  | Ledger.Mainnet => if height =? 0 then Some (hash =? MAINNET_GENESIS_HASH) else None
  | Ledger.Testnet | Ledger.Regtest | Ledger.Beta =>
      if height =? 0 then Some (hash =? TESTNET_GENESIS_HASH) else None
  end.

Definition supply_commitment_enforce_height (n : NetworkType) : Z :=
  match n with
  | Ledger.Mainnet => u64_max
  | Ledger.Testnet | Ledger.Regtest | Ledger.Beta => u64_max
  end.

(** [for x in l], with a body that may panic. *)
Fixpoint for_each {A S} (f : S -> A -> option S) (l : list A) (s : S) : option S :=
  match l with
  | [] => Some s
  | a :: l => s' ← f s a; for_each f l s'
  end.

(** [(a + 1..=b).rev()] *)
Definition heights_down (a b : Z) : list Z := map (fun i => b - Z.of_nat i) (seq 0 (Z.to_nat (b - a))).

(** ** Updates *)

Definition with_blocks (i : Inner) (m : gmap Z Block) : Inner :=
  mkInner m (height_to_hash i) (tip i) (stats i) (genesis_hash i) (utxos i).
Definition with_heights (i : Inner) (m : gmap Z Z) : Inner :=
  mkInner (blocks i) m (tip i) (stats i) (genesis_hash i) (utxos i).
Definition with_tip (i : Inner) (t : ChainTip) : Inner :=
  mkInner (blocks i) (height_to_hash i) t (stats i) (genesis_hash i) (utxos i).
Definition with_stats (i : Inner) (s : Ledger.ChainStats) : Inner :=
  mkInner (blocks i) (height_to_hash i) (tip i) s (genesis_hash i) (utxos i).
Definition with_utxos (i : Inner) (u : UtxoSet) : Inner :=
  mkInner (blocks i) (height_to_hash i) (tip i) (stats i) (genesis_hash i) u.

(** The totals that move with every block that is connected or disconnected. *)
Definition with_supply (s : Ledger.ChainStats) (supply burned : Z) : Ledger.ChainStats :=
  Ledger.mkStats (Ledger.height s) (Ledger.total_blocks s) (Ledger.total_transactions s) supply burned
    (Ledger.difficulty s) (Ledger.tip_hash s) (Ledger.total_difficulty s).

Definition with_disk (u : UtxoSet) (d : gmap Z Utxo.OutputIndexEntry) : UtxoSet :=
  Utxo.mkUtxoSet (Utxo.outputs u) (Utxo.key_images u) (Utxo.height_index u) (Utxo.locator_index u)
    (Utxo.locator_outputs u) (Utxo.stealth_index u) (Utxo.output_index u)
    (match Utxo.db u with Some _ => Some d | None => None end)
    (Utxo.total_outputs_ever u) (Utxo.reorg_disconnects_total u).

Definition disk (u : UtxoSet) : gmap Z Utxo.OutputIndexEntry := default ∅ (Utxo.db u).

Section Chain.
(** The network, the world the validator runs in, and the commitment to the supply that a
    header carries (SHA3). *)
Context (n : NetworkType) (E : Env) (supply_commitment_of : Z -> Z -> Z -> list Z).

Abbreviation hash := (block_hash (blake3 E)) (only parsing).

(** The same world at another time. *)
Definition at_time (clock : Z * Z) : Env :=
  mkEnv (blake3 E) (tx_hash E) (crypto E) (verify_pow E) (fst clock) (is_overridden E) (snd clock)
    (consensus_checkpoints E) (allow_checkpoint_crypto_skip E).

(** ** What the other components see of a block *)

Definition utxo_txs (b : Block) : list Utxo.Transaction :=
  map (ActiveChain.utxo_tx (tx_hash E)) (transactions b).

Definition ledger_block (b : Block) : Ledger.Block :=
  Ledger.mkBlock (hash b) (block_height b) (be_bytes 32 (target (header b)))
    (map (fun t => Ledger.mkTx (is_coinbase t) (fee t)) (transactions b))
    (block_size (TxValidation.tx_size (crypto E)) b).

Definition fork_block (b : Block) : ForkCalc.Block :=
  ForkCalc.mkBlock (block_height b) (prev_hash (header b)) (timestamp (header b))
    (be_bytes 32 (target (header b))).

Definition store (m : gmap Z Block) (hs : gmap Z Z) : ForkCalc.Store := ForkCalc.mkStore (fork_block <$> m) hs.

Definition fork_view (c : Blockchain) : ForkCalc.Blockchain :=
  ForkCalc.mkChain (store (blocks (inner c)) (height_to_hash (inner c)))
    ((fun d => store (db_blocks d) (height_index d)) <$> database c).

Definition work (b : Block) : Z := Difficulty.calculate_difficulty_from_target (be_bytes 32 (target (header b))).

Definition fee_burn (b : Block) : Z := Ledger.block_fee_burn n (ledger_block b).

(** ** Queries *)

Definition get_block (c : Blockchain) (x : Z) : option Block :=
  match blocks (inner c) !! x with
  | Some b => Some b
  | None => d ← database c; db_blocks d !! x
  end.

Definition get_block_hash (c : Blockchain) (h : Z) : option Z :=
  match height_to_hash (inner c) !! h with
  | Some x => Some x
  | None => d ← database c; height_index d !! h
  end.

Definition get_block_by_height (c : Blockchain) (h : Z) : option Block :=
  x ← get_block_hash c h; get_block c x.

Fixpoint lineage_timestamps (c : Blockchain) (k : nat) (cursor : Z) : list Z :=
  match k with
  | O => []
  | S k =>
      match get_block c cursor with
      | Some b => timestamp (header b) :: lineage_timestamps c k (prev_hash (header b))
      | None => []
      end
  end.

Definition median_time_past_of_lineage (c : Blockchain) (prev : Z) : option Z :=
  let timestamps := lineage_timestamps c MTP_WINDOW prev in
  if (MTP_WINDOW <=? length timestamps)%nat
  then merge_sort Z.le timestamps !! (length timestamps / 2)%nat
  else None.

Definition get_difficulty_blocks (c : Blockchain) (up_to_height : Z) : list Difficulty.DifficultyBlock :=
  let start := saturating_sub up_to_height 144 in
  omap (fun i => ForkCalc.main_chain_diff_block (fork_view c) (start + Z.of_nat i))
    (seq 0 (Z.to_nat (up_to_height - start))).

Definition expected_next_target (window : list Difficulty.DifficultyBlock) (height : Z) : option (list Z) :=
  let parent := match list.last window with Some b => Difficulty.target b | None => Difficulty.max_target end in
  match n with
  | Ledger.Regtest | Ledger.Beta =>
      let parent_diff := Difficulty.target_to_difficulty parent in
      if parent_diff <=? Difficulty.MIN_DIFFICULTY then Some parent
      else
        let next_diff := Z.min (Z.max (parent_diff / 3) Difficulty.MIN_DIFFICULTY) u64_max in
        Some (be_bytes 32 (Miner.from_difficulty next_diff))
  | Ledger.Mainnet | Ledger.Testnet =>
      if (2 <=? length window)%nat then Difficulty.calculate_difficulty window height else Some parent
  end.

(** The test that the four sites make of a block against its difficulty window. *)
Definition target_ok (window : list Difficulty.DifficultyBlock) (b : Block) : option bool :=
  if (2 <=? length window)%nat then
    expected ← expected_next_target window (block_height b);
    Some (bool_decide (be_bytes 32 (target (header b)) = expected))
  else Some true.

Definition commitment_ok (s : Ledger.ChainStats) (b : Block) : bool :=
  let post_emitted := saturating_add u128_max (Ledger.total_supply s) (Curve.calculate_block_reward (block_height b)) in
  let post_burned := saturating_add u128_max (Ledger.total_burned s) (fee_burn b) in
  Ledger.check_supply_commitment supply_commitment_of (supply_commitment_enforce_height n) (block_height b)
    (be_bytes 32 (supply_commitment (header b))) post_emitted post_burned.

(** ** The in-memory cache *)

Definition evict_step (tip_height : Z) (to_evict : nat) (st : gmap Z Block * gmap Z Z * nat) (e : Z * Z)
  : gmap Z Block * gmap Z Z * nat :=
  let '(bs, hs, evicted) := st in
  let '(height, x) := e in
  if (to_evict <=? evicted)%nat then st
  else if height =? 0 then st
  else if tip_height <=? wrap u64_max (height + 200) then st
  else (delete x bs, delete height hs, S evicted).

Definition by_height (a b : Z * Z) : Prop := fst a <= fst b.
#[local] Instance by_height_dec : RelDecision by_height.
Proof. intros a b. apply Z_le_dec. Defined.

Definition evict_block_cache (i : Inner) : Inner :=
  if (size (blocks i) <=? MAX_BLOCK_CACHE)%nat then i
  else
    let entries := merge_sort by_height (map_to_list (height_to_hash i)) in
    let to_evict := (size (blocks i) - MAX_BLOCK_CACHE)%nat in
    let '(bs, hs, _) := fold_left (evict_step (tip_height (tip i)) to_evict) entries
                          (blocks i, height_to_hash i, O) in
    with_heights (with_blocks i bs) hs.

(** ** The database *)

Definition index_entry (h : Z) (t : Transaction) (o : TxOutput) : Utxo.OutputIndexEntry :=
  Utxo.mkIndexEntry (commitment o) h (is_coinbase t) (lock_height o).

(** The rows that a block adds to the output index. *)
Definition index_rows (h : Z) (txs : list Transaction) : list (Z * Utxo.OutputIndexEntry) :=
  flat_map (fun t => map (fun o => (stealth_address o, index_entry h t o)) (outputs t)) txs.

Definition tx_rows (h : Z) (txs : list Transaction) : list (Z * (Z * Z)) :=
  imap (fun i t => (tx_hash E t, (h, wrap u32_max (Z.of_nat i)))) txs.

Definition insert_rows {A} (rows : list (Z * A)) (m : gmap Z A) : gmap Z A :=
  fold_left (fun m r => <[fst r := snd r]> m) rows m.

(** Insert unless there is a row already. *)
Definition insert_new_rows {A} (rows : list (Z * A)) (m : gmap Z A) : gmap Z A :=
  fold_left (fun m r => Utxo.or_insert m (fst r) (snd r)) rows m.

Definition remove_rows {A} (keys : list Z) (m : gmap Z A) : gmap Z A := fold_left (fun m k => delete k m) keys m.

Definition persist_output_index (h : Z) (txs : list Transaction) (u : UtxoSet) : UtxoSet :=
  with_disk u (insert_new_rows (index_rows h txs) (disk u)).

Definition set_chain_state (d : Database) (s : ChainStateData) : Database :=
  mkDb (db_blocks d) (height_index d) (tx_index d) (Some s) (checkpoints d) (db_network d).

Definition insert_body (d : Database) (b : Block) : Database :=
  mkDb (<[hash b := b]> (db_blocks d)) (height_index d) (tx_index d) (chain_state d) (checkpoints d) (db_network d).

Definition add_checkpoint (d : Database) (h x : Z) : Database :=
  mkDb (db_blocks d) (height_index d) (tx_index d) (chain_state d) (<[h := x]> (checkpoints d)) (db_network d).

Definition stored_checkpoint (d : Database) : Z :=
  match chain_state d with Some s => last_checkpoint s | None => 0 end.

(** The rows are chosen against the committed index and then written. *)
Definition commit_block_atomic (additions : list (Z * Utxo.OutputIndexEntry)) (height_set : Z * Z)
    (tx_adds : list (Z * (Z * Z))) (s : ChainStateData) (du : Database * UtxoSet) : Database * UtxoSet :=
  let '(d, u) := du in
  let committed := disk u in
  let to_insert := List.filter (fun r => bool_decide (committed !! fst r = None)) additions in
  (mkDb (db_blocks d) (<[fst height_set := snd height_set]> (height_index d)) (insert_rows tx_adds (tx_index d))
     (Some s) (checkpoints d) (db_network d),
   with_disk u (insert_rows to_insert committed)).

Definition apply_reorg_atomic (removals : list Z) (additions : list (Z * Utxo.OutputIndexEntry))
    (height_sets : list (Z * Z)) (height_removals : list Z) (s : ChainStateData)
    (tx_adds : list (Z * (Z * Z))) (tx_removes : list Z) (du : Database * UtxoSet) : Database * UtxoSet :=
  let '(d, u) := du in
  let committed := disk u in
  let to_insert := List.filter (fun r => bool_decide (fst r ∈ removals) || bool_decide (committed !! fst r = None))
                     additions in
  (mkDb (db_blocks d) (remove_rows height_removals (insert_rows height_sets (height_index d)))
     (insert_rows tx_adds (remove_rows tx_removes (tx_index d))) (Some s) (checkpoints d) (db_network d),
   with_disk u (insert_rows to_insert (remove_rows removals committed))).

(** ** A block at the tip *)

Inductive IncomingClass := Known | NoParent | Proceed (parent : option Block).

Definition classify_incoming (c : Blockchain) (b : Block) : IncomingClass :=
  let x := hash b in
  if bool_decide (is_Some (blocks (inner c) !! x)) then Known
  else if match database c with Some d => bool_decide (is_Some (db_blocks d !! x)) | None => false end then Known
  else
    match get_block c (prev_hash (header b)) with
    | Some p => Proceed (Some p)
    | None => if 0 <? block_height b then NoParent else Proceed None
    end.

(** The checks of [add_block] before anything is stored; [Some None] lets the block pass. *)
Definition pre_checks (clock : Z * Z) (c : Blockchain) (b : Block) (parent : option Block) (is_main_chain : bool)
  : option (option Reason) :=
  let expected_height :=
    if block_height b =? 0 then 0
    else match parent with Some p => wrap u64_max (block_height p + 1) | None => 0 end in
  if negb (block_height b =? expected_height) then Some (Some BadHeight)
  else if bool_decide (verify_checkpoint n (block_height b) (hash b) = Some false) then Some (Some CheckpointMismatch)
  else if (Z.of_nat MTP_WINDOW <=? block_height b)
          && match median_time_past_of_lineage c (prev_hash (header b)) with
             | Some mtp => timestamp (header b) <=? mtp
             | None => false
             end
  then Some (Some TimestampNotAfterMedian)
  else
    let window := if is_main_chain then get_difficulty_blocks c (block_height b)
                  else ForkCalc.fork_difficulty_window (fork_view c) (prev_hash (header b)) (block_height b) in
    on_target ← (if 1 <=? block_height b then target_ok window b else Some true);
    if negb on_target then Some (Some TargetMismatch)
    else
      let cp := match database c with
                | Some d => if 0 <? stored_checkpoint d then Some (stored_checkpoint d) else None
                | None => None
                end in
      let validation := validate_block_ctx (at_time clock) b parent (utxos (inner c)) cp n is_main_chain in
      if negb (valid validation) then Some (Some (Rejected (errors validation)))
      else if is_main_chain && negb (commitment_ok (stats (inner c)) b) then Some (Some SupplyCommitmentMismatch)
      else Some None.

Definition store_block (c : Blockchain) (b : Block) : Blockchain :=
  mkChain (with_blocks (inner c) (<[hash b := b]> (blocks (inner c))))
    ((fun d => insert_body d b) <$> database c).

Definition tip_of (b : Block) : ChainTip := mkTip (hash b) (block_height b) (work b) (timestamp (header b)).

(** What [add_block] writes under the lock when the block extends the tip. *)
Definition extend_tip (i : Inner) (b : Block) : option Inner :=
  s ← Ledger.connect_stats n (stats i) (ledger_block b);
  let u := Utxo.connect (utxos i) (block_height b) (utxo_txs b) in
  let u := Utxo.evict_old_outputs u (block_height b) 1000 in
  Some (evict_block_cache
          (mkInner (blocks i) (<[block_height b := hash b]> (height_to_hash i)) (tip_of b) s (genesis_hash i) u)).

Definition persist_block (s : Ledger.ChainStats) (b : Block) (du : Database * UtxoSet) : Database * UtxoSet :=
  let '(d, u) := du in
  let at_interval := (0 <? block_height b) && (block_height b mod ForkChoice.CHECKPOINT_INTERVAL =? 0) in
  let last_checkpoint := if at_interval then block_height b else stored_checkpoint d in
  let d := if at_interval then add_checkpoint d (block_height b) (hash b) else d in
  commit_block_atomic (index_rows (block_height b) (transactions b)) (block_height b, hash b)
    (tx_rows (block_height b) (transactions b))
    (mkState (hash b) (block_height b) (Ledger.total_difficulty s) (Ledger.total_supply s)
       (wrap u64_max (Ledger.total_burned s)) last_checkpoint) (d, u).

(** ** A reorganisation *)

(** The bodies above the fork point on the lineage of [tip], as [collect_fork_chain] pushes
    them. *)
Definition collect_step (c : Blockchain) (fork_point : Z) (st : gset Z * Z * list Block)
  : (gset Z * Z * list Block) + list Block :=
  let '(visited, current_hash, chain) := st in
  if decide (current_hash ∈ visited) then inr chain
  else
    let visited := {[current_hash]} ∪ visited in
    match get_block c current_hash with
    | Some b =>
        if block_height b <=? fork_point then inr chain
        else inl (visited, prev_hash (header b), chain ++ [b])
    | None => inr chain
    end.

Definition collect_fork_chain (c : Blockchain) (fork_tip : Block) (fork_point : Z) : list Block :=
  match iter (collect_step c fork_point) (S (S (ForkCalc.store_size (fork_view c))))
          (∅, prev_hash (header fork_tip), []) with
  | Some chain => rev chain
  | None => []
  end.

(** The state of the disconnection: the heights it unmapped and the transactions of the
    blocks it disconnected, in the order of the loop. *)
Record Disconnected := mkDisconnected {
  d_inner : Inner;
  d_heights : list (Z * Z);
  d_txs : list (list Transaction) }.

(** The emission and the burned fees of a disconnected block leave the totals. *)
Definition subtract_block (s : Ledger.ChainStats) (h : Z) (b : Block) : option Ledger.ChainStats :=
  supply ← checked_sub (Ledger.total_supply s) (Curve.calculate_block_reward h);
  burned ← checked_sub (Ledger.total_burned s) (fee_burn b);
  Some (with_supply s supply burned).

Definition add_to_totals (s : Ledger.ChainStats) (b : Block) : option Ledger.ChainStats :=
  supply ← checked_add u128_max (Ledger.total_supply s) (Curve.calculate_block_reward (block_height b));
  burned ← checked_add u128_max (Ledger.total_burned s) (fee_burn b);
  Some (with_supply s supply burned).

Definition disconnect_step (st : Disconnected) (h : Z) : option Disconnected :=
  let i := d_inner st in
  match height_to_hash i !! h with
  | None => Some st
  | Some oh =>
      match blocks i !! oh with
      | Some b =>
          s ← subtract_block (stats i) h b;
          let i := with_utxos (with_stats i s) (Utxo.disconnect (utxos i) (utxo_txs b)) in
          Some (mkDisconnected (with_heights i (delete h (height_to_hash i))) (d_heights st ++ [(h, oh)])
                  (d_txs st ++ [transactions b]))
      | None =>
          Some (mkDisconnected (with_heights i (delete h (height_to_hash i))) (d_heights st ++ [(h, oh)]) (d_txs st))
      end
  end.

Definition disconnect_main (i : Inner) (fork_point : Z) : option Disconnected :=
  for_each disconnect_step (heights_down fork_point (tip_height (tip i))) (mkDisconnected i [] []).

(** The difficulty window of a block of the branch: the main chain up to the fork point, then
    the first [k] blocks of the branch. *)
Definition reorg_window (c : Blockchain) (i : Inner) (fork_point : Z) (branch : list Block) (k : nat) (height : Z)
  : list Difficulty.DifficultyBlock :=
  let start := saturating_sub height 144 in
  omap (fun j =>
    let h := start + Z.of_nat j in
    if h <=? fork_point then
      b ← match database c with
          | Some d => x ← height_index d !! h; db_blocks d !! x
          | None => x ← height_to_hash i !! h; blocks i !! x
          end;
      Some (Difficulty.mkBlock h (timestamp (header b)) (be_bytes 32 (target (header b))))
    else
      let offset := Z.to_nat (h - fork_point - 1) in
      if (offset <? k)%nat then
        b ← branch !! offset;
        Some (Difficulty.mkBlock (block_height b) (timestamp (header b)) (be_bytes 32 (target (header b))))
      else None) (seq 0 (Z.to_nat (height - start))).

(** The checks of a block of the branch against the state below it; only the cache is asked
    for its parent. *)
Definition check_fork_block (clock : Z * Z) (c : Blockchain) (i : Inner) (fork_point : Z) (branch : list Block)
    (k : nat) (b : Block) : option (option Reason) :=
  let parent := blocks i !! prev_hash (header b) in
  let validation := validate_block_with_checkpoint_for_network (at_time clock) b parent (utxos i) None n in
  if negb (valid validation) then Some (Some (ForkBlockRejected (errors validation)))
  else
    on_target ← (if 1 <=? block_height b then target_ok (reorg_window c i fork_point branch k (block_height b)) b
                 else Some true);
    if negb on_target then Some (Some ForkBlockTarget)
    else if negb (commitment_ok (stats i) b) then Some (Some ForkBlockCommitment)
    else Some None.

(** The outputs, the spent images and the totals of a block that a reorganisation connects. *)
Definition connect_block (i : Inner) (b : Block) : option Inner :=
  s ← add_to_totals (stats i) b;
  Some (with_utxos (with_stats i s) (Utxo.connect (utxos i) (block_height b) (utxo_txs b))).

Definition connect_fork_block (i : Inner) (b : Block) : option Inner :=
  connect_block (with_heights i (<[block_height b := hash b]> (height_to_hash i))) b.

(** The loop over the branch, which stops at the first block that is refused. *)
Fixpoint connect_branch (clock : Z * Z) (c : Blockchain) (fork_point : Z) (branch : list Block) (k : nat)
    (todo : list Block) (i : Inner) : option (Inner * option Reason) :=
  match todo with
  | [] => Some (i, None)
  | b :: todo =>
      verdict ← check_fork_block clock c i fork_point branch k b;
      match verdict with
      | Some why => Some (i, Some why)
      | None => i' ← connect_fork_block i b; connect_branch clock c fork_point branch (S k) todo i'
      end
  end.

Definition check_tip (clock : Z * Z) (i : Inner) (b : Block) : option Reason :=
  let parent := blocks i !! prev_hash (header b) in
  let validation := validate_block_with_checkpoint_for_network (at_time clock) b parent (utxos i) None n in
  if negb (valid validation) then Some (TipRejected (errors validation))
  else if negb (commitment_ok (stats i) b) then Some TipCommitment
  else None.

Definition disconnect_fork_block (i : Inner) (b : Block) : option Inner :=
  s ← subtract_block (stats i) (block_height b) b;
  Some (with_utxos (with_stats i s) (Utxo.disconnect (utxos i) (utxo_txs b))).

(** Path A undoes the blocks of the branch that are mapped. *)
Definition undo_mapped (i : Inner) (b : Block) : option Inner :=
  if bool_decide (height_to_hash i !! block_height b = Some (hash b)) then disconnect_fork_block i b else Some i.

(** The blocks of the old branch come back, lowest first. *)
Definition reconnect_step (i : Inner) (e : Z * Z) : Inner :=
  let '(h, oh) := e in
  let i := with_heights i (<[h := oh]> (height_to_hash i)) in
  match blocks i !! oh with
  | Some b =>
      with_utxos i (persist_output_index h (transactions b) (Utxo.connect (utxos i) h (utxo_txs b)))
  | None => i
  end.

Definition restore_main (i : Inner) (fork_point removal_top : Z) (heights : list (Z * Z)) (pre_tip : ChainTip)
    (pre_stats : Ledger.ChainStats) : Inner :=
  let i := with_heights i (remove_rows (heights_down fork_point removal_top) (height_to_hash i)) in
  let i := fold_left reconnect_step (rev heights) i in
  with_stats (with_tip i pre_tip) pre_stats.

Definition rollback_a (i : Inner) (fork_point : Z) (branch : list Block) (heights : list (Z * Z))
    (pre_tip : ChainTip) (pre_stats : Ledger.ChainStats) : option Inner :=
  i' ← for_each undo_mapped (rev branch) i;
  let highest_fork_height :=
    match branch with [] => tip_height pre_tip | b :: bs => fold_left Z.max (map block_height bs) (block_height b) end in
  Some (restore_main i' fork_point (Z.max (tip_height pre_tip) highest_fork_height) heights pre_tip pre_stats).

Definition rollback_b (i : Inner) (fork_point : Z) (branch : list Block) (b : Block) (heights : list (Z * Z))
    (pre_tip : ChainTip) (pre_stats : Ledger.ChainStats) : option Inner :=
  i' ← for_each disconnect_fork_block (rev branch) i;
  Some (restore_main i' fork_point (Z.max (tip_height pre_tip) (block_height b)) heights pre_tip pre_stats).

Definition total_len {A} (l : list (list A)) : Z := foldr (fun x a => Z.of_nat (length x) + a) 0 l.

(** The new tip is connected and the statistics are set. *)
Definition adopt_tip (i : Inner) (b : Block) (fork_cumulative : Z) (branch : list Block)
    (disconnected : list (list Transaction)) : option Inner :=
  i ← connect_block i b;
  let s := stats i in
  let reconnected_blocks := wrap u64_max (Z.of_nat (length branch) + 1) in
  let reconnected_txs :=
    wrap u64_max (total_len (map transactions branch) + Z.of_nat (length (transactions b))) in
  let counted total gone came :=
    match checked_sub total gone with Some v => saturating_add u64_max v came | None => came end in
  let s := Ledger.mkStats (block_height b)
             (counted (Ledger.total_blocks s) (Z.of_nat (length disconnected)) reconnected_blocks)
             (counted (Ledger.total_transactions s) (total_len disconnected) reconnected_txs)
             (Ledger.total_supply s) (Ledger.total_burned s) (work b) (hash b) fork_cumulative in
  Some (with_heights (with_stats (with_tip i (tip_of b)) s) (<[block_height b := hash b]> (height_to_hash i))).

Definition persist_reorg (pre_tip : ChainTip) (s : Ledger.ChainStats) (fork_cumulative : Z) (branch : list Block)
    (b : Block) (disconnected : list (list Transaction)) (du : Database * UtxoSet) : Database * UtxoSet :=
  let gone := concat disconnected in
  let new := branch ++ [b] in
  let height_removals :=
    if block_height b <? tip_height pre_tip then rev (heights_down (block_height b) (tip_height pre_tip)) else [] in
  apply_reorg_atomic
    (flat_map (fun t => map stealth_address (outputs t)) gone)
    (flat_map (fun b => index_rows (block_height b) (transactions b)) new)
    (map (fun b => (block_height b, hash b)) new)
    height_removals
    (mkState (hash b) (block_height b) fork_cumulative (Ledger.total_supply s)
       (wrap u64_max (Ledger.total_burned s)) (stored_checkpoint (fst du)))
    (flat_map (fun b => tx_rows (block_height b) (transactions b)) new)
    (map (tx_hash E) gone) du.

(** From the disconnection to the commit; the first component is the state that the call
    leaves. *)
Definition reorganise (clock : Z * Z) (c : Blockchain) (b : Block) (fork_point fork_cumulative : Z)
  : option (Blockchain * BlockStatus) :=
  let i := inner c in
  let pre_tip := tip i in
  let pre_stats := stats i in
  gone ← disconnect_main i fork_point;
  let c' := mkChain (d_inner gone) (database c) in
  let branch := collect_fork_chain c' b fork_point in
  '(i1, err) ← connect_branch clock c' fork_point branch O branch (d_inner gone);
  let err := match err with Some why => Some why | None => check_tip clock i1 b end in
  match err with
  | Some why =>
      i2 ← rollback_a i1 fork_point branch (d_heights gone) pre_tip pre_stats;
      Some (mkChain i2 (database c), Invalid why)
  | None =>
      on_target ← (if 1 <=? block_height b
                   then target_ok (reorg_window c' i1 fork_point branch (length branch) (block_height b)) b
                   else Some true);
      if negb on_target then
        i2 ← rollback_b i1 fork_point branch b (d_heights gone) pre_tip pre_stats;
        Some (mkChain i2 (database c), Invalid TipTarget)
      else
        i2 ← adopt_tip i1 b fork_cumulative branch (d_txs gone);
        let status := AcceptedReorg (List.filter (fun t => negb (is_coinbase t)) (concat (d_txs gone))) in
        match database c with
        | Some d =>
            let '(d, u) := persist_reorg pre_tip (stats i2) fork_cumulative branch b (d_txs gone) (d, utxos i2) in
            Some (mkChain (with_utxos i2 u) (Some d), status)
        | None => Some (mkChain i2 None, status)
        end
  end.

(** ** Adding a block *)

Definition fork_node (c : Blockchain) : ForkChoice.Node :=
  ForkChoice.mkNode (fork_view c) n (tip_height (tip (inner c))) (tip_hash (tip (inner c)))
    (Ledger.total_difficulty (stats (inner c))) None.

Definition add_block (clock : Z * Z) (c : Blockchain) (b : Block)
  : option (Blockchain * result ForkChoice.Error BlockStatus) :=
  match classify_incoming c b with
  | Known => Some (c, Ok AlreadyKnown)
  | NoParent => Some (c, Ok Orphan)
  | Proceed parent =>
      let is_main_chain := (prev_hash (header b) =? tip_hash (tip (inner c))) || (block_height b =? 0) in
      verdict ← pre_checks clock c b parent is_main_chain;
      match verdict with
      | Some why => Some (c, Ok (Invalid why))
      | None =>
          let c := store_block c b in
          if is_main_chain then
            i ← extend_tip (inner c) b;
            match database c with
            | Some d =>
                let '(d, u) := persist_block (stats i) b (d, utxos i) in
                Some (mkChain (with_utxos i u) (Some d), Ok Accepted)
            | None => Some (mkChain i None, Ok Accepted)
            end
          else
            fork_cumulative ← ForkCalc.calculate_fork_cumulative_work (fork_view c) (fork_block b);
            match ForkChoice.evaluate_fork (fork_node c) (fork_block b) (hash b) fork_cumulative with
            | Err e => Some (c, Err e)
            | Ok None => Some (c, Ok AcceptedFork)
            | Ok (Some fork_point) =>
                '(c, status) ← reorganise clock c b fork_point fork_cumulative;
                Some (c, Ok status)
            end
      end
  end.

(** ** Rolling back *)

Inductive RollbackError := PastCheckpoint (h : Z) | BodyMissing (h : Z).

Definition db_get_hash (c : Blockchain) (h : Z) : option Z := d ← database c; height_index d !! h.
Definition db_get (c : Blockchain) (x : Z) : option Block := d ← database c; db_blocks d !! x.

Definition on_database (f : Database -> Database) (c : Blockchain) : Blockchain := mkChain (inner c) (f <$> database c).

Definition remove_tx_rows (txs : list Transaction) (d : Database) : Database :=
  mkDb (db_blocks d) (height_index d) (remove_rows (map (tx_hash E) txs) (tx_index d)) (chain_state d)
    (checkpoints d) (db_network d).

Definition remove_heights_above (h : Z) (d : Database) : Database :=
  mkDb (db_blocks d) (filter (fun p => fst p <= h) (height_index d)) (tx_index d) (chain_state d)
    (checkpoints d) (db_network d).

Definition unmap (c : Blockchain) (h : Z) : Blockchain :=
  mkChain (with_heights (inner c) (delete h (height_to_hash (inner c)))) (database c).

(** One block of the loop, found in the cache or in the database. *)
Definition roll_back_block (c : Blockchain) (h : Z) (b : Block) : option Blockchain :=
  let i := inner c in
  s ← Ledger.disconnect_stats n (stats i) h (ledger_block b);
  let i := with_stats (with_utxos i (Utxo.disconnect (utxos i) (utxo_txs b))) s in
  Some (on_database (remove_tx_rows (transactions b)) (mkChain i (database c))).

(** An error leaves the state as the loop has changed it; the list holds the transactions of
    the blocks that were disconnected. *)
Fixpoint rollback_loop (hs : list Z) (c : Blockchain) (gone : list Transaction)
  : option (Blockchain * result RollbackError (list Transaction)) :=
  match hs with
  | [] => Some (c, Ok gone)
  | h :: hs =>
      match get_block_hash c h with
      | None => rollback_loop hs (unmap c h) gone
      | Some oh =>
          match get_block c oh with
          | None => Some (c, Err (BodyMissing h))
          | Some b => c' ← roll_back_block c h b; rollback_loop hs (unmap c' h) (gone ++ transactions b)
          end
      end
  end.

Definition with_height (s : Ledger.ChainStats) (h x : Z) : Ledger.ChainStats :=
  Ledger.mkStats h (Ledger.total_blocks s) (Ledger.total_transactions s) (Ledger.total_supply s)
    (Ledger.total_burned s) (Ledger.difficulty s) x (Ledger.total_difficulty s).

(** The new tip, from the cache, the database or the genesis block. *)
Definition move_tip (c : Blockchain) (target_height : Z) : Inner :=
  let i := inner c in
  match get_block_hash c target_height with
  | Some x =>
      let t := match get_block c x with
               | Some b => mkTip x target_height (work b) (timestamp (header b))
               | None => mkTip x target_height (tip_difficulty (tip i)) (tip_timestamp (tip i))
               end in
      with_stats (with_tip i t) (with_height (stats i) target_height x)
  | None =>
      if target_height =? 0 then
        match genesis_hash i with
        | Some g =>
            with_stats (with_tip i (mkTip g 0 (tip_difficulty (tip i)) (tip_timestamp (tip i))))
              (with_height (stats i) 0 g)
        | None => i
        end
      else i
  end.

Definition state_of (s : Ledger.ChainStats) (checkpoint : Z) : ChainStateData :=
  mkState (Ledger.tip_hash s) (Ledger.height s) (Ledger.total_difficulty s) (Ledger.total_supply s)
    (wrap u64_max (Ledger.total_burned s)) checkpoint.

Definition persist_rollback (target_height : Z) (gone : list Transaction) (s : Ledger.ChainStats) (d : Database)
  : Database :=
  let d := remove_tx_rows gone (remove_heights_above target_height d) in
  set_chain_state d (state_of s (stored_checkpoint d)).

Definition rollback_to_height (c : Blockchain) (target_height : Z)
  : option (Blockchain * result RollbackError (list Transaction)) :=
  let current_height := tip_height (tip (inner c)) in
  if current_height <=? target_height then Some (c, Ok [])
  else
    let floor := match database c with Some d => stored_checkpoint d | None => 0 end in
    if target_height <? floor then Some (c, Err (PastCheckpoint floor))
    else
      '(c, r) ← rollback_loop (heights_down target_height current_height) c [];
      match r with
      | Err e => Some (c, Err e)
      | Ok gone =>
          let i := move_tip c target_height in
          Some (on_database (persist_rollback target_height gone (stats i)) (mkChain i (database c)),
                Ok (List.filter (fun t => negb (is_coinbase t)) gone))
      end.

(** ** Start *)

Definition empty_stats : Ledger.ChainStats := Ledger.mkStats 0 0 0 0 0 0 0 0.

(** A node over a database, whose output index holds [rows]. *)
Definition with_database (d : Database) (rows : gmap Z Utxo.OutputIndexEntry) : Blockchain :=
  mkChain (mkInner ∅ ∅ (mkTip 0 0 1 0) empty_stats None
             (Utxo.mkUtxoSet ∅ ∅ ∅ ∅ ∅ ∅ ∅ (Some rows) 0 0)) (Some d).

Definition empty_database : Database := mkDb ∅ ∅ ∅ None ∅ None.

(** The genesis block of the network is an argument; [None]: its hash is not the expected
    one. *)
Definition init_genesis (c : Blockchain) (genesis : Block) : option Blockchain :=
  let x := hash genesis in
  if negb (x =? expected_genesis_hash n) then None
  else
    let i := inner c in
    let s := stats i in
    let s := Ledger.mkStats 0 1 (Z.of_nat (length (transactions genesis))) (Curve.calculate_block_reward 0) 0
               (Ledger.difficulty s) x 1 in
    let u := persist_output_index 0 (transactions genesis) (Utxo.connect (utxos i) 0 (utxo_txs genesis)) in
    let i := mkInner (<[x := genesis]> (blocks i)) (<[0 := x]> (height_to_hash i))
               (mkTip x 0 1 (timestamp (header genesis))) s (Some x) u in
    let fill d :=
      mkDb (<[x := genesis]> (db_blocks d)) (<[0 := x]> (height_index d))
        (insert_rows (tx_rows 0 (transactions genesis)) (tx_index d))
        (Some (mkState x 0 1 (Curve.calculate_block_reward 0) 0 0)) (<[0 := x]> (checkpoints d)) (Some n) in
    Some (mkChain i (fill <$> database c)).

Inductive LoadError := StateMissing | NoGenesisEntry | WrongGenesis | WrongNetwork | WrongAnchor | HeightMismatch
| TipMissing.

Inductive ChainLoadOutcome := Fresh | Loaded.

(** Two more trees, of the pruner, are not part of the model. *)
Definition has_any_chain_data (d : Database) : bool :=
  negb (bool_decide (db_blocks d = ∅)) || negb (bool_decide (height_index d = ∅)).

Definition set_network (d : Database) (m : NetworkType) : Database :=
  mkDb (db_blocks d) (height_index d) (tx_index d) (chain_state d) (checkpoints d) (Some m).

Definition get_by_height (d : Database) (h : Z) : option Block := x ← height_index d !! h; db_blocks d !! x.

(** The replay: the state with the hash of the last block applied and the numbers of blocks
    and transactions; [true] when the chain was cut. *)
Record Replay := mkReplay {
  r_inner : Inner;
  r_db : Database;
  r_prev : Z;
  r_blocks : Z;
  r_txs : Z;
  r_cut : bool }.

Definition cut_chain (r : Replay) (h tip_height : Z) : Replay :=
  let i := r_inner r in
  let good := h - 1 in
  let s := with_height (stats i) good (r_prev r) in
  let t := mkTip (r_prev r) good (tip_difficulty (tip i)) (tip_timestamp (tip i)) in
  let d := r_db r in
  let d := mkDb (db_blocks d) (remove_rows (rev (heights_down (h - 1) tip_height)) (height_index d)) (tx_index d)
             (chain_state d) (checkpoints d) (db_network d) in
  mkReplay (with_stats (with_tip i t) s) (set_chain_state d (state_of s (stored_checkpoint d))) (r_prev r)
    (r_blocks r) (r_txs r) true.

Definition replay_step (tip_height : Z) (r : Replay) (h : Z) : Replay :=
  if r_cut r then r
  else
    match get_by_height (r_db r) h with
    | None => r
    | Some b =>
        if (0 <? h) && negb (prev_hash (header b) =? r_prev r) then cut_chain r h tip_height
        else
          let i := r_inner r in
          let i := with_utxos i (Utxo.connect (utxos i) h (utxo_txs b)) in
          let i := if saturating_sub tip_height 200 <=? h
                   then with_blocks (with_heights i (<[h := hash b]> (height_to_hash i))) (<[hash b := b]> (blocks i))
                   else i in
          mkReplay i (r_db r) (hash b) (wrap u64_max (r_blocks r + 1))
            (wrap u64_max (r_txs r + Z.of_nat (length (transactions b)))) false
    end.

Definition with_counters (s : Ledger.ChainStats) (nb nt : Z) : Ledger.ChainStats :=
  Ledger.mkStats (Ledger.height s) nb nt (Ledger.total_supply s) (Ledger.total_burned s) (Ledger.difficulty s)
    (Ledger.tip_hash s) (Ledger.total_difficulty s).

Definition rebuild_utxo_set (i : Inner) (d : Database) (tip_height : Z) : Inner * Database :=
  let i := with_utxos i (Utxo.mkUtxoSet ∅ ∅ ∅ ∅ ∅ ∅ ∅ (Some (disk (utxos i))) 0 0) in
  let r := fold_left (replay_step tip_height) (map Z.of_nat (seq 0 (Z.to_nat (tip_height + 1))))
             (mkReplay i d 0 0 0 false) in
  let i := r_inner r in
  let i := with_stats i (with_counters (stats i) (r_blocks r) (r_txs r)) in
  let u := utxos i in
  let u := if bool_decide (disk u = ∅) && (0 <? tip_height) then with_disk u (Utxo.output_index u) else u in
  (with_utxos i (Utxo.evict_old_outputs u tip_height 1000), r_db r).

Definition index_block (c : Blockchain) (m : gmap Z (Z * Z)) (h : Z) : gmap Z (Z * Z) :=
  match get_block_by_height c h with
  | Some b => insert_rows (tx_rows h (transactions b)) m
  | None => m
  end.

(** The transaction index of an older database is filled, and that of its genesis block. *)
Definition fill_tx_index (c : Blockchain) (h : Z) (d : Database) : Database :=
  let m := if bool_decide (tx_index d = ∅) && (0 <? h)
           then fold_left (index_block c) (map Z.of_nat (seq 0 (Z.to_nat (h + 1)))) (tx_index d)
           else tx_index d in
  let m := match get_block_by_height c 0 with
           | Some g => insert_new_rows (tx_rows 0 (transactions g)) m
           | None => m
           end in
  mkDb (db_blocks d) (height_index d) m (chain_state d) (checkpoints d) (db_network d).

(** The part of the load after its guards. *)
Definition restore (c : Blockchain) (d : Database) (s : ChainStateData) (tip_block : Block) : Blockchain :=
  let i := inner c in
  let st := stats i in
  let st := Ledger.mkStats (s_height s) (Ledger.total_blocks st) (Ledger.total_transactions st) (s_total_supply s)
              (s_total_burned s) (work tip_block) (s_tip_hash s) (s_total_difficulty s) in
  let i := with_stats (with_tip i (mkTip (s_tip_hash s) (s_height s) (work tip_block)
                                     (timestamp (header tip_block)))) st in
  let st := match ForkCalc.recompute_total_difficulty (fork_view (mkChain i (Some d))) (s_height s) with
            | Some total => Ledger.mkStats (Ledger.height st) (Ledger.total_blocks st) (Ledger.total_transactions st)
                              (Ledger.total_supply st) (Ledger.total_burned st) (Ledger.difficulty st)
                              (Ledger.tip_hash st) total
            | None => st
            end in
  let '(i, d) := rebuild_utxo_set (with_stats i st) d (s_height s) in
  mkChain i (Some (fill_tx_index (mkChain i (Some d)) (s_height s) d)).

(** [anchor_ok] recomputes the proof-of-work anchor of block 1.  The final
    [verify_tip_integrity] compares the tip with the stored state, which [restore] leaves
    equal. *)
Definition load_from_database (anchor_ok : Block -> bool) (c : Blockchain)
  : Blockchain * result LoadError ChainLoadOutcome :=
  match database c with
  | None => (c, Ok Fresh)
  | Some d =>
      match chain_state d with
      | None => if has_any_chain_data d then (c, Err StateMissing) else (c, Ok Fresh)
      | Some s =>
          match height_index d !! 0 with
          | None => (c, Err NoGenesisEntry)
          | Some g =>
              if negb (g =? expected_genesis_hash n) then (c, Err WrongGenesis)
              else
                if negb (bool_decide (default n (db_network d) = n)) then (c, Err WrongNetwork)
                else
                  let d := set_network d n in
                  let c := mkChain (inner c) (Some d) in
                  if (1 <=? s_height s)
                     && match get_by_height d 1 with Some b => negb (anchor_ok b) | None => false end
                  then (c, Err WrongAnchor)
                  else
                    match db_blocks d !! s_tip_hash s with
                    | None => (c, Err TipMissing)
                    | Some tip_block =>
                        if negb (block_height tip_block =? s_height s) then (c, Err HeightMismatch)
                        else (restore c d s tip_block, Ok Loaded)
                    end
          end
      end
  end.
End Chain.
End Node.
