(* ===== verification/NodeInv.v ===== *)
(** * What the node's chain guarantees (src/src/chain.rs, src/src/chain)

    The invariant of the operations of [Node]: in every reachable state there is one chain of
    linked blocks, each validated over the chain below it, of which the outputs, the spent key
    images, the totals, the tip and both height indexes are exact; a reorganisation either
    adopts its branch or restores the state it found; and a restart finds the same state
    again. *)

From stdpp Require Import gmap list sorting.
From S2P Require Import Prelude Constants Types Emission Difficulty FeeMarket Security Ledger Utxo ForkCalc ForkChoice TxValidation BlockValidation ActiveChain Miner Node.

Module NodeInv.
Import Types BlockValidation Node.
#[local] Opaque Difficulty.calculate_difficulty_from_target be_bytes.

(** ** The output set up to the eviction of old index entries *)

(** Everything but the output index and the counters. *)
Definition ucore (s : Utxo.UtxoSet) :=
  (Utxo.outputs s, Utxo.height_index s, Utxo.locator_index s, Utxo.locator_outputs s, Utxo.stealth_index s,
   Utxo.key_images s).

Definition same_set (s t : Utxo.UtxoSet) : Prop := ucore s = ucore t.

#[export] Instance same_set_equiv : Equivalence same_set.
Proof. split; unfold same_set; [by intros ?|by intros ? ?|intros ???; congruence]. Qed.

Lemma core_same s t : Utxo.core s = Utxo.core t -> same_set s t.
Proof. unfold same_set, ucore, Utxo.core. by intros [= -> -> -> -> -> _ ->]. Qed.

Lemma add_one_same s t a : same_set s t -> same_set (Utxo.add_one s a) (Utxo.add_one t a).
Proof.
  destruct s, t, a as [[[[th i] o] h] cb]. unfold same_set, ucore. cbn. by intros [= -> -> -> -> -> ->].
Qed.

Lemma remove_one_same s t k : same_set s t -> same_set (Utxo.remove_one s k) (Utxo.remove_one t k).
Proof.
  destruct s, t as [os ki hi li lo si oi d te rd]. unfold same_set, ucore, Utxo.remove_one, Utxo.remove_output. cbn.
  intros [= -> -> -> -> -> ->]. destruct (os !! _) as [r|]; cbn; [done|]. by destruct (lo !! _).
Qed.

Lemma images_same s t f : same_set s t ->
  same_set (Utxo.set_key_images s (f (Utxo.key_images s))) (Utxo.set_key_images t (f (Utxo.key_images t))).
Proof. destruct s, t. unfold same_set, ucore. cbn. by intros [= -> -> -> -> -> ->]. Qed.

Lemma fold_same {A} (f : Utxo.UtxoSet -> A -> Utxo.UtxoSet) l :
  (forall s t a, same_set s t -> same_set (f s a) (f t a)) ->
  forall s t, same_set s t -> same_set (fold_left f l s) (fold_left f l t).
Proof. intros Hf. induction l as [|a l IH]; intros s t Hs; [done|]. cbn [fold_left]. by apply IH, Hf. Qed.

#[export] Instance connect_same h txs : Proper (same_set ==> same_set) (fun s => Utxo.connect s h txs).
Proof.
  intros s t Hs. rewrite !Utxo.connect_eq. cbv zeta.
  apply (images_same _ _ (fun k => k ∪ list_to_set (Utxo.block_images txs))), fold_same; [apply add_one_same|done].
Qed.

#[export] Instance disconnect_same txs : Proper (same_set ==> same_set) (fun s => Utxo.disconnect s txs).
Proof.
  intros s t Hs. rewrite !Utxo.disconnect_eq. cbv zeta.
  apply (images_same _ _ (fun k => k ∖ list_to_set (Utxo.block_images txs))), fold_same; [apply remove_one_same|done].
Qed.

Lemma evict_same s h k : same_set (Utxo.evict_old_outputs s h k) s.
Proof. unfold Utxo.evict_old_outputs. by destruct (h <=? k). Qed.

Lemma with_disk_same s d : same_set (with_disk s d) s.
Proof. done. Qed.

Lemma persist_same h txs s : same_set (persist_output_index h txs s) s.
Proof. done. Qed.

Lemma same_images s t : same_set s t -> Utxo.key_images s = Utxo.key_images t.
Proof. unfold same_set, ucore. by intros [= _ _ _ _ _ ->]. Qed.

(** The in-memory output index of [s] against the one of [t], which evicts nothing: an entry
    of [t] of the height [f] or above is in [s], and an address unknown to [t] is unknown to
    [s].  (Below [f] an entry may be evicted, and replaced when its address is used again.) *)
Record indexes (f : Z) (s t : Utxo.UtxoSet) : Prop := {
  ix_recent a e : Utxo.output_index t !! a = Some e -> f <= Utxo.entry_height e -> Utxo.output_index s !! a = Some e;
  ix_known a : Utxo.output_index t !! a = None -> Utxo.output_index s !! a = None }.

Lemma indexes_eq f s s' t t' : Utxo.output_index s' = Utxo.output_index s -> Utxo.output_index t' = Utxo.output_index t ->
  indexes f s t -> indexes f s' t'.
Proof. intros Es Et [H1 H2]. split; by rewrite Es, Et. Qed.

Lemma indexes_refl f s t : Utxo.output_index s = Utxo.output_index t -> indexes f s t.
Proof. intros He. split; by rewrite He. Qed.

Lemma indexes_up f g s t : f <= g -> indexes f s t -> indexes g s t.
Proof. intros Hfg [H1 H2]. split; [|done]. intros a e Ha Hg. apply H1; [done|lia]. Qed.

Lemma or_insert_lookup {V} (m : gmap Z V) k v a :
  Utxo.or_insert m k v !! a = if decide (a = k) then Some (default v (m !! k)) else m !! a.
Proof.
  unfold Utxo.or_insert. case_decide as Ha; [subst a|]; destruct (m !! k) as [x|] eqn:Ek; cbn [default]; try done.
  - apply lookup_insert_eq.
  - by rewrite lookup_insert_ne.
Qed.

Lemma indexes_add f s t a : indexes f s t -> indexes f (Utxo.add_one s a) (Utxo.add_one t a).
Proof.
  destruct a as [[[[th i] o] h] cb]. intros [H1 H2]. split; cbn [Utxo.add_one Utxo.add_output_ext Utxo.output_index].
  - intros a e. rewrite !or_insert_lookup. case_decide as Ha; [|apply H1]. subst a.
    destruct (Utxo.output_index t !! _) as [e'|] eqn:Et; cbn [default].
    + intros [= ->] Hf. by rewrite (H1 _ e).
    + intros [= <-] _. by rewrite H2.
  - intros a. rewrite !or_insert_lookup. case_decide as Ha; [done|apply H2].
Qed.

(** An output is the owner of its address in both or in neither. *)
Lemma indexes_remove f s t k : same_set s t -> indexes f s t -> indexes f (Utxo.remove_one s k) (Utxo.remove_one t k).
Proof.
  destruct s, t as [os ki hi li lo si oi d te rd]. unfold same_set, ucore, Utxo.remove_one, Utxo.remove_output. cbn.
  intros [= -> -> -> -> -> ->] [H1 H2]. cbn in H1, H2.
  destruct (match os !! _ with Some _ => _ | None => _ end) as [a|]; [|by split]. cbn. destruct (bool_decide _); [|by split].
  split; cbn; intros x; rewrite !lookup_delete; case_decide; try done; [apply H1|apply H2].
Qed.

Lemma indexes_connect f s t h txs : indexes f s t -> indexes f (Utxo.connect s h txs) (Utxo.connect t h txs).
Proof.
  intros Hi. rewrite !Utxo.connect_eq. cbv zeta. generalize (Utxo.adds (Utxo.batch_from_block h txs)). intros l.
  apply (indexes_eq f (fold_left Utxo.add_one l s) _ (fold_left Utxo.add_one l t)); [done..|]. revert s t Hi.
  induction l as [|a l IH]; intros s t Hi; [done|]. cbn [fold_left]. by apply IH, indexes_add.
Qed.

Lemma indexes_disconnect f s t txs : same_set s t -> indexes f s t -> indexes f (Utxo.disconnect s txs) (Utxo.disconnect t txs).
Proof.
  intros Hs Hi. rewrite !Utxo.disconnect_eq. cbv zeta. generalize (Utxo.block_keys txs). intros l.
  apply (indexes_eq f (fold_left Utxo.remove_one l s) _ (fold_left Utxo.remove_one l t)); [done..|]. revert s t Hs Hi.
  induction l as [|k l IH]; intros s t Hs Hi; [done|]. cbn [fold_left]. apply IH; [by apply remove_one_same|by apply indexes_remove].
Qed.

Lemma indexes_evict f s t h k : h - k <= f -> indexes f s t -> indexes f (Utxo.evict_old_outputs s h k) t.
Proof.
  intros Hf [H1 H2]. unfold Utxo.evict_old_outputs. destruct (h <=? k); [by split|]. split; cbn [Utxo.output_index].
  - intros a e Ha He. apply map_lookup_filter_Some. split; [by apply H1|]. cbn. lia.
  - intros a Ha. apply map_lookup_filter_None. left. by apply H2.
Qed.

(** Disconnecting the newest block of a replayed chain. *)
Lemma disconnect_replay s h txs c : Utxo.chain_fresh ((h, txs) :: c) ->
  same_set s (Utxo.replay ((h, txs) :: c)) -> same_set (Utxo.disconnect s txs) (Utxo.replay c).
Proof.
  intros [Hf Hc] Hs. cbn [Utxo.replay] in Hs. rewrite (disconnect_same txs _ _ Hs).
  pose proof (Utxo.replay_wf c Hc) as Hwf.
  destruct (Utxo.connect_pending (Utxo.replay c) h txs Hwf Hf) as [Hp Hki]. by apply core_same, Utxo.disconnect_core.
Qed.

Lemma disconnect_indexes f s h txs c : Utxo.chain_fresh ((h, txs) :: c) ->
  same_set s (Utxo.replay ((h, txs) :: c)) -> indexes f s (Utxo.replay ((h, txs) :: c)) ->
  indexes f (Utxo.disconnect s txs) (Utxo.replay c).
Proof.
  intros [Hf Hc] Hs Hi. apply (indexes_disconnect f _ _ txs Hs) in Hi. eapply indexes_eq; [reflexivity| |exact Hi].
  pose proof (Utxo.replay_wf c Hc) as Hwf. destruct (Utxo.connect_pending (Utxo.replay c) h txs Hwf Hf) as [Hp Hki].
  pose proof (Utxo.disconnect_core _ _ _ Hwf Hf Hp Hki) as He. unfold Utxo.core in He. cbn [Utxo.replay]. congruence.
Qed.

(** The entry of an output in the output index. *)
Definition entry_of (r : Utxo.OutputRef) : Utxo.OutputIndexEntry :=
  Utxo.mkIndexEntry (Utxo.commitment (Utxo.output r)) (Utxo.height r) (Utxo.ref_is_coinbase r) (Utxo.lock_height (Utxo.output r)).

(** The in-memory index answers for an address with the output that owns it, when that one is
    not below the height [f]. *)
Definition answers (f : Z) (s : Utxo.UtxoSet) : Prop := forall a k r,
  Utxo.stealth_index s !! a = Some k -> Utxo.outputs s !! k = Some r -> f <= Utxo.height r ->
  Utxo.output_index s !! a = Some (entry_of r).

Lemma answers_add f s th i o h cb : Utxo.well_formed s -> Utxo.outputs s !! (th, i) = None -> answers f s ->
  answers f (Utxo.add_output_ext s th i o h cb).
Proof.
  intros Hwf Hk Ho a k r. cbn [Utxo.add_output_ext Utxo.stealth_index Utxo.outputs Utxo.output_index]. rewrite !or_insert_lookup.
  assert (Hold : Utxo.stealth_index s !! a = Some k -> k <> (th, i)).
  { intros Ha ->. destruct (Utxo.wf_stealth _ Hwf a _ Ha) as (r' & Hr' & _). congruence. }
  pose proof (Utxo.wf_indexed _ Hwf (Utxo.stealth_address o)) as Hi. case_decide as Ha.
  - subst a. destruct (Utxo.stealth_index s !! _) as [k'|] eqn:Es; cbn [default].
    + intros [= ->]. rewrite lookup_insert_ne by (by apply not_eq_sym, Hold). intros Hr Hf. by rewrite (Ho _ k r).
    + intros [= <-]. rewrite lookup_insert_eq. intros [= <-] _. by rewrite (proj1 Hi eq_refl).
  - intros Hs. rewrite lookup_insert_ne by (by apply not_eq_sym, Hold). by apply Ho.
Qed.

Lemma answers_adds f l : forall s, Utxo.well_formed s -> NoDup (map Utxo.add_key l) ->
  (forall k, k ∈ map Utxo.add_key l -> Utxo.outputs s !! k = None) -> answers f s -> answers f (fold_left Utxo.add_one l s).
Proof.
  induction l as [|[[[[th i] o] h] cb] l IH]; intros s Hwf Hn Hf Ho; [done|]. cbn [map Utxo.add_key fold_left Utxo.add_one] in *.
  apply list.NoDup_cons in Hn as [Hni Hn]. pose proof (Hf (th, i) ltac:(left)) as Hk.
  apply IH; [by apply Utxo.add_output_wf|done| |by apply answers_add].
  intros k Hin. cbn [Utxo.add_output_ext Utxo.outputs]. rewrite lookup_insert_ne by congruence. apply Hf. by right.
Qed.

Lemma replay_answers f c : Utxo.chain_fresh c -> answers f (Utxo.replay c).
Proof.
  induction c as [|[h txs] c IH]; [by intros _ a k r|]. intros [(Hn & Hk & _) Hc]. cbn [Utxo.replay]. rewrite Utxo.connect_eq. cbv zeta.
  apply (answers_adds f (Utxo.adds (Utxo.batch_from_block h txs)) (Utxo.replay c)); rewrite ?Utxo.adds_keys; try done.
  - by apply Utxo.replay_wf.
  - by apply IH.
Qed.

Lemma indexes_answers f s c : Utxo.chain_fresh c -> same_set s (Utxo.replay c) -> indexes f s (Utxo.replay c) -> answers f s.
Proof.
  intros Hc Hs [Hi _] a k r. pose proof (replay_answers f c Hc a k r) as Ha. unfold same_set, ucore in Hs. injection Hs as -> _ _ _ -> _.
  intros H1 H2 H3. apply Hi; [by apply Ha|done].
Qed.

(** The keys in a replayed set are those of its blocks. *)
Lemma replay_keys c k : Utxo.chain_fresh c -> is_Some (Utxo.outputs (Utxo.replay c) !! k) ->
  k ∈ flat_map (fun e => Utxo.block_keys (snd e)) c.
Proof.
  induction c as [|[h txs] c IH]; cbn [Utxo.replay Utxo.chain_fresh flat_map snd]; [by intros _ [? ?]|].
  intros [Hf Hc] Hk. destruct (Utxo.connect_pending (Utxo.replay c) h txs (Utxo.replay_wf c Hc) Hf) as [Hp _].
  apply elem_of_app. destruct (decide (k ∈ Utxo.block_keys txs)) as [|Hni]; [by left|right].
  apply IH; [done|]. rewrite <- (Utxo.pd_same _ _ _ Hp k); [done|]. by rewrite elem_of_list_to_set.
Qed.

(** ** Rows *)

Lemma remove_rows_lookup {A} ks (m : gmap Z A) k : remove_rows ks m !! k = if decide (k ∈ ks) then None else m !! k.
Proof.
  revert m. induction ks as [|k' ks IH]; intros m; [by rewrite decide_False by set_solver|]. cbn [remove_rows fold_left].
  fold (remove_rows ks (delete k' m)). rewrite IH. destruct (decide (k ∈ ks)), (decide (k ∈ k' :: ks)); [done|set_solver| |].
  - assert (k = k') as -> by set_solver. by rewrite lookup_delete_eq.
  - by rewrite lookup_delete_ne by set_solver.
Qed.

Lemma insert_rows_other {A} rows (m : gmap Z A) k : k ∉ map fst rows -> insert_rows rows m !! k = m !! k.
Proof.
  revert m. induction rows as [|r rows IH]; intros m Hk; [done|]. cbn [map] in Hk. cbn [insert_rows fold_left].
  fold (insert_rows rows (<[fst r := snd r]> m)). rewrite IH by set_solver. by rewrite lookup_insert_ne by set_solver.
Qed.

Lemma insert_rows_in {A} rows (m : gmap Z A) k v : NoDup (map fst rows) -> (k, v) ∈ rows -> insert_rows rows m !! k = Some v.
Proof.
  revert m. induction rows as [|r rows IH]; intros m Hn Hk; [by apply elem_of_nil in Hk|]. cbn [map] in Hn.
  apply list.NoDup_cons in Hn as [Hr Hn]. cbn [insert_rows fold_left]. fold (insert_rows rows (<[fst r := snd r]> m)).
  apply elem_of_cons in Hk as [<-|Hk]; [|by apply IH]. cbn [fst snd] in *. rewrite insert_rows_other by done.
  apply lookup_insert_eq.
Qed.

Lemma elem_rev {A} (l : list A) a : a ∈ rev l <-> a ∈ l.
Proof. by rewrite !list_elem_of_In, <- in_rev. Qed.

Lemma heights_down_elem a b h : h ∈ heights_down a b <-> a < h <= b.
Proof.
  unfold heights_down. rewrite list_elem_of_fmap. setoid_rewrite elem_of_seq. split.
  - intros (i & -> & Hi). lia.
  - intros Hh. exists (Z.to_nat (b - h)). lia.
Qed.

(** Projections of an updated state. *)
Ltac inner := cbn [blocks height_to_hash tip stats genesis_hash utxos with_blocks with_heights with_tip with_stats with_utxos].
Tactic Notation "inner" "in" hyp(H) :=
  cbn [blocks height_to_hash tip stats genesis_hash utxos with_blocks with_heights with_tip with_stats with_utxos] in H.

Section Inv.
Context (n : Ledger.NetworkType) (E : Env) (sc : Z -> Z -> Z -> list Z) (genesis : Block).
Hypothesis no_skip : allow_checkpoint_crypto_skip E = false.
Hypothesis genesis_zero : block_height genesis = 0.

Abbreviation hash := (block_hash (blake3 E)) (only parsing).

(** ** Chains *)

(** Linked blocks down to genesis, newest first. *)
Fixpoint linked (l : list Block) : Prop :=
  match l with
  | [] => False
  | b :: l' =>
      match l' with
      | [] => b = genesis
      | p :: _ => prev_hash (header b) = hash p /\ block_height b = block_height p + 1 /\ linked l'
      end
  end.

Definition uchain (l : list Block) : list (Z * list Utxo.Transaction) :=
  map (fun b => (block_height b, utxo_txs E b)) l.
Definition replay (l : list Block) : Utxo.UtxoSet := Utxo.replay (uchain l).
Definition ledger (l : list Block) : list Ledger.Block := map (ledger_block E) (removelast l).
Definition keys (l : list Block) : list (Z * Z) := flat_map (fun b => Utxo.block_keys (utxo_txs E b)) l.

(** Every block above genesis was found valid over the outputs of the chain below it. *)
Fixpoint validated (l : list Block) : Prop :=
  match l with
  | [] => True
  | b :: l' =>
      match l' with
      | [] => True
      | p :: _ =>
          typed b
          /\ (exists s clock cp, same_set s (replay l')
                /\ valid (validate_block_with_checkpoint_for_network (at_time E clock) b (Some p) s cp n) = true)
          /\ validated l'
      end
  end.

(** The keys of the outputs differ, and the counters have room. *)
Record good (l : list Block) : Prop := {
  good_keys : NoDup (keys l);
  good_work : 1 + Ledger.work_sum (ledger l) <= u128_max;
  good_txs : Z.of_nat (length (transactions genesis)) + Ledger.tx_sum (ledger l) <= u64_max;
  good_length : Z.of_nat (length l) + 300 <= u64_max }.

Lemma linked_cons b p l : linked (b :: p :: l) <->
  prev_hash (header b) = hash p /\ block_height b = block_height p + 1 /\ linked (p :: l).
Proof. done. Qed.

Lemma linked_height b l : linked (b :: l) -> block_height b = Z.of_nat (length l).
Proof.
  revert b. induction l as [|p l IH]; intros b; [by intros ->|]. rewrite linked_cons. intros (_ & -> & Hp).
  rewrite (IH p Hp). cbn [length]. lia.
Qed.

Lemma linked_app l1 b l2 : linked (l1 ++ b :: l2) -> linked (b :: l2).
Proof.
  induction l1 as [|a l1 IH]; [done|]. cbn [app]. intros H. apply IH.
  destruct l1 as [|a' l1]; cbn [app] in *; apply H.
Qed.

Lemma linked_ne l : linked l -> l <> [].
Proof. by destruct l. Qed.

(** Above a linked chain the heights rise one by one. *)
Lemma linked_above l1 b l2 a : linked (l1 ++ b :: l2) -> a ∈ l1 -> block_height b < block_height a.
Proof.
  intros Hl Ha. apply list_elem_of_split in Ha as (k1 & k2 & ->). rewrite <- app_assoc in Hl. cbn [app] in Hl.
  pose proof (linked_app _ _ _ Hl) as H1. rewrite (linked_height _ _ H1).
  rewrite app_comm_cons in H1. apply linked_app in H1. rewrite (linked_height _ _ H1).
  rewrite length_app. cbn [length]. lia.
Qed.

Lemma linked_lookup l i b : linked l -> l !! i = Some b -> block_height b = Z.of_nat (length l) - 1 - Z.of_nat i.
Proof.
  revert i. induction l as [|a l IH]; intros i Hl Hi; [done|]. destruct i as [|i].
  - injection Hi as ->. rewrite (linked_height _ _ Hl). cbn [length]. lia.
  - destruct l as [|p l]; [done|]. cbn [lookup list_lookup] in Hi.
    rewrite (IH i) by (done || apply Hl). cbn [length]. lia.
Qed.

Lemma linked_inj l a b : linked l -> a ∈ l -> b ∈ l -> block_height a = block_height b -> a = b.
Proof.
  intros Hl (i & Hi)%list_elem_of_lookup (j & Hj)%list_elem_of_lookup Hh.
  rewrite (linked_lookup l i a Hl Hi), (linked_lookup l j b Hl Hj) in Hh. assert (i = j) as -> by lia. congruence.
Qed.

(** Each height up to the tip has its block. *)
Lemma linked_at l h : linked l -> 0 <= h < Z.of_nat (length l) -> exists b, b ∈ l /\ block_height b = h.
Proof.
  intros Hl Hh. destruct (lookup_lt_is_Some_2 l (length l - 1 - Z.to_nat h)) as [b Hb]; [lia|].
  exists b. split; [by eapply list_elem_of_lookup_2|]. rewrite (linked_lookup l _ b Hl Hb). lia.
Qed.

Lemma linked_bounds l b : linked l -> b ∈ l -> 0 <= block_height b < Z.of_nat (length l).
Proof.
  intros Hl (i & Hi)%list_elem_of_lookup. rewrite (linked_lookup l i b Hl Hi). apply lookup_lt_Some in Hi. lia.
Qed.

(** No block of a chain is above its first. *)
Lemma linked_below q m a : linked (q :: m) -> a ∈ q :: m -> block_height a <= block_height q.
Proof. intros Hl Ha. pose proof (linked_bounds _ a Hl Ha). rewrite (linked_height q m Hl). cbn [length] in *. lia. Qed.

Lemma ledger_cons b p l : ledger (b :: p :: l) = ledger_block E b :: ledger (p :: l).
Proof. done. Qed.

Lemma ledger_length b l : length (ledger (b :: l)) = length l.
Proof.
  unfold ledger. rewrite length_map. revert b. induction l as [|p l IH]; intros b; [done|].
  change (removelast (b :: p :: l)) with (b :: removelast (p :: l)). cbn [length]. by rewrite IH.
Qed.

Lemma ledger_heights l : linked l -> Ledger.heights_ok (ledger l).
Proof.
  induction l as [|b l IH]; [done|]. destruct l as [|p l]; [done|]. intros Hl. rewrite ledger_cons.
  cbn [Ledger.heights_ok]. split; [|apply IH; apply Hl]. cbn [length]. rewrite ledger_length.
  cbn [Ledger.b_height ledger_block]. rewrite (linked_height _ _ Hl). cbn [length]. lia.
Qed.

Lemma typed_ledger b : typed b -> Ledger.block_ok (ledger_block E b).
Proof.
  intros (Hh & _ & Hf). split; [done|]. cbn [Ledger.b_txs ledger_block]. apply list.Forall_forall.
  intros t Ht. apply list_elem_of_fmap in Ht as (t' & -> & Ht'). by apply Hf.
Qed.

Lemma ledger_work b p l : Ledger.work_sum (ledger (b :: p :: l)) = work b + Ledger.work_sum (ledger (p :: l)).
Proof. done. Qed.

Lemma ledger_txs b p l :
  Ledger.tx_sum (ledger (b :: p :: l)) = Z.of_nat (length (transactions b)) + Ledger.tx_sum (ledger (p :: l)).
Proof. rewrite ledger_cons. cbn [Ledger.tx_sum Ledger.b_txs ledger_block]. by rewrite length_map. Qed.

Lemma block_work_nonneg b : 0 <= work b.
Proof. unfold work. exact (proj1 (Ledger.work_bounds _)). Qed.

Lemma good_tail a p l : good (a :: p :: l) -> good (p :: l).
Proof.
  intros [Hk Hw Ht Hn]. rewrite ledger_work in Hw. rewrite ledger_txs in Ht. split.
  - unfold keys in *. cbn [flat_map] in Hk. by apply list.NoDup_app in Hk as (_ & _ & ?).
  - pose proof (block_work_nonneg a). lia.
  - lia.
  - cbn [length] in *. lia.
Qed.

Lemma good_suffix l1 b l2 : good (l1 ++ b :: l2) -> good (b :: l2).
Proof.
  induction l1 as [|a l1 IH]; [done|]. intros H. apply IH. destruct l1; cbn [app] in *; by eapply good_tail.
Qed.

(** ** Validated chains *)

Lemma uchain_keys l : flat_map (fun e => Utxo.block_keys (snd e)) (uchain l) = keys l.
Proof. induction l as [|b l IH]; [done|]. cbn [uchain map flat_map snd keys]. f_equal. exact IH. Qed.

Lemma accepted_at clock b prev s cp : typed b ->
  valid (validate_block_with_checkpoint_for_network (at_time E clock) b prev s cp n) = true ->
  block_accepted (at_time E clock) n b prev s.
Proof. intros Hb Hv. by apply block_ok in Hv. Qed.

Lemma fresh_above b prev l s clock : Utxo.chain_fresh (uchain l) -> same_set s (replay l) ->
  block_accepted (at_time E clock) n b prev s -> NoDup (keys (b :: l)) ->
  Utxo.block_fresh (replay l) (utxo_txs E b).
Proof.
  intros Hf Hs Hv (Hn1 & Hn2 & _)%list.NoDup_app.
  destruct (ActiveChain.accepted_spends_fresh n (fun _ => at_time E clock) 0 b prev s Hv) as [_ Hi].
  split_and!; [done|..].
  - intros k Hk. destruct (Utxo.outputs (replay l) !! k) eqn:Ek; [|done]. destruct (Hn2 k Hk).
    fold (keys l). rewrite <- uchain_keys. apply replay_keys; [done|]. unfold replay in Ek. by rewrite Ek.
  - intros ki Hki. rewrite <- (same_images _ _ Hs). apply Hi.
    by rewrite <- (ActiveChain.accepted_images n (fun _ => at_time E clock) 0 b prev s Hv).
Qed.

Lemma genesis_fresh : NoDup (keys [genesis]) -> Utxo.chain_fresh (uchain [genesis]).
Proof.
  unfold keys. cbn [flat_map]. rewrite app_nil_r. intros Hk. cbn. split; [|done]. split_and!; [done|done|].
  intros ki _. cbn. set_solver.
Qed.

Lemma chain_fresh_ok l : linked l -> validated l -> NoDup (keys l) -> Utxo.chain_fresh (uchain l).
Proof.
  induction l as [|b l IH]; [done|]. destruct l as [|p l]; [by intros -> _; apply genesis_fresh|].
  intros (_ & _ & Hl) (Hb & (s & clock & cp & Hs & Hv) & Hvs) Hk. pose proof Hk as (_ & _ & Hk')%list.NoDup_app.
  specialize (IH Hl Hvs Hk'). apply accepted_at in Hv; [|done]. split; [|done]. by eapply fresh_above.
Qed.

(** No key image is spent twice above genesis. *)
Lemma chain_spends_ok l : linked l -> validated l ->
  NoDup (ActiveChain.chain_spends (removelast l))
  /\ forall ki, ki ∈ ActiveChain.chain_spends (removelast l) -> ki ∈ Utxo.key_images (replay l).
Proof.
  induction l as [|b l IH]; [done|]. destruct l as [|p l]; [intros _ _; split; [constructor|set_solver]|].
  intros (_ & _ & Hl) (Hb & (s & clock & cp & Hs & Hv) & Hvs). destruct (IH Hl Hvs) as [Hn Hi].
  apply accepted_at in Hv; [|done].
  destruct (ActiveChain.accepted_spends_fresh n (fun _ => at_time E clock) 0 b (Some p) s Hv) as [Hn' Hf].
  pose proof (ActiveChain.accepted_images n (fun _ => at_time E clock) 0 b (Some p) s Hv) as Ei.
  change (removelast (b :: p :: l)) with (b :: removelast (p :: l)). unfold ActiveChain.chain_spends in *. cbn [flat_map].
  assert (Ek : Utxo.key_images (replay (b :: p :: l))
    = Utxo.key_images (replay (p :: l)) ∪ list_to_set (ActiveChain.block_spends b)).
  { rewrite <- Ei. apply ActiveChain.connect_images. }
  rewrite Ek. split.
  - apply list.NoDup_app. split_and!; [done| |done]. intros ki Hki Hin. apply (Hf ki Hki).
    rewrite (same_images _ _ Hs). by apply Hi.
  - intros ki [Hki|Hki]%elem_of_app; [set_solver|]. apply elem_of_union_l. by apply Hi.
Qed.

(** ** The store *)

Definition stored (d : Database) (b : Block) : Prop := db_blocks d !! hash b = Some b.

(** A linked chain of stored blocks is determined by its newest block. *)
Lemma linked_unique d l1 l2 : linked l1 -> linked l2 -> Forall (stored d) l1 -> Forall (stored d) l2 ->
  head l1 = head l2 -> l1 = l2.
Proof.
  revert l2. induction l1 as [|b l1 IH]; intros l2 H1 H2 S1 S2 Hh; [done|]. destruct l2 as [|b' l2]; [done|].
  injection Hh as <-. pose proof (linked_height _ _ H1) as E1. rewrite (linked_height _ _ H2) in E1.
  f_equal. destruct l1 as [|p l1], l2 as [|q l2]; try (cbn in E1; lia); [done|].
  destruct H1 as (P1 & _ & H1), H2 as (P2 & _ & H2). apply list.Forall_cons in S1 as [_ S1], S2 as [_ S2].
  apply IH; [done..|]. cbn. f_equal. apply list.Forall_cons in S1 as [Sp _], S2 as [Sq _].
  unfold stored in *. rewrite <- P1, P2, Sq in Sp. congruence.
Qed.

Lemma linked_hashes d l : linked l -> Forall (stored d) l -> NoDup (map hash l).
Proof.
  intros Hl Hs. apply list.NoDup_fmap_2_strong; [|].
  - intros a b Ha Hb Hh. rewrite list.Forall_forall in Hs. pose proof (Hs a Ha) as Sa. pose proof (Hs b Hb) as Sb.
    unfold stored in *. rewrite Hh, Sb in Sa. congruence.
  - apply NoDup_alt. intros i j b Hi Hj. pose proof (linked_lookup l i b Hl Hi). pose proof (linked_lookup l j b Hl Hj). lia.
Qed.

(** ** The totals of a chain *)

Definition supply_of (l : list Block) : Z := Supply.emission_sum (length l).
Definition burned_of (l : list Block) : Z := Ledger.burn_sum n (ledger l).

Definition roomy (l : list Block) : Prop := Z.of_nat (length l) <= u64_max.

Lemma supply_bounds l : roomy l -> 0 <= supply_of l <= u128_max.
Proof. intros Hl. apply Ledger.emission_sum_length. unfold roomy in *. lia. Qed.

Lemma supply_cons b p l : linked (b :: p :: l) ->
  supply_of (b :: p :: l) = supply_of (p :: l) + Curve.calculate_block_reward (block_height b).
Proof.
  intros Hl. rewrite (linked_height _ _ Hl). unfold supply_of, Curve.calculate_block_reward. cbn [length Supply.emission_sum]. lia.
Qed.

Lemma burned_cons b p l : burned_of (b :: p :: l) = fee_burn n E b + burned_of (p :: l).
Proof. done. Qed.

Lemma ledger_ok l : Forall typed l -> Forall Ledger.block_ok (ledger l).
Proof.
  intros Hl. unfold ledger. apply list.Forall_forall. intros x (b & -> & Hb)%list_elem_of_fmap. apply typed_ledger.
  rewrite list.Forall_forall in Hl. apply Hl. clear Hl. induction l as [|a l IH]; [done|].
  destruct l as [|p l]; [by apply elem_of_nil in Hb|]. change (removelast (a :: p :: l)) with (a :: removelast (p :: l)) in Hb.
  apply elem_of_cons in Hb as [->|Hb]; [left|right; by apply IH].
Qed.

Lemma burned_bounds l : Forall typed l -> roomy l -> 0 <= burned_of l <= u128_max.
Proof.
  intros Ht Hr. pose proof (Ledger.burn_sum_bounds n (ledger l) (ledger_ok l Ht)) as Hb. unfold roomy, burned_of in *.
  assert (length (ledger l) <= length l)%nat.
  { destruct l as [|b l]; [done|]. rewrite ledger_length. cbn [length]. lia. }
  nia.
Qed.

(** The totals of the statistics [s] are those of [l]. *)
Definition accounts (s : Ledger.ChainStats) (l : list Block) : Prop :=
  Ledger.total_supply s = supply_of l /\ Ledger.total_burned s = burned_of l.

Lemma subtract_accounts s b p l : accounts s (b :: p :: l) -> linked (b :: p :: l) -> Forall typed (b :: p :: l) ->
  roomy (b :: p :: l) ->
  subtract_block n E s (block_height b) b = Some (with_supply s (supply_of (p :: l)) (burned_of (p :: l))).
Proof.
  intros [Es Eb] Hl Ht Hr. assert (Hr' : roomy (p :: l)) by (unfold roomy in *; cbn [length] in *; lia).
  pose proof Ht as [_ Ht']%list.Forall_cons. pose proof (supply_bounds _ Hr'). pose proof (burned_bounds _ Ht' Hr').
  unfold subtract_block. rewrite Es, Eb, supply_cons, burned_cons by done.
  rewrite checked_sub_Some by lia. cbn [mbind option_bind]. rewrite checked_sub_Some by lia. cbn [mbind option_bind].
  do 2 f_equal; lia.
Qed.

Lemma add_accounts s b p l : accounts s (p :: l) -> linked (b :: p :: l) -> Forall typed (b :: p :: l) ->
  roomy (b :: p :: l) ->
  add_to_totals n E s b = Some (with_supply s (supply_of (b :: p :: l)) (burned_of (b :: p :: l))).
Proof.
  intros [Es Eb] Hl Ht Hr. assert (Hr' : roomy (p :: l)) by (unfold roomy in *; cbn [length] in *; lia).
  pose proof Ht as [_ Ht']%list.Forall_cons. pose proof (supply_bounds _ Hr). pose proof (burned_bounds _ Ht Hr).
  unfold add_to_totals. rewrite Es, Eb. rewrite supply_cons, burned_cons in * by done.
  rewrite checked_add_Some by lia. cbn [mbind option_bind]. rewrite checked_add_Some by lia. cbn [mbind option_bind].
  do 2 f_equal; lia.
Qed.

(** ** The phases of a reorganisation

    [i] is on the way between the branches: the rest of the state is that of [i0], the heights
    are mapped by [hs], and the outputs and totals are those of [l].  From the height [floor]
    on, so is the in-memory output index. *)
Context (floor : Z).

Record at_chain (i0 i : Inner) (hs : gmap Z Z) (l : list Block) : Prop := {
  a_blocks : blocks i = blocks i0;
  a_tip : tip i = tip i0;
  a_genesis : genesis_hash i = genesis_hash i0;
  a_heights : height_to_hash i = hs;
  a_stats : stats i = with_supply (stats i0) (supply_of l) (burned_of l);
  a_set : same_set (utxos i) (replay l);
  a_disk : is_Some (Utxo.db (utxos i));
  a_index : indexes floor (utxos i) (replay l) }.

(** The chains that a reorganisation passes through. *)
Record sound (l : list Block) : Prop := {
  s_linked : linked l;
  s_typed : Forall typed l;
  s_roomy : roomy l;
  s_fresh : Utxo.chain_fresh (uchain l) }.

Lemma sound_tail b p l : sound (b :: p :: l) -> sound (p :: l).
Proof.
  intros [Hl Ht Hr Hf]. split; [apply Hl|by apply list.Forall_cons in Ht as [_ ?]|unfold roomy in *; cbn [length] in *; lia|apply Hf].
Qed.

Lemma sound_suffix l1 b l2 : sound (l1 ++ b :: l2) -> sound (b :: l2).
Proof.
  induction l1 as [|a l1 IH]; [done|]. intros H. apply IH. destruct l1; cbn [app] in *; by eapply sound_tail.
Qed.

Lemma connect_db_some s h txs : is_Some (Utxo.db s) -> is_Some (Utxo.db (Utxo.connect s h txs)).
Proof.
  rewrite Utxo.connect_eq. cbv zeta. cbn [Utxo.db Utxo.set_key_images].
  generalize (Utxo.adds (Utxo.batch_from_block h txs)). intros adds. revert s.
  induction adds as [|[[[[th i] o] ht] cb] l IH]; intros s Hs; cbn [fold_left]; [done|]. by apply IH.
Qed.

Lemma disconnect_db_some s txs : is_Some (Utxo.db s) -> is_Some (Utxo.db (Utxo.disconnect s txs)).
Proof.
  rewrite Utxo.disconnect_eq. cbv zeta. cbn [Utxo.db Utxo.set_key_images]. generalize (Utxo.block_keys txs). intros ks.
  revert s. induction ks as [|k l IH]; intros s Hs; cbn [fold_left]; [done|]. apply IH.
  unfold Utxo.remove_one, Utxo.remove_output. destruct Hs as [m Hm].
  destruct (Utxo.outputs s !! _), (Utxo.locator_outputs s !! _); cbn; rewrite ?Hm; try (destruct (bool_decide _)); cbn; eauto.
Qed.

Lemma accounts_at i0 i hs l : at_chain i0 i hs l -> accounts (stats i) l.
Proof. intros []. split; by rewrite a_stats0. Qed.

Lemma at_disconnect i0 i hs b p l : at_chain i0 i hs (b :: p :: l) -> sound (b :: p :: l) ->
  disconnect_fork_block n E i b
  = Some (with_utxos (with_stats i (with_supply (stats i) (supply_of (p :: l)) (burned_of (p :: l))))
            (Utxo.disconnect (utxos i) (utxo_txs E b)))
  /\ forall hs', at_chain i0
       (with_heights (with_utxos (with_stats i (with_supply (stats i) (supply_of (p :: l)) (burned_of (p :: l))))
            (Utxo.disconnect (utxos i) (utxo_txs E b))) hs') hs' (p :: l).
Proof.
  intros Ha Hs. unfold disconnect_fork_block.
  rewrite (subtract_accounts _ b p l (accounts_at _ _ _ _ Ha)) by apply Hs. split; [done|]. intros hs'.
  destruct Ha. split; inner; try done.
  - by rewrite a_stats0.
  - exact (disconnect_replay (utxos i) (block_height b) (utxo_txs E b) (uchain (p :: l)) (s_fresh _ Hs) a_set0).
  - by apply disconnect_db_some.
  - exact (disconnect_indexes floor (utxos i) (block_height b) (utxo_txs E b) (uchain (p :: l)) (s_fresh _ Hs) a_set0 a_index0).
Qed.

Lemma at_connect i0 i hs hs' b p l : at_chain i0 i hs (p :: l) -> sound (b :: p :: l) ->
  exists i', connect_block n E (with_heights i hs') b = Some i' /\ at_chain i0 i' hs' (b :: p :: l).
Proof.
  intros Ha Hs. unfold connect_block. cbn [stats with_heights].
  rewrite (add_accounts _ b p l (accounts_at _ _ _ _ Ha)) by apply Hs. eexists. split; [reflexivity|].
  destruct Ha. split; inner; try done.
  - by rewrite a_stats0.
  - exact (connect_same (block_height b) (utxo_txs E b) _ _ a_set0).
  - by apply connect_db_some.
  - exact (indexes_connect floor _ _ (block_height b) (utxo_txs E b) a_index0).
Qed.

(** *** Leaving the old branch *)

Definition mapping (l : list Block) : list (Z * Z) := map (fun b => (block_height b, hash b)) l.

Lemma disconnect_old i0 old b l : forall st hs, at_chain i0 (d_inner st) hs (old ++ b :: l) -> sound (old ++ b :: l) ->
  (forall a, a ∈ old -> hs !! block_height a = Some (hash a) /\ blocks i0 !! hash a = Some a) ->
  exists i', for_each (disconnect_step n E) (map block_height old) st
    = Some (mkDisconnected i' (d_heights st ++ mapping old) (d_txs st ++ map transactions old))
    /\ at_chain i0 i' (remove_rows (map block_height old) hs) (b :: l).
Proof.
  induction old as [|a old IH]; intros st hs Ha Hs Hm.
  { exists (d_inner st). cbn. rewrite !app_nil_r. by destruct st. }
  cbn [app] in *. assert (exists p q, old ++ b :: l = p :: q) as (p & q & Ep) by (destruct old; cbn; eauto).
  rewrite Ep in *. destruct (Hm a) as [Hh Hb]; [left|].
  destruct (at_disconnect i0 (d_inner st) hs a p q Ha Hs) as [Ed Hat].
  cbn [map for_each]. unfold disconnect_step at 2. rewrite (a_heights _ _ _ _ Ha), Hh, (a_blocks _ _ _ _ Ha), Hb.
  unfold disconnect_fork_block in Ed. destruct (subtract_block n E (stats (d_inner st)) (block_height a) a) as [s'|]; [|done].
  cbn [mbind option_bind] in *. injection Ed as Ed. cbv zeta. rewrite Ed.
  set (i1 := with_heights _ _). destruct (IH (mkDisconnected i1 (d_heights st ++ [(block_height a, hash a)])
    (d_txs st ++ [transactions a])) (delete (block_height a) hs)) as (i' & E' & Ha').
  - cbn [d_inner]. subst i1. cbn [height_to_hash with_utxos with_stats]. rewrite (a_heights _ _ _ _ Ha). apply Hat.
  - by eapply sound_tail.
  - intros c Hc. destruct (Hm c) as [Hh' Hb']; [by right|]. split; [|done]. rewrite lookup_delete_ne; [done|].
    intros Heq. destruct (list_elem_of_split _ _ Hc) as (k1 & k2 & ->).
    pose proof (s_linked _ Hs) as Hl. rewrite <- Ep, <- app_assoc in Hl. cbn [app] in Hl.
    pose proof (linked_above (a :: k1) c (k2 ++ b :: l) a Hl ltac:(left)). lia.
  - exists i'. rewrite E'. cbn [d_heights d_txs mapping map remove_rows fold_left]. by rewrite <- !app_assoc.
Qed.

(** *** Collecting the new branch *)

Lemma stored_length d l : linked l -> Forall (stored d) l -> (length l <= size (db_blocks d))%nat.
Proof.
  intros Hl Hs. pose proof (linked_hashes d l Hl Hs) as Hn.
  assert (length l = size (list_to_set (map hash l) : gset Z)) as ->.
  { rewrite size_list_to_set by done. by rewrite length_map. }
  rewrite <- (size_dom (D := gset Z) (db_blocks d)). apply subseteq_size. intros x Hx.
  apply elem_of_list_to_set, list_elem_of_fmap in Hx as (b & -> & Hb). rewrite list.Forall_forall in Hs.
  apply elem_of_dom. exists b. by apply Hs.
Qed.

Section Collect.
Context (c : Blockchain) (d : Database).
Hypothesis Hget : forall x, get_block c x = db_blocks d !! x.

Lemma collect_walk b l fuel : forall pre visited acc, linked (pre ++ b :: l) -> Forall (stored d) (pre ++ b :: l) ->
  (forall a, a ∈ pre ++ b :: l -> hash a ∉ visited) -> (length pre < fuel)%nat ->
  iter (collect_step c (block_height b)) fuel (visited, hash (hd b (pre ++ b :: l)), acc) = Some (acc ++ pre).
Proof.
  induction fuel as [|fuel IH]; intros pre visited acc Hl Hs Hv Hf; [lia|]. cbn [iter].
  destruct pre as [|a pre]; cbn [app hd] in *.
  - rewrite app_nil_r. unfold collect_step. rewrite decide_False by (apply Hv; left). rewrite Hget.
    apply list.Forall_cons in Hs as [Hb _]. unfold stored in Hb. rewrite Hb, Z.leb_refl. done.
  - unfold collect_step at 1. rewrite decide_False by (apply Hv; left). rewrite Hget.
    pose proof Hs as [Ha Hs']%list.Forall_cons. unfold stored in Ha. rewrite Ha.
    pose proof (linked_above (a :: pre) b l a Hl ltac:(left)). destruct (Z.leb_spec (block_height a) (block_height b)); [lia|].
    assert (exists p q, pre ++ b :: l = p :: q) as (p & q & Ep) by (destruct pre; cbn; eauto).
    pose proof (linked_hashes d _ Hl Hs) as Hn. cbn [map] in Hn. apply list.NoDup_cons in Hn as [Hn _].
    rewrite Ep in Hl. pose proof Hl as (Hp & _ & Hl'). rewrite <- Ep in Hl'.
    replace (prev_hash (header a)) with (hash (hd b (pre ++ b :: l))) by (rewrite Ep; by cbn).
    rewrite (IH pre); [by rewrite <- app_assoc|done|done| |cbn [length] in Hf; lia].
    intros e He. rewrite not_elem_of_union, not_elem_of_singleton. split; [|apply Hv; by right].
    intros Heq. apply Hn. rewrite <- Heq. by apply list_elem_of_fmap_2.
Qed.

Lemma collect_branch f pre b l : linked (pre ++ b :: l) -> Forall (stored d) (pre ++ b :: l) -> database c = Some d ->
  prev_hash (header f) = hash (hd b (pre ++ b :: l)) ->
  collect_fork_chain c f (block_height b) = rev pre.
Proof.
  intros Hl Hs Hd Hp. unfold collect_fork_chain. rewrite Hp.
  rewrite collect_walk; [done|done|done|set_solver|].
  pose proof (stored_length d _ Hl Hs) as Hn. rewrite length_app in Hn. cbn [length] in Hn.
  unfold ForkCalc.store_size, fork_view. rewrite Hd. cbn. unfold store. cbn. rewrite !map_size_fmap. lia.
Qed.
End Collect.

(** *** Joining the new branch *)

Definition insert_mapping (l : list Block) (hs : gmap Z Z) : gmap Z Z := foldr (fun b m => <[block_height b := hash b]> m) hs l.

(** The world of a reorganisation that has left the old branch: a cache of stored blocks. *)
Record staged (d : Database) (i0 : Inner) : Prop := {
  st_cache x b : blocks i0 !! x = Some b -> db_blocks d !! x = Some b;
  st_hash x b : db_blocks d !! x = Some b -> hash b = x /\ typed b }.

Lemma cached_parent d i0 b p l clock s cp : staged d i0 -> linked (b :: p :: l) -> Forall (stored d) (b :: p :: l) ->
  valid (validate_block_with_checkpoint_for_network (at_time E clock) b (blocks i0 !! prev_hash (header b)) s cp n) = true ->
  blocks i0 !! hash p = Some p
  /\ valid (validate_block_with_checkpoint_for_network (at_time E clock) b (Some p) s cp n) = true.
Proof.
  intros [Hc Hh] Hl Hs Hv. apply list.Forall_cons in Hs as [Hb Hs]. apply list.Forall_cons in Hs as [Hp _]. unfold stored in *.
  pose proof (linked_height _ _ Hl) as Eh. destruct Hl as (Pb & _ & _). rewrite Pb in Hv.
  destruct (blocks i0 !! hash p) as [q|] eqn:Eq.
  - pose proof (Hc _ _ Eq) as Hq. rewrite Hp in Hq. injection Hq as ->. done.
  - apply accepted_at in Hv; [|by destruct (Hh _ _ Hb)]. destruct Hv as [_ _ [_ Hl _ _ _] _ _ _ _ _ _ _ _ _ _ _ _ _].
    cbn in Hl. unfold block_height in *. cbn [length] in Eh. lia.
Qed.

Lemma target_ok_total window b : exists r, target_ok n window b = Some r.
Proof.
  unfold target_ok. destruct (2 <=? length window)%nat eqn:El; [|eauto]. apply Nat.leb_le in El.
  destruct (Difficulty.calculate_difficulty_shape window (block_height b) El) as (t & sa & la & _ & _ & _ & Ec).
  unfold expected_next_target. rewrite (proj2 (Nat.leb_le 2 (length window)) El), Ec.
  destruct n; cbn [mbind option_bind]; try (destruct (_ <=? Difficulty.MIN_DIFFICULTY)); cbn [mbind option_bind]; eauto.
Qed.

Lemma check_fork_total clock c i fp branch k b : exists v, check_fork_block n E sc clock c i fp branch k b = Some v
  /\ (v = None -> valid (validate_block_with_checkpoint_for_network (at_time E clock) b
                           (blocks i !! prev_hash (header b)) (utxos i) None n) = true).
Proof.
  unfold check_fork_block. destruct (valid _) eqn:Ev; cbn [negb]; [|by eexists].
  destruct (target_ok_total (reorg_window c i fp branch k (block_height b)) b) as [r Er].
  destruct (1 <=? block_height b); [rewrite Er|]; cbn [mbind option_bind];
    [destruct r|]; cbn [negb]; try (destruct (commitment_ok _ _ _ _ _)); cbn [negb]; by eexists.
Qed.

(** The chain [l] with the blocks of the branch that were connected. *)
Record joined (d : Database) (i0 : Inner) (done : list Block) (q : Block) (l : list Block) : Prop := {
  j_sound : sound (rev done ++ q :: l);
  j_valid : validated (rev done ++ q :: l);
  j_cached : Forall (fun a => blocks i0 !! hash a = Some a) (tail (rev done ++ [q])) }.

Lemma joined_snoc d i0 done q l b s clock : staged d i0 -> joined d i0 done q l ->
  linked (b :: rev done ++ q :: l) -> Forall (stored d) (b :: rev done ++ q :: l) -> good (b :: rev done ++ q :: l) ->
  same_set s (replay (rev done ++ q :: l)) ->
  valid (validate_block_with_checkpoint_for_network (at_time E clock) b (blocks i0 !! prev_hash (header b)) s None n) = true ->
  joined d i0 (done ++ [b]) q l.
Proof.
  intros Hst [Hs Hv Hc] Hl Hd Hg Hset Hok.
  assert (exists p r, rev done ++ q :: l = p :: r /\ hd q (rev done ++ [q]) = p) as (p & r & Ep & Eh)
    by (destruct (rev done); cbn; eauto).
  rewrite Ep in *. destruct (cached_parent d i0 b p r clock s None Hst Hl Hd Hok) as [Hp Hok'].
  assert (Hb : typed b). { apply list.Forall_cons in Hd as [Hb _]. by destruct (st_hash _ _ Hst _ _ Hb). }
  split; rewrite rev_app_distr; cbn [rev app]; rewrite ?Ep.
  - split; [done|constructor; [done|apply (s_typed _ Hs)]|pose proof (good_length _ Hg); unfold roomy; lia|].
    apply accepted_at in Hok'; [|done]. split; [|apply (s_fresh _ Hs)].
    eapply fresh_above; [apply (s_fresh _ Hs)|done|done|apply (good_keys _ Hg)].
  - split; [done|]. split; [|done]. by exists s, clock, None.
  - cbn [tail]. destruct (rev done ++ [q]) as [|x t] eqn:Et; [by destruct (rev done)|]. cbn [hd tail] in *. subst x.
    by constructor.
Qed.

(** The loop over the branch: it connects some of the blocks, and all of them when it reports
    no error. *)
Lemma connect_branch_spec d i0 clock c fp branch q l hs : staged d i0 -> forall todo done k i,
  joined d i0 done q l -> at_chain i0 i (insert_mapping (rev done) hs) (rev done ++ q :: l) ->
  linked (rev (done ++ todo) ++ q :: l) -> Forall (stored d) (rev (done ++ todo) ++ q :: l) ->
  good (rev (done ++ todo) ++ q :: l) ->
  exists i' r done' rest, connect_branch n E sc clock c fp branch k todo i = Some (i', r)
    /\ done ++ todo = done' ++ rest /\ (r = None -> rest = [])
    /\ joined d i0 done' q l /\ at_chain i0 i' (insert_mapping (rev done') hs) (rev done' ++ q :: l).
Proof.
  intros Hst. induction todo as [|b todo IH]; intros done k i Hj Ha Hl Hd Hg.
  { rewrite app_nil_r in *. exists i, None, done, []. rewrite app_nil_r. done. }
  cbn [connect_branch]. destruct (check_fork_total clock c i fp branch k b) as (v & -> & Hv). cbn [mbind option_bind].
  destruct v as [why|]; [exists i, (Some why), done, (b :: todo); by split_and!|].
  specialize (Hv eq_refl). rewrite (a_blocks _ _ _ _ Ha) in Hv.
  replace (done ++ b :: todo) with ((done ++ [b]) ++ todo) in * by (by rewrite <- app_assoc).
  assert (Hsuf : exists k1, rev ((done ++ [b]) ++ todo) ++ q :: l = k1 ++ b :: rev done ++ q :: l).
  { exists (rev todo). rewrite !rev_app_distr. cbn [rev app]. by rewrite <- !app_assoc. }
  destruct Hsuf as [k1 Ek].
  assert (Hl1 : linked (b :: rev done ++ q :: l)) by (rewrite Ek in Hl; by eapply linked_app).
  assert (Hd1 : Forall (stored d) (b :: rev done ++ q :: l)) by (rewrite Ek in Hd; by apply list.Forall_app in Hd as [_ ?]).
  assert (Hg1 : good (b :: rev done ++ q :: l)) by (rewrite Ek in Hg; by eapply good_suffix).
  pose proof (joined_snoc d i0 done q l b _ clock Hst Hj Hl1 Hd1 Hg1 (a_set _ _ _ _ Ha) Hv) as Hj'.
  pose proof (j_sound _ _ _ _ _ Hj') as Hs'. rewrite rev_app_distr in Hs'. cbn [rev app] in Hs'.
  assert (exists p r, rev done ++ q :: l = p :: r) as (p & r & Ep) by (destruct (rev done); cbn; eauto).
  rewrite Ep in Ha, Hs'.
  destruct (at_connect i0 i _ (<[block_height b := hash b]> (height_to_hash i)) b p r Ha Hs') as (i' & Ec & Ha').
  unfold connect_fork_block. rewrite Ec. cbn [mbind option_bind].
  apply (IH (done ++ [b]) (S k) i'); [done| |done..].
  rewrite rev_app_distr. cbn [rev app insert_mapping foldr]. rewrite (a_heights _ _ _ _ Ha) in Ha'. by rewrite Ep.
Qed.

(** *** The ways back *)

Lemma for_each_app {A S} (f : S -> A -> option S) l1 l2 s :
  for_each f (l1 ++ l2) s = (s' ← for_each f l1 s; for_each f l2 s').
Proof. revert s. induction l1 as [|a l1 IH]; intros s; [done|]. cbn [app for_each]. destruct (f s a); [apply IH|done]. Qed.

Lemma at_heights i0 i hs hs' l : at_chain i0 i hs l -> at_chain i0 (with_heights i hs') hs' l.
Proof. by intros []. Qed.

Lemma at_undo i0 i hs b p l : at_chain i0 i hs (b :: p :: l) -> sound (b :: p :: l) ->
  exists i', disconnect_fork_block n E i b = Some i' /\ at_chain i0 i' hs (p :: l).
Proof.
  intros Ha Hs. destruct (at_disconnect i0 i hs b p l Ha Hs) as [-> H]. eexists. split; [done|].
  specialize (H hs). destruct H. split; try done. by destruct Ha.
Qed.

Lemma undo_all i0 hs q l : forall gone i, at_chain i0 i hs (gone ++ q :: l) -> sound (gone ++ q :: l) ->
  exists i', for_each (disconnect_fork_block n E) gone i = Some i' /\ at_chain i0 i' hs (q :: l).
Proof.
  induction gone as [|b gone IH]; intros i Ha Hs; [by exists i|]. cbn [app for_each] in *.
  assert (exists p r, gone ++ q :: l = p :: r) as (p & r & Ep) by (destruct gone; cbn; eauto). rewrite Ep in *.
  destruct (at_undo i0 i hs b p r Ha Hs) as (i' & -> & Ha'). cbn [mbind option_bind]. apply IH; [done|by eapply sound_tail].
Qed.

(** The guarded loop does the same when just these blocks are mapped. *)
Lemma undo_mapped_all i0 hs q l rest gone i : at_chain i0 i hs (gone ++ q :: l) -> sound (gone ++ q :: l) ->
  (forall a, a ∈ gone -> hs !! block_height a = Some (hash a)) -> (forall a, a ∈ rest -> hs !! block_height a = None) ->
  exists i', for_each (undo_mapped n E) (rest ++ gone) i = Some i' /\ at_chain i0 i' hs (q :: l).
Proof.
  intros Ha Hs Hg Hr. rewrite for_each_app.
  assert (for_each (undo_mapped n E) rest i = Some i) as ->.
  { induction rest as [|a rest IH]; [done|]. cbn [for_each]. unfold undo_mapped at 2. rewrite (a_heights _ _ _ _ Ha), Hr by left.
    rewrite bool_decide_eq_false_2 by done. cbn [mbind option_bind]. apply IH. intros. apply Hr. by right. }
  cbn [mbind option_bind]. revert i Ha. induction gone as [|b gone IH]; intros i Ha; [by exists i|]. cbn [app for_each] in *.
  assert (exists p r, gone ++ q :: l = p :: r) as (p & r & Ep) by (destruct gone; cbn; eauto). rewrite Ep in *.
  destruct (at_undo i0 i hs b p r Ha Hs) as (i' & Ei & Ha'). unfold undo_mapped at 2.
  rewrite (a_heights _ _ _ _ Ha), Hg by left. rewrite bool_decide_eq_true_2 by done. rewrite Ei. cbn [mbind option_bind].
  apply IH; [by eapply sound_tail| |done]. intros. apply Hg. by right.
Qed.

Lemma reconnect_all up : forall i B, is_Some (Utxo.db (utxos i)) -> same_set (utxos i) (replay B) ->
  indexes floor (utxos i) (replay B) ->
  (forall a, a ∈ up -> blocks i !! hash a = Some a) ->
  let i' := fold_left (reconnect_step E) (mapping up) i in
  blocks i' = blocks i /\ tip i' = tip i /\ stats i' = stats i /\ genesis_hash i' = genesis_hash i
  /\ height_to_hash i' = insert_rows (mapping up) (height_to_hash i)
  /\ same_set (utxos i') (replay (rev up ++ B)) /\ is_Some (Utxo.db (utxos i'))
  /\ indexes floor (utxos i') (replay (rev up ++ B)).
Proof.
  induction up as [|a up IH]; intros i B Hd Hs Hx Hb; [by split_and!|].
  cbn [mapping map fold_left]. fold (mapping up). set (i1 := reconnect_step E i (block_height a, hash a)).
  assert (E1 : i1 = with_utxos (with_heights i (<[block_height a := hash a]> (height_to_hash i)))
    (persist_output_index (block_height a) (transactions a) (Utxo.connect (utxos i) (block_height a) (utxo_txs E a)))).
  { unfold i1, reconnect_step. inner. rewrite Hb by left. done. }
  clearbody i1. subst i1. set (i1 := with_utxos _ _).
  destruct (IH i1 (a :: B)) as (H1 & H2 & H3 & H4 & H5 & H6 & H7 & H8).
  - subst i1. inner. unfold persist_output_index, with_disk. cbn [Utxo.db].
    destruct (connect_db_some (utxos i) (block_height a) (utxo_txs E a) Hd) as [m ->]. eauto.
  - subst i1. inner. unfold replay. cbn [uchain map Utxo.replay]. fold (uchain B) (replay B).
    etransitivity; [apply persist_same|]. exact (connect_same _ _ _ _ Hs).
  - subst i1. inner. by eapply indexes_eq; [| |exact (indexes_connect floor _ _ (block_height a) (utxo_txs E a) Hx)].
  - subst i1. inner. intros e He. apply Hb. by right.
  - cbv zeta. cbn [rev]. rewrite <- app_assoc. by split_and!.
Qed.

(** *** From branch to branch *)

Lemma heights_down_old old q l : linked (old ++ q :: l) ->
  heights_down (block_height q) (Z.of_nat (length (old ++ q :: l)) - 1) = map block_height old.
Proof.
  intros Hl. assert (Hq : block_height q = Z.of_nat (length l)) by (apply linked_height; by eapply linked_app).
  apply list_eq. intros i. unfold heights_down. rewrite length_app in *. cbn [length] in *.
  rewrite !list_lookup_fmap. destruct (decide (i < length old)%nat) as [Hi|Hi].
  - destruct (lookup_lt_is_Some_2 old i Hi) as [a Ha]. rewrite Ha, lookup_seq_lt by lia. cbn. f_equal.
    rewrite (linked_lookup _ i a Hl) by (by apply lookup_app_l_Some). rewrite length_app. cbn [length]. lia.
  - rewrite (proj2 (lookup_ge_None old i)), (proj2 (lookup_ge_None (seq _ _) i)) by (rewrite ?length_seq; lia). done.
Qed.

Lemma insert_mapping_other l hs h : (forall a, a ∈ l -> block_height a <> h) -> insert_mapping l hs !! h = hs !! h.
Proof.
  induction l as [|a l IH]; intros Hn; [done|]. cbn [insert_mapping foldr]. fold (insert_mapping l hs).
  rewrite lookup_insert_ne by (apply Hn; left). apply IH. intros b Hb. apply Hn. by right.
Qed.

Lemma insert_mapping_in k q l hs a : linked (k ++ q :: l) -> a ∈ k -> insert_mapping k hs !! block_height a = Some (hash a).
Proof.
  induction k as [|b k IH]; intros Hl Ha; [by apply elem_of_nil in Ha|]. cbn [insert_mapping foldr]. fold (insert_mapping k hs).
  apply elem_of_cons in Ha as [->|Ha]; [apply lookup_insert_eq|].
  destruct (list_elem_of_split _ _ Ha) as (k1 & k2 & ->).
  pose proof Hl as Hl'. cbn [app] in Hl'. rewrite <- app_assoc in Hl'. cbn [app] in Hl'. rewrite app_comm_cons in Hl'.
  pose proof (linked_above (b :: k1) a (k2 ++ q :: l) b Hl' ltac:(left)).
  rewrite lookup_insert_ne by lia. apply IH; [|done].
  destruct ((k1 ++ a :: k2) ++ q :: l) as [|p r] eqn:Ep; [by destruct k1|]. cbn [app] in Hl. rewrite Ep in Hl. apply Hl.
Qed.

Lemma mapping_fst l : map fst (mapping l) = map block_height l.
Proof. unfold mapping. by rewrite map_map. Qed.

Lemma linked_heights_nodup l : linked l -> NoDup (map block_height l).
Proof.
  intros Hl. apply list.NoDup_fmap_2_strong; [intros a b Ha Hb; by apply (linked_inj l)|].
  apply NoDup_alt. intros i j b Hi Hj. pose proof (linked_lookup l i b Hl Hi). pose proof (linked_lookup l j b Hl Hj). lia.
Qed.

(** The heights after a way back are the ones before. *)
Lemma heights_restored H0 old q l gone top : linked (old ++ q :: l) ->
  (forall h x, H0 !! h = Some x -> exists a, a ∈ old ++ q :: l /\ block_height a = h /\ hash a = x) ->
  (forall a, a ∈ old -> H0 !! block_height a = Some (hash a)) ->
  (forall a, a ∈ gone -> block_height q < block_height a <= top) ->
  (forall a, a ∈ old -> block_height a <= top) ->
  insert_rows (mapping (rev old))
    (remove_rows (heights_down (block_height q) top)
       (insert_mapping gone (remove_rows (map block_height old) H0))) = H0.
Proof.
  intros Hl Hin Hold Hgone Htop. apply map_eq. intros h.
  assert (Hn : NoDup (map fst (mapping (rev old)))).
  { rewrite mapping_fst, map_rev, <- (Permutation_rev (map block_height old)). apply linked_heights_nodup in Hl. rewrite map_app in Hl.
    by apply list.NoDup_app in Hl as (? & _). }
  destruct (decide (h ∈ map block_height old)) as [Hh|Hh].
  - apply list_elem_of_fmap in Hh as (a & -> & Ha). rewrite Hold by done.
    apply insert_rows_in; [done|]. unfold mapping. apply list_elem_of_fmap. exists a. split; [done|].
    by apply elem_rev.
  - rewrite insert_rows_other.
    2: { rewrite mapping_fst, map_rev. by rewrite elem_rev. }
    rewrite remove_rows_lookup. destruct (decide _) as [Hd|Hd].
    + apply heights_down_elem in Hd. destruct (H0 !! h) as [x|] eqn:Ex; [|done].
      destruct (Hin h x Ex) as (a & Ha & <- & _). apply elem_of_app in Ha as [Ha|Ha].
      * destruct Hh. by apply list_elem_of_fmap_2.
      * pose proof (linked_below q l a (linked_app _ _ _ Hl) Ha). lia.
    + rewrite insert_mapping_other.
      * rewrite remove_rows_lookup. by rewrite decide_False.
      * intros a Ha <-. apply Hd. apply heights_down_elem. by apply Hgone.
Qed.

(** *** The reorganisation as a whole *)

Abbreviation gtxs := (Z.of_nat (length (transactions genesis))) (only parsing).

(** The state [i] is [i0] again. *)
Record restored (i0 i : Inner) : Prop := {
  r_blocks : blocks i = blocks i0;
  r_heights : height_to_hash i = height_to_hash i0;
  r_tip : tip i = tip i0;
  r_stats : stats i = stats i0;
  r_genesis : genesis_hash i = genesis_hash i0;
  r_set : same_set (utxos i) (utxos i0);
  r_disk : is_Some (Utxo.db (utxos i)) }.

Lemma ledger_txs_app k q l :
  Ledger.tx_sum (ledger (k ++ q :: l)) = total_len (map transactions k) + Ledger.tx_sum (ledger (q :: l)).
Proof.
  induction k as [|a k IH]; [done|]. cbn [app]. destruct (k ++ q :: l) as [|p r] eqn:Ep; [by destruct k|].
  rewrite ledger_txs, IH. cbn [total_len map foldr]. unfold total_len. lia.
Qed.

Lemma total_len_app {A} (l1 l2 : list (list A)) : total_len (l1 ++ l2) = total_len l1 + total_len l2.
Proof. unfold total_len. induction l1 as [|x l1 IH]; cbn [app foldr]; lia. Qed.

Lemma total_len_rev {A} (l : list (list A)) : total_len (rev l) = total_len l.
Proof. induction l as [|x l IH]; [done|]. cbn [rev]. rewrite total_len_app, IH. unfold total_len. cbn [foldr]. lia. Qed.

Lemma total_len_nonneg {A} (l : list (list A)) : 0 <= total_len l.
Proof. unfold total_len. induction l as [|x l IH]; cbn [foldr]; lia. Qed.

Lemma validated_suffix l1 b l2 : validated (l1 ++ b :: l2) -> validated (b :: l2).
Proof.
  induction l1 as [|a l1 IH]; [done|]. intros H. apply IH. destruct l1; cbn [app] in *; apply H.
Qed.

Lemma app_ne_cons {A} (k : list A) q l : exists p r, k ++ q :: l = p :: r.
Proof. destruct k; cbn; eauto. Qed.

Section Reorganise.
Context (clock : Z * Z) (c : Blockchain) (d : Database) (old : list Block) (q : Block) (l : list Block)
  (b : Block) (pre : list Block) (w : Z).
Let i0 := inner c.
Let H0 := height_to_hash i0.
Hypothesis Hdb : database c = Some d.
Hypothesis Hst : staged d i0.
Hypothesis Hsound : sound (old ++ q :: l).
Hypothesis Hvalid : validated (old ++ q :: l).
Hypothesis Htotals : Ledger.totals n gtxs (stats i0) (ledger (old ++ q :: l)).
Hypothesis Hset : same_set (utxos i0) (replay (old ++ q :: l)).
Hypothesis Hdisk : is_Some (Utxo.db (utxos i0)).
Hypothesis Hix : indexes floor (utxos i0) (replay (old ++ q :: l)).
Hypothesis Hmapped : forall h x, H0 !! h = Some x -> exists a, a ∈ old ++ q :: l /\ block_height a = h /\ hash a = x.
Hypothesis Hcached : forall a, a ∈ old -> H0 !! block_height a = Some (hash a) /\ blocks i0 !! hash a = Some a.
Hypothesis Htip : tip_height (tip i0) = Z.of_nat (length (old ++ q :: l)) - 1.
Hypothesis Hlinked : linked (b :: pre ++ q :: l).
Hypothesis Hstored : Forall (stored d) (b :: pre ++ q :: l).
Hypothesis Hgood : good (b :: pre ++ q :: l).
Hypothesis Hwork : w = 1 + Ledger.work_sum (ledger (b :: pre ++ q :: l)).

Definition left_heights : gmap Z Z := remove_rows (map block_height old) H0.

Lemma totals_accounts s k : k <> [] -> Ledger.totals n gtxs s (ledger k) -> accounts s k.
Proof.
  intros Hk (_ & _ & Es & Eb & _). split; [|done]. rewrite Es. unfold supply_of. f_equal.
  destruct k as [|a k]; [done|]. by rewrite ledger_length.
Qed.

Lemma start_at : at_chain i0 i0 H0 (old ++ q :: l).
Proof.
  assert (Hne : old ++ q :: l <> []) by (by destruct old).
  destruct (totals_accounts _ _ Hne Htotals) as [Es Eb]. split; try done.
  rewrite <- Es, <- Eb. by destruct (stats i0).
Qed.

Lemma left_none a : a ∈ b :: pre -> left_heights !! block_height a = None.
Proof.
  intros Ha. unfold left_heights. rewrite remove_rows_lookup. destruct (decide _) as [|Hn]; [done|].
  destruct (H0 !! block_height a) as [x|] eqn:Ex; [|done]. destruct (Hmapped _ _ Ex) as (e & He & Hh & _).
  pose proof (linked_above (b :: pre) q l a Hlinked Ha). apply elem_of_app in He as [He|He].
  - destruct Hn. rewrite <- Hh. by apply list_elem_of_fmap_2.
  - pose proof (linked_below q l e (linked_app _ _ _ (s_linked _ Hsound)) He). lia.
Qed.

Lemma old_top a : a ∈ old -> block_height a <= tip_height (tip i0).
Proof.
  intros Ha. rewrite Htip. pose proof (linked_bounds _ a (s_linked _ Hsound) ltac:(by apply elem_of_app; left)). lia.
Qed.

Lemma restore_main_spec i gone top pre_tip pre_stats : at_chain i0 i (insert_mapping gone left_heights) (q :: l) ->
  (forall a, a ∈ gone -> block_height q < block_height a <= top) -> tip_height (tip i0) <= top ->
  pre_tip = tip i0 -> pre_stats = stats i0 ->
  let i' := restore_main E i (block_height q) top (mapping old) pre_tip pre_stats in
  restored i0 i' /\ indexes floor (utxos i') (replay (old ++ q :: l)).
Proof.
  intros Ha Hgone Htop -> ->. cbv zeta. unfold restore_main.
  replace (rev (mapping old)) with (mapping (rev old)) by apply map_rev.
  set (i1 := with_heights i _).
  destruct (reconnect_all (rev old) i1 (q :: l)) as (H1 & H2 & H3 & H4 & H5 & H6 & H7 & H8).
  - subst i1. inner. apply (a_disk _ _ _ _ Ha).
  - subst i1. inner. apply (a_set _ _ _ _ Ha).
  - subst i1. inner. apply (a_index _ _ _ _ Ha).
  - subst i1. inner. rewrite (a_blocks _ _ _ _ Ha). intros a Hin. apply Hcached. by apply elem_rev.
  - subst i1. inner in H1. inner in H2. inner in H3. inner in H4. inner in H5. rewrite rev_involutive in H6, H8.
    split; [|done]. split; inner; [by rewrite H1, (a_blocks _ _ _ _ Ha)| |done|done|by rewrite H4, (a_genesis _ _ _ _ Ha)| |done].
    + rewrite H5, (a_heights _ _ _ _ Ha). unfold left_heights. apply (heights_restored H0 old q l).
      * apply Hsound.
      * done.
      * intros a Hin. by apply Hcached.
      * done.
      * intros a Hin. pose proof (old_top a Hin). lia.
    + by rewrite H6, Hset.
Qed.

Lemma left_main : exists i1,
  disconnect_main n E i0 (block_height q) = Some (mkDisconnected i1 (mapping old) (map transactions old))
  /\ at_chain i0 i1 left_heights (q :: l).
Proof.
  unfold disconnect_main. rewrite Htip, heights_down_old by apply Hsound.
  apply (disconnect_old i0 old q l (mkDisconnected i0 [] []) H0 start_at Hsound). apply Hcached.
Qed.

Lemma branch_linked : linked (pre ++ q :: l).
Proof. pose proof Hlinked as H. destruct (app_ne_cons pre q l) as (p & r & Ep). rewrite Ep in *. apply H. Qed.

Lemma branch_parent : prev_hash (header b) = hash (hd q (pre ++ q :: l)).
Proof. pose proof Hlinked as H. destruct (app_ne_cons pre q l) as (p & r & Ep). rewrite Ep in *. apply H. Qed.

Lemma branch_stored : Forall (stored d) (pre ++ q :: l).
Proof. by apply list.Forall_cons in Hstored as [_ ?]. Qed.

Lemma branch_good : good (pre ++ q :: l).
Proof. destruct (app_ne_cons pre q l) as (p & r & Ep). pose proof Hgood as H. rewrite Ep in *. by eapply good_tail. Qed.

Lemma start_joined : joined d i0 [] q l.
Proof. split; cbn; [by eapply sound_suffix|by eapply validated_suffix|done]. Qed.

Lemma get_stored i dbo x : blocks i = blocks i0 -> dbo = Some d -> get_block (mkChain i dbo) x = db_blocks d !! x.
Proof.
  intros Hb ->. unfold get_block. cbn [inner database]. rewrite Hb. destruct (blocks i0 !! x) as [a|] eqn:Ea; [|done].
  symmetry. by apply (st_cache _ _ Hst).
Qed.

(** The blocks of the branch lie above the fork point. *)
Lemma branch_above a : a ∈ pre -> block_height q < block_height a.
Proof. apply (linked_above pre q l), branch_linked. Qed.

Lemma undo_a i gone rest : pre = rest ++ gone -> at_chain i0 i (insert_mapping gone left_heights) (gone ++ q :: l) ->
  sound (gone ++ q :: l) -> exists i', rollback_a n E i (block_height q) (rev pre) (mapping old) (tip i0) (stats i0) = Some i'
    /\ restored i0 i' /\ indexes floor (utxos i') (replay (old ++ q :: l)).
Proof.
  intros Ep Ha Hs. unfold rollback_a. rewrite rev_involutive.
  destruct (undo_mapped_all i0 (insert_mapping gone left_heights) q l rest gone i) as (i' & Eu & Ha'); [done|done| | |].
  - intros a Hin. apply (insert_mapping_in gone q l); [apply Hs|done].
  - intros a Hin. rewrite insert_mapping_other; [apply left_none; right; rewrite Ep; by apply elem_of_app; left|].
    intros e He. destruct (list_elem_of_split _ _ He) as (k1 & k2 & ->). pose proof branch_linked as Hl. rewrite Ep in Hl.
    rewrite <- !app_assoc in Hl. cbn [app] in Hl. rewrite app_assoc in Hl.
    pose proof (linked_above (rest ++ k1) e (k2 ++ q :: l) a Hl ltac:(apply elem_of_app; by left)). lia.
  - rewrite <- Ep in Eu. rewrite Eu. cbn [mbind option_bind]. eexists. split; [reflexivity|].
    apply (restore_main_spec i' gone); [done| |lia|done|done]. intros a Hin. assert (Hap : a ∈ pre) by (rewrite Ep; by apply elem_of_app; right).
    split; [by apply branch_above|].
    assert (Har : In a (rev pre)) by (by apply list_elem_of_In, elem_rev).
    destruct (rev pre) as [|x xs]; [done|].
    pose proof (Security.fold_max_ge (map block_height xs) (block_height x) (block_height a) (in_map block_height (x :: xs) a Har)). lia.
Qed.

Lemma undo_b i : at_chain i0 i (insert_mapping pre left_heights) (pre ++ q :: l) -> sound (pre ++ q :: l) ->
  exists i', rollback_b n E i (block_height q) (rev pre) b (mapping old) (tip i0) (stats i0) = Some i'
    /\ restored i0 i' /\ indexes floor (utxos i') (replay (old ++ q :: l)).
Proof.
  intros Ha Hs. unfold rollback_b. rewrite rev_involutive.
  destruct (undo_all i0 (insert_mapping pre left_heights) q l pre i Ha Hs) as (i' & -> & Ha'). cbn [mbind option_bind].
  eexists. split; [reflexivity|]. apply (restore_main_spec i' pre); [done| |lia|done|done].
  intros a Hin. split; [by apply branch_above|]. destruct (list_elem_of_split _ _ Hin) as (k1 & k2 & Ek).
  pose proof Hlinked as Hl. rewrite Ek, <- app_assoc in Hl. cbn [app] in Hl.
  pose proof (linked_above (b :: k1) a (k2 ++ q :: l) b Hl ltac:(left)). lia.
Qed.

(** The state after the branch was adopted. *)
Record adopted (c' : Blockchain) : Prop := {
  ad_blocks : blocks (inner c') = blocks i0;
  ad_heights : height_to_hash (inner c') = insert_mapping (b :: pre) left_heights;
  ad_tip : tip (inner c') = tip_of E b;
  ad_totals : Ledger.totals n gtxs (stats (inner c')) (ledger (b :: pre ++ q :: l));
  ad_height : Ledger.height (stats (inner c')) = block_height b /\ Ledger.tip_hash (stats (inner c')) = hash b
    /\ Ledger.difficulty (stats (inner c')) = work b;
  ad_set : same_set (utxos (inner c')) (replay (b :: pre ++ q :: l));
  ad_disk : is_Some (Utxo.db (utxos (inner c')));
  ad_index : indexes floor (utxos (inner c')) (replay (b :: pre ++ q :: l));
  ad_joined : joined d i0 (rev pre ++ [b]) q l;
  ad_db : exists u, database c'
    = Some (fst (persist_reorg E (tip i0) (stats (inner c')) w (rev pre) b (map transactions old) (d, u))) }.

Lemma counted total gone came : 0 <= gone <= total -> 0 <= came -> total - gone + came <= u64_max ->
  match checked_sub total gone with Some v => saturating_add u64_max v came | None => came end = total - gone + came.
Proof. intros. rewrite checked_sub_Some by lia. unfold saturating_add. lia. Qed.

Lemma adopt_spec i : at_chain i0 i (insert_mapping pre left_heights) (pre ++ q :: l) ->
  joined d i0 (rev pre ++ [b]) q l ->
  exists i', adopt_tip n E i b w (rev pre) (map transactions old) = Some i'
    /\ forall u c', c' = mkChain (with_utxos i' (snd (persist_reorg E (tip i0) (stats i') w (rev pre) b (map transactions old) (d, u))))
                          (Some (fst (persist_reorg E (tip i0) (stats i') w (rev pre) b (map transactions old) (d, u)))) ->
         u = utxos i' -> adopted c'.
Proof.
  intros Ha Hj. pose proof (j_sound _ _ _ _ _ Hj) as Hs. rewrite rev_app_distr, rev_involutive in Hs. cbn [rev app] in Hs.
  destruct (app_ne_cons pre q l) as (p & r & Ep). rewrite Ep in Ha, Hs.
  destruct (at_connect i0 i _ (height_to_hash i) b p r Ha Hs) as (i' & Ec & Ha').
  assert (Ei : with_heights i (height_to_hash i) = i) by (by destruct i). rewrite Ei in Ec.
  unfold adopt_tip. rewrite Ec. cbn [mbind option_bind]. eexists. split; [reflexivity|]. intros u c' -> ->.
  pose proof Htotals as (Tb & Tt & Ts & Tu & Td). rewrite ledger_txs_app in Tt.
  pose proof Hgood as [_ _ Gt Gn]. rewrite app_comm_cons, ledger_txs_app in Gt. cbn [map total_len foldr] in Gt.
  fold (total_len (map transactions pre)) in Gt. cbn [length] in Gn. rewrite length_app in Gn. cbn [length] in Gn.
  pose proof (total_len_nonneg (map transactions old)) as P1. pose proof (total_len_nonneg (map transactions pre)) as P2.
  pose proof (Ledger.tx_sum_nonneg (ledger (q :: l))) as P3.
  assert (Lo : Z.of_nat (length (ledger (old ++ q :: l))) = Z.of_nat (length old) + Z.of_nat (length l)).
  { destruct (app_ne_cons old q l) as (x & y & Ex). pose proof (f_equal length Ex) as El. rewrite Ex, ledger_length.
    rewrite length_app in El. cbn [length] in El. lia. }
  rewrite Lo in Tb.
  assert (Tb' : Ledger.total_blocks (stats i') = Ledger.total_blocks (stats i0)) by (by rewrite (a_stats _ _ _ _ Ha')).
  assert (Tt' : Ledger.total_transactions (stats i') = Ledger.total_transactions (stats i0)) by (by rewrite (a_stats _ _ _ _ Ha')).
  rewrite !length_rev, !map_rev, total_len_rev, !length_map.
  rewrite (wrap_small u64_max (Z.of_nat (length pre) + 1)) by (unfold fits; lia).
  rewrite (wrap_small u64_max (total_len (map transactions pre) + Z.of_nat (length (transactions b)))) by (unfold fits; lia).
  rewrite !counted by lia.
  split; cbn [inner database]; inner.
  - apply (a_blocks _ _ _ _ Ha').
  - rewrite (a_heights _ _ _ _ Ha'), (a_heights _ _ _ _ Ha). done.
  - done.
  - unfold Ledger.totals. cbn [Ledger.total_blocks Ledger.total_transactions Ledger.total_supply Ledger.total_burned Ledger.total_difficulty].
    destruct (accounts_at _ _ _ _ Ha') as [As Au]. rewrite Ep. split_and!.
    + rewrite ledger_length, <- Ep, length_app. cbn [length]. lia.
    + rewrite <- Ep, app_comm_cons, ledger_txs_app. cbn [map total_len foldr]. fold (total_len (map transactions pre)). lia.
    + rewrite As. unfold supply_of. by rewrite ledger_length.
    + done.
    + rewrite <- Ep. exact Hwork.
  - done.
  - unfold persist_reorg, apply_reorg_atomic. cbn [snd]. etransitivity; [apply with_disk_same|]. rewrite Ep. apply (a_set _ _ _ _ Ha').
  - unfold persist_reorg, apply_reorg_atomic. cbn [snd with_disk Utxo.db].
    destruct (a_disk _ _ _ _ Ha') as [m ->]. eauto.
  - rewrite Ep. by eapply indexes_eq; [| |exact (a_index _ _ _ _ Ha')].
  - done.
  - eexists. reflexivity.
Qed.

(** A reorganisation always ends in one of the two. *)
Lemma reorganise_spec : exists c' st, reorganise n E sc clock c b (block_height q) w = Some (c', st)
  /\ (((exists why, st = Invalid why) /\ database c' = Some d /\ restored i0 (inner c')
        /\ indexes floor (utxos (inner c')) (replay (old ++ q :: l)))
      \/ (st = AcceptedReorg (List.filter (fun t => negb (is_coinbase t)) (concat (map transactions old))) /\ adopted c')).
Proof.
  unfold reorganise. fold i0. destruct left_main as (i1 & -> & Ha1). cbn [mbind option_bind d_inner d_heights d_txs].
  rewrite (collect_branch (mkChain i1 (database c)) d (fun x => get_stored i1 (database c) x (a_blocks _ _ _ _ Ha1) Hdb) b pre q l
    branch_linked branch_stored Hdb branch_parent).
  destruct (connect_branch_spec d i0 clock (mkChain i1 (database c)) (block_height q) (rev pre) q l left_heights Hst
    (rev pre) [] 0 i1 start_joined Ha1) as (i2 & r & done' & rest & -> & Ed & Hr & Hj & Ha2).
  { cbn [app]. rewrite rev_involutive. exact branch_linked. }
  { cbn [app]. rewrite rev_involutive. exact branch_stored. }
  { cbn [app]. rewrite rev_involutive. exact branch_good. }
  cbn [mbind option_bind app] in *.
  assert (Ep : pre = rev rest ++ rev done') by (by rewrite <- rev_app_distr, <- Ed, rev_involutive).
  destruct (match r with Some why => Some why | None => check_tip n E sc clock i2 b end) as [why|] eqn:Eerr.
  - destruct (undo_a i2 (rev done') (rev rest) Ep Ha2 (j_sound _ _ _ _ _ Hj)) as (i3 & -> & Hres & Hri). cbn [mbind option_bind].
    do 2 eexists. split; [reflexivity|]. left. split_and!; [by eexists|done..].
  - destruct r as [|]; [done|]. rewrite Hr in * by done. cbn [rev app] in Ep. rewrite <- Ep in Ha2.
    assert (Hok : valid (validate_block_with_checkpoint_for_network (at_time E clock) b (blocks i0 !! prev_hash (header b))
      (utxos i2) None n) = true).
    { unfold check_tip in Eerr. rewrite (a_blocks _ _ _ _ Ha2) in Eerr. by destruct (valid _). }
    assert (Hj' : joined d i0 (rev pre ++ [b]) q l).
    { rewrite Ep, rev_involutive. apply (joined_snoc d i0 done' q l b (utxos i2) clock); rewrite <- ?Ep; try done.
      apply (a_set _ _ _ _ Ha2). }
    pose proof (j_sound _ _ _ _ _ Hj) as Hs. rewrite <- Ep in Hs.
    destruct (target_ok_total (reorg_window (mkChain i1 (database c)) i2 (block_height q) (rev pre) (length (rev pre)) (block_height b)) b) as [v Ev].
    assert (exists v', (if 1 <=? block_height b then target_ok n (reorg_window (mkChain i1 (database c)) i2 (block_height q) (rev pre)
      (length (rev pre)) (block_height b)) b else Some true) = Some v') as [v' ->] by (destruct (1 <=? block_height b); eauto).
    cbn [mbind option_bind]. destruct v'; cbn [negb].
    + destruct (adopt_spec i2 Ha2 Hj') as (i3 & -> & Had). cbn [mbind option_bind]. rewrite Hdb.
      destruct (persist_reorg E (tip i0) (stats i3) w (rev pre) b (map transactions old) (d, utxos i3)) as [d' u'] eqn:Epr.
      do 2 eexists. split; [reflexivity|]. right. split; [done|]. eapply (Had (utxos i3)); [|done]. by rewrite Epr.
    + destruct (undo_b i2 Ha2 Hs) as (i3 & -> & Hres & Hri). cbn [mbind option_bind].
      do 2 eexists. split; [reflexivity|]. left. split_and!; [by eexists|done..].
Qed.
End Reorganise.
End Inv.
End NodeInv.
