(* ===== verification/NodeReach.v ===== *)
(** * The reachable states of the node's chain (src/src/chain.rs, src/src/chain)

    The invariant of [Node]'s state: one chain of linked blocks, each validated over the chain
    below it, of which the outputs, the spent key images, the totals, the tip and both height
    indexes are exact.  Every operation keeps it: a block that is added, whatever becomes of
    it, a rollback, and a restart from the database. *)

From stdpp Require Import gmap list sorting.
From S2P Require Import Prelude Constants Types Emission Difficulty FeeMarket Security Ledger Utxo ForkCalc ForkChoice TxValidation BlockValidation ActiveChain Miner Node NodeInv.

Module NodeReach.
Import Types BlockValidation Node NodeInv.
#[local] Opaque Difficulty.calculate_difficulty_from_target be_bytes.

(** ** The cache *)

Lemma evict_fold t k es : forall bs hs ev,
  let '(bs', hs', _) := fold_left (evict_step t k) es (bs, hs, ev) in
  (forall x b, bs' !! x = Some b -> bs !! x = Some b)
  /\ (forall h x, hs' !! h = Some x -> hs !! h = Some x)
  /\ (forall x, (forall h, (h, x) ∈ es -> t <= wrap u64_max (h + 200)) -> bs' !! x = bs !! x)
  /\ (forall h, (forall x, (h, x) ∈ es -> t <= wrap u64_max (h + 200)) -> hs' !! h = hs !! h).
Proof.
  induction es as [|[h x] es IH]; intros bs hs ev; [by cbn|]. cbn [fold_left].
  assert (Hskip : let '(bs', hs', _) := fold_left (evict_step t k) es (bs, hs, ev) in
    (forall x b, bs' !! x = Some b -> bs !! x = Some b) /\ (forall h x, hs' !! h = Some x -> hs !! h = Some x)
    /\ (forall y, (forall g, (g, y) ∈ (h, x) :: es -> t <= wrap u64_max (g + 200)) -> bs' !! y = bs !! y)
    /\ (forall g, (forall y, (g, y) ∈ (h, x) :: es -> t <= wrap u64_max (g + 200)) -> hs' !! g = hs !! g)).
  { specialize (IH bs hs ev). destruct (fold_left _ es _) as [[bs' hs'] ev']. destruct IH as (H1 & H2 & H3 & H4).
    split_and!; [done|done|..].
    - intros y Hy. apply H3. intros g Hg. apply Hy. by right.
    - intros g Hy. apply H4. intros y Hg. apply (Hy y). by right. }
  unfold evict_step at 2. destruct (k <=? ev)%nat; [done|]. destruct (h =? 0); [done|].
  destruct (Z.leb_spec t (wrap u64_max (h + 200))) as [|Hlow]; [done|]. clear Hskip.
  specialize (IH (delete x bs) (delete h hs) (S ev)). destruct (fold_left _ es _) as [[bs' hs'] ev'].
  destruct IH as (H1 & H2 & H3 & H4). split_and!.
  - intros y b Hy. apply H1, lookup_delete_Some in Hy as [_ ?]. done.
  - intros g y Hy. apply H2, lookup_delete_Some in Hy as [_ ?]. done.
  - intros y Hy. rewrite H3 by (intros g Hg; apply Hy; by right). apply lookup_delete_ne. intros ->.
    specialize (Hy h ltac:(left)). lia.
  - intros g Hy. rewrite H4 by (intros y Hg; apply (Hy y); by right). apply lookup_delete_ne. intros ->.
    specialize (Hy x ltac:(left)). lia.
Qed.

(** The eviction keeps what is near the tip. *)
Lemma evict_keeps i : let i' := evict_block_cache i in
  (forall x b, blocks i' !! x = Some b -> blocks i !! x = Some b)
  /\ (forall h x, height_to_hash i' !! h = Some x -> height_to_hash i !! h = Some x)
  /\ (forall x, (forall h, height_to_hash i !! h = Some x -> tip_height (tip i) <= wrap u64_max (h + 200)) ->
        blocks i' !! x = blocks i !! x)
  /\ (forall h, tip_height (tip i) <= wrap u64_max (h + 200) -> height_to_hash i' !! h = height_to_hash i !! h)
  /\ tip i' = tip i /\ stats i' = stats i /\ genesis_hash i' = genesis_hash i /\ utxos i' = utxos i.
Proof.
  unfold evict_block_cache. destruct (_ <=? _)%nat; [by split_and!|].
  set (es := merge_sort _ _).
  assert (Hes : forall h x, (h, x) ∈ es <-> height_to_hash i !! h = Some x).
  { intros h x. unfold es. rewrite merge_sort_Permutation. apply elem_of_map_to_list. }
  pose proof (evict_fold (tip_height (tip i)) (size (blocks i) - MAX_BLOCK_CACHE) es (blocks i) (height_to_hash i) 0) as H.
  destruct (fold_left _ es _) as [[bs hs] ev]. destruct H as (H1 & H2 & H3 & H4). cbv zeta. inner.
  split_and!; try done.
  - intros x Hx. apply H3. intros h Hh. apply Hx. by apply Hes.
  - intros h Hh. by apply H4.
Qed.

Section Reach.
Context (n : Ledger.NetworkType) (E : Env) (sc : Z -> Z -> Z -> list Z) (genesis : Block).
(** A build without fast sync, and a genesis block that is the network's only block at height zero. *)
Hypothesis no_skip : allow_checkpoint_crypto_skip E = false.
Hypothesis genesis_zero : block_height genesis = 0.
Hypothesis genesis_only : forall b, block_height b = 0 -> verify_checkpoint n 0 (block_hash (blake3 E) b) <> Some false ->
  block_hash (blake3 E) b = block_hash (blake3 E) genesis.

Abbreviation hash := (block_hash (blake3 E)) (only parsing).
Abbreviation linked := (linked E genesis) (only parsing).
Abbreviation good := (good E genesis) (only parsing).
Abbreviation validated := (validated n E) (only parsing).
Abbreviation stored := (stored E) (only parsing).
Abbreviation replay := (replay E) (only parsing).
Abbreviation ledger := (ledger E) (only parsing).
Abbreviation linked_hashes := (NodeInv.linked_hashes E genesis genesis_zero) (only parsing).
Abbreviation linked_at := (NodeInv.linked_at E genesis genesis_zero) (only parsing).
Abbreviation linked_lookup := (NodeInv.linked_lookup E genesis genesis_zero) (only parsing).
Abbreviation linked_inj := (NodeInv.linked_inj E genesis genesis_zero) (only parsing).
Abbreviation ledger_heights := (NodeInv.ledger_heights E genesis genesis_zero) (only parsing).
Abbreviation insert_mapping_in := (NodeInv.insert_mapping_in E genesis genesis_zero) (only parsing).
Abbreviation linked_above := (NodeInv.linked_above E genesis genesis_zero) (only parsing).
Abbreviation linked_bounds := (NodeInv.linked_bounds E genesis genesis_zero) (only parsing).
Abbreviation linked_height := (NodeInv.linked_height E genesis genesis_zero) (only parsing).
Abbreviation linked_unique := (NodeInv.linked_unique E genesis genesis_zero) (only parsing).
Abbreviation linked_heights_nodup := (NodeInv.linked_heights_nodup E genesis genesis_zero) (only parsing).
Abbreviation linked_below := (NodeInv.linked_below E genesis genesis_zero) (only parsing).
Abbreviation stored_length := (NodeInv.stored_length E genesis genesis_zero) (only parsing).
Abbreviation gtxs := (Z.of_nat (length (transactions genesis))) (only parsing).

(** The state [c], with the database [d], is that of the chain [l]; [high] is the highest tip
    since the start of the process, which bounds what the cache has evicted. *)
Record inv (c : Blockchain) (d : Database) (l : list Block) (high : Z) : Prop := {
  i_db : database c = Some d;
  i_staged : staged E d (inner c);
  i_lineage x b : db_blocks d !! x = Some b -> exists k, linked (b :: k) /\ Forall (stored d) (b :: k) /\ good (b :: k);
  i_linked : linked l;
  i_stored : Forall (stored d) l;
  i_valid : validated l;
  i_tip : exists b k, l = b :: k /\ tip_hash (tip (inner c)) = hash b /\ tip_height (tip (inner c)) = block_height b;
  i_index h x : height_index d !! h = Some x <-> exists a, a ∈ l /\ block_height a = h /\ hash a = x;
  i_mapped h x : height_to_hash (inner c) !! h = Some x -> height_index d !! h = Some x;
  i_window a : a ∈ l -> high - 200 <= block_height a ->
    height_to_hash (inner c) !! block_height a = Some (hash a) /\ blocks (inner c) !! hash a = Some a;
  i_high : Z.of_nat (length l) - 1 <= high;
  i_totals : Ledger.totals n gtxs (stats (inner c)) (ledger l);
  i_stats : Ledger.height (stats (inner c)) = tip_height (tip (inner c))
    /\ Ledger.tip_hash (stats (inner c)) = tip_hash (tip (inner c));
  i_set : same_set (utxos (inner c)) (replay l);
  i_disk : is_Some (Utxo.db (utxos (inner c)));
  i_state : exists cp, chain_state d = Some (state_of (stats (inner c)) cp);
  i_network : db_network d = Some n;
  i_indexes : indexes (high - 1000) (utxos (inner c)) (replay l) }.

(** Every block that is added has 64-bit fields and a lineage whose output keys differ and
    whose totals fit the counters. *)
Definition admissible (c : Blockchain) (b : Block) : Prop :=
  typed b /\ forall d k, database c = Some d -> linked (b :: k) -> Forall (stored d) k -> good (b :: k).

Section Props.
Context (c : Blockchain) (d : Database) (l : list Block) (high : Z).
Hypothesis I : inv c d l high.

Lemma inv_get x : get_block c x = db_blocks d !! x.
Proof.
  unfold get_block. rewrite (i_db _ _ _ _ I). destruct (blocks (inner c) !! x) as [b|] eqn:Eb; [|done].
  symmetry. by apply (st_cache _ _ _ (i_staged _ _ _ _ I)).
Qed.

Lemma inv_get_hash h : get_block_hash c h = height_index d !! h.
Proof.
  unfold get_block_hash. rewrite (i_db _ _ _ _ I). destruct (height_to_hash (inner c) !! h) as [x|] eqn:Ex; [|done].
  symmetry. by apply (i_mapped _ _ _ _ I).
Qed.

Lemma inv_good : good l.
Proof.
  destruct (i_tip _ _ _ _ I) as (b & k & El & _). pose proof (i_stored _ _ _ _ I) as Hs. rewrite El in Hs.
  apply list.Forall_cons in Hs as [Hb _]. destruct (i_lineage _ _ _ _ I _ _ Hb) as (k' & Hl & Hk & Hg).
  rewrite El. rewrite (linked_unique d (b :: k) (b :: k')); [done|..|done].
  - rewrite <- El. apply (i_linked _ _ _ _ I).
  - done.
  - rewrite <- El. apply (i_stored _ _ _ _ I).
  - done.
Qed.

Lemma inv_typed b : stored d b -> typed b.
Proof. intros Hb. by destruct (st_hash _ _ _ (i_staged _ _ _ _ I) _ _ Hb). Qed.

Lemma inv_sound : sound E genesis l.
Proof.
  pose proof inv_good as Hg. split.
  - apply (i_linked _ _ _ _ I).
  - eapply list.Forall_impl; [apply (i_stored _ _ _ _ I)|]. intros b. apply inv_typed.
  - pose proof (good_length _ _ _ Hg). unfold roomy. lia.
  - apply (chain_fresh_ok n E genesis no_skip genesis_zero); [apply (i_linked _ _ _ _ I)|apply (i_valid _ _ _ _ I)|apply Hg].
Qed.

Lemma inv_tip_height : tip_height (tip (inner c)) = Z.of_nat (length l) - 1.
Proof.
  destruct (i_tip _ _ _ _ I) as (b & k & El & _ & ->). pose proof (i_linked _ _ _ _ I) as Hl. rewrite El in Hl.
  rewrite (linked_height b k Hl), El. cbn [length]. lia.
Qed.

(** A stored block that is not the genesis block lies above height zero. *)
Lemma inv_genesis b : stored d b -> block_height b = 0 -> b = genesis.
Proof.
  intros Hb Hh. destruct (i_lineage _ _ _ _ I _ _ Hb) as (k & Hl & _ & _).
  rewrite (linked_height b k Hl) in Hh. destruct k; [exact Hl|cbn [length] in Hh; lia].
Qed.

Lemma inv_genesis_in : genesis ∈ l.
Proof.
  pose proof (i_linked _ _ _ _ I) as Hl. destruct (linked_at l 0 Hl) as (a & Ha & Hh).
  { pose proof (linked_ne _ _ _ Hl). destruct l; [done|cbn [length]; lia]. }
  pose proof (i_stored _ _ _ _ I) as Hs. rewrite list.Forall_forall in Hs.
  by rewrite <- (inv_genesis a (Hs a Ha) Hh).
Qed.
(** *** Storing a block *)

Lemma stored_mono b a : db_blocks d !! hash b = None -> stored d a -> stored (insert_body E d b) a.
Proof.
  unfold stored. cbn [insert_body db_blocks]. intros Hn Ha. rewrite lookup_insert_ne; [done|]. intros Heq.
  rewrite Heq, Ha in Hn. done.
Qed.

Lemma store_inv b k : typed b -> db_blocks d !! hash b = None -> linked (b :: k) -> Forall (stored d) k -> good (b :: k) ->
  inv (store_block E c b) (insert_body E d b) l high /\ Forall (stored (insert_body E d b)) (b :: k).
Proof.
  intros Hb Hn Hl Hk Hg. pose proof I as [Idb [Ic Ih] Ilin Il Is Iv It Ii Im Iw Ihi Ito Ist Iset Idisk Istate Inet Iix].
  assert (Hmono : forall m, Forall (stored d) m -> Forall (stored (insert_body E d b)) m).
  { intros m Hm. eapply list.Forall_impl; [exact Hm|]. intros a. by apply stored_mono. }
  assert (Hbk : Forall (stored (insert_body E d b)) (b :: k)).
  { constructor; [apply lookup_insert_eq|by apply Hmono]. }
  split; [|done]. unfold store_block. split; cbn [inner database]; inner; try done.
  - by rewrite Idb.
  - split; cbn [insert_body db_blocks]; inner; intros x a.
    + rewrite !lookup_insert_Some. intros [?|[? Ha]]; [by left|right]. split; [done|by apply Ic].
    + rewrite lookup_insert_Some. intros [[<- <-]|[_ Ha]]; [done|by apply Ih].
  - intros x a. cbn [insert_body db_blocks]. rewrite lookup_insert_Some. intros [[<- <-]|[_ Ha]]; [by exists k|].
    destruct (Ilin _ _ Ha) as (k' & ? & ? & ?). exists k'. split_and!; [done|by apply Hmono|done].
  - by apply Hmono.
  - intros a Ha Hh. destruct (Iw a Ha Hh) as [? Hc]. split; [done|]. rewrite lookup_insert_ne; [done|].
    intros Heq. apply Ic in Hc. rewrite <- Heq, Hn in Hc. done.
Qed.
(** *** The checks before a block is stored *)

Lemma classify_proceed b parent : classify_incoming E c b = Proceed parent ->
  db_blocks d !! hash b = None /\ parent = db_blocks d !! prev_hash (header b)
  /\ (parent = None -> block_height b <= 0).
Proof.
  unfold classify_incoming. rewrite inv_get, (i_db _ _ _ _ I). destruct (bool_decide _); [done|].
  destruct (bool_decide_reflect (is_Some (db_blocks d !! hash b))) as [|Hn]; [done|]. apply eq_None_not_Some in Hn.
  destruct (db_blocks d !! prev_hash (header b)) as [p|]; [by intros [= <-]|].
  destruct (Z.ltb_spec 0 (block_height b)); [done|]. by intros [= <-].
Qed.

Lemma pre_checks_total clock b parent m : exists v, pre_checks n E sc clock c b parent m = Some v.
Proof.
  unfold pre_checks. destruct (negb _); [eauto|]. destruct (bool_decide _); [eauto|]. destruct (_ && _); [eauto|].
  set (w := if m then _ else _). clearbody w. destruct (target_ok_total n w b) as [r Er].
  destruct (1 <=? block_height b); [rewrite Er|]; cbn [mbind option_bind];
    [destruct r|]; cbn [negb]; repeat (destruct (negb _); [eauto|]); try (destruct (_ && _)); eauto.
Qed.

(** What the checks establish of a block that passes. *)
Record passes (clock : Z * Z) (b : Block) (is_main : bool) (p : Block) (k : list Block) : Prop := {
  p_new : db_blocks d !! hash b = None;
  p_linked : linked (b :: p :: k);
  p_stored : Forall (stored d) (p :: k);
  p_good : good (b :: p :: k);
  p_main : is_main = true -> p :: k = l
    /\ exists cp, valid (validate_block_with_checkpoint_for_network (at_time E clock) b (Some p) (utxos (inner c)) cp n) = true }.

Lemma pre_checks_pass clock b parent m : pre_checks n E sc clock c b parent m = Some None ->
  block_height b = (if block_height b =? 0 then 0 else match parent with Some p => wrap u64_max (block_height p + 1) | None => 0 end)
  /\ verify_checkpoint n (block_height b) (hash b) <> Some false
  /\ exists cp, valid (validate_block_ctx (at_time E clock) b parent (utxos (inner c)) cp n m) = true.
Proof.
  unfold pre_checks. set (e := if block_height b =? 0 then _ else _). cbv zeta.
  destruct (Z.eqb_spec (block_height b) e) as [He|]; cbn [negb]; [|done].
  destruct (bool_decide_reflect (verify_checkpoint n (block_height b) (hash b) = Some false)) as [|Hcp]; [done|].
  destruct (_ && match median_time_past_of_lineage _ _ with _ => _ end); [done|].
  destruct (if 1 <=? block_height b then _ else _) as [[]|]; cbn [mbind option_bind negb]; try done.
  destruct (valid _) eqn:Ev; cbn [negb]; [|done]. intros _. split; [done|]. split; [done|]. by eexists.
Qed.

Lemma passed clock b parent m : admissible c b -> classify_incoming E c b = Proceed parent ->
  m = (prev_hash (header b) =? tip_hash (tip (inner c))) || (block_height b =? 0) ->
  pre_checks n E sc clock c b parent m = Some None ->
  exists p k, parent = Some p /\ block_height b <> 0 /\ passes clock b m p k.
Proof.
  intros [Hb Hadm] Hcl Hm Hpre. apply classify_proceed in Hcl as (Hn & Hpar & Hzero).
  apply pre_checks_pass in Hpre as (He & Hcp & cp & Hv).
  assert (Hz : block_height b <> 0).
  { intros Hz. rewrite Hz in Hcp. apply genesis_only in Hcp; [|done].
    pose proof (i_stored _ _ _ _ I) as Hs. rewrite list.Forall_forall in Hs. pose proof (Hs _ inv_genesis_in) as Hg.
    unfold stored in Hg. rewrite <- Hcp, Hn in Hg. done. }
  destruct parent as [p|]; [|destruct Hb as ([? _] & _); specialize (Hzero eq_refl); lia].
  destruct (Z.eqb_spec (block_height b) 0) as [|_]; [done|]. rewrite orb_false_r in Hm.
  symmetry in Hpar. destruct (st_hash _ _ _ (i_staged _ _ _ _ I) _ _ Hpar) as [Hp Htp].
  destruct (i_lineage _ _ _ _ I _ _ Hpar) as (k & Hl & Hk & Hg).
  pose proof (linked_height p k Hl) as Hh. pose proof (good_length _ _ _ Hg) as Hlen. cbn [length] in Hlen.
  rewrite wrap_small in He by (unfold fits; lia).
  assert (Hlb : linked (b :: p :: k)) by (by split).
  exists p, k. split; [done|]. split; [done|]. split; try done.
  - by apply (Hadm d); [apply (i_db _ _ _ _ I)|..].
  - intros Ht. rewrite Ht in *. symmetry in Hm. apply Z.eqb_eq in Hm. split; [|by exists cp].
    destruct (i_tip _ _ _ _ I) as (t & r & El & Eh & _). pose proof (i_stored _ _ _ _ I) as Hs. rewrite El in Hs.
    rewrite El. apply (linked_unique d); [done|rewrite <- El; apply (i_linked _ _ _ _ I)|done|done|]. cbn. f_equal.
    apply list.Forall_cons in Hs as [Hs _]. unfold stored in Hs. rewrite <- Eh, <- Hm, Hpar in Hs. congruence.
Qed.
(** *** A block at the tip *)

Lemma inv_node : Ledger.node_inv n gtxs (stats (inner c), ledger l).
Proof.
  destruct (i_tip _ _ _ _ I) as (b & k & El & _ & Eh). pose proof inv_sound as Hs. pose proof inv_good as Hg.
  pose proof (i_totals _ _ _ _ I) as Ht. pose proof (i_linked _ _ _ _ I) as Hl.
  rewrite El in *. pose proof (linked_height b k Hl) as Hh. pose proof (good_length _ _ _ Hg) as Hn. cbn [length] in Hn.
  unfold Ledger.node_inv. rewrite ledger_length, (proj1 (i_stats _ _ _ _ I)), Eh, Hh. split_and!; [done|lia|..].
  - by apply ledger_heights.
  - apply ledger_ok, (s_typed _ _ _ Hs).
  - exact Ht.
  - destruct Ht as (_ & -> & _). apply (good_txs _ _ _ Hg).
  - destruct Ht as (_ & _ & _ & _ & ->). apply (good_work _ _ _ Hg).
Qed.

(** An index entry belongs to a block of the chain. *)
Lemma inv_mapped h x : height_to_hash (inner c) !! h = Some x -> exists a, a ∈ l /\ block_height a = h /\ hash a = x.
Proof. intros Hx. by apply (i_index _ _ _ _ I), (i_mapped _ _ _ _ I). Qed.

Lemma extend_stats b : linked (b :: l) -> good (b :: l) -> typed b ->
  exists s, Ledger.connect_stats n (stats (inner c)) (ledger_block E b) = Some s
    /\ Ledger.totals n gtxs s (ledger (b :: l)) /\ Ledger.height s = block_height b /\ Ledger.tip_hash s = hash b.
Proof.
  intros Hl Hg Hb. destruct (i_tip _ _ _ _ I) as (t & k & El & _ & Eh). pose proof inv_node as Hn.
  pose proof Hn as (_ & _ & _ & _ & (_ & Tt & _ & _ & Td) & _).
  rewrite El in *. pose proof Hg as [_ Gw Gt Gn]. rewrite ledger_work in Gw. rewrite ledger_txs in Gt.
  pose proof (linked_height b _ Hl) as Hh. cbn [length] in Hh, Gn. destruct Hl as (_ & Hstep & _).
  destruct (Ledger.connect_totals n gtxs) with (s := stats (inner c)) (chain := ledger (t :: k)) (b := ledger_block E b)
    as (s' & Es & (Hh' & _ & _ & _ & Ht' & _) & Etip).
  - pose proof (Ledger.tx_sum_nonneg (ledger (t :: k))). unfold fits. lia.
  - exact Hn.
  - rewrite (proj1 (i_stats _ _ _ _ I)), Eh. exact Hstep.
  - by apply typed_ledger.
  - rewrite (proj1 (i_stats _ _ _ _ I)), Eh. lia.
  - cbn [ledger_block Ledger.b_txs]. rewrite length_map. lia.
  - cbn [ledger_block Ledger.b_target]. fold (work b). lia.
  - exists s'. split; [done|]. split; [exact Ht'|]. split; [|exact Etip]. rewrite Hh'. cbn [length]. rewrite ledger_length. lia.
Qed.

Lemma persist_block_spec s b u d' u' : persist_block E s b (d, u) = (d', u') ->
  db_blocks d' = db_blocks d /\ height_index d' = <[block_height b := hash b]> (height_index d) /\ db_network d' = db_network d
  /\ (exists cp, chain_state d' = Some (mkState (hash b) (block_height b) (Ledger.total_difficulty s) (Ledger.total_supply s)
                                          (wrap u64_max (Ledger.total_burned s)) cp))
  /\ same_set u' u /\ (is_Some (Utxo.db u) -> is_Some (Utxo.db u')) /\ Utxo.output_index u' = Utxo.output_index u.
Proof.
  unfold persist_block, commit_block_atomic. cbv zeta. intros [= <- <-].
  cbn [db_blocks height_index db_network chain_state fst snd]. destruct (_ && _); cbn [add_checkpoint db_blocks height_index db_network];
    split_and!; try done; try (by eexists); cbn [with_disk Utxo.db]; by intros [m ->].
Qed.

(** The index entries with those of a new block at the tip. *)
Lemma extend_index b (m : gmap Z Z) : linked (b :: l) ->
  (forall h x, m !! h = Some x <-> exists a, a ∈ l /\ block_height a = h /\ hash a = x) ->
  forall h x, <[block_height b := hash b]> m !! h = Some x <-> exists a, a ∈ b :: l /\ block_height a = h /\ hash a = x.
Proof.
  intros Hl Hm h x. rewrite lookup_insert_Some. split.
  - intros [[<- <-]|[Hne Hx]]; [exists b; split; [left|done]|]. apply Hm in Hx as (a & Ha & ? & ?). exists a. split; [by right|done].
  - intros (a & Ha & <- & <-). apply elem_of_cons in Ha as [->|Ha]; [by left|right]. split.
    + pose proof (linked_height b l Hl). pose proof (linked_bounds l a (i_linked _ _ _ _ I) Ha). lia.
    + apply Hm. by exists a.
Qed.

Lemma stored_inj k a a' : Forall (stored d) k -> a ∈ k -> a' ∈ k -> hash a = hash a' -> a = a'.
Proof.
  intros Hk Ha Ha' Hx. rewrite list.Forall_forall in Hk. pose proof (Hk a Ha) as S1. pose proof (Hk a' Ha') as S2.
  unfold stored in *. rewrite Hx, S2 in S1. congruence.
Qed.

(** The blocks near the tip outlive the eviction. *)
Lemma extend_window b i : stored d b -> blocks (inner c) !! hash b = Some b -> linked (b :: l) -> good (b :: l) ->
  blocks i = blocks (inner c) -> height_to_hash i = <[block_height b := hash b]> (height_to_hash (inner c)) ->
  tip_height (tip i) = block_height b -> forall a, a ∈ b :: l -> Z.max high (block_height b) - 200 <= block_height a ->
  height_to_hash (evict_block_cache i) !! block_height a = Some (hash a) /\ blocks (evict_block_cache i) !! hash a = Some a.
Proof.
  intros Hb Hc Hl Hg E1 E2 E3 a Ha Hw. pose proof (evict_keeps i) as (_ & _ & Kb & Kh & _). rewrite E1, E2, E3 in *.
  pose proof (linked_bounds (b :: l) a Hl Ha) as Hab. pose proof (good_length _ _ _ Hg) as Hlen.
  pose proof (i_linked _ _ _ _ I) as Il. pose proof (linked_height b l Hl) as Ehb. cbn [length] in *. rewrite Kh, Kb.
  - apply elem_of_cons in Ha as [->|Ha]; [by rewrite lookup_insert_eq|].
    pose proof (linked_bounds l a Il Ha). rewrite lookup_insert_ne by lia. apply (i_window _ _ _ _ I); [done|lia].
  - intros h Hx. assert (exists a', a' ∈ b :: l /\ block_height a' = h /\ hash a' = hash a) as (a' & Ha' & <- & Hxx).
    { rewrite lookup_insert_Some in Hx. destruct Hx as [[<- <-]|[_ Hx]]; [exists b; split; [left|done]|].
      destruct (inv_mapped h _ Hx) as (a' & ? & ? & ?). exists a'. split; [by right|done]. }
    rewrite (stored_inj (b :: l) a' a (proj2 (list.Forall_cons _ _ _) (conj Hb (i_stored _ _ _ _ I))) Ha' Ha Hxx).
    rewrite wrap_small by (unfold fits; lia). lia.
  - rewrite wrap_small by (unfold fits; lia). lia.
Qed.

Lemma extend_inv clock cp b p k : l = p :: k -> stored d b -> blocks (inner c) !! hash b = Some b ->
  linked (b :: l) -> good (b :: l) ->
  valid (validate_block_with_checkpoint_for_network (at_time E clock) b (Some p) (utxos (inner c)) cp n) = true ->
  exists i, extend_tip n E (inner c) b = Some i
    /\ forall d' u, persist_block E (stats i) b (d, utxos i) = (d', u) ->
         inv (mkChain (with_utxos i u) (Some d')) d' (b :: l) (Z.max high (block_height b)).
Proof.
  intros El Hb Hc Hl Hg Hv. pose proof (inv_typed b Hb) as Htyped.
  destruct (extend_stats b Hl Hg Htyped) as (s & Es & Ht & Hh & Hx).
  unfold extend_tip. rewrite Es. cbn [mbind option_bind]. eexists. split; [reflexivity|].
  set (i1 := mkInner _ _ _ _ _ _). pose proof (extend_window b i1 Hb Hc Hl Hg eq_refl eq_refl eq_refl) as Hwin.
  pose proof (evict_keeps i1) as (Kb & Kh & _ & _ & Kt & Ks & _ & Ku).
  set (i := evict_block_cache i1) in *. clearbody i. intros d' u Hp.
  apply persist_block_spec in Hp as (P1 & P2 & P3 & (cp' & P4) & P5 & P6 & P7).
  pose proof I as [Idb [Ic Ih] Ilin Il Is Iv It Ii Im Iw Ihi Ito Ist Iset Idisk Istate Inet Iix].
  split; cbn [inner database]; inner; unfold NodeInv.stored in *; rewrite ?P1, ?P3, ?Kt, ?Ks; subst i1; inner; inner in Kb; inner in Kh;
    cbn [tip_of tip_hash tip_height]; try done.
  - split; inner; rewrite P1; intros x a Ha; [by apply Ic, Kb|by apply Ih].
  - by constructor.
  - rewrite El. split; [done|]. split; [|rewrite <- El; done]. exists (utxos (inner c)), clock, cp. by rewrite <- El.
  - by exists b, l.
  - rewrite P2. by apply extend_index.
  - intros h x Hx'. apply Kh in Hx'. rewrite P2. rewrite lookup_insert_Some in *. destruct Hx' as [?|[? ?]]; [by left|right].
    split; [done|by apply Im].
  - pose proof (linked_height b l Hl). cbn [length]. lia.
  - unfold NodeInv.replay. cbn [uchain map Utxo.replay]. rewrite P5, Ku. inner.
    etransitivity; [apply evict_same|]. exact (connect_same _ _ _ _ Iset).
  - apply P6. rewrite Ku. inner. unfold Utxo.evict_old_outputs. destruct (_ <=? _); [|cbn]; by apply connect_db_some.
  - exists cp'. rewrite P4. unfold state_of. by rewrite Hh, Hx, Ks.
  - eapply indexes_eq; [rewrite P7, Ku; reflexivity|reflexivity|]. inner. apply indexes_evict; [lia|].
    apply (indexes_connect _ _ _ (block_height b) (utxo_txs E b)). eapply indexes_up; [|exact Iix]. lia.
Qed.
(** *** The view of fork choice *)

Lemma view_block x : ForkCalc.get_block (fork_view c) x = fork_block <$> db_blocks d !! x.
Proof.
  rewrite <- inv_get. unfold ForkCalc.get_block, fork_view, store, get_block. rewrite (i_db _ _ _ _ I).
  cbn [ForkCalc.inner ForkCalc.db ForkCalc.blocks fmap option_fmap option_map]. rewrite !lookup_fmap.
  by destruct (blocks (inner c) !! x).
Qed.

Lemma view_hash h : ForkCalc.get_block_hash (fork_view c) h = height_index d !! h.
Proof.
  rewrite <- inv_get_hash. unfold ForkCalc.get_block_hash, fork_view, store, get_block_hash. rewrite (i_db _ _ _ _ I).
  cbn [ForkCalc.inner ForkCalc.db ForkCalc.height_to_hash fmap option_fmap option_map]. by destruct (height_to_hash (inner c) !! h).
Qed.

Lemma view_linked : ForkCalc.linked (fork_view c).
Proof.
  intros x fb. rewrite view_block. destruct (db_blocks d !! x) as [b|] eqn:Eb; [|done]. intros [= <-]. cbn [ForkCalc.height fork_block].
  destruct (i_lineage _ _ _ _ I _ _ Eb) as (k & Hl & Hk & _). pose proof (linked_height b k Hl) as Hh. split; [lia|].
  intros Hpos. destruct k as [|p k]; [cbn [length] in Hh; lia|]. destruct Hl as (Hp & Hs & _).
  apply list.Forall_cons in Hk as [_ Hk]. apply list.Forall_cons in Hk as [Hk _]. unfold stored in Hk.
  exists (fork_block p). rewrite view_block. cbn [ForkCalc.prev_hash fork_block]. rewrite Hp, Hk. split; [done|]. cbn. lia.
Qed.

Lemma view_ancestors k : forall p, linked (p :: k) -> Forall (stored d) (p :: k) ->
  ForkCalc.work_sum (ForkCalc.ancestors (fork_view c) (length k) (hash p)) = Ledger.work_sum (ledger (p :: k)).
Proof.
  induction k as [|q k IH]; intros p Hl Hs; [done|]. cbn [length ForkCalc.ancestors]. rewrite view_block.
  pose proof Hs as [Hp Hs']%list.Forall_cons. unfold stored in Hp. rewrite Hp. cbn [fmap option_fmap option_map].
  rewrite ledger_work. unfold ForkCalc.work_sum in *. cbn [foldr]. pose proof Hl as (Hpq & _ & Hl').
  cbn [ForkCalc.prev_hash fork_block]. rewrite Hpq, IH by done. done.
Qed.

Lemma view_work b p k : linked (b :: p :: k) -> Forall (stored d) (p :: k) -> good (b :: p :: k) ->
  ForkCalc.calculate_fork_cumulative_work (fork_view c) (fork_block b) = Some (1 + Ledger.work_sum (ledger (b :: p :: k))).
Proof.
  intros Hl Hs Hg. pose proof (linked_height b _ Hl) as Hh. pose proof (good_length _ _ _ Hg) as Hn.
  pose proof (good_work _ _ _ Hg) as Hw. pose proof Hl as (Hp & Hstep & Hl'). pose proof (linked_height p k Hl') as Hh'.
  cbn [length] in *. pose proof Hs as [Sp _]%list.Forall_cons. unfold stored in Sp.
  rewrite (ForkCalc.fork_work_total (fork_view c) view_linked (fork_block b) (fork_block p) 0).
  - cbn [ForkCalc.height ForkCalc.prev_hash fork_block]. rewrite Hp, Hh', Nat2Z.id, view_ancestors by done.
    rewrite ledger_work in *. change (ForkCalc.work (fork_block b)) with (work b). f_equal. lia.
  - rewrite view_block. cbn [ForkCalc.prev_hash fork_block]. by rewrite Hp, Sp.
  - cbn. lia.
  - cbn [ForkCalc.height fork_block]. lia.
Qed.

(** Following the parents of a chain stays on it while no block of the main chain is met. *)
Lemma lineage_suffix x y L k : linked k -> Forall (stored d) k -> option_map hash (head k) = Some x ->
  ForkCalc.lineage (ForkCalc.get_block (fork_view c)) x L y -> Forall (ForkCalc.off_main (fork_view c)) L ->
  exists pre m, k = pre ++ m /\ option_map hash (head m) = Some y.
Proof.
  intros Hl Hs Hx Hlin. induction Hlin as [x|x L y fb Hlin IH Hy]; intros Hoff; [by exists [], k|].
  apply list.Forall_app in Hoff as [Hoff Hlast]. apply list.Forall_cons in Hlast as [Hlast _].
  destruct (IH Hx Hoff) as (pre & m & -> & Hm). destruct m as [|a m]; [done|]. cbn in Hm. injection Hm as <-.
  rewrite list.Forall_app, list.Forall_cons in Hs. destruct Hs as (_ & Ha & _). unfold stored in Ha.
  rewrite view_block, Ha in Hy. injection Hy as <-. apply linked_app in Hl. destruct m as [|p m].
  - exfalso. apply Hlast. unfold linked in Hl. subst a. cbn. rewrite view_hash. apply (i_index _ _ _ _ I).
    exists genesis. split; [apply inv_genesis_in|done].
  - exists (pre ++ [a]), (p :: m). split; [by rewrite <- app_assoc|]. cbn. f_equal. symmetry. apply Hl.
Qed.

Lemma view_fork_point b p k fp : linked (b :: p :: k) -> Forall (stored d) (p :: k) ->
  ForkCalc.find_fork_point (fork_view c) (fork_block b) = Some fp ->
  exists old q m pre, l = old ++ q :: m /\ p :: k = pre ++ q :: m /\ block_height q = fp.
Proof.
  intros (Hp & _ & Hl) Hs Hf. pose proof (ForkCalc.find_fork_point_post (fork_view c) (fork_block b)) as Hpost.
  rewrite Hf in Hpost. destruct Hpost as (L & anc & fq & Hlin & Hoff & Hq & Hh & Hmain).
  cbn [ForkCalc.prev_hash fork_block] in Hlin. rewrite Hp in Hlin.
  destruct (lineage_suffix (hash p) anc L (p :: k) Hl Hs eq_refl Hlin Hoff) as (pre & m & Ek & Hm).
  destruct m as [|q m]; [done|]. cbn in Hm. injection Hm as <-. rewrite Ek in Hl, Hs.
  apply linked_app in Hl. apply list.Forall_app in Hs as [_ Hs]. pose proof Hs as [Sq _]%list.Forall_cons.
  unfold stored in Sq. rewrite view_block, Sq in Hq. injection Hq as <-. cbn [ForkCalc.height fork_block] in Hh.
  assert (Hin : q ∈ l).
  { destruct Hmain as [Hmain|H0].
    - rewrite view_hash in Hmain. apply (i_index _ _ _ _ I) in Hmain as (a & Ha & _ & Hx).
      pose proof (i_stored _ _ _ _ I) as Sl. rewrite list.Forall_forall in Sl. pose proof (Sl a Ha) as Sa. unfold NodeInv.stored in Sa.
      rewrite Hx, Sq in Sa. injection Sa as <-. done.
    - rewrite (inv_genesis q); [apply inv_genesis_in|done|lia]. }
  apply list_elem_of_split in Hin as (old & m' & El). exists old, q, m, pre. split_and!; [|done|done]. rewrite El. f_equal.
  pose proof (i_linked _ _ _ _ I) as Ll. pose proof (i_stored _ _ _ _ I) as Sl. rewrite El in Ll, Sl.
  apply list.Forall_app in Sl as [_ Sl]. apply linked_app in Ll. by apply (linked_unique d).
Qed.
(** *** A reorganisation *)

Lemma restored_inv c' : database c' = Some d -> restored (inner c) (inner c') ->
  indexes (high - 1000) (utxos (inner c')) (replay l) -> inv c' d l high.
Proof.
  intros Hd [Rb Rh Rt Rs Rg Ru Rd] Rx. pose proof I as [Idb [Ic Ih] Ilin Il Is Iv It Ii Im Iw Ihi Ito Ist Iset Idisk Istate Inet Iix].
  split; rewrite ?Rb, ?Rh, ?Rt, ?Rs; try done.
  - split; [by rewrite Rb|done].
  - by rewrite Ru.
Qed.

Lemma reorg_rows pre_tip s w branch b gone u :
  let d' := fst (persist_reorg E pre_tip s w branch b gone (d, u)) in
  db_blocks d' = db_blocks d /\ db_network d' = db_network d
  /\ height_index d' = remove_rows (if block_height b <? tip_height pre_tip then rev (heights_down (block_height b) (tip_height pre_tip)) else [])
       (insert_rows (mapping E (branch ++ [b])) (height_index d))
  /\ chain_state d' = Some (mkState (hash b) (block_height b) w (Ledger.total_supply s) (wrap u64_max (Ledger.total_burned s)) (stored_checkpoint d)).
Proof. done. Qed.

(** The height index of the database after the commit. *)
Lemma reorg_index old q m pre b pre_tip : l = old ++ q :: m -> linked (b :: pre ++ q :: m) ->
  tip_height pre_tip = Z.of_nat (length l) - 1 -> forall h x,
  remove_rows (if block_height b <? tip_height pre_tip then rev (heights_down (block_height b) (tip_height pre_tip)) else [])
    (insert_rows (mapping E (rev pre ++ [b])) (height_index d)) !! h = Some x
  <-> exists a, a ∈ b :: pre ++ q :: m /\ block_height a = h /\ hash a = x.
Proof.
  intros El Hl Ht h x. pose proof (i_linked _ _ _ _ I) as Il. rewrite remove_rows_lookup.
  pose proof (linked_height b _ Hl) as Hb.
  assert (Hcut : h ∈ (if block_height b <? tip_height pre_tip then rev (heights_down (block_height b) (tip_height pre_tip)) else [])
    <-> block_height b < h <= tip_height pre_tip).
  { destruct (Z.ltb_spec (block_height b) (tip_height pre_tip)); [by rewrite elem_rev, heights_down_elem|set_solver by lia]. }
  assert (Hn : NoDup (map fst (mapping E (rev pre ++ [b])))).
  { rewrite mapping_fst. replace (rev pre ++ [b]) with (rev (b :: pre)) by done. rewrite map_rev, <- (Permutation_rev (map block_height (b :: pre))).
    apply linked_heights_nodup in Hl. rewrite app_comm_cons, map_app in Hl. by apply list.NoDup_app in Hl as (? & _). }
  destruct (decide _) as [Hd|Hd]; rewrite Hcut in Hd.
  { split; [done|]. intros (a & Ha & <- & _). pose proof (linked_bounds _ a Hl Ha) as Hab. cbn [length] in Hab. lia. }
  destruct (decide (h ∈ map block_height (b :: pre))) as [Hh|Hh].
  - apply list_elem_of_fmap in Hh as (a & -> & Ha).
    rewrite (insert_rows_in _ _ _ (hash a) Hn).
    2: { unfold mapping. apply list_elem_of_fmap. exists a. split; [done|]. replace (rev pre ++ [b]) with (rev (b :: pre)) by done. by apply elem_rev. }
    split.
    + intros [= <-]. exists a. split; [|done]. rewrite app_comm_cons. by apply elem_of_app; left.
    + intros (a' & Ha' & Hh & <-). do 2 f_equal. apply (linked_inj _ a a' Hl); [rewrite app_comm_cons; by apply elem_of_app; left|done|done].
  - rewrite insert_rows_other.
    2: { rewrite mapping_fst. replace (rev pre ++ [b]) with (rev (b :: pre)) by done. by rewrite map_rev, elem_rev. }
    rewrite (i_index _ _ _ _ I). rewrite app_comm_cons in *. split; intros (a & Ha & <- & <-); exists a; (split; [|done]).
    + rewrite El in Ha. apply elem_of_app in Ha as [Ha|Ha]; [|by apply elem_of_app; right]. exfalso.
      pose proof (linked_bounds l a Il ltac:(rewrite El; by apply elem_of_app; left)) as Hab.
      pose proof (linked_above old q m a ltac:(by rewrite <- El) Ha) as Hq.
      destruct (linked_at _ (block_height a) Hl) as (a' & Ha' & Hh').
      { cbn [length app] in *. lia. }
      apply elem_of_app in Ha' as [Ha'|Ha'].
      * apply Hh. rewrite <- Hh'. by apply list_elem_of_fmap_2.
      * apply linked_app in Hl. pose proof (linked_below q m a' Hl Ha'). lia.
    + apply elem_of_app in Ha as [Ha|Ha]; [destruct Hh; by apply list_elem_of_fmap_2|]. rewrite El. by apply elem_of_app; right.
Qed.
(** The heights that the cache maps after it. *)
Lemma reorg_mapped old q m pre b h x : l = old ++ q :: m -> linked (b :: pre ++ q :: m) ->
  insert_mapping E (b :: pre) (left_heights c old) !! h = Some x -> exists a, a ∈ b :: pre ++ q :: m /\ block_height a = h /\ hash a = x.
Proof.
  intros El Hl Hx. rewrite app_comm_cons in *. destruct (decide (h ∈ map block_height (b :: pre))) as [Hh|Hh].
  - apply list_elem_of_fmap in Hh as (a & -> & Ha). rewrite (insert_mapping_in (b :: pre) q m) in Hx by done. injection Hx as <-.
    exists a. split; [by apply elem_of_app; left|done].
  - rewrite insert_mapping_other in Hx by (intros a Ha <-; by apply Hh, list_elem_of_fmap_2).
    unfold left_heights in Hx. rewrite remove_rows_lookup in Hx. destruct (decide _) as [|Hn]; [done|].
    apply inv_mapped in Hx as (a & Ha & <- & <-). rewrite El in Ha. apply elem_of_app in Ha as [Ha|Ha].
    + destruct Hn. by apply list_elem_of_fmap_2.
    + exists a. split; [by apply elem_of_app; right|done].
Qed.

Lemma reorg_cached old q m pre b a : l = old ++ q :: m -> linked (b :: pre ++ q :: m) ->
  Forall (fun a => blocks (inner c) !! hash a = Some a) (b :: pre ++ [q]) -> a ∈ b :: pre ++ q :: m -> high - 200 <= block_height a ->
  insert_mapping E (b :: pre) (left_heights c old) !! block_height a = Some (hash a) /\ blocks (inner c) !! hash a = Some a.
Proof.
  intros El Hl Hc Ha Hw. rewrite app_comm_cons in *. rewrite list.Forall_app, list.Forall_forall in Hc. destruct Hc as [Hc _].
  apply elem_of_app in Ha as [Ha|Ha]; [split; [by apply (insert_mapping_in (b :: pre) q m)|by apply Hc]|].
  pose proof (linked_app _ _ _ _ _ Hl) as Hq. pose proof (linked_below q m a Hq Ha) as Hle.
  destruct (i_window _ _ _ _ I a) as [Hh Hb]; [rewrite El; by apply elem_of_app; right|done|]. split; [|done].
  rewrite insert_mapping_other.
  - unfold left_heights. rewrite remove_rows_lookup, decide_False; [done|]. intros (e & He & Hin)%list_elem_of_fmap.
    pose proof (i_linked _ _ _ _ I) as Il. rewrite El in Il. pose proof (linked_above old q m e Il Hin). lia.
  - intros e He Heq. pose proof (linked_above (b :: pre) q m e Hl He). lia.
Qed.

Lemma adopted_inv old q m pre b w c' : l = old ++ q :: m -> linked (b :: pre ++ q :: m) -> Forall (stored d) (b :: pre ++ q :: m) ->
  blocks (inner c) !! hash b = Some b -> w = 1 + Ledger.work_sum (ledger (b :: pre ++ q :: m)) ->
  adopted n E genesis (high - 1000) c d old q m b pre w c' -> exists d', inv c' d' (b :: pre ++ q :: m) (Z.max high (block_height b)).
Proof.
  intros El Hl Hs Hc Hw [Ab Ah At Ato (As1 & As2 & _) Au Ad Ax [Js Jv Jc] (u & Adb)].
  set (d' := fst _) in Adb. destruct (reorg_rows (tip (inner c)) (stats (inner c')) w (rev pre) b (map transactions old) u) as (R1 & R2 & R3 & R4).
  fold d' in R1, R2, R3, R4. clearbody d'. rewrite rev_app_distr, rev_involutive in Js, Jv, Jc. cbn [rev app tail] in Js, Jv, Jc.
  pose proof I as [Idb [Ic Ih] Ilin Il Is Iv It Ii Im Iw Ihi Ito Ist Iset Idisk Istate Inet Iix].
  pose proof (reorg_index old q m pre b (tip (inner c)) El Hl inv_tip_height) as Hidx. rewrite <- R3 in Hidx.
  exists d'. split; unfold NodeInv.stored in *; rewrite ?R1, ?R2, ?At; cbn [tip_of tip_hash tip_height]; try done.
  - split; rewrite ?Ab, R1; done.
  - by exists b, (pre ++ q :: m).
  - intros h x. rewrite Ah. intros Hx. apply Hidx. by apply (reorg_mapped old).
  - intros a Ha Hw'. rewrite Ah, Ab. apply (reorg_cached old q m); [done|done|by constructor|done|lia].
  - pose proof (linked_height b _ Hl). cbn [length]. lia.
  - exists (stored_checkpoint d). rewrite R4. unfold state_of. rewrite As1, As2. do 2 f_equal. rewrite Hw. by destruct Ato as (_ & _ & _ & _ & ->).
  - eapply indexes_up; [|exact Ax]. lia.
Qed.

(** A reorganisation that fork choice allows. *)
Lemma reorganise_inv clock b p k w fp : stored d b -> blocks (inner c) !! hash b = Some b -> linked (b :: p :: k) ->
  Forall (stored d) (p :: k) -> good (b :: p :: k) -> w = 1 + Ledger.work_sum (ledger (b :: p :: k)) ->
  high - 56 <= tip_height (tip (inner c)) -> ForkChoice.evaluate_fork (fork_node n c) (fork_block b) (hash b) w = Ok (Some fp) ->
  exists c' st, reorganise n E sc clock c b fp w = Some (c', st)
    /\ (((exists why, st = Invalid why) /\ database c' = Some d /\ restored (inner c) (inner c') /\ inv c' d l high)
        \/ exists gone d', st = AcceptedReorg gone /\ inv c' d' (b :: p :: k) (Z.max high (block_height b))).
Proof.
  intros Hb Hc Hl Hs Hg Hw Hhigh Hev. apply ForkChoice.evaluate_fork_accepts in Hev as (_ & Hfp & _ & _ & Hfl).
  cbn [fork_node ForkChoice.chain ForkChoice.tip_height] in *. unfold ForkChoice.CHECKPOINT_INTERVAL in Hfl.
  destruct (view_fork_point b p k fp Hl Hs Hfp) as (old & q & m & pre & El & Ek & <-). rewrite Ek in *.
  pose proof inv_sound as Hsound. pose proof I as [Idb Ista Ilin Il Is Iv It Ii Im Iw Ihi Ito Ist Iset Idisk Istate Inet Iix].
  pose proof inv_tip_height as Htip. pose proof inv_mapped as Hmap.
  rewrite El in Il, Is, Iv, Iw, Ihi, Ito, Iset, Iix, Hsound, Htip, Hmap.
  destruct (reorganise_spec n E sc genesis no_skip genesis_zero (high - 1000) clock c d old q m b pre w) as (c' & st & Er & Hcase); try done.
  - intros a Ha. apply Iw; [by apply elem_of_app; left|]. pose proof (linked_above old q m a Il Ha).
    pose proof (linked_bounds _ q (linked_app _ _ _ _ _ Il) ltac:(left)). lia.
  - by constructor.
  - exists c', st. split; [done|]. destruct Hcase as [(Hst & Hd & Hr & Hx)|(Hst & Had)]; [left|right].
    + split_and!; [done..|]. apply restored_inv; [done|done|by rewrite El].
    + destruct (adopted_inv old q m pre b w c') as [d' Hd']; try done; [by constructor|]. eauto.
Qed.
End Props.

(** ** Adding a block *)

Abbreviation chain_work := (fun k => 1 + Ledger.work_sum (ledger k)) (only parsing).

(** The cache reaches below the finality floor, unless the block extends the tip. *)
Definition covered (high : Z) (c : Blockchain) (b : Block) : Prop :=
  prev_hash (header b) = tip_hash (tip (inner c)) \/ high - 56 <= tip_height (tip (inner c)).

(** What [add_block] leaves, by its result. *)
Definition outcome (c : Blockchain) (d : Database) (l : list Block) (high : Z) (b : Block) (c' : Blockchain)
    (r : result ForkChoice.Error BlockStatus) : Prop :=
  match r with
  | Ok Accepted => exists d', inv c' d' (b :: l) (Z.max high (block_height b))
  | Ok (AcceptedReorg _) => exists d' k, inv c' d' (b :: k) (Z.max high (block_height b))
      /\ ForkChoice.better (chain_work (b :: k)) (hash b) (chain_work l) (tip_hash (tip (inner c)))
  | Ok AlreadyKnown => c' = c /\ is_Some (db_blocks d !! hash b)
  | Ok Orphan => c' = c /\ db_blocks d !! prev_hash (header b) = None
  | Ok (Invalid _) => c' = c
      \/ (inv c' (insert_body E d b) l high /\ restored (inner (store_block E c b)) (inner c'))
  | Ok AcceptedFork | Err _ => c' = store_block E c b /\ inv c' (insert_body E d b) l high
  end.

Lemma fork_outcome clock c d l high b p k : inv c d l high -> passes c d l clock b false p k -> typed b ->
  high - 56 <= tip_height (tip (inner c)) ->
  let c1 := store_block E c b in
  exists c' r, (fork_cumulative ← ForkCalc.calculate_fork_cumulative_work (fork_view c1) (fork_block b);
    match ForkChoice.evaluate_fork (fork_node n c1) (fork_block b) (hash b) fork_cumulative with
    | Err e => Some (c1, Err e)
    | Ok None => Some (c1, Ok AcceptedFork)
    | Ok (Some fork_point) => '(c, status) ← reorganise n E sc clock c1 b fork_point fork_cumulative; Some (c, Ok status)
    end) = Some (c', r) /\ outcome c d l high b c' r.
Proof.
  intros I [Hn Hl Hs Hg _] Hb Hhigh c1.
  destruct (store_inv c d l high I b (p :: k) Hb Hn Hl Hs Hg) as [I1 Hs1].
  pose proof Hs1 as [Hb1 Hk1]%list.Forall_cons.
  rewrite (view_work c1 _ l high I1 b p k Hl Hk1 Hg). cbn [mbind option_bind].
  destruct (ForkChoice.evaluate_fork _ _ _ _) as [[fp|]|e] eqn:Ev; [|by do 2 eexists..].
  assert (Hc : blocks (inner c1) !! hash b = Some b) by apply lookup_insert_eq.
  destruct (reorganise_inv c1 _ l high I1 clock b p k _ fp Hb1 Hc Hl Hk1 Hg eq_refl Hhigh Ev) as (c' & st & -> & Hcase).
  cbn [mbind option_bind]. do 2 eexists. split; [reflexivity|]. destruct Hcase as [((why & ->) & Hd & Hr & Hi)|(gone & d' & -> & Hi)].
  - by right.
  - exists d', (p :: k). split; [done|]. apply ForkChoice.evaluate_fork_accepts in Ev as (Ht & _).
    apply ForkChoice.take_fork_better in Ht. cbn [fork_node ForkChoice.total_difficulty ForkChoice.tip_hash] in Ht.
    by destruct (i_totals _ _ _ _ I1) as (_ & _ & _ & _ & <-).
Qed.

(** A block that is added never stops the node, and its result tells what became of it. *)
Lemma add_block_spec clock c d l high b : inv c d l high -> admissible c b -> covered high c b ->
  exists c' r, add_block n E sc clock c b = Some (c', r) /\ outcome c d l high b c' r.
Proof.
  intros I Hadm Hcov. unfold add_block. destruct (classify_incoming E c b) as [| |parent] eqn:Ecl.
  - do 2 eexists. split; [reflexivity|]. split; [done|]. revert Ecl. unfold classify_incoming. rewrite (i_db _ _ _ _ I).
    case_bool_decide as Hc; [destruct Hc as [a Ha]; intros _; exists a; by apply (st_cache _ _ _ (i_staged _ _ _ _ I))|].
    case_bool_decide as Hd; [done|]. destruct (get_block c _); [done|]. by destruct (0 <? block_height b).
  - do 2 eexists. split; [reflexivity|]. split; [done|]. rewrite <- (inv_get c d l high I). revert Ecl. unfold classify_incoming.
    rewrite (i_db _ _ _ _ I). do 2 (case_bool_decide; [done|]). by destruct (get_block c (prev_hash (header b))).
  - set (m := (_ =? _) || _). destruct (pre_checks_total c clock b parent m) as [[why|] Ev]; rewrite Ev; cbn [mbind option_bind];
      [do 2 eexists; split; [reflexivity|by left]|].
    destruct (passed c d l high I clock b parent m Hadm Ecl eq_refl Ev) as (p & k & -> & Hz & Hp). destruct Hadm as [Hb _].
    destruct m eqn:Em.
    + pose proof Hp as [Hn Hl Hs Hg Hmain]. destruct (Hmain eq_refl) as (El & cp & Hv). rewrite El in *.
      destruct (store_inv c d l high I b l Hb Hn Hl Hs Hg) as [I1 Hs1]. pose proof Hs1 as [Hb1 _]%list.Forall_cons.
      destruct (extend_inv _ _ l high I1 clock cp b p k (eq_sym El) Hb1 ltac:(apply lookup_insert_eq) Hl Hg Hv) as (i & -> & Hi).
      cbn [mbind option_bind]. rewrite (i_db _ _ _ _ I1). destruct (persist_block E (stats i) b _) as [d' u] eqn:Ep.
      do 2 eexists. split; [reflexivity|]. exists d'. by apply Hi.
    + apply orb_false_iff in Em as [Em _]. apply Z.eqb_neq in Em. destruct Hcov as [|Hhigh]; [done|].
      by apply (fork_outcome clock c d l high b p k).
Qed.
(** ** The start *)

Lemma genesis_inv c : typed genesis -> good [genesis] ->
  init_genesis n E (with_database empty_database ∅) genesis = Some c -> exists d, inv c d [genesis] 0.
Proof.
  intros Hg Hgood. unfold init_genesis. destruct (negb _); [done|]. cbv zeta. intros [= <-].
  cbn [with_database inner database fmap option_fmap option_map empty_database db_blocks height_index tx_index checkpoints].
  match goal with |- exists d, inv (mkChain _ (Some ?D)) _ _ _ => exists D end.
  split; cbn [inner database]; inner; cbn [db_blocks height_index chain_state db_network tip_hash tip_height Ledger.height Ledger.tip_hash].
  - reflexivity.
  - split; inner; cbn [db_blocks]; [done|]. intros x b. rewrite lookup_insert_Some. intros [[<- <-]|[_ [=]]]. done.
  - intros x b. rewrite lookup_insert_Some. intros [[<- <-]|[_ [=]]]. exists []. split; [done|]. split; [|done].
    apply list.Forall_singleton. apply lookup_insert_eq.
  - done.
  - apply list.Forall_singleton. apply lookup_insert_eq.
  - done.
  - by exists genesis, [].
  - intros h x. rewrite lookup_insert_Some. split.
    + intros [[<- <-]|[_ [=]]]. exists genesis. split; [left|done].
    + intros (a & ->%list_elem_of_singleton & <- & <-). by left.
  - done.
  - intros a ->%list_elem_of_singleton _. rewrite genesis_zero. by rewrite !lookup_insert_eq.
  - cbn. lia.
  - unfold Ledger.totals, NodeInv.ledger. cbn [removelast map length Ledger.total_blocks Ledger.total_transactions Ledger.total_supply
      Ledger.total_burned Ledger.total_difficulty Ledger.tx_sum Ledger.burn_sum Ledger.work_sum]. split_and!; try lia.
    by vm_compute.
  - done.
  - unfold NodeInv.replay. cbn [uchain map Utxo.replay]. rewrite genesis_zero. etransitivity; [apply persist_same|].
    exact (connect_same 0 (utxo_txs E genesis) _ _ (eq_refl : same_set (Utxo.mkUtxoSet ∅ ∅ ∅ ∅ ∅ ∅ ∅ (Some ∅) 0 0) Utxo.new)).
  - unfold persist_output_index. cbn [with_disk Utxo.db].
    destruct (connect_db_some (Utxo.mkUtxoSet ∅ ∅ ∅ ∅ ∅ ∅ ∅ (Some ∅) 0 0) 0 (utxo_txs E genesis)) as [m ->]; eauto.
  - by exists 0.
  - done.
  - unfold NodeInv.replay. cbn [uchain map Utxo.replay]. rewrite genesis_zero.
    by eapply indexes_eq; [| |apply (indexes_connect _ (Utxo.mkUtxoSet ∅ ∅ ∅ ∅ ∅ ∅ ∅ (Some ∅) 0 0) Utxo.new 0 (utxo_txs E genesis)), indexes_refl].
Qed.
(** ** A restart *)

Section Restart.
Context (d : Database) (l : list Block).
Hypothesis Hstored : Forall (stored d) l.
Hypothesis Hindex : forall h x, height_index d !! h = Some x <-> exists a, a ∈ l /\ block_height a = h /\ hash a = x.

Lemma index_block_of a : a ∈ l -> get_by_height d (block_height a) = Some a.
Proof.
  intros Ha. unfold get_by_height. rewrite (proj2 (Hindex (block_height a) (hash a))) by (by exists a). cbn [mbind option_bind].
  rewrite list.Forall_forall in Hstored. by apply Hstored.
Qed.

Lemma recompute_chain c k : database c = Some d -> blocks (inner c) = ∅ -> height_to_hash (inner c) = ∅ ->
  forall a, linked (a :: k) -> (forall e, e ∈ a :: k -> e ∈ l) -> good (a :: k) ->
  ForkCalc.recompute_total_difficulty (fork_view c) (Z.of_nat (length k)) = Some (1 + Ledger.work_sum (ledger (a :: k))).
Proof.
  intros Hd Hb Hh. induction k as [|p k IH]; intros a Hl Hin Hg; [done|]. unfold ForkCalc.recompute_total_difficulty in *.
  pose proof Hl as (_ & _ & Hl'). pose proof (good_tail _ _ _ _ _ Hg) as Hg'. pose proof (good_work _ _ _ Hg) as Hw.
  rewrite Nat2Z.id in *. cbn [length]. rewrite seq_S, fold_left_app.
  rewrite (IH p Hl') by (intros; try apply Hin; try right; done). cbn [fold_left mbind option_bind].
  assert (ForkCalc.get_block_by_height (fork_view c) (Z.of_nat (1 + length k)) = Some (fork_block a)) as ->.
  { pose proof (linked_height a _ Hl) as Ha. cbn [length] in Ha. replace (Z.of_nat (1 + length k)) with (block_height a) by lia.
    pose proof (index_block_of a (Hin a ltac:(left))) as Hga. unfold get_by_height in Hga.
    unfold ForkCalc.get_block_by_height, ForkCalc.get_block_hash, ForkCalc.get_block, fork_view, store. rewrite Hd, Hb, Hh.
    cbn [ForkCalc.inner ForkCalc.db ForkCalc.blocks ForkCalc.height_to_hash fmap option_fmap option_map]. rewrite fmap_empty, lookup_empty.
    destruct (height_index d !! block_height a) as [x|]; [|done]. cbn [mbind option_bind] in Hga. by rewrite lookup_empty, lookup_fmap, Hga. }
  cbn [mbind option_bind]. change (ForkCalc.work (fork_block a)) with (work a). rewrite ledger_work in *. f_equal.
  unfold saturating_add. lia.
Qed.

(** The replay of the lower part [k] of the chain. *)
Record replayed (top : Z) (i0 : Inner) (k : list Block) (r : Replay) : Prop := {
  rp_cut : r_cut r = false;
  rp_db : r_db r = d;
  rp_prev b : head k = Some b -> r_prev r = hash b;
  rp_blocks : Node.r_blocks r = Z.of_nat (length k);
  rp_txs : r_txs r = total_len (map transactions k);
  rp_tip : tip (r_inner r) = tip i0 /\ stats (r_inner r) = stats i0;
  rp_set : same_set (utxos (r_inner r)) (replay k);
  rp_disk : is_Some (Utxo.db (utxos (r_inner r)));
  rp_index f : indexes f (utxos (r_inner r)) (replay k);
  rp_cache x b : blocks (r_inner r) !! x = Some b -> b ∈ k /\ hash b = x;
  rp_mapped h x : height_to_hash (r_inner r) !! h = Some x -> exists b, b ∈ k /\ block_height b = h /\ hash b = x;
  rp_window b : b ∈ k -> top - 200 <= block_height b ->
    height_to_hash (r_inner r) !! block_height b = Some (hash b) /\ blocks (r_inner r) !! hash b = Some b }.

Lemma replay_next top r b : r_cut r = false -> r_db r = d -> b ∈ l ->
  (0 < block_height b -> prev_hash (header b) = r_prev r) ->
  replay_step E top r (block_height b) =
    mkReplay (let i := with_utxos (r_inner r) (Utxo.connect (utxos (r_inner r)) (block_height b) (utxo_txs E b)) in
              if saturating_sub top 200 <=? block_height b
              then with_blocks (with_heights i (<[block_height b := hash b]> (height_to_hash i))) (<[hash b := b]> (blocks i))
              else i) d (hash b) (wrap u64_max (Node.r_blocks r + 1))
      (wrap u64_max (r_txs r + Z.of_nat (length (transactions b)))) false.
Proof.
  intros Hc Hd Hb Hp. unfold replay_step. rewrite Hc, Hd, (index_block_of b Hb).
  destruct (Z.ltb_spec 0 (block_height b)) as [Hpos|]; cbn [andb]; [|done]. by rewrite Hp, Z.eqb_refl by done.
Qed.
Lemma replay_grow top i0 k r b : replayed top i0 k r -> linked (b :: k) -> (forall e, e ∈ b :: k -> e ∈ l) ->
  Z.of_nat (length (b :: k)) <= u64_max -> total_len (map transactions (b :: k)) <= u64_max ->
  replayed top i0 (b :: k) (replay_step E top r (block_height b)).
Proof.
  intros [Rc Rd Rp Rb Rt Rs Ru Rdb Rx Rca Rm Rw] Hl Hin Hn Ht. pose proof (linked_height b k Hl) as Hh.
  assert (Hst : Forall (stored d) (b :: k)).
  { apply list.Forall_forall. intros e He. rewrite list.Forall_forall in Hstored. by apply Hstored, Hin. }
  rewrite replay_next; [|done|done|apply Hin; left|].
  2: { intros Hpos. destruct k as [|p k]; [cbn [length] in Hh; lia|]. rewrite (Rp p eq_refl). apply Hl. }
  pose proof (total_len_nonneg (map transactions k)) as Hpos. cbn [map total_len foldr length] in Ht, Hn. fold (total_len (map transactions k)) in Ht.
  rewrite Rb, Rt. rewrite !wrap_small by (unfold fits; lia).
  assert (Hset : same_set (Utxo.connect (utxos (r_inner r)) (block_height b) (utxo_txs E b)) (replay (b :: k))).
  { exact (connect_same _ _ _ _ Ru). }
  assert (Hix : forall f, indexes f (Utxo.connect (utxos (r_inner r)) (block_height b) (utxo_txs E b)) (replay (b :: k))).
  { intros f. exact (indexes_connect f _ _ (block_height b) (utxo_txs E b) (Rx f)). }
  assert (Hne : forall e, e ∈ k -> block_height e <> block_height b).
  { intros e He. destruct (list_elem_of_split _ _ He) as (k1 & k2 & ->). pose proof (linked_above (b :: k1) e k2 b Hl ltac:(left)). lia. }
  assert (Hnx : forall e, e ∈ k -> hash e <> hash b).
  { intros e He Hx. apply (Hne e He). f_equal. apply (stored_inj d (b :: k)); [done|by right|left|done]. }
  unfold saturating_sub. destruct (Z.leb_spec (Z.max 0 (top - 200)) (block_height b)) as [Hw|Hw];
    (split; cbn [r_cut r_db r_prev Node.r_blocks r_txs r_inner]; inner; try done; try (by apply connect_db_some)).
  - by intros e [= ->].
  - cbn [length]. lia.
  - cbn [map total_len foldr]. fold (total_len (map transactions k)). lia.
  - intros x e. rewrite lookup_insert_Some. intros [[<- <-]|[_ He]]; [split; [left|done]|]. apply Rca in He as [? ?]. split; [by right|done].
  - intros h x. rewrite lookup_insert_Some. intros [[<- <-]|[_ He]]; [exists b; split; [left|done]|].
    apply Rm in He as (e & ? & ? & ?). exists e. split; [by right|done].
  - intros e [->|He]%elem_of_cons Hew; [by rewrite !lookup_insert_eq|].
    rewrite !lookup_insert_ne by (try (by apply not_eq_sym, Hne); by apply not_eq_sym, Hnx). by apply Rw.
  - by intros e [= ->].
  - cbn [length]. lia.
  - cbn [map total_len foldr]. fold (total_len (map transactions k)). lia.
  - intros x e He. apply Rca in He as [? ?]. split; [by right|done].
  - intros h x He. apply Rm in He as (e & ? & ? & ?). exists e. split; [by right|done].
  - intros e [->|He]%elem_of_cons Hew; [lia|by apply Rw].
Qed.

Lemma replay_chain top i0 k r0 : replayed top i0 [] r0 -> linked k -> (forall e, e ∈ k -> e ∈ l) ->
  Z.of_nat (length k) <= u64_max -> total_len (map transactions k) <= u64_max ->
  replayed top i0 k (fold_left (replay_step E top) (map Z.of_nat (seq 0 (length k))) r0).
Proof.
  intros H0. induction k as [|b k IH]; intros Hl Hin Hn Ht; [done|]. cbn [length] in *.
  pose proof (linked_height b k Hl) as Hh. rewrite seq_S, map_app, fold_left_app. cbn [map fold_left]. rewrite Nat.add_0_l, <- Hh.
  apply replay_grow; [|done|done|cbn [length]; lia|done].
  destruct k as [|p k]; [done|]. apply IH.
  - apply Hl.
  - intros e He. apply Hin. by right.
  - lia.
  - cbn [map total_len foldr] in *. fold (total_len (map transactions k)) in *. lia.
Qed.
End Restart.
Lemma chain_txs k : linked k -> total_len (map transactions k) = gtxs + Ledger.tx_sum (ledger k).
Proof.
  induction k as [|b k IH]; [done|]. intros Hl. cbn [map total_len foldr]. fold (total_len (map transactions k)).
  destruct k as [|p k]; [unfold linked in Hl; subst b; cbn; lia|]. rewrite ledger_txs, IH by apply Hl. lia.
Qed.

(** The state after the rebuild of the outputs, the cache and the counters. *)
Lemma rebuild_spec d l i top : Forall (stored d) l ->
  (forall h x, height_index d !! h = Some x <-> exists a, a ∈ l /\ block_height a = h /\ hash a = x) ->
  linked l -> good l -> top = Z.of_nat (length l) - 1 -> blocks i = ∅ -> height_to_hash i = ∅ ->
  exists i', rebuild_utxo_set E i d top = (i', d) /\ tip i' = tip i
    /\ stats i' = with_counters (stats i) (Z.of_nat (length l)) (gtxs + Ledger.tx_sum (ledger l))
    /\ same_set (utxos i') (replay l) /\ is_Some (Utxo.db (utxos i'))
    /\ indexes (top - 1000) (utxos i') (replay l)
    /\ (forall x b, blocks i' !! x = Some b -> b ∈ l /\ hash b = x)
    /\ (forall h x, height_to_hash i' !! h = Some x -> exists b, b ∈ l /\ block_height b = h /\ hash b = x)
    /\ (forall b, b ∈ l -> top - 200 <= block_height b -> height_to_hash i' !! block_height b = Some (hash b) /\ blocks i' !! hash b = Some b).
Proof.
  intros Hs Hi Hl Hg -> Hb Hh. unfold rebuild_utxo_set. set (top := Z.of_nat (length l) - 1).
  set (i1 := with_utxos i _). replace (Z.to_nat (top + 1)) with (length l) by lia.
  pose proof (good_length _ _ _ Hg) as Hn. pose proof (good_txs _ _ _ Hg) as Ht.
  destruct (replay_chain d l Hs Hi top i1 l (mkReplay i1 d 0 0 0 false)) as [Rc Rd Rp Rb Rt [Rs1 Rs2] Ru Rdb Rx Rca Rm Rw]; try done.
  - split; cbn [r_cut r_db r_prev Node.r_blocks r_txs r_inner]; subst i1; inner; try done; rewrite ?Hb, ?Hh; try done.
    intros b Hb0. by apply elem_of_nil in Hb0.
  - lia.
  - rewrite chain_txs by done. lia.
  - set (r := fold_left _ _ _) in *. clearbody r. cbv zeta. inner. rewrite Rb, Rt, Rd, Rs2, (chain_txs l Hl).
    eexists. split; [reflexivity|]. inner. rewrite Rs1. split_and!; try done.
    + etransitivity; [apply evict_same|]. by destruct (_ && _).
    + match goal with |- is_Some (Utxo.db (Utxo.evict_old_outputs ?u _ _)) => assert (is_Some (Utxo.db u)) as Hu end.
      { destruct Rdb as [m Em]. destruct (_ && _); [|by exists m]. cbn [with_disk Utxo.db]. rewrite Em. eauto. }
      unfold Utxo.evict_old_outputs. by destruct (_ <=? _).
    + apply indexes_evict; [lia|]. eapply indexes_eq; [|reflexivity|exact (Rx (top - 1000))]. by destruct (_ && _).
Qed.

Lemma restore_found d l b k s rows : Forall (stored d) l ->
  (forall h x, height_index d !! h = Some x <-> exists a, a ∈ l /\ block_height a = h /\ hash a = x) ->
  linked l -> good l -> l = b :: k -> s_height s = block_height b ->
  exists i' d', restore E (with_database d rows) d s b = mkChain i' (Some d')
    /\ d' = mkDb (db_blocks d) (height_index d) (tx_index d') (chain_state d) (checkpoints d) (db_network d)
    /\ tip i' = mkTip (s_tip_hash s) (s_height s) (work b) (timestamp (header b))
    /\ stats i' = Ledger.mkStats (s_height s) (Z.of_nat (length l)) (gtxs + Ledger.tx_sum (ledger l)) (s_total_supply s)
                    (s_total_burned s) (work b) (s_tip_hash s) (1 + Ledger.work_sum (ledger l))
    /\ same_set (utxos i') (replay l) /\ is_Some (Utxo.db (utxos i'))
    /\ indexes (s_height s - 1000) (utxos i') (replay l)
    /\ (forall x b, blocks i' !! x = Some b -> b ∈ l /\ hash b = x)
    /\ (forall h x, height_to_hash i' !! h = Some x -> exists b, b ∈ l /\ block_height b = h /\ hash b = x)
    /\ (forall a, a ∈ l -> s_height s - 200 <= block_height a -> height_to_hash i' !! block_height a = Some (hash a) /\ blocks i' !! hash a = Some a).
Proof.
  intros Hs Hi Hl Hg El Hh. unfold restore. cbv zeta. set (i := with_stats (with_tip _ _) _).
  assert (Hlen : s_height s = Z.of_nat (length k)) by (rewrite Hh; apply linked_height; by rewrite <- El).
  assert (ForkCalc.recompute_total_difficulty (fork_view (mkChain i (Some d))) (s_height s) = Some (1 + Ledger.work_sum (ledger l))) as ->.
  { rewrite Hlen, El. apply (recompute_chain d l Hs Hi); try done; rewrite <- El; done. }
  match goal with |- context [rebuild_utxo_set E ?j d] => set (i1 := j) end.
  destruct (rebuild_spec d l i1 (s_height s) Hs Hi Hl Hg) as (i' & Er & Rt & Rs & Ru & Rdb & Rx & Rca & Rm & Rw);
    [rewrite El; cbn [length]; lia|reflexivity|reflexivity|].
  rewrite Er. do 2 eexists. split; [reflexivity|]. split_and!; try done.
Qed.

(** A restart on the database finds the same chain again. *)
Lemma restart_inv c d l high anchor_ok rows : inv c d l high -> hash genesis = expected_genesis_hash n ->
  Ledger.total_burned (stats (inner c)) <= u64_max -> (forall a, a ∈ l -> block_height a = 1 -> anchor_ok a = true) ->
  exists c' d', load_from_database n E anchor_ok (with_database d rows) = (c', Ok Loaded)
    /\ inv c' d' l (tip_height (tip (inner c))) /\ db_blocks d' = db_blocks d.
Proof.
  intros I Hgen Hburn Hanchor. pose proof (inv_tip_height _ _ _ _ I) as Hth. pose proof (inv_good _ _ _ _ I) as Hg.
  pose proof (inv_genesis_in _ _ _ _ I) as Hgin. pose proof (inv_sound _ _ _ _ I) as Hsound.
  pose proof I as [Idb [Ic Ih] Ilin Il Is Iv (b & k & El & Etx & Eth) Ii Im Iw Ihi Ito [Ist1 Ist2] Iset Idisk (cp & Istate) Inet].
  unfold load_from_database. cbn [with_database database]. rewrite Istate.
  rewrite (proj2 (Ii 0 (hash genesis))) by (by exists genesis). rewrite Hgen, Z.eqb_refl, Inet. cbn [negb default].
  rewrite bool_decide_eq_true_2 by done. cbn [negb].
  assert (set_network d n = d) as -> by (unfold set_network; rewrite <- Inet; by destruct d).
  assert (match get_by_height d 1 with Some b0 => negb (anchor_ok b0) | None => false end = false) as ->.
  { destruct (get_by_height d 1) as [a|] eqn:Ea; [|done]. unfold get_by_height in Ea.
    destruct (height_index d !! 1) as [x|] eqn:Ex; [|done]. apply Ii in Ex as (a' & Ha' & Hh & <-). cbn [mbind option_bind] in Ea.
    rewrite list.Forall_forall in Is. pose proof (Is a' Ha') as Sa. unfold NodeInv.stored in Sa. rewrite Sa in Ea. injection Ea as <-.
    by rewrite Hanchor. }
  rewrite andb_false_r. set (s := state_of (stats (inner c)) cp) in *.
  assert (Es1 : s_tip_hash s = hash b) by (cbn; congruence). assert (Es2 : s_height s = block_height b) by (cbn; congruence).
  assert (db_blocks d !! hash b = Some b) as Hb. { rewrite El in Is. by apply list.Forall_cons in Is as [? _]. }
  rewrite Es1, Es2, Hb, Z.eqb_refl. cbn [negb].
  destruct (restore_found d l b k s rows Is Ii Il Hg El Es2) as (i' & d' & Er & Ed & Rt & Rs & Ru & Rdb & Rx & Rca & Rm & Rw).
  change (mkChain (inner (with_database d rows)) (Some d)) with (with_database d rows). rewrite Er.
  exists (mkChain i' (Some d')), d'. split; [reflexivity|]. split; [|by rewrite Ed].
  assert (Hb' : db_blocks d' = db_blocks d /\ height_index d' = height_index d /\ chain_state d' = chain_state d /\ db_network d' = db_network d) by (by rewrite Ed).
  destruct Hb' as (D1 & D2 & D3 & D4). clear Ed. pose proof Ito as (T1 & T2 & T3 & T4 & T5).
  assert (Hbu : s_total_burned s = Ledger.total_burned (stats (inner c))).
  { apply wrap_small. split; [|done]. rewrite T4. apply Ledger.burn_sum_bounds. apply ledger_ok, Hsound. }
  split; cbn [inner database]; unfold NodeInv.stored in *; rewrite ?D1, ?D2, ?D3, ?D4, ?Rt; cbn [tip_hash tip_height]; try done.
  - split; rewrite ?D1; intros x a Ha; [|by apply Ih]. apply Rca in Ha as [Ha <-]. rewrite list.Forall_forall in Is. by apply Is.
  - exists b, k. by rewrite Es1, Es2.
  - intros h x Hx. apply Ii. by apply Rm.
  - rewrite Eth, <- Es2. exact Rw.
  - rewrite Eth, <- Eth, Hth. lia.
  - rewrite Rs. unfold Ledger.totals. cbn [Ledger.total_blocks Ledger.total_transactions Ledger.total_supply Ledger.total_burned Ledger.total_difficulty].
    rewrite Hbu, T4. split_and!; try done. rewrite El, ledger_length. cbn [length]. lia.
  - by rewrite Rs.
  - exists cp. unfold state_of. rewrite Rs.
    cbn [Ledger.tip_hash Ledger.height Ledger.total_difficulty Ledger.total_supply Ledger.total_burned].
    rewrite Hbu, <- T5. by rewrite Istate.
  - rewrite Eth, <- Es2. exact Rx.
Qed.
(** ** Rolling back *)

(** [d'] differs from [d] in the transaction index only. *)
Definition same_chain (d d' : Database) : Prop :=
  db_blocks d' = db_blocks d /\ height_index d' = height_index d /\ chain_state d' = chain_state d
  /\ checkpoints d' = checkpoints d /\ db_network d' = db_network d.

(** The loop is at the chain [k]. *)
Record unwound (high : Z) (c : Blockchain) (d : Database) (k : list Block) : Prop := {
  u_db : database c = Some d;
  u_sound : sound E genesis k;
  u_good : good k;
  u_totals : Ledger.totals n gtxs (stats (inner c)) (ledger k);
  u_set : same_set (utxos (inner c)) (replay k);
  u_disk : is_Some (Utxo.db (utxos (inner c)));
  u_index : indexes (high - 1000) (utxos (inner c)) (replay k);
  u_hash a : a ∈ k -> get_block_hash c (block_height a) = Some (hash a) /\ get_block c (hash a) = Some a }.

(** One block of it. *)
Lemma unwind_block high c d a p k : unwound high c d (a :: p :: k) ->
  exists c' d', roll_back_block n E c (block_height a) a = Some c'
    /\ unwound high (unmap c' (block_height a)) d' (p :: k) /\ same_chain d d'
    /\ blocks (inner c') = blocks (inner c) /\ height_to_hash (inner c') = height_to_hash (inner c) /\ tip (inner c') = tip (inner c).
Proof.
  intros [Ud Us Ug Ut Uset Udisk Ux Uh]. unfold roll_back_block.
  destruct (Ledger.disconnect_totals n gtxs) with (s := stats (inner c)) (b := ledger_block E a) (chain := ledger (p :: k))
    as (s' & Es & Ht & _ & _).
  - pose proof (good_txs _ _ _ Ug). pose proof (Ledger.tx_sum_nonneg (ledger (a :: p :: k))). unfold fits. lia.
  - exact Ut.
  - exact (ledger_heights (a :: p :: k) (s_linked _ _ _ Us)).
  - exact (ledger_ok E (a :: p :: k) (s_typed _ _ _ Us)).
  - pose proof (s_roomy _ _ _ Us) as Hr. unfold roomy in Hr. cbn [length] in *. rewrite ledger_length. lia.
  - cbn [Ledger.b_height ledger_block] in Es. rewrite Es. cbn [mbind option_bind]. do 2 eexists. split; [reflexivity|].
    split; [|split; [|done]].
    + split; cbn [unmap on_database inner database]; inner.
      * rewrite Ud. reflexivity.
      * by eapply sound_tail.
      * by eapply good_tail.
      * exact Ht.
      * exact (disconnect_replay (utxos (inner c)) (block_height a) (utxo_txs E a) (uchain E (p :: k)) (s_fresh _ _ _ Us) Uset).
      * by apply disconnect_db_some.
      * exact (disconnect_indexes _ (utxos (inner c)) (block_height a) (utxo_txs E a) (uchain E (p :: k)) (s_fresh _ _ _ Us) Uset Ux).
      * intros e He. destruct (Uh e ltac:(by right)) as [Hh Hb]. revert Hh Hb. unfold get_block_hash, get_block, unmap, on_database.
        cbn [inner database]. inner. rewrite Ud. cbn [fmap option_fmap option_map mbind option_bind remove_tx_rows height_index db_blocks].
        rewrite lookup_delete_ne; [done|]. pose proof (linked_below p k e (proj2 (proj2 (s_linked _ _ _ Us))) He).
        destruct (s_linked _ _ _ Us) as (_ & ? & _). lia.
    + done.
Qed.

Lemma unwind_all high q m : forall old c d gone, unwound high c d (old ++ q :: m) ->
  exists c' d', rollback_loop n E (map block_height old) c gone = Some (c', Ok (gone ++ concat (map transactions old)))
    /\ unwound high c' d' (q :: m) /\ same_chain d d' /\ blocks (inner c') = blocks (inner c)
    /\ height_to_hash (inner c') = remove_rows (map block_height old) (height_to_hash (inner c)) /\ tip (inner c') = tip (inner c).
Proof.
  induction old as [|a old IH]; intros c d gone U.
  { exists c, d. cbn. by rewrite app_nil_r. }
  cbn [app map rollback_loop concat] in *. destruct (app_ne_cons old q m) as (p & k & Ep). rewrite Ep in U.
  destruct (u_hash _ _ _ _ U a ltac:(left)) as [-> ->].
  destruct (unwind_block high c d a p k U) as (c1 & d1 & -> & U1 & (S1 & S2 & S3 & S4 & S5) & B1 & H1 & T1). cbn [mbind option_bind].
  rewrite <- Ep in U1. destruct (IH _ _ (gone ++ transactions a) U1) as (c' & d' & -> & U' & (S1' & S2' & S3' & S4' & S5') & B' & H' & T').
  exists c', d'. split; [by rewrite <- app_assoc|]. split; [done|]. cbn [unmap inner] in *. inner in B'. inner in H'. inner in T'.
  split_and!; try congruence; [unfold same_chain; by split_and!; etransitivity|]. rewrite H', H1. done.
Qed.

Lemma index_above t (m : gmap Z Z) h x : (filter (fun p : Z * Z => fst p <= t) m : gmap Z Z) !! h = Some x <-> m !! h = Some x /\ h <= t.
Proof. by rewrite map_lookup_filter_Some. Qed.
Lemma start_unwound c d l high : inv c d l high -> unwound high c d l.
Proof.
  intros I. pose proof (i_stored _ _ _ _ I) as Hs. rewrite list.Forall_forall in Hs.
  split; [apply I|by eapply inv_sound|by eapply inv_good|apply I|apply I|apply I|apply I|]. intros a Ha. split.
  - rewrite (inv_get_hash c d l high I). apply (i_index _ _ _ _ I). by exists a.
  - rewrite (inv_get c d l high I). by apply Hs.
Qed.

(** The state once the tip has moved and the database is written. *)
Lemma rolled_inv c d l high c1 d1 old q m gone : inv c d l high -> l = old ++ q :: m ->
  unwound high c1 d1 (q :: m) -> same_chain d d1 -> blocks (inner c1) = blocks (inner c) ->
  height_to_hash (inner c1) = remove_rows (map block_height old) (height_to_hash (inner c)) ->
  let i := move_tip c1 (block_height q) in
  exists d', on_database (persist_rollback E (block_height q) gone (stats i)) (mkChain i (database c1)) = mkChain i (Some d')
    /\ inv (mkChain i (Some d')) d' (q :: m) high.
Proof.
  intros I El [Ud Us Ug Ut Uset Udisk Ux Uh] (S1 & S2 & S3 & S4 & S5) B1 H1 i.
  destruct (Uh q ltac:(left)) as [Eh Eb].
  assert (Ei : i = with_stats (with_tip (inner c1) (mkTip (hash q) (block_height q) (work q) (timestamp (header q))))
                     (with_height (stats (inner c1)) (block_height q) (hash q))) by (unfold i, move_tip; by rewrite Eh, Eb).
  unfold on_database. cbn [inner database]. rewrite Ud. cbn [fmap option_fmap option_map]. eexists. split; [reflexivity|].
  pose proof I as [Idb [Ic Ih] Ilin Il Is Iv It Ii Im Iw Ihi Ito Ist Iset Idisk Istate Inet Iix].
  assert (Hcut : forall a, a ∈ l -> block_height a <= block_height q <-> a ∈ q :: m).
  { rewrite El in *. intros a Ha. split; [|by apply linked_below; eapply linked_app].
    intros Hle. apply elem_of_app in Ha as [Ha|Ha]; [|done]. pose proof (linked_above old q m a Il Ha). lia. }
  assert (Hin : forall a, a ∈ q :: m -> a ∈ l) by (intros a Ha; rewrite El; by apply elem_of_app; right).
  rewrite Ei. split; cbn [inner database]; inner; unfold NodeInv.stored in *;
    cbn [persist_rollback remove_tx_rows remove_heights_above set_chain_state db_blocks height_index chain_state db_network tip_hash tip_height];
    rewrite ?S1, ?S2, ?S5, ?B1, ?H1; try done.
  - split; inner; rewrite ?B1; cbn [persist_rollback remove_tx_rows remove_heights_above set_chain_state db_blocks]; rewrite S1; done.
  - rewrite El in Il. by eapply linked_app.
  - rewrite El, list.Forall_app in Is. apply Is.
  - rewrite El in Iv. by eapply validated_suffix.
  - by exists q, m.
  - intros h x. rewrite index_above, Ii. split.
    + intros [(a & Ha & <- & <-) Hle]. exists a. split; [by apply Hcut|done].
    + intros (a & Ha & <- & <-). split; [exists a; split; [by apply Hin|done]|]. apply Hcut; [by apply Hin|done].
  - intros h x. rewrite remove_rows_lookup. destruct (decide _) as [|Hn]; [done|]. intros Hx. apply index_above. split; [by apply Im|].
    apply Im, Ii in Hx as (a & Ha & <- & _). destruct (Z.le_gt_cases (block_height a) (block_height q)); [done|]. exfalso.
    rewrite El in Ha. apply elem_of_app in Ha as [Ha|Ha]; [by apply Hn, list_elem_of_fmap_2|].
    pose proof (proj2 (Hcut a (Hin a Ha)) Ha). lia.
  - intros a Ha Hw. rewrite remove_rows_lookup, decide_False; [by apply Iw; [apply Hin|]|]. intros (e & He & Hie)%list_elem_of_fmap.
    rewrite El in Il. pose proof (linked_above old q m e Il Hie). pose proof (proj2 (Hcut a (Hin a Ha)) Ha). lia.
  - rewrite El, length_app in Ihi. cbn [length] in *. lia.
  - by eexists.
Qed.

(** A rollback finds every body, and leaves the chain up to its height. *)
Lemma rollback_spec c d l high t : inv c d l high -> 0 <= t ->
  exists c' r, rollback_to_height n E c t = Some (c', r)
    /\ match r with
       | Ok _ => exists d' old k, l = old ++ k /\ inv c' d' k high
                  /\ tip_height (tip (inner c')) = Z.min t (tip_height (tip (inner c)))
       | Err e => c' = c /\ e = PastCheckpoint (stored_checkpoint d) /\ t < stored_checkpoint d
       end.
Proof.
  intros I Ht. pose proof (inv_tip_height _ _ _ _ I) as Hth. unfold rollback_to_height. rewrite (i_db _ _ _ _ I).
  destruct (Z.leb_spec (tip_height (tip (inner c))) t); [do 2 eexists; split; [reflexivity|]; exists d, [], l; split_and!; [done|done|lia]|].
  destruct (Z.ltb_spec t (stored_checkpoint d)); [by do 2 eexists|].
  destruct (linked_at l t (i_linked _ _ _ _ I)) as (q & Hq & <-); [lia|].
  apply list_elem_of_split in Hq as (old & m & El). pose proof (start_unwound c d l high I) as U. rewrite El in U, Hth.
  rewrite Hth, heights_down_old with (E := E) (genesis := genesis) (l := m); [|done|apply (s_linked _ _ _ (u_sound _ _ _ _ U))].
  destruct (unwind_all high q m old c d [] U) as (c1 & d1 & -> & U1 & Sc & B1 & H1 & _). cbn [mbind option_bind].
  destruct (rolled_inv c d l high c1 d1 old q m (concat (map transactions old)) I El U1 Sc B1 H1) as (d' & Ed & I').
  do 2 eexists. split; [reflexivity|]. cbn [app]. rewrite Ed. exists d', old, (q :: m). split; [done|]. split; [done|].
  pose proof (inv_tip_height _ _ _ _ I') as Hth'. rewrite Hth'. pose proof (linked_height q m (i_linked _ _ _ _ I')) as Hq.
  rewrite length_app. cbn [length]. lia.
Qed.
End Reach.
End NodeReach.
