(* ===== verification/NodeSafety.v ===== *)
(** * The safety of the node's chain (src/src/chain.rs, src/src/chain)

    The states that a node reaches from its genesis block by adding blocks, rolling back,
    restarting and crashing, and what holds in all of them.  Then sample runs, which are the
    witnesses and show the findings. *)

From stdpp Require Import gmap list sorting.
From S2P Require Import Prelude Constants Types Emission Difficulty FeeMarket Security Ledger Utxo ForkCalc ForkChoice TxValidation BlockValidation ActiveChain Miner Node NodeInv NodeReach.

Module NodeSafety.
Import Types BlockValidation Node NodeInv NodeReach.
#[local] Opaque Difficulty.calculate_difficulty_from_target be_bytes.

(** ** Reachable states *)

Section Safety.
Context (n : Ledger.NetworkType) (E : Env) (sc : Z -> Z -> Z -> list Z) (genesis : Block).
Abbreviation hash := (block_hash (blake3 E)) (only parsing).

(** The highest tip since the last start comes with the state.  A crash loses what was not
    committed: the body of the block is in the database and the rest is not.

    Two conditions on the blocks that are added are assumptions on the environment, which
    chain.rs does not check.  [admissible]: in the lineage of the block no two outputs have
    the same key (transaction hash and position) and the counters do not overflow; a coinbase
    that repeats an earlier one breaks it ([ActiveChain.replayed_coinbase_accepted]).
    [covered]: the block extends the tip, or the tip has not fallen more than 56 blocks below
    its maximum since the start, as it can by rollbacks and by reorganisations to shorter,
    heavier branches; beyond that the cache may have evicted blocks that a reorganisation
    looks for.  The node has no Phase-2 store attached. *)
Inductive reachable : Blockchain -> Z -> Prop :=
| reach_genesis c :
    init_genesis n E (with_database empty_database ∅) genesis = Some c -> reachable c 0
| reach_add clock c high b c' r :
    reachable c high -> admissible E genesis c b -> covered high c b ->
    add_block n E sc clock c b = Some (c', r) -> reachable c' (Z.max high (tip_height (tip (inner c'))))
| reach_rollback c high t c' r :
    reachable c high -> 0 <= t -> rollback_to_height n E c t = Some (c', r) -> reachable c' high
| reach_restart c high d anchor_ok rows c' :
    reachable c high -> database c = Some d -> Ledger.total_burned (stats (inner c)) <= u64_max ->
    load_from_database n E anchor_ok (with_database d rows) = (c', Ok Loaded) ->
    reachable c' (tip_height (tip (inner c')))
| reach_crash clock c high b parent d anchor_ok rows c' :
    reachable c high -> admissible E genesis c b -> database c = Some d ->
    Ledger.total_burned (stats (inner c)) <= u64_max -> classify_incoming E c b = Proceed parent ->
    pre_checks n E sc clock c b parent ((prev_hash (header b) =? tip_hash (tip (inner c))) || (block_height b =? 0)) = Some None ->
    load_from_database n E anchor_ok (with_database (insert_body E d b) rows) = (c', Ok Loaded) ->
    reachable c' (tip_height (tip (inner c'))).

Hypothesis no_skip : allow_checkpoint_crypto_skip E = false.
Hypothesis genesis_zero : block_height genesis = 0.
Hypothesis genesis_only : forall b, block_height b = 0 -> verify_checkpoint n 0 (hash b) <> Some false -> hash b = hash genesis.
Hypothesis genesis_typed : typed genesis.
Hypothesis genesis_good : good E genesis [genesis].

Abbreviation inv := (inv n E genesis) (only parsing).

Lemma reachable_expected c high : reachable c high -> hash genesis = expected_genesis_hash n.
Proof.
  induction 1 as [c Hc| | | |]; try done. revert Hc. unfold init_genesis.
  by destruct (Z.eqb_spec (hash genesis) (expected_genesis_hash n)).
Qed.

(** A load that succeeds has checked the anchor of block 1. *)
Lemma loaded_anchor c d l high anchor_ok rows c' : inv c d l high ->
  load_from_database n E anchor_ok (with_database d rows) = (c', Ok Loaded) ->
  forall a, a ∈ l -> block_height a = 1 -> anchor_ok a = true.
Proof.
  intros I Hld a Ha Hh. pose proof I as [_ _ _ Il Is _ (b & k & El & Etx & Eth) Ii _ _ _ _ [Ist1 _] _ _ (cp & Istate) Inet].
  revert Hld. unfold load_from_database. cbn [with_database database inner]. rewrite Istate.
  destruct (height_index d !! 0); [|done]. destruct (negb _); [done|]. destruct (negb _); [done|].
  assert (set_network d n = d) as -> by (unfold set_network; rewrite <- Inet; by destruct d).
  rewrite <- Hh at 1 2. rewrite (index_block_of E d l Is Ii a Ha). cbn [state_of s_height]. rewrite Ist1, Eth.
  pose proof (NodeInv.linked_below E genesis genesis_zero b k a) as Hle. rewrite <- El in Hle.
  rewrite (proj2 (Z.leb_le (block_height a) (block_height b)) (Hle Il Ha)). cbn [andb]. by destruct (anchor_ok a).
Qed.

Lemma restart_step c d l high anchor_ok rows c' : inv c d l high -> hash genesis = expected_genesis_hash n ->
  Ledger.total_burned (stats (inner c)) <= u64_max ->
  load_from_database n E anchor_ok (with_database d rows) = (c', Ok Loaded) ->
  exists d', inv c' d' l (tip_height (tip (inner c'))).
Proof.
  intros I Hg Hb Hl. pose proof (loaded_anchor c d l high anchor_ok rows c' I Hl) as Ha.
  destruct (restart_inv n E genesis no_skip genesis_zero c d l high anchor_ok rows I Hg Hb Ha) as (c1 & d' & E1 & I1 & _).
  rewrite Hl in E1. injection E1 as <-. exists d'. pose proof (inv_tip_height _ _ _ genesis_zero _ _ _ _ I1) as H1.
  rewrite (inv_tip_height _ _ _ genesis_zero _ _ _ _ I) in I1. by rewrite H1.
Qed.

Lemma outcome_inv c d l high b c' r : inv c d l high -> outcome n E genesis c d l high b c' r ->
  exists d' l', inv c' d' l' (Z.max high (tip_height (tip (inner c')))).
Proof.
  intros I O. assert (Hstay : forall c' d', inv c' d' l high -> exists d' l', inv c' d' l' (Z.max high (tip_height (tip (inner c'))))).
  { intros c1 d1 I1. exists d1, l. pose proof (inv_tip_height _ _ _ genesis_zero _ _ _ _ I1) as H1.
    pose proof (i_high _ _ _ _ _ _ _ I1). by rewrite Z.max_l by lia. }
  assert (Hmove : forall d' k, inv c' d' (b :: k) (Z.max high (block_height b)) -> exists d' l', inv c' d' l' (Z.max high (tip_height (tip (inner c'))))).
  { intros d' k I'. exists d', (b :: k). destruct (i_tip _ _ _ _ _ _ _ I') as (b' & k' & [= <- <-] & _ & ->). done. }
  destruct r as [[]|e]; cbn [outcome] in O.
  - destruct O as (d' & I'). by eapply Hmove.
  - destruct O as (-> & I'). by eapply Hstay.
  - destruct O as (d' & k & I' & _). by eapply Hmove.
  - destruct O as (-> & _). by eapply Hstay.
  - destruct O as (-> & _). by eapply Hstay.
  - destruct O as [->|[I' _]]; by eapply Hstay.
  - destruct O as (-> & I'). by eapply Hstay.
Qed.

(** Every reachable state is that of a chain. *)
Lemma reachable_chain c high : reachable c high -> exists d l, inv c d l high.
Proof.
  intros Hr. pose proof (reachable_expected c high Hr) as Hexp. induction Hr as [c Hc|clock c high b c' r Hr IH Hadm Hcov Hadd
    |c high t c' r Hr IH Ht Hroll|c high d anchor_ok rows c' Hr IH Hd Hb Hl
    |clock c high b parent d anchor_ok rows c' Hr IH Hadm Hd Hb Hcl Hpre Hl].
  - destruct (genesis_inv n E genesis genesis_zero c genesis_typed genesis_good Hc) as [d I]. by exists d, [genesis].
  - destruct IH as (d & l & I).
    destruct (add_block_spec n E sc genesis no_skip genesis_zero genesis_only clock c d l high b I Hadm Hcov) as (c1 & r1 & E1 & O).
    rewrite Hadd in E1. injection E1 as <- <-. by eapply outcome_inv.
  - destruct IH as (d & l & I).
    destruct (rollback_spec n E genesis no_skip genesis_zero c d l high t I Ht) as (c1 & r1 & E1 & H1).
    rewrite Hroll in E1. injection E1 as <- <-. destruct r as [gone|e]; [|destruct H1 as (-> & _); eauto].
    destruct H1 as (d' & old & k & _ & I' & _). eauto.
  - destruct IH as (d0 & l & I). pose proof (i_db _ _ _ _ _ _ _ I) as Hd0. rewrite Hd in Hd0. injection Hd0 as <-.
    destruct (restart_step c d l high anchor_ok rows c' I Hexp Hb Hl) as [d' I']. eauto.
  - destruct IH as (d0 & l & I). pose proof (i_db _ _ _ _ _ _ _ I) as Hd0. rewrite Hd in Hd0. injection Hd0 as <-.
    destruct (passed n E sc genesis genesis_zero genesis_only c d l high I clock b parent _ Hadm Hcl eq_refl Hpre) as (p & k & -> & _ & [Hn Hlk Hs Hg _]).
    destruct (store_inv n E genesis c d l high I b (p :: k) (proj1 Hadm) Hn Hlk Hs Hg) as [I1 _].
    destruct (restart_step _ _ l high anchor_ok rows c' I1 Hexp Hb Hl) as [d' I']. eauto.
Qed.
(** ** Properties *)

Lemma inv_answers c d l high : inv c d l high -> answers (high - 1000) (utxos (inner c)).
Proof.
  intros I. pose proof (inv_sound n E genesis no_skip genesis_zero c d l high I) as Hs.
  apply (indexes_answers _ _ (uchain E l)); [apply (s_fresh _ _ _ Hs)|apply I|apply I].
Qed.

(** The blocks that the node serves by height are those of its chain. *)
Lemma inv_by_height c d l high h b : inv c d l high -> get_block_by_height c h = Some b <-> b ∈ l /\ block_height b = h.
Proof.
  intros I. unfold get_block_by_height. rewrite (inv_get_hash _ _ _ _ _ _ _ I). pose proof (i_stored _ _ _ _ _ _ _ I) as Is.
  rewrite list.Forall_forall in Is. split.
  - destruct (height_index d !! h) as [x|] eqn:Ex; [|done]. cbn [mbind option_bind]. rewrite (inv_get _ _ _ _ _ _ _ I).
    apply (i_index _ _ _ _ _ _ _ I) in Ex as (a & Ha & <- & <-). rewrite (Is a Ha). by intros [= ->].
  - intros [Hb <-]. rewrite (proj2 (i_index _ _ _ _ _ _ _ I (block_height b) (hash b))) by (by exists b). cbn [mbind option_bind].
    rewrite (inv_get _ _ _ _ _ _ _ I). by apply Is.
Qed.


(** C5: Adding a block to a reachable node ends, and the result tells what it did.  The block
    must have distinct output keys in its lineage, with counters that fit, and must extend the
    tip or come while the tip is at most 56 blocks below its highest since the start, which
    are the conditions under which the state was reached and which the code does not check.
    Then the call returns, and an accepted block is the new tip of the chain; a
    reorganisation moves the node to the block's branch, which has more work or as much work
    and the smaller tip hash; a known block and an orphan change nothing; a block of a weaker
    or forbidden branch is only stored; and an invalid block leaves the node on its chain. *)
Theorem add_block_outcome clock c high b : reachable c high -> admissible E genesis c b -> covered high c b ->
  exists d l c' r, database c = Some d /\ inv c d l high /\ add_block n E sc clock c b = Some (c', r)
    /\ outcome n E genesis c d l high b c' r.
Proof.
  intros Hr Ha Hc. destruct (reachable_chain c high Hr) as (d & l & I).
  destruct (add_block_spec n E sc genesis no_skip genesis_zero genesis_only clock c d l high b I Ha Hc) as (c' & r & Ea & O).
  exists d, l, c', r. split_and!; [apply I|done|done|done].
Qed.

(** C4: A refused block leaves a reachable node where it was.  The output keys in the block's
    lineage are distinct and the tip is at most 56 blocks below its highest, as for every
    block of the run.  Whether the block fails the first checks, or one of its branch or itself
    fails in the middle of a reorganisation that has already disconnected the old branch: the
    tip, the height index and the statistics are those before the call, so are the outputs
    with their height, locator and address indexes and the spent key images, the in-memory
    output index still answers for each address whose output is at most 1000 blocks below the
    highest tip, and the block database and the block cache change by the body of the block at
    most.  The rows of the output index on disk, the counters of outputs created and
    disconnected, and the Phase-2 stores are not part of the claim. *)
Theorem refused_block_restores clock c high b c' why : reachable c high -> admissible E genesis c b -> covered high c b ->
  add_block n E sc clock c b = Some (c', Ok (Invalid why)) ->
  tip (inner c') = tip (inner c) /\ height_to_hash (inner c') = height_to_hash (inner c) /\ stats (inner c') = stats (inner c)
  /\ same_set (utxos (inner c')) (utxos (inner c)) /\ answers (high - 1000) (utxos (inner c'))
  /\ (c' = c \/ (blocks (inner c') = <[hash b := b]> (blocks (inner c))
                 /\ database c' = (fun d => insert_body E d b) <$> database c)).
Proof.
  intros Hr Ha Hc Hadd. destruct (reachable_chain c high Hr) as (d & l & I).
  destruct (add_block_spec n E sc genesis no_skip genesis_zero genesis_only clock c d l high b I Ha Hc) as (c1 & r & E1 & O).
  rewrite Hadd in E1. injection E1 as <- <-. destruct O as [->|[I' [Rb Rh Rt Rs _ Ru _]]].
  { split_and!; try done; [by eapply inv_answers|by left]. }
  split_and!; [done..|by eapply inv_answers|right]. split; [done|]. by rewrite (i_db _ _ _ _ _ _ _ I), (i_db _ _ _ _ _ _ _ I').
Qed.

(** C9: A restart loses nothing: on the database of a reachable node whose burned total fits
    64 bits and whose block 1 passes the anchor check of the load, whatever its on-disk
    output index holds, the load succeeds and finds the same tip, the same blocks by height
    and by hash, the same output set and spent key images and the same totals. *)
Theorem restart_restores c high d anchor_ok rows : reachable c high -> database c = Some d ->
  Ledger.total_burned (stats (inner c)) <= u64_max ->
  (forall b, get_block_by_height c 1 = Some b -> anchor_ok b = true) ->
  exists c', load_from_database n E anchor_ok (with_database d rows) = (c', Ok Loaded)
    /\ tip_hash (tip (inner c')) = tip_hash (tip (inner c)) /\ tip_height (tip (inner c')) = tip_height (tip (inner c))
    /\ (forall h, get_block_by_height c' h = get_block_by_height c h) /\ (forall x, get_block c' x = get_block c x)
    /\ same_set (utxos (inner c')) (utxos (inner c))
    /\ Ledger.total_supply (stats (inner c')) = Ledger.total_supply (stats (inner c))
    /\ Ledger.total_burned (stats (inner c')) = Ledger.total_burned (stats (inner c))
    /\ Ledger.total_difficulty (stats (inner c')) = Ledger.total_difficulty (stats (inner c))
    /\ Ledger.total_blocks (stats (inner c')) = Ledger.total_blocks (stats (inner c))
    /\ Ledger.total_transactions (stats (inner c')) = Ledger.total_transactions (stats (inner c)).
Proof.
  intros Hr Hd Hb Ha. destruct (reachable_chain c high Hr) as (d0 & l & I). pose proof (i_db _ _ _ _ _ _ _ I) as Hd0.
  rewrite Hd in Hd0. injection Hd0 as <-.
  destruct (restart_inv n E genesis no_skip genesis_zero c d l high anchor_ok rows I (reachable_expected c high Hr) Hb) as (c' & d' & Eld & I' & Eb).
  { intros a Hin Hh. apply Ha. by apply (inv_by_height c d l high). }
  exists c'. split; [done|]. destruct (i_totals _ _ _ _ _ _ _ I) as (T1 & T2 & T3 & T4 & T5).
  destruct (i_totals _ _ _ _ _ _ _ I') as (T1' & T2' & T3' & T4' & T5').
  destruct (i_tip _ _ _ _ _ _ _ I) as (b & k & El & -> & ->). destruct (i_tip _ _ _ _ _ _ _ I') as (b' & k' & El' & -> & ->).
  rewrite El in El'. injection El' as <- <-. split_and!; try done; try congruence.
  - intros h. apply option_eq. intros a. by rewrite (inv_by_height c' d' l _ h a I'), (inv_by_height c d l _ h a I).
  - intros x. rewrite (inv_get _ _ _ _ _ _ _ I'), (inv_get _ _ _ _ _ _ _ I). by rewrite Eb.
  - by rewrite (i_set _ _ _ _ _ _ _ I'), (i_set _ _ _ _ _ _ _ I).
Qed.

(** C16: A rollback of a reachable node either is refused because it would pass the stored
    checkpoint, and changes nothing, or leaves exactly the blocks of the chain up to the height
    asked for; it never stops at a missing body. *)
Theorem rollback_exact c high d t : reachable c high -> database c = Some d -> 0 <= t ->
  exists c' r, rollback_to_height n E c t = Some (c', r)
    /\ match r with
       | Ok _ => tip_height (tip (inner c')) = Z.min t (tip_height (tip (inner c)))
           /\ forall h b, get_block_by_height c' h = Some b <-> get_block_by_height c h = Some b /\ h <= t
       | Err e => e = PastCheckpoint (stored_checkpoint d) /\ t < stored_checkpoint d /\ c' = c
       end.
Proof.
  intros Hr Hd Ht. destruct (reachable_chain c high Hr) as (d0 & l & I). pose proof (i_db _ _ _ _ _ _ _ I) as Hd0.
  rewrite Hd in Hd0. injection Hd0 as <-.
  destruct (rollback_spec n E genesis no_skip genesis_zero c d l high t I Ht) as (c' & r & Er & Hc).
  exists c', r. split; [done|]. destruct r as [gone|e]; [|by destruct Hc as (-> & -> & ?)].
  destruct Hc as (d' & old & k & El & I' & Hth). split; [done|]. intros h b.
  rewrite (inv_by_height c' d' k _ h b I'), (inv_by_height c d l _ h b I).
  pose proof (i_linked _ _ _ _ _ _ _ I) as Il. rewrite (inv_tip_height _ _ _ genesis_zero _ _ _ _ I'), (inv_tip_height _ _ _ genesis_zero _ _ _ _ I) in Hth.
  destruct (i_tip _ _ _ _ _ _ _ I') as (q & m & Ek & _). subst k l. rewrite length_app in Hth. cbn [length] in Hth. split.
  - intros [Hb <-]. pose proof (NodeInv.linked_bounds E genesis genesis_zero (q :: m) b (i_linked _ _ _ _ _ _ _ I') Hb) as Hbd. cbn [length] in Hbd.
    split; [|lia]. split; [by apply elem_of_app; right|done].
  - intros [[Hb <-] Hle]. split; [|done]. apply elem_of_app in Hb as [Hb|Hb]; [exfalso|done].
    pose proof (NodeInv.linked_above E genesis genesis_zero old q m b Il Hb).
    rewrite (NodeInv.linked_height E genesis genesis_zero q m (i_linked _ _ _ _ _ _ _ I')) in *.
    pose proof (NodeInv.linked_bounds E genesis genesis_zero _ b Il ltac:(by apply elem_of_app; left)) as Hbd. rewrite length_app in Hbd. cbn [length] in Hbd. lia.
Qed.
(** ** Runs

    A run that checks the conditions of each step ends in a reachable state. *)

Definition goodb (l : list Block) : bool :=
  bool_decide (NoDup (keys E l)) && (1 + Ledger.work_sum (ledger E l) <=? u128_max)
  && (Z.of_nat (length (transactions genesis)) + Ledger.tx_sum (ledger E l) <=? u64_max) && (Z.of_nat (length l) + 300 <=? u64_max).

Lemma goodb_ok l : goodb l = true -> good E genesis l.
Proof. unfold goodb. rewrite !andb_true_iff, !Z.leb_le, bool_decide_eq_true. by intros [[[? ?] ?] ?]. Qed.

(** The lineage of a hash in the database. *)
Fixpoint walk (d : Database) (fuel : nat) (x : Z) : list Block :=
  match fuel with
  | O => []
  | S fuel =>
      match db_blocks d !! x with
      | Some b => b :: (if block_height b =? 0 then [] else walk d fuel (prev_hash (header b)))
      | None => []
      end
  end.

Lemma walk_chain d k : forall p fuel, linked E genesis (p :: k) -> Forall (stored E d) (p :: k) -> (length k < fuel)%nat ->
  walk d fuel (hash p) = p :: k.
Proof.
  induction k as [|q k IH]; intros p fuel Hl Hs Hf; (destruct fuel as [|fuel]; [lia|]); cbn [walk];
    apply list.Forall_cons in Hs as [Hp Hs]; unfold stored in Hp; rewrite Hp; pose proof (NodeInv.linked_height E genesis genesis_zero _ _ Hl) as Hh;
    cbn [length] in *.
  - by rewrite Hh.
  - destruct (Z.eqb_spec (block_height p) 0); [lia|]. f_equal. destruct Hl as (-> & _ & Hl). apply IH; [done|done|lia].
Qed.

Definition step_ok (c : Blockchain) (high : Z) (b : Block) : bool :=
  typedb b && (0 <? block_height b)
  && match database c with
     | Some d => goodb (b :: walk d (S (Z.to_nat (block_height b))) (prev_hash (header b)))
     | None => false
     end
  && ((prev_hash (header b) =? tip_hash (tip (inner c))) || (high - 56 <=? tip_height (tip (inner c)))).

Lemma step_ok_spec c high b : step_ok c high b = true -> admissible E genesis c b /\ covered high c b.
Proof.
  unfold step_ok. rewrite !andb_true_iff, orb_true_iff, Z.ltb_lt, Z.eqb_eq, Z.leb_le. intros [[[Ht Hpos] Hg] Hc]. split; [|done].
  split; [by apply typedb_ok|]. intros d k Hd Hl Hs. rewrite Hd in Hg. pose proof (NodeInv.linked_height E genesis genesis_zero _ _ Hl) as Hh.
  destruct k as [|p k]; [cbn [length] in Hh; lia|]. destruct Hl as (Hp & Hstep & Hl). rewrite Hp, (walk_chain d k p) in Hg; [by apply goodb_ok|done|done|].
  cbn [length] in Hh. lia.
Qed.

Inductive Op := Add (b : Block) | Roll (t : Z) | Restart.

(** The clock of the sample runs. *)
Definition noon : Z * Z := (1700000000, 0).

Definition exec (st : Blockchain * Z) (op : Op) : option (Blockchain * Z) :=
  let '(c, high) := st in
  match op with
  | Add b =>
      if step_ok c high b then
        match add_block n E sc noon c b with
        | Some (c', _) => Some (c', Z.max high (tip_height (tip (inner c'))))
        | None => None
        end
      else None
  | Roll t =>
      if 0 <=? t then match rollback_to_height n E c t with Some (c', _) => Some (c', high) | None => None end else None
  | Restart =>
      match database c with
      | Some d =>
          if Ledger.total_burned (stats (inner c)) <=? u64_max then
            match load_from_database n E (fun _ => true) (with_database d (disk (utxos (inner c)))) with
            | (c', Ok Loaded) => Some (c', tip_height (tip (inner c')))
            | _ => None
            end
          else None
      | None => None
      end
  end.

Fixpoint run (ops : list Op) (st : Blockchain * Z) : option (Blockchain * Z) :=
  match ops with
  | [] => Some st
  | op :: ops => match exec st op with Some st => run ops st | None => None end
  end.

Lemma exec_reachable st op st' : reachable (fst st) (snd st) -> exec st op = Some st' -> reachable (fst st') (snd st').
Proof.
  destruct st as [c high]. cbn [fst snd]. intros Hr. destruct op as [b|t|]; cbn [exec].
  - destruct (step_ok c high b) eqn:Es; [|done]. apply step_ok_spec in Es as [Ha Hc].
    destruct (add_block n E sc noon c b) as [[c' r]|] eqn:Ea; [|done]. intros [= <-]. by eapply reach_add.
  - destruct (Z.leb_spec 0 t); [|done]. destruct (rollback_to_height n E c t) as [[c' r]|] eqn:Er; [|done]. intros [= <-].
    by eapply reach_rollback.
  - destruct (database c) as [d|] eqn:Ed; [|done]. destruct (Z.leb_spec (Ledger.total_burned (stats (inner c))) u64_max); [|done].
    destruct (load_from_database n E _ _) as [c' [[]|]] eqn:El; try done. intros [= <-]. by eapply reach_restart.
Qed.

Lemma run_reachable ops : forall st st', reachable (fst st) (snd st) -> run ops st = Some st' -> reachable (fst st') (snd st').
Proof.
  induction ops as [|op ops IH]; intros st st' Hr; cbn [run]; [by intros [= <-]|].
  destruct (exec st op) as [st1|] eqn:Ex; [|done]. intros H. apply (IH st1); [by eapply exec_reachable|done].
Qed.
End Safety.
(** ** A sample network

    A hash that can be computed, except that the genesis header has the hash that the code
    expects; a chain [a1], [a2], [a3] over genesis and a branch [b1], [b2]. *)

#[local] Transparent Difficulty.calculate_difficulty_from_target be_bytes.

Definition mix (x : list Z) : Z := fold_left (fun a b => Z.land (33 * a + b + 1) (2 ^ 61 - 1)) x 7.

Definition node_header (h prev root nonce : Z) : BlockHeader :=
  mkHeader REGTEST_MAGIC 2 h (1000 + 120 * h) prev root 0 0 nonce (Difficulty.max_t * 2 ^ 128) 0 0 None 0 0.

Definition genesis_txs : list Transaction := [sample_coinbase [(11, 600)]].
Definition genesis_header : BlockHeader := node_header 0 0 (merkle_root mix (map (tx_hash sample_env) genesis_txs)) 0.
Definition genesis_preimage : list Z := hash_preimage genesis_header.
Definition node_genesis : Block := mkBlock genesis_header genesis_txs.

Definition node_env : Env :=
  mkEnv (fun x => if bool_decide (x = genesis_preimage) then TESTNET_GENESIS_HASH else mix x)
    (tx_hash sample_env) (crypto sample_env) (verify_pow sample_env) 1700000000 false 0 (fun _ => []) false.

Definition next_block (p : Block) (addr : Z) (nonce : Z) : Block :=
  let h := block_height p + 1 in
  let txs := [sample_coinbase [(addr, Curve.base_reward h)]] in
  mkBlock (node_header h (block_hash (blake3 node_env) p) (merkle_root (blake3 node_env) (map (tx_hash node_env) txs)) nonce) txs.

Definition a1 : Block := next_block node_genesis 101 0.
Definition a2 : Block := next_block a1 102 0.
Definition a3 : Block := next_block a2 103 0.
Definition b1 : Block := next_block node_genesis 201 4.
Definition b2 : Block := next_block b1 202 1.

Definition no_commitment (_ _ _ : Z) : list Z := [].

Definition from_genesis (ops : list Op) : option (Blockchain * Z) :=
  match init_genesis Ledger.Regtest node_env (with_database empty_database ∅) node_genesis with
  | Some c => run Ledger.Regtest node_env no_commitment node_genesis ops (c, 0)
  | None => None
  end.

Definition final (ops : list Op) : Blockchain * Z := default (with_database empty_database ∅, 0) (from_genesis ops).

(** The result of adding a block to [c], and the height of the tip after it. *)
Definition added (c : Blockchain) (b : Block) : option (result ForkChoice.Error BlockStatus * Z) :=
  '(c', r) ← add_block Ledger.Regtest node_env no_commitment noon c b; Some (r, tip_height (tip (inner c'))).

Definition after (c : Blockchain) (b : Block) : Blockchain :=
  match add_block Ledger.Regtest node_env no_commitment noon c b with Some (c', _) => c' | None => c end.

(** A crash between the write of a block's body and the commit, and the restart. *)
Definition crashed (c : Blockchain) (b : Block) : Blockchain :=
  match database c with
  | Some d => fst (load_from_database Ledger.Regtest node_env (fun _ => true) (with_database (insert_body node_env d b) (disk (utxos (inner c)))))
  | None => c
  end.

Lemma node_genesis_zero : block_height node_genesis = 0.
Proof. reflexivity. Qed.

Lemma node_genesis_hash : block_hash (blake3 node_env) node_genesis = TESTNET_GENESIS_HASH.
Proof. cbn [blake3 node_env]. unfold block_hash, header_hash. by rewrite bool_decide_eq_true_2. Qed.

Lemma node_genesis_only b : block_height b = 0 -> verify_checkpoint Ledger.Regtest 0 (block_hash (blake3 node_env) b) <> Some false ->
  block_hash (blake3 node_env) b = block_hash (blake3 node_env) node_genesis.
Proof.
  intros _. rewrite node_genesis_hash. unfold verify_checkpoint. change (0 =? 0) with true. cbv iota.
  destruct (Z.eqb_spec (block_hash (blake3 node_env) b) TESTNET_GENESIS_HASH); [done|]. by intros [].
Qed.

Lemma node_genesis_typed : typed node_genesis.
Proof. apply typedb_ok. vm_compute. reflexivity. Qed.

Lemma node_genesis_good : good node_env node_genesis [node_genesis].
Proof. apply goodb_ok. vm_compute. reflexivity. Qed.

Lemma final_reachable ops : bool_decide (is_Some (from_genesis ops)) = true ->
  reachable Ledger.Regtest node_env no_commitment node_genesis (fst (final ops)) (snd (final ops)).
Proof.
  rewrite bool_decide_eq_true. intros [st Hst]. unfold final. rewrite Hst. cbn [default]. revert Hst. unfold from_genesis.
  destruct (init_genesis _ _ _ _) as [c|] eqn:Ei; [|done].
  apply (run_reachable _ _ _ _ node_genesis_zero ops (c, 0)). by apply reach_genesis.
Qed.

Definition branch_run : list Op := [Add a1; Add b1].


Lemma branch_run_ok : bool_decide (is_Some (from_genesis branch_run)) = true.
Proof. vm_compute. reflexivity. Qed.

Lemma restarted_run_ok : bool_decide (is_Some (from_genesis (branch_run ++ [Restart]))) = true.
Proof. vm_compute. reflexivity. Qed.

(** A restart strands a branch: the branch of two blocks that the node adopts over its
    only one is refused as invalid when the node was restarted after the first of them, since
    the reorganisation asks only the cache for the parents of its blocks and a restart loads
    only the main chain into it. *)
Theorem restart_strands_branch :
  added (fst (final branch_run)) b2 = Some (Ok (AcceptedReorg []), 2)
  /\ added (fst (final (branch_run ++ [Restart]))) b2
     = Some (Ok (Invalid (TipRejected [NonGenesisWithoutParent; NoPreviousBlockForPow])), 1).
Proof. split; vm_compute; reflexivity. Qed.

(** A crash between the write of a block's body and the commit leaves the node stuck: the
    block, sent again, is already known and stays off the chain, and its child is refused, as
    its parent is not in the cache. *)
Theorem crash_strands_node :
  let c := crashed (fst (final [Add a1])) a2 in
  added (fst (final [Add a1])) a2 = Some (Ok Accepted, 2)
  /\ added c a2 = Some (Ok AlreadyKnown, 1)
  /\ added c a3 = Some (Ok (Invalid (TipRejected [NonGenesisWithoutParent; NoPreviousBlockForPow])), 1)
  /\ added (after (after c a2) a3) (next_block a3 104 0)
     = Some (Ok (Invalid (ForkBlockRejected [NonGenesisWithoutParent; NoPreviousBlockForPow])), 1).
Proof. cbv zeta. split_and!; vm_compute; reflexivity. Qed.
(** A block that pays, beside its miner, an address that genesis pays too. *)
Definition reuse_block : Block :=
  let txs := [sample_coinbase [(301, Curve.base_reward 1 - 100); (11, 100)]] in
  mkBlock (node_header 1 (block_hash (blake3 node_env) node_genesis) (merkle_root (blake3 node_env) (map (tx_hash node_env) txs)) 0) txs.

(** A reorganisation drops the on-disk row of a live output: when the old branch pays an
    address that an older output owns, the commit removes the row of the address, although the
    older output is still in the set and owns the address in memory. *)
Theorem reorg_drops_live_row :
  let c := fst (final [Add reuse_block; Add b1]) in
  let c' := after c b2 in
  added c b2 = Some (Ok (AcceptedReorg []), 2)
  /\ (Utxo.entry_height <$> disk (utxos (inner c)) !! 11) = Some 0
  /\ disk (utxos (inner c')) !! 11 = None
  /\ Utxo.stealth_index (utxos (inner c')) !! 11 = Some (11, 0)
  /\ is_Some (Utxo.outputs (utxos (inner c')) !! (11, 0)).
Proof.
  cbv zeta. split_and!; [vm_compute; reflexivity..|]. apply (bool_decide_unpack _). vm_compute. exact I.
Qed.

(** ** Witnesses *)


Lemma b2_step_ok : step_ok node_env node_genesis (fst (final branch_run)) (snd (final branch_run)) b2 = true.
Proof. vm_compute. reflexivity. Qed.

Lemma b2_restarted_ok :
  step_ok node_env node_genesis (fst (final (branch_run ++ [Restart]))) (snd (final (branch_run ++ [Restart]))) b2 = true.
Proof. vm_compute. reflexivity. Qed.

Lemma add_block_outcome_witness : exists d l c' r,
  inv Ledger.Regtest node_env node_genesis (fst (final branch_run)) d l (snd (final branch_run))
  /\ add_block Ledger.Regtest node_env no_commitment noon (fst (final branch_run)) b2 = Some (c', r)
  /\ outcome Ledger.Regtest node_env node_genesis (fst (final branch_run)) d l (snd (final branch_run)) b2 c' r.
Proof.
  destruct (step_ok_spec node_env node_genesis node_genesis_zero _ _ _ b2_step_ok) as [Ha Hc].
  destruct (add_block_outcome Ledger.Regtest node_env no_commitment node_genesis eq_refl node_genesis_zero node_genesis_only
    node_genesis_typed node_genesis_good noon (fst (final branch_run)) (snd (final branch_run)) b2
    (final_reachable branch_run branch_run_ok) Ha Hc) as (d & l & c' & r & _ & H).
  exists d, l, c', r. exact H.
Defined.

(** The reorganisation that is refused after the first block of the branch was connected. *)
Lemma refused_block_restores_witness : exists c' why,
  add_block Ledger.Regtest node_env no_commitment noon (fst (final (branch_run ++ [Restart]))) b2 = Some (c', Ok (Invalid why))
  /\ same_set (utxos (inner c')) (utxos (inner (fst (final (branch_run ++ [Restart]))))).
Proof.
  destruct (step_ok_spec node_env node_genesis node_genesis_zero _ _ _ b2_restarted_ok) as [Ha Hc].
  assert (Hr : match add_block Ledger.Regtest node_env no_commitment noon (fst (final (branch_run ++ [Restart]))) b2 with
    | Some (_, Ok (Invalid _)) => true | _ => false end = true) by (vm_compute; reflexivity).
  destruct (add_block Ledger.Regtest node_env no_commitment noon (fst (final (branch_run ++ [Restart]))) b2) as [[c' [[| | | | |why]|]]|] eqn:Ea;
    try discriminate Hr.
  exists c', why. split; [reflexivity|].
  exact (proj1 (proj2 (proj2 (proj2 (refused_block_restores Ledger.Regtest node_env no_commitment node_genesis eq_refl node_genesis_zero
    node_genesis_only node_genesis_typed node_genesis_good noon (fst (final (branch_run ++ [Restart]))) (snd (final (branch_run ++ [Restart]))) b2 c' why
    (final_reachable _ restarted_run_ok) Ha Hc Ea))))).
Defined.

Lemma restart_restores_witness : exists d c', database (fst (final branch_run)) = Some d
  /\ load_from_database Ledger.Regtest node_env (fun _ => true) (with_database d ∅) = (c', Ok Loaded)
  /\ tip_hash (tip (inner c')) = tip_hash (tip (inner (fst (final branch_run))))
  /\ get_block c' (block_hash (blake3 node_env) b1) = get_block (fst (final branch_run)) (block_hash (blake3 node_env) b1).
Proof.
  destruct (database (fst (final branch_run))) as [d|] eqn:Ed; [|vm_compute in Ed; discriminate Ed].
  destruct (restart_restores Ledger.Regtest node_env no_commitment node_genesis eq_refl node_genesis_zero node_genesis_only
    node_genesis_typed node_genesis_good (fst (final branch_run)) (snd (final branch_run)) d (fun _ => true) ∅
    (final_reachable branch_run branch_run_ok) Ed) as (c' & El & Et & _ & _ & Eb & _).
  - apply Z.leb_le. vm_compute. reflexivity.
  - reflexivity.
  - exists d, c'. exact (conj eq_refl (conj El (conj Et (Eb _)))).
Defined.

Lemma rollback_exact_witness : exists c' r, rollback_to_height Ledger.Regtest node_env (fst (final branch_run)) 0 = Some (c', Ok r)
  /\ tip_height (tip (inner c')) = 0 /\ get_block_by_height c' 1 = None.
Proof.
  destruct (database (fst (final branch_run))) as [d|] eqn:Ed; [|vm_compute in Ed; discriminate Ed].
  destruct (rollback_exact Ledger.Regtest node_env no_commitment node_genesis eq_refl node_genesis_zero node_genesis_only
    node_genesis_typed node_genesis_good (fst (final branch_run)) (snd (final branch_run)) d 0
    (final_reachable branch_run branch_run_ok) Ed ltac:(lia)) as (c' & r & Er & Hr).
  assert (Hok : match rollback_to_height Ledger.Regtest node_env (fst (final branch_run)) 0 with Some (_, Ok _) => true | _ => false end = true)
    by (vm_compute; reflexivity).
  assert (E2 : tip_height (tip (inner (fst (final branch_run)))) = 1) by (vm_compute; reflexivity).
  rewrite Er in Hok. destruct r as [gone|e]; [|discriminate Hok]. destruct Hr as [Ht Hb]. rewrite E2 in Ht.
  exists c', gone. split; [exact Er|]. split; [exact Ht|].
  destruct (get_block_by_height c' 1) as [b|] eqn:Eb; [|reflexivity]. apply Hb in Eb as [_ Hle]. lia.
Defined.
End NodeSafety.
