(* ===== verification/Phase2.v ===== *)
(** * Phase-2 stores (src/src/storage/kernels.rs, spark.rs, shielded.rs, spark_pool.rs,
    phase2.rs, src/src/db/shim.rs)

    The four accumulator stores that follow the chain through reorganisations: the
    MimbleWimble kernels, the Spark coins, the shielded notes and the libspark pool.
    Each keeps its contents in memory and in the column families of the database, and a
    bounded stack of checkpoints, one taken before every block; [rewind] disconnects one
    block.  The trait [Phase2Store] is a class, a trait object is the record [dyn_store],
    and the drivers [checkpoint_all], [rewind_all], [check_lockstep] and
    [check_root_integrity] work on lists of trait objects.

    A [panic!] is [None].  A column family is a finite map of byte strings together with
    the keys whose writes the database refuses, so that the halting branches are
    reachable.  BLAKE3, Borsh and [bridgetree] are libraries: the hash is a parameter,
    Borsh and the tree are classes with the laws their documentation states. *)

From Stdlib Require Import String.
From stdpp Require Import strings gmap sorting.
From S2P Require Import Prelude Types Security.

Module Phase2.

Abbreviation bytes := (list Z).

(** ** Column families *)

(** [shim::Tree].  [refused]: the keys whose writes and deletes fail. *)
Record Tree := mkTree { rows : gmap bytes bytes; refused : gset bytes }.

Definition tree_insert (key value : bytes) (t : Tree) : option Tree :=
  if decide (key ∈ refused t) then None else Some (mkTree (<[key := value]> (rows t)) (refused t)).

Definition tree_remove (key : bytes) (t : Tree) : option Tree :=
  if decide (key ∈ refused t) then None else Some (mkTree (delete key (rows t)) (refused t)).

(** [iter()]; every reader sorts the rows or collects them into a map, so their order is
    immaterial. *)
Definition tree_iter (t : Tree) : list (bytes * bytes) := map_to_list (rows t).

(** Deletions whose failure is only logged. *)
Definition remove_logged (keys : list bytes) (t : Tree) : Tree :=
  fold_left (fun t k => default t (tree_remove k t)) keys t.

(** Deletions that stop at the first failure. *)
Fixpoint remove_halting (keys : list bytes) (t : Tree) : option Tree :=
  match keys with
  | [] => Some t
  | k :: keys' => match tree_remove k t with Some t' => remove_halting keys' t' | None => None end
  end.

(** [clear] deletes every key it has read, one at a time. *)
Definition tree_clear (t : Tree) : option Tree := remove_halting (map fst (tree_iter t)) t.

(** A write through an optional persistence. *)
Definition persist {P} (write : P -> option P) (p : option P) : option (option P) :=
  match p with
  | None => Some None
  | Some t => match write t with Some t' => Some (Some t') | None => None end
  end.

(** ** Encodings *)

Definition u64_key (i : Z) : bytes := be_bytes 8 i.
Definition le_value (bs : bytes) : Z := be_value (rev bs).
Definition i128_bytes (v : Z) : bytes := Types.le_bytes 16 (v mod (u128_max + 1)).
Definition i128_value (bs : bytes) : Z :=
  let u := le_value bs in if u <=? i128_max then u else u - (u128_max + 1).

(** The values a type of the source has, where the record that models it has more. *)
Class WellTyped (A : Type) := well_typed : A -> Prop.

(** [borsh]: a library; deserialising gives back what was serialised. *)
Class Borsh (A : Type) `{WellTyped A} := {
  to_vec : A -> bytes;
  from_slice : bytes -> option A;
  from_slice_to_vec : forall a, well_typed a -> from_slice (to_vec a) = Some a }.

Inductive LoadError := DatabaseError | SerializationError.

Fixpoint collect {A B} (f : A -> result LoadError B) (l : list A) : result LoadError (list B) :=
  match l with
  | [] => Ok []
  | a :: l' => let? b := f a in let? bs := collect f l' in Ok (b :: bs)
  end.

(** One row of an indexed column family: an 8-byte big-endian key, a Borsh value. *)
Definition load_row {A} `{Borsh A} (row : bytes * bytes) : result LoadError (Z * A) :=
  if Nat.eqb (length row.1) 8 then
    match from_slice row.2 with
    | Some a => Ok (be_value row.1, a)
    | None => Err SerializationError
    end
  else Err DatabaseError.

Definition key_le {A} (p q : Z * A) : Prop := p.1 <= q.1.
#[export] Instance key_le_dec {A} : RelDecision (@key_le A).
Proof. intros p q. unfold key_le. apply _. Defined.

(** The loop of every [open_with_db]: read the rows, then [sort_by_key] the index. *)
Definition load_indexed {A} `{Borsh A} (t : Tree) : result LoadError (list (Z * A)) :=
  let? loaded := collect load_row (tree_iter t) in Ok (merge_sort key_le loaded).

(** A spent tag: the key as it is (of [klen] bytes where the type fixes the length), the
    spend height in eight little-endian bytes. *)
Definition load_tag (klen : option nat) (row : bytes * bytes) : result LoadError (bytes * Z) :=
  if match klen with Some n => Nat.eqb (length row.1) n | None => true end then
    if Nat.eqb (length row.2) 8 then Ok (row.1, le_value row.2) else Err DatabaseError
  else Err DatabaseError.

Definition load_tags (klen : option nat) (t : Tree) : result LoadError (gmap bytes Z) :=
  let? loaded := collect (load_tag klen) (tree_iter t) in Ok (list_to_map loaded).

(** ** Checkpoint stacks

    [MAX_REORG_CHECKPOINTS] of kernels.rs and spark.rs, [MAX_CHECKPOINTS] of shielded.rs
    and spark_pool.rs. *)
Definition MAX_CHECKPOINTS : nat := 1000.

(** [cps.push(cp); if cps.len() > MAX { cps.remove(0); }] *)
Definition push_capped {A} (max : nat) (cps : list A) (cp : A) : list A :=
  let c := cps ++ [cp] in if Nat.ltb max (length c) then tail c else c.

(** [cps.pop()] *)
Fixpoint pop {A} (l : list A) : option (list A * A) :=
  match l with
  | [] => None
  | x :: l' => match pop l' with Some (r, y) => Some (x :: r, y) | None => Some ([], x) end
  end.

(** The tags spent at or above a height, and the others. *)
Definition tags_from (h : Z) (tags : gmap bytes Z) : list bytes :=
  map fst (map_to_list (filter (fun p : bytes * Z => h <= p.2) tags)).

Definition tags_below (h : Z) (tags : gmap bytes Z) : gmap bytes Z :=
  filter (fun p : bytes * Z => ~ h <= p.2) tags.

(** ** [bridgetree::BridgeTree]

    A library.  [tree_view] is what its documentation says of it: the leaves in the
    order they were appended and the checkpoints, each with its identifier and the leaves
    there were when it was taken.  An implementation is a type with the operations the
    store calls, and a view that each operation respects. *)

Definition SHIELDED_TREE_DEPTH : Z := 32.

Record tree_view := mkView {
  leaves : list bytes;
  marks : list (Z * nat);
  max_marks : nat }.

(** Appending to a full tree is refused. *)
Definition view_append (leaf : bytes) (v : tree_view) : tree_view * bool :=
  if Z.of_nat (length (leaves v)) <? 2 ^ SHIELDED_TREE_DEPTH
  then (mkView (leaves v ++ [leaf]) (marks v) (max_marks v), true) else (v, false).

Definition view_frontier (v : tree_view) : option Z :=
  match leaves v with [] => None | _ => Some (Z.of_nat (length (leaves v)) - 1) end.

(** An identifier that is not above the last one is refused; the oldest checkpoint is
    dropped beyond the maximum. *)
Definition view_checkpoint (id : Z) (v : tree_view) : tree_view * bool :=
  if match pop (marks v) with Some (_, (i, _)) => i <? id | None => true end
  then (mkView (leaves v) (push_capped (max_marks v) (marks v) (id, length (leaves v))) (max_marks v), true)
  else (v, false).

Definition view_rewind (v : tree_view) : tree_view * bool :=
  match pop (marks v) with
  | None => (v, false)
  | Some (rest, (_, n)) => (mkView (take n (leaves v)) rest (max_marks v), true)
  end.

Class BridgeTree (T : Type) := {
  bt_new : nat -> T;
  bt_append : bytes -> T -> T * bool;
  bt_frontier : T -> option Z;
  bt_checkpoint : Z -> T -> T * bool;
  bt_rewind : T -> T * bool;
  bt_root : T -> option bytes;
  bt_mark : T -> T * option Z;
  bt_witness : T -> Z -> nat -> option (list bytes) }.

Definition view_result {T R} (view : T -> tree_view) (p : T * R) : tree_view * R := (view p.1, p.2).

Class BridgeTreeLaws (T : Type) `{BridgeTree T} := {
  view : T -> tree_view;
  view_new n : view (bt_new n) = mkView [] [] n;
  view_of_append leaf t : view_result view (bt_append leaf t) = view_append leaf (view t);
  view_of_frontier t : bt_frontier t = view_frontier (view t);
  view_of_checkpoint id t : view_result view (bt_checkpoint id t) = view_checkpoint id (view t);
  view_of_rewind t : view_result view (bt_rewind t) = view_rewind (view t);
  view_of_mark t : view (bt_mark t).1 = view t;
  root_of_leaves t t' : leaves (view t) = leaves (view t') -> bt_root t = bt_root t' }.

(** BLAKE3: a library. *)
Class Blake3 := blake3 : bytes -> bytes.

(** The root of the empty tree: a constant of the tree library. *)
Class EmptyRoot := empty_root : bytes.

Section Stores.
Context `{Blake3} `{EmptyRoot}.

(** ** [KernelStore] *)

Record MwKernel := mkKernel { excess : bytes; ksignature : bytes; kfee : Z; kheight : Z }.

#[export] Instance MwKernel_typed : WellTyped MwKernel := fun k =>
  length (excess k) = 32%nat /\ fits u64_max (kfee k) /\ fits u64_max (kheight k).

Context `{!Borsh MwKernel}.

Record KernelCheckpoint := mkKernelCp { kc_height : Z; kernels_len : nat }.

Record KernelStore := mkKernelStore {
  kernels : list MwKernel;
  kernel_root : bytes;
  kernel_checkpoints : list KernelCheckpoint;
  kernel_persistence : option Tree }.

Definition kernel_compute_root (ks : list MwKernel) : bytes :=
  blake3 (concat (map (fun k => excess k ++ Types.le_bytes 8 (kheight k)) ks)).

Definition kernel_new : KernelStore := mkKernelStore [] (kernel_compute_root []) [] None.

Definition kernel_open (t : Tree) : result LoadError KernelStore :=
  let? loaded := load_indexed t in
  let ks := map snd loaded in
  Ok (mkKernelStore ks (kernel_compute_root ks) [] (Some t)).

Definition kernel_append (k : MwKernel) (s : KernelStore) : option KernelStore :=
  let idx := Z.of_nat (length (kernels s)) in
  match persist (tree_insert (u64_key idx) (to_vec k)) (kernel_persistence s) with
  | Some p =>
      let ks := kernels s ++ [k] in
      Some (mkKernelStore ks (kernel_compute_root ks) (kernel_checkpoints s) p)
  | None => None
  end.

Definition kernel_checkpoint_at_height (h : Z) (s : KernelStore) : KernelStore :=
  mkKernelStore (kernels s) (kernel_root s)
    (push_capped MAX_CHECKPOINTS (kernel_checkpoints s) (mkKernelCp h (length (kernels s))))
    (kernel_persistence s).

Definition kernel_checkpoint_count (s : KernelStore) : nat := length (kernel_checkpoints s).

Definition kernel_rewind (s : KernelStore) : KernelStore * bool :=
  match pop (kernel_checkpoints s) with
  | None => (s, false)
  | Some (rest, cp) =>
      let old_len := length (kernels s) in
      let split_at := Nat.min (kernels_len cp) old_len in
      let ks := take split_at (kernels s) in
      let dropped := map (fun i => u64_key (Z.of_nat i)) (seq split_at (old_len - split_at)) in
      (mkKernelStore ks (kernel_compute_root ks) rest
         (remove_logged dropped <$> kernel_persistence s), true)
  end.

Definition kernel_recomputed_root (s : KernelStore) : bytes := kernel_compute_root (kernels s).

(** ** [SparkStore] *)

Record SparkCoinEntry := mkSparkCoin { coin_id : Z; scommitment : bytes; sheight : Z }.

#[export] Instance SparkCoinEntry_typed : WellTyped SparkCoinEntry := fun c =>
  length (scommitment c) = 32%nat /\ fits u64_max (coin_id c) /\ fits u64_max (sheight c).

Context `{!Borsh SparkCoinEntry}.

Record SparkCheckpoint := mkSparkCp { sc_height : Z; sc_coins_len : nat }.

Record SparkStore := mkSparkStore {
  spark_coins : list SparkCoinEntry;
  spent_serials : gmap bytes Z;
  spark_root : bytes;
  spark_checkpoints : list SparkCheckpoint;
  spark_persistence : option (Tree * Tree) }.   (** coins, serials *)

Definition spark_compute_root (cs : list SparkCoinEntry) : bytes :=
  blake3 (concat (map scommitment cs)).

Definition spark_new : SparkStore := mkSparkStore [] ∅ (spark_compute_root []) [] None.

Definition spark_open (coins_tree serials_tree : Tree) : result LoadError SparkStore :=
  let? loaded := load_indexed coins_tree in
  let cs := map snd loaded in
  let? spent := load_tags (Some 32%nat) serials_tree in
  Ok (mkSparkStore cs spent (spark_compute_root cs) [] (Some (coins_tree, serials_tree))).

(** Writes to the first or to the second of two column families. *)
Definition on_fst (write : Tree -> option Tree) (p : Tree * Tree) : option (Tree * Tree) :=
  match write p.1 with Some t => Some (t, p.2) | None => None end.
Definition on_snd (write : Tree -> option Tree) (p : Tree * Tree) : option (Tree * Tree) :=
  match write p.2 with Some t => Some (p.1, t) | None => None end.

Definition spark_add_coin (e : SparkCoinEntry) (s : SparkStore) : option SparkStore :=
  match persist (on_fst (tree_insert (u64_key (coin_id e)) (to_vec e))) (spark_persistence s) with
  | Some p =>
      let cs := spark_coins s ++ [e] in
      Some (mkSparkStore cs (spent_serials s) (spark_compute_root cs) (spark_checkpoints s) p)
  | None => None
  end.

Definition spark_mark_serial_spent (serial : bytes) (h : Z) (s : SparkStore) : option SparkStore :=
  let spent := <[serial := h]> (spent_serials s) in
  match persist (on_snd (tree_insert serial (Types.le_bytes 8 h))) (spark_persistence s) with
  | Some p => Some (mkSparkStore (spark_coins s) spent (spark_root s) (spark_checkpoints s) p)
  | None => None
  end.

(** A height that does not increase is only logged. *)
Definition spark_checkpoint_at_height (h : Z) (s : SparkStore) : SparkStore :=
  mkSparkStore (spark_coins s) (spent_serials s) (spark_root s)
    (push_capped MAX_CHECKPOINTS (spark_checkpoints s) (mkSparkCp h (length (spark_coins s))))
    (spark_persistence s).

Definition spark_checkpoint_count (s : SparkStore) : nat := length (spark_checkpoints s).

Definition spark_rewind (s : SparkStore) : SparkStore * bool :=
  match pop (spark_checkpoints s) with
  | None => (s, false)
  | Some (rest, cp) =>
      let split_at := Nat.min (sc_coins_len cp) (length (spark_coins s)) in
      let removed_coins := drop split_at (spark_coins s) in
      let cs := take split_at (spark_coins s) in
      let removed_serials := tags_from (sc_height cp) (spent_serials s) in
      (mkSparkStore cs (tags_below (sc_height cp) (spent_serials s)) (spark_compute_root cs) rest
         ((fun p : Tree * Tree =>
             (remove_logged (map (fun c => u64_key (coin_id c)) removed_coins) p.1,
              remove_logged removed_serials p.2)) <$> spark_persistence s), true)
  end.

Definition is_serial_spent (s : SparkStore) (serial : bytes) : bool :=
  bool_decide (is_Some (spent_serials s !! serial)).

(** Decompressing a Ristretto point is the curve library's. *)
Definition commitments_for {P} (decompress : bytes -> option P) (s : SparkStore) (indices : list Z)
    : option (list P) :=
  mapM (fun idx =>
    match spark_coins s !! Z.to_nat idx with
    | Some e => if coin_id e =? idx then decompress (scommitment e) else None
    | None => None
    end) indices.

Definition spark_recomputed_root (s : SparkStore) : bytes := spark_compute_root (spark_coins s).

(** ** [ShieldedStore] *)

Record NoteCommitmentEntry := mkNote {
  ncommitment : bytes; nheight : Z; ntx_index : Z; nposition : Z }.

#[export] Instance NoteCommitmentEntry_typed : WellTyped NoteCommitmentEntry := fun e =>
  length (ncommitment e) = 32%nat /\ fits u64_max (nheight e) /\ fits u32_max (ntx_index e)
  /\ fits u64_max (nposition e).

Context `{!Borsh NoteCommitmentEntry}.
Context {BT : Type} `{!BridgeTree BT}.

Record ShieldedCheckpoint := mkShieldedCp { hc_height : Z; hc_entries_len : nat }.

Record ShieldedStore := mkShieldedStore {
  tree : BT;
  entries : gmap Z NoteCommitmentEntry;
  nullifiers : gmap bytes Z;
  shielded_checkpoints : list ShieldedCheckpoint;
  shielded_persistence : option (Tree * Tree) }.   (** entries, nullifiers *)

Definition shielded_new : ShieldedStore := mkShieldedStore (bt_new MAX_CHECKPOINTS) ∅ ∅ [] None.

Definition shielded_open (entries_tree nullifiers_tree : Tree) : result LoadError ShieldedStore :=
  let? loaded := load_indexed entries_tree in
  let t := fold_left (fun t (p : Z * NoteCommitmentEntry) => (bt_append (ncommitment p.2) t).1) loaded
             (bt_new MAX_CHECKPOINTS) in
  let es := fold_left (fun m (p : Z * NoteCommitmentEntry) => <[p.1 := p.2]> m) loaded ∅ in
  let? nfs := load_tags (Some 32%nat) nullifiers_tree in
  Ok (mkShieldedStore t es nfs [] (Some (entries_tree, nullifiers_tree))).

Definition append_commitment (e : NoteCommitmentEntry) (s : ShieldedStore) : option (ShieldedStore * Z) :=
  let t := (bt_append (ncommitment e) (tree s)).1 in
  let position := default 0 (bt_frontier t) in
  let e := mkNote (ncommitment e) (nheight e) (ntx_index e) position in
  match persist (on_fst (tree_insert (u64_key position) (to_vec e))) (shielded_persistence s) with
  | Some p =>
      Some (mkShieldedStore t (<[position := e]> (entries s)) (nullifiers s) (shielded_checkpoints s) p,
            position)
  | None => None
  end.

Definition shielded_checkpoint_at_height (h : Z) (s : ShieldedStore) : ShieldedStore :=
  let '(t, tree_checkpointed) := bt_checkpoint h (tree s) in
  mkShieldedStore t (entries s) (nullifiers s)
    (if tree_checkpointed : bool
     then push_capped MAX_CHECKPOINTS (shielded_checkpoints s) (mkShieldedCp h (size (entries s)))
     else shielded_checkpoints s)
    (shielded_persistence s).

Definition shielded_checkpoint_count (s : ShieldedStore) : nat := length (shielded_checkpoints s).

Definition shielded_rewind (s : ShieldedStore) : ShieldedStore * bool :=
  match pop (shielded_checkpoints s) with
  | None => (s, false)
  | Some (rest, cp) =>
      let '(t, tree_rewound) := bt_rewind (tree s) in
      let boundary := Z.of_nat (hc_entries_len cp) in
      let removed_positions :=
        map fst (map_to_list (filter (fun p : Z * NoteCommitmentEntry => boundary <= p.1) (entries s))) in
      let removed_nullifiers := tags_from (hc_height cp) (nullifiers s) in
      (mkShieldedStore t
         (filter (fun p : Z * NoteCommitmentEntry => ~ boundary <= p.1) (entries s))
         (tags_below (hc_height cp) (nullifiers s)) rest
         ((fun p : Tree * Tree =>
             (remove_logged (map u64_key removed_positions) p.1, remove_logged removed_nullifiers p.2))
          <$> shielded_persistence s), tree_rewound)
  end.

Definition mark_nullifier_spent (nullifier : bytes) (h : Z) (s : ShieldedStore) : option (ShieldedStore * bool) :=
  match nullifiers s !! nullifier with
  | Some _ => Some (s, false)
  | None =>
      let nfs := <[nullifier := h]> (nullifiers s) in
      match persist (on_snd (tree_insert nullifier (Types.le_bytes 8 h))) (shielded_persistence s) with
      | Some p => Some (mkShieldedStore (tree s) (entries s) nfs (shielded_checkpoints s) p, true)
      | None => None
      end
  end.

Definition is_nullifier_spent (s : ShieldedStore) (nullifier : bytes) : bool :=
  bool_decide (is_Some (nullifiers s !! nullifier)).

Definition tree_size (s : ShieldedStore) : nat := size (entries s).

Definition shielded_current_root (s : ShieldedStore) : bytes :=
  default empty_root (bt_root (tree s)).

Definition entry_at (s : ShieldedStore) (position : Z) : option NoteCommitmentEntry := entries s !! position.

Definition mark_current (s : ShieldedStore) : ShieldedStore * option Z :=
  let '(t, p) := bt_mark (tree s) in
  (mkShieldedStore t (entries s) (nullifiers s) (shielded_checkpoints s) (shielded_persistence s), p).

Definition witness_path (s : ShieldedStore) (position : Z) (checkpoint_depth : nat) : option (list bytes) :=
  bt_witness (tree s) position checkpoint_depth.

(** ** [SparkPoolStore] *)

Definition SPARK_COVER_SET_GROUP : Z := 512.

(** The row of a coin: [PersistedCoin]. *)
Record SparkPoolCoin := mkPoolCoin {
  outpoint : bytes; coin : bytes; serial_context : bytes; pheight : Z; cover_index : Z }.

#[export] Instance SparkPoolCoin_typed : WellTyped SparkPoolCoin := fun c =>
  fits u64_max (pheight c) /\ fits u64_max (cover_index c).

Context `{!Borsh SparkPoolCoin}.

(** "pool_value" *)
Definition POOL_VALUE_KEY : bytes := [112; 111; 111; 108; 95; 118; 97; 108; 117; 101].

Record PoolCheckpoint := mkPoolCp { pc_height : Z; pc_coins_len : nat; pc_pool_value : Z }.

Record PoolPersistence := mkPoolPersistence { coins_cf : Tree; tags_cf : Tree; meta_cf : Tree }.

Record SparkPoolStore := mkPool {
  pool_coins : list SparkPoolCoin;
  by_outpoint : gmap bytes Z;
  spent_tags : gmap bytes Z;
  pool_checkpoints : list PoolCheckpoint;
  max_coin_height : option Z;
  max_spent_tag_height : option Z;
  pool_value : Z;
  pool_persistence : option PoolPersistence }.

Definition pool_new : SparkPoolStore := mkPool [] ∅ ∅ [] None None 0 None.

(** [iter().max()] *)
Definition max_of (l : list Z) : option Z :=
  match l with [] => None | x :: l' => Some (fold_left Z.max l' x) end.

Definition tag_heights (tags : gmap bytes Z) : list Z := map snd (map_to_list tags).

(** The running total in the meta family; an absent or malformed value is zero. *)
Definition load_pool_value (t : Tree) : Z :=
  match rows t !! POOL_VALUE_KEY with
  | Some v => if Nat.eqb (length v) 16 then i128_value v else 0
  | None => 0
  end.

Definition pool_open (coins_tree tags_tree meta_tree : Tree) : result LoadError SparkPoolStore :=
  let? loaded := load_indexed (A := SparkPoolCoin) coins_tree in
  let by_op := fold_left (fun m (p : Z * SparkPoolCoin) => <[outpoint p.2 := p.1]> m) loaded ∅ in
  let cs := map (fun p : Z * SparkPoolCoin =>
                   mkPoolCoin (outpoint p.2) (coin p.2) (serial_context p.2) (pheight p.2) p.1) loaded in
  let? tags := load_tags None tags_tree in
  Ok (mkPool cs by_op tags [] (max_of (map pheight cs)) (max_of (tag_heights tags))
        (load_pool_value meta_tree) (Some (mkPoolPersistence coins_tree tags_tree meta_tree))).

Definition on_coins (write : Tree -> option Tree) (p : PoolPersistence) : option PoolPersistence :=
  match write (coins_cf p) with Some t => Some (mkPoolPersistence t (tags_cf p) (meta_cf p)) | None => None end.
Definition on_tags (write : Tree -> option Tree) (p : PoolPersistence) : option PoolPersistence :=
  match write (tags_cf p) with Some t => Some (mkPoolPersistence (coins_cf p) t (meta_cf p)) | None => None end.
Definition on_meta (write : Tree -> option Tree) (p : PoolPersistence) : option PoolPersistence :=
  match write (meta_cf p) with Some t => Some (mkPoolPersistence (coins_cf p) (tags_cf p) t) | None => None end.

(** [m.map_or(h, |cur| cur.max(h))] *)
Definition raise_max (m : option Z) (h : Z) : option Z :=
  Some (match m with Some cur => Z.max cur h | None => h end).

Definition pool_add_coin (op c ctx : bytes) (h : Z) (s : SparkPoolStore) : option (SparkPoolStore * option Z) :=
  match by_outpoint s !! op with
  | Some _ => Some (s, None)
  | None =>
      let index := Z.of_nat (length (pool_coins s)) in
      let entry := mkPoolCoin op c ctx h index in
      match persist (on_coins (tree_insert (u64_key index) (to_vec entry))) (pool_persistence s) with
      | Some p =>
          Some (mkPool (pool_coins s ++ [entry]) (<[op := index]> (by_outpoint s)) (spent_tags s)
                  (pool_checkpoints s) (raise_max (max_coin_height s) h) (max_spent_tag_height s)
                  (pool_value s) p, Some index)
      | None => None
      end
  end.

Definition cover_set (s : SparkPoolStore) : list bytes := map coin (pool_coins s).

(** The coins of one group that the anchor admits, with their index. *)
Definition group_coins (s : SparkPoolStore) (cover_set_id anchor_height : Z) : list SparkPoolCoin :=
  let start := saturating_mul u64_max cover_set_id SPARK_COVER_SET_GROUP in
  let stop := saturating_add u64_max start SPARK_COVER_SET_GROUP in
  map snd (List.filter (fun ic : nat * SparkPoolCoin =>
    (start <=? Z.of_nat ic.1) && (Z.of_nat ic.1 <? stop) && (pheight ic.2 <=? anchor_height))
    (imap pair (pool_coins s))).

Definition cover_set_at (s : SparkPoolStore) (cover_set_id anchor_height : Z) : list bytes :=
  map coin (group_coins s cover_set_id anchor_height).

Definition coin_entry (c : SparkPoolCoin) : bytes * bytes * bytes * Z :=
  (outpoint c, coin c, serial_context c, pheight c).

Definition cover_entries_at (s : SparkPoolStore) (cover_set_id anchor_height : Z)
    : list (bytes * bytes * bytes * Z) :=
  map coin_entry (group_coins s cover_set_id anchor_height).

Definition coin_entries (s : SparkPoolStore) : list (bytes * bytes * bytes * Z) :=
  map coin_entry (pool_coins s).

Definition coin_count (s : SparkPoolStore) : nat := length (pool_coins s).
Definition index_of (s : SparkPoolStore) (op : bytes) : option Z := by_outpoint s !! op.
Definition coin_at (s : SparkPoolStore) (index : Z) : option SparkPoolCoin := pool_coins s !! Z.to_nat index.

Definition context_for (s : SparkPoolStore) (op : bytes) : option bytes :=
  match by_outpoint s !! op with
  | Some idx => serial_context <$> (pool_coins s !! Z.to_nat idx)
  | None => None
  end.

Definition mark_tag_spent (tag : bytes) (h : Z) (s : SparkPoolStore) : option (SparkPoolStore * bool) :=
  match spent_tags s !! tag with
  | Some _ => Some (s, false)
  | None =>
      match persist (on_tags (tree_insert tag (Types.le_bytes 8 h))) (pool_persistence s) with
      | Some p =>
          Some (mkPool (pool_coins s) (by_outpoint s) (<[tag := h]> (spent_tags s)) (pool_checkpoints s)
                  (max_coin_height s) (raise_max (max_spent_tag_height s) h) (pool_value s) p, true)
      | None => None
      end
  end.

Definition is_tag_spent (s : SparkPoolStore) (tag : bytes) : bool :=
  bool_decide (is_Some (spent_tags s !! tag)).

Definition spent_tag_height (s : SparkPoolStore) (tag : bytes) : option Z := spent_tags s !! tag.

Definition spent_tag_count (s : SparkPoolStore) : nat := size (spent_tags s).

(** The in-memory tables are emptied first; the first family that cannot be cleared ends
    the call with an error. *)
Definition pool_clear (s : SparkPoolStore) : SparkPoolStore * bool :=
  let empty p := mkPool [] ∅ ∅ [] None None 0 p in
  match pool_persistence s with
  | None => (empty None, true)
  | Some p =>
      match tree_clear (coins_cf p) with
      | None => (empty (Some p), false)
      | Some c =>
          let p := mkPoolPersistence c (tags_cf p) (meta_cf p) in
          match tree_clear (tags_cf p) with
          | None => (empty (Some p), false)
          | Some t =>
              let p := mkPoolPersistence c t (meta_cf p) in
              match tree_clear (meta_cf p) with
              | None => (empty (Some p), false)
              | Some m => (empty (Some (mkPoolPersistence c t m)), true)
              end
          end
      end
  end.

Definition coins_at_or_after (s : SparkPoolStore) (h : Z) : nat :=
  length (List.filter (fun c => h <=? pheight c) (pool_coins s)).

(** [Some (s, false)]: the pool would go negative. *)
Definition apply_value_balance (value_balance : Z) (s : SparkPoolStore) : option (SparkPoolStore * bool) :=
  let after := pool_value s - value_balance in
  if after <? 0 then Some (s, false)
  else
    match persist (on_meta (tree_insert POOL_VALUE_KEY (i128_bytes after))) (pool_persistence s) with
    | Some p =>
        Some (mkPool (pool_coins s) (by_outpoint s) (spent_tags s) (pool_checkpoints s)
                (max_coin_height s) (max_spent_tag_height s) after p, true)
    | None => None
    end.

Definition pool_checkpoint_at_height (h : Z) (s : SparkPoolStore) : SparkPoolStore :=
  mkPool (pool_coins s) (by_outpoint s) (spent_tags s)
    (push_capped MAX_CHECKPOINTS (pool_checkpoints s)
       (mkPoolCp h (length (pool_coins s)) (pool_value s)))
    (max_coin_height s) (max_spent_tag_height s) (pool_value s) (pool_persistence s).

Definition pool_checkpoint_count (s : SparkPoolStore) : nat := length (pool_checkpoints s).

(** "COINCYNC_SPARK_POOL_ROOT_v1" *)
Definition POOL_ROOT_DOMAIN : bytes :=
  [67; 79; 73; 78; 67; 89; 78; 67; 95; 83; 80; 65; 82; 75; 95; 80; 79; 79; 76; 95; 82; 79; 79; 84; 95;
   118; 49].

Definition pool_current_root (s : SparkPoolStore) : bytes :=
  blake3 (POOL_ROOT_DOMAIN
    ++ concat (map (fun c => Types.le_bytes 8 (Z.of_nat (length (coin c))) ++ coin c) (pool_coins s))).

Definition pool_rewind (s : SparkPoolStore) : option (SparkPoolStore * bool) :=
  match pop (pool_checkpoints s) with
  | None => Some (s, false)
  | Some (rest, cp) =>
      let n := pc_coins_len cp in
      let removed := map (fun i => u64_key (Z.of_nat i)) (seq n (length (pool_coins s) - n)) in
      let by_op := fold_left (fun m c => delete (outpoint c) m) (drop n (pool_coins s)) (by_outpoint s) in
      let cs := take n (pool_coins s) in
      let removed_tags := tags_from (pc_height cp) (spent_tags s) in
      let tags := tags_below (pc_height cp) (spent_tags s) in
      let clean p :=
        match on_coins (remove_halting removed) p with
        | Some p =>
            match on_tags (remove_halting removed_tags) p with
            | Some p => on_meta (tree_insert POOL_VALUE_KEY (i128_bytes (pc_pool_value cp))) p
            | None => None
            end
        | None => None
        end in
      match persist clean (pool_persistence s) with
      | Some p =>
          Some (mkPool cs by_op tags rest (max_of (map pheight cs)) (max_of (tag_heights tags))
                  (pc_pool_value cp) p, true)
      | None => None
      end
  end.

(** ** The trait [Phase2Store] *)

Class Phase2Store (S : Type) := {
  store_label : string;
  checkpoint_at_height : Z -> S -> S;
  checkpoint_count : S -> nat;
  rewind : S -> option (S * bool);
  element_count : S -> nat;
  current_root : S -> bytes;
  recompute_root : S -> option bytes }.

#[export] Instance shielded_phase2 : Phase2Store ShieldedStore := {
  store_label := "shielded";
  checkpoint_at_height := shielded_checkpoint_at_height;
  checkpoint_count := shielded_checkpoint_count;
  rewind s := Some (shielded_rewind s);
  element_count := tree_size;
  current_root := shielded_current_root;
  recompute_root _ := None }.

#[export] Instance spark_phase2 : Phase2Store SparkStore := {
  store_label := "spark";
  checkpoint_at_height := spark_checkpoint_at_height;
  checkpoint_count := spark_checkpoint_count;
  rewind s := Some (spark_rewind s);
  element_count s := length (spark_coins s);
  current_root := spark_root;
  recompute_root s := Some (spark_recomputed_root s) }.

#[export] Instance kernel_phase2 : Phase2Store KernelStore := {
  store_label := "kernel";
  checkpoint_at_height := kernel_checkpoint_at_height;
  checkpoint_count := kernel_checkpoint_count;
  rewind s := Some (kernel_rewind s);
  element_count s := length (kernels s);
  current_root := kernel_root;
  recompute_root s := Some (kernel_recomputed_root s) }.

#[export] Instance pool_phase2 : Phase2Store SparkPoolStore := {
  store_label := "spark_pool";
  checkpoint_at_height := pool_checkpoint_at_height;
  checkpoint_count := pool_checkpoint_count;
  rewind := pool_rewind;
  element_count := coin_count;
  current_root := pool_current_root;
  recompute_root _ := None }.

(** [&dyn Phase2Store] *)
Record dyn_store := mkDynStore {
  store_type : Type;
  store_impl : Phase2Store store_type;
  store_value : store_type }.

Definition dyn_checkpoint (h : Z) (d : dyn_store) : dyn_store :=
  mkDynStore (store_type d) (store_impl d) (@checkpoint_at_height _ (store_impl d) h (store_value d)).
Definition dyn_count (d : dyn_store) : nat := @checkpoint_count _ (store_impl d) (store_value d).
Definition dyn_label (d : dyn_store) : string := @store_label _ (store_impl d).
Definition dyn_elements (d : dyn_store) : nat := @element_count _ (store_impl d) (store_value d).
Definition dyn_current_root (d : dyn_store) : bytes := @current_root _ (store_impl d) (store_value d).
Definition dyn_recompute_root (d : dyn_store) : option bytes := @recompute_root _ (store_impl d) (store_value d).
Definition dyn_rewind (d : dyn_store) : option (dyn_store * bool) :=
  match @rewind _ (store_impl d) (store_value d) with
  | Some (s, b) => Some (mkDynStore (store_type d) (store_impl d) s, b)
  | None => None
  end.

(** ** The drivers *)

(** The error carries the label and the depth of every store. *)
Definition check_lockstep (stores : list dyn_store) : result (list (string * nat)) nat :=
  match stores with
  | [] => Ok 0%nat
  | first :: rest =>
      let depth := dyn_count first in
      if forallb (fun s => Nat.eqb (dyn_count s) depth) rest then Ok depth
      else Err (map (fun s => (dyn_label s, dyn_count s)) stores)
  end.

Definition checkpoint_all (stores : list dyn_store) (h : Z)
    : list dyn_store * result (list (string * nat)) nat :=
  let stores := map (dyn_checkpoint h) stores in (stores, check_lockstep stores).

(** The stores whose maintained root is not the recomputed one. *)
Definition check_root_integrity (stores : list dyn_store) : result (list string) unit :=
  let mismatches := omap (fun s =>
    match dyn_recompute_root s with
    | Some r => if decide (r = dyn_current_root s) then None else Some (dyn_label s)
    | None => None
    end) stores in
  match mismatches with [] => Ok tt | _ => Err mismatches end.

Inductive RewindOutcome := RolledBack | EmptyNoop | Stranded (remaining : nat).

#[export] Instance RewindOutcome_eq_dec : EqDecision RewindOutcome.
Proof. solve_decision. Defined.

Fixpoint rewind_all (stores : list dyn_store) : option (list dyn_store * list (string * RewindOutcome)) :=
  match stores with
  | [] => Some ([], [])
  | s :: rest =>
      match dyn_rewind s with
      | None => None
      | Some (s', rolled) =>
          let outcome :=
            if rolled : bool then RolledBack
            else if Nat.eqb (dyn_elements s') 0 then EmptyNoop
            else Stranded (dyn_elements s') in
          match rewind_all rest with
          | None => None
          | Some (rest', outcomes) => Some (s' :: rest', (dyn_label s', outcome) :: outcomes)
          end
      end
  end.

(** ** The stores of the chain (src/src/chain.rs) *)

Record chain_stores := mkStores {
  shielded_store : option ShieldedStore;
  spark_store : option SparkStore;
  kernel_store : option KernelStore;
  spark_pool_store : option SparkPoolStore }.

Definition dyn {S} `{Phase2Store S} (o : option S) : list dyn_store :=
  match o with Some s => [mkDynStore S _ s] | None => [] end.

Definition phase2_stores (c : chain_stores) : list dyn_store :=
  dyn (shielded_store c) ++ dyn (spark_store c) ++ dyn (kernel_store c) ++ dyn (spark_pool_store c).

(** The drivers act on the stores in place. *)
Definition checkpoint_phase2_stores (h : Z) (c : chain_stores) : chain_stores :=
  mkStores (checkpoint_at_height h <$> shielded_store c) (checkpoint_at_height h <$> spark_store c)
    (checkpoint_at_height h <$> kernel_store c) (checkpoint_at_height h <$> spark_pool_store c).

Definition rewind_in_place {S} `{Phase2Store S} (o : option S) : option (option S) :=
  match o with
  | None => Some None
  | Some s => match rewind s with Some (s', _) => Some (Some s') | None => None end
  end.

Definition rewind_phase2_stores (c : chain_stores) : option chain_stores :=
  match rewind_in_place (shielded_store c), rewind_in_place (spark_store c),
        rewind_in_place (kernel_store c), rewind_in_place (spark_pool_store c) with
  | Some a, Some b, Some k, Some p => Some (mkStores a b k p)
  | _, _, _, _ => None
  end.

Definition zero_root : bytes := replicate 32 0.
Definition shielded_root (c : chain_stores) : bytes := from_option current_root zero_root (shielded_store c).
Definition chain_spark_root (c : chain_stores) : bytes := from_option current_root zero_root (spark_store c).
Definition mw_kernel_root (c : chain_stores) : bytes := from_option current_root zero_root (kernel_store c).

(** ** Security details (src/src/storage/phase2.rs, src/src/storage/pool_security.rs) *)

Definition lockstep_sweep (stores : list dyn_store) : Security.SecurityReport :=
  match check_lockstep stores with
  | Err _ => Security.raise_consensus Security.clean "phase2-lockstep" Security.Critical "store-desync"
  | Ok _ => Security.clean
  end.

Definition root_integrity_sweep (stores : list dyn_store) : Security.SecurityReport :=
  match check_root_integrity stores with
  | Err _ => Security.raise_operational Security.clean "phase2-root-integrity" Security.Critical "root-drift"
  | Ok _ => Security.clean
  end.

Inductive GuardViolation :=
| CoinFromTheFuture (tip max_coin_height : Z)
| TagSpentInTheFuture (tip max_tag_height : Z)
| CheckpointStackOverflow (count max : nat)
| PoolValueNegative (pool_value : Z).

Inductive Anomaly :=
| HighMintVelocity (window_blocks : Z) (minted : nat) (threshold : Z)
| HighSpendRatio (spent coins : nat).

Record ScanReport := mkScan {
  scan_coin_count : nat;
  scan_spent_tag_count : nat;
  scan_checkpoint_count : nat;
  scan_max_coin_height : option Z;
  scan_max_spent_tag_height : option Z;
  anomalies : list Anomaly }.

Inductive Subject := SubjectTag (tag : bytes) | SubjectOutpoint (op : bytes).

Inductive Finding :=
| TagSpent (height : Z) | TagUnspent | CoinPresent (index height : Z) | CoinAbsent.

Record Thresholds := mkThresholds { velocity_window : Z; velocity_max : Z; spend_ratio_pct : Z }.

Definition default_thresholds : Thresholds := mkThresholds 100 10000 90.

Definition guard (s : SparkPoolStore) (tip : Z) : list GuardViolation :=
  (match max_coin_height s with
   | Some h => if tip <? h then [CoinFromTheFuture tip h] else []
   | None => []
   end)
  ++ (match max_spent_tag_height s with
      | Some h => if tip <? h then [TagSpentInTheFuture tip h] else []
      | None => []
      end)
  ++ (if Nat.ltb 1000 (pool_checkpoint_count s)
      then [CheckpointStackOverflow (pool_checkpoint_count s) 1000] else [])
  ++ (if pool_value s <? 0 then [PoolValueNegative (pool_value s)] else []).

Definition is_secure (s : SparkPoolStore) (tip : Z) : bool :=
  match guard s tip with [] => true | _ => false end.

Definition cia_scan (th : Thresholds) (s : SparkPoolStore) (tip : Z) : ScanReport :=
  let window_start := saturating_sub tip (velocity_window th) in
  let minted := coins_at_or_after s window_start in
  let velocity :=
    if velocity_max th <? Z.of_nat minted
    then [HighMintVelocity (velocity_window th) minted (velocity_max th)] else [] in
  let ratio :=
    if Nat.ltb 0 (coin_count s) then
      if spend_ratio_pct th <=?
         wrap u64_max (Z.of_nat (spent_tag_count s) * 100 / Z.of_nat (coin_count s))
      then [HighSpendRatio (spent_tag_count s) (coin_count s)] else []
    else [] in
  mkScan (coin_count s) (spent_tag_count s) (pool_checkpoint_count s) (max_coin_height s)
    (max_spent_tag_height s) (velocity ++ ratio).

Definition fbi_investigate (s : SparkPoolStore) (subject : Subject) : Finding :=
  match subject with
  | SubjectTag tag => match spent_tag_height s tag with Some h => TagSpent h | None => TagUnspent end
  | SubjectOutpoint op =>
      match index_of s op with
      | Some i => CoinPresent i (from_option pheight 0 (coin_at s i))
      | None => CoinAbsent
      end
  end.

Definition violation_code (v : GuardViolation) : string :=
  match v with
  | CoinFromTheFuture _ _ => "coin-from-future"
  | TagSpentInTheFuture _ _ => "tag-from-future"
  | CheckpointStackOverflow _ _ => "checkpoint-overflow"
  | PoolValueNegative _ => "pool-underflow"
  end.

Definition anomaly_code (a : Anomaly) : string :=
  match a with
  | HighMintVelocity _ _ _ => "high-mint-velocity"
  | HighSpendRatio _ _ => "high-spend-ratio"
  end.

Definition pool_sweep (s : SparkPoolStore) (tip : Z) : Security.SecurityReport :=
  let r := fold_left (fun r v =>
    Security.raise_consensus r "shielded-pool" Security.Critical (violation_code v)) (guard s tip) Security.clean in
  fold_left (fun r a =>
    Security.raise_operational r "shielded-pool" Security.Warning (anomaly_code a))
    (anomalies (cia_scan default_thresholds s tip)) r.

Record Phase2LockstepDetail := mkLockstepDetail { detail_stores : list dyn_store }.
Record PoolSecurityDetail := mkPoolDetail { detail_pool : SparkPoolStore; detail_tip : Z }.

#[export] Instance lockstep_detail : Security.SecurityDetail Phase2LockstepDetail := {
  Security.label _ := "phase2-lockstep"; Security.sweep d := lockstep_sweep (detail_stores d) }.
#[export] Instance pool_detail : Security.SecurityDetail PoolSecurityDetail := {
  Security.label _ := "shielded-pool"; Security.sweep d := pool_sweep (detail_pool d) (detail_tip d) }.

Definition security_sweep (c : chain_stores) (h : Z) : Security.SecurityReport :=
  let lockstep := Security.mkDyn _ lockstep_detail (mkLockstepDetail (phase2_stores c)) in
  match spark_pool_store c with
  | Some store => Security.sweep_all [lockstep; Security.mkDyn _ pool_detail (mkPoolDetail store h)]
  | None => Security.sweep_all [lockstep]
  end.

Definition phase2_root_integrity (c : chain_stores) : Security.SecurityReport :=
  root_integrity_sweep (phase2_stores c).

End Stores.
End Phase2.
