(* ===== verification/Phase2Inv.v ===== *)
(** * The stores against a stack of snapshots

    The abstract store ([journal]) keeps a whole copy of its contents per checkpoint and
    restores it on rewind.  [Journaled] is what a store promises: its concrete state
    represents a journal, and every operation is the abstract one.  The four stores are
    instances: memory, the derived indices, the cached root and the column families all
    follow the contents, although a checkpoint records no more than a length and a
    height. *)

From Stdlib Require Import String.
From stdpp Require Import strings gmap sorting.
From S2P Require Import Prelude Types Security Phase2.

Module Phase2Inv.
Import Phase2.
#[local] Opaque be_bytes Types.le_bytes.

(** ** Stacks *)

Lemma pop_snoc {A} (l : list A) x : pop (l ++ [x]) = Some (l, x).
Proof. induction l as [|y l IH]; simpl; [done|]. by rewrite IH. Qed.

Lemma pop_None {A} (l : list A) : pop l = None <-> l = [].
Proof.
  split; [|by intros ->]. destruct l as [|x l]; simpl; [done|]. by destruct (pop l) as [[]|].
Qed.

Lemma pop_Some {A} (l r : list A) x : pop l = Some (r, x) <-> l = r ++ [x].
Proof.
  split; [|intros ->; apply pop_snoc].
  destruct l as [|y l _] using rev_ind; [done|]. rewrite pop_snoc. by intros [= -> ->].
Qed.

Lemma pop_fmap {A B} (f : A -> B) l :
  pop (map f l) = (fun p : list A * A => (map f p.1, f p.2)) <$> pop l.
Proof.
  destruct l as [|x l _] using rev_ind; [done|]. rewrite map_app. change (map f [x]) with [f x]. by rewrite !pop_snoc.
Qed.

Lemma push_capped_fmap {A B} (f : A -> B) n l x :
  map f (push_capped n l x) = push_capped n (map f l) (f x).
Proof.
  unfold push_capped. rewrite !length_app, length_map. simpl length.
  destruct (Nat.ltb n (length l + 1)); [|by rewrite map_app].
  destruct l; simpl; [done|]. by rewrite map_app.
Qed.

Lemma push_capped_length {A} n (l : list A) x :
  (0 < n)%nat -> (length l <= n)%nat -> length (push_capped n l x) = Nat.min n (S (length l)).
Proof.
  intros Hn Hl. unfold push_capped. rewrite length_app. simpl length.
  destruct (Nat.ltb_spec n (length l + 1)); [|rewrite length_app; simpl; lia].
  rewrite length_tl, length_app. simpl. lia.
Qed.

Lemma push_capped_snoc {A} n (l : list A) x : (0 < n)%nat ->
  push_capped n l x = (if Nat.ltb n (length l + 1) then tail l else l) ++ [x] \/ l = [].
Proof.
  intros Hn. unfold push_capped. rewrite length_app. simpl length.
  destruct (Nat.ltb n (length l + 1)); [|by left]. destruct l; [by right|by left].
Qed.

Lemma push_capped_sublist {A} n (l : list A) x y : y ∈ push_capped n l x -> y ∈ l \/ y = x.
Proof.
  unfold push_capped. destruct (Nat.ltb _ _); [|rewrite elem_of_app, list_elem_of_singleton; done].
  destruct l as [|z l]; simpl; [by rewrite elem_of_nil|].
  rewrite elem_of_app, list_elem_of_singleton, elem_of_cons. tauto.
Qed.

(** ** Snapshots *)

Section Linked.
Context {C : Type} (ext : Z -> C -> C -> Prop).

(** Each snapshot, dated, is extended by the later ones and by the present. *)
Definition linked (snaps : list (Z * C)) (now : C) : Prop :=
  StronglySorted (fun p q : Z * C => p.1 < q.1 /\ ext p.1 p.2 q.2) snaps
  /\ Forall (fun p : Z * C => ext p.1 p.2 now) snaps.

Lemma linked_nil now : linked [] now.
Proof. split; constructor. Qed.

Lemma linked_tail snaps now : linked snaps now -> linked (tail snaps) now.
Proof.
  intros [S F]. destruct snaps as [|p snaps]; [done|]. simpl.
  apply StronglySorted_cons in S. apply list.Forall_cons in F. split; [apply S|apply F].
Qed.

Lemma linked_snoc snaps now h :
  linked snaps now -> Forall (fun p : Z * C => p.1 < h) snaps -> ext h now now ->
  linked (snaps ++ [(h, now)]) now.
Proof.
  intros [S F] Hh E. split.
  - apply StronglySorted_app. split; [|split; [done|repeat constructor]].
    intros p q Hp Hq. apply list_elem_of_singleton in Hq as ->. simpl.
    rewrite list.Forall_forall in F, Hh. auto.
  - apply list.Forall_app. split; [done|]. by repeat constructor.
Qed.

Lemma linked_push n snaps now h :
  linked snaps now -> Forall (fun p : Z * C => p.1 < h) snaps -> ext h now now ->
  linked (push_capped n snaps (h, now)) now.
Proof.
  intros L Hh E. unfold push_capped.
  destruct (Nat.ltb _ _); [apply linked_tail|]; by apply linked_snoc.
Qed.

Lemma linked_op snaps now now' :
  linked snaps now -> (forall h c, (h, c) ∈ snaps -> ext h c now -> ext h c now') -> linked snaps now'.
Proof.
  intros [S F] H. split; [done|]. rewrite list.Forall_forall in F |- *.
  intros [h c] Hp. apply (H h c Hp). by apply (F (h, c)).
Qed.

Lemma linked_pop rest h c now : linked (rest ++ [(h, c)]) now -> ext h c now /\ linked rest c.
Proof.
  intros [S F]. apply StronglySorted_app in S as (H & S1 & _).
  apply list.Forall_app in F as [_ F2]. split; [by inversion F2|]. split; [done|].
  apply list.Forall_forall. intros p Hp. apply (H p (h, c) Hp). by apply list_elem_of_singleton.
Qed.
End Linked.

(** ** Deletions *)

Lemma fold_delete_lookup (ks : list bytes) (m : gmap bytes bytes) k :
  fold_left (fun m k => delete k m) ks m !! k = if decide (k ∈ ks) then None else m !! k.
Proof.
  revert m. induction ks as [|k' ks IH]; intros m; cbn [fold_left]; [case_decide as Hn; [by apply elem_of_nil in Hn|done]|].
  rewrite IH. destruct (decide (k ∈ ks)) as [Hk|Hk].
  - rewrite decide_True; [done|]. by right.
  - destruct (decide (k = k')) as [->|Hne].
    + rewrite lookup_delete_eq, decide_True by left. done.
    + rewrite lookup_delete_ne by done. rewrite decide_False; [done|]. by intros [?|?]%elem_of_cons.
Qed.

Lemma remove_logged_healthy ks t : refused t = ∅ ->
  remove_logged ks t = mkTree (fold_left (fun m k => delete k m) ks (rows t)) ∅.
Proof.
  unfold remove_logged. revert t. induction ks as [|k ks IH]; intros t Ht; simpl; [by destruct t; simpl in *; subst|].
  unfold tree_remove at 2. rewrite decide_False by (rewrite Ht; set_solver). simpl. by rewrite IH.
Qed.

Lemma remove_halting_healthy ks t : refused t = ∅ -> remove_halting ks t = Some (remove_logged ks t).
Proof.
  unfold remove_logged. revert t. induction ks as [|k ks IH]; intros t Ht; simpl; [done|].
  unfold tree_remove. rewrite decide_False by (rewrite Ht; set_solver). simpl. by rewrite IH.
Qed.

Lemma tree_insert_healthy k v t : refused t = ∅ -> tree_insert k v t = Some (mkTree (<[k := v]> (rows t)) ∅).
Proof. intros Ht. unfold tree_insert. rewrite decide_False by (rewrite Ht; set_solver). by rewrite Ht. Qed.

(** ** Indexed column families *)

Section Rows.
Context {A : Type} `{Borsh A}.

(** The rows of a list kept under its indices. *)
Definition row_list (n : nat) (l : list A) : list (bytes * bytes) :=
  imap (fun i a => (u64_key (Z.of_nat (n + i)), to_vec a)) l.

Definition rows_of (l : list A) : gmap bytes bytes := list_to_map (row_list 0 l).

Lemma row_list_cons n a l : row_list n (a :: l) = (u64_key (Z.of_nat n), to_vec a) :: row_list (S n) l.
Proof.
  unfold row_list. simpl. f_equal; [by rewrite Nat.add_0_r|].
  apply imap_ext. intros i b _. simpl. by rewrite Nat.add_succ_r.
Qed.

Lemma row_list_app n l l' : row_list n (l ++ l') = row_list n l ++ row_list (n + length l) l'.
Proof.
  unfold row_list. rewrite imap_app. f_equal. apply imap_ext. intros i a _. simpl.
  by rewrite Nat.add_assoc.
Qed.

Lemma row_list_snoc l a : row_list 0 (l ++ [a]) = row_list 0 l ++ [(u64_key (Z.of_nat (length l)), to_vec a)].
Proof. rewrite row_list_app, row_list_cons. done. Qed.

Lemma u64_key_inj i j : fits u64_max i -> fits u64_max j -> u64_key i = u64_key j -> i = j.
Proof. apply (be_bytes_inj 8). Qed.

Lemma row_list_keys n l : (row_list n l).*1 = map (fun i => u64_key (Z.of_nat i)) (seq n (length l)).
Proof.
  revert n. induction l as [|a l IH]; intros n; [done|]. rewrite row_list_cons. simpl. by rewrite IH.
Qed.

Lemma row_list_NoDup n l : Z.of_nat (n + length l) <= u64_max + 1 -> NoDup (row_list n l).*1.
Proof.
  intros Hl. rewrite row_list_keys. apply NoDup_fmap_2_strong; [|apply NoDup_seq].
  intros i j Hi Hj E. rewrite !elem_of_seq in Hi, Hj.
  apply u64_key_inj in E; unfold fits; lia.
Qed.

Lemma rows_of_snoc l a : Z.of_nat (length l) <= u64_max ->
  rows_of (l ++ [a]) = <[u64_key (Z.of_nat (length l)) := to_vec a]> (rows_of l).
Proof.
  intros Hl. unfold rows_of. rewrite row_list_snoc.
  rewrite list_to_map_snoc; [done|].
  pose proof (row_list_NoDup 0 (l ++ [a])) as N. rewrite row_list_snoc, fmap_app, length_app in N.
  simpl length in N. specialize (N ltac:(lia)).
  apply list.NoDup_app in N as (_ & N & _). intros Hin. apply (N _ Hin). constructor.
Qed.

Lemma rows_of_lookup l k v : Z.of_nat (length l) <= u64_max ->
  rows_of l !! k = Some v <-> exists i a, l !! i = Some a /\ k = u64_key (Z.of_nat i) /\ v = to_vec a.
Proof.
  intros Hl. unfold rows_of. rewrite <- elem_of_list_to_map by (apply row_list_NoDup; lia).
  unfold row_list. rewrite elem_of_lookup_imap. naive_solver.
Qed.

Lemma rows_of_key l i : Z.of_nat (length l) <= u64_max -> Z.of_nat i <= u64_max ->
  rows_of l !! u64_key (Z.of_nat i) = to_vec <$> l !! i.
Proof.
  intros Hl Hi. apply option_eq. intros v. rewrite rows_of_lookup by done. split.
  - intros (j & a & Hj & Ek & ->). apply u64_key_inj in Ek; unfold fits; [|lia|].
    + apply Nat2Z.inj in Ek as ->. by rewrite Hj.
    + apply lookup_lt_Some in Hj. lia.
  - destruct (l !! i) as [a|] eqn:E; [|done]. intros [= <-]. eauto.
Qed.

(** Deleting the keys past a boundary keeps the rows of the prefix. *)
Lemma rows_of_take l n ks : Z.of_nat (length l) <= u64_max ->
  (forall k, k ∈ ks <-> exists i, (n <= i < length l)%nat /\ k = u64_key (Z.of_nat i)) ->
  fold_left (fun m k => delete k m) ks (rows_of l) = rows_of (take n l).
Proof.
  intros Hl Hks. apply map_eq. intros k. rewrite fold_delete_lookup.
  assert (Hl' : Z.of_nat (length (take n l)) <= u64_max) by (rewrite length_take; lia).
  destruct (decide (k ∈ ks)) as [Hk|Hk].
  - symmetry. apply eq_None_not_Some. intros [v Hv]. apply rows_of_lookup in Hv as (i & a & Hi & -> & _); [|done].
    apply Hks in Hk as (j & Hj & E). apply lookup_take_Some in Hi as [Hi Hin].
    apply lookup_lt_Some in Hi. apply u64_key_inj in E; unfold fits; lia.
  - apply option_eq. intros v. rewrite !rows_of_lookup by done. split; intros (i & a & Hi & -> & ->).
    + exists i, a. split; [|done]. apply lookup_take_Some. split; [done|].
      destruct (decide (i < n)%nat) as [|Hge]; [done|]. destruct Hk. apply Hks. exists i.
      apply lookup_lt_Some in Hi. split; [lia|done].
    + apply lookup_take_Some in Hi as [Hi _]. eauto.
Qed.

(** What a replay reads from the rows of a list. *)
Definition indexed (n : nat) (l : list A) : list (Z * A) := imap (fun i a => (Z.of_nat (n + i), a)) l.

Lemma indexed_cons n a l : indexed n (a :: l) = (Z.of_nat n, a) :: indexed (S n) l.
Proof.
  unfold indexed. simpl. f_equal; [by rewrite Nat.add_0_r|].
  apply imap_ext. intros i b _. simpl. by rewrite Nat.add_succ_r.
Qed.

Lemma indexed_snd n l : map snd (indexed n l) = l.
Proof. revert n. induction l as [|a l IH]; intros n; [done|]. rewrite indexed_cons. simpl. by rewrite IH. Qed.

Lemma elem_of_indexed n l p : p ∈ indexed n l <-> exists i, l !! i = Some p.2 /\ p.1 = Z.of_nat (n + i).
Proof.
  unfold indexed. rewrite elem_of_lookup_imap. destruct p as [k a]. simpl. naive_solver.
Qed.

Lemma indexed_sorted n l : StronglySorted key_le (indexed n l).
Proof.
  revert n. induction l as [|a l IH]; intros n; [constructor|]. rewrite indexed_cons.
  constructor; [apply IH|]. apply list.Forall_forall. intros [k b] Hp.
  apply elem_of_indexed in Hp as (i & _ & E). unfold key_le. simpl in *. lia.
Qed.

Lemma collect_perm {X Y} (f : X -> result LoadError Y) l l' bs :
  l ≡ₚ l' -> collect f l = Ok bs -> exists bs', collect f l' = Ok bs' /\ bs ≡ₚ bs'.
Proof.
  intros Hp. revert bs. induction Hp as [|x l l' Hp IH|x y l|l1 l2 l3 _ IH1 _ IH2]; intros bs; simpl.
  - eauto.
  - destruct (f x) as [b|e]; simpl; [|done]. destruct (collect f l) as [bs0|e]; simpl; [|done].
    intros [= <-]. destruct (IH _ eq_refl) as (bs' & -> & Hb). simpl. eauto.
  - destruct (f y) as [b|e]; simpl; [|done]. destruct (f x) as [b'|e]; simpl; [|done].
    destruct (collect f l) as [bs0|e]; simpl; [|done]. intros [= <-]. eexists. split; [done|]. constructor.
  - intros E. destruct (IH1 _ E) as (b2 & E2 & P2). destruct (IH2 _ E2) as (b3 & E3 & P3).
    exists b3. split; [done|]. by trans b2.
Qed.

Lemma load_row_list n l : Forall well_typed l -> Z.of_nat (n + length l) <= u64_max + 1 ->
  collect load_row (row_list n l) = Ok (indexed n l).
Proof.
  revert n. induction l as [|a l IH]; intros n Hw Hl; [done|].
  apply list.Forall_cons in Hw as [Ha Hw]. cbn [length] in Hl.
  rewrite row_list_cons, indexed_cons. cbn [collect]. unfold load_row at 1, u64_key. cbn [fst snd].
  rewrite length_be_bytes. cbn [Nat.eqb]. rewrite from_slice_to_vec by done. cbn [rbind].
  rewrite IH by (done || lia). simpl. rewrite be_value_be_bytes; [done|].
  change (256 ^ Z.of_nat 8) with (u64_max + 1). lia.
Qed.

Lemma load_indexed_rows l t : rows t = rows_of l -> Forall well_typed l ->
  Z.of_nat (length l) <= u64_max -> load_indexed t = Ok (indexed 0 l).
Proof.
  intros Ht Hw Hl. unfold load_indexed, tree_iter. rewrite Ht.
  destruct (collect_perm load_row (row_list 0 l) (map_to_list (rows_of l)) (indexed 0 l)) as (bs & -> & Hp).
  { symmetry. apply map_to_list_to_map, row_list_NoDup. lia. }
  { apply load_row_list; [done|lia]. }
  simpl. f_equal.
  apply (StronglySorted_unique_strong key_le).
  - intros [i a] [j b] Hi Hj Hij Hji. rewrite merge_sort_Permutation, <- Hp in Hi.
    apply elem_of_indexed in Hi as (i' & Ei & Ei'), Hj as (j' & Ej & Ej'). unfold key_le in *. simpl in *.
    assert (i' = j') as -> by lia. rewrite Ei in Ej. injection Ej as ->. f_equal. lia.
  - apply StronglySorted_merge_sort.
    + intros x y z. unfold key_le. lia.
    + intros x y. unfold key_le. lia.
  - apply indexed_sorted.
  - rewrite merge_sort_Permutation. by symmetry.
Qed.
End Rows.

(** ** Tag families *)

Definition tag_rows (tags : gmap bytes Z) : gmap bytes bytes := Types.le_bytes 8 <$> tags.

Lemma le_value_of_bytes n v : 0 <= v < 256 ^ Z.of_nat n -> le_value (Types.le_bytes n v) = v.
Proof. intros Hv. unfold le_value. with_strategy transparent [Types.le_bytes] unfold Types.le_bytes. rewrite rev_involutive. by apply be_value_be_bytes. Qed.

Definition tags_typed (klen : option nat) (tags : gmap bytes Z) : Prop :=
  map_Forall (fun k h => (forall n, klen = Some n -> length k = n) /\ fits u64_max h) tags.

Lemma load_tags_rows klen tags t :
  rows t = tag_rows tags -> tags_typed klen tags -> load_tags klen t = Ok tags.
Proof.
  intros Ht Hw. unfold load_tags, tree_iter. rewrite Ht. unfold tag_rows. rewrite map_to_list_fmap.
  assert (G : forall l : list (bytes * Z), (forall p, p ∈ l -> tags !! p.1 = Some p.2) ->
    collect (load_tag klen) (prod_map id (Types.le_bytes 8) <$> l) = Ok l).
  { induction l as [|[k h] l IH]; intros Hl; [done|].
    rewrite fmap_cons. cbn [collect]. unfold load_tag at 1. unfold prod_map at 1 2 3 4, id at 1. cbn [fst snd].
    destruct (Hw k h) as [Hk Hh]; [apply (Hl (k, h)); constructor|].
    replace (match klen with Some n => Nat.eqb (length k) n | None => true end) with true
      by (destruct klen as [n|]; [by rewrite (Hk n eq_refl), Nat.eqb_refl|done]).
    rewrite Types.le_bytes_length. cbn [Nat.eqb rbind]. rewrite IH by (intros p Hp; apply Hl; by right). simpl.
    rewrite le_value_of_bytes; [done|]. change (256 ^ Z.of_nat 8) with (u64_max + 1).
    unfold fits in Hh. lia. }
  rewrite G; [|by intros [k h] Hp; apply elem_of_map_to_list in Hp]. simpl.
  by rewrite list_to_map_to_list.
Qed.

Lemma tag_rows_insert tags k h : <[k := Types.le_bytes 8 h]> (tag_rows tags) = tag_rows (<[k := h]> tags).
Proof. unfold tag_rows. by rewrite fmap_insert. Qed.

Lemma elem_of_tags_from h tags k : k ∈ tags_from h tags <-> exists x, tags !! k = Some x /\ h <= x.
Proof.
  unfold tags_from. split.
  - intros Hk. apply list_elem_of_fmap in Hk as ([k' x] & -> & Hx).
    apply elem_of_map_to_list, map_lookup_filter_Some in Hx. naive_solver.
  - intros (x & Hx & Hh). apply list_elem_of_fmap. exists (k, x). split; [done|].
    by apply elem_of_map_to_list, map_lookup_filter_Some.
Qed.

Lemma tag_rows_below tags h :
  fold_left (fun m k => delete k m) (tags_from h tags) (tag_rows tags) = tag_rows (tags_below h tags).
Proof.
  apply map_eq. intros k. rewrite fold_delete_lookup. unfold tag_rows. rewrite !lookup_fmap.
  unfold tags_below. rewrite map_lookup_filter.
  case_decide as Hk; [apply elem_of_tags_from in Hk as (x & -> & Hx)|].
  - simpl. case_guard; [lia|done].
  - destruct (tags !! k) as [x|] eqn:E; [|done]. simpl. case_guard as Hg; [done|].
    destruct Hk. apply elem_of_tags_from. exists x. split; [done|]. simpl in Hg. lia.
Qed.

Lemma tags_typed_below klen h tags : tags_typed klen tags -> tags_typed klen (tags_below h tags).
Proof. intros Hw k x Hx. apply map_lookup_filter_Some in Hx as [Hx _]. by apply (Hw k x). Qed.

Lemma tags_typed_insert klen tags k h :
  tags_typed klen tags -> (forall n, klen = Some n -> length k = n) -> fits u64_max h ->
  tags_typed klen (<[k := h]> tags).
Proof. intros Hw Hk Hh. by apply map_Forall_insert_2. Qed.

(** A tag dated [h] or later is not among the tags below [h]. *)
Lemma tags_below_insert h tags k x :
  tags !! k = None -> h <= x -> tags_below h (<[k := x]> tags) = tags_below h tags.
Proof.
  intros Hk Hx. unfold tags_below. rewrite map_filter_insert_False; [|simpl; lia].
  by rewrite delete_id.
Qed.
(** ** The abstract store *)

Record journal (C : Type) := mkJournal { snapshots : list (Z * C); now : C }.
Arguments mkJournal {C} _ _.
Arguments snapshots {C} _.
Arguments now {C} _.

Section Journal.
Context {C : Type} (ext : Z -> C -> C -> Prop).

Definition journal_checkpoint (h : Z) (j : journal C) : journal C :=
  mkJournal (push_capped MAX_CHECKPOINTS (snapshots j) (h, now j)) (now j).

Definition journal_rewind (j : journal C) : journal C * bool :=
  match pop (snapshots j) with
  | None => (j, false)
  | Some (rest, (_, c)) => (mkJournal rest c, true)
  end.

(** [h] is above every checkpoint, and nothing in the contents is dated [h] or later. *)
Definition fresh (h : Z) (j : journal C) : Prop :=
  Forall (fun p : Z * C => p.1 < h) (snapshots j) /\ ext h (now j) (now j).

Definition journal_ok (j : journal C) : Prop :=
  linked ext (snapshots j) (now j) /\ (length (snapshots j) <= MAX_CHECKPOINTS)%nat.

Lemma MAX_pos : (0 < MAX_CHECKPOINTS)%nat.
Proof. unfold MAX_CHECKPOINTS. lia. Qed.

Lemma journal_ok_checkpoint h j : journal_ok j -> fresh h j -> journal_ok (journal_checkpoint h j).
Proof.
  intros [L B] [F E]. split; simpl; [by apply linked_push|].
  rewrite push_capped_length by (apply MAX_pos || done). lia.
Qed.

Lemma journal_ok_rewind j : journal_ok j -> journal_ok (journal_rewind j).1.
Proof.
  intros [L B]. unfold journal_rewind. destruct (pop (snapshots j)) as [[rest [h c]]|] eqn:E; [|done].
  apply pop_Some in E. rewrite E in L, B. apply linked_pop in L as [_ L].
  rewrite length_app in B. split; simpl; [done|lia].
Qed.

Lemma journal_ok_op j c :
  journal_ok j -> (forall h c0, (h, c0) ∈ snapshots j -> ext h c0 (now j) -> ext h c0 c) ->
  journal_ok (mkJournal (snapshots j) c).
Proof. intros [L B] H. split; [by apply (linked_op ext _ (now j))|done]. Qed.

(** The snapshot that a rewind restores is extended by the present. *)
Lemma journal_ok_last j rest h c : journal_ok j -> pop (snapshots j) = Some (rest, (h, c)) -> ext h c (now j).
Proof. intros [L _] E. apply pop_Some in E. rewrite E in L. by apply linked_pop in L as [? _]. Qed.
End Journal.

(** ** What a store promises *)

Class Journaled (S : Type) `{Phase2Store S} (C : Type) := {
  ext : Z -> C -> C -> Prop;
  rep : journal C -> S -> Prop;
  rep_ok j s : rep j s -> journal_ok ext j;
  rep_count j s : rep j s -> checkpoint_count s = length (snapshots j);
  rep_checkpoint h j s : rep j s -> fresh ext h j -> rep (journal_checkpoint h j) (checkpoint_at_height h s);
  rep_rewind j s : rep j s ->
    exists s', rewind s = Some (s', (journal_rewind j).2) /\ rep (journal_rewind j).1 s';
  rep_recompute j s r : rep j s -> recompute_root s = Some r -> r = current_root s;
  rep_root j s j' s' : rep j s -> rep j' s' -> now j = now j' -> current_root s = current_root s' }.

(** ** Kernels *)

(** A list that mirrors its indexed column family, of a length the keys can number. *)
Definition on_disk {A} `{Borsh A} (l : list A) (t : Tree) : Prop := refused t = ∅ /\ rows t = rows_of l.
Definition list_ok {A} `{WellTyped A} (l : list A) : Prop :=
  Forall well_typed l /\ Z.of_nat (length l) <= u64_max.
Definition tags_on_disk (tags : gmap bytes Z) (t : Tree) : Prop := refused t = ∅ /\ rows t = tag_rows tags.

Lemma on_disk_snoc {A} `{Borsh A} (l : list A) a t : on_disk l t -> Z.of_nat (length l) <= u64_max ->
  exists t', tree_insert (u64_key (Z.of_nat (length l))) (to_vec a) t = Some t' /\ on_disk (l ++ [a]) t'.
Proof.
  intros [Hr Hd] Hl. rewrite tree_insert_healthy by done. eexists. split; [done|]. split; simpl; [done|].
  by rewrite rows_of_snoc, Hd.
Qed.

Lemma on_disk_take {A} `{Borsh A} (l : list A) n t ks : on_disk l t -> Z.of_nat (length l) <= u64_max ->
  (forall k, k ∈ ks <-> exists i, (n <= i < length l)%nat /\ k = u64_key (Z.of_nat i)) ->
  on_disk (take n l) (remove_logged ks t).
Proof.
  intros [Hr Hd] Hl Hk. rewrite remove_logged_healthy by done. split; simpl; [done|].
  rewrite Hd. by apply rows_of_take.
Qed.

Lemma elem_of_tail_keys n m k :
  k ∈ map (fun i => u64_key (Z.of_nat i)) (seq n (m - n)) <-> exists i, (n <= i < m)%nat /\ k = u64_key (Z.of_nat i).
Proof.
  split.
  - intros Hk. apply list_elem_of_fmap in Hk as (i & -> & Hi). apply elem_of_seq in Hi. exists i. split; [lia|done].
  - intros (i & Hi & ->). apply list_elem_of_fmap. exists i. split; [done|]. apply elem_of_seq. lia.
Qed.

Lemma tags_on_disk_insert tags k h t : tags_on_disk tags t ->
  exists t', tree_insert k (Types.le_bytes 8 h) t = Some t' /\ tags_on_disk (<[k := h]> tags) t'.
Proof.
  intros [Hr Hd]. rewrite tree_insert_healthy by done. eexists. split; [done|]. split; simpl; [done|].
  by rewrite Hd, tag_rows_insert.
Qed.

Lemma tags_on_disk_below tags h t : tags_on_disk tags t ->
  tags_on_disk (tags_below h tags) (remove_logged (tags_from h tags) t).
Proof.
  intros [Hr Hd]. rewrite remove_logged_healthy by done. split; simpl; [done|]. by rewrite Hd, tag_rows_below.
Qed.

Lemma list_ok_snoc {A} `{WellTyped A} (l : list A) a :
  list_ok l -> well_typed a -> Z.of_nat (length l) < u64_max -> list_ok (l ++ [a]).
Proof.
  intros [Hw Hl] Ha Hlt. split; [apply list.Forall_app; split; [done|by constructor]|].
  rewrite length_app. simpl. lia.
Qed.

Lemma list_ok_take {A} `{WellTyped A} n (l : list A) : list_ok l -> list_ok (take n l).
Proof. intros [Hw Hl]. split; [by apply list.Forall_take|]. rewrite length_take. lia. Qed.

Lemma prefix_restore {A} (c l : list A) : c `prefix_of` l -> take (length c) l = c.
Proof. intros [k ->]. by rewrite take_app_length. Qed.

Section Kernel.
Context `{Blake3} `{!Borsh MwKernel}.

Definition kernel_ext (_ : Z) (c c' : list MwKernel) : Prop := c `prefix_of` c'.

Record kernel_rep (j : journal (list MwKernel)) (s : KernelStore) : Prop := {
  kr_ok : journal_ok kernel_ext j;
  kr_kernels : kernels s = now j;
  kr_root : kernel_root s = kernel_compute_root (now j);
  kr_cps : kernel_checkpoints s = map (fun p => mkKernelCp p.1 (length p.2)) (snapshots j);
  kr_disk : from_option (on_disk (now j)) True (kernel_persistence s);
  kr_list : list_ok (now j) }.

Lemma kernel_rep_checkpoint h j s :
  kernel_rep j s -> fresh kernel_ext h j -> kernel_rep (journal_checkpoint h j) (kernel_checkpoint_at_height h s).
Proof.
  intros [O K R P D L] F. constructor; simpl; try done.
  - by apply journal_ok_checkpoint.
  - by rewrite push_capped_fmap, P, K.
Qed.

Lemma kernel_rep_rewind j s : kernel_rep j s ->
  (kernel_rewind s).2 = (journal_rewind j).2 /\ kernel_rep (journal_rewind j).1 (kernel_rewind s).1.
Proof.
  intros I. pose proof I as [O K R P D L]. pose proof (journal_ok_rewind _ _ O) as O'. revert O'.
  unfold kernel_rewind, journal_rewind. rewrite P, pop_fmap.
  destruct (pop (snapshots j)) as [[rest [h c]]|] eqn:E; simpl; [|done]. intros O'.
  pose proof (journal_ok_last _ _ _ _ _ O E) as Hp. unfold kernel_ext in Hp.
  pose proof (prefix_length _ _ Hp) as Hlen. rewrite K.
  replace (Nat.min (length c) (length (now j))) with (length c) by lia.
  rewrite (prefix_restore c (now j)) by done. split; [done|]. constructor; simpl; try done.
  - destruct (kernel_persistence s) as [t|]; simpl in *; [|done].
    rewrite <- (prefix_restore c (now j)) at 1 by done. apply on_disk_take; [done|apply L|].
    intros k. apply elem_of_tail_keys.
  - rewrite <- (prefix_restore c (now j)) by done. by apply list_ok_take.
Qed.

#[export] Instance kernel_journaled : Journaled KernelStore (list MwKernel).
Proof.
  refine {| ext := kernel_ext; rep := kernel_rep |}.
  - by intros j s [].
  - intros j s I. simpl. unfold kernel_checkpoint_count. by rewrite (kr_cps _ _ I), length_map.
  - apply kernel_rep_checkpoint.
  - intros j s I. destruct (kernel_rep_rewind j s I) as [E I']. simpl.
    exists (kernel_rewind s).1. split; [|done]. rewrite <- E. by destruct (kernel_rewind s).
  - intros j s r I [= <-]. simpl. unfold kernel_recomputed_root. by rewrite (kr_kernels _ _ I), (kr_root _ _ I).
  - intros j s j' s' I I' E. simpl. by rewrite (kr_root _ _ I), (kr_root _ _ I'), E.
Defined.

Lemma kernel_append_rep k j s :
  kernel_rep j s -> well_typed k -> Z.of_nat (length (now j)) < u64_max ->
  exists s', kernel_append k s = Some s' /\ kernel_rep (mkJournal (snapshots j) (now j ++ [k])) s'.
Proof.
  intros [O K R P D L] Hk Hl. unfold kernel_append. rewrite K.
  assert (exists p, persist (tree_insert (u64_key (Z.of_nat (length (now j)))) (to_vec k)) (kernel_persistence s) = Some p
    /\ from_option (on_disk (now j ++ [k])) True p) as (p & -> & Hp).
  { destruct (kernel_persistence s) as [t|]; simpl in *; [|eauto].
    destruct (on_disk_snoc _ k t D) as (t' & -> & Ht'); [lia|]. eauto. }
  eexists. split; [done|]. constructor; simpl; try done.
  - apply journal_ok_op; [done|]. intros h c0 _ Hx. by apply prefix_app_r.
  - by apply list_ok_snoc.
Qed.

(** A replay of the column family gives the contents back, without checkpoints. *)
Lemma kernel_open_rep j s t :
  kernel_rep j s -> kernel_persistence s = Some t ->
  exists s', kernel_open t = Ok s' /\ kernel_rep (mkJournal [] (now j)) s'.
Proof.
  intros [O K R P D L] Ht. rewrite Ht in D. destruct D as [Dr Dd]. unfold kernel_open.
  rewrite (load_indexed_rows _ _ Dd) by apply L. simpl. eexists. split; [done|]. rewrite indexed_snd.
  constructor; simpl; try done. split; simpl; [apply linked_nil|lia].
Qed.

Lemma kernel_new_rep : kernel_rep (mkJournal [] []) kernel_new.
Proof. constructor; simpl; try done. split; simpl; [apply linked_nil|lia]. Qed.
End Kernel.

(** ** Contents with spent tags *)

(** Everything in the journal's checkpoints is dated at most [h]. *)
Definition dated {C} (h : Z) (j : journal C) : Prop := Forall (fun p : Z * C => p.1 <= h) (snapshots j).

Definition coins_ext {A} (h : Z) (c c' : list A * gmap bytes Z) : Prop :=
  c.1 `prefix_of` c'.1 /\ tags_below h c'.2 = c.2.

Lemma coins_ext_snoc {A} (h : Z) (c : list A * gmap bytes Z) l tags a :
  coins_ext h c (l, tags) -> coins_ext h c (l ++ [a], tags).
Proof. intros [P T]. split; [by apply prefix_app_r|done]. Qed.

Lemma coins_ext_tag {A} (h x : Z) (c : list A * gmap bytes Z) l tags k :
  tags !! k = None -> h <= x -> coins_ext h c (l, tags) -> coins_ext h c (l, <[k := x]> tags).
Proof. intros Hk Hx [P T]. split; [done|]. simpl in *. by rewrite tags_below_insert. Qed.

(** Nothing dated [h] or later: the hypothesis of a checkpoint at [h]. *)
Lemma coins_ext_refl {A} (h : Z) (c : list A * gmap bytes Z) :
  map_Forall (fun _ x => x < h) c.2 -> coins_ext h c c.
Proof.
  intros Hc. split; [done|]. unfold tags_below. apply map_filter_id. intros k x Hx. simpl.
  specialize (Hc k x Hx). simpl in Hc. lia.
Qed.

Section Spark.
Context `{Blake3} `{!Borsh SparkCoinEntry}.
Abbreviation spark_contents := (list SparkCoinEntry * gmap bytes Z)%type.

(** A coin's identifier is its position. *)
Definition dense_ids (l : list SparkCoinEntry) : Prop :=
  forall i c, l !! i = Some c -> coin_id c = Z.of_nat i.

Record spark_rep (j : journal spark_contents) (s : SparkStore) : Prop := {
  sr_ok : journal_ok coins_ext j;
  sr_coins : spark_coins s = (now j).1;
  sr_serials : spent_serials s = (now j).2;
  sr_root : spark_root s = spark_compute_root (now j).1;
  sr_cps : spark_checkpoints s = map (fun p => mkSparkCp p.1 (length p.2.1)) (snapshots j);
  sr_disk : from_option (fun p : Tree * Tree => on_disk (now j).1 p.1 /\ tags_on_disk (now j).2 p.2) True
              (spark_persistence s);
  sr_list : list_ok (now j).1;
  sr_dense : dense_ids (now j).1;
  sr_typed : tags_typed (Some 32%nat) (now j).2 }.

Lemma spark_rep_checkpoint h j s :
  spark_rep j s -> fresh coins_ext h j -> spark_rep (journal_checkpoint h j) (spark_checkpoint_at_height h s).
Proof.
  intros [O K S R P D L N T] F. constructor; simpl; try done.
  - by apply journal_ok_checkpoint.
  - by rewrite push_capped_fmap, P, K.
Qed.

Lemma dense_ids_take n l : dense_ids l -> dense_ids (take n l).
Proof. intros D i c Hi. apply lookup_take_Some in Hi as [Hi _]. by apply D. Qed.

Lemma elem_of_dropped_ids n l k : dense_ids l ->
  k ∈ map (fun c => u64_key (coin_id c)) (drop n l) <-> exists i, (n <= i < length l)%nat /\ k = u64_key (Z.of_nat i).
Proof.
  intros D. split.
  - intros Hk. apply list_elem_of_fmap in Hk as (c & -> & Hc). apply list_elem_of_lookup in Hc as [i Hi].
    rewrite lookup_drop in Hi. exists (n + i)%nat. rewrite (D _ _ Hi). apply lookup_lt_Some in Hi. split; [lia|done].
  - intros (i & Hi & ->). destruct (lookup_lt_is_Some_2 l i) as [c Hc]; [lia|].
    apply list_elem_of_fmap. exists c. rewrite (D _ _ Hc). split; [done|].
    apply list_elem_of_lookup. exists (i - n)%nat. rewrite lookup_drop. rewrite <- Hc. f_equal. lia.
Qed.

Lemma spark_rep_rewind j s : spark_rep j s ->
  (spark_rewind s).2 = (journal_rewind j).2 /\ spark_rep (journal_rewind j).1 (spark_rewind s).1.
Proof.
  intros I. pose proof I as [O K S R P D L N T]. pose proof (journal_ok_rewind _ _ O) as O'. revert O'.
  unfold spark_rewind, journal_rewind. rewrite P, pop_fmap.
  destruct (pop (snapshots j)) as [[rest [h c]]|] eqn:E; simpl; [|done]. intros O'.
  destruct (journal_ok_last _ _ _ _ _ O E) as [Hp Ht].
  pose proof (prefix_length _ _ Hp) as Hlen. rewrite K, S, Ht.
  replace (Nat.min (length c.1) (length (now j).1)) with (length c.1) by lia.
  pose proof (prefix_restore _ _ Hp) as Hr. rewrite Hr. split; [done|]. constructor; simpl; try done.
  - destruct (spark_persistence s) as [[t1 t2]|]; simpl in *; [|done]. destruct D as [D1 D2]. split.
    + rewrite <- Hr at 1. apply on_disk_take; [done|apply L|]. intros k. by apply elem_of_dropped_ids.
    + rewrite <- Ht at 1. by apply tags_on_disk_below.
  - rewrite <- Hr. by apply list_ok_take.
  - rewrite <- Hr. by apply dense_ids_take.
  - rewrite <- Ht. by apply tags_typed_below.
Qed.

#[export] Instance spark_journaled : Journaled SparkStore spark_contents.
Proof.
  refine {| ext := coins_ext; rep := spark_rep |}.
  - by intros j s [].
  - intros j s I. simpl. unfold spark_checkpoint_count. by rewrite (sr_cps _ _ I), length_map.
  - apply spark_rep_checkpoint.
  - intros j s I. destruct (spark_rep_rewind j s I) as [E I']. simpl.
    exists (spark_rewind s).1. split; [|done]. rewrite <- E. by destruct (spark_rewind s).
  - intros j s r I [= <-]. simpl. unfold spark_recomputed_root. by rewrite (sr_coins _ _ I), (sr_root _ _ I).
  - intros j s j' s' I I' E. simpl. by rewrite (sr_root _ _ I), (sr_root _ _ I'), E.
Defined.

Lemma spark_add_coin_rep e j s :
  spark_rep j s -> well_typed e -> coin_id e = Z.of_nat (length (now j).1) ->
  Z.of_nat (length (now j).1) < u64_max ->
  exists s', spark_add_coin e s = Some s'
    /\ spark_rep (mkJournal (snapshots j) ((now j).1 ++ [e], (now j).2)) s'.
Proof.
  intros [O K S R P D L N T] He Hid Hl. unfold spark_add_coin. rewrite K, Hid.
  assert (exists p, persist (on_fst (tree_insert (u64_key (Z.of_nat (length (now j).1))) (to_vec e)))
      (spark_persistence s) = Some p
    /\ from_option (fun p : Tree * Tree => on_disk ((now j).1 ++ [e]) p.1 /\ tags_on_disk (now j).2 p.2) True p)
    as (p & -> & Hp).
  { destruct (spark_persistence s) as [[t1 t2]|]; simpl in *; [|eauto]. unfold on_fst. simpl.
    destruct D as [D1 D2]. destruct (on_disk_snoc _ e t1 D1) as (t' & -> & Ht'); [lia|].
    eexists. split; [done|]. by split. }
  eexists. split; [done|]. constructor; simpl; try done.
  - apply journal_ok_op; [done|]. intros h c0 _. rewrite (surjective_pairing (now j)) at 1. apply coins_ext_snoc.
  - by apply list_ok_snoc.
  - intros i c Hi. apply lookup_snoc_Some in Hi as [[Hi Hc]|[-> <-]]; [by apply N|done].
Qed.

Lemma spark_mark_rep serial h j s :
  spark_rep j s -> dated h j -> (now j).2 !! serial = None -> length serial = 32%nat -> fits u64_max h ->
  exists s', spark_mark_serial_spent serial h s = Some s'
    /\ spark_rep (mkJournal (snapshots j) ((now j).1, <[serial := h]> (now j).2)) s'.
Proof.
  intros [O K S R P D L N T] Hd Hn Hlen Hh. unfold spark_mark_serial_spent.
  assert (exists p, persist (on_snd (tree_insert serial (Types.le_bytes 8 h))) (spark_persistence s) = Some p
    /\ from_option (fun p : Tree * Tree => on_disk (now j).1 p.1 /\ tags_on_disk (<[serial := h]> (now j).2) p.2) True p)
    as (p & -> & Hp).
  { destruct (spark_persistence s) as [[t1 t2]|]; simpl in *; [|eauto]. unfold on_snd. simpl.
    destruct D as [D1 D2]. destruct (tags_on_disk_insert _ serial h t2 D2) as (t' & -> & Ht').
    eexists. split; [done|]. by split. }
  eexists. split; [done|]. constructor; simpl; try done.
  - apply journal_ok_op; [done|]. intros h0 c0 Hin. rewrite (surjective_pairing (now j)) at 1.
    apply coins_ext_tag; [done|]. unfold dated in Hd. rewrite list.Forall_forall in Hd. apply (Hd _ Hin).
  - by rewrite S.
  - apply tags_typed_insert; [done| |done]. by intros n [= <-].
Qed.

Lemma spark_open_rep j s t1 t2 :
  spark_rep j s -> spark_persistence s = Some (t1, t2) ->
  exists s', spark_open t1 t2 = Ok s' /\ spark_rep (mkJournal [] (now j)) s'.
Proof.
  intros [O K S R P D L N T] Ht. rewrite Ht in D. destruct D as [[Dr Dd] [Er Ed]]. simpl in *. unfold spark_open.
  rewrite (load_indexed_rows _ _ Dd) by apply L. simpl. rewrite (load_tags_rows _ _ _ Ed) by done. simpl.
  eexists. split; [done|]. rewrite indexed_snd.
  constructor; simpl; try done. split; simpl; [apply linked_nil|lia].
Qed.

Lemma spark_new_rep : spark_rep (mkJournal [] ([], ∅)) spark_new.
Proof.
  constructor; simpl; try done. split; simpl; [apply linked_nil|lia].
Qed.
End Spark.
End Phase2Inv.
