(* ===== verification/Phase2Pool.v ===== *)
(** * The shielded store and the libspark pool against a stack of snapshots

    The two stores whose state is more than one list: the note store, whose Merkle tree
    keeps checkpoints of its own, and the pool, which keeps an index by outpoint, two
    running maxima and the value that has crossed the veil. *)

From Stdlib Require Import String.
From stdpp Require Import strings gmap sorting.
From S2P Require Import Prelude Types Security Phase2 Phase2Inv.

Module Phase2Pool.
Import Phase2 Phase2Inv.
#[local] Opaque be_bytes Types.le_bytes.

(** ** Maps of a list by its indices *)

Section Index.
Context {A : Type}.

Definition index_map (l : list A) : gmap Z A := list_to_map (indexed 0 l).

Lemma indexed_keys_NoDup (l : list A) : NoDup (indexed 0 l).*1.
Proof.
  replace ((indexed 0 l).*1) with (Z.of_nat <$> seq 0 (length l)).
  - apply NoDup_fmap_2; [apply _|apply NoDup_seq].
  - generalize 0%nat. induction l as [|a l IH]; intros n; [done|].
    rewrite indexed_cons. simpl. by rewrite IH.
Qed.

Lemma index_map_lookup (l : list A) k a : index_map l !! k = Some a <-> 0 <= k /\ l !! Z.to_nat k = Some a.
Proof.
  unfold index_map. rewrite <- elem_of_list_to_map by apply indexed_keys_NoDup.
  rewrite elem_of_indexed. simpl. split.
  - intros (i & Hi & ->). rewrite Nat2Z.id. split; [lia|done].
  - intros [Hk Hl]. exists (Z.to_nat k). split; [done|]. lia.
Qed.

Lemma index_map_size (l : list A) : size (index_map l) = length l.
Proof.
  unfold index_map. rewrite map_size_list_to_map by apply indexed_keys_NoDup.
  unfold indexed. by rewrite length_imap.
Qed.

Lemma index_map_snoc (l : list A) a : <[Z.of_nat (length l) := a]> (index_map l) = index_map (l ++ [a]).
Proof.
  apply map_eq. intros k. apply option_eq. intros b.
  rewrite index_map_lookup, lookup_snoc_Some, lookup_insert_Some, index_map_lookup. split.
  - intros [[<- <-]|(Hk & Hz & Hb)]; [split; [lia|]; right; split; [by rewrite Nat2Z.id|done]|].
    split; [done|]. left. split; [by apply lookup_lt_Some in Hb|done].
  - intros [Hz [[Hlt Hb]|[Hk <-]]]; [right|left; split; [lia|done]]. split; [lia|done].
Qed.

Lemma index_map_take (l : list A) n :
  filter (fun p : Z * A => ~ Z.of_nat n <= p.1) (index_map l) = index_map (take n l).
Proof.
  apply map_eq. intros k. apply option_eq. intros a.
  rewrite map_lookup_filter_Some, !index_map_lookup, lookup_take_Some. simpl. split.
  - intros [[Hz Ha] Hk]. split; [done|]. split; [done|]. lia.
  - intros [Hz [Ha Hk]]. split; [done|]. lia.
Qed.

Lemma elem_of_index_tail (l : list A) n k :
  k ∈ map u64_key (map fst (map_to_list (filter (fun p : Z * A => Z.of_nat n <= p.1) (index_map l))))
  <-> exists i, (n <= i < length l)%nat /\ k = u64_key (Z.of_nat i).
Proof.
  split.
  - intros Hk. apply list_elem_of_fmap in Hk as (z & -> & Hz).
    apply list_elem_of_fmap in Hz as ([z' a] & -> & Hz).
    apply elem_of_map_to_list, map_lookup_filter_Some in Hz as [Hz Hn].
    apply index_map_lookup in Hz as [Hp Ha]. apply lookup_lt_Some in Ha. simpl in *.
    exists (Z.to_nat z'). split; [lia|]. by rewrite Z2Nat.id.
  - intros (i & Hi & ->). destruct (lookup_lt_is_Some_2 l i) as [a Ha]; [lia|].
    apply list_elem_of_fmap. exists (Z.of_nat i). split; [done|]. apply list_elem_of_fmap.
    exists (Z.of_nat i, a). split; [done|]. apply elem_of_map_to_list, map_lookup_filter_Some. simpl.
    split; [|lia]. apply index_map_lookup. rewrite Nat2Z.id. split; [lia|done].
Qed.
End Index.

(** ** Notes *)

Section Shielded.
Context `{Blake3} `{!Borsh NoteCommitmentEntry} {BT : Type} `{BridgeTreeLaws BT} `{EmptyRoot}.
Abbreviation notes := (list NoteCommitmentEntry * gmap bytes Z)%type.

(** A note's position is its index. *)
Definition dense_notes (l : list NoteCommitmentEntry) : Prop :=
  forall i e, l !! i = Some e -> nposition e = Z.of_nat i.

Record shielded_rep (j : journal notes) (s : ShieldedStore (BT := BT)) : Prop := {
  hr_ok : journal_ok coins_ext j;
  hr_tree : view (tree s) = mkView (map ncommitment (now j).1)
              (map (fun p => (p.1, length p.2.1)) (snapshots j)) MAX_CHECKPOINTS;
  hr_entries : entries s = index_map (now j).1;
  hr_nullifiers : nullifiers s = (now j).2;
  hr_cps : shielded_checkpoints s = map (fun p => mkShieldedCp p.1 (length p.2.1)) (snapshots j);
  hr_disk : from_option (fun p : Tree * Tree => on_disk (now j).1 p.1 /\ tags_on_disk (now j).2 p.2) True
              (shielded_persistence s);
  hr_list : list_ok (now j).1;
  hr_dense : dense_notes (now j).1;
  hr_cap : Z.of_nat (length (now j).1) <= 2 ^ SHIELDED_TREE_DEPTH;
  hr_typed : tags_typed (Some 32%nat) (now j).2 }.

Lemma pair_view {R} (p : BT * R) q : view_result view p = q -> view p.1 = q.1 /\ p.2 = q.2.
Proof. unfold view_result. by intros <-. Qed.

Lemma shielded_rep_checkpoint h j s : shielded_rep j s -> fresh coins_ext h j ->
  shielded_rep (journal_checkpoint h j) (shielded_checkpoint_at_height h s).
Proof.
  intros [O V E S P D L N Cp T] F. unfold shielded_checkpoint_at_height.
  destruct (pair_view _ _ (view_of_checkpoint h (tree s))) as [Vc Bc]. rewrite V in Vc, Bc.
  destruct (bt_checkpoint h (tree s)) as [t b]. simpl in Vc, Bc. subst b.
  assert (A : view_checkpoint h (mkView (map ncommitment (now j).1)
              (map (fun p => (p.1, length p.2.1)) (snapshots j)) MAX_CHECKPOINTS)
    = (mkView (map ncommitment (now j).1)
         (push_capped MAX_CHECKPOINTS (map (fun p => (p.1, length p.2.1)) (snapshots j)) (h, length (now j).1))
         MAX_CHECKPOINTS, true)).
  { unfold view_checkpoint. simpl. rewrite length_map, pop_fmap.
    destruct (pop (snapshots j)) as [[rest [h0 c]]|] eqn:Ep; simpl; [|done].
    apply pop_Some in Ep. destruct F as [F _]. rewrite Ep in F. apply list.Forall_app in F as [_ F].
    apply list.Forall_cons in F as [F _]. simpl in F. by rewrite (proj2 (Z.ltb_lt _ _) F). }
  rewrite A in Vc |- *. simpl in Vc |- *. constructor; simpl; try done.
  - by apply journal_ok_checkpoint.
  - by rewrite Vc, push_capped_fmap.
  - by rewrite push_capped_fmap, P, E, index_map_size.
Qed.

Lemma dense_notes_take n l : dense_notes l -> dense_notes (take n l).
Proof. intros D i c Hi. apply lookup_take_Some in Hi as [Hi _]. by apply D. Qed.

Lemma shielded_rep_rewind j s : shielded_rep j s ->
  (shielded_rewind s).2 = (journal_rewind j).2 /\ shielded_rep (journal_rewind j).1 (shielded_rewind s).1.
Proof.
  intros I. pose proof I as [O V E S P D L N Cp T]. pose proof (journal_ok_rewind _ _ O) as O'. revert O'.
  unfold shielded_rewind, journal_rewind. rewrite P, pop_fmap.
  destruct (pop (snapshots j)) as [[rest [h c]]|] eqn:Ep; simpl; [|done]. intros O'.
  destruct (journal_ok_last _ _ _ _ _ O Ep) as [Hp Ht].
  destruct (pair_view _ _ (view_of_rewind (tree s))) as [Vc Bc]. rewrite V in Vc, Bc.
  unfold view_rewind in Vc, Bc. simpl in Vc, Bc. rewrite pop_fmap, Ep in Vc, Bc. simpl in Vc, Bc.
  destruct (bt_rewind (tree s)) as [t b]. simpl in Vc, Bc. subst b.
  pose proof (prefix_length _ _ Hp) as Hlen. pose proof (prefix_restore _ _ Hp) as Hr.
  simpl. split; [done|]. rewrite S, E, Ht, index_map_take, Hr. constructor; simpl; try done.
  - by rewrite Vc, firstn_map, Hr.
  - destruct (shielded_persistence s) as [[t1 t2]|]; simpl in *; [|done]. destruct D as [D1 D2]. split.
    + rewrite <- Hr at 1. apply on_disk_take; [done|apply L|]. intros k. apply elem_of_index_tail.
    + rewrite <- Ht at 1. by apply tags_on_disk_below.
  - rewrite <- Hr. by apply list_ok_take.
  - rewrite <- Hr. by apply dense_notes_take.
  - lia.
  - rewrite <- Ht. by apply tags_typed_below.
Qed.

#[export] Instance shielded_journaled : Journaled ShieldedStore notes.
Proof.
  refine {| ext := coins_ext; rep := shielded_rep |}.
  - by intros j s [].
  - intros j s I. simpl. unfold shielded_checkpoint_count. by rewrite (hr_cps _ _ I), length_map.
  - apply shielded_rep_checkpoint.
  - intros j s I. destruct (shielded_rep_rewind j s I) as [E I']. simpl.
    exists (shielded_rewind s).1. split; [|done]. rewrite <- E. by destruct (shielded_rewind s).
  - done.
  - intros j s j' s' I I' E. simpl. unfold shielded_current_root. f_equal. apply root_of_leaves.
    by rewrite (hr_tree _ _ I), (hr_tree _ _ I'), E.
Defined.

(** A note as it is stored. *)
Definition placed (e : NoteCommitmentEntry) (position : Z) : NoteCommitmentEntry :=
  mkNote (ncommitment e) (nheight e) (ntx_index e) position.

Lemma append_commitment_rep e j s :
  shielded_rep j s -> well_typed e -> Z.of_nat (length (now j).1) < 2 ^ SHIELDED_TREE_DEPTH ->
  exists s', append_commitment e s = Some (s', Z.of_nat (length (now j).1))
    /\ shielded_rep (mkJournal (snapshots j) ((now j).1 ++ [placed e (Z.of_nat (length (now j).1))], (now j).2)) s'.
Proof.
  intros [O V E S P D L N Cp T] He Hl. unfold append_commitment.
  destruct (pair_view _ _ (view_of_append (ncommitment e) (tree s))) as [Vc _].
  rewrite V in Vc. unfold view_append in Vc. simpl in Vc. rewrite length_map in Vc.
  rewrite (proj2 (Z.ltb_lt _ _) Hl) in Vc. simpl in Vc.
  rewrite view_of_frontier, Vc. unfold view_frontier. simpl.
  assert (Hpos : (match map ncommitment (now j).1 ++ [ncommitment e] with
    | [] => None | _ => Some (Z.of_nat (length (map ncommitment (now j).1 ++ [ncommitment e])) - 1) end)
    = Some (Z.of_nat (length (now j).1))).
  { destruct (map ncommitment (now j).1 ++ [ncommitment e]) eqn:Em; [by destruct (map ncommitment (now j).1)|].
    rewrite <- Em, length_app, length_map. simpl. f_equal. lia. }
  rewrite Hpos. simpl. fold (placed e (Z.of_nat (length (now j).1))).
  set (n := Z.of_nat (length (now j).1)) in *.
  assert (H32 : 2 ^ SHIELDED_TREE_DEPTH = 4294967296) by done.
  assert (He' : well_typed (placed e n)).
  { destruct He as (W1 & W2 & W3 & _). repeat split; simpl; try apply W2; try apply W3; try done; unfold fits; lia. }
  assert (exists p, persist (on_fst (tree_insert (u64_key n) (to_vec (placed e n)))) (shielded_persistence s) = Some p
    /\ from_option (fun p : Tree * Tree => on_disk ((now j).1 ++ [placed e n]) p.1 /\ tags_on_disk (now j).2 p.2) True p)
    as (p & -> & Hp).
  { destruct (shielded_persistence s) as [[t1 t2]|]; simpl in *; [|eauto]. unfold on_fst. simpl.
    destruct D as [D1 D2]. destruct (on_disk_snoc _ (placed e n) t1 D1) as (t' & Ht' & Ho); [lia|].
    fold n in Ht'. rewrite Ht'. eexists. split; [done|]. by split. }
  eexists. split; [done|]. constructor; simpl; try done.
  - apply journal_ok_op; [done|]. intros h c0 _. rewrite (surjective_pairing (now j)) at 1. apply coins_ext_snoc.
  - by rewrite Vc, map_app.
  - rewrite E. apply index_map_snoc.
  - apply list_ok_snoc; [done|done|lia].
  - intros i c Hi. apply lookup_snoc_Some in Hi as [[Hi Hc]|[-> <-]]; [by apply N|done].
  - rewrite length_app. simpl. lia.
Qed.

Lemma mark_nullifier_rep nf h j s :
  shielded_rep j s -> dated h j -> length nf = 32%nat -> fits u64_max h ->
  exists s', mark_nullifier_spent nf h s = Some (s', negb (bool_decide (is_Some ((now j).2 !! nf))))
    /\ shielded_rep (mkJournal (snapshots j)
         ((now j).1, if decide (is_Some ((now j).2 !! nf)) then (now j).2 else <[nf := h]> (now j).2)) s'.
Proof.
  intros I Hd Hlen Hh. pose proof I as [O V E S P D L N Cp T]. unfold mark_nullifier_spent. rewrite S.
  destruct ((now j).2 !! nf) as [x|] eqn:Hn.
  { exists s. rewrite bool_decide_eq_true_2 by eauto. split; [done|]. rewrite decide_True by eauto.
    by destruct j as [sn [a b]]. }
  rewrite bool_decide_eq_false_2, decide_False by (by intros [? ?]). simpl.
  assert (exists p, persist (on_snd (tree_insert nf (Types.le_bytes 8 h))) (shielded_persistence s) = Some p
    /\ from_option (fun p : Tree * Tree => on_disk (now j).1 p.1 /\ tags_on_disk (<[nf := h]> (now j).2) p.2) True p)
    as (p & -> & Hp).
  { destruct (shielded_persistence s) as [[t1 t2]|]; simpl in *; [|eauto]. unfold on_snd. simpl.
    destruct D as [D1 D2]. destruct (tags_on_disk_insert _ nf h t2 D2) as (t' & -> & Ht').
    eexists. split; [done|]. by split. }
  eexists. split; [done|]. constructor; simpl; try done.
  - apply journal_ok_op; [done|]. intros h0 c0 Hin. rewrite (surjective_pairing (now j)) at 1.
    apply coins_ext_tag; [done|]. unfold dated in Hd. rewrite list.Forall_forall in Hd. apply (Hd _ Hin).
  - apply tags_typed_insert; [done| |done]. by intros n [= <-].
Qed.

Lemma mark_current_rep j s : shielded_rep j s -> shielded_rep j (mark_current s).1.
Proof.
  intros [O V E S P D L N Cp T]. unfold mark_current. pose proof (view_of_mark (tree s)) as M.
  destruct (bt_mark (tree s)) as [t p]. simpl in *. constructor; simpl; try done. by rewrite M.
Qed.

(** Replaying the leaves into an empty tree. *)
Lemma replay_tree l (t : BT) n : Z.of_nat (length (leaves (view t)) + length l) <= 2 ^ SHIELDED_TREE_DEPTH ->
  view (fold_left (fun t (p : Z * NoteCommitmentEntry) => (bt_append (ncommitment p.2) t).1) (indexed n l) t)
  = mkView (leaves (view t) ++ map ncommitment l) (marks (view t)) (max_marks (view t)).
Proof.
  revert t n. induction l as [|e l IH]; intros t n Hl.
  - simpl. rewrite app_nil_r. by destruct (view t).
  - rewrite indexed_cons. cbn [fold_left snd].
    destruct (pair_view _ _ (view_of_append (ncommitment e) t)) as [Vc _]. unfold view_append in Vc.
    cbn [length] in Hl. rewrite (proj2 (Z.ltb_lt _ _)) in Vc by lia. simpl in Vc.
    rewrite IH; rewrite Vc; simpl; [by rewrite <- app_assoc|]. rewrite length_app. simpl. lia.
Qed.

Lemma replay_entries l n (m : gmap Z NoteCommitmentEntry) :
  fold_left (fun m (p : Z * NoteCommitmentEntry) => <[p.1 := p.2]> m) (indexed n l) m
  = list_to_map (indexed n l) ∪ m.
Proof.
  revert n m. induction l as [|e l IH]; intros n m; [simpl; by rewrite map_empty_union|].
  rewrite indexed_cons. cbn [fold_left fst snd]. rewrite IH. simpl.
  rewrite <- insert_union_l, insert_union_r; [done|].
  apply not_elem_of_list_to_map. intros Hin. apply list_elem_of_fmap in Hin as (p & Ep & Hp).
  apply elem_of_indexed in Hp as (i & _ & Hi). simpl in *. lia.
Qed.

Lemma shielded_open_rep j s t1 t2 :
  shielded_rep j s -> shielded_persistence s = Some (t1, t2) ->
  exists s', shielded_open t1 t2 = Ok s' /\ shielded_rep (mkJournal [] (now j)) s'.
Proof.
  intros [O V E S P D L N Cp T] Ht. rewrite Ht in D. destruct D as [[Dr Dd] [Er Ed]]. simpl in *.
  unfold shielded_open. rewrite (load_indexed_rows _ _ Dd) by apply L. simpl.
  rewrite (load_tags_rows _ _ _ Ed) by done. simpl. eexists. split; [done|]. constructor; simpl; try done.
  - split; simpl; [apply linked_nil|lia].
  - rewrite replay_tree; rewrite view_new; simpl; [done|]. lia.
  - by rewrite replay_entries, map_union_empty.
Qed.

Lemma shielded_new_rep : shielded_rep (mkJournal [] ([], ∅)) shielded_new.
Proof.
  constructor; simpl; try done. { split; simpl; [apply linked_nil|lia]. } by rewrite view_new.
Qed.
End Shielded.

(** ** The pool *)

Lemma i128_round_trip v : i128_min <= v <= i128_max -> i128_value (i128_bytes v) = v.
Proof.
  intros Hv. unfold i128_value, i128_bytes.
  pose proof (Z.mod_pos_bound v (u128_max + 1) ltac:(lia)) as Hm.
  rewrite le_value_of_bytes by (change (256 ^ Z.of_nat 16) with (u128_max + 1); lia).
  destruct (Z.leb_spec 0 v).
  - rewrite Z.mod_small by lia. zcases.
  - replace (v mod (u128_max + 1)) with (v + (u128_max + 1)); [zcases|].
    rewrite <- (Z.mod_small (v + (u128_max + 1)) (u128_max + 1)) by lia.
    rewrite <- (Z.mod_add v 1 (u128_max + 1)) by lia. done.
Qed.

(** [iter().max()] by its members. *)
Lemma fold_max_spec l x :
  (fold_left Z.max l x = x \/ fold_left Z.max l x ∈ l)
  /\ x <= fold_left Z.max l x /\ (forall y, y ∈ l -> y <= fold_left Z.max l x).
Proof.
  revert x. induction l as [|a l IH]; intros x; simpl.
  - split; [by left|]. split; [lia|]. intros y Hy. by apply elem_of_nil in Hy.
  - destruct (IH (Z.max x a)) as (Hm & Hx & Hy). split; [|split].
    + destruct Hm as [Hm|Hm]; [|right; by right]. destruct (Z.max_spec x a) as [[_ E]|[_ E]]; rewrite E in Hm at 2.
      * right. rewrite Hm. left.
      * by left.
    + lia.
    + intros y [->|Hin]%elem_of_cons; [lia|by apply Hy].
Qed.

Lemma max_of_spec l m : max_of l = Some m <-> m ∈ l /\ forall y, y ∈ l -> y <= m.
Proof.
  destruct l as [|x l]; simpl.
  - split; [done|]. intros [Hm _]. by apply elem_of_nil in Hm.
  - destruct (fold_max_spec l x) as (Hm & Hx & Hy). split.
    + intros [= <-]. split; [rewrite elem_of_cons; tauto|]. intros y [->|Hin]%elem_of_cons; [done|by apply Hy].
    + intros [Hin Hall]. f_equal. apply Z.le_antisymm.
      * destruct Hm as [->|Hm]; apply Hall; [left|by right].
      * apply elem_of_cons in Hin as [->|Hin]; [done|by apply Hy].
Qed.

Lemma max_of_None l : max_of l = None <-> l = [].
Proof. by destruct l. Qed.

Lemma max_of_Permutation l l' : l ≡ₚ l' -> max_of l = max_of l'.
Proof.
  intros Hp. apply option_eq. intros m. rewrite !max_of_spec. by setoid_rewrite Hp.
Qed.

Lemma max_of_cons x l : max_of (x :: l) = raise_max (max_of l) x.
Proof.
  apply max_of_spec. destruct (max_of l) as [m|] eqn:E.
  - apply max_of_spec in E as [Hm Hall]. split.
    + destruct (Z.max_spec m x) as [[_ ->]|[_ ->]]; [left|by right].
    + intros y [->|Hy]%elem_of_cons; [lia|]. specialize (Hall _ Hy). lia.
  - apply max_of_None in E as ->. split; [left|]. intros y [->|Hy]%elem_of_cons; [lia|]. by apply elem_of_nil in Hy.
Qed.

Lemma max_of_snoc x l : max_of (l ++ [x]) = raise_max (max_of l) x.
Proof. rewrite <- max_of_cons. apply max_of_Permutation. by rewrite Permutation_app_comm. Qed.

Lemma max_of_tag tags k h : tags !! k = None ->
  max_of (tag_heights (<[k := h]> tags)) = raise_max (max_of (tag_heights tags)) h.
Proof.
  intros Hk. rewrite <- max_of_cons. apply max_of_Permutation. unfold tag_heights.
  rewrite map_to_list_insert by done. done.
Qed.

Section Pool.
Context `{Blake3} `{!Borsh SparkPoolCoin}.

Record pool_contents := mkContents {
  c_coins : list SparkPoolCoin; c_tags : gmap bytes Z; c_value : Z }.

Definition pool_ext (h : Z) (c c' : pool_contents) : Prop :=
  c_coins c `prefix_of` c_coins c' /\ tags_below h (c_tags c') = c_tags c
  /\ Forall (fun x => pheight x < h) (c_coins c).

(** The index by outpoint. *)
Definition outpoint_map (l : list SparkPoolCoin) : gmap bytes Z :=
  list_to_map (map (fun c => (outpoint c, cover_index c)) l).

Definition dense_coins (l : list SparkPoolCoin) : Prop :=
  forall i c, l !! i = Some c -> cover_index c = Z.of_nat i.

Record coins_ok (l : list SparkPoolCoin) : Prop := {
  ck_list : list_ok l;
  ck_dense : dense_coins l;
  ck_nodup : NoDup (map outpoint l) }.

Record pool_rep (j : journal pool_contents) (s : SparkPoolStore) : Prop := {
  pr_ok : journal_ok pool_ext j;
  pr_coins : pool_coins s = c_coins (now j);
  pr_index : by_outpoint s = outpoint_map (c_coins (now j));
  pr_tags : spent_tags s = c_tags (now j);
  pr_cps : pool_checkpoints s =
             map (fun p => mkPoolCp p.1 (length (c_coins p.2)) (c_value p.2)) (snapshots j);
  pr_max_coin : max_coin_height s = max_of (map pheight (c_coins (now j)));
  pr_max_tag : max_spent_tag_height s = max_of (tag_heights (c_tags (now j)));
  pr_value : pool_value s = c_value (now j);
  pr_disk : from_option (fun p => on_disk (c_coins (now j)) (coins_cf p)
              /\ tags_on_disk (c_tags (now j)) (tags_cf p)
              /\ refused (meta_cf p) = ∅ /\ load_pool_value (meta_cf p) = c_value (now j)) True
              (pool_persistence s);
  pr_list : coins_ok (c_coins (now j));
  pr_typed : tags_typed None (c_tags (now j));
  pr_solvent : fits i128_max (c_value (now j)) /\ Forall (fun p => fits i128_max (c_value p.2)) (snapshots j) }.

Lemma coins_ok_take n l : coins_ok l -> coins_ok (take n l).
Proof.
  intros [L D N]. split; [by apply list_ok_take| |].
  - intros i c Hi. apply lookup_take_Some in Hi as [Hi _]. by apply D.
  - rewrite <- (take_drop n l), map_app in N. by apply list.NoDup_app in N as [N _].
Qed.

Lemma outpoint_map_lookup l op i : coins_ok l ->
  outpoint_map l !! op = Some i <-> exists c, l !! Z.to_nat i = Some c /\ outpoint c = op /\ 0 <= i.
Proof.
  intros [L D N]. unfold outpoint_map. rewrite <- elem_of_list_to_map by (rewrite <- list_fmap_compose; done).
  rewrite list_elem_of_fmap. split.
  - intros (c & [= -> ->] & Hc). apply list_elem_of_lookup in Hc as [k Hk]. exists c.
    rewrite (D _ _ Hk), Nat2Z.id. repeat split; [done|lia].
  - intros (c & Hc & <- & Hi). exists c. rewrite (D _ _ Hc), Z2Nat.id by done. split; [done|].
    by apply list_elem_of_lookup_2 in Hc.
Qed.

Lemma outpoint_map_fresh l op : outpoint_map l !! op = None -> op ∉ map outpoint l.
Proof.
  intros Hn Hin. apply not_elem_of_list_to_map in Hn. apply Hn. rewrite <- list_fmap_compose. done.
Qed.

Lemma outpoint_map_snoc l c : outpoint c ∉ map outpoint l ->
  outpoint_map (l ++ [c]) = <[outpoint c := cover_index c]> (outpoint_map l).
Proof.
  intros Hn. unfold outpoint_map. rewrite map_app. simpl. rewrite list_to_map_snoc; [done|].
  by rewrite <- list_fmap_compose.
Qed.

Lemma fold_delete_index (cs : list SparkPoolCoin) (m : gmap bytes Z) op :
  fold_left (fun m c => delete (outpoint c) m) cs m !! op
  = if decide (op ∈ map outpoint cs) then None else m !! op.
Proof.
  revert m. induction cs as [|c cs IH]; intros m; cbn [fold_left map]; [case_decide as Hn; [by apply elem_of_nil in Hn|done]|].
  rewrite IH. destruct (decide (op ∈ map outpoint cs)) as [Hk|Hk].
  - rewrite decide_True; [done|]. by right.
  - destruct (decide (op = outpoint c)) as [->|Hne].
    + rewrite lookup_delete_eq, decide_True by left. done.
    + rewrite lookup_delete_ne by done. rewrite decide_False; [done|]. by intros [?|?]%elem_of_cons.
Qed.

Lemma outpoint_map_take n l : coins_ok l ->
  fold_left (fun m c => delete (outpoint c) m) (drop n l) (outpoint_map l) = outpoint_map (take n l).
Proof.
  intros O. pose proof (coins_ok_take n l O) as O'. apply map_eq. intros op. rewrite fold_delete_index.
  pose proof (ck_nodup _ O) as N. rewrite <- (take_drop n l), map_app in N.
  apply list.NoDup_app in N as (_ & Hdisj & _). case_decide as Hk.
  - symmetry. apply eq_None_not_Some. intros [i Hi]. apply outpoint_map_lookup in Hi as (c & Hc & <- & _); [|done].
    apply (Hdisj (outpoint c)); [|done]. apply list_elem_of_fmap. exists c. split; [done|].
    by apply list_elem_of_lookup_2 in Hc.
  - apply option_eq. intros i. rewrite !outpoint_map_lookup by done. split; intros (c & Hc & <- & Hi); exists c.
    + split; [|done]. apply lookup_take_Some. split; [done|].
      destruct (decide (Z.to_nat i < n)%nat) as [|Hge]; [done|]. destruct Hk. apply list_elem_of_fmap. exists c.
      split; [done|]. apply list_elem_of_lookup. exists (Z.to_nat i - n)%nat. rewrite lookup_drop, <- Hc. f_equal. lia.
    + apply lookup_take_Some in Hc as [Hc _]. done.
Qed.

Lemma pool_rep_checkpoint h j s :
  pool_rep j s -> fresh pool_ext h j -> pool_rep (journal_checkpoint h j) (pool_checkpoint_at_height h s).
Proof.
  intros [O K X S P M1 M2 V D L T W] F. constructor; simpl; try done.
  - by apply journal_ok_checkpoint.
  - by rewrite push_capped_fmap, P, K, V.
  - split; [apply W|]. apply list.Forall_forall. intros p Hp. apply push_capped_sublist in Hp as [Hp| ->]; [|apply W].
    destruct W as [_ W]. rewrite list.Forall_forall in W. by apply W.
Qed.

Lemma load_pool_value_insert v t : refused t = ∅ -> fits i128_max v ->
  exists t', tree_insert POOL_VALUE_KEY (i128_bytes v) t = Some t' /\ refused t' = ∅ /\ load_pool_value t' = v.
Proof.
  intros Hr Hv. rewrite tree_insert_healthy by done. eexists. split; [done|]. split; [done|].
  unfold load_pool_value. simpl. rewrite lookup_insert_eq. unfold i128_bytes at 1.
  rewrite Types.le_bytes_length. simpl. apply i128_round_trip. unfold fits in Hv. lia.
Qed.

Lemma pool_rep_rewind j s : pool_rep j s ->
  exists s', pool_rewind s = Some (s', (journal_rewind j).2) /\ pool_rep (journal_rewind j).1 s'.
Proof.
  intros I. pose proof I as [O K X S P M1 M2 V D L T W]. pose proof (journal_ok_rewind _ _ O) as O'. revert O'.
  unfold pool_rewind, journal_rewind. rewrite P, pop_fmap.
  destruct (pop (snapshots j)) as [[rest [h c]]|] eqn:E; simpl; [|eauto]. intros O'.
  destruct (journal_ok_last _ _ _ _ _ O E) as (Hp & Ht & _). apply pop_Some in E.
  pose proof (prefix_length _ _ Hp) as Hlen. pose proof (prefix_restore _ _ Hp) as Hr.
  rewrite K, S, X, Ht, Hr, outpoint_map_take, Hr by done.
  assert (W' : fits i128_max (c_value c) /\ Forall (fun p => fits i128_max (c_value p.2)) rest).
  { destruct W as [_ W]. rewrite E in W. apply list.Forall_app in W as [W1 W2]. split; [|done]. by inversion W2. }
  match goal with |- exists s', match persist ?f ?o with _ => _ end = _ /\ _ =>
    assert (exists p, persist f o = Some p
      /\ from_option (fun p => on_disk (c_coins c) (coins_cf p) /\ tags_on_disk (c_tags c) (tags_cf p)
            /\ refused (meta_cf p) = ∅ /\ load_pool_value (meta_cf p) = c_value c) True p) as (p & -> & Dp) end.
  { destruct (pool_persistence s) as [[t1 t2 t3]|]; simpl in *; [|eauto]. destruct D as (D1 & D2 & D3 & _).
    unfold on_coins, on_tags, on_meta. simpl. rewrite !remove_halting_healthy by (apply D1 || apply D2). simpl.
    destruct (load_pool_value_insert (c_value c) t3) as (t' & -> & Hr1 & Hr2); [done|apply W'|].
    eexists. split; [done|]. simpl. split; [|split; [|done]].
    - rewrite <- Hr at 1. apply on_disk_take; [done|apply L|]. intros k. apply elem_of_tail_keys.
    - rewrite <- Ht at 1. by apply tags_on_disk_below. }
  eexists. split; [done|]. constructor; simpl; try done.
  - rewrite <- Hr. by apply coins_ok_take.
  - rewrite <- Ht. by apply tags_typed_below.
Qed.

#[export] Instance pool_journaled : Journaled SparkPoolStore pool_contents.
Proof.
  refine {| ext := pool_ext; rep := pool_rep |}.
  - by intros j s [].
  - intros j s I. simpl. unfold pool_checkpoint_count. by rewrite (pr_cps _ _ I), length_map.
  - apply pool_rep_checkpoint.
  - apply pool_rep_rewind.
  - done.
  - intros j s j' s' I I' E. simpl. unfold pool_current_root. by rewrite (pr_coins _ _ I), (pr_coins _ _ I'), E.
Defined.

Lemma pool_ext_snoc h c cs tags v v' a :
  pool_ext h c (mkContents cs tags v) -> pool_ext h c (mkContents (cs ++ [a]) tags v').
Proof. intros (P & T & F). split; [by apply prefix_app_r|done]. Qed.

Lemma pool_ext_tag (h x : Z) c cs tags v v' k : tags !! k = None -> h <= x ->
  pool_ext h c (mkContents cs tags v) -> pool_ext h c (mkContents cs (<[k := x]> tags) v').
Proof. intros Hk Hx (P & T & F). split; [done|]. simpl in *. by rewrite tags_below_insert. Qed.

Lemma pool_ext_refl h c : map_Forall (fun _ x => x < h) (c_tags c) ->
  Forall (fun x => pheight x < h) (c_coins c) -> pool_ext h c c.
Proof. intros Hc F. by destruct (coins_ext_refl h (c_coins c, c_tags c)). Qed.

(** The contents after a coin: unchanged when its outpoint is known. *)
Definition with_coin (op c ctx : bytes) (h : Z) (x : pool_contents) : pool_contents :=
  if decide (op ∈ map outpoint (c_coins x)) then x
  else mkContents (c_coins x ++ [mkPoolCoin op c ctx h (Z.of_nat (length (c_coins x)))]) (c_tags x) (c_value x).

Lemma outpoint_map_known l op : coins_ok l -> is_Some (outpoint_map l !! op) <-> op ∈ map outpoint l.
Proof.
  intros O. split.
  - intros [i Hi]. apply outpoint_map_lookup in Hi as (c & Hc & <- & _); [|done].
    apply list_elem_of_fmap. exists c. split; [done|]. by apply list_elem_of_lookup_2 in Hc.
  - intros Hin. destruct (outpoint_map l !! op) eqn:E; [eauto|]. by apply outpoint_map_fresh in E.
Qed.

Lemma coins_ok_snoc l op c ctx h : coins_ok l -> op ∉ map outpoint l -> fits u64_max h ->
  Z.of_nat (length l) < u64_max -> coins_ok (l ++ [mkPoolCoin op c ctx h (Z.of_nat (length l))]).
Proof.
  intros [L D N] Hop Hh Hl. split.
  - apply list_ok_snoc; [done| |done]. split; simpl; [done|]. unfold fits. lia.
  - intros i x Hi. apply lookup_snoc_Some in Hi as [[Hi Hc]|[-> <-]]; [by apply D|done].
  - rewrite map_app. apply list.NoDup_app. split; [done|]. split; [|apply NoDup_singleton].
    intros x Hx Hs. apply list_elem_of_singleton in Hs as ->. done.
Qed.

Lemma pool_add_coin_rep op c ctx h j s :
  pool_rep j s -> fits u64_max h -> Z.of_nat (length (c_coins (now j))) < u64_max ->
  exists s', pool_add_coin op c ctx h s
      = Some (s', if decide (op ∈ map outpoint (c_coins (now j))) then None
                  else Some (Z.of_nat (length (c_coins (now j)))))
    /\ pool_rep (mkJournal (snapshots j) (with_coin op c ctx h (now j))) s'.
Proof.
  intros I Hh Hl. pose proof I as [O K X S P M1 M2 V D L T W]. unfold pool_add_coin, with_coin. rewrite X.
  case_decide as Hop.
  { destruct (proj2 (outpoint_map_known _ _ L) Hop) as [i ->]. exists s. split; [done|]. by destruct j. }
  destruct (outpoint_map (c_coins (now j)) !! op) as [i|] eqn:Ei.
  { destruct Hop. apply outpoint_map_known; eauto. }
  rewrite K. set (a := mkPoolCoin op c ctx h (Z.of_nat (length (c_coins (now j))))).
  assert (exists p, persist (on_coins (tree_insert (u64_key (Z.of_nat (length (c_coins (now j))))) (to_vec a)))
      (pool_persistence s) = Some p
    /\ from_option (fun p => on_disk (c_coins (now j) ++ [a]) (coins_cf p) /\ tags_on_disk (c_tags (now j)) (tags_cf p)
          /\ refused (meta_cf p) = ∅ /\ load_pool_value (meta_cf p) = c_value (now j)) True p) as (p & -> & Dp).
  { destruct (pool_persistence s) as [[t1 t2 t3]|]; simpl in *; [|eauto]. unfold on_coins. simpl.
    destruct D as [D1 D2]. destruct (on_disk_snoc _ a t1 D1) as (t' & -> & Ht'); [lia|].
    eexists. split; [done|]. by split. }
  eexists. split; [done|]. constructor; simpl; try done.
  - apply journal_ok_op; [done|]. intros h0 c0 _. destruct (now j). apply pool_ext_snoc.
  - by rewrite outpoint_map_snoc.
  - rewrite map_app, M1. symmetry. apply max_of_snoc.
  - by apply coins_ok_snoc.
Qed.

Lemma mark_tag_rep tag h j s :
  pool_rep j s -> dated h j -> fits u64_max h ->
  exists s', mark_tag_spent tag h s = Some (s', negb (bool_decide (is_Some (c_tags (now j) !! tag))))
    /\ pool_rep (mkJournal (snapshots j)
         (mkContents (c_coins (now j))
            (if decide (is_Some (c_tags (now j) !! tag)) then c_tags (now j) else <[tag := h]> (c_tags (now j)))
            (c_value (now j)))) s'.
Proof.
  intros I Hd Hh. pose proof I as [O K X S P M1 M2 V D L T W]. unfold mark_tag_spent. rewrite S.
  destruct (c_tags (now j) !! tag) as [x|] eqn:Hn.
  { exists s. rewrite bool_decide_eq_true_2 by eauto. split; [done|]. rewrite decide_True by eauto.
    by destruct j as [sn []]. }
  rewrite bool_decide_eq_false_2, decide_False by (by intros [? ?]). simpl.
  assert (exists p, persist (on_tags (tree_insert tag (Types.le_bytes 8 h))) (pool_persistence s) = Some p
    /\ from_option (fun p => on_disk (c_coins (now j)) (coins_cf p) /\ tags_on_disk (<[tag := h]> (c_tags (now j))) (tags_cf p)
          /\ refused (meta_cf p) = ∅ /\ load_pool_value (meta_cf p) = c_value (now j)) True p) as (p & -> & Dp).
  { destruct (pool_persistence s) as [[t1 t2 t3]|]; simpl in *; [|eauto]. unfold on_tags. simpl.
    destruct D as (D1 & D2 & D3). destruct (tags_on_disk_insert _ tag h t2 D2) as (t' & -> & Ht').
    eexists. split; [done|]. by split. }
  eexists. split; [done|]. constructor; simpl; try done.
  - apply journal_ok_op; [done|]. intros h0 c0 Hin. destruct (now j). apply pool_ext_tag; [done|].
    unfold dated in Hd. rewrite list.Forall_forall in Hd. apply (Hd _ Hin).
  - by rewrite M2, max_of_tag.
  - by apply tags_typed_insert.
Qed.

(** The pool value moves by [-value_balance]; a negative total is refused. *)
Lemma apply_value_balance_rep vb j s :
  pool_rep j s -> c_value (now j) - vb <= i128_max ->
  exists s', apply_value_balance vb s = Some (s', 0 <=? c_value (now j) - vb)
    /\ pool_rep (mkJournal (snapshots j)
         (mkContents (c_coins (now j)) (c_tags (now j))
            (if 0 <=? c_value (now j) - vb then c_value (now j) - vb else c_value (now j)))) s'.
Proof.
  intros I Hm. pose proof I as [O K X S P M1 M2 V D L T W]. unfold apply_value_balance. rewrite V.
  destruct (Z.ltb_spec (c_value (now j) - vb) 0) as [Hneg|Hpos].
  { exists s. rewrite (proj2 (Z.leb_gt _ _)) by lia. split; [done|]. by destruct j as [sn []]. }
  rewrite (proj2 (Z.leb_le _ _)) by lia.
  assert (exists p, persist (on_meta (tree_insert POOL_VALUE_KEY (i128_bytes (c_value (now j) - vb)))) (pool_persistence s) = Some p
    /\ from_option (fun p => on_disk (c_coins (now j)) (coins_cf p) /\ tags_on_disk (c_tags (now j)) (tags_cf p)
          /\ refused (meta_cf p) = ∅ /\ load_pool_value (meta_cf p) = c_value (now j) - vb) True p) as (p & -> & Dp).
  { destruct (pool_persistence s) as [[t1 t2 t3]|]; simpl in *; [|eauto]. unfold on_meta. simpl.
    destruct D as (D1 & D2 & D3 & _).
    destruct (load_pool_value_insert (c_value (now j) - vb) t3 D3) as (t' & -> & R1 & R2); [unfold fits; lia|].
    eexists. split; [done|]. done. }
  eexists. split; [done|]. constructor; simpl; try done.
  split; [unfold fits; lia|apply W].
Qed.

Lemma indexed_snoc {A} (l : list A) a : indexed 0 (l ++ [a]) = indexed 0 l ++ [(Z.of_nat (length l), a)].
Proof. unfold indexed. rewrite imap_app. simpl. by rewrite Nat.add_0_r. Qed.

Lemma replay_outpoints l : dense_coins l -> NoDup (map outpoint l) ->
  fold_left (fun m (p : Z * SparkPoolCoin) => <[outpoint p.2 := p.1]> m) (indexed 0 l) ∅ = outpoint_map l.
Proof.
  induction l as [|a l IH] using rev_ind; intros D N; [done|].
  rewrite map_app in N. apply list.NoDup_app in N as (N & Hn & _).
  rewrite indexed_snoc, fold_left_app. simpl. rewrite IH; [| |done].
  - rewrite outpoint_map_snoc; [|intros Hin; apply (Hn _ Hin); left].
    by rewrite (D (length l) a) by (by rewrite lookup_app_r, Nat.sub_diag).
  - intros i c Hi. apply (D i). by apply lookup_app_l_Some.
Qed.

Lemma tree_clear_healthy t : refused t = ∅ -> tree_clear t = Some (mkTree ∅ ∅).
Proof.
  intros Ht. unfold tree_clear, tree_iter. rewrite remove_halting_healthy, remove_logged_healthy by done.
  do 2 f_equal. apply map_eq. intros k. rewrite fold_delete_lookup, lookup_empty. case_decide as Hk; [done|].
  destruct (rows t !! k) as [v|] eqn:E; [|done]. destruct Hk. apply list_elem_of_fmap. exists (k, v).
  split; [done|]. by apply elem_of_map_to_list.
Qed.

Lemma pool_open_rep j s t1 t2 t3 :
  pool_rep j s -> pool_persistence s = Some (mkPoolPersistence t1 t2 t3) ->
  exists s', pool_open t1 t2 t3 = Ok s' /\ pool_rep (mkJournal [] (now j)) s'.
Proof.
  intros [O K X S P M1 M2 V D L T W] Ht. rewrite Ht in D. simpl in D. destruct D as ([Dr Dd] & [Er Ed] & Fr & Fd).
  unfold pool_open. rewrite (load_indexed_rows _ _ Dd) by apply L. simpl.
  rewrite (load_tags_rows _ _ _ Ed) by done. simpl. eexists. split; [done|].
  assert (Hc : map (fun p : Z * SparkPoolCoin =>
      mkPoolCoin (outpoint p.2) (coin p.2) (serial_context p.2) (pheight p.2) p.1) (indexed 0 (c_coins (now j)))
    = c_coins (now j)).
  { apply list_eq. intros i. unfold indexed. rewrite list_lookup_fmap, list_lookup_imap.
    destruct (c_coins (now j) !! i) as [c|] eqn:E; simpl; [|done]. f_equal.
    pose proof (ck_dense _ L _ _ E) as Hi. destruct c. simpl in *. by rewrite Hi. }
  rewrite Hc. constructor; simpl; try done.
  - split; simpl; [apply linked_nil|lia].
  - apply replay_outpoints; apply L.
  - split; [apply W|constructor].
Qed.

Lemma empty_rep p :
  from_option (fun p => coins_cf p = mkTree ∅ ∅ /\ tags_cf p = mkTree ∅ ∅ /\ meta_cf p = mkTree ∅ ∅) True p ->
  pool_rep (mkJournal [] (mkContents [] ∅ 0)) (mkPool [] ∅ ∅ [] None None 0 p).
Proof.
  intros Hp. constructor; simpl; try done.
  - split; simpl; [apply linked_nil|lia].
  - destruct p as [[t1 t2 t3]|]; simpl in *; [|done]. destruct Hp as (-> & -> & ->).
    split; [split; done|]. split; [|done]. split; [done|]. unfold tag_rows. simpl. by rewrite fmap_empty.
  - split; [split; [constructor|done]|by intros i c|constructor].
Qed.

(** A clear leaves an empty pool, in memory and on disk. *)
Lemma pool_clear_rep j s : pool_rep j s ->
  (pool_clear s).2 = true /\ pool_rep (mkJournal [] (mkContents [] ∅ 0)) (pool_clear s).1.
Proof.
  intros I. pose proof (pr_disk _ _ I) as D. unfold pool_clear.
  destruct (pool_persistence s) as [[t1 t2 t3]|]; simpl in *; [|split; [done|by apply empty_rep]].
  destruct D as ([R1 _] & [R2 _] & R3 & _). rewrite !tree_clear_healthy by done.
  split; [done|]. by apply empty_rep.
Qed.

Lemma pool_new_rep : pool_rep (mkJournal [] (mkContents [] ∅ 0)) pool_new.
Proof. by apply empty_rep. Qed.
End Pool.
End Phase2Pool.
