(* ===== verification/Phase2Chain.v ===== *)
(** * The Phase-2 stores under the chain (src/src/chain.rs, src/src/storage/phase2.rs)

    The stores the chain drives together: a block is a checkpoint of every store followed
    by the block's writes, a disconnected block is a rewind of every store, a restart
    opens every store from its column families.  The states reached this way keep the
    stores in lock-step, and a reorganisation within the depth of the stacks restores
    every store exactly, on disk too. *)

From Stdlib Require Import String.
From stdpp Require Import strings gmap sorting.
From S2P Require Import Prelude Types Security Phase2 Phase2Inv Phase2Pool.

Module Phase2Chain.
Import Phase2 Phase2Inv Phase2Pool.
#[local] Opaque be_bytes Types.le_bytes MAX_CHECKPOINTS.

Section Chain.
Context `{Blake3} `{!Borsh MwKernel} `{!Borsh SparkCoinEntry} `{!Borsh NoteCommitmentEntry} `{!Borsh SparkPoolCoin}.
Context {BT : Type} `{BridgeTreeLaws BT} `{EmptyRoot}.

Abbreviation stores := (chain_stores (BT := BT)).

(** ** Writes *)

(** The writes a block makes, one constructor per method of a store. *)
Inductive store_op :=
| AppendKernel (k : MwKernel)
| AddCoin (e : SparkCoinEntry)
| MarkSerial (serial : bytes) (h : Z)
| AppendNote (e : NoteCommitmentEntry)
| MarkNullifier (nf : bytes) (h : Z)
| PoolAddCoin (op c ctx : bytes) (h : Z)
| PoolMarkTag (tag : bytes) (h : Z)
| PoolBalance (value_balance : Z).

(** A write to one store; nothing where the store is not initialised. *)
Definition on_store {S} (f : S -> option S) (o : option S) : option (option S) :=
  match o with
  | None => Some None
  | Some s => match f s with Some s' => Some (Some s') | None => None end
  end.

Definition drop_result {S R} (o : option (S * R)) : option S := fst <$> o.

Definition set_shielded (c : stores) (o : option (ShieldedStore (BT := BT))) : stores :=
  mkStores o (spark_store c) (kernel_store c) (spark_pool_store c).
Definition set_spark (c : stores) (o : option SparkStore) : stores :=
  mkStores (shielded_store c) o (kernel_store c) (spark_pool_store c).
Definition set_kernel (c : stores) (o : option KernelStore) : stores :=
  mkStores (shielded_store c) (spark_store c) o (spark_pool_store c).
Definition set_pool (c : stores) (o : option SparkPoolStore) : stores :=
  mkStores (shielded_store c) (spark_store c) (kernel_store c) o.

Definition run_op (op : store_op) (c : stores) : option stores :=
  match op with
  | AppendKernel k => set_kernel c <$> on_store (kernel_append k) (kernel_store c)
  | AddCoin e => set_spark c <$> on_store (spark_add_coin e) (spark_store c)
  | MarkSerial serial h => set_spark c <$> on_store (spark_mark_serial_spent serial h) (spark_store c)
  | AppendNote e => set_shielded c <$> on_store (fun s => drop_result (append_commitment e s)) (shielded_store c)
  | MarkNullifier nf h =>
      set_shielded c <$> on_store (fun s => drop_result (mark_nullifier_spent nf h s)) (shielded_store c)
  | PoolAddCoin op x ctx h =>
      set_pool c <$> on_store (fun s => drop_result (pool_add_coin op x ctx h s)) (spark_pool_store c)
  | PoolMarkTag tag h =>
      set_pool c <$> on_store (fun s => drop_result (mark_tag_spent tag h s)) (spark_pool_store c)
  | PoolBalance vb =>
      set_pool c <$> on_store (fun s => drop_result (apply_value_balance vb s)) (spark_pool_store c)
  end.

Definition when {S} (P : S -> Prop) (o : option S) : Prop := from_option P True o.

(** What a write of the block at [tip] satisfies: values of their types, tags dated by
    the block, room in the store, and a Spark coin that is the next one, a Spark serial
    that is not yet spent. *)
Definition op_ok (tip : Z) (op : store_op) (c : stores) : Prop :=
  match op with
  | AppendKernel k => well_typed k /\ when (fun s => Z.of_nat (length (kernels s)) < u64_max) (kernel_store c)
  | AddCoin e =>
      well_typed e /\ when (fun s => coin_id e = Z.of_nat (length (spark_coins s))
                                     /\ Z.of_nat (length (spark_coins s)) < u64_max) (spark_store c)
  | MarkSerial serial h =>
      length serial = 32%nat /\ h = tip /\ when (fun s => spent_serials s !! serial = None) (spark_store c)
  | AppendNote e =>
      well_typed e /\ when (fun s => Z.of_nat (tree_size s) < 2 ^ SHIELDED_TREE_DEPTH) (shielded_store c)
  | MarkNullifier nf h => length nf = 32%nat /\ h = tip
  | PoolAddCoin op x ctx h => h = tip /\ when (fun s => Z.of_nat (coin_count s) < u64_max) (spark_pool_store c)
  | PoolMarkTag tag h => h = tip
  | PoolBalance vb => when (fun s => pool_value s - vb <= i128_max) (spark_pool_store c)
  end.

Inductive ops_run (tip : Z) : list store_op -> stores -> stores -> Prop :=
| ops_nil c : ops_run tip [] c c
| ops_cons op ops c c' c'' :
    op_ok tip op c -> run_op op c = Some c' -> ops_run tip ops c' c'' -> ops_run tip (op :: ops) c c''.

Fixpoint run_ops (ops : list store_op) (c : stores) : option stores :=
  match ops with
  | [] => Some c
  | op :: ops' => match run_op op c with Some c' => run_ops ops' c' | None => None end
  end.

Fixpoint ops_ok (tip : Z) (ops : list store_op) (c : stores) : Prop :=
  match ops with
  | [] => True
  | op :: ops' => op_ok tip op c /\ match run_op op c with Some c' => ops_ok tip ops' c' | None => False end
  end.

Lemma ops_run_exec tip ops c c' : ops_ok tip ops c -> run_ops ops c = Some c' -> ops_run tip ops c c'.
Proof.
  revert c. induction ops as [|op ops IH]; intros c; cbn [ops_ok run_ops]; [intros _ [= ->]; constructor|].
  intros [Hop Hk] E. destruct (run_op op c) as [c1|] eqn:E1; [|done]. econstructor; [done|done|by apply IH].
Qed.

(** ** Blocks and restarts *)

Inductive blocks_run : Z -> stores -> list (Z * list store_op) -> Z -> stores -> Prop :=
| blocks_nil tip c : blocks_run tip c [] tip c
| blocks_cons tip c h ops c1 bs tip' c' :
    tip < h -> fits u64_max h ->
    ops_run h ops (checkpoint_phase2_stores h c) c1 ->
    blocks_run h c1 bs tip' c' ->
    blocks_run tip c ((h, ops) :: bs) tip' c'.

Fixpoint rewind_blocks (n : nat) (c : stores) : option stores :=
  match n with
  | O => Some c
  | Datatypes.S n' =>
      match rewind_phase2_stores c with
      | Some c' => rewind_blocks n' c'
      | None => None
      end
  end.

(** Every store opened from the column families of the previous run; a store kept in
    memory only starts afresh. *)
Definition reopen_kernel (s : KernelStore) : result LoadError KernelStore :=
  match kernel_persistence s with Some t => kernel_open t | None => Ok kernel_new end.
Definition reopen_spark (s : SparkStore) : result LoadError SparkStore :=
  match spark_persistence s with Some (t1, t2) => spark_open t1 t2 | None => Ok spark_new end.
Definition reopen_shielded (s : ShieldedStore (BT := BT)) : result LoadError (ShieldedStore (BT := BT)) :=
  match shielded_persistence s with Some (t1, t2) => shielded_open t1 t2 | None => Ok shielded_new end.
Definition reopen_pool (s : SparkPoolStore) : result LoadError SparkPoolStore :=
  match pool_persistence s with
  | Some p => pool_open (coins_cf p) (tags_cf p) (meta_cf p) | None => Ok pool_new end.

Definition on_present {S} (f : S -> result LoadError S) (o : option S) : result LoadError (option S) :=
  match o with None => Ok None | Some s => rmap Some (f s) end.

Definition restart (c : stores) : result LoadError stores :=
  let? a := on_present reopen_shielded (shielded_store c) in
  let? b := on_present reopen_spark (spark_store c) in
  let? k := on_present reopen_kernel (kernel_store c) in
  let? p := on_present reopen_pool (spark_pool_store c) in
  Ok (mkStores a b k p).

(** The block that the newest checkpoint guards. *)
Definition newest (c : stores) : option Z :=
  match shielded_store c, spark_store c, kernel_store c, spark_pool_store c with
  | Some s, _, _, _ => (fun p => hc_height p.2) <$> pop (shielded_checkpoints s)
  | None, Some s, _, _ => (fun p => sc_height p.2) <$> pop (spark_checkpoints s)
  | None, None, Some s, _ => (fun p => kc_height p.2) <$> pop (kernel_checkpoints s)
  | None, None, None, Some s => (fun p => pc_height p.2) <$> pop (pool_checkpoints s)
  | None, None, None, None => None
  end.

(** Empty stores, in memory or over empty column families. *)
Definition empty_tree : Tree := mkTree ∅ ∅.
Definition kernel_empty (db : bool) : KernelStore :=
  mkKernelStore [] (kernel_compute_root []) [] (if db then Some empty_tree else None).
Definition spark_empty (db : bool) : SparkStore :=
  mkSparkStore [] ∅ (spark_compute_root []) [] (if db then Some (empty_tree, empty_tree) else None).
Definition shielded_empty (db : bool) : ShieldedStore (BT := BT) :=
  mkShieldedStore (bt_new MAX_CHECKPOINTS) ∅ ∅ [] (if db then Some (empty_tree, empty_tree) else None).
Definition pool_empty (db : bool) : SparkPoolStore :=
  mkPool [] ∅ ∅ [] None None 0
    (if db then Some (mkPoolPersistence empty_tree empty_tree empty_tree) else None).

(** The states the stores reach over column families that accept every write: a block is
    connected above the tip, a block that has a checkpoint is disconnected (which moves the
    tip below it), and the node is started again.  A rewind without a checkpoint changes
    nothing and leaves the tip where it was; a reorganisation that goes on from there with
    blocks below that tip, which the code attempts when it reaches below a restart, is not
    a step. *)
Inductive reachable : Z -> stores -> Prop :=
| reach_new a b k p :
    reachable 0 (mkStores (shielded_empty <$> a) (spark_empty <$> b) (kernel_empty <$> k) (pool_empty <$> p))
| reach_blocks tip c bs tip' c' :
    reachable tip c -> blocks_run tip c bs tip' c' -> reachable tip' c'
| reach_rewind tip c c' :
    reachable tip c -> rewind_phase2_stores c = Some c' ->
    reachable (from_option (fun h => h - 1) tip (newest c)) c'
| reach_restart tip c c' : reachable tip c -> restart c = Ok c' -> reachable tip c'.

(** ** The invariant *)

Record chain_journal := mkJournals {
  jn : journal (list NoteCommitmentEntry * gmap bytes Z);
  js : journal (list SparkCoinEntry * gmap bytes Z);
  jk : journal (list MwKernel);
  jp : journal pool_contents }.

Definition tags_upto (tip : Z) (tags : gmap bytes Z) : Prop := map_Forall (fun _ x => x <= tip) tags.

(** The journal of one store at [tip], with the checkpoint heights all stores share. *)
Definition store_at {S C} `{Journaled S C} (upto : Z -> C -> Prop) (heights : list Z) (tip : Z)
    (j : journal C) (o : option S) : Prop :=
  map fst (snapshots j) = heights /\ when (fun s => rep j s /\ upto tip (now j)) o.

Definition pool_upto (tip : Z) (x : pool_contents) : Prop :=
  tags_upto tip (c_tags x) /\ Forall (fun c => pheight c <= tip) (c_coins x).

Record inv (heights : list Z) (tip : Z) (J : chain_journal) (c : stores) : Prop := {
  inv_heights : Forall (fun h => h <= tip) heights;
  inv_sorted : StronglySorted Z.lt heights;
  inv_shielded : store_at (fun t x => tags_upto t x.2) heights tip (jn J) (shielded_store c);
  inv_spark : store_at (fun t x => tags_upto t x.2) heights tip (js J) (spark_store c);
  inv_kernel : store_at (fun _ _ => True) heights tip (jk J) (kernel_store c);
  inv_pool : store_at pool_upto heights tip (jp J) (spark_pool_store c) }.

Definition map_journal (f : forall C, journal C -> journal C) (J : chain_journal) : chain_journal :=
  mkJournals (f _ (jn J)) (f _ (js J)) (f _ (jk J)) (f _ (jp J)).

(** *** Checkpoints *)

Lemma snapshots_below {C} heights tip h (j : journal C) :
  map fst (snapshots j) = heights -> Forall (fun x => x <= tip) heights -> tip < h ->
  Forall (fun p : Z * C => p.1 < h) (snapshots j).
Proof.
  intros <- F Hh. rewrite list.Forall_forall in F. apply list.Forall_forall.
  intros p Hp. specialize (F p.1). simpl in F. enough (p.1 <= tip) by lia. apply F, list_elem_of_fmap. eauto.
Qed.

Lemma store_at_checkpoint {S C} `{Journaled S C} upto heights tip h (j : journal C) (o : option S) :
  store_at upto heights tip j o -> Forall (fun x => x <= tip) heights -> tip < h ->
  (forall x, upto tip x -> ext h x x /\ upto h x) ->
  store_at upto (push_capped MAX_CHECKPOINTS heights h) h (journal_checkpoint h j) (checkpoint_at_height h <$> o).
Proof.
  intros [Hh Ho] F Hlt Hx. split; [simpl; by rewrite push_capped_fmap, Hh|].
  destruct o as [s|]; simpl in *; [|done]. destruct Ho as [R U]. destruct (Hx _ U) as [E U']. split; [|done].
  apply rep_checkpoint; [done|]. split; [by apply (snapshots_below heights tip)|done].
Qed.

Lemma tags_upto_below tip h tags : tags_upto tip tags -> tip < h -> map_Forall (fun _ x => x < h) tags.
Proof. intros T Hh k x Hx. specialize (T k x Hx). simpl in T. lia. Qed.

Lemma tags_upto_mono tip h tags : tags_upto tip tags -> tip <= h -> tags_upto h tags.
Proof. intros T Hh k x Hx. specialize (T k x Hx). simpl in T. lia. Qed.

Lemma heights_push heights tip h : Forall (fun x => x <= tip) heights -> StronglySorted Z.lt heights -> tip < h ->
  Forall (fun x => x <= h) (push_capped MAX_CHECKPOINTS heights h)
  /\ StronglySorted Z.lt (push_capped MAX_CHECKPOINTS heights h).
Proof.
  intros F S Hh. split.
  - apply list.Forall_forall. intros x Hx. rewrite list.Forall_forall in F.
    apply push_capped_sublist in Hx as [Hx| ->]; [|lia]. specialize (F _ Hx). simpl in F. lia.
  - assert (S' : StronglySorted Z.lt (heights ++ [h])).
    { apply StronglySorted_app. split; [|split; [done|repeat constructor]]. intros x y Hx Hy.
      apply list_elem_of_singleton in Hy as ->. rewrite list.Forall_forall in F. specialize (F _ Hx). simpl in F. lia. }
    unfold push_capped. destruct (Nat.ltb _ _); [|done]. destruct (heights ++ [h]) as [|x l]; [done|].
    by apply StronglySorted_cons in S' as [_ ?].
Qed.

Lemma checkpoint_inv heights tip J c h : inv heights tip J c -> tip < h ->
  inv (push_capped MAX_CHECKPOINTS heights h) h (map_journal (fun C => journal_checkpoint h) J)
    (checkpoint_phase2_stores h c).
Proof.
  intros [F S In Is Ik Ip] Hh. destruct (heights_push _ _ _ F S Hh) as [F' S'].
  constructor; [done|done| | | |]; unfold checkpoint_phase2_stores, map_journal;
    cbn [jn js jk jp shielded_store spark_store kernel_store spark_pool_store];
    (eapply store_at_checkpoint; [done|done|done|]).
  - intros x U. split; [apply coins_ext_refl; by apply (tags_upto_below tip)|apply (tags_upto_mono tip); [done|lia]].
  - intros x U. split; [apply coins_ext_refl; by apply (tags_upto_below tip)|apply (tags_upto_mono tip); [done|lia]].
  - intros x _. split; [by unfold kernel_ext|done].
  - intros x [U V]. split; [apply pool_ext_refl; [by apply (tags_upto_below tip)|]|split; [apply (tags_upto_mono tip); [done|lia]|]];
      (eapply list.Forall_impl; [exact V|]); simpl; lia.
Qed.

(** *** Writes *)

Definition same_snapshots (J J' : chain_journal) : Prop :=
  snapshots (jn J') = snapshots (jn J) /\ snapshots (js J') = snapshots (js J)
  /\ snapshots (jk J') = snapshots (jk J) /\ snapshots (jp J') = snapshots (jp J).

Lemma same_snapshots_refl J : same_snapshots J J.
Proof. done. Qed.

Lemma same_snapshots_trans J1 J2 J3 : same_snapshots J1 J2 -> same_snapshots J2 J3 -> same_snapshots J1 J3.
Proof. unfold same_snapshots. intros (-> & -> & -> & ->) (-> & -> & -> & ->). done. Qed.

Lemma store_at_op {S C} `{Journaled S C} upto heights tip (j : journal C) (o : option S) (f : S -> option S) :
  store_at upto heights tip j o ->
  (forall s, o = Some s -> rep j s -> upto tip (now j) ->
     exists s' x, f s = Some s' /\ rep (mkJournal (snapshots j) x) s' /\ upto tip x) ->
  exists o' x, on_store f o = Some o' /\ store_at upto heights tip (mkJournal (snapshots j) x) o'.
Proof.
  intros [Hh Ho] Hf. destruct o as [s|]; simpl in *.
  - destruct Ho as [R U]. destruct (Hf s eq_refl R U) as (s' & x & -> & R' & U').
    exists (Some s'), x. split; [done|]. by split.
  - exists None, (now j). split; [done|]. by split.
Qed.

Lemma store_at_dated {S C} `{Journaled S C} upto heights tip (j : journal C) (o : option S) :
  store_at upto heights tip j o -> Forall (fun h => h <= tip) heights -> dated tip j.
Proof.
  intros [<- _] F. unfold dated. rewrite list.Forall_forall in F. apply list.Forall_forall. intros p Hp.
  apply (F p.1), list_elem_of_fmap. eauto.
Qed.

Lemma tags_upto_insert tip tags k : tags_upto tip tags -> tags_upto tip (<[k := tip]> tags).
Proof. intros T. apply map_Forall_insert_2; [lia|done]. Qed.

(** Replacing one store and its journal. *)
Lemma frame_shielded heights tip J c o x :
  inv heights tip J c -> store_at (fun t x => tags_upto t x.2) heights tip (mkJournal (snapshots (jn J)) x) o ->
  exists J', inv heights tip J' (set_shielded c o) /\ same_snapshots J J'.
Proof.
  intros [F S In Is Ik Ip] Hx. exists (mkJournals (mkJournal (snapshots (jn J)) x) (js J) (jk J) (jp J)).
  split; [by constructor|done].
Qed.

Lemma frame_spark heights tip J c o x :
  inv heights tip J c -> store_at (fun t x => tags_upto t x.2) heights tip (mkJournal (snapshots (js J)) x) o ->
  exists J', inv heights tip J' (set_spark c o) /\ same_snapshots J J'.
Proof.
  intros [F S In Is Ik Ip] Hx. exists (mkJournals (jn J) (mkJournal (snapshots (js J)) x) (jk J) (jp J)).
  split; [by constructor|done].
Qed.

Lemma frame_kernel heights tip J c o x :
  inv heights tip J c -> store_at (fun _ _ => True) heights tip (mkJournal (snapshots (jk J)) x) o ->
  exists J', inv heights tip J' (set_kernel c o) /\ same_snapshots J J'.
Proof.
  intros [F S In Is Ik Ip] Hx. exists (mkJournals (jn J) (js J) (mkJournal (snapshots (jk J)) x) (jp J)).
  split; [by constructor|done].
Qed.

Lemma frame_pool heights tip J c o x :
  inv heights tip J c -> store_at pool_upto heights tip (mkJournal (snapshots (jp J)) x) o ->
  exists J', inv heights tip J' (set_pool c o) /\ same_snapshots J J'.
Proof.
  intros [F S In Is Ik Ip] Hx. exists (mkJournals (jn J) (js J) (jk J) (mkJournal (snapshots (jp J)) x)).
  split; [by constructor|done].
Qed.

(** Close a write: the store it replaces, then the frame. *)
Ltac committed frame I Ho Hx :=
  rewrite Ho; destruct (frame _ _ _ _ _ _ I Hx) as (J' & HJ & HS); eexists _, J'; split; [done|]; by split.

(** A write that satisfies [op_ok] never halts the node, and keeps the invariant. *)
Definition op_kept heights tip J c op : Prop :=
  exists c' J', run_op op c = Some c' /\ inv heights tip J' c' /\ same_snapshots J J'.

Lemma kernel_op_inv heights tip J c k :
  inv heights tip J c -> op_ok tip (AppendKernel k) c -> op_kept heights tip J c (AppendKernel k).
Proof.
  intros I [W L]. unfold op_kept. cbn [run_op].
  destruct (store_at_op _ _ _ _ _ (kernel_append k) (inv_kernel _ _ _ _ I)) as (o & x & Ho & Hx).
  { intros s Es R _. rewrite Es in L. simpl in L. rewrite (kr_kernels _ _ R) in L.
    destruct (kernel_append_rep k _ s R W L) as (s' & E & R'). eauto. }
  committed frame_kernel I Ho Hx.
Qed.

Lemma spark_op_inv heights tip J c op :
  inv heights tip J c -> fits u64_max tip -> op_ok tip op c ->
  match op with AddCoin _ | MarkSerial _ _ => op_kept heights tip J c op | _ => True end.
Proof.
  intros I Ht Hop. pose proof (store_at_dated _ _ _ _ _ (inv_spark _ _ _ _ I) (inv_heights _ _ _ _ I)) as D.
  unfold op_kept. destruct op as [|e|serial h| | | | |]; try done; cbn [run_op]; simpl in Hop.
  - destruct Hop as [W L].
    destruct (store_at_op _ _ _ _ _ (spark_add_coin e) (inv_spark _ _ _ _ I)) as (o & x & Ho & Hx).
    { intros s Es R U. rewrite Es in L. simpl in L. rewrite (sr_coins _ _ R) in L. destruct L as [L1 L2].
      destruct (spark_add_coin_rep e _ s R W L1 L2) as (s' & E & R'). eexists s', _. split; [done|]. by split. }
    committed frame_spark I Ho Hx.
  - destruct Hop as (Hlen & -> & L).
    destruct (store_at_op _ _ _ _ _ (spark_mark_serial_spent serial tip) (inv_spark _ _ _ _ I)) as (o & x & Ho & Hx).
    { intros s Es R U. rewrite Es in L. simpl in L. rewrite (sr_serials _ _ R) in L.
      destruct (spark_mark_rep serial tip _ s R D L Hlen Ht) as (s' & E & R'). eexists s', _. split; [done|].
      split; [done|]. by apply tags_upto_insert. }
    committed frame_spark I Ho Hx.
Qed.

Lemma shielded_op_inv heights tip J c op :
  inv heights tip J c -> fits u64_max tip -> op_ok tip op c ->
  match op with AppendNote _ | MarkNullifier _ _ => op_kept heights tip J c op | _ => True end.
Proof.
  intros I Ht Hop. pose proof (store_at_dated _ _ _ _ _ (inv_shielded _ _ _ _ I) (inv_heights _ _ _ _ I)) as D.
  unfold op_kept. destruct op as [| | |e|nf h| | |]; try done; cbn [run_op]; simpl in Hop.
  - destruct Hop as [W L].
    destruct (store_at_op _ _ _ _ _ (fun s => drop_result (append_commitment e s)) (inv_shielded _ _ _ _ I))
      as (o & x & Ho & Hx).
    { intros s Es R U. rewrite Es in L. simpl in L. unfold tree_size in L.
      rewrite (hr_entries _ _ R), index_map_size in L.
      destruct (append_commitment_rep e _ s R W L) as (s' & E & R'). eexists s', _. unfold drop_result. rewrite E.
      split; [done|]. by split. }
    committed frame_shielded I Ho Hx.
  - destruct Hop as [Hlen ->].
    destruct (store_at_op _ _ _ _ _ (fun s => drop_result (mark_nullifier_spent nf tip s)) (inv_shielded _ _ _ _ I))
      as (o & x & Ho & Hx).
    { intros s Es R U. destruct (mark_nullifier_rep nf tip _ s R D Hlen Ht) as (s' & E & R'). eexists s', _.
      unfold drop_result. rewrite E. split; [done|]. split; [done|]. simpl.
      case_decide; [done|by apply tags_upto_insert]. }
    committed frame_shielded I Ho Hx.
Qed.

Lemma pool_op_inv heights tip J c op :
  inv heights tip J c -> fits u64_max tip -> op_ok tip op c ->
  match op with PoolAddCoin _ _ _ _ | PoolMarkTag _ _ | PoolBalance _ => op_kept heights tip J c op | _ => True end.
Proof.
  intros I Ht Hop. pose proof (store_at_dated _ _ _ _ _ (inv_pool _ _ _ _ I) (inv_heights _ _ _ _ I)) as D.
  unfold op_kept. destruct op as [| | | | |op x ctx h|tag h|vb]; try done; cbn [run_op]; simpl in Hop.
  - destruct Hop as [-> L].
    destruct (store_at_op _ _ _ _ _ (fun s => drop_result (pool_add_coin op x ctx tip s)) (inv_pool _ _ _ _ I))
      as (o & y & Ho & Hx).
    { intros s Es R U. rewrite Es in L. simpl in L. unfold coin_count in L. rewrite (pr_coins _ _ R) in L.
      destruct (pool_add_coin_rep op x ctx tip _ s R Ht L) as (s' & E & R'). eexists s', _.
      unfold drop_result. rewrite E. split; [done|]. split; [done|]. unfold with_coin. case_decide; [done|].
      destruct U as [U1 U2]. split; [done|]. apply list.Forall_app. split; [done|]. by repeat constructor. }
    committed frame_pool I Ho Hx.
  - subst h.
    destruct (store_at_op _ _ _ _ _ (fun s => drop_result (mark_tag_spent tag tip s)) (inv_pool _ _ _ _ I))
      as (o & y & Ho & Hx).
    { intros s Es R [U1 U2]. destruct (mark_tag_rep tag tip _ s R D Ht) as (s' & E & R'). eexists s', _.
      unfold drop_result. rewrite E. split; [done|]. split; [done|]. split; [|done]. simpl.
      case_decide; [done|by apply tags_upto_insert]. }
    committed frame_pool I Ho Hx.
  - destruct (store_at_op _ _ _ _ _ (fun s => drop_result (apply_value_balance vb s)) (inv_pool _ _ _ _ I))
      as (o & y & Ho & Hx).
    { intros s Es R U. rewrite Es in Hop. simpl in Hop. rewrite (pr_value _ _ R) in Hop.
      destruct (apply_value_balance_rep vb _ s R Hop) as (s' & E & R'). eexists s', _.
      unfold drop_result. rewrite E. split; [done|]. by split. }
    committed frame_pool I Ho Hx.
Qed.

Lemma op_inv heights tip J c op :
  inv heights tip J c -> fits u64_max tip -> op_ok tip op c -> op_kept heights tip J c op.
Proof.
  intros I Ht Hop. destruct op; first
    [by apply kernel_op_inv | apply (spark_op_inv _ _ _ _ _ I Ht Hop)
    | apply (shielded_op_inv _ _ _ _ _ I Ht Hop) | apply (pool_op_inv _ _ _ _ _ I Ht Hop)].
Qed.

Lemma write_ops_inv heights tip J c ops c' :
  inv heights tip J c -> fits u64_max tip -> ops_run tip ops c c' ->
  exists J', inv heights tip J' c' /\ same_snapshots J J'.
Proof.
  intros I Ht R. revert J I. induction R as [c|op ops c c1 c' Hop Hrun R IH]; intros J I; [eauto using same_snapshots_refl|].
  destruct (op_inv _ _ _ _ _ I Ht Hop) as (c2 & J2 & E & I2 & S2). rewrite E in Hrun. injection Hrun as ->.
  destruct (IH J2 I2) as (J' & I' & S'). exists J'. split; [done|]. by apply (same_snapshots_trans _ J2).
Qed.

(** *** Rewinds *)

(** The checkpoint heights and the tip after one block is disconnected. *)
Definition rewound_heights (heights : list Z) : list Z := from_option fst heights (pop heights).
Definition rewound_tip (heights : list Z) (tip : Z) : Z := from_option (fun p => p.2 - 1) tip (pop heights).

Lemma journal_rewind_heights {C} (j : journal C) :
  map fst (snapshots (journal_rewind j).1) = rewound_heights (map fst (snapshots j)).
Proof.
  unfold journal_rewind, rewound_heights. rewrite pop_fmap.
  destruct (pop (snapshots j)) as [[rest [h x]]|]; done.
Qed.

Lemma store_at_rewind {S C} `{Journaled S C} upto heights tip (j : journal C) (o : option S) :
  store_at upto heights tip j o ->
  (forall h x y, ext h x y -> upto (h - 1) x) ->
  exists o', rewind_in_place o = Some o'
    /\ store_at upto (rewound_heights heights) (rewound_tip heights tip) (journal_rewind j).1 o'.
Proof.
  intros [Hh Ho] Hext. destruct o as [s|]; simpl in *.
  - destruct Ho as [R U]. destruct (rep_rewind j s R) as (s' & -> & R'). exists (Some s'). split; [done|].
    split; [by rewrite journal_rewind_heights, Hh|]. split; [done|]. unfold rewound_tip.
    rewrite <- Hh, pop_fmap. unfold journal_rewind. destruct (pop (snapshots j)) as [[rest [h x]]|] eqn:E; simpl; [|done].
    apply (Hext h x (now j)). apply (journal_ok_last _ j rest); [by apply (rep_ok _ s)|done].
  - exists None. split; [done|]. split; [by rewrite journal_rewind_heights, Hh|done].
Qed.

Lemma tags_below_upto h tags tags' : tags_below h tags' = tags -> tags_upto (h - 1) tags.
Proof. intros <- k x Hx. apply map_lookup_filter_Some in Hx as [_ Hx]. simpl in *. lia. Qed.

Lemma pool_ext_upto h x y : pool_ext h x y -> pool_upto (h - 1) x.
Proof.
  intros (_ & T & F). split; [by apply (tags_below_upto _ _ (c_tags y))|].
  eapply list.Forall_impl; [exact F|]. simpl. lia.
Qed.

Lemma rewound_ok heights tip : Forall (fun h => h <= tip) heights -> StronglySorted Z.lt heights ->
  Forall (fun h => h <= rewound_tip heights tip) (rewound_heights heights)
  /\ StronglySorted Z.lt (rewound_heights heights).
Proof.
  intros F S. unfold rewound_tip, rewound_heights.
  destruct (pop heights) as [[rest h]|] eqn:E; simpl; [|done]. apply pop_Some in E. subst heights.
  apply StronglySorted_app in S as (Hs & S & _). split; [|done]. apply list.Forall_forall. intros x Hx.
  specialize (Hs x h Hx). rewrite list_elem_of_singleton in Hs. specialize (Hs eq_refl). lia.
Qed.

Lemma rewind_inv heights tip J c : inv heights tip J c ->
  exists c', rewind_phase2_stores c = Some c'
    /\ inv (rewound_heights heights) (rewound_tip heights tip) (map_journal (fun C j => (journal_rewind j).1) J) c'.
Proof.
  intros [F S In Is Ik Ip]. destruct (rewound_ok _ _ F S) as [F' S'].
  destruct (store_at_rewind _ _ _ _ _ In) as (a & Ea & Ha); [intros h x y [_ T]; by apply (tags_below_upto _ _ y.2)|].
  destruct (store_at_rewind _ _ _ _ _ Is) as (b & Eb & Hb); [intros h x y [_ T]; by apply (tags_below_upto _ _ y.2)|].
  destruct (store_at_rewind _ _ _ _ _ Ik) as (k & Ek & Hk); [done|].
  destruct (store_at_rewind _ _ _ _ _ Ip) as (q & Eq & Hq); [exact pool_ext_upto|].
  unfold rewind_phase2_stores. rewrite Ea, Eb, Ek, Eq. eexists. split; [done|]. by constructor.
Qed.

(** *** Blocks *)

Lemma block_inv heights tip J c h ops c' :
  inv heights tip J c -> tip < h -> fits u64_max h -> ops_run h ops (checkpoint_phase2_stores h c) c' ->
  exists J', inv (push_capped MAX_CHECKPOINTS heights h) h J' c'
    /\ same_snapshots (map_journal (fun C => journal_checkpoint h) J) J'.
Proof. intros I Hh Hf R. apply (write_ops_inv _ _ _ _ _ _ (checkpoint_inv _ _ _ _ _ I Hh) Hf R). Qed.

(** The journal holds, at depth [n], the contents [x]. *)
Definition since {C} (n : nat) (x : C) (j : journal C) : Prop :=
  match n with
  | O => now j = x
  | Datatypes.S m => exists pre h post, snapshots j = pre ++ (h, x) :: post /\ length post = m
  end.

Lemma since_rewind {C} n (x : C) j : since (S n) x j -> since n x (journal_rewind j).1.
Proof.
  intros (pre & h & post & E & L). unfold journal_rewind. rewrite E.
  destruct post as [|q post _] using rev_ind; simpl in L.
  - subst n. by rewrite pop_snoc.
  - rewrite length_app in L. simpl in L. destruct n as [|n]; [lia|].
    rewrite app_comm_cons, app_assoc, pop_snoc. destruct q as [h' y]. simpl. exists pre, h, post. split; [done|lia].
Qed.

Lemma since_checkpoint {C} n (x : C) h j j' :
  since n x j -> (n < MAX_CHECKPOINTS)%nat -> snapshots j' = snapshots (journal_checkpoint h j) -> since (S n) x j'.
Proof.
  intros Hs Hn E. simpl in E. unfold push_capped in E. rewrite length_app in E. simpl in E.
  destruct n as [|n]; simpl in Hs.
  - subst x. destruct (Nat.ltb_spec MAX_CHECKPOINTS (length (snapshots j) + 1)) as [Hl|Hl].
    + destruct (snapshots j) as [|p l]; [simpl in Hl; lia|]. simpl in E. exists l, h, []. done.
    + exists (snapshots j), h, []. done.
  - destruct Hs as (pre & h0 & post & Es & L). rewrite Es in E.
    destruct (Nat.ltb_spec MAX_CHECKPOINTS (length (pre ++ (h0, x) :: post) + 1)) as [Hl|Hl].
    + rewrite length_app in Hl. simpl in Hl. destruct pre as [|p pre]; [simpl in Hl; lia|]. simpl in E.
      exists pre, h0, (post ++ [(h, now j)]). split; [by rewrite E, <- app_assoc|]. rewrite length_app. simpl. lia.
    + exists pre, h0, (post ++ [(h, now j)]). split; [by rewrite E, <- app_assoc|]. rewrite length_app. simpl. lia.
Qed.

Definition since_all (n : nat) (J0 J : chain_journal) : Prop :=
  since n (now (jn J0)) (jn J) /\ since n (now (js J0)) (js J)
  /\ since n (now (jk J0)) (jk J) /\ since n (now (jp J0)) (jp J).

Lemma blocks_inv heights tip J0 J c bs tip' c' n :
  inv heights tip J c -> since_all n J0 J -> blocks_run tip c bs tip' c' ->
  (n + length bs <= MAX_CHECKPOINTS)%nat ->
  exists heights' J', inv heights' tip' J' c' /\ since_all (n + length bs) J0 J'.
Proof.
  intros I Hs R. revert heights J n I Hs.
  induction R as [tip c|tip c h ops c1 bs tip' c' Hh Hf Ro R IH]; intros heights J n I Hs Hn.
  - exists heights, J. by rewrite Nat.add_0_r.
  - destruct (block_inv _ _ _ _ _ _ _ I Hh Hf Ro) as (J1 & I1 & E1 & E2 & E3 & E4). cbn [length] in Hn |- *.
    destruct Hs as (S1 & S2 & S3 & S4).
    destruct (IH _ J1 (S n) I1) as (heights' & J' & I' & S'); [|lia|].
    + split; [|split; [|split]].
      * apply (since_checkpoint n _ h (jn J)); [done|lia|exact E1].
      * apply (since_checkpoint n _ h (js J)); [done|lia|exact E2].
      * apply (since_checkpoint n _ h (jk J)); [done|lia|exact E3].
      * apply (since_checkpoint n _ h (jp J)); [done|lia|exact E4].
    + exists heights', J'. by rewrite <- Nat.add_succ_comm.
Qed.

(** Without a bound on the number of blocks. *)
Lemma blocks_inv_any heights tip J c bs tip' c' :
  inv heights tip J c -> blocks_run tip c bs tip' c' -> exists heights' J', inv heights' tip' J' c'.
Proof.
  intros I R. revert heights J I. induction R as [tip c|tip c h ops c1 bs tip' c' Hh Hf Ro R IH]; intros; [eauto|].
  destruct (block_inv _ _ _ _ _ _ _ I Hh Hf Ro) as (J1 & I1 & _). exact (IH _ J1 I1).
Qed.

Lemma rewind_blocks_inv n heights tip J0 J c : inv heights tip J c -> since_all n J0 J ->
  exists c' heights' tip' J', rewind_blocks n c = Some c' /\ inv heights' tip' J' c' /\ since_all 0 J0 J'.
Proof.
  revert heights tip J c. induction n as [|n IH]; intros heights tip J c I Hs; [by exists c, heights, tip, J|].
  destruct (rewind_inv _ _ _ _ I) as (c1 & E & I1). cbn [rewind_blocks]. rewrite E. apply (IH _ _ _ _ I1).
  destruct Hs as (S1 & S2 & S3 & S4). repeat split; by apply since_rewind.
Qed.

(** *** Restarts *)

Lemma on_present_at {S C} `{Journaled S C} upto heights tip (j : journal C) (o : option S)
    (f : S -> result LoadError S) (Q : S -> C -> Prop) :
  store_at upto heights tip j o ->
  (forall s, rep j s -> upto tip (now j) ->
     exists s' x, f s = Ok s' /\ rep (mkJournal [] x) s' /\ upto tip x /\ Q s x) ->
  exists o' x, on_present f o = Ok o' /\ store_at upto [] tip (mkJournal [] x) o' /\ when (fun s => Q s x) o.
Proof.
  intros [Hh Ho] Hf. destruct o as [s|]; simpl in *.
  - destruct Ho as [R U]. destruct (Hf s R U) as (s' & x & -> & R' & U' & HQ).
    exists (Some s'), x. split; [done|]. by repeat split.
  - exists None, (now j). by repeat split.
Qed.

Lemma tags_upto_empty tip : tags_upto tip ∅.
Proof. intros k x Hx. by rewrite lookup_empty in Hx. Qed.

(** The contents a store keeps over a restart: those of its column families. *)
Definition kept {S C D} (disk : S -> option D) (x : C) (s : S) (y : C) : Prop := is_Some (disk s) -> y = x.

Lemma reopened_inv heights tip J c : inv heights tip J c ->
  exists c' J', restart c = Ok c' /\ inv [] tip J' c'
    /\ when (fun s => kept shielded_persistence (now (jn J)) s (now (jn J'))) (shielded_store c)
    /\ when (fun s => kept spark_persistence (now (js J)) s (now (js J'))) (spark_store c)
    /\ when (fun s => kept kernel_persistence (now (jk J)) s (now (jk J'))) (kernel_store c)
    /\ when (fun s => kept pool_persistence (now (jp J)) s (now (jp J'))) (spark_pool_store c).
Proof.
  intros [F S In Is Ik Ip]. unfold restart.
  destruct (on_present_at _ _ _ _ _ reopen_shielded (kept shielded_persistence (now (jn J))) In) as (a & xa & -> & Ha & Qa).
  { intros s R U. unfold reopen_shielded. destruct (shielded_persistence s) as [[t1 t2]|] eqn:E.
    - destruct (shielded_open_rep _ s t1 t2 R E) as (s' & -> & R'). eexists s', _. done.
    - eexists _, ([], ∅). split; [done|]. split; [apply shielded_new_rep|]. split; [apply tags_upto_empty|].
      intros Hd. rewrite E in Hd. by apply is_Some_None in Hd. }
  destruct (on_present_at _ _ _ _ _ reopen_spark (kept spark_persistence (now (js J))) Is) as (b & xb & -> & Hb & Qb).
  { intros s R U. unfold reopen_spark. destruct (spark_persistence s) as [[t1 t2]|] eqn:E.
    - destruct (spark_open_rep _ s t1 t2 R E) as (s' & -> & R'). eexists s', _. done.
    - eexists _, ([], ∅). split; [done|]. split; [apply spark_new_rep|]. split; [apply tags_upto_empty|].
      intros Hd. rewrite E in Hd. by apply is_Some_None in Hd. }
  destruct (on_present_at _ _ _ _ _ reopen_kernel (kept kernel_persistence (now (jk J))) Ik) as (k & xk & -> & Hk & Qk).
  { intros s R U. unfold reopen_kernel. destruct (kernel_persistence s) as [t|] eqn:E.
    - destruct (kernel_open_rep _ s t R E) as (s' & -> & R'). eexists s', _. done.
    - eexists _, []. split; [done|]. split; [apply kernel_new_rep|]. split; [done|].
      intros Hd. rewrite E in Hd. by apply is_Some_None in Hd. }
  destruct (on_present_at _ _ _ _ _ reopen_pool (kept pool_persistence (now (jp J))) Ip) as (q & xq & -> & Hq & Qq).
  { intros s R U. unfold reopen_pool. destruct (pool_persistence s) as [[t1 t2 t3]|] eqn:E.
    - destruct (pool_open_rep _ s t1 t2 t3 R E) as (s' & Es & R'). simpl. rewrite Es. eexists s', _. done.
    - eexists _, (mkContents [] ∅ 0). split; [done|]. split; [apply pool_new_rep|].
      split; [split; [apply tags_upto_empty|constructor]|].
      intros Hd. rewrite E in Hd. by apply is_Some_None in Hd. }
  eexists _, (mkJournals (mkJournal [] xa) (mkJournal [] xb) (mkJournal [] xk) (mkJournal [] xq)).
  split; [done|]. split; [|done]. constructor; [apply list.Forall_nil_2|constructor|done|done|done|done].
Qed.

(** *** Reachable states *)

Lemma inv_mono heights tip tip' J c : inv heights tip J c -> tip <= tip' -> inv heights tip' J c.
Proof.
  intros [F S In Is Ik Ip] Ht. constructor; [|done| | | |].
  - eapply list.Forall_impl; [exact F|]. simpl. lia.
  - destruct In as [Hh Hi]. split; [done|]. destruct (shielded_store c); simpl in *; [|done].
    split; [apply Hi|]. apply (tags_upto_mono tip); [apply Hi|done].
  - destruct Is as [Hh Hi]. split; [done|]. destruct (spark_store c); simpl in *; [|done].
    split; [apply Hi|]. apply (tags_upto_mono tip); [apply Hi|done].
  - done.
  - destruct Ip as [Hh Hi]. split; [done|]. destruct (spark_pool_store c); simpl in *; [|done].
    destruct Hi as (R & U & V). split; [done|]. split; [by apply (tags_upto_mono tip)|].
    eapply list.Forall_impl; [exact V|]. simpl. lia.
Qed.

(** The checkpoints of a store that is there carry the shared heights. *)
Lemma pop_heights {C A} (f : Z * C -> A) (g : A -> Z) (l : list (Z * C)) :
  (forall p, g (f p) = p.1) -> (fun p => g p.2) <$> pop (map f l) = snd <$> pop (map fst l).
Proof. intros Hg. rewrite !pop_fmap. destruct (pop l) as [[r p]|]; simpl; [|done]. by rewrite Hg. Qed.

Lemma newest_heights heights tip J c : inv heights tip J c ->
  newest c = snd <$> pop heights \/ newest c = None.
Proof.
  intros [F S [Hn In] [Hs Is] [Hk Ik] [Hp Ip]]. unfold newest.
  destruct (shielded_store c) as [s|]; [|destruct (spark_store c) as [s|]; [|destruct (kernel_store c) as [s|];
    [|destruct (spark_pool_store c) as [s|]; [|by right]]]]; left; simpl in *.
  - rewrite (hr_cps _ _ (proj1 In)), <- Hn. by apply pop_heights.
  - rewrite (sr_cps _ _ (proj1 Is)), <- Hs. by apply pop_heights.
  - rewrite (kr_cps _ _ (proj1 Ik)), <- Hk. by apply pop_heights.
  - rewrite (pr_cps _ _ (proj1 Ip)), <- Hp. by apply pop_heights.
Qed.

Lemma rewound_tip_le heights tip : Forall (fun h => h <= tip) heights -> rewound_tip heights tip <= tip.
Proof.
  intros F. unfold rewound_tip. destruct (pop heights) as [[rest h]|] eqn:E; simpl; [|lia].
  apply pop_Some in E. subst. apply list.Forall_app in F as [_ F]. apply list.Forall_cons in F as [F _]. simpl in F. lia.
Qed.

Lemma on_disk_empty {A} `{Borsh A} : on_disk [] empty_tree.
Proof. done. Qed.
Lemma tags_on_disk_empty : tags_on_disk ∅ empty_tree.
Proof. split; [done|]. unfold tag_rows. simpl. by rewrite fmap_empty. Qed.
#[local] Hint Resolve on_disk_empty tags_on_disk_empty linked_nil tags_upto_empty shielded_new_rep spark_new_rep
  kernel_new_rep pool_new_rep : core.

Lemma initial_inv a b k p :
  inv [] 0 (mkJournals (mkJournal [] ([], ∅)) (mkJournal [] ([], ∅)) (mkJournal [] []) (mkJournal [] (mkContents [] ∅ 0)))
    (mkStores (shielded_empty <$> a) (spark_empty <$> b) (kernel_empty <$> k) (pool_empty <$> p)).
Proof.
  constructor; [apply list.Forall_nil_2|constructor| | | |]; (split; [done|]).
  - destruct a as [[]|]; simpl; [|by split; auto|done]. split; [|apply tags_upto_empty].
    destruct shielded_new_rep as [O V E S P D L N Cp T]. by constructor; simpl; auto.
  - destruct b as [[]|]; simpl; [|by split; auto|done]. split; [|apply tags_upto_empty].
    destruct spark_new_rep as [O K S R P D L N T]. by constructor; simpl; auto.
  - destruct k as [[]|]; simpl; [|by split; auto|done]. split; [|done].
    destruct kernel_new_rep as [O K R P D L]. by constructor; simpl; auto.
  - destruct p as [[]|]; simpl; [| |done]; (split; [|split; [apply tags_upto_empty|constructor]]); by apply empty_rep.
Qed.

Lemma reachable_stores tip c : reachable tip c -> exists heights J, inv heights tip J c.
Proof.
  induction 1 as [a b k p|tip c bs tip' c' _ (heights & J & I) R|tip c c' _ (heights & J & I) R
    |tip c c' _ (heights & J & I) R].
  - eexists _, _. apply initial_inv.
  - exact (blocks_inv_any _ _ _ _ _ _ _ I R).
  - destruct (rewind_inv _ _ _ _ I) as (c1 & E & I1). rewrite E in R. injection R as ->.
    eexists _, _. destruct (newest_heights _ _ _ _ I) as [-> | ->]; simpl.
    + unfold rewound_tip in I1. by destruct (pop heights) as [[]|].
    + apply (inv_mono _ _ _ _ _ I1), rewound_tip_le, (inv_heights _ _ _ _ I).
  - destruct (reopened_inv _ _ _ _ I) as (c1 & J1 & E & I1 & _). rewrite E in R. injection R as ->. eauto.
Qed.

(** ** Lock-step *)

Lemma lockstep_of (l : list dyn_store) d : (forall s, s ∈ l -> dyn_count s = d /\ (d <= MAX_CHECKPOINTS)%nat) ->
  exists n, check_lockstep l = Ok n /\ (n <= MAX_CHECKPOINTS)%nat.
Proof.
  intros Hl. destruct l as [|x l]; simpl; [exists 0%nat; split; [done|lia]|].
  destruct (Hl x) as [-> Hd]; [left|].
  replace (forallb (fun s => Nat.eqb (dyn_count s) d) l) with true; [eauto|].
  symmetry. apply forallb_forall. intros s Hs. apply Nat.eqb_eq, Hl. right. by apply list_elem_of_In.
Qed.

Lemma dyn_of {S C} `{Journaled S C} upto heights tip (j : journal C) (o : option S) d :
  store_at upto heights tip j o -> d ∈ dyn o ->
  dyn_count d = length heights /\ (length heights <= MAX_CHECKPOINTS)%nat
  /\ (forall r, dyn_recompute_root d = Some r -> r = dyn_current_root d).
Proof.
  intros [Hh Ho] Hd. destruct o as [s|]; simpl in *; [|by apply elem_of_nil in Hd].
  apply list_elem_of_singleton in Hd as ->. destruct Ho as [R _]. unfold dyn_count, dyn_recompute_root, dyn_current_root.
  simpl. rewrite (rep_count _ _ R), <- Hh, length_map. split; [done|]. split; [apply (rep_ok _ _ R)|].
  intros r Hr. by apply (rep_recompute _ _ _ R).
Qed.

Lemma phase2_stores_of heights tip J c d : inv heights tip J c -> d ∈ phase2_stores c ->
  dyn_count d = length heights /\ (length heights <= MAX_CHECKPOINTS)%nat
  /\ (forall r, dyn_recompute_root d = Some r -> r = dyn_current_root d).
Proof.
  intros [F S In Is Ik Ip] Hd. unfold phase2_stores in Hd. rewrite !elem_of_app in Hd.
  destruct Hd as [Hd|[Hd|[Hd|Hd]]];
    [exact (dyn_of _ _ _ _ _ _ In Hd)|exact (dyn_of _ _ _ _ _ _ Is Hd)
    |exact (dyn_of _ _ _ _ _ _ Ik Hd)|exact (dyn_of _ _ _ _ _ _ Ip Hd)].
Qed.

Lemma omap_none {A B} (f : A -> option B) l : (forall a, a ∈ l -> f a = None) -> omap f l = [].
Proof.
  induction l as [|a l IH]; intros Hl; [done|]. simpl. rewrite (Hl a) by left. apply IH. intros b Hb.
  apply Hl. by right.
Qed.

Lemma root_integrity_of (l : list dyn_store) :
  (forall d r, d ∈ l -> dyn_recompute_root d = Some r -> r = dyn_current_root d) -> check_root_integrity l = Ok tt.
Proof.
  intros Hl. unfold check_root_integrity. rewrite omap_none; [done|]. intros d Hd.
  destruct (dyn_recompute_root d) as [r|] eqn:E; [|done]. by rewrite decide_True by (by apply Hl).
Qed.

(** C13: In every state that the stores reach by blocks above the tip, reorganisations
    within the checkpoints and restarts, the checkpoint stacks of the initialised stores
    have one common depth, at most the cap, so the lock-step check passes; every root a
    store maintains is the root recomputed from its contents; and the next rewind does not
    halt the node. *)
Theorem stores_in_lockstep tip c :
  reachable tip c ->
  (exists depth, check_lockstep (phase2_stores c) = Ok depth /\ (depth <= MAX_CHECKPOINTS)%nat)
  /\ check_root_integrity (phase2_stores c) = Ok tt
  /\ is_Some (rewind_phase2_stores c).
Proof.
  intros Hr. destruct (reachable_stores _ _ Hr) as (heights & J & I).
  pose proof (fun d => phase2_stores_of heights tip J c d I) as Hd. split; [|split].
  - apply (lockstep_of _ (length heights)). intros d Hin. by destruct (Hd d Hin) as (? & ? & _).
  - apply root_integrity_of. intros d r Hin. destruct (Hd d Hin) as (_ & _ & Hx). apply Hx.
  - destruct (rewind_inv _ _ _ _ I) as (c' & -> & _). eauto.
Qed.

(** ** What a store holds *)

(** Everything but the checkpoints, the rows on disk included. *)
Definition kernel_data (s : KernelStore) := (kernels s, kernel_root s, rows <$> kernel_persistence s).
Definition spark_data (s : SparkStore) :=
  (spark_coins s, spent_serials s, spark_root s,
   (fun p : Tree * Tree => (rows p.1, rows p.2)) <$> spark_persistence s).
Definition shielded_data (s : ShieldedStore (BT := BT)) :=
  (entries s, nullifiers s, shielded_current_root s, leaves (view (tree s)),
   (fun p : Tree * Tree => (rows p.1, rows p.2)) <$> shielded_persistence s).
Definition pool_data (s : SparkPoolStore) :=
  (pool_coins s, by_outpoint s, spent_tags s, max_coin_height s, max_spent_tag_height s, pool_value s,
   (fun p => (rows (coins_cf p), rows (tags_cf p), load_pool_value (meta_cf p))) <$> pool_persistence s).

Definition chain_data (c : stores) :=
  (shielded_data <$> shielded_store c, spark_data <$> spark_store c, kernel_data <$> kernel_store c,
   pool_data <$> spark_pool_store c).

(** Which stores are there, and which of them are over a database. *)
Definition durable {D} (o : option D) : bool := bool_decide (is_Some o).
Definition shape (c : stores) :=
  ((fun s => durable (shielded_persistence s)) <$> shielded_store c,
   (fun s => durable (spark_persistence s)) <$> spark_store c,
   (fun s => durable (kernel_persistence s)) <$> kernel_store c,
   (fun s => durable (pool_persistence s)) <$> spark_pool_store c).

Lemma durable_fmap {D E} (f : D -> E) o : durable (f <$> o) = durable o.
Proof. unfold durable. apply bool_decide_ext. apply fmap_is_Some. Qed.

Lemma durable_persist {P} (w : P -> option P) o o' : persist w o = Some o' -> durable o' = durable o.
Proof.
  unfold persist, durable. destruct o as [t|]; [destruct (w t)|]; intros [= <-]; [|done].
  by rewrite !bool_decide_eq_true_2 by eauto.
Qed.

(** Equal contents under equal durability are equal data. *)
Lemma disk_eq {D R} (f : D -> R) (P : D -> Prop) (r : R) o o' :
  (forall t, P t -> f t = r) -> from_option P True o -> from_option P True o' -> durable o = durable o' ->
  f <$> o = f <$> o'.
Proof.
  intros Hf Ho Ho' Hd. destruct o as [t|], o' as [t'|]; simpl in *; [by rewrite !Hf|done|done|done].
Qed.

Lemma kernel_data_eq j s j' s' : kernel_rep j s -> kernel_rep j' s' -> now j = now j' ->
  durable (kernel_persistence s) = durable (kernel_persistence s') -> kernel_data s = kernel_data s'.
Proof.
  intros [O K R P D L] [O' K' R' P' D' L'] E Hd. unfold kernel_data. rewrite K, K', R, R', E. f_equal.
  rewrite E in D. by apply (disk_eq rows (on_disk (now j')) (rows_of (now j'))); [intros t []|..].
Qed.

Lemma spark_data_eq j s j' s' : spark_rep j s -> spark_rep j' s' -> now j = now j' ->
  durable (spark_persistence s) = durable (spark_persistence s') -> spark_data s = spark_data s'.
Proof.
  intros I I' E Hd. unfold spark_data.
  rewrite (sr_coins _ _ I), (sr_coins _ _ I'), (sr_serials _ _ I), (sr_serials _ _ I'), (sr_root _ _ I),
    (sr_root _ _ I'), E. f_equal.
  pose proof (sr_disk _ _ I) as D. rewrite E in D.
  eapply (disk_eq _ _ (rows_of (now j').1, tag_rows (now j').2)); [|exact D|exact (sr_disk _ _ I')|done].
  intros [t1 t2] [[_ D1] [_ D2]]. simpl in *. by rewrite D1, D2.
Qed.

Lemma shielded_data_eq j s j' s' : shielded_rep j s -> shielded_rep j' s' -> now j = now j' ->
  durable (shielded_persistence s) = durable (shielded_persistence s') -> shielded_data s = shielded_data s'.
Proof.
  intros I I' E Hd. unfold shielded_data.
  assert (shielded_current_root s = shielded_current_root s') as ->.
  { unfold shielded_current_root. f_equal. apply root_of_leaves. by rewrite (hr_tree _ _ I), (hr_tree _ _ I'), E. }
  rewrite (hr_entries _ _ I), (hr_entries _ _ I'), (hr_nullifiers _ _ I), (hr_nullifiers _ _ I'), (hr_tree _ _ I),
    (hr_tree _ _ I'), E. f_equal.
  pose proof (hr_disk _ _ I) as D. rewrite E in D.
  eapply (disk_eq _ _ (rows_of (now j').1, tag_rows (now j').2)); [|exact D|exact (hr_disk _ _ I')|done].
  intros [t1 t2] [[_ D1] [_ D2]]. simpl in *. by rewrite D1, D2.
Qed.

Lemma pool_data_eq j s j' s' : pool_rep j s -> pool_rep j' s' -> now j = now j' ->
  durable (pool_persistence s) = durable (pool_persistence s') -> pool_data s = pool_data s'.
Proof.
  intros I I' E Hd. unfold pool_data.
  rewrite (pr_coins _ _ I), (pr_coins _ _ I'), (pr_index _ _ I), (pr_index _ _ I'), (pr_tags _ _ I), (pr_tags _ _ I'),
    (pr_max_coin _ _ I), (pr_max_coin _ _ I'), (pr_max_tag _ _ I), (pr_max_tag _ _ I'), (pr_value _ _ I),
    (pr_value _ _ I'), E. f_equal.
  pose proof (pr_disk _ _ I) as D. rewrite E in D.
  eapply (disk_eq _ _ (rows_of (c_coins (now j')), tag_rows (c_tags (now j')), c_value (now j')));
    [|exact D|exact (pr_disk _ _ I')|done].
  intros p ([_ D1] & [_ D2] & _ & D3). by rewrite D1, D2, D3.
Qed.

Lemma present_eq {S C D} `{Journaled S C} (data : S -> D) (disk : S -> bool) upto upto' h t h' t' (j j' : journal C) o o' :
  (forall s s', rep j s -> rep j' s' -> disk s = disk s' -> data s = data s') ->
  store_at upto h t j o -> store_at upto' h' t' j' o' -> disk <$> o = disk <$> o' -> data <$> o = data <$> o'.
Proof.
  intros Hd [_ Ho] [_ Ho'] E. destruct o as [s|], o' as [s'|]; simpl in *; [|done|done|done].
  injection E as E. f_equal. apply Hd; [apply Ho|apply Ho'|done].
Qed.

Lemma chain_data_eq h t J c h' t' J' c' : inv h t J c -> inv h' t' J' c' -> shape c = shape c' ->
  now (jn J) = now (jn J') -> now (js J) = now (js J') -> now (jk J) = now (jk J') -> now (jp J) = now (jp J') ->
  chain_data c = chain_data c'.
Proof.
  intros [_ _ In Is Ik Ip] [_ _ In' Is' Ik' Ip'] E En Es Ek Ep. unfold shape in E. injection E as E1 E2 E3 E4.
  unfold chain_data. f_equal; [f_equal; [f_equal|]|].
  - eapply present_eq; [|exact In|exact In'|exact E1]. intros s s' R R' Hd. by apply (shielded_data_eq _ _ _ _ R R').
  - eapply present_eq; [|exact Is|exact Is'|exact E2]. intros s s' R R' Hd. by apply (spark_data_eq _ _ _ _ R R').
  - eapply present_eq; [|exact Ik|exact Ik'|exact E3]. intros s s' R R' Hd. by apply (kernel_data_eq _ _ _ _ R R').
  - eapply present_eq; [|exact Ip|exact Ip'|exact E4]. intros s s' R R' Hd. by apply (pool_data_eq _ _ _ _ R R').
Qed.

(** *** The shape is fixed *)

Lemma on_store_shape {S} (f : S -> option S) (d : S -> bool) o o' :
  (forall s s', f s = Some s' -> d s' = d s) -> on_store f o = Some o' -> d <$> o' = d <$> o.
Proof.
  intros Hf. destruct o as [s|]; simpl; [|by intros [= <-]].
  destruct (f s) as [s'|] eqn:E; [|done]. intros [= <-]. simpl. by rewrite (Hf _ _ E).
Qed.

(** A write is a guard and a [persist]. *)
Ltac durable_write :=
  repeat case_match; simplify_eq; simpl in *; simplify_eq;
  try match goal with Hp : persist _ _ = Some _ |- _ => apply durable_persist in Hp end; simpl in *; congruence.

Lemma kernel_append_durable k s s' :
  kernel_append k s = Some s' -> durable (kernel_persistence s') = durable (kernel_persistence s).
Proof. unfold kernel_append. intros E. durable_write. Qed.

Lemma spark_add_coin_durable e s s' :
  spark_add_coin e s = Some s' -> durable (spark_persistence s') = durable (spark_persistence s).
Proof. unfold spark_add_coin. intros E. durable_write. Qed.

Lemma spark_mark_durable serial h s s' :
  spark_mark_serial_spent serial h s = Some s' -> durable (spark_persistence s') = durable (spark_persistence s).
Proof. unfold spark_mark_serial_spent. intros E. durable_write. Qed.

Lemma append_commitment_durable e (s s' : ShieldedStore (BT := BT)) :
  drop_result (append_commitment e s) = Some s' -> durable (shielded_persistence s') = durable (shielded_persistence s).
Proof. unfold append_commitment, drop_result. intros E. durable_write. Qed.

Lemma mark_nullifier_durable nf h (s s' : ShieldedStore (BT := BT)) :
  drop_result (mark_nullifier_spent nf h s) = Some s' -> durable (shielded_persistence s') = durable (shielded_persistence s).
Proof. unfold mark_nullifier_spent, drop_result. intros E. durable_write. Qed.

Lemma pool_add_coin_durable op c ctx h s s' :
  drop_result (pool_add_coin op c ctx h s) = Some s' -> durable (pool_persistence s') = durable (pool_persistence s).
Proof. unfold pool_add_coin, drop_result. intros E. durable_write. Qed.

Lemma mark_tag_durable tag h s s' :
  drop_result (mark_tag_spent tag h s) = Some s' -> durable (pool_persistence s') = durable (pool_persistence s).
Proof. unfold mark_tag_spent, drop_result. intros E. durable_write. Qed.

Lemma apply_value_balance_durable vb s s' :
  drop_result (apply_value_balance vb s) = Some s' -> durable (pool_persistence s') = durable (pool_persistence s).
Proof. unfold apply_value_balance, drop_result. intros E. durable_write. Qed.

#[local] Hint Resolve kernel_append_durable spark_add_coin_durable spark_mark_durable append_commitment_durable
  mark_nullifier_durable pool_add_coin_durable mark_tag_durable apply_value_balance_durable : core.

Lemma run_op_shape op c c' : run_op op c = Some c' -> shape c' = shape c.
Proof.
  unfold shape. destruct op; cbn [run_op]; intros E; apply fmap_Some in E as (o & Ho & ->); simpl;
  apply (f_equal4 (fun a b k p => (a, b, k, p))); try done; (eapply on_store_shape; [|exact Ho]); simpl; eauto.
Qed.

Lemma ops_shape tip ops c c' : ops_run tip ops c c' -> shape c' = shape c.
Proof. induction 1 as [|op ops c c1 c' _ E _ IH]; [done|]. rewrite IH. by apply (run_op_shape op). Qed.

Lemma checkpoint_shape h c : shape (checkpoint_phase2_stores h c) = shape c.
Proof.
  destruct c as [a b k p]. unfold shape, checkpoint_phase2_stores. simpl.
  destruct a as [s|], b, k, p; simpl; try done; unfold shielded_checkpoint_at_height;
    by destruct (bt_checkpoint h (tree s)) as [t []].
Qed.

Lemma blocks_shape tip c bs tip' c' : blocks_run tip c bs tip' c' -> shape c' = shape c.
Proof.
  induction 1 as [|tip c h ops c1 bs tip' c' _ _ Ro _ IH]; [done|].
  by rewrite IH, (ops_shape _ _ _ _ Ro), checkpoint_shape.
Qed.

Lemma rewind_in_place_shape {S} `{Phase2Store S} (d : S -> bool) o o' :
  (forall s s' b, rewind s = Some (s', b) -> d s' = d s) -> rewind_in_place o = Some o' -> d <$> o' = d <$> o.
Proof.
  intros Hf. destruct o as [s|]; simpl; [|by intros [= <-]].
  destruct (rewind s) as [[s' b]|] eqn:E; [|done]. intros [= <-]. simpl. by rewrite (Hf _ _ _ E).
Qed.

Lemma rewind_shape c c' : rewind_phase2_stores c = Some c' -> shape c' = shape c.
Proof.
  unfold rewind_phase2_stores, shape.
  destruct (rewind_in_place (shielded_store c)) as [a|] eqn:Ea; [|done].
  destruct (rewind_in_place (spark_store c)) as [b|] eqn:Eb; [|done].
  destruct (rewind_in_place (kernel_store c)) as [k|] eqn:Ek; [|done].
  destruct (rewind_in_place (spark_pool_store c)) as [q|] eqn:Eq; [|done]. intros [= <-]. simpl.
  f_equal; [f_equal; [f_equal|]|]; (eapply rewind_in_place_shape; [|eassumption]); intros s s' r; simpl.
  - intros [= E]. unfold shielded_rewind in E. destruct (pop _) as [[rest cp]|]; [|by simplify_eq].
    destruct (bt_rewind (tree s)). simplify_eq. simpl. apply durable_fmap.
  - intros [= E]. unfold spark_rewind in E. destruct (pop _) as [[rest cp]|]; simplify_eq; [|done]. apply durable_fmap.
  - intros [= E]. unfold kernel_rewind in E. destruct (pop _) as [[rest cp]|]; simplify_eq; [|done]. apply durable_fmap.
  - unfold pool_rewind. intros E. destruct (pop _) as [[rest cp]|]; [|by simplify_eq].
    destruct (persist _ _) as [p|] eqn:Ep; simplify_eq. by apply durable_persist in Ep.
Qed.

Lemma rewind_blocks_shape n c c' : rewind_blocks n c = Some c' -> shape c' = shape c.
Proof.
  revert c. induction n as [|n IH]; intros c; cbn [rewind_blocks]; [by intros [= <-]|].
  destruct (rewind_phase2_stores c) as [c1|] eqn:E; [|done]. intros R. rewrite (IH _ R). by apply rewind_shape.
Qed.

(** C6: A reorganisation is exact: whatever at most a thousand blocks wrote to the
    initialised stores, rewinding as many blocks gives back what every store held before
    them - contents, indices, running maxima, pool value, roots and the rows on disk -
    and no rewind halts the node. *)
Theorem reorg_exact tip c bs tip' c' :
  reachable tip c -> blocks_run tip c bs tip' c' -> (length bs <= MAX_CHECKPOINTS)%nat ->
  exists c'', rewind_blocks (length bs) c' = Some c'' /\ chain_data c'' = chain_data c.
Proof.
  intros Hr R Hn. destruct (reachable_stores _ _ Hr) as (heights & J & I).
  destruct (blocks_inv _ _ J J _ _ _ _ 0 I ltac:(done) R Hn) as (heights' & J' & I' & S').
  destruct (rewind_blocks_inv _ _ _ _ _ _ I' S') as (c'' & h2 & t2 & J2 & E & I2 & E1 & E2 & E3 & E4).
  exists c''. split; [done|]. apply (chain_data_eq _ _ _ _ _ _ _ _ I2 I); try done.
  by rewrite (rewind_blocks_shape _ _ _ E), (blocks_shape _ _ _ _ _ R).
Qed.

(** *** Restarts *)

Definition all_durable (c : stores) : Prop :=
  when (fun s => is_Some (shielded_persistence s)) (shielded_store c)
  /\ when (fun s => is_Some (spark_persistence s)) (spark_store c)
  /\ when (fun s => is_Some (kernel_persistence s)) (kernel_store c)
  /\ when (fun s => is_Some (pool_persistence s)) (spark_pool_store c).

Lemma on_present_shape {S} (f : S -> result LoadError S) (d : S -> bool) o o' :
  (forall s s', f s = Ok s' -> d s' = d s) -> on_present f o = Ok o' -> d <$> o' = d <$> o.
Proof.
  intros Hf. destruct o as [s|]; simpl; [|by intros [= <-]].
  destruct (f s) as [s'|] eqn:E; simpl; [|done]. intros [= <-]. simpl. by rewrite (Hf _ _ E).
Qed.

Lemma restart_shape c c' : restart c = Ok c' -> shape c' = shape c.
Proof.
  unfold restart, shape. intros E.
  destruct (on_present reopen_shielded (shielded_store c)) as [a|] eqn:Ea; simpl in E; [|done].
  destruct (on_present reopen_spark (spark_store c)) as [b|] eqn:Eb; simpl in E; [|done].
  destruct (on_present reopen_kernel (kernel_store c)) as [k|] eqn:Ek; simpl in E; [|done].
  destruct (on_present reopen_pool (spark_pool_store c)) as [q|] eqn:Eq; simpl in E; [|done].
  injection E as <-. apply (f_equal4 (fun a b k p => (a, b, k, p))); (eapply on_present_shape; [|eassumption]);
    intros s s'; unfold reopen_shielded, reopen_spark, reopen_kernel, reopen_pool; simpl.
  - destruct (shielded_persistence s) as [[t1 t2]|]; [|by intros [= <-]]. unfold shielded_open.
    destruct (load_indexed t1); simpl; [|done]. destruct (load_tags _ t2); simpl; [|done]. by intros [= <-].
  - destruct (spark_persistence s) as [[t1 t2]|]; [|by intros [= <-]]. unfold spark_open.
    destruct (load_indexed t1); simpl; [|done]. destruct (load_tags _ t2); simpl; [|done]. by intros [= <-].
  - destruct (kernel_persistence s) as [t|]; [|by intros [= <-]]. unfold kernel_open.
    destruct (load_indexed t); simpl; [|done]. by intros [= <-].
  - destruct (pool_persistence s) as [[t1 t2 t3]|]; [|by intros [= <-]]. unfold pool_open. simpl.
    destruct (load_indexed t1); simpl; [|done]. destruct (load_tags _ t2); simpl; [|done]. by intros [= <-].
Qed.

(** A store without checkpoints is not changed by a rewind. *)
Lemma rewind_no_checkpoints {S C} `{Journaled S C} upto tip (j : journal C) (o : option S) :
  store_at upto [] tip j o ->
  (forall s, checkpoint_count s = 0%nat -> rewind s = Some (s, false)) -> rewind_in_place o = Some o.
Proof.
  intros [Hh Ho] Hr. destruct o as [s|]; simpl in *; [|done]. destruct Ho as [R _].
  rewrite Hr; [done|]. rewrite (rep_count _ _ R). by destruct (snapshots j).
Qed.

Lemma rewind_restarted tip J c : inv [] tip J c -> rewind_phase2_stores c = Some c.
Proof.
  intros [_ _ In Is Ik Ip]. unfold rewind_phase2_stores.
  rewrite (rewind_no_checkpoints _ _ _ _ In), (rewind_no_checkpoints _ _ _ _ Is), (rewind_no_checkpoints _ _ _ _ Ik),
    (rewind_no_checkpoints _ _ _ _ Ip); [by destruct c| | | |]; intros s Hs; simpl in *.
  - unfold pool_checkpoint_count in Hs. unfold pool_rewind. by destruct (pool_checkpoints s).
  - unfold kernel_checkpoint_count in Hs. unfold kernel_rewind. by destruct (kernel_checkpoints s).
  - unfold spark_checkpoint_count in Hs. unfold spark_rewind. by destruct (spark_checkpoints s).
  - unfold shielded_checkpoint_count in Hs. unfold shielded_rewind. by destruct (shielded_checkpoints s).
Qed.

(** C17: A restart replays every store from its column families: nothing a store over a
    database held is lost or resurrected, whatever blocks and reorganisations came before.
    The checkpoints do not survive: a block that was applied before the restart can no
    longer be disconnected, a rewind then leaves every store as it is. *)
Theorem restart_replays tip c :
  reachable tip c -> all_durable c ->
  exists c', restart c = Ok c' /\ chain_data c' = chain_data c /\ rewind_phase2_stores c' = Some c'.
Proof.
  intros Hr (Dn & Ds & Dk & Dp). destruct (reachable_stores _ _ Hr) as (heights & J & I).
  destruct (reopened_inv _ _ _ _ I) as (c' & J' & E & I' & Kn & Ks & Kk & Kp).
  exists c'. split; [done|]. split; [|by apply (rewind_restarted tip J')].
  assert (G : forall S C (P : S -> Prop) (x y : C) (o : option S), when P o -> when (fun s => P s -> y = x) o -> o = None \/ y = x).
  { intros S C P x y [s|]; simpl; [|by left]. intros HP HQ. right. auto. }
  pose proof (restart_shape _ _ E) as Sh. destruct I as [F S In Is Ik Ip]. destruct I' as [F' S' In' Is' Ik' Ip'].
  unfold shape in Sh. injection Sh as S1 S2 S3 S4.
  unfold chain_data. apply (f_equal4 (fun a b k p => (a, b, k, p))).
  - destruct (G _ _ _ _ _ _ Dn Kn) as [En|En]; [rewrite En in S1 |- *; by destruct (shielded_store c')|].
    eapply present_eq; [|exact In'|exact In|exact S1]. intros s s' R R' Hd. by apply (shielded_data_eq _ _ _ _ R R').
  - destruct (G _ _ _ _ _ _ Ds Ks) as [En|En]; [rewrite En in S2 |- *; by destruct (spark_store c')|].
    eapply present_eq; [|exact Is'|exact Is|exact S2]. intros s s' R R' Hd. by apply (spark_data_eq _ _ _ _ R R').
  - destruct (G _ _ _ _ _ _ Dk Kk) as [En|En]; [rewrite En in S3 |- *; by destruct (kernel_store c')|].
    eapply present_eq; [|exact Ik'|exact Ik|exact S3]. intros s s' R R' Hd. by apply (kernel_data_eq _ _ _ _ R R').
  - destruct (G _ _ _ _ _ _ Dp Kp) as [En|En]; [rewrite En in S4 |- *; by destruct (spark_pool_store c')|].
    eapply present_eq; [|exact Ip'|exact Ip|exact S4]. intros s s' R R' Hd. by apply (pool_data_eq _ _ _ _ R R').
Qed.

(** ** The drivers over trait objects *)

Lemma rewind_all_app {S} `{Phase2Store S} (o : option S) l :
  fst <$> rewind_all (dyn o ++ l)
  = match rewind_in_place o, fst <$> rewind_all l with
    | Some o', Some l' => Some (dyn o' ++ l')
    | _, _ => None
    end.
Proof.
  destruct o as [s|]; simpl; [|by destruct (rewind_all l) as [[]|]]. unfold dyn_rewind. simpl.
  destruct (rewind s) as [[s' b]|]; [|done]. by destruct (rewind_all l) as [[]|].
Qed.

(** The drivers over trait objects do what the chain does to its stores, in place and
    in the same order: checkpointing the list of trait objects is checkpointing the
    stores, rewinding it rewinds the stores, and one halts exactly when the other does. *)
Theorem drivers_act_in_place h (c : stores) :
  phase2_stores (checkpoint_phase2_stores h c) = (checkpoint_all (phase2_stores c) h).1
  /\ fst <$> rewind_all (phase2_stores c) = phase2_stores <$> rewind_phase2_stores c.
Proof.
  destruct c as [a b k q]. split; [by destruct a, b, k, q|].
  unfold rewind_phase2_stores, phase2_stores. cbn [shielded_store spark_store kernel_store spark_pool_store].
  rewrite <- (app_nil_r (dyn q)), !rewind_all_app. cbn [rewind_all fmap option_fmap option_map fst].
  repeat case_match; simplify_eq; try done. cbn [fmap option_fmap option_map]. by rewrite app_nil_r.
Qed.

(** ** The security sweep *)

Lemma rep_guard_clean tip (j : journal pool_contents) s : pool_rep j s -> pool_upto tip (now j) ->
  guard s tip = [] /\ 0 <= pool_value s.
Proof.
  intros R [T F]. assert (V : 0 <= pool_value s). { rewrite (pr_value _ _ R). apply (pr_solvent _ _ R). }
  assert (G : forall (mk : Z -> Z -> GuardViolation) l, (forall y, y ∈ l -> y <= tip) ->
    match max_of l with Some h => if tip <? h then [mk tip h] else [] | None => [] end = []).
  { intros mk l Hl. destruct (max_of l) as [m|] eqn:E; [|done]. apply max_of_spec in E as [Hm _].
    by rewrite (proj2 (Z.ltb_ge _ _) (Hl _ Hm)). }
  split; [|done]. unfold guard, pool_checkpoint_count.
  rewrite (pr_max_coin _ _ R), (pr_max_tag _ _ R), (pr_cps _ _ R), length_map, (proj2 (Z.ltb_ge _ _) V), !G.
  - rewrite (proj2 (Nat.ltb_ge _ _)); [done|]. apply (pr_ok _ _ R).
  - intros y Hy. apply list_elem_of_fmap in Hy as ([t x] & -> & Hx). apply elem_of_map_to_list in Hx. by apply (T t x).
  - intros y Hy. apply list_elem_of_fmap in Hy as (x & -> & Hx). rewrite list.Forall_forall in F. by apply F.
Qed.

Lemma pool_guard_clean heights tip J c s : inv heights tip J c -> spark_pool_store c = Some s ->
  guard s tip = [] /\ 0 <= pool_value s.
Proof.
  intros I Es. destruct (inv_pool _ _ _ _ I) as [Hh Hp]. rewrite Es in Hp. destruct Hp as [R U].
  by apply (rep_guard_clean tip (jp J)).
Qed.

Lemma warnings_never_halt {A} (code : A -> string) l r d :
  Security.has_consensus_halt r = false ->
  Security.has_consensus_halt
    (fold_left (fun r a => Security.raise_operational r d Security.Warning (code a)) l r) = false.
Proof.
  revert r. induction l as [|a l IH]; intros r Hr; [done|]. simpl. apply IH.
  unfold Security.has_consensus_halt, Security.raise_operational in *. rewrite existsb_app, Hr. done.
Qed.

(** Stores of one checkpoint depth and a clean guard raise no halt. *)
Lemma clean_sweep tip (c : stores) d :
  (forall x, x ∈ phase2_stores c -> dyn_count x = d /\ (d <= MAX_CHECKPOINTS)%nat) ->
  when (fun s => guard s tip = []) (spark_pool_store c) ->
  Security.has_consensus_halt (security_sweep c tip) = false.
Proof.
  intros Hd G. assert (L : lockstep_sweep (phase2_stores c) = []).
  { unfold lockstep_sweep. by destruct (lockstep_of (phase2_stores c) d Hd) as (n & -> & _). }
  unfold security_sweep, Security.sweep_all, Security.merge, Security.dyn_sweep.
  destruct (spark_pool_store c) as [s|]; simpl in *; rewrite L; simpl; [|done].
  unfold pool_sweep. rewrite G. simpl. by apply warnings_never_halt.
Qed.

Lemma guard_halts (c : stores) s tip : spark_pool_store c = Some s -> guard s tip <> [] ->
  Security.has_consensus_halt (security_sweep c tip) = true.
Proof.
  intros Es G. unfold security_sweep. rewrite Es, Security.sweep_all_concat. cbn [map concat]. rewrite app_nil_r.
  unfold Security.has_consensus_halt. rewrite existsb_app. apply orb_true_intro. right.
  change (existsb Security.is_halt (pool_sweep s tip) = true). unfold pool_sweep.
  assert (K : forall A (f : Security.SecurityReport -> A -> Security.SecurityReport) l r,
    (forall r a, existsb Security.is_halt r = true -> existsb Security.is_halt (f r a) = true) ->
    existsb Security.is_halt r = true -> existsb Security.is_halt (fold_left f l r) = true).
  { intros A f l. induction l as [|a l IH]; intros r Hf Hr; [done|]. cbn. apply IH; [done|]. by apply Hf. }
  apply K; [intros r a Hr; unfold Security.raise_operational; by rewrite existsb_app, Hr|].
  destruct (guard s tip) as [|v l]; [done|]. cbn [fold_left]. apply K; [|done].
  intros r a Hr. unfold Security.raise_consensus. by rewrite existsb_app, Hr.
Qed.

Lemma max_of_none l : max_of l = None -> l = [].
Proof. by destruct l. Qed.

(** Nothing in the pool is dated above [h]. *)
Definition dated_upto (h : Z) (s : SparkPoolStore) : Prop :=
  Forall (fun c => pheight c <= h) (pool_coins s) /\ map_Forall (fun _ x => x <= h) (spent_tags s).

Lemma guard_dated h (j : journal pool_contents) s : pool_rep j s -> guard s h = [] <-> dated_upto h s.
Proof.
  intros R. unfold dated_upto. rewrite (pr_coins _ _ R), (pr_tags _ _ R). split.
  - unfold guard. rewrite (pr_max_coin _ _ R), (pr_max_tag _ _ R). intros [E1 E2]%app_nil. apply app_nil in E2 as [E2 _]. split.
    + apply list.Forall_forall. intros x Hx. destruct (max_of (map pheight _)) as [m|] eqn:Em.
      * apply max_of_spec in Em as [_ Hm]. specialize (Hm (pheight x) ltac:(apply list_elem_of_fmap; eauto)).
        destruct (Z.ltb_spec h m); [done|lia].
      * apply max_of_none in Em. destruct (c_coins (now j)); [by apply elem_of_nil in Hx|done].
    + intros t x Hx. assert (x ∈ tag_heights (c_tags (now j))) as Ht.
      { apply list_elem_of_fmap. exists (t, x). split; [done|]. by apply elem_of_map_to_list. }
      destruct (max_of (tag_heights _)) as [m|] eqn:Em.
      * apply max_of_spec in Em as [_ Hm]. specialize (Hm x Ht). destruct (Z.ltb_spec h m); [done|lia].
      * apply max_of_none in Em. rewrite Em in Ht. by apply elem_of_nil in Ht.
  - intros [F T]. by apply (rep_guard_clean h j s R).
Qed.

(** C29: In every state that the stores reach by blocks above the tip, reorganisations within
    the checkpoints and restarts, the pool holds a non-negative value, its guard reports no
    violation at the tip and the security sweep that runs after each block raises no
    consensus halt.  At any other height the sweep halts exactly when the pool holds a coin
    or a spent tag dated above it, so that the guard stops the node only when a block is
    connected below what the pool holds, as after a reorganisation past a restart. *)
Theorem sweep_never_halts tip c :
  reachable tip c ->
  Security.has_consensus_halt (security_sweep c tip) = false
  /\ when (fun s => guard s tip = [] /\ 0 <= pool_value s) (spark_pool_store c)
  /\ forall h, Security.has_consensus_halt (security_sweep c h) = false <-> when (dated_upto h) (spark_pool_store c).
Proof.
  intros Hr. destruct (reachable_stores _ _ Hr) as (heights & J & I).
  assert (W : when (fun s => guard s tip = [] /\ 0 <= pool_value s) (spark_pool_store c)).
  { destruct (spark_pool_store c) as [s|] eqn:Es; [|done]. by apply (pool_guard_clean heights tip J c). }
  assert (K : forall h, when (fun s => guard s h = []) (spark_pool_store c) ->
    Security.has_consensus_halt (security_sweep c h) = false).
  { intros h Hg. apply (clean_sweep h c (length heights)); [|done].
    intros d Hd. by destruct (phase2_stores_of _ _ _ _ d I Hd) as (? & ? & _). }
  split; [|split; [done|]].
  - apply K. destruct (spark_pool_store c); [apply W|done].
  - intros h. destruct (spark_pool_store c) as [s|] eqn:Es; [|split; [done|intros _; by apply K]].
    destruct (inv_pool _ _ _ _ I) as [_ Hp]. rewrite Es in Hp. destruct Hp as [R _]. cbn. rewrite <- (guard_dated h _ s R).
    split; [|by apply K]. intros Hh. destruct (guard s h) eqn:Eg; [done|].
    by rewrite (guard_halts c s h Es) in Hh by (by rewrite Eg).
Qed.

(** ** Cover sets *)

Lemma group_filter {A} (P : A -> bool) (l : list A) n start stop :
  map snd (List.filter (fun ic : nat * A => (start <=? Z.of_nat ic.1) && (Z.of_nat ic.1 <? stop) && P ic.2)
    (imap (fun i a => ((n + i)%nat, a)) l))
  = List.filter P (take (Z.to_nat (stop - Z.max start (Z.of_nat n)))
                     (drop (Z.to_nat (start - Z.of_nat n)) l)).
Proof.
  revert n. induction l as [|a l IH]; intros n; [by rewrite drop_nil, take_nil|].
  rewrite imap_cons, (imap_ext _ (fun i a => ((S n + i)%nat, a))) by (intros; unfold compose; f_equal; lia).
  rewrite Nat.add_0_r. cbn [List.filter fst snd].
  destruct (Z.leb_spec start (Z.of_nat n)) as [Hs|Hs]; cbn [andb].
  - replace (Z.to_nat (start - Z.of_nat n)) with 0%nat by lia. cbn [drop].
    destruct (Z.ltb_spec (Z.of_nat n) stop) as [Ht|Ht]; cbn [andb].
    + replace (Z.to_nat (stop - Z.max start (Z.of_nat n)))
        with (S (Z.to_nat (stop - Z.max start (Z.of_nat (S n))))) by lia.
      cbn [take List.filter]. destruct (P a); cbn [map snd]; rewrite IH;
        by replace (Z.to_nat (start - Z.of_nat (S n))) with 0%nat by lia.
    + replace (Z.to_nat (stop - Z.max start (Z.of_nat n))) with 0%nat by lia. rewrite IH.
      by replace (Z.to_nat (stop - Z.max start (Z.of_nat (S n)))) with 0%nat by lia.
  - rewrite IH. replace (Z.to_nat (start - Z.of_nat n)) with (S (Z.to_nat (start - Z.of_nat (S n)))) by lia.
    cbn [drop]. do 2 f_equal. lia.
Qed.

(** A group is the admitted coins of one slice of the cover set. *)
Lemma group_coins_slice s g anchor : 0 <= g -> (g + 1) * SPARK_COVER_SET_GROUP <= u64_max ->
  group_coins s g anchor
  = List.filter (fun c => pheight c <=? anchor) (take 512 (drop (Z.to_nat (g * SPARK_COVER_SET_GROUP)) (pool_coins s))).
Proof.
  intros Hg Hm. unfold group_coins.
  rewrite (imap_ext pair (fun i a => ((0 + i)%nat, a))) by done. rewrite (group_filter (fun c => pheight c <=? anchor)).
  unfold saturating_add, saturating_mul, SPARK_COVER_SET_GROUP in *.
  do 2 f_equal; [lia|]. do 2 f_equal. lia.
Qed.

(** The coins a block's writes append are dated by the block. *)
Definition pool_grows (h : Z) (o o' : option SparkPoolStore) : Prop :=
  match o, o' with
  | Some s, Some s' => exists l, pool_coins s' = pool_coins s ++ l /\ Forall (fun c => pheight c = h) l
  | None, None => True
  | _, _ => False
  end.

Lemma pool_grows_refl h o : pool_grows h o o.
Proof. destruct o as [s|]; simpl; [|done]. exists []. rewrite app_nil_r. by split. Qed.

Lemma pool_grows_same h f (o o' : option SparkPoolStore) :
  (forall s s', f s = Some s' -> pool_coins s' = pool_coins s) -> on_store f o = Some o' -> pool_grows h o o'.
Proof.
  intros Hf. destruct o as [s|]; simpl; [|by intros [= <-]]. destruct (f s) as [s'|] eqn:E; [|done].
  intros [= <-]. simpl. exists []. rewrite app_nil_r. split; [by apply Hf|done].
Qed.

Lemma run_op_grows tip op c c' : op_ok tip op c -> run_op op c = Some c' ->
  pool_grows tip (spark_pool_store c) (spark_pool_store c').
Proof.
  intros Hop E. destruct op; cbn [run_op] in E; apply fmap_Some in E as (o & Ho & ->); simpl;
    try apply pool_grows_refl.
  - simpl in Hop. destruct Hop as [-> _]. destruct (spark_pool_store c) as [s|]; simpl in *; [|by simplify_eq].
    unfold drop_result, pool_add_coin in Ho. destruct (by_outpoint s !! op); simpl in Ho.
    { simplify_eq. apply (pool_grows_refl tip (Some s)). }
    destruct (persist _ _) as [q|]; simpl in Ho; [|done]. injection Ho as <-. eexists. split; [done|].
    by repeat constructor.
  - eapply pool_grows_same; [|exact Ho]. intros s s'. unfold drop_result, mark_tag_spent. intros E.
    repeat case_match; simpl in E; by simplify_eq.
  - eapply pool_grows_same; [|exact Ho]. intros s s'. unfold drop_result, apply_value_balance. intros E.
    repeat case_match; simpl in E; by simplify_eq.
Qed.

(** Over blocks: the new coins are dated above the old tip. *)
Definition pool_extends (tip : Z) (o o' : option SparkPoolStore) : Prop :=
  match o, o' with
  | Some s, Some s' => exists l, pool_coins s' = pool_coins s ++ l /\ Forall (fun c => tip < pheight c) l
  | None, None => True
  | _, _ => False
  end.

Lemma pool_extends_grows tip h o o1 o2 : tip < h -> pool_grows h o o1 -> pool_extends tip o1 o2 -> pool_extends tip o o2.
Proof.
  intros Hh G E. destruct o as [s|], o1 as [s1|], o2 as [s2|]; simpl in *; try done.
  destruct G as (l & E1 & F1), E as (l' & E2 & F2). exists (l ++ l'). split; [by rewrite E2, E1, app_assoc|].
  apply list.Forall_app. split; [|done]. eapply list.Forall_impl; [exact F1|]. simpl. lia.
Qed.

Lemma pool_extends_refl tip o : pool_extends tip o o.
Proof. destruct o as [s|]; simpl; [|done]. exists []. rewrite app_nil_r. by split. Qed.

Lemma pool_extends_mono tip tip' o o' : tip <= tip' -> pool_extends tip' o o' -> pool_extends tip o o'.
Proof.
  intros Ht E. destruct o as [s|], o' as [s'|]; simpl in *; try done. destruct E as (l & E & F). exists l.
  split; [done|]. eapply list.Forall_impl; [exact F|]. simpl. lia.
Qed.

Lemma ops_extend tip h ops c c' o' : tip < h -> ops_run h ops c c' ->
  pool_extends tip (spark_pool_store c') o' -> pool_extends tip (spark_pool_store c) o'.
Proof.
  intros Hh R. induction R as [c|op ops c c1 c' Hop E R IH]; intros He; [done|].
  apply (pool_extends_grows tip h _ (spark_pool_store c1)); [done|by apply (run_op_grows _ op)|auto].
Qed.

Lemma blocks_extend tip c bs tip' c' : blocks_run tip c bs tip' c' ->
  pool_extends tip (spark_pool_store c) (spark_pool_store c').
Proof.
  induction 1 as [tip c|tip c h ops c1 bs tip' c' Hh Hf Ro R IH]; [apply pool_extends_refl|].
  apply (ops_extend _ _ _ _ _ (spark_pool_store c') Hh) in Ro.
  - unfold checkpoint_phase2_stores in Ro. simpl in Ro. by destruct (spark_pool_store c).
  - apply (pool_extends_mono _ h); [lia|done].
Qed.

Lemma filter_none {A} (P : A -> bool) l : Forall (fun a => P a = false) l -> List.filter P l = [].
Proof. induction 1 as [|a l Ha _ IH]; [done|]. simpl. by rewrite Ha. Qed.

Lemma filter_slice {A} (P : A -> bool) n m (l l' : list A) : Forall (fun a => P a = false) l' ->
  List.filter P (take n (drop m (l ++ l'))) = List.filter P (take n (drop m l)).
Proof.
  intros Hl. rewrite drop_app, take_app, List.filter_app. rewrite (filter_none P (take _ (drop _ l'))); [by rewrite app_nil_r|].
  by apply list.Forall_take, list.Forall_drop.
Qed.

(** C33: The cover set of a group is exactly its slice of the pool - 512 coins in the order
    of their indices - less the coins dated above the anchor, so that it never exceeds the
    capacity of the membership proof; the entries served to a remote wallet are the same
    coins in the same order; and blocks connected above the tip do not change it when the
    anchor is not above the tip: a spend is verified against the set it was built over. *)
Theorem cover_set_anchored tip c bs tip' c' s s' g anchor :
  blocks_run tip c bs tip' c' -> spark_pool_store c = Some s -> spark_pool_store c' = Some s' ->
  0 <= g -> (g + 1) * SPARK_COVER_SET_GROUP <= u64_max -> anchor <= tip ->
  cover_set_at s g anchor
    = map coin (List.filter (fun x => pheight x <=? anchor)
        (take (Z.to_nat SPARK_COVER_SET_GROUP) (drop (Z.to_nat (g * SPARK_COVER_SET_GROUP)) (pool_coins s))))
  /\ (length (cover_set_at s g anchor) <= 512)%nat
  /\ map (fun e : bytes * bytes * bytes * Z => e.1.1.2) (cover_entries_at s g anchor) = cover_set_at s g anchor
  /\ cover_set_at s' g anchor = cover_set_at s g anchor.
Proof.
  intros R Es Es' Hg Hm Ha. pose proof (blocks_extend _ _ _ _ _ R) as E. rewrite Es, Es' in E.
  destruct E as (l & El & Fl). unfold cover_set_at, cover_entries_at. rewrite !group_coins_slice by done.
  split; [done|split; [|split]].
  - rewrite length_map. etrans; [apply List.filter_length_le|]. rewrite length_take. lia.
  - rewrite map_map. apply map_ext. done.
  - f_equal. rewrite El. apply filter_slice. eapply list.Forall_impl; [exact Fl|]. simpl. intros x Hx.
    apply Z.leb_gt. lia.
Qed.

(** ** A refused reorganisation *)

(** What the two rollback paths of a reorganisation do to the stores: the blocks that were
    disconnected are connected again, each with its checkpoint. *)
Definition reconnect_phase2 (heights : list Z) (c : stores) : stores :=
  fold_left (fun c h => checkpoint_phase2_stores h c) heights c.

(** A checkpoint changes nothing a store holds. *)
Lemma checkpoint_data h c : chain_data (checkpoint_phase2_stores h c) = chain_data c.
Proof.
  destruct c as [a b k q]. unfold chain_data, checkpoint_phase2_stores. cbn [shielded_store spark_store kernel_store spark_pool_store].
  apply (f_equal4 (fun a b k p => (a, b, k, p))); [|by destruct b|by destruct k|by destruct q].
  destruct a as [s|]; [|done]. simpl. f_equal. unfold shielded_checkpoint_at_height.
  destruct (pair_view _ _ (view_of_checkpoint h (tree s))) as [V _].
  assert (L : leaves (view_checkpoint h (view (tree s))).1 = leaves (view (tree s))).
  { unfold view_checkpoint. by case_match. }
  destruct (bt_checkpoint h (tree s)) as [t b']. simpl in V. rewrite <- V in L.
  unfold shielded_data, shielded_current_root. simpl. rewrite L. by rewrite (root_of_leaves t (tree s)).
Qed.

Lemma reconnect_data heights c : chain_data (reconnect_phase2 heights c) = chain_data c.
Proof.
  unfold reconnect_phase2. revert c. induction heights as [|h heights IH]; intros c; simpl; [done|].
  by rewrite IH, checkpoint_data.
Qed.

(** A refused reorganisation loses the shielded state of the blocks it restores: the
    rollback rewinds the stores past the disconnected blocks and connects those blocks
    again by a checkpoint alone, without their writes, so afterwards every store holds
    what it held before the blocks that are again on the chain. *)
Theorem failed_reorg_forgets tip c bs tip' c' :
  reachable tip c -> blocks_run tip c bs tip' c' -> (length bs <= MAX_CHECKPOINTS)%nat ->
  exists c1, rewind_blocks (length bs) c' = Some c1
    /\ chain_data (reconnect_phase2 (map fst bs) c1) = chain_data c.
Proof.
  intros Hr R Hn. destruct (reachable_stores _ _ Hr) as (heights & J & I).
  destruct (blocks_inv _ _ J J _ _ _ _ 0 I ltac:(done) R Hn) as (heights' & J' & I' & S').
  destruct (rewind_blocks_inv _ _ _ _ _ _ I' S') as (c1 & h2 & t2 & J2 & E & I2 & E1 & E2 & E3 & E4).
  exists c1. split; [done|]. rewrite reconnect_data. apply (chain_data_eq _ _ _ _ _ _ _ _ I2 I); try done.
  by rewrite (rewind_blocks_shape _ _ _ E), (blocks_shape _ _ _ _ _ R).
Qed.
End Chain.

(** ** Faults *)

Section Faults.
Context `{Blake3} `{!Borsh MwKernel} `{!Borsh SparkCoinEntry}.

(** A serial that is marked spent a second time is forgotten by the rewind of the
    second block: the height is overwritten, so the record that the first block spent it
    is gone although that block is still on the chain. *)
Theorem respent_serial_forgotten (s s' : SparkStore) serial (h0 h : Z) :
  spent_serials s !! serial = Some h0 -> h0 < h ->
  spark_mark_serial_spent serial h (spark_checkpoint_at_height h s) = Some s' ->
  is_serial_spent s serial = true /\ is_serial_spent (spark_rewind s').1 serial = false.
Proof.
  intros Hs Hh E. unfold is_serial_spent. split; [rewrite Hs; by apply bool_decide_eq_true_2|].
  apply bool_decide_eq_false_2. unfold spark_mark_serial_spent in E.
  destruct (persist _ _) as [p|]; [|done]. injection E as <-. unfold spark_rewind. simpl.
  destruct (push_capped_snoc MAX_CHECKPOINTS (spark_checkpoints s) (mkSparkCp h (length (spark_coins s))) MAX_pos)
    as [-> | E]; [|rewrite E; unfold push_capped; simpl].
  all: rewrite ?pop_snoc; simpl; intros [x Hx]; apply map_lookup_filter_Some in Hx as [Hx Hn];
    rewrite lookup_insert_eq in Hx; injection Hx as <-; simpl in Hn; lia.
Qed.

Lemma remove_logged_refused ks t : (forall k, k ∈ ks -> k ∈ refused t) -> remove_logged ks t = t.
Proof.
  unfold remove_logged. induction ks as [|k ks IH]; intros Hk; [done|]. cbn [fold_left].
  unfold tree_remove at 2. rewrite decide_True by (apply Hk; left). apply IH. intros k' Hk'. apply Hk. by right.
Qed.

(** Deletes that the database refuses bring disconnected kernels back: the rewind reports
    success, but the rows stay and the next start replays them. *)
Lemma refused_delete_resurrects (s : KernelStore) t rest cp :
  kernel_persistence s = Some t -> rows t = rows_of (kernels s) -> list_ok (kernels s) ->
  (forall i, (i < length (kernels s))%nat -> u64_key (Z.of_nat i) ∈ refused t) ->
  pop (kernel_checkpoints s) = Some (rest, cp) ->
  (kernel_rewind s).2 = true /\ kernel_persistence (kernel_rewind s).1 = Some t
  /\ exists s', kernel_open t = Ok s' /\ kernels s' = kernels s.
Proof.
  intros Hp Hr Hl Hf Hc. unfold kernel_rewind. rewrite Hc, Hp. simpl. split; [done|]. split.
  - f_equal. apply remove_logged_refused. intros k Hk. apply elem_of_tail_keys in Hk as (i & Hi & ->). apply Hf. lia.
  - unfold kernel_open. rewrite (load_indexed_rows _ _ Hr) by apply Hl. simpl. eexists. split; [done|]. simpl.
    apply indexed_snd.
Qed.
End Faults.

(** ** A sample *)

Module Sample.
#[export] Instance blake3_id : Blake3 := fun b => b.
#[export] Instance empty_root_zero : EmptyRoot := replicate 32 0.

#[export] Instance borsh_kernel : Borsh MwKernel.
Proof.
  refine {| to_vec k := kfee k :: kheight k :: Z.of_nat (length (excess k)) :: excess k ++ ksignature k;
    from_slice l := match l with
      | f :: h :: n :: r => Some (mkKernel (take (Z.to_nat n) r) (drop (Z.to_nat n) r) f h)
      | _ => None end |}.
  intros [e g f h] _. simpl. by rewrite Nat2Z.id, take_app_length, drop_app_length.
Defined.

#[export] Instance borsh_coin : Borsh SparkCoinEntry.
Proof.
  refine {| to_vec c := coin_id c :: sheight c :: scommitment c;
    from_slice l := match l with i :: h :: r => Some (mkSparkCoin i r h) | _ => None end |}.
  by intros [i c h] _.
Defined.

#[export] Instance borsh_note : Borsh NoteCommitmentEntry.
Proof.
  refine {| to_vec e := nheight e :: ntx_index e :: nposition e :: ncommitment e;
    from_slice l := match l with h :: i :: p :: r => Some (mkNote r h i p) | _ => None end |}.
  by intros [c h i p] _.
Defined.

#[export] Instance borsh_pool_coin : Borsh SparkPoolCoin.
Proof.
  refine {| to_vec c := pheight c :: cover_index c :: Z.of_nat (length (outpoint c)) :: Z.of_nat (length (coin c))
                :: outpoint c ++ coin c ++ serial_context c;
    from_slice l := match l with
      | h :: i :: n :: m :: r =>
          Some (mkPoolCoin (take (Z.to_nat n) r) (take (Z.to_nat m) (drop (Z.to_nat n) r))
                  (drop (Z.to_nat m) (drop (Z.to_nat n) r)) h i)
      | _ => None end |}.
  intros [o c x h i] _. simpl. by rewrite !Nat2Z.id, take_app_length, drop_app_length, take_app_length, drop_app_length.
Defined.

(** The view as a tree. *)
#[export] Instance view_tree : BridgeTree tree_view := {
  bt_new n := mkView [] [] n;
  bt_append := view_append;
  bt_frontier := view_frontier;
  bt_checkpoint := view_checkpoint;
  bt_rewind := view_rewind;
  bt_root v := match leaves v with [] => None | l => Some (concat l) end;
  bt_mark v := (v, view_frontier v);
  bt_witness _ _ _ := None }.

#[export] Instance view_tree_laws : BridgeTreeLaws tree_view.
Proof.
  refine {| view v := v |}.
  - done.
  - intros leaf t. unfold view_result. simpl. by destruct (view_append leaf t).
  - done.
  - intros id t. unfold view_result. simpl. by destruct (view_checkpoint id t).
  - intros t. unfold view_result. simpl. by destruct (view_rewind t).
  - done.
  - intros t t' E. simpl in *. by rewrite E.
Defined.

Definition start : chain_stores (BT := tree_view) :=
  mkStores (shielded_empty <$> Some true) (spark_empty <$> Some true) (kernel_empty <$> Some true)
    (pool_empty <$> Some true).

Definition block1 : list store_op :=
  [AppendKernel (mkKernel (replicate 32 1) [7] 5 1); AddCoin (mkSparkCoin 0 (replicate 32 2) 1);
   AppendNote (mkNote (replicate 32 3) 1 0 0); PoolAddCoin [1; 2] [9; 9] [4] 1; PoolBalance (-50)].
Definition block2 : list store_op :=
  [MarkSerial (replicate 32 4) 2; MarkNullifier (replicate 32 5) 2; AppendNote (mkNote (replicate 32 6) 2 1 0);
   PoolMarkTag [8] 2; PoolAddCoin [3] [1] [1] 2; PoolBalance 20].

Definition after1 := default start (run_ops block1 (checkpoint_phase2_stores 1 start)).
Definition after2 := default start (run_ops block2 (checkpoint_phase2_stores 2 after1)).

Lemma start_reachable : reachable 0 start.
Proof. apply reach_new. Qed.

Ltac ops_checked := vm_compute; repeat split; try discriminate; intros; discriminate.

Lemma sample_blocks : blocks_run 0 start [(1, block1); (2, block2)] 2 after2.
Proof.
  apply (blocks_cons _ _ _ _ after1); [lia|unfold fits; lia| |apply (blocks_cons _ _ _ _ after2); [lia|unfold fits; lia| |constructor]];
    apply ops_run_exec; try (vm_compute; reflexivity); ops_checked.
Qed.

Lemma sample_second : blocks_run 1 after1 [(2, block2)] 2 after2.
Proof.
  apply (blocks_cons _ _ _ _ after2); [lia|unfold fits; lia| |constructor].
  apply ops_run_exec; [ops_checked|vm_compute; reflexivity].
Qed.

Lemma after2_reachable : reachable 2 after2.
Proof. apply (reach_blocks 0 start [(1, block1); (2, block2)]); [apply start_reachable|apply sample_blocks]. Qed.

Lemma stores_in_lockstep_witness :
  check_lockstep (phase2_stores after2) = Ok 2%nat /\ check_root_integrity (phase2_stores after2) = Ok tt.
Proof.
  destruct (stores_in_lockstep 2 after2 after2_reachable) as (_ & E & _). split; [vm_compute; reflexivity|exact E].
Defined.

Lemma reorg_exact_witness :
  exists c, rewind_blocks 2 after2 = Some c /\ chain_data c = chain_data start.
Proof.
  apply (reorg_exact 0 start [(1, block1); (2, block2)] 2 after2 start_reachable sample_blocks).
  apply (bool_decide_unpack _). vm_compute. exact I.
Defined.

Lemma restart_replays_witness :
  exists c, restart after2 = Ok c /\ chain_data c = chain_data after2 /\ rewind_phase2_stores c = Some c.
Proof.
  apply (restart_replays 2 after2 after2_reachable). repeat split; vm_compute; eauto.
Defined.

Lemma sweep_never_halts_witness :
  Security.has_consensus_halt (security_sweep after2 2) = false /\ pool_value <$> spark_pool_store after2 = Some 30
  /\ Security.has_consensus_halt (security_sweep after2 1) = true.
Proof.
  destruct (sweep_never_halts 2 after2 after2_reachable) as [E _]. split; [exact E|split; vm_compute; reflexivity].
Defined.

Definition pool_of (c : chain_stores (BT := tree_view)) : SparkPoolStore := default pool_new (spark_pool_store c).

Lemma cover_set_anchored_witness :
  cover_set_at (pool_of after2) 0 1 = cover_set_at (pool_of after1) 0 1
  /\ cover_set_at (pool_of after1) 0 1 = [[9; 9]] /\ length (cover_set_at (pool_of after2) 0 2) = 2%nat.
Proof.
  destruct (cover_set_anchored 1 after1 [(2, block2)] 2 after2 (pool_of after1) (pool_of after2) 0 1 sample_second)
    as (_ & _ & _ & E); [vm_compute; reflexivity|vm_compute; reflexivity|lia|vm_compute; discriminate|lia|].
  split; [exact E|]. split; vm_compute; reflexivity.
Defined.

Lemma failed_reorg_forgets_witness :
  is_tag_spent (pool_of after2) [8] = true
  /\ exists c, rewind_blocks 2 after2 = Some c
     /\ chain_data (reconnect_phase2 [1; 2] c) = chain_data start.
Proof.
  split; [vm_compute; reflexivity|].
  apply (failed_reorg_forgets 0 start [(1, block1); (2, block2)] 2 after2 start_reachable sample_blocks).
  apply (bool_decide_unpack _). vm_compute. exact I.
Defined.

Definition spark_of (c : chain_stores (BT := tree_view)) : SparkStore := default spark_new (spark_store c).
Definition respent : SparkStore :=
  default spark_new (spark_mark_serial_spent (replicate 32 4) 3 (spark_checkpoint_at_height 3 (spark_of after2))).

Lemma respent_serial_forgotten_witness :
  is_serial_spent (spark_of after2) (replicate 32 4) = true
  /\ is_serial_spent (spark_rewind respent).1 (replicate 32 4) = false.
Proof.
  apply (respent_serial_forgotten (spark_of after2) respent (replicate 32 4) 2 3);
    [vm_compute; reflexivity|lia|vm_compute; reflexivity].
Defined.
End Sample.
End Phase2Chain.
