(* ===== verification/Spark.v ===== *)
(** * Shielded transactions (src/src/consensus/spark_payload.rs, src/src/consensus/shielded.rs,
      src/src/chain.rs, src/crates/spark-connector/src/lib.rs, csrc/shim.cpp)

    What a shielded transaction carries, how a block of them is verified against the
    stores of [Phase2], and how it is applied to them: the connector to the Spark engine
    (the Rust wrappers and the C++ shim behind them), the payload of version 2 with its
    batched verification, the bridge between the transparent and the shielded side, the
    payload of version 1, and the rebuilding of the pool at a start.  The build with both
    shielded features is modelled.

    The engine itself (deserialisation of its objects and its proofs) is vendored code and
    the class [Libspark]; BLAKE3, Borsh and the curve are the parameters of [Phase2] and
    the class [Ristretto].  A [panic!] is [None].  Lengths that the wrappers cast to
    [c_int] and [u32] are taken to fit. *)

From Stdlib Require Import String.
From stdpp Require Import strings gmap sorting.
From S2P Require Import Prelude Types Ledger Utxo Security TxValidation Phase2 Phase2Inv Phase2Pool Phase2Chain.

Module Spark.
Import Types Phase2 Phase2Chain.

(** A loop whose body may halt the node. *)
Fixpoint each {A S} (f : A -> S -> option S) (l : list A) (s : S) : option S :=
  match l with
  | [] => Some s
  | a :: l' => match f a s with Some s' => each f l' s' | None => None end
  end.

(** ** The trait [SparkBackend] *)

Inductive ConnectorError := NotWired | Rejected | Marshalling.

Class SparkBackend := {
  verify_spend : list bytes -> bytes -> Z -> Z -> result ConnectorError (list bytes);
  verify_spend_batch : list bytes -> list bytes -> list Z -> list Z -> result ConnectorError (list (list bytes)) }.

(** The provided method: each spend on its own.  The three lists have one length. *)
Fixpoint default_verify_spend_batch
    (verify : list bytes -> bytes -> Z -> Z -> result ConnectorError (list bytes))
    (cover_set spends : list bytes) (fees value_balances : list Z) : result ConnectorError (list (list bytes)) :=
  match spends, fees, value_balances with
  | s :: spends', f :: fees', v :: value_balances' =>
      let? tags := verify cover_set s f v in
      let? out := default_verify_spend_batch verify cover_set spends' fees' value_balances' in
      Ok (tags :: out)
  | _, _, _ => Ok []
  end.

Definition StubBackend : SparkBackend :=
  let verify _ _ _ _ := Err NotWired in
  {| verify_spend := verify; verify_spend_batch := default_verify_spend_batch verify |}.

(** The provided method that the node's solvency check goes through. *)
Definition verify_solvency `{SparkBackend} (cover_set : list bytes) (spend : bytes) (fee value_balance : Z)
    (spent_tags : list bytes) : result ConnectorError (list bytes) :=
  match cover_set with
  | [] => Err Rejected
  | _ =>
      let? tags := verify_spend cover_set spend fee value_balance in
      if existsb (fun t => bool_decide (t ∈ spent_tags)) tags then Err Rejected else Ok tags
  end.

(** ** Wire forms *)

Definition TAG_SIZE : nat := 34.

Definition read_u32 (buf : bytes) : option (Z * bytes) :=
  if (length buf <? 4)%nat then None else Some (le_value (take 4 buf), drop 4 buf).

(** [count][(len)(bytes)]... *)
Fixpoint parse_counted (count : nat) (buf : bytes) : option (list bytes) :=
  match count with
  | O => Some []
  | Datatypes.S count' =>
      match read_u32 buf with
      | Some (l, buf) =>
          if (length buf <? Z.to_nat l)%nat then None
          else (fun rest => take (Z.to_nat l) buf :: rest) <$> parse_counted count' (drop (Z.to_nat l) buf)
      | None => None
      end
  end.

Definition parse_coins (buf : bytes) : option (list bytes) :=
  match read_u32 buf with Some (count, buf) => parse_counted (Z.to_nat count) buf | None => None end.

Definition marshal_cover_set (cover_set : list bytes) : bytes :=
  match cover_set with
  | [] => []
  | _ =>
      le_bytes 4 (Z.of_nat (length cover_set))
      ++ concat (map (fun c => le_bytes 4 (Z.of_nat (length c)) ++ c) cover_set)
  end.

(** [count][34-byte tag]... *)
Fixpoint parse_tag_list (count : nat) (buf : bytes) : option (list bytes) :=
  match count with
  | O => Some []
  | Datatypes.S count' =>
      if (length buf <? TAG_SIZE)%nat then None
      else (fun rest => take TAG_SIZE buf :: rest) <$> parse_tag_list count' (drop TAG_SIZE buf)
  end.

Definition parse_tags (buf : bytes) : option (list bytes) :=
  match read_u32 buf with Some (count, buf) => parse_tag_list (Z.to_nat count) buf | None => None end.

Definition emit_tags (tags : list bytes) : bytes := le_bytes 4 (Z.of_nat (length tags)) ++ concat tags.

(** ** The shim over the engine *)

(** What the shim reads off a spend bundle. *)
Record Bundle (Coin Tx : Type) := mkBundle {
  b_cover_set_id : Z;
  b_rep : bytes;
  b_cover_set : list Coin;
  b_out_coins : list Coin;
  b_output_count : Z;
  b_tx : Tx }.
Arguments mkBundle {Coin Tx}.
Arguments b_cover_set_id {Coin Tx}.
Arguments b_rep {Coin Tx}.
Arguments b_cover_set {Coin Tx}.
Arguments b_out_coins {Coin Tx}.
Arguments b_output_count {Coin Tx}.
Arguments b_tx {Coin Tx}.

(** A transaction as the engine verifies it: the id of its cover set, the set, the
    representation of the set, the output coins and the transaction. *)
Record Statement (Coin Tx : Type) := mkStatement {
  s_id : Z; s_set : list Coin; s_rep : bytes; s_out : list Coin; s_tx : Tx }.
Arguments mkStatement {Coin Tx}.

Class Libspark (Coin Tx : Type) := {
  read_bundle : bytes -> option (Bundle Coin Tx);
  read_coin : bytes -> option Coin;
  cover_set_rep : list Coin -> bytes;
  (** [SpendTransaction::verify] on a vector of transactions *)
  spend_verify : list (Statement Coin Tx) -> bool;
  used_ltags : Tx -> list bytes;
  get_fee : Tx -> Z;
  get_vout : Tx -> Z;
  (** the total and the coins in their wire form *)
  engine_verify_mint : bytes -> option (Z * bytes);
  (** the coins in their wire form and the serial context *)
  engine_spend_outputs : bytes -> option (bytes * bytes);
  serial_context : bytes -> option bytes }.

(** What is documented of the engine: the vector overload verifies every transaction, a
    linking tag is a group element of 34 bytes, and the serial context of an outpoint
    exists. *)
Class LibsparkLaws (Coin Tx : Type) `{Libspark Coin Tx} := {
  spend_verify_all : forall l, l <> [] -> spend_verify l = forallb (fun x => spend_verify [x]) l;
  used_ltags_size : forall tx, Forall (fun t => length t = TAG_SIZE) (used_ltags tx);
  serial_context_total : forall op, is_Some (serial_context op) }.

Section Engine.
Context {Coin Tx : Type} `{Libspark Coin Tx}.

Definition MAX_SPEND_OUTPUTS : Z := 64.
Definition TAGS_CAP : Z := 8192.

Definition parse_cover_set (wire : bytes) : option (list Coin) :=
  match parse_coins wire with Some l => mapM read_coin l | None => None end.

Definition statement_of (b : Bundle Coin Tx) (cover : list Coin) (rep : bytes) : Statement Coin Tx :=
  mkStatement (b_cover_set_id b) cover rep (b_out_coins b) (b_tx b).

Definition write_tags (tags : list bytes) : option bytes :=
  if TAGS_CAP <? 4 + Z.of_nat (length tags) * Z.of_nat TAG_SIZE then None else Some (emit_tags tags).

(** An empty wire keeps the set of the bundle. *)
Definition shim_verify_bundle (bundle set_wire : bytes) : option bytes :=
  match read_bundle bundle with
  | None => None
  | Some b =>
      if MAX_SPEND_OUTPUTS <? b_output_count b then None
      else
        match match set_wire with
              | [] => Some (b_cover_set b, b_rep b)
              | _ => (fun cs => (cs, cover_set_rep cs)) <$> parse_cover_set set_wire
              end with
        | None => None
        | Some (cover, rep) =>
            if spend_verify [statement_of b cover rep] then write_tags (used_ltags (b_tx b)) else None
        end
  end.

Definition read_nonempty (bundle : bytes) : option (Bundle Coin Tx) :=
  match bundle with [] => None | _ => read_bundle bundle end.

Definition shim_verify_spend_batch (set_wire : bytes) (spends : list bytes) : option bytes :=
  match spends, set_wire with
  | [], _ | _, [] => None
  | _, _ =>
      match parse_cover_set set_wire, mapM read_nonempty spends with
      | Some node_set, Some bs =>
          if forallb (fun b => from_option (fun b0 => b_cover_set_id b =? b_cover_set_id b0) true (head bs)) bs then
            if spend_verify (map (fun b => statement_of b node_set (cover_set_rep node_set)) bs) then
              if forallb (fun b => (length (used_ltags (b_tx b)) =? 1)%nat) bs
              then Some (emit_tags (concat (map (fun b => used_ltags (b_tx b)) bs))) else None
            else None
          else None
      | _, _ => None
      end
  end.

Definition shim_spend_tags (bundle : bytes) : option bytes :=
  match read_bundle bundle with Some b => write_tags (used_ltags (b_tx b)) | None => None end.

Definition shim_spend_read {A} (get : Tx -> A) (bundle : bytes) : option A :=
  match read_bundle bundle with
  | Some b => if MAX_SPEND_OUTPUTS <? b_output_count b then None else Some (get (b_tx b))
  | None => None
  end.

Definition shim_spend_ltags (bundle : bytes) : option bytes :=
  match shim_spend_read used_ltags bundle with Some tags => write_tags tags | None => None end.

(** ** The wrappers of the connector *)

Definition spend_ltags (bundle : bytes) : option (list bytes) :=
  match shim_spend_ltags bundle with Some wire => parse_tags wire | None => None end.

Definition spend_fee (bundle : bytes) : option Z := shim_spend_read get_fee bundle.
Definition spend_vout (bundle : bytes) : option Z := shim_spend_read get_vout bundle.

Definition spend_tags (bundle : bytes) : option (list bytes) :=
  match shim_spend_tags bundle with Some wire => parse_tags wire | None => None end.

Definition verify_mint_bundle (bundle : bytes) : option (Z * list bytes) :=
  match engine_verify_mint bundle with
  | Some (total, buf) => (fun coins => (total, coins)) <$> parse_coins buf
  | None => None
  end.

Definition spend_outputs (bundle : bytes) : option (list bytes * bytes) :=
  match engine_spend_outputs bundle with
  | Some (buf, ctx) => (fun coins => (coins, ctx)) <$> parse_coins buf
  | None => None
  end.

Definition libspark_verify_spend (cover_set : list bytes) (spend : bytes) (_fee _value_balance : Z)
    : result ConnectorError (list bytes) :=
  match shim_verify_bundle spend (marshal_cover_set cover_set) with
  | None => Err Rejected
  | Some wire => match parse_tags wire with Some tags => Ok tags | None => Err Marshalling end
  end.

Definition libspark_verify_spend_batch (cover_set spends : list bytes) (_fees _value_balances : list Z)
    : result ConnectorError (list (list bytes)) :=
  match spends with
  | [] => Ok []
  | _ =>
      match cover_set with
      | [] => Err Marshalling
      | _ =>
          match shim_verify_spend_batch (marshal_cover_set cover_set) spends with
          | None => Err Rejected
          | Some wire =>
              match parse_tags wire with
              | Some tags =>
                  if (length tags =? length spends)%nat then Ok (map (fun t => [t]) tags) else Err Marshalling
              | None => Err Marshalling
              end
          end
      end
  end.

Definition LibsparkBackend : SparkBackend :=
  {| verify_spend := libspark_verify_spend; verify_spend_batch := libspark_verify_spend_batch |}.
End Engine.

(** ** The payload of version 2 *)

Record SpendBundle := mkSpend { cover_set_id : Z; anchor_height : Z; bundle : bytes }.

Record SparkPayload := mkPayload {
  pversion : Z;
  mint : option bytes;
  poutputs : list bytes;
  spend : option SpendBundle;
  value_balance : Z }.

Definition SPARK_PAYLOAD_VERSION : Z := 2.

#[export] Instance SparkPayload_typed : WellTyped SparkPayload := fun p =>
  fits 255 (pversion p) /\ - 2 ^ 63 <= value_balance p < 2 ^ 63
  /\ from_option (fun sb => fits u64_max (cover_set_id sb) /\ fits u64_max (anchor_height sb)) True (spend p).

(** The variants of [Error] that the functions return; the texts of [CryptoError] are told
    apart. *)
Inductive SparkError :=
| SerializationFailed
| SparkVerifyFailed
| EngineRefused (e : ConnectorError)
| TagCountMismatch
| TagAlreadySpent
| ContextsMismatch
| DuplicateCoinOutpoint
| BridgeUnbacked
| MintNotShieldIn
| MintUnproved
| MintTotalMismatch.

Section Payload.
Context `{!Borsh SparkPayload}.

Definition decode (extra : bytes) : result SparkError SparkPayload :=
  match from_slice extra with
  | None => Err SerializationFailed
  | Some payload =>
      if pversion payload =? SPARK_PAYLOAD_VERSION then Ok payload else Err SerializationFailed
  end.

Definition encode (p : SparkPayload) : bytes := to_vec p.
End Payload.

(** The lexicographic order of [Vec<u8>]. *)
Fixpoint bytes_leb (a b : bytes) : bool :=
  match a, b with
  | [], _ => true
  | _ :: _, [] => false
  | x :: a', y :: b' => (x <? y) || ((x =? y) && bytes_leb a' b')
  end.

Definition bytes_le (a b : bytes) : Prop := bytes_leb a b = true.
#[export] Instance bytes_le_dec : RelDecision bytes_le.
Proof. intros a b. unfold bytes_le. apply _. Defined.

(** "COINCYNC_SPARK_OUTPOINT_v1" *)
Definition OUTPOINT_DOMAIN : bytes :=
  [67; 79; 73; 78; 67; 89; 78; 67; 95; 83; 80; 65; 82; 75; 95; 79; 85; 84; 80; 79; 73; 78; 84; 95; 118; 49].

Definition outpoint_preimage (input_outpoints : list bytes) (vout : Z) : bytes :=
  let sorted := merge_sort bytes_le input_outpoints in
  OUTPOINT_DOMAIN ++ le_bytes 8 (Z.of_nat (length sorted))
  ++ concat (map (fun op => le_bytes 8 (Z.of_nat (length op)) ++ op) sorted)
  ++ le_bytes 4 vout.

Definition derive_outpoint `{Blake3} (input_outpoints : list bytes) (vout : Z) : bytes :=
  blake3 (outpoint_preimage input_outpoints vout).

(** [store.spent_tags()] *)
Definition spent_tag_list (s : SparkPoolStore) : list bytes := map fst (map_to_list (spent_tags s)).

Definition verify_spark_payload `{SparkBackend} (store : SparkPoolStore) (payload : SparkPayload) (fee : Z)
    : result SparkError (list bytes) :=
  if negb (pversion payload =? SPARK_PAYLOAD_VERSION) then Err SparkVerifyFailed
  else
    match spend payload with
    | None => Ok []
    | Some sb =>
        let cover := cover_set_at store (cover_set_id sb) (anchor_height sb) in
        match cover with
        | [] => Err SparkVerifyFailed
        | _ =>
            match verify_solvency cover (bundle sb) fee (value_balance payload) (spent_tag_list store) with
            | Ok tags => Ok tags
            | Err e => Err (EngineRefused e)
            end
        end
    end.

(** *** The batch *)

Abbreviation item := (SparkPayload * Z)%type.

(** [groups.entry(key).or_default().push(i)] *)
Definition push_group (key : Z * Z) (i : nat) (groups : gmap (Z * Z) (list nat)) : gmap (Z * Z) (list nat) :=
  <[key := default [] (groups !! key) ++ [i]]> groups.

Fixpoint group_spends (i : nat) (items : list item) (groups : gmap (Z * Z) (list nat))
    : result SparkError (gmap (Z * Z) (list nat)) :=
  match items with
  | [] => Ok groups
  | (payload, _) :: items' =>
      if negb (pversion payload =? SPARK_PAYLOAD_VERSION) then Err SparkVerifyFailed
      else
        group_spends (S i) items'
          (match spend payload with
           | Some sb => push_group (cover_set_id sb, anchor_height sb) i groups
           | None => groups
           end)
  end.

(** The loop over the slots of a group. *)
Fixpoint store_tags (spent : list bytes) (slots : list (nat * list bytes)) (out : list (list bytes))
    : result SparkError (list (list bytes)) :=
  match slots with
  | [] => Ok out
  | (i, tags) :: slots' =>
      if existsb (fun t => bool_decide (t ∈ spent)) tags then Err TagAlreadySpent
      else store_tags spent slots' (<[i := tags]> out)
  end.

Definition verify_group `{SparkBackend} (store : SparkPoolStore) (items : list item)
    (group : Z * Z * list nat) (out : list (list bytes)) : result SparkError (list (list bytes)) :=
  let idxs := group.2 in
  let cover := cover_set_at store group.1.1 group.1.2 in
  match cover with
  | [] => Err SparkVerifyFailed
  | _ =>
      let its := omap (fun i => items !! i) idxs in
      let bundles := omap (fun it : item => bundle <$> spend it.1) its in
      match verify_spend_batch cover bundles (map snd its) (map (fun it => value_balance it.1) its) with
      | Err e => Err (EngineRefused e)
      | Ok group_tags =>
          if negb (length group_tags =? length idxs)%nat then Err TagCountMismatch
          else store_tags (spent_tag_list store) (zip idxs group_tags) out
      end
  end.

Fixpoint verify_groups `{SparkBackend} (store : SparkPoolStore) (items : list item)
    (groups : list (Z * Z * list nat)) (out : list (list bytes)) : result SparkError (list (list bytes)) :=
  match groups with
  | [] => Ok out
  | g :: groups' => let? out := verify_group store items g out in verify_groups store items groups' out
  end.

Definition verify_spark_payloads_batch `{SparkBackend} (store : SparkPoolStore) (items : list item)
    : result SparkError (list (list bytes)) :=
  let? groups := group_spends 0 items ∅ in
  verify_groups store items (map_to_list groups) (replicate (length items) []).

(** *** The bridge between the two sides *)

(** [curve25519_dalek]: points of the group, and their 32-byte encodings as numbers. *)
Class Ristretto (P : Type) := {
  decompress : Z -> option P;
  identity : P;
  point_add : P -> P -> P;
  point_sub : P -> P -> P;
  point_eq_dec :: EqDecision P }.

Section Bridge.
Context {P : Type} `{Ristretto P} (C : TxValidation.Crypto).

Definition decode_point (b : Z) : result SparkError P :=
  match decompress b with Some p => Ok p | None => Err SparkVerifyFailed end.

Fixpoint sum_inputs (sum : P) (l : list Z) : result SparkError P :=
  match l with
  | [] => Ok sum
  | p :: l' =>
      let? pt := decode_point p in
      if bool_decide (pt = identity) then Err SparkVerifyFailed else sum_inputs (point_add sum pt) l'
  end.

Fixpoint sum_outputs (sum : P) (l : list Z) : result SparkError P :=
  match l with
  | [] => Ok sum
  | c :: l' => let? pt := decode_point c in sum_outputs (point_add sum pt) l'
  end.

Definition verify_transparent_shielded_balance (pseudo_outputs output_commitments : list Z)
    (fee value_balance : Z) : result SparkError unit :=
  let? input_sum := sum_inputs identity pseudo_outputs in
  let? output_sum := sum_outputs identity output_commitments in
  let? fee_pt := decode_point (TxValidation.commit0 C fee) in
  let? vb_pt := decode_point (TxValidation.commit0 C (Z.abs value_balance)) in
  let expected :=
    if 0 <=? value_balance then point_sub (point_add output_sum fee_pt) vb_pt
    else point_add (point_add output_sum fee_pt) vb_pt in
  if bool_decide (input_sum = expected) then Ok tt else Err BridgeUnbacked.
End Bridge.

Definition verify_mint_shield_in {Coin Tx} `{Libspark Coin Tx} (mint_bundle : bytes) (value_balance : Z)
    : result SparkError unit :=
  if 0 <=? value_balance then Err MintNotShieldIn
  else
    match verify_mint_bundle mint_bundle with
    | None => Err MintUnproved
    | Some (total, _) => if total =? Z.abs value_balance then Ok tt else Err MintTotalMismatch
    end.

(** The keys by which the mempool tells conflicting spends, without verification. *)
Definition spend_linking_tags {Coin Tx} `{Libspark Coin Tx} (payload : SparkPayload) : result SparkError (list bytes) :=
  match spend payload with
  | None => Ok []
  | Some sb => match spend_ltags (bundle sb) with Some tags => Ok tags | None => Err SerializationFailed end
  end.

(** *** Applying a payload *)

Section Apply.
Context `{Blake3} `{!Borsh SparkPoolCoin}.

Fixpoint mark_tags (tags : list bytes) (height : Z) (store : SparkPoolStore)
    : option (SparkPoolStore * result SparkError unit) :=
  match tags with
  | [] => Some (store, Ok tt)
  | tag :: tags' =>
      match mark_tag_spent tag height store with
      | None => None
      | Some (store, false) => Some (store, Err TagAlreadySpent)
      | Some (store, true) => mark_tags tags' height store
      end
  end.

(** The coins with the outpoints that the inputs determine, from [vout] on. *)
Fixpoint add_outputs (input_outpoints : list bytes) (vout : nat) (coins : list (bytes * bytes)) (height : Z)
    (store : SparkPoolStore) : option (SparkPoolStore * result SparkError unit) :=
  match coins with
  | [] => Some (store, Ok tt)
  | (coin, ctx) :: coins' =>
      match pool_add_coin (derive_outpoint input_outpoints (wrap u32_max (Z.of_nat vout))) coin ctx height store with
      | None => None
      | Some (store, None) => Some (store, Err DuplicateCoinOutpoint)
      | Some (store, Some _) => add_outputs input_outpoints (S vout) coins' height store
      end
  end.

Definition apply_spark_payload (store : SparkPoolStore) (payload : SparkPayload)
    (input_outpoints output_contexts tags : list bytes) (height : Z)
    : option (SparkPoolStore * result SparkError unit) :=
  if negb (length (poutputs payload) =? length output_contexts)%nat then Some (store, Err ContextsMismatch)
  else
    match mark_tags tags height store with
    | None => None
    | Some (store, Err e) => Some (store, Err e)
    | Some (store, Ok _) => add_outputs input_outpoints 0 (zip (poutputs payload) output_contexts) height store
    end.
End Apply.

(** ** Blocks of version 2 transactions (src/src/chain.rs) *)

(** Why a block is refused, at the index of the transaction. *)
Inductive Refusal :=
| NotPureShielded (e : TxValidation.Error)
| ValueBalanceGated
| MintAndSpend
| BridgeFailed (e : SparkError)
| OutputsNotRevealed (e : TxValidation.Error)
| PoolUnderflow
| BareOutputs
| ShieldInWithoutMint
| NothingBehindBalance
| MintFailed (e : SparkError)
| MintUnparseable
| MintAlreadyInPool
| VoutUnreadable
| VoutNotZero
| FeeUnreadable
| FeeMismatch
| BatchFailed (e : SparkError)
| DuplicateTagInBlock.

Definition map_err {E E' A} (f : E -> E') (r : result E A) : result E' A :=
  match r with Ok a => Ok a | Err e => Err (f e) end.

Definition check {E} (b : bool) (e : E) : result E unit := if b then Ok tt else Err e.

(** [borsh::to_vec(&key_image)]: the 32 bytes of the point. *)
Definition input_outpoints (t : Transaction) : list bytes := map (fun i => be_bytes 32 (key_image i)) (inputs t).

Section Blocks.
Context `{Blake3} `{!Borsh MwKernel} `{!Borsh SparkCoinEntry} `{!Borsh NoteCommitmentEntry} `{!Borsh SparkPoolCoin}.
Context {BT : Type} `{BridgeTreeLaws BT} `{EmptyRoot}.
Context {Coin Tx : Type} `{Libspark Coin Tx}.
Context {P : Type} `{Ristretto P} (C : TxValidation.Crypto).
Context `{!Borsh SparkPayload}.

Abbreviation stores := (chain_stores (BT := BT)).

(** The outpoints that a mint of [n] coins takes. *)
Definition mint_outpoints (t : Transaction) (n : nat) : list bytes :=
  map (fun i => derive_outpoint (input_outpoints t) (wrap u32_max (Z.of_nat i))) (seq 0 n).

(** The checks of one transaction, with the value of the pool simulated so far; the new
    value. *)
Definition verify_tx (n : Ledger.NetworkType) (height : Z) (store : SparkPoolStore) (simulated_pool : Z)
    (tx : Transaction) (payload : SparkPayload) : result Refusal Z :=
  let? _ :=
    (if TxValidation.shield_bridge_enabled C n height then Ok tt
     else
       let? _ := map_err NotPureShielded (TxValidation.require_pure_shielded_shape tx) in
       check (value_balance payload =? 0) ValueBalanceGated) in
  let? _ := check (negb (bool_decide (is_Some (mint payload)) && bool_decide (is_Some (spend payload)))) MintAndSpend in
  let? _ := map_err BridgeFailed
    (verify_transparent_shielded_balance C (map pseudo_output_commitment (inputs tx))
       (map commitment (outputs tx)) (fee tx) (value_balance payload)) in
  let? _ := map_err OutputsNotRevealed (TxValidation.check_unshield_outputs_revealed C tx) in
  let simulated_pool := simulated_pool - value_balance payload in
  let? _ := check (0 <=? simulated_pool) PoolUnderflow in
  let? _ := check (length (poutputs payload) =? 0)%nat BareOutputs in
  let? _ := check (negb ((value_balance payload <? 0) && bool_decide (mint payload = None))) ShieldInWithoutMint in
  let? _ := check (negb (bool_decide (mint payload = None) && bool_decide (spend payload = None)))
              NothingBehindBalance in
  let? _ :=
    match mint payload with
    | None => Ok tt
    | Some m =>
        let? _ := map_err MintFailed (verify_mint_shield_in m (value_balance payload)) in
        match verify_mint_bundle m with
        | None => Err MintUnparseable
        | Some (_, coins) =>
            check (forallb (fun op => bool_decide (index_of store op = None)) (mint_outpoints tx (length coins)))
              MintAlreadyInPool
        end
    end in
  let? _ :=
    match spend payload with
    | None => Ok tt
    | Some sb =>
        match spend_vout (bundle sb) with
        | None => Err VoutUnreadable
        | Some vout => check (vout =? 0) VoutNotZero
        end
    end in
  let? _ :=
    (if negb (value_balance payload =? 0) && bool_decide (mint payload = None) then
       match spend payload with
       | None => Ok tt
       | Some sb =>
           match spend_fee (bundle sb) with
           | None => Err FeeUnreadable
           | Some bundle_fee => check (value_balance payload =? bundle_fee) FeeMismatch
           end
       end
     else Ok tt) in
  Ok simulated_pool.

(** The loop over the transactions: the items for the batch with their indices. *)
Fixpoint collect_items (n : Ledger.NetworkType) (height : Z) (store : SparkPoolStore) (simulated_pool : Z)
    (idx : nat) (transactions : list Transaction) : result (nat * Refusal) (list (nat * item)) :=
  match transactions with
  | [] => Ok []
  | tx :: transactions' =>
      match (if is_shielded tx then decode (extra tx) else Err SerializationFailed) with
      | Err _ => collect_items n height store simulated_pool (S idx) transactions'
      | Ok payload =>
          let? simulated_pool := map_err (pair idx) (verify_tx n height store simulated_pool tx payload) in
          let? items := collect_items n height store simulated_pool (S idx) transactions' in
          Ok ((idx, (payload, fee tx)) :: items)
      end
  end.

Fixpoint check_duplicates (seen : gset bytes) (tags : list (nat * bytes)) : result (nat * Refusal) unit :=
  match tags with
  | [] => Ok tt
  | (idx, t) :: tags' =>
      if bool_decide (t ∈ seen) then Err (idx, DuplicateTagInBlock) else check_duplicates ({[t]} ∪ seen) tags'
  end.

Definition verify_block_spark_v2_at_height (n : Ledger.NetworkType) (c : stores)
    (transactions : list Transaction) (height : Z) : result (nat * Refusal) unit :=
  match spark_pool_store c with
  | None => Ok tt
  | Some store =>
      let? items := collect_items n height store (pool_value store) 0 transactions in
      let? batch_tags := map_err (fun e => (O, BatchFailed e))
        (verify_spark_payloads_batch (H := LibsparkBackend) store (map snd items)) in
      check_duplicates ∅ (concat (zip_with (fun (it : nat * item) tags => map (pair it.1) tags) items batch_tags))
  end.

(** The mempool's question for one pending transaction, at the height of the tip
    (src/src/mempool.rs). *)
Definition shielded_unminable (n : Ledger.NetworkType) (c : stores) (tip_height : Z) (tx : Transaction) : bool :=
  is_shielded tx
  && match verify_block_spark_v2_at_height n c [tx] tip_height with Ok _ => false | Err _ => true end.

(** *** Applying a block *)

(** The output coins of a spend: a coin that is present is skipped. *)
Definition add_spend_output (ctx : bytes) (height : Z) (coin : bytes) (store : SparkPoolStore)
    : option SparkPoolStore :=
  fst <$> pool_add_coin (blake3 coin) coin ctx height store.

Definition add_mint_coin (tx : Transaction) (ctx : bytes) (height : Z) (ic : nat * bytes) (store : SparkPoolStore)
    : option SparkPoolStore :=
  match pool_add_coin (derive_outpoint (input_outpoints tx) (wrap u32_max (Z.of_nat ic.1))) ic.2 ctx height store with
  | Some (store, Some _) => Some store
  | _ => None
  end.

Definition apply_mint (tx : Transaction) (height : Z) (m : bytes) (store : SparkPoolStore) : option SparkPoolStore :=
  match verify_mint_bundle m, serial_context (derive_outpoint (input_outpoints tx) 0) with
  | Some (_, coins), Some ctx => each (add_mint_coin tx ctx height) (imap pair coins) store
  | _, _ => None
  end.

Definition apply_spend_outputs (height : Z) (bundle : bytes) (store : SparkPoolStore) : option SparkPoolStore :=
  match spend_outputs bundle with
  | Some (coins, ctx) => each (add_spend_output ctx height) coins store
  | None => Some store
  end.

Definition apply_spark_tx (height : Z) (txp : Transaction * SparkPayload) (store : SparkPoolStore)
    : option SparkPoolStore :=
  let (tx, payload) := txp in
  tags ← match spend payload with Some sb => spend_tags (bundle sb) | None => Some [] end;
  output_contexts ← mapM serial_context (mint_outpoints tx (length (poutputs payload)));
  '(store, r) ← apply_spark_payload store payload (input_outpoints tx) output_contexts tags height;
  match r with
  | Err _ => None
  | Ok _ =>
      store ← match mint payload with Some m => apply_mint tx height m store | None => Some store end;
      store ← match spend payload with Some sb => apply_spend_outputs height (bundle sb) store | None => Some store end;
      match apply_value_balance (value_balance payload) store with
      | Some (store, true) => Some store
      | _ => None
      end
  end.

(** The shielded transactions of a block that carry a payload of version 2. *)
Definition v2_items (transactions : list Transaction) : list (Transaction * SparkPayload) :=
  omap (fun tx => if is_shielded tx then match decode (extra tx) with Ok p => Some (tx, p) | Err _ => None end
                  else None) transactions.

(** The sweep after the writes; the alerts are also written to the incident log. *)
Definition halting_sweep (c : stores) (height : Z) : option stores :=
  if Security.has_consensus_halt (security_sweep c height) then None else Some c.

Definition apply_spark_v2_txs (transactions : list Transaction) (height : Z) (c : stores) : option stores :=
  match spark_pool_store c with
  | None => Some c
  | Some store =>
      store ← each (apply_spark_tx height) (v2_items transactions) store;
      halting_sweep (set_pool c (Some store)) height
  end.

(** *** Rebuilding the pool at a start (src/src/chain/recovery.rs) *)

Definition rebuild_step (get_block_by_height : Z -> option (list Transaction)) (h : Z) (c : stores) : option stores :=
  match get_block_by_height h with
  | Some transactions => apply_spark_v2_txs transactions h c
  | None => Some c
  end.

(** [false]: the column families could not be cleared. *)
Definition rebuild_spark_pool (get_block_by_height : Z -> option (list Transaction)) (tip_height : Z) (c : stores)
    : option (stores * bool) :=
  match spark_pool_store c with
  | None => Some (c, true)
  | Some store =>
      let (store, cleared) := pool_clear store in
      let c := set_pool c (Some store) in
      if cleared then
        (fun c => (c, true)) <$>
          each (rebuild_step get_block_by_height) (map Z.of_nat (seq 0 (S (Z.to_nat tip_height)))) c
      else Some (c, false)
  end.
End Blocks.

(** ** The payload of version 1 (src/src/consensus/shielded.rs) *)

Record ShieldedInput := mkShieldedInput {
  bucket_index : Z; nullifier : bytes; spend_proof : bytes; in_range_proof : bytes }.
Record ShieldedOutput := mkShieldedOutput {
  note_commitment : bytes; value_commitment : bytes; out_range_proof : bytes; mint_binding : bytes }.
Record ShieldedPayload := mkShieldedPayload {
  hversion : Z;
  hinputs : list ShieldedInput;
  houtputs : list ShieldedOutput;
  hvalue_balance : Z;
  balance_proof : bytes }.

Definition SHIELDED_PAYLOAD_VERSION : Z := 1.

#[export] Instance ShieldedPayload_typed : WellTyped ShieldedPayload := fun p =>
  fits 255 (hversion p) /\ Forall (fun i => length (nullifier i) = 32%nat) (hinputs p)
  /\ Forall (fun o => length (note_commitment o) = 32%nat) (houtputs p).

(** The pure accounting of the pool: positive unshields, negative shields. *)
Definition pool_value_apply (total value_balance : Z) : option Z :=
  let after := total - value_balance in if after <? 0 then None else Some after.

Inductive ShieldedError := InvalidPayload | DuplicateNullifier.

Section Version1.
Context `{Blake3} `{!Borsh MwKernel} `{!Borsh SparkCoinEntry} `{!Borsh NoteCommitmentEntry} `{!Borsh SparkPoolCoin}.
Context {BT : Type} `{BridgeTreeLaws BT} `{EmptyRoot}.
Context `{!Borsh SparkPayload} `{!Borsh ShieldedPayload}.

Abbreviation stores := (chain_stores (BT := BT)).
Abbreviation shielded_t := (ShieldedStore (BT := BT)).

Definition decode_v1 (extra : bytes) : result ShieldedError ShieldedPayload :=
  match from_slice extra with
  | None => Err InvalidPayload
  | Some payload =>
      if hversion payload =? SHIELDED_PAYLOAD_VERSION then Ok payload else Err InvalidPayload
  end.

Fixpoint mark_nullifiers (nfs : list bytes) (height : Z) (store : shielded_t)
    : option (shielded_t * result ShieldedError unit) :=
  match nfs with
  | [] => Some (store, Ok tt)
  | nf :: nfs' =>
      match mark_nullifier_spent nf height store with
      | None => None
      | Some (store, false) => Some (store, Err DuplicateNullifier)
      | Some (store, true) => mark_nullifiers nfs' height store
      end
  end.

Definition append_output (height tx_index : Z) (o : ShieldedOutput) (store : shielded_t) : option shielded_t :=
  fst <$> append_commitment (mkNote (note_commitment o) height tx_index 0) store.

Definition apply_shielded_payload (store : shielded_t) (payload : ShieldedPayload) (height tx_index : Z)
    : option (shielded_t * result ShieldedError unit) :=
  match mark_nullifiers (map nullifier (hinputs payload)) height store with
  | None => None
  | Some (store, Err e) => Some (store, Err e)
  | Some (store, Ok _) =>
      (fun store => (store, Ok tt)) <$> each (append_output height tx_index) (houtputs payload) store
  end.

Definition is_v2 (tx : Transaction) : bool := match decode (extra tx) with Ok _ => true | Err _ => false end.

(** The guard before a block is applied. *)
Fixpoint check_nullifiers (is_spent : bytes -> bool) (seen : gset bytes) (nfs : list bytes)
    : result ShieldedError (gset bytes) :=
  match nfs with
  | [] => Ok seen
  | nf :: nfs' =>
      if is_spent nf then Err DuplicateNullifier
      else if bool_decide (nf ∈ seen) then Err DuplicateNullifier
      else check_nullifiers is_spent ({[nf]} ∪ seen) nfs'
  end.

Fixpoint check_double_spends (is_spent : bytes -> bool) (seen : gset bytes) (transactions : list Transaction)
    : result ShieldedError unit :=
  match transactions with
  | [] => Ok tt
  | tx :: transactions' =>
      if negb (is_shielded tx) || is_v2 tx then check_double_spends is_spent seen transactions'
      else
        let? payload := decode_v1 (extra tx) in
        let? seen := check_nullifiers is_spent seen (map nullifier (hinputs payload)) in
        check_double_spends is_spent seen transactions'
  end.

Definition check_block_shielded_double_spends (transactions : list Transaction) (is_spent : bytes -> bool)
    : result ShieldedError unit :=
  check_double_spends is_spent ∅ transactions.

(** The call in [add_block], which asks the nullifier set of the store. *)
Definition shielded_gate (transactions : list Transaction) (c : stores) : result ShieldedError unit :=
  match shielded_store c with
  | None => Ok tt
  | Some s => check_block_shielded_double_spends transactions (is_nullifier_spent s)
  end.

Definition apply_shielded_tx (height : Z) (itx : nat * Transaction) (store : shielded_t) : option shielded_t :=
  let (idx, tx) := itx in
  if negb (is_shielded tx) || is_v2 tx then Some store
  else
    match decode_v1 (extra tx) with
    | Err _ => None
    | Ok payload =>
        match apply_shielded_payload store payload height (wrap u32_max (Z.of_nat idx)) with
        | Some (store, Ok _) => Some store
        | _ => None
        end
    end.

Definition apply_shielded_txs (transactions : list Transaction) (height : Z) (c : stores) : option stores :=
  match shielded_store c with
  | None => Some c
  | Some s => (fun s => set_shielded c (Some s)) <$> each (apply_shielded_tx height) (imap pair transactions) s
  end.

(** *** A block *)

Context {Coin Tx : Type} `{Libspark Coin Tx}.

(** What connecting a block does to the stores: the checkpoint, then the writes of both
    versions. *)
Definition connect_shielded (transactions : list Transaction) (height : Z) (c : stores) : option stores :=
  c ← apply_shielded_txs transactions height (checkpoint_phase2_stores height c);
  apply_spark_v2_txs transactions height c.
End Version1.
End Spark.
