(* ===== verification/SparkBatch.v ===== *)
(** * Batched verification of shielded spends

    The block gate verifies the spends of a block group by group, one call of the engine
    per cover set ([verify_spark_payloads_batch]); this file compares the batch with the
    verification of each payload on its own ([verify_spark_payload]), through what a
    backend promises of its batched method (class [BatchSpec]).  It also holds the facts on
    the wire forms of the connector and on the outpoints of minted coins. *)

From Stdlib Require Import String.
From stdpp Require Import strings gmap sorting.
From S2P Require Import Prelude Types Security TxValidation Phase2 Phase2Inv Phase2Pool Phase2Chain Spark.

Module SparkBatch.
Import Types Phase2 Phase2Inv Spark.
#[local] Opaque be_bytes Types.le_bytes.

(** ** Wire forms *)

Ltac exact_size := change (256 ^ Z.of_nat 8 - 1) with u64_max; done.

Lemma read_u32_emit v rest : fits u32_max v -> read_u32 (le_bytes 4 v ++ rest) = Some (v, rest).
Proof.
  intros Hv. unfold read_u32. pose proof (le_bytes_length 4 v) as L.
  rewrite length_app, L. replace (4 + length rest <? 4)%nat with false by (symmetry; apply Nat.ltb_ge; lia).
  rewrite (take_app_length' (le_bytes 4 v)), (drop_app_length' (le_bytes 4 v)), le_value_of_bytes; [done| |done|done].
  change (256 ^ Z.of_nat 4) with (u32_max + 1). unfold fits in Hv. lia.
Qed.

Lemma parse_tag_list_concat l : Forall (fun t => length t = TAG_SIZE) l ->
  parse_tag_list (length l) (concat l) = Some l.
Proof.
  induction 1 as [|t l Ht _ IH]; [done|]. cbn [length concat parse_tag_list].
  replace (length (t ++ concat l) <? TAG_SIZE)%nat with false by (symmetry; apply Nat.ltb_ge; rewrite length_app; lia).
  rewrite <- Ht. rewrite take_app_length, drop_app_length, IH. done.
Qed.

Lemma parse_emit_tags l : Forall (fun t => length t = TAG_SIZE) l -> Z.of_nat (length l) <= u32_max ->
  parse_tags (emit_tags l) = Some l.
Proof.
  intros Hl Hn. unfold parse_tags, emit_tags. rewrite read_u32_emit by (split; [lia|done]).
  by rewrite Nat2Z.id, parse_tag_list_concat.
Qed.

(** The set that the node marshals is the set that the shim parses. *)
Lemma parse_counted_concat l rest : Forall (fun c => Z.of_nat (length c) <= u32_max) l ->
  parse_counted (length l) (concat (map (fun c => le_bytes 4 (Z.of_nat (length c)) ++ c) l) ++ rest) = Some l.
Proof.
  induction 1 as [|c l Hc _ IH]; [done|]. cbn [length map concat parse_counted].
  rewrite <- !app_assoc. rewrite read_u32_emit by (split; [lia|done]). rewrite Nat2Z.id.
  replace (length (c ++ _) <? length c)%nat with false by (symmetry; apply Nat.ltb_ge; rewrite length_app; lia).
  rewrite take_app_length, drop_app_length, IH. done.
Qed.

Lemma parse_marshal cover : cover <> [] -> Z.of_nat (length cover) <= u32_max ->
  Forall (fun c => Z.of_nat (length c) <= u32_max) cover -> parse_coins (marshal_cover_set cover) = Some cover.
Proof.
  intros Hn Hl Hc. unfold parse_coins, marshal_cover_set. destruct cover as [|c0 cover]; [done|].
  rewrite read_u32_emit by (split; [lia|done]). rewrite Nat2Z.id.
  pose proof (parse_counted_concat (c0 :: cover) [] Hc) as E. by rewrite app_nil_r in E.
Qed.

(** ** Outpoints *)

Lemma bytes_leb_total a b : bytes_leb a b = true \/ bytes_leb b a = true.
Proof.
  revert b. induction a as [|x a IH]; intros [|y b]; simpl; [by left|by left|by right|].
  destruct (Z.lt_trichotomy x y) as [Hl|[->|Hl]].
  - left. by rewrite (proj2 (Z.ltb_lt _ _)).
  - rewrite Z.ltb_irrefl, Z.eqb_refl. simpl. apply IH.
  - right. by rewrite (proj2 (Z.ltb_lt _ _)).
Qed.

Lemma bytes_leb_antisym a b : bytes_leb a b = true -> bytes_leb b a = true -> a = b.
Proof.
  revert b. induction a as [|x a IH]; intros [|y b]; simpl; [done|done|done|].
  rewrite !orb_true_iff, !andb_true_iff, !Z.ltb_lt, !Z.eqb_eq. intros [Hl|[-> Ha]] [Hl'|[? Hb]]; try lia.
  f_equal. auto.
Qed.

Lemma bytes_leb_trans a b c : bytes_leb a b = true -> bytes_leb b c = true -> bytes_leb a c = true.
Proof.
  revert b c. induction a as [|x a IH]; intros [|y b] [|z c]; simpl; try done.
  rewrite !orb_true_iff, !andb_true_iff, !Z.ltb_lt, !Z.eqb_eq. intros [Hl|[-> Ha]] [Hl'|[-> Hb]]; [left; lia|by left|by left|].
  right. split; [done|]. eauto.
Qed.

#[export] Instance bytes_le_total : Total bytes_le.
Proof. intros a b. apply bytes_leb_total. Qed.
#[export] Instance bytes_le_trans : Transitive bytes_le.
Proof. intros a b c. apply bytes_leb_trans. Qed.
#[export] Instance bytes_le_antisym : AntiSymm eq bytes_le.
Proof. intros a b. apply bytes_leb_antisym. Qed.

Lemma sorted_unique l l' : l ≡ₚ l' -> merge_sort bytes_le l = merge_sort bytes_le l'.
Proof.
  intros E. apply (StronglySorted_unique bytes_le); [apply (StronglySorted_merge_sort bytes_le)..|].
  by rewrite !merge_sort_Permutation.
Qed.

(** The outpoint of a coin does not depend on the order of the inputs. *)
Lemma derive_outpoint_perm `{Blake3} l l' vout : l ≡ₚ l' -> derive_outpoint l vout = derive_outpoint l' vout.
Proof. intros E. unfold derive_outpoint, outpoint_preimage. by rewrite (sorted_unique _ _ E). Qed.

Definition prefixed (op : bytes) : bytes := le_bytes 8 (Z.of_nat (length op)) ++ op.

Lemma prefixed_inj l l' r r' :
  length l = length l' -> Forall (fun op => Z.of_nat (length op) <= u64_max) l ->
  Forall (fun op => Z.of_nat (length op) <= u64_max) l' ->
  concat (map prefixed l) ++ r = concat (map prefixed l') ++ r' -> l = l' /\ r = r'.
Proof.
  revert l'. induction l as [|a l IH]; intros [|b l'] Hn Hl Hl'; simpl; try done.
  apply list.Forall_cons in Hl as [Ha Hl]. apply list.Forall_cons in Hl' as [Hb Hl']. unfold prefixed.
  rewrite <- !app_assoc. intros E. apply app_inj_1 in E as [E1 E2]; [|by rewrite !le_bytes_length].
  assert (length a = length b) as Hab.
  { apply le_bytes_inj in E1; [lia| |]; split; try lia; exact_size. }
  apply app_inj_1 in E2 as [-> E2]; [|done]. injection Hn as Hn. destruct (IH l' Hn Hl Hl' E2) as [-> ->]. done.
Qed.

(** Different coins have different preimages: the inputs, as a multiset, and the position
    can be read off. *)
Lemma outpoint_preimage_inj l l' v v' :
  Z.of_nat (length l) <= u64_max -> Z.of_nat (length l') <= u64_max ->
  Forall (fun op => Z.of_nat (length op) <= u64_max) l -> Forall (fun op => Z.of_nat (length op) <= u64_max) l' ->
  fits u32_max v -> fits u32_max v' ->
  outpoint_preimage l v = outpoint_preimage l' v' -> l ≡ₚ l' /\ v = v'.
Proof.
  intros Hn Hn' Hl Hl' Hv Hv'. unfold outpoint_preimage. intros E. apply app_inv_head in E.
  apply app_inj_1 in E as [E1 E2]; [|by rewrite !le_bytes_length].
  assert (length (merge_sort bytes_le l) = length (merge_sort bytes_le l')) as Hm.
  { apply le_bytes_inj in E1; [lia| |]; split; try lia; rewrite merge_sort_Permutation; exact_size. }
  apply (prefixed_inj _ _ _ _ Hm) in E2 as [E2 E3]; [|by rewrite merge_sort_Permutation|by rewrite merge_sort_Permutation].
  split; [by rewrite <- (merge_sort_Permutation bytes_le l), E2, merge_sort_Permutation|].
  by apply le_bytes_inj in E3.
Qed.

(** ** What a backend promises of its batch

    [admitted] is what the batched method leaves unchecked, [compatible] what it asks of the
    spends together beyond each of them being valid. *)

Definition each_verifies `{SparkBackend} (cover spends : list bytes) (fees vbs : list Z) (out : list (list bytes))
    : Prop :=
  Forall2 (fun x tags => verify_spend cover x.1 x.2.1 x.2.2 = Ok tags) (zip spends (zip fees vbs)) out.

Class BatchSpec `{SparkBackend} := {
  admitted : bytes -> Prop;
  compatible : list bytes -> Prop;
  batch_spec : forall cover spends fees vbs out,
    cover <> [] -> spends <> [] -> Z.of_nat (length spends) <= u32_max -> length fees = length spends -> length vbs = length spends ->
    Forall admitted spends /\ verify_spend_batch cover spends fees vbs = Ok out
    <-> each_verifies cover spends fees vbs out /\ compatible spends }.

(** The provided method asks nothing more. *)
Lemma default_batch_each verify cover spends fees vbs out :
  length fees = length spends -> length vbs = length spends ->
  default_verify_spend_batch verify cover spends fees vbs = Ok out
  <-> Forall2 (fun x tags => verify cover x.1 x.2.1 x.2.2 = Ok tags) (zip spends (zip fees vbs)) out.
Proof.
  revert fees vbs out. induction spends as [|s spends IH]; intros [|f fees] [|v vbs] out Hf Hv; try done; simpl.
  { split; [by intros [= <-]|by intros ->%Forall2_nil_inv_l]. }
  injection Hf as Hf. injection Hv as Hv. split.
  - destruct (verify cover s f v) as [tags|] eqn:E; simpl; [|done].
    destruct (default_verify_spend_batch _ _ _ _ _) as [o|] eqn:Eo; simpl; [|done]. intros [= <-].
    constructor; [done|]. by apply IH.
  - intros (tags & o & E & Eo & ->)%Forall2_cons_inv_l. simpl in E. rewrite E. simpl.
    by rewrite (proj2 (IH _ _ _ Hf Hv) Eo).
Qed.

Definition default_spec verify :
  @BatchSpec {| verify_spend := verify; verify_spend_batch := default_verify_spend_batch verify |}.
Proof.
  refine {| admitted _ := True; compatible _ := True |}. intros cover spends fees vbs out _ _ _ Hf Hv.
  cbn [verify_spend_batch]. rewrite default_batch_each by done. unfold each_verifies. cbn [verify_spend].
  split; [by intros [_ ?]|]. intros [? _]. split; [|done]. by apply list.Forall_true.
Defined.

Section Libspark.
Context {Coin Tx : Type} `{LibsparkLaws Coin Tx}.

Definition libspark_admitted (b : bytes) : Prop :=
  match read_bundle b with Some x => b_output_count x <= MAX_SPEND_OUTPUTS | None => True end.

(** A bundle that the batch takes: it can be read, and it has one linking tag. *)
Definition single_tag (b : bytes) : Prop :=
  b <> [] /\ match read_bundle b with Some x => length (used_ltags (b_tx x)) = 1%nat | None => True end.

Definition same_cover_id (b b' : bytes) : Prop :=
  match read_bundle b, read_bundle b' with
  | Some x, Some x' => b_cover_set_id x = b_cover_set_id x' | _, _ => True end.

Definition libspark_compatible (spends : list bytes) : Prop :=
  Forall single_tag spends /\ ForallPairs same_cover_id spends.

Lemma write_single t : length t = TAG_SIZE -> write_tags [t] = Some (emit_tags [t]) /\ parse_tags (emit_tags [t]) = Some [t].
Proof. intros Ht. split; [done|]. apply parse_emit_tags; [by constructor|done]. Qed.

(** One spend with one tag. *)
Lemma verify_single cover b fee vb x t :
  cover <> [] -> read_bundle b = Some x -> used_ltags (b_tx x) = [t] ->
  libspark_verify_spend cover b fee vb = Ok [t]
  <-> b_output_count x <= MAX_SPEND_OUTPUTS
      /\ exists set, parse_cover_set (marshal_cover_set cover) = Some set
          /\ spend_verify [statement_of x set (cover_set_rep set)] = true.
Proof.
  intros Hc Hb Ht. unfold libspark_verify_spend, shim_verify_bundle. rewrite Hb, Ht.
  pose proof (used_ltags_size (b_tx x)) as S. rewrite Ht in S. apply list.Forall_cons in S as [S _].
  destruct (write_single t S) as [-> Hp].
  destruct (marshal_cover_set cover) as [|z w] eqn:Em.
  { destruct cover as [|c cover]; [done|]. exfalso. unfold marshal_cover_set in Em.
    apply (f_equal length) in Em. rewrite length_app, le_bytes_length in Em. done. }
  destruct (Z.ltb_spec MAX_SPEND_OUTPUTS (b_output_count x)) as [Hm|Hm]; [split; [done|intros [? _]; lia]|].
  destruct (parse_cover_set (z :: w)) as [set|]; simpl.
  2: { split; [done|]. by intros (_ & ? & ? & _). }
  destruct (spend_verify _) eqn:Es.
  - rewrite Hp. split; [eauto|done].
  - split; [done|]. intros (_ & ? & [= <-] & ?). congruence.
Qed.

(** A refused read refuses the spend. *)
Lemma verify_unreadable cover b fee vb : read_bundle b = None -> libspark_verify_spend cover b fee vb = Err Rejected.
Proof. intros E. unfold libspark_verify_spend, shim_verify_bundle. by rewrite E. Qed.

(** What both methods come down to: the bundles are read as [bs], with one tag each. *)
Record batch_facts (cover spends : list bytes) (out : list (list bytes)) (bs : list (Bundle Coin Tx))
    (ts : list bytes) (set : list Coin) : Prop := {
  bf_read : Forall2 (fun b x => read_nonempty b = Some x) spends bs;
  bf_tags : Forall2 (fun x t => used_ltags (b_tx x) = [t]) bs ts;
  bf_set : parse_cover_set (marshal_cover_set cover) = Some set;
  bf_proofs : Forall (fun x => spend_verify [statement_of x set (cover_set_rep set)] = true) bs;
  bf_ids : ForallPairs (fun x y => b_cover_set_id x = b_cover_set_id y) bs;
  bf_out : out = map (fun t => [t]) ts }.

Lemma singles (bs : list (Bundle Coin Tx)) : Forall (fun x => length (used_ltags (b_tx x)) = 1%nat) bs ->
  exists ts, Forall2 (fun x t => used_ltags (b_tx x) = [t]) bs ts.
Proof.
  induction 1 as [|x bs Hx _ [ts IH]]; [by exists []|].
  destruct (used_ltags (b_tx x)) as [|t [|]] eqn:E; try done. exists (t :: ts). by constructor.
Qed.

Lemma concat_singles (bs : list (Bundle Coin Tx)) ts : Forall2 (fun x t => used_ltags (b_tx x) = [t]) bs ts ->
  concat (map (fun x => used_ltags (b_tx x)) bs) = ts /\ Forall (fun t => length t = TAG_SIZE) ts.
Proof.
  induction 1 as [|x t bs ts Hx _ [IH IHf]]; [done|]. simpl. rewrite Hx, IH. split; [done|]. constructor; [|done].
  pose proof (used_ltags_size (b_tx x)) as S. rewrite Hx in S. by apply list.Forall_cons in S as [S _].
Qed.

Lemma ids_head (bs : list (Bundle Coin Tx)) :
  forallb (fun b => from_option (fun b0 => b_cover_set_id b =? b_cover_set_id b0) true (head bs)) bs = true
  <-> ForallPairs (fun x y => b_cover_set_id x = b_cover_set_id y) bs.
Proof.
  rewrite forallb_forall. split.
  - intros Hf x y Hx Hy. pose proof (Hf x Hx) as E1. pose proof (Hf y Hy) as E2.
    destruct bs as [|b0 bs]; [done|]. simpl in E1, E2. apply Z.eqb_eq in E1, E2. congruence.
  - intros Hp x Hx. destruct bs as [|b0 bs]; [done|]. simpl. apply Z.eqb_eq, Hp; [done|by left].
Qed.

Lemma batch_facts_iff cover spends fees vbs out :
  cover <> [] -> spends <> [] -> Z.of_nat (length spends) <= u32_max ->
  libspark_verify_spend_batch cover spends fees vbs = Ok out <-> exists bs ts set, batch_facts cover spends out bs ts set.
Proof.
  intros Hc Hs Hn. unfold libspark_verify_spend_batch, shim_verify_spend_batch.
  destruct (marshal_cover_set cover) as [|z w] eqn:Em.
  { destruct cover as [|c cover]; [done|]. exfalso. unfold marshal_cover_set in Em.
    apply (f_equal length) in Em. rewrite length_app, le_bytes_length in Em. done. }
  destruct spends as [|s0 spends'] eqn:Espends; [done|]. rewrite <- Espends in *. clear Espends s0 spends'.
  destruct cover as [|c0 cover'] eqn:Ecover; [done|]. rewrite <- Ecover in *. clear Ecover c0 cover'. split.
  - destruct (parse_cover_set (z :: w)) as [set|] eqn:Eset; [|done].
    destruct (mapM read_nonempty spends) as [bs|] eqn:Ebs; [|done]. apply mapM_Some in Ebs.
    destruct (forallb _ bs) eqn:Ei; [|done]. apply ids_head in Ei.
    destruct (spend_verify _) eqn:Ev; [|done]. destruct (forallb _ bs) eqn:Et in |- *; [|done].
    rewrite forallb_forall in Et. destruct (singles bs) as [ts Hts].
    { apply list.Forall_forall. intros x Hx. by apply Nat.eqb_eq, Et, list_elem_of_In. }
    destruct (concat_singles _ _ Hts) as [-> Hsz]. pose proof (Forall2_length Hts) as L1.
    pose proof (Forall2_length Ebs) as L2. rewrite parse_emit_tags by (done || lia).
    rewrite (proj2 (Nat.eqb_eq _ _)) by lia. intros [= <-]. exists bs, ts, set. constructor; try done.
    { by rewrite Em. }
    destruct bs as [|x0 bs0] eqn:Ebs0; [by constructor|]. rewrite <- Ebs0 in *.
    rewrite spend_verify_all in Ev by (by rewrite Ebs0). rewrite forallb_forall in Ev.
    apply list.Forall_forall. intros x Hx. apply Ev, in_map_iff. exists x. by rewrite <- list_elem_of_In.
  - intros (bs & ts & set & [Fr Ft Fs Fp Fi ->]). rewrite Em in Fs. rewrite Fs.
    rewrite (proj2 (mapM_Some _ _ _) Fr). rewrite (proj2 (ids_head bs) Fi).
    destruct (concat_singles _ _ Ft) as [Ec Hsz]. pose proof (Forall2_length Ft) as L1.
    pose proof (Forall2_length Fr) as L2. rewrite spend_verify_all.
    2: { destruct bs; [|done]. destruct spends; done. }
    rewrite (proj2 (forallb_forall _ _)).
    2: { intros y (x & <- & Hx)%in_map_iff. rewrite list.Forall_forall in Fp. by apply Fp, list_elem_of_In. }
    rewrite (proj2 (forallb_forall _ _)).
    2: { intros x Hx. apply list_elem_of_In, list_elem_of_lookup in Hx as [i Hi].
         destruct (Forall2_lookup_l _ _ _ _ _ Ft Hi) as (y & _ & ->). done. }
    rewrite Ec, parse_emit_tags by (done || lia). by rewrite (proj2 (Nat.eqb_eq _ _)) by lia.
Qed.

Lemma each_verifies_libspark cover spends fees vbs out :
  length fees = length spends -> length vbs = length spends ->
  each_verifies (H := LibsparkBackend) cover spends fees vbs out
  <-> Forall2 (fun b tags => libspark_verify_spend cover b 0 0 = Ok tags) spends out.
Proof.
  unfold each_verifies. revert fees vbs out. induction spends as [|s spends IH]; intros [|f fees] [|v vbs] out Hf Hv; try done.
  { split; intros ->%Forall2_nil_inv_l; constructor. }
  injection Hf as Hf. injection Hv as Hv. split; cbn [zip zip_with].
  - intros (tags & o & E & Eo & ->)%Forall2_cons_inv_l. constructor; [exact E|]. by apply (IH _ _ _ Hf Hv).
  - intros (tags & o & E & Eo & ->)%Forall2_cons_inv_l. constructor; [exact E|]. by apply (IH _ _ _ Hf Hv).
Qed.

Lemma verify_one_facts cover set b tags :
  cover <> [] -> parse_cover_set (marshal_cover_set cover) = Some set ->
  single_tag b /\ libspark_verify_spend cover b 0 0 = Ok tags
  <-> libspark_admitted b /\ exists x t, read_nonempty b = Some x /\ used_ltags (b_tx x) = [t]
        /\ spend_verify [statement_of x set (cover_set_rep set)] = true /\ tags = [t].
Proof.
  intros Hc Hset. unfold single_tag, libspark_admitted. split.
  - intros [[Hb Ht] E]. destruct (read_bundle b) as [x|] eqn:Ex; [|by rewrite verify_unreadable in E].
    destruct (used_ltags (b_tx x)) as [|t [|]] eqn:Et; try done. pose proof (verify_single cover b 0 0 x t Hc Ex Et) as V.
    assert (tags = [t]) as ->.
    { unfold libspark_verify_spend, shim_verify_bundle in E. rewrite Ex, Et in E.
      pose proof (used_ltags_size (b_tx x)) as S. rewrite Et in S. apply list.Forall_cons in S as [S _].
      destruct (write_single t S) as [Hw Hp]. rewrite Hw in E. repeat case_match; simplify_eq; congruence. }
    apply V in E as (Hm & set' & Hset' & Es). split; [done|]. exists x, t. assert (set' = set) as -> by congruence.
    destruct b; [done|]. done.
  - intros [Ha (x & t & Hr & Ht & Hv & ->)]. destruct b as [|z b]; [done|]. simpl in Hr. rewrite Hr in Ha |- *.
    split; [by rewrite Ht|]. apply (verify_single cover (z :: b) 0 0 x t Hc Hr Ht). eauto.
Qed.

Lemma same_ids spends bs : Forall2 (fun b x => read_nonempty b = Some x) spends bs ->
  ForallPairs same_cover_id spends <-> ForallPairs (fun x y => b_cover_set_id x = b_cover_set_id y) bs.
Proof.
  intros F. assert (G : forall b x, read_nonempty b = Some x -> read_bundle b = Some x) by (by intros []).
  split; intros Hp a b Ha Hb; apply list_elem_of_In, list_elem_of_lookup in Ha as [i Hi], Hb as [j Hj].
  - destruct (Forall2_lookup_r _ _ _ _ _ F Hi) as (a' & Ha' & Ra), (Forall2_lookup_r _ _ _ _ _ F Hj) as (b' & Hb' & Rb).
    specialize (Hp a' b'). unfold same_cover_id in Hp. rewrite (G _ _ Ra), (G _ _ Rb) in Hp.
    apply Hp; apply list_elem_of_In; by eapply list_elem_of_lookup_2.
  - destruct (Forall2_lookup_l _ _ _ _ _ F Hi) as (a' & Ha' & Ra), (Forall2_lookup_l _ _ _ _ _ F Hj) as (b' & Hb' & Rb).
    unfold same_cover_id. rewrite (G _ _ Ra), (G _ _ Rb). apply Hp; apply list_elem_of_In; by eapply list_elem_of_lookup_2.
Qed.

Lemma each_facts_iff cover spends out :
  cover <> [] -> spends <> [] ->
  Forall2 (fun b tags => libspark_verify_spend cover b 0 0 = Ok tags) spends out /\ libspark_compatible spends
  <-> Forall libspark_admitted spends /\ exists bs ts set, batch_facts cover spends out bs ts set.
Proof.
  intros Hc Hs. split.
  - intros [F [S I]]. destruct (parse_cover_set (marshal_cover_set cover)) as [set|] eqn:Eset.
    2: { exfalso. destruct spends as [|b spends]; [done|]. apply Forall2_cons_inv_l in F as (tags & o & E & _ & _).
         apply list.Forall_cons in S as [[Hb Ht] _]. destruct (read_bundle b) as [x|] eqn:Ex; [|by rewrite verify_unreadable in E].
         destruct (marshal_cover_set cover) as [|z w] eqn:Em.
         { destruct cover as [|c cover]; [done|]. unfold marshal_cover_set in Em.
           apply (f_equal length) in Em. rewrite length_app, le_bytes_length in Em. done. }
         unfold libspark_verify_spend, shim_verify_bundle in E. rewrite Ex, Em, Eset in E. repeat case_match; simplify_eq. }
    assert (exists bs ts, Forall libspark_admitted spends /\ Forall2 (fun b x => read_nonempty b = Some x) spends bs
      /\ Forall2 (fun x t => used_ltags (b_tx x) = [t]) bs ts
      /\ Forall (fun x => spend_verify [statement_of x set (cover_set_rep set)] = true) bs
      /\ out = map (fun t => [t]) ts) as (bs & ts & Ha & Hr & Ht & Hv & Ho).
    { clear Hs I. induction F as [|b tags spends out E F IH]; [by exists [], []|].
      apply list.Forall_cons in S as [Sb S]. destruct (IH S) as (bs & ts & Ha & Hr & Ht & Hv & ->).
      destruct (proj1 (verify_one_facts cover set b tags Hc Eset) (conj Sb E)) as [Hb (x & t & Rx & Tx' & Vx & ->)].
      exists (x :: bs), (t :: ts). repeat split; try (by constructor). }
    split; [done|]. exists bs, ts, set. constructor; try done. by apply (same_ids spends).
  - intros [Ha (bs & ts & set & [Fr Ft Fs Fp Fi ->])].
    assert (forall b x, read_nonempty b = Some x -> b <> []) as Hne by (by intros []).
    assert (Forall2 (fun b tags => single_tag b /\ libspark_verify_spend cover b 0 0 = Ok tags) spends (map (fun t => [t]) ts)) as F.
    { clear Hs Fi. revert ts Ft. induction Fr as [|b x spends bs Rx _ IH]; intros ts Ft.
      - apply Forall2_nil_inv_l in Ft as ->. constructor.
      - apply Forall2_cons_inv_l in Ft as (t & ts' & Ht & Ft & ->). apply list.Forall_cons in Ha as [Hb Ha], Fp as [Vx Fp].
        constructor; [|by apply IH]. apply (verify_one_facts cover set b [t] Hc Fs). split; [done|]. exists x, t. done. }
    split; [|split; [|by apply (same_ids _ bs)]].
    + eapply list.Forall2_impl; [exact F|]. by intros ? ? [].
    + clear -F. induction F as [|? ? ? ? [? _] _ IH]; constructor; done.
Qed.

Definition libspark_spec : @BatchSpec LibsparkBackend.
Proof.
  refine {| admitted := libspark_admitted : bytes -> Prop; compatible := libspark_compatible |}.
  intros cover spends fees vbs out Hc Hs Hn Hf Hv. rewrite (each_verifies_libspark _ _ _ _ _ Hf Hv).
  rewrite (each_facts_iff cover spends out Hc Hs). cbn [verify_spend_batch LibsparkBackend].
  by rewrite (batch_facts_iff cover spends fees vbs out Hc Hs Hn).
Defined.
End Libspark.

(** ** Groups *)

Definition item_key (it : item) : option (Z * Z) := (fun sb => (cover_set_id sb, anchor_height sb)) <$> spend it.1.

(** The indices of the items of a group, counted from [i]. *)
Fixpoint members (key : Z * Z) (i : nat) (items : list item) : list nat :=
  match items with
  | [] => []
  | it :: items' => (if decide (item_key it = Some key) then [i] else []) ++ members key (S i) items'
  end.

Definition of_version_2 (it : item) : Prop := pversion it.1 = SPARK_PAYLOAD_VERSION.

Lemma group_spends_versions i items m g : group_spends i items m = Ok g -> Forall of_version_2 items.
Proof.
  revert i m. induction items as [|[p f] items IH]; intros i m; simpl; [constructor|].
  destruct (Z.eqb_spec (pversion p) SPARK_PAYLOAD_VERSION); simpl; [|done]. intros E. constructor; [done|]. eauto.
Qed.

Lemma group_spends_lookup i items m : Forall of_version_2 items -> exists g, group_spends i items m = Ok g
  /\ forall k, g !! k = match members k i items with [] => m !! k | l => Some (default [] (m !! k) ++ l) end.
Proof.
  intros F. revert i m. induction F as [|[p f] items Hv _ IH]; intros i m; cbn [group_spends members].
  { exists m. done. }
  unfold of_version_2 in Hv. simpl in Hv. rewrite Hv, Z.eqb_refl. cbn [negb].
  destruct (IH (S i) (match spend p with Some sb => push_group (cover_set_id sb, anchor_height sb) i m | None => m end))
    as (g & E & Hg). exists g. split; [done|]. intros k. rewrite (Hg k). unfold item_key. cbn [fst].
  destruct (spend p) as [sb|]; [|by rewrite decide_False]. cbn [fmap option_fmap option_map]. unfold push_group.
  destruct (decide (k = (cover_set_id sb, anchor_height sb))) as [->|Hk].
  - rewrite lookup_insert_eq, decide_True by done. cbn [app]. destruct (members _ (S i) items); simpl; [done|].
    by rewrite <- app_assoc.
  - rewrite lookup_insert_ne by done. rewrite decide_False by congruence. done.
Qed.

Lemma elem_of_members k i items j :
  j ∈ members k i items <-> exists it, (i <= j)%nat /\ items !! (j - i)%nat = Some it /\ item_key it = Some k.
Proof.
  revert i. induction items as [|it items IH]; intros i; cbn [members].
  { split; [by intros ?%elem_of_nil|]. by intros (? & _ & ? & _). }
  rewrite elem_of_app, IH. split.
  - intros [Hj|(it' & Hj & Hl & Hk)].
    + case_decide as Hd; [|by apply elem_of_nil in Hj]. apply list_elem_of_singleton in Hj as ->.
      exists it. by rewrite Nat.sub_diag.
    + exists it'. split; [lia|]. by replace (j - i)%nat with (S (j - S i)) by lia.
  - intros (it' & Hj & Hl & Hk). destruct (decide (j = i)) as [->|Hn].
    + rewrite Nat.sub_diag in Hl. injection Hl as ->. left. rewrite decide_True by done. by apply list_elem_of_singleton.
    + right. exists it'. replace (j - i)%nat with (S (j - S i)) in Hl by lia. split; [lia|]. done.
Qed.

Lemma NoDup_members k i items : NoDup (members k i items).
Proof.
  revert i. induction items as [|it items IH]; intros i; cbn [members]; [constructor|].
  case_decide; [|apply IH]. cbn [app]. constructor; [|apply IH]. rewrite elem_of_members. intros (? & Hj & _). lia.
Qed.

(** ** Writing the tags to their slots *)

Definition inserts (slots : list (nat * list bytes)) (out : list (list bytes)) : list (list bytes) :=
  fold_left (fun o s => <[s.1 := s.2]> o) slots out.

Definition unspent (spent tags : list bytes) : Prop := existsb (fun t => bool_decide (t ∈ spent)) tags = false.

Lemma store_tags_iff spent slots out out' :
  store_tags spent slots out = Ok out' <-> Forall (fun s => unspent spent s.2) slots /\ out' = inserts slots out.
Proof.
  revert out. induction slots as [|[i tags] slots IH]; intros out; cbn [store_tags inserts fold_left].
  { split; [by intros [= ->]|by intros [_ ->]]. }
  rewrite list.Forall_cons. unfold unspent at 1. cbn [snd]. destruct (existsb _ tags).
  - split; [done|]. by intros [[? _] _].
  - rewrite IH. unfold inserts. simpl. tauto.
Qed.

Lemma inserts_length slots out : length (inserts slots out) = length out.
Proof.
  unfold inserts. revert out. induction slots as [|s slots IH]; intros out; simpl; [done|]. by rewrite IH, length_insert.
Qed.

Lemma inserts_other slots out i : i ∉ map fst slots -> inserts slots out !! i = out !! i.
Proof.
  unfold inserts. revert out. induction slots as [|[j t] slots IH]; intros out; cbn [map fst fold_left]; [done|].
  rewrite not_elem_of_cons. intros [Hn Hi]. rewrite IH by done. by rewrite list_lookup_insert_ne.
Qed.

Lemma inserts_slot slots out i t : NoDup (map fst slots) -> (i, t) ∈ slots -> (i < length out)%nat ->
  inserts slots out !! i = Some t.
Proof.
  unfold inserts. revert out. induction slots as [|[j u] slots IH]; intros out Hn Hi Hl; [by apply elem_of_nil in Hi|].
  cbn [map fst fold_left] in *. apply list.NoDup_cons in Hn as [Hj Hn]. apply elem_of_cons in Hi as [[= -> ->]|Hi].
  - pose proof (inserts_other slots (<[j := u]> out) j Hj) as E. unfold inserts in E. cbn [fst snd]. rewrite E.
    by apply list_lookup_insert_eq.
  - apply IH; [done|done|]. by rewrite length_insert.
Qed.

Lemma inserts_app a b out : inserts (a ++ b) out = inserts b (inserts a out).
Proof. apply fold_left_app. Qed.

Section Groups.
Context {BK : SparkBackend} {BS : BatchSpec}.
Variable store : SparkPoolStore.

Abbreviation spent := (spent_tag_list store).

(** A payload with a spend, on its own. *)
Lemma verify_spend_payload (it : item) sb tags :
  of_version_2 it -> spend it.1 = Some sb ->
  verify_spark_payload store it.1 it.2 = Ok tags
  <-> cover_set_at store (cover_set_id sb) (anchor_height sb) <> []
      /\ verify_spend (cover_set_at store (cover_set_id sb) (anchor_height sb)) (bundle sb) it.2 (value_balance it.1) = Ok tags
      /\ unspent spent tags.
Proof.
  intros Hv Hs. unfold verify_spark_payload, of_version_2, unspent in *. rewrite Hv, Hs. cbn [negb].
  change (negb (SPARK_PAYLOAD_VERSION =? SPARK_PAYLOAD_VERSION)) with false. cbn iota.
  destruct (cover_set_at store _ _) as [|x cover]; [by split; [|intros [? _]]|].
  unfold verify_solvency. destruct (verify_spend _ _ _ _) as [tags'|]; simpl; [|by split; [|intros (_ & ? & _)]].
  destruct (existsb _ tags') eqn:E; split; try done.
  - intros (_ & [= ->] & E'). congruence.
  - by intros [= ->].
  - by intros (_ & [= ->] & _).
Qed.

Lemma verify_mint_payload (it : item) : of_version_2 it -> spend it.1 = None ->
  verify_spark_payload store it.1 it.2 = Ok [].
Proof. intros Hv Hs. unfold verify_spark_payload, of_version_2 in *. by rewrite Hv, Hs. Qed.

Lemma verified_version (it : item) tags : verify_spark_payload store it.1 it.2 = Ok tags -> of_version_2 it.
Proof. unfold verify_spark_payload, of_version_2. by destruct (Z.eqb_spec (pversion it.1) SPARK_PAYLOAD_VERSION). Qed.

Variable items : list item.

Definition verdict (i : nat) (tags : list bytes) : Prop :=
  exists it, items !! i = Some it /\ verify_spark_payload store it.1 it.2 = Ok tags.

Definition bundle_of (it : item) : option bytes := bundle <$> spend it.1.

(** The bundles of a group. *)
Definition bundles_at (idxs : list nat) : list bytes := omap bundle_of (omap (fun i => items !! i) idxs).

Lemma verdict_unique i t t' : verdict i t -> verdict i t' -> t = t'.
Proof. intros (it & H1 & H2) (it' & H1' & H2'). congruence. Qed.

(** The members of a group as items with their spends. *)
Lemma group_items key idxs : Forall (fun i => exists it, items !! i = Some it /\ item_key it = Some key) idxs ->
  exists its sbs, omap (fun i => items !! i) idxs = its /\ omap bundle_of its = map bundle sbs
    /\ Forall2 (fun i it => items !! i = Some it) idxs its
    /\ Forall2 (fun it sb => spend it.1 = Some sb /\ (cover_set_id sb, anchor_height sb) = key) its sbs.
Proof.
  induction 1 as [|i idxs (it & Hi & Hk) _ (its & sbs & E1 & E2 & F1 & F2)]; [by exists [], []|].
  unfold item_key in Hk. destruct (spend it.1) as [sb|] eqn:Es; [|done]. injection Hk as Hk.
  exists (it :: its), (sb :: sbs). cbn [omap list_omap]. rewrite Hi, E1. unfold bundle_of at 1. rewrite Es. simpl.
  rewrite E2. repeat split; by constructor.
Qed.

Lemma group_each key its sbs gt :
  Forall of_version_2 its -> cover_set_at store key.1 key.2 <> [] ->
  Forall2 (fun it sb => spend it.1 = Some sb /\ (cover_set_id sb, anchor_height sb) = key) its sbs ->
  each_verifies (cover_set_at store key.1 key.2) (map bundle sbs) (map snd its) (map (fun it : item => value_balance it.1) its) gt
    /\ Forall (unspent spent) gt
  <-> Forall2 (fun it tags => verify_spark_payload store it.1 it.2 = Ok tags) its gt.
Proof.
  intros Hv Hc F. unfold each_verifies. revert gt. induction F as [|it sb its sbs [Hs Hk] F IH]; intros gt; cbn [map zip zip_with].
  { split; [by intros [->%Forall2_nil_inv_l _]|]. intros ->%Forall2_nil_inv_l. split; constructor. }
  apply list.Forall_cons in Hv as [Hi Hv]. pose proof (fun tags => verify_spend_payload it sb tags Hi Hs) as V.
  rewrite <- Hk in Hc. cbn [fst snd] in Hc. split.
  - intros [(tags & gt' & E & F' & ->)%Forall2_cons_inv_l [U U']%list.Forall_cons]. constructor.
    + apply V. rewrite <- Hk in E. done.
    + apply (IH Hv). done.
  - intros (tags & gt' & E & F' & ->)%Forall2_cons_inv_l. apply V in E as (_ & E & U). apply (IH Hv) in F' as [F' U'].
    split; constructor; try done. rewrite <- Hk. done.
Qed.

Lemma verdicts_items idxs its gt : Forall2 (fun i it => items !! i = Some it) idxs its ->
  Forall2 verdict idxs gt <-> Forall2 (fun it tags => verify_spark_payload store it.1 it.2 = Ok tags) its gt.
Proof.
  intros F. revert gt. induction F as [|i it idxs its Hi F IH]; intros gt.
  { split; intros ->%Forall2_nil_inv_l; constructor. }
  split; intros (t & gt' & E & F' & ->)%Forall2_cons_inv_l; (constructor; [|by apply IH]).
  - destruct E as (it' & Hi' & E). congruence.
  - by exists it.
Qed.

Hypothesis items_v2 : Forall of_version_2 items.
Hypothesis items_fit : Z.of_nat (length items) <= u32_max.

Definition in_group (key : Z * Z) (idxs : list nat) : Prop :=
  Forall (fun i => exists it, items !! i = Some it /\ item_key it = Some key) idxs
  /\ idxs <> [] /\ NoDup idxs.

Lemma group_size key idxs : in_group key idxs -> (length idxs <= length items)%nat.
Proof.
  intros (F & _ & N). rewrite <- (length_seq (length items) 0). apply submseteq_length, list.NoDup_submseteq; [done|].
  intros i Hi. rewrite list.Forall_forall in F. destruct (F i Hi) as (it & Hl & _). apply lookup_lt_Some in Hl.
  apply elem_of_seq. lia.
Qed.

Lemma verify_group_iff key idxs out out' :
  in_group key idxs ->
  Forall admitted (bundles_at idxs) /\ verify_group store items (key, idxs) out = Ok out'
  <-> exists gt, Forall2 verdict idxs gt /\ compatible (bundles_at idxs) /\ out' = inserts (zip idxs gt) out.
Proof.
  intros G. pose proof (group_size _ _ G) as Hlen. destruct G as (F & Hne & _).
  destruct (group_items key idxs F) as (its & sbs & E1 & E2 & F1 & F2). unfold bundles_at, verify_group. rewrite E1.
  cbn [fst snd]. fold bundle_of. rewrite E2. pose proof (Forall2_length F1) as L1. pose proof (Forall2_length F2) as L2.
  assert (Hits : Forall of_version_2 its).
  { clear -F1 items_v2. induction F1 as [|i it idxs its Hi _ IH]; constructor; [|done]. by apply (proj1 (Forall_lookup _ _) items_v2 i it). }
  assert (Hsb : map bundle sbs <> []) by (destruct sbs, idxs, its; done).
  destruct (cover_set_at store key.1 key.2) as [|x cover] eqn:Ec.
  { split; [by intros [_ ?]|]. intros (gt & V & _). apply (verdicts_items _ _ _ F1) in V.
    destruct its as [|it its]; [by destruct idxs|]. destruct sbs as [|sb sbs]; [done|].
    apply Forall2_cons_1 in F2 as [[Hs Hk] _]. apply Forall2_cons_inv_l in V as (tags & ? & V & _ & _).
    apply list.Forall_cons in Hits as [Hi _]. apply (verify_spend_payload it sb tags Hi Hs) in V as [V _].
    rewrite <- Hk in Ec. by destruct V. }
  rewrite <- Ec in *. assert (Hc : cover_set_at store key.1 key.2 <> []) by (by rewrite Ec).
  pose proof (fun gt => batch_spec (cover_set_at store key.1 key.2) (map bundle sbs) (map snd its)
    (map (fun it : item => value_balance it.1) its) gt Hc Hsb) as BSp. rewrite !length_map in BSp.
  pose proof (group_each key its sbs) as GE. pose proof (verdicts_items idxs its) as VI.
  rewrite E1, E2. split.
  - intros [Ha E]. destruct (verify_spend_batch _ _ _ _) as [gt|] eqn:Eb; [|done].
    destruct (Nat.eqb_spec (length gt) (length idxs)) as [Hl|]; [|done]. cbn [negb] in E.
    apply store_tags_iff in E as [U ->]. exists gt.
    destruct (proj1 (BSp gt ltac:(lia) ltac:(lia) ltac:(lia)) (conj Ha eq_refl)) as [Ev Hk]. split; [|done].
    apply (VI gt F1), (GE gt Hits Hc F2). split; [done|]. clear -U Hl.
    revert gt Hl U. induction idxs as [|i idxs IH]; intros [|g gt] Hl U; try done.
    apply list.Forall_cons in U as [U1 U]. constructor; [done|]. apply IH; [by injection Hl|done].
  - intros (gt & V & Hk & ->). apply (VI gt F1), (GE gt Hits Hc F2) in V as [Ev U].
    destruct (proj2 (BSp gt ltac:(lia) ltac:(lia) ltac:(lia)) (conj Ev Hk)) as [Ha ->]. split; [done|].
    assert (length gt = length idxs) as Hl.
    { apply Forall2_length in Ev. rewrite !length_zip, !length_map in Ev. lia. }
    rewrite (proj2 (Nat.eqb_eq _ _) Hl). cbn [negb]. apply store_tags_iff. split; [|done].
    clear -U Hl. revert gt Hl U. induction idxs as [|i idxs IH]; intros [|g gt] Hl U; try done.
    apply list.Forall_cons in U as [U1 U]. constructor; [done|]. apply IH; [by injection Hl|done].
Qed.

Definition slots_of (gs : list (Z * Z * list nat)) (gts : list (list (list bytes))) : list (nat * list bytes) :=
  concat (zip_with (fun g gt => zip g.2 gt) gs gts).

Lemma verify_groups_iff gs out out' :
  Forall (fun g => in_group g.1 g.2) gs ->
  Forall (fun g => Forall admitted (bundles_at g.2)) gs /\ verify_groups store items gs out = Ok out'
  <-> exists gts, Forall2 (fun g gt => Forall2 verdict g.2 gt) gs gts
        /\ Forall (fun g => compatible (bundles_at g.2)) gs /\ out' = inserts (slots_of gs gts) out.
Proof.
  intros F. revert out out'. induction F as [|[key idxs] gs Hg _ IH]; intros out out'; cbn [verify_groups].
  { split.
    - intros [_ [= ->]]. exists []. repeat split; constructor.
    - intros (gts & ->%Forall2_nil_inv_l & _ & ->). split; [constructor|done]. }
  cbn [fst snd] in Hg. split.
  - intros [[Ha Ha']%list.Forall_cons E]. cbn [snd] in Ha.
    destruct (verify_group store items (key, idxs) out) as [o|] eqn:Eg; simpl in E; [|done].
    destruct (proj1 (verify_group_iff key idxs out o Hg) (conj Ha Eg)) as (gt & V & K & ->).
    destruct (proj1 (IH _ _) (conj Ha' E)) as (gts & Vs & Ks & ->). exists (gt :: gts).
    repeat split; try (by constructor). unfold slots_of. cbn [zip_with concat snd]. by rewrite inserts_app.
  - intros (gts & V & [K Ks]%list.Forall_cons & ->). apply Forall2_cons_inv_l in V as (gt & gts' & V & Vs & ->).
    cbn [snd] in *. destruct (proj2 (verify_group_iff key idxs out _ Hg)
      (ex_intro _ gt (conj V (conj K eq_refl)))) as [Ha Eg]. rewrite Eg. simpl.
    destruct (proj2 (IH (inserts (zip idxs gt) out) _) (ex_intro _ gts' (conj Vs (conj Ks eq_refl)))) as [Ha' E].
    split; [by constructor|]. rewrite E. unfold slots_of. cbn [zip_with concat snd]. by rewrite inserts_app.
Qed.

(** The groups of the batch are the sets of members. *)
Definition grouped (gs : list (Z * Z * list nat)) : Prop :=
  NoDup (map fst gs) /\ forall k l, (k, l) ∈ gs <-> l = members k 0 items /\ l <> [].

Lemma groups_of : exists g, group_spends 0 items ∅ = Ok g /\ grouped (map_to_list g).
Proof.
  destruct (group_spends_lookup 0 items ∅ items_v2) as (g & E & Hg). exists g. split; [done|]. split.
  { apply NoDup_fst_map_to_list. }
  intros k l. rewrite elem_of_map_to_list, (Hg k), lookup_empty. cbn [default from_option app].
  destruct (members k 0 items) as [|j m].
  - split; [done|]. by intros [-> ?].
  - split; [by intros [= <-]|]. by intros [-> _].
Qed.

Lemma grouped_in gs : grouped gs -> Forall (fun g => in_group g.1 g.2) gs.
Proof.
  intros [_ G]. apply list.Forall_forall. intros [k l] Hk. apply G in Hk as [-> Hn]. cbn [fst snd].
  split; [|by split; [|apply NoDup_members]]. apply list.Forall_forall.
  intros i (it & _ & Hl & Hk)%elem_of_members. rewrite Nat.sub_0_r in Hl. eauto.
Qed.

Lemma slots_indices gs gts : Forall2 (fun g gt => Forall2 verdict g.2 gt) gs gts ->
  map fst (slots_of gs gts) = concat (map snd gs).
Proof.
  unfold slots_of. induction 1 as [|[k l] gt gs gts Hv _ IH]; [done|]. cbn [zip_with concat map snd].
  rewrite map_app, IH. f_equal. apply Forall2_length in Hv. simpl in Hv. apply (fst_zip l gt). lia.
Qed.

Lemma slots_verdicts gs gts i tags : Forall2 (fun g gt => Forall2 verdict g.2 gt) gs gts ->
  (i, tags) ∈ slots_of gs gts -> verdict i tags.
Proof.
  unfold slots_of. induction 1 as [|[k l] gt gs gts Hv _ IH]; [by intros ?%elem_of_nil|]. cbn [zip_with concat snd] in *.
  rewrite elem_of_app. intros [Hi|Hi]; [|auto]. apply list_elem_of_lookup in Hi as [n Hn].
  apply lookup_zip_Some in Hn as [Hi Ht]. destruct (Forall2_lookup_lr _ _ _ _ _ _ Hv Hi Ht) as (it & ? & ?). by exists it.
Qed.

Lemma NoDup_indices gs : grouped gs -> NoDup (concat (map snd gs)).
Proof.
  intros [N G]. assert (G' : forall k l, (k, l) ∈ gs -> l = members k 0 items) by (intros k l Hk; by apply G).
  clear G. induction gs as [|[k l] gs IH]; [constructor|]. cbn [map fst snd concat] in *.
  apply list.NoDup_cons in N as [Hk N]. apply list.NoDup_app. split; [|split].
  - rewrite (G' k l) by left. apply NoDup_members.
  - rewrite (G' k l) by left. intros i Hi Hc. apply elem_of_members in Hi as (it & _ & Hl & Hi).
    apply list_elem_of_In, in_concat in Hc as (l' & (g' & <- & Hg')%in_map_iff & Hc). destruct g' as [k' l'].
    apply list_elem_of_In in Hg', Hc. cbn [snd] in Hc. rewrite (G' k' l') in Hc by (by right).
    apply elem_of_members in Hc as (it' & _ & Hl' & Hi'). assert (k' = k) as -> by congruence.
    apply Hk, list_elem_of_fmap. by exists (k, l').
  - apply IH; [done|]. intros k' l' Hk'. apply G'. by right.
Qed.

Lemma elem_of_indices gs i : grouped gs ->
  i ∈ concat (map snd gs) <-> exists it k, items !! i = Some it /\ item_key it = Some k.
Proof.
  intros [_ G]. rewrite list_elem_of_In, in_concat. split.
  - intros (l & ((k, l') & <- & Hg)%in_map_iff & Hi). apply list_elem_of_In in Hg, Hi. apply G in Hg as [-> _].
    apply elem_of_members in Hi as (it & _ & Hl & Hk). rewrite Nat.sub_0_r in Hl. eauto.
  - intros (it & k & Hl & Hk). assert (Hm : i ∈ members k 0 items).
    { apply elem_of_members. exists it. rewrite Nat.sub_0_r. split; [lia|done]. }
    exists (members k 0 items). split; [|by apply list_elem_of_In]. apply in_map_iff. exists (k, members k 0 items).
    split; [done|]. apply list_elem_of_In, G. split; [done|]. intros E. rewrite E in Hm. by apply elem_of_nil in Hm.
Qed.

Lemma inserts_sound gs gts : grouped gs -> Forall2 (fun g gt => Forall2 verdict g.2 gt) gs gts ->
  Forall2 (fun it tags => verify_spark_payload store it.1 it.2 = Ok tags) items
    (inserts (slots_of gs gts) (replicate (length items) [])).
Proof.
  intros G V. pose proof (slots_indices _ _ V) as Ei. apply Forall2_same_length_lookup. split.
  { by rewrite inserts_length, length_replicate. }
  intros i it tags Hi Ht. pose proof (lookup_lt_Some _ _ _ Hi) as Hl. destruct (spend it.1) as [sb|] eqn:Es.
  - assert (Hin : i ∈ map fst (slots_of gs gts)).
    { rewrite Ei. apply (elem_of_indices gs i G). exists it, (cover_set_id sb, anchor_height sb).
      unfold item_key. by rewrite Es. }
    apply list_elem_of_fmap in Hin as ([j t] & -> & Hj). cbn [fst] in *.
    rewrite (inserts_slot _ _ j t) in Ht; [|rewrite Ei; by apply NoDup_indices|done|by rewrite length_replicate].
    injection Ht as ->. destruct (slots_verdicts _ _ _ _ V Hj) as (it' & Hi' & E). congruence.
  - rewrite inserts_other in Ht.
    + rewrite lookup_replicate_2 in Ht by done. injection Ht as <-. apply verify_mint_payload; [|done].
      by apply (proj1 (Forall_lookup _ _) items_v2 i it).
    + rewrite Ei, (elem_of_indices gs i G). intros (it' & k & Hi' & Hk). unfold item_key in Hk.
      assert (it' = it) as -> by congruence. by rewrite Es in Hk.
Qed.
End Groups.

(** ** The batch and the single verification *)

Definition admits `{BS : BatchSpec} (it : item) : Prop := from_option admitted True (bundle_of it).

Definition joint `{BS : BatchSpec} (items : list item) : Prop :=
  forall key, members key 0 items <> [] -> compatible (bundles_at items (members key 0 items)).

Lemma elem_of_bundles_at items idxs b : b ∈ bundles_at items idxs -> exists it, it ∈ items /\ bundle_of it = Some b.
Proof.
  unfold bundles_at. intros (it & (i & _ & Hi)%list_elem_of_omap & Hb)%list_elem_of_omap. exists it.
  split; [by eapply list_elem_of_lookup_2|done].
Qed.

Section Batch.
Context {BK : SparkBackend} {BS : BatchSpec}.

Lemma batch_sound store items out :
  Z.of_nat (length items) <= u32_max -> Forall admits items ->
  verify_spark_payloads_batch store items = Ok out ->
  Forall2 (fun it tags => verify_spark_payload store it.1 it.2 = Ok tags) items out /\ joint items.
Proof.
  intros Hn Ha E. unfold verify_spark_payloads_batch in E.
  destruct (group_spends 0 items ∅) as [g|] eqn:Eg; simpl in E; [|done].
  pose proof (group_spends_versions _ _ _ _ Eg) as Hv. destruct (groups_of items Hv) as (g' & Eg' & G).
  assert (g' = g) as -> by congruence. pose proof (grouped_in items _ G) as Hin.
  assert (A : Forall (fun g => Forall admitted (bundles_at items g.2)) (map_to_list g)).
  { apply list.Forall_forall. intros x _. apply list.Forall_forall. intros b (it & Hit & Hb)%elem_of_bundles_at.
    rewrite list.Forall_forall in Ha. specialize (Ha it Hit). unfold admits in Ha. by rewrite Hb in Ha. }
  destruct (proj1 (verify_groups_iff store items Hv Hn _ _ _ Hin) (conj A E)) as (gts & V & K & ->). split.
  - by apply inserts_sound.
  - intros key Hk. rewrite list.Forall_forall in K. apply (K (key, members key 0 items)), G. done.
Qed.

Lemma batch_complete store items out :
  Z.of_nat (length items) <= u32_max ->
  Forall2 (fun it tags => verify_spark_payload store it.1 it.2 = Ok tags) items out -> joint items ->
  Forall admits items /\ verify_spark_payloads_batch store items = Ok out.
Proof.
  intros Hn F J. assert (Hv : Forall of_version_2 items).
  { clear -F. induction F as [|it tags items out E _ IH]; constructor; [|done]. by eapply verified_version. }
  destruct (groups_of items Hv) as (g & Eg & G). pose proof (grouped_in items _ G) as Hin.
  set (gts := map (fun x : Z * Z * list nat => map (fun i => default [] (out !! i)) x.2) (map_to_list g)).
  assert (V : Forall2 (fun x gt => Forall2 (verdict store items) x.2 gt) (map_to_list g) gts).
  { unfold gts. apply Forall2_fmap_r, Forall_Forall2_diag, list.Forall_forall. intros [k l] Hk. cbn [snd].
    apply G in Hk as [-> _]. apply Forall2_fmap_r, Forall_Forall2_diag, list.Forall_forall.
    intros i (it & _ & Hl & _)%elem_of_members. rewrite Nat.sub_0_r in Hl.
    destruct (Forall2_lookup_l _ _ _ _ _ F Hl) as (tags & Ht & E). cbn beta. unfold compose. rewrite Ht. by exists it. }
  assert (K : Forall (fun x : Z * Z * list nat => compatible (bundles_at items x.2)) (map_to_list g)).
  { apply list.Forall_forall. intros [k l] Hx. apply G in Hx as [-> Hne]. by apply J. }
  destruct (proj2 (verify_groups_iff store items Hv Hn (map_to_list g) (replicate (length items) []) _ Hin)
    (ex_intro _ gts (conj V (conj K eq_refl)))) as [A E].
  split.
  - apply list.Forall_forall. intros it Hit. unfold admits. destruct (bundle_of it) as [b|] eqn:Eb; [|done]. simpl.
    apply list_elem_of_lookup in Hit as [i Hi]. unfold bundle_of in Eb. destruct (spend it.1) as [sb|] eqn:Es; [|done].
    set (k := (cover_set_id sb, anchor_height sb)). assert (Hm : i ∈ members k 0 items).
    { apply elem_of_members. exists it. rewrite Nat.sub_0_r. unfold item_key. rewrite Es. split; [lia|done]. }
    rewrite list.Forall_forall in A. assert (Hne : members k 0 items <> []).
    { intros E0. rewrite E0 in Hm. by apply elem_of_nil in Hm. }
    pose proof (A (k, members k 0 items) (proj2 (proj2 G k _) (conj eq_refl Hne))) as Ak. rewrite list.Forall_forall in Ak.
    apply Ak. unfold bundles_at. apply list_elem_of_omap. exists it. split; [apply list_elem_of_omap; by exists i|].
    unfold bundle_of. by rewrite Es.
  - unfold verify_spark_payloads_batch. rewrite Eg. simpl. rewrite E. f_equal.
    pose proof (inserts_sound store items Hv _ _ G V) as S. clear -S F. revert S.
    generalize (inserts (slots_of (map_to_list g) gts) (replicate (length items) [])). intros o S. revert o S.
    induction F as [|it tags items out E _ IH]; intros o S.
    + by apply Forall2_nil_inv_l in S.
    + apply Forall2_cons_inv_l in S as (t & o' & E' & S & ->). rewrite E in E'. injection E' as <-. f_equal. auto.
Qed.
End Batch.

(** With the provided batch method the two ways of verifying agree without a condition. *)
Lemma default_batch_iff verify store items out :
  Z.of_nat (length items) <= u32_max ->
  verify_spark_payloads_batch (H := {| verify_spend := verify; verify_spend_batch := default_verify_spend_batch verify |})
    store items = Ok out
  <-> Forall2 (fun it tags =>
        verify_spark_payload (H := {| verify_spend := verify; verify_spend_batch := default_verify_spend_batch verify |})
          store it.1 it.2 = Ok tags) items out.
Proof.
  intros Hn. split.
  - intros E. apply (batch_sound (BS := default_spec verify)); [done| |done].
    apply list.Forall_forall. intros it _. unfold admits. by destruct (bundle_of it).
  - intros F. by apply (batch_complete (BS := default_spec verify)).
Qed.

Section Equivalence.
Context {Coin Tx : Type} `{LibsparkLaws Coin Tx}.

(** What the engine's batch leaves unchecked of one payload, and what it asks of it. *)
Definition outputs_bounded (it : item) : Prop := from_option libspark_admitted True (bundle_of it).
Definition one_tag (it : item) : Prop := from_option single_tag True (bundle_of it).

(** The ids that the bundles of one group carry agree. *)
Definition ids_agree (items : list item) : Prop :=
  forall it it' b b', it ∈ items -> it' ∈ items -> item_key it = item_key it' ->
    bundle_of it = Some b -> bundle_of it' = Some b' -> same_cover_id b b'.

Lemma elem_of_members_bundles items key b :
  b ∈ bundles_at items (members key 0 items)
  <-> exists it, it ∈ items /\ item_key it = Some key /\ bundle_of it = Some b.
Proof.
  unfold bundles_at. rewrite list_elem_of_omap. split.
  - intros (it & (i & (it' & _ & Hl & Hk)%elem_of_members & Hi)%list_elem_of_omap & Hb). rewrite Nat.sub_0_r in Hl.
    exists it. assert (it' = it) as -> by congruence. split; [by eapply list_elem_of_lookup_2|done].
  - intros (it & Hit & Hk & Hb). apply list_elem_of_lookup in Hit as [i Hi]. exists it. split; [|done].
    apply list_elem_of_omap. exists i. split; [|done]. apply elem_of_members. exists it. rewrite Nat.sub_0_r. split; [lia|done].
Qed.

Lemma joint_iff items : joint (BS := libspark_spec) items <-> Forall one_tag items /\ ids_agree items.
Proof.
  unfold joint. cbn [compatible libspark_spec]. unfold libspark_compatible, one_tag, ids_agree. split.
  - intros J. assert (K : forall it b, it ∈ items -> bundle_of it = Some b -> exists key, item_key it = Some key
      /\ members key 0 items <> [] /\ b ∈ bundles_at items (members key 0 items)).
    { intros it b Hit Hb. unfold bundle_of in Hb. destruct (spend it.1) as [sb|] eqn:Es; [|done].
      exists (cover_set_id sb, anchor_height sb). assert (Hk : item_key it = Some (cover_set_id sb, anchor_height sb)).
      { unfold item_key. by rewrite Es. }
      assert (Hm : b ∈ bundles_at items (members (cover_set_id sb, anchor_height sb) 0 items)).
      { apply elem_of_members_bundles. exists it. unfold bundle_of. by rewrite Es. }
      split; [done|]. split; [|done]. intros E. rewrite E in Hm. by apply elem_of_nil in Hm. }
    split.
    + apply list.Forall_forall. intros it Hit. destruct (bundle_of it) as [b|] eqn:Eb; [|done]. simpl.
      destruct (K it b Hit Eb) as (key & Hk & Hne & Hm). destruct (J key Hne) as [S _].
      rewrite list.Forall_forall in S. by apply S.
    + intros it it' b b' Hit Hit' Hk Hb Hb'. destruct (K it b Hit Hb) as (key & Hkey & Hne & Hm).
      destruct (K it' b' Hit' Hb') as (key' & Hkey' & _ & Hm'). assert (key' = key) as -> by congruence.
      destruct (J key Hne) as [_ I]. by apply I; apply list_elem_of_In.
  - intros [S I] key _. split.
    + apply list.Forall_forall. intros b (it & Hit & _ & Hb)%elem_of_members_bundles.
      rewrite list.Forall_forall in S. specialize (S it Hit). by rewrite Hb in S.
    + intros b b' Hb Hb'. apply list_elem_of_In, elem_of_members_bundles in Hb as (it & Hit & Hk & Hb).
      apply list_elem_of_In, elem_of_members_bundles in Hb' as (it' & Hit' & Hk' & Hb'). apply (I it it' b b'); try done. by rewrite Hk, Hk'.
Qed.

(** C18: The batched verification of a block's spends accepts, with the tags it returns,
    exactly the blocks whose payloads are each accepted on their own with these tags, whose
    spends have one linking tag each, and whose bundles carry, within each group, one
    common cover-set id; the bound on the number of outputs is not checked by the batch. *)
Theorem batch_iff_each (store : SparkPoolStore) (items : list item) (out : list (list bytes)) :
  Z.of_nat (length items) <= u32_max ->
  (Forall outputs_bounded items /\ verify_spark_payloads_batch (H := LibsparkBackend) store items = Ok out)
  <-> (Forall2 (fun it tags => verify_spark_payload (H := LibsparkBackend) store it.1 it.2 = Ok tags) items out
      /\ Forall one_tag items /\ ids_agree items).
Proof.
  intros Hn. rewrite <- joint_iff. split.
  - intros [Ha E]. by apply (batch_sound (BS := libspark_spec)).
  - intros [F J]. by apply (batch_complete (BS := libspark_spec)).
Qed.
End Equivalence.
(** ** A sample *)

Module Sample.
Import Phase2Chain.Phase2Chain.Sample.

(** An engine whose bundles are the id of the cover set, the number of outputs, the fee and
    a byte that the tag is made of; a mint is its total and one coin. *)
#[export] Instance toy_engine : Libspark bytes (Z * Z) := {
  read_bundle b := match b with [id; outs; f; t] => Some (mkBundle id [] [] [] outs (f, t)) | _ => None end;
  read_coin := Some;
  cover_set_rep := concat (A := Z);
  spend_verify l := forallb (fun st => negb (length (s_set _ _ st) =? 0)%nat && (0 <=? (s_tx _ _ st).1)) l;
  used_ltags tx := [replicate TAG_SIZE tx.2];
  get_fee := fst;
  get_vout _ := 0;
  engine_verify_mint b := match b with [total; k] => Some (total, marshal_cover_set [[k]]) | _ => None end;
  engine_spend_outputs b := match b with [_; _; _; t] => Some (marshal_cover_set [[t; 99]], [7]) | _ => None end;
  serial_context _ := Some [1] }.

#[export] Instance toy_engine_laws : LibsparkLaws bytes (Z * Z).
Proof.
  constructor; cbn [spend_verify used_ltags serial_context toy_engine].
  - intros l _. induction l as [|x l IH]; [done|]. cbn [forallb] in *. by rewrite IH, andb_true_r.
  - intros tx. by constructor.
  - intros op. by eexists.
Defined.

Definition spend_item (id f t : Z) : item := (mkPayload 2 None [] (Some (mkSpend 0 1 [id; 1; f; t])) f, 0).

Lemma batch_iff_each_witness :
  Forall2 (fun it tags => verify_spark_payload (H := LibsparkBackend) (pool_of after1) it.1 it.2 = Ok tags)
    [spend_item 0 20 3; spend_item 0 5 4] [[replicate 34 3]; [replicate 34 4]]
  /\ Forall one_tag [spend_item 0 20 3; spend_item 0 5 4] /\ ids_agree [spend_item 0 20 3; spend_item 0 5 4].
Proof.
  apply (batch_iff_each (pool_of after1) [spend_item 0 20 3; spend_item 0 5 4] [[replicate 34 3]; [replicate 34 4]]).
  - vm_compute. discriminate.
  - split; [|vm_compute; reflexivity]. repeat constructor; vm_compute; discriminate.
Defined.

(** Two spends that are accepted each on its own, and refused in one block: their bundles
    name different cover sets. *)
Example accepted_alone_refused_together :
  verify_spark_payload (H := LibsparkBackend) (pool_of after1) (spend_item 0 20 3).1 0 = Ok [replicate 34 3]
  /\ verify_spark_payload (H := LibsparkBackend) (pool_of after1) (spend_item 1 5 4).1 0 = Ok [replicate 34 4]
  /\ verify_spark_payloads_batch (H := LibsparkBackend) (pool_of after1) [spend_item 0 20 3; spend_item 1 5 4]
     = Err (EngineRefused Rejected).
Proof. vm_compute. done. Qed.
End Sample.
End SparkBatch.
