(* ===== verification/SparkChain.v ===== *)
(** * Shielded blocks on the chain

    A specification of what a block of shielded transactions does to the contents of the
    pool ([spec_block]), the refinement of [apply_spark_v2_txs] to it, and what the gates of
    the block guarantee: a block that was verified is applied without halting the node, as
    a sequence of store writes of [Phase2Chain], so that the reorganisation and restart
    theorems there hold of it.  The rebuilding of the pool at a start, the conservation of
    value across the two sides, and the places where the node halts. *)

From Stdlib Require Import String.
From stdpp Require Import strings gmap sorting.
From S2P Require Import Prelude Types Ledger Security TxValidation Phase2 Phase2Inv Phase2Pool Phase2Chain Spark SparkBatch.

Module SparkChain.
Import Types Phase2 Phase2Inv Phase2Pool Phase2Chain Spark SparkBatch.
#[local] Opaque be_bytes Types.le_bytes MAX_CHECKPOINTS.

Lemma elem_of_concat_list {A} (x : A) ls : x ∈ concat ls <-> exists l, l ∈ ls /\ x ∈ l.
Proof. rewrite list_elem_of_In, in_concat. setoid_rewrite list_elem_of_In. naive_solver. Qed.

(** Properties of a loop. *)
Lemma each_app {A S} (f : A -> S -> option S) l l' s :
  each f (l ++ l') s = match each f l s with Some s' => each f l' s' | None => None end.
Proof. revert s. induction l as [|a l IH]; intros s; simpl; [done|]. by destruct (f a s). Qed.

(** ** The pool's contents *)

Definition contents (s : SparkPoolStore) : pool_contents := mkContents (pool_coins s) (spent_tags s) (pool_value s).

Definition known (x : pool_contents) : list bytes := map outpoint (c_coins x).

Definition spec_tag (h : Z) (tag : bytes) (x : pool_contents) : option pool_contents :=
  if decide (is_Some (c_tags x !! tag)) then None
  else Some (mkContents (c_coins x) (<[tag := h]> (c_tags x)) (c_value x)).

(** A coin with its outpoint and serial context. *)
Definition spec_new (h : Z) (e : bytes * bytes * bytes) (x : pool_contents) : option pool_contents :=
  if decide (e.1.1 ∈ known x) then None else Some (with_coin e.1.1 e.1.2 e.2 h x).

Definition spec_any (h : Z) (e : bytes * bytes * bytes) (x : pool_contents) : option pool_contents :=
  Some (with_coin e.1.1 e.1.2 e.2 h x).

Definition spec_value (vb : Z) (x : pool_contents) : option pool_contents :=
  if decide (0 <= c_value x - vb <= i128_max) then Some (mkContents (c_coins x) (c_tags x) (c_value x - vb)) else None.

Section Pool.
Context `{Blake3} `{!Borsh MwKernel} `{!Borsh SparkCoinEntry} `{!Borsh NoteCommitmentEntry} `{!Borsh SparkPoolCoin}.
Context {BT : Type} `{BridgeTreeLaws BT} `{EmptyRoot}.

Abbreviation stores := (chain_stores (BT := BT)).

Lemma rep_contents j s : pool_rep j s -> contents s = now j.
Proof. intros R. unfold contents. rewrite (pr_coins _ _ R), (pr_tags _ _ R), (pr_value _ _ R). by destruct (now j). Qed.

(** [f] carries out [spec] on every represented pool, by writes of the block at [h]. *)
Definition writes (h : Z) (f : SparkPoolStore -> option SparkPoolStore)
    (spec : pool_contents -> option pool_contents) : Prop :=
  forall j s x', pool_rep j s -> dated h j -> spec (now j) = Some x' -> Z.of_nat (length (c_coins x')) < u64_max ->
    exists s' ops, f s = Some s' /\ pool_rep (mkJournal (snapshots j) x') s'
      /\ forall c : stores, ops_run h ops (set_pool c (Some s)) (set_pool c (Some s')).

Definition grows (spec : pool_contents -> option pool_contents) : Prop :=
  forall x x', spec x = Some x' -> (length (c_coins x) <= length (c_coins x'))%nat.

Lemma ops_run_app tip ops ops' (c c' c'' : stores) :
  ops_run tip ops c c' -> ops_run tip ops' c' c'' -> ops_run tip (ops ++ ops') c c''.
Proof. induction 1 as [|op ops c c1 c' Ho Hr _ IH]; [done|]. intros R. econstructor; eauto. Qed.

Lemma writes_id h : writes h Some Some.
Proof. intros j s x' R _ [= <-] _. exists s, []. split; [done|]. split; [by destruct j|constructor]. Qed.

Lemma writes_seq h f g sf sg : writes h f sf -> writes h g sg -> grows sg ->
  writes h (fun s => s ← f s; g s) (fun x => x ← sf x; sg x).
Proof.
  intros Wf Wg G j s x' R D E L. destruct (sf (now j)) as [x1|] eqn:E1; [|done]. simpl in E.
  destruct (Wf j s x1 R D E1) as (s1 & ops1 & F1 & R1 & O1).
  { pose proof (G _ _ E). lia. }
  destruct (Wg _ s1 x' R1 D E L) as (s2 & ops2 & F2 & R2 & O2). exists s2, (ops1 ++ ops2).
  rewrite F1. simpl. split; [done|]. split; [done|]. intros c. eapply ops_run_app; [apply O1|apply O2].
Qed.

Lemma grows_seq sf sg : grows sf -> grows sg -> grows (fun x => x ← sf x; sg x).
Proof.
  intros Gf Gg x x' E. destruct (sf x) as [x1|] eqn:E1; [|done]. simpl in E. pose proof (Gf _ _ E1). pose proof (Gg _ _ E). lia.
Qed.

Lemma grows_each {A} (spec : A -> pool_contents -> option pool_contents) l :
  (forall a, grows (spec a)) -> grows (each spec l).
Proof.
  intros G. induction l as [|a l IH]; intros x x'; simpl; [by intros [= <-]|].
  destruct (spec a x) as [x1|] eqn:E1; [|done]. intros E. pose proof (G a _ _ E1). pose proof (IH _ _ E). lia.
Qed.

Lemma writes_each {A} h (f : A -> SparkPoolStore -> option SparkPoolStore) spec l :
  (forall a, writes h (f a) (spec a)) -> (forall a, grows (spec a)) -> writes h (each f l) (each spec l).
Proof.
  intros W G. induction l as [|a l IH]; [apply writes_id|].
  intros j s x' R D E L. cbn [each] in *. destruct (spec a (now j)) as [x1|] eqn:E1; [|done].
  destruct (W a j s x1 R D E1) as (s1 & ops1 & F1 & R1 & O1).
  { pose proof (grows_each spec l G _ _ E). lia. }
  destruct (IH _ s1 x' R1 D E L) as (s2 & ops2 & F2 & R2 & O2). exists s2, (ops1 ++ ops2).
  rewrite F1. split; [done|]. split; [done|]. intros c. eapply ops_run_app; [apply O1|apply O2].
Qed.

Lemma with_coin_length op c ctx h x : (length (c_coins x) <= length (c_coins (with_coin op c ctx h x)))%nat.
Proof. unfold with_coin. case_decide; simpl; [lia|]. rewrite length_app. lia. Qed.

Lemma grows_tag h t : grows (spec_tag h t).
Proof. unfold grows, spec_tag. intros x x'. case_decide; [done|]. by intros [= <-]. Qed.
Lemma grows_new h e : grows (spec_new h e).
Proof. unfold grows, spec_new. intros x x'. case_decide; [done|]. intros [= <-]. apply with_coin_length. Qed.
Lemma grows_any h e : grows (spec_any h e).
Proof. unfold grows, spec_any. intros x x' [= <-]. apply with_coin_length. Qed.
Lemma grows_value vb : grows (spec_value vb).
Proof. unfold grows, spec_value. intros x x'. case_decide; [|done]. by intros [= <-]. Qed.

(** ** Single writes *)

Definition do_tag (h : Z) (tag : bytes) (s : SparkPoolStore) : option SparkPoolStore :=
  match mark_tag_spent tag h s with Some (s, true) => Some s | _ => None end.
Definition do_new (h : Z) (e : bytes * bytes * bytes) (s : SparkPoolStore) : option SparkPoolStore :=
  match pool_add_coin e.1.1 e.1.2 e.2 h s with Some (s, Some _) => Some s | _ => None end.
Definition do_any (h : Z) (e : bytes * bytes * bytes) (s : SparkPoolStore) : option SparkPoolStore :=
  fst <$> pool_add_coin e.1.1 e.1.2 e.2 h s.
Definition do_value (vb : Z) (s : SparkPoolStore) : option SparkPoolStore :=
  match apply_value_balance vb s with Some (s, true) => Some s | _ => None end.

Lemma one_op h op (c : stores) s s' :
  op_ok h op (set_pool c (Some s)) -> run_op op (set_pool c (Some s)) = Some (set_pool c (Some s')) ->
  ops_run h [op] (set_pool c (Some s)) (set_pool c (Some s')).
Proof. intros Ho Hr. econstructor; [done|done|constructor]. Qed.

Section At.
Variable h : Z.
Hypothesis h_fits : fits u64_max h.

Lemma writes_tag t : writes h (do_tag h t) (spec_tag h t).
Proof.
  intros j s x' R D E L. unfold spec_tag in E. case_decide as Hn; [done|]. injection E as <-.
  destruct (mark_tag_rep t h j s R D h_fits) as (s' & F & R'). rewrite decide_False in R' by done.
  rewrite bool_decide_eq_false_2 in F by done. cbn [negb] in F. exists s', [PoolMarkTag t h].
  unfold do_tag. rewrite F. split; [done|]. split; [done|]. intros c. apply one_op; [done|]. cbn. by rewrite F.
Qed.

Lemma writes_any e : writes h (do_any h e) (spec_any h e).
Proof.
  intros j s x' R D E L. unfold spec_any in E. injection E as <-.
  pose proof (with_coin_length e.1.1 e.1.2 e.2 h (now j)) as G.
  destruct (pool_add_coin_rep e.1.1 e.1.2 e.2 h j s R h_fits) as (s' & F & R'); [lia|].
  exists s', [PoolAddCoin e.1.1 e.1.2 e.2 h]. unfold do_any. rewrite F. split; [done|]. split; [done|].
  intros c. apply one_op.
  - cbn. split; [done|]. unfold coin_count. rewrite (pr_coins _ _ R). lia.
  - cbn. by rewrite F.
Qed.

Lemma writes_new e : writes h (do_new h e) (spec_new h e).
Proof.
  intros j s x' R D E L. unfold spec_new in E. case_decide as Hn; [done|]. injection E as <-.
  pose proof (with_coin_length e.1.1 e.1.2 e.2 h (now j)) as G.
  destruct (pool_add_coin_rep e.1.1 e.1.2 e.2 h j s R h_fits) as (s' & F & R'); [lia|].
  rewrite decide_False in F by done. exists s', [PoolAddCoin e.1.1 e.1.2 e.2 h]. unfold do_new. rewrite F.
  split; [done|]. split; [done|]. intros c. apply one_op.
  - cbn. split; [done|]. unfold coin_count. rewrite (pr_coins _ _ R). lia.
  - cbn. by rewrite F.
Qed.

Lemma writes_value vb : writes h (do_value vb) (spec_value vb).
Proof.
  intros j s x' R D E L. unfold spec_value in E. case_decide as Hv; [|done]. injection E as <-.
  destruct (apply_value_balance_rep vb j s R) as (s' & F & R'); [lia|].
  rewrite (proj2 (Z.leb_le _ _)) in F by lia. rewrite (proj2 (Z.leb_le _ _)) in R' by lia.
  exists s', [PoolBalance vb]. unfold do_value. rewrite F. split; [done|]. split; [done|].
  intros c. apply one_op; [|cbn; by rewrite F]. cbn. rewrite (pr_value _ _ R). lia.
Qed.
End At.
End Pool.

(** ** Transactions and blocks *)

(** Coins with the outpoints that the inputs of the transaction determine. *)
Definition numbered `{Blake3} (ins : list bytes) (vout : nat) (coins : list (bytes * bytes)) : list (bytes * bytes * bytes) :=
  imap (fun i c => (derive_outpoint ins (wrap u32_max (Z.of_nat (vout + i))), c.1, c.2)) coins.

Lemma numbered_cons `{Blake3} ins vout c coins :
  numbered ins vout (c :: coins) = (derive_outpoint ins (wrap u32_max (Z.of_nat vout)), c.1, c.2) :: numbered ins (S vout) coins.
Proof.
  unfold numbered. rewrite imap_cons, Nat.add_0_r. f_equal. apply imap_ext. intros i x _. unfold compose. do 5 f_equal. lia.
Qed.

(** What a transaction writes. *)
Record plan := mkPlan {
  plan_tags : list bytes;
  plan_new : list (bytes * bytes * bytes);     (** outpoints that must be new *)
  plan_any : list (bytes * bytes * bytes);     (** coins that are skipped when present *)
  plan_value : Z }.

Section Plan.
Context `{Blake3} {Coin Tx : Type} `{Libspark Coin Tx}.

Definition loose_entries (tx : Transaction) (p : SparkPayload) : option (list (bytes * bytes * bytes)) :=
  ctxs ← mapM serial_context (mint_outpoints tx (length (poutputs p)));
  Some (numbered (input_outpoints tx) 0 (zip (poutputs p) ctxs)).

Definition mint_entries (tx : Transaction) (p : SparkPayload) : option (list (bytes * bytes * bytes)) :=
  match mint p with
  | None => Some []
  | Some m =>
      match verify_mint_bundle m, serial_context (derive_outpoint (input_outpoints tx) 0) with
      | Some (_, coins), Some ctx => Some (numbered (input_outpoints tx) 0 (map (fun c => (c, ctx)) coins))
      | _, _ => None
      end
  end.

Definition spend_entries (p : SparkPayload) : list (bytes * bytes * bytes) :=
  match spend p with
  | None => []
  | Some sb =>
      match spend_outputs (bundle sb) with
      | Some (coins, ctx) => map (fun c => (blake3 c, c, ctx)) coins
      | None => []
      end
  end.

Definition plan_of (txp : Transaction * SparkPayload) : option plan :=
  let (tx, p) := txp in
  tags ← match spend p with Some sb => spend_tags (bundle sb) | None => Some [] end;
  loose ← loose_entries tx p;
  mints ← mint_entries tx p;
  Some (mkPlan tags (loose ++ mints) (spend_entries p) (value_balance p)).

Definition spec_plan (h : Z) (pl : plan) (x : pool_contents) : option pool_contents :=
  x ← each (spec_tag h) (plan_tags pl) x;
  x ← each (spec_new h) (plan_new pl) x;
  x ← each (spec_any h) (plan_any pl) x;
  spec_value (plan_value pl) x.

Definition spec_tx (h : Z) (txp : Transaction * SparkPayload) (x : pool_contents) : option pool_contents :=
  pl ← plan_of txp; spec_plan h pl x.

(** What a block does to the pool. *)
Definition spec_block `{!Borsh SparkPayload} (h : Z) (txs : list Transaction) (x : pool_contents) : option pool_contents :=
  each (spec_tx h) (v2_items txs) x.

Context `{!Borsh SparkPoolCoin}.

Definition do_plan (h : Z) (pl : plan) (s : SparkPoolStore) : option SparkPoolStore :=
  s ← each (do_tag h) (plan_tags pl) s;
  s ← each (do_new h) (plan_new pl) s;
  s ← each (do_any h) (plan_any pl) s;
  do_value (plan_value pl) s.

Lemma mark_tags_each tags h s :
  match mark_tags tags h s with Some (s, Ok _) => Some s | _ => None end = each (do_tag h) tags s.
Proof.
  revert s. induction tags as [|t tags IH]; intros s; simpl; [done|]. unfold do_tag at 1.
  destruct (mark_tag_spent t h s) as [[s1 [|]]|]; [apply IH|done|done].
Qed.

Lemma add_outputs_each ins vout coins h s :
  match add_outputs ins vout coins h s with Some (s, Ok _) => Some s | _ => None end
  = each (do_new h) (numbered ins vout coins) s.
Proof.
  revert vout s. induction coins as [|[c ctx] coins IH]; intros vout s; [done|]. rewrite numbered_cons.
  cbn [add_outputs each]. unfold do_new at 1. cbn [fst snd].
  destruct (pool_add_coin _ c ctx h s) as [[s1 [i|]]|]; [apply IH|done|done].
Qed.

Lemma apply_mint_each tx h m s :
  apply_mint tx h m s
  = (mints ← match verify_mint_bundle m, serial_context (derive_outpoint (input_outpoints tx) 0) with
             | Some (_, coins), Some ctx => Some (numbered (input_outpoints tx) 0 (map (fun c => (c, ctx)) coins))
             | _, _ => None end;
     each (do_new h) mints s).
Proof.
  unfold apply_mint. destruct (verify_mint_bundle m) as [[total coins]|]; [|done].
  destruct (serial_context _) as [ctx|]; [|done]. simpl. unfold numbered. rewrite imap_fmap.
  assert (G : forall n s, each (add_mint_coin tx ctx h) (imap (fun i c => ((n + i)%nat, c)) coins) s
    = each (do_new h) (imap (fun i c => (derive_outpoint (input_outpoints tx) (wrap u32_max (Z.of_nat (n + i))), c, ctx)) coins) s).
  { clear s. induction coins as [|c coins IH]; intros n s; [done|]. rewrite !imap_cons. cbn [each].
    unfold do_new at 1, add_mint_coin at 1. cbn [fst snd]. rewrite Nat.add_0_r.
    destruct (pool_add_coin _ c ctx h s) as [[s1 [i|]]|]; [|done|done].
    rewrite (imap_ext _ (fun i c => ((S n + i)%nat, c))) by (intros; unfold compose; f_equal; lia). rewrite IH.
    f_equal. apply imap_ext. intros j x _. unfold compose. do 5 f_equal. lia. }
  exact (G 0%nat s).
Qed.

Lemma apply_spark_tx_plan h txp s : apply_spark_tx h txp s = (pl ← plan_of txp; do_plan h pl s).
Proof.
  destruct txp as [tx p]. unfold apply_spark_tx, plan_of.
  destruct (match spend p with Some sb => spend_tags (bundle sb) | None => Some [] end) as [tags|]; [|done]. simpl.
  unfold loose_entries. destruct (mapM serial_context _) as [ctxs|] eqn:Ec; [|done]. simpl.
  unfold apply_spark_payload. assert (length (poutputs p) = length ctxs) as Hl.
  { apply length_mapM in Ec. unfold mint_outpoints in Ec. by rewrite length_map, length_seq in Ec. }
  rewrite (proj2 (Nat.eqb_eq _ _) Hl). cbn [negb]. pose proof (mark_tags_each tags h s) as M.
  unfold do_plan. destruct (mark_tags tags h s) as [[s1 [u|e]]|]; simpl.
  2, 3: destruct (mint_entries tx p); simpl; [|done]; by rewrite <- M.
  pose proof (add_outputs_each (input_outpoints tx) 0 (zip (poutputs p) ctxs) h s1) as A.
  destruct (add_outputs _ 0 _ h s1) as [[s2 [u'|e]]|]; simpl.
  2, 3: destruct (mint_entries tx p); simpl; [|done]; rewrite <- M; simpl;
    rewrite each_app, <- A; done.
  assert (Em : forall k : SparkPoolStore -> option SparkPoolStore, (s ← match mint p with Some m => apply_mint tx h m s2 | None => Some s2 end; k s)
    = (mints ← mint_entries tx p; s ← each (do_new h) mints s2; k s)).
  { intros k. unfold mint_entries. destruct (mint p) as [m|]; [|done]. rewrite apply_mint_each.
    by destruct (verify_mint_bundle m) as [[total coins]|]; [destruct (serial_context (derive_outpoint (input_outpoints tx) 0))|]. }
  rewrite Em. destruct (mint_entries tx p) as [mints|]; [|done]. simpl.
  rewrite <- M. simpl. rewrite each_app, <- A. destruct (each (do_new h) mints s2) as [s3|]; [|done]. simpl.
  unfold spend_entries, apply_spend_outputs. destruct (spend p) as [sb|]; [|done].
  destruct (spend_outputs (bundle sb)) as [[coins ctx]|]; [|done]. f_equal.
  clear. revert s3. induction coins as [|c coins IH]; intros s; [done|]. cbn [map each]. unfold do_any at 1, add_spend_output at 1.
  cbn [fst snd]. destruct (pool_add_coin _ c ctx h s) as [[s1 o]|]; [apply IH|done].
Qed.
End Plan.

Section Blocks.
Context `{Blake3} `{!Borsh MwKernel} `{!Borsh SparkCoinEntry} `{!Borsh NoteCommitmentEntry} `{!Borsh SparkPoolCoin}.
Context {BT : Type} `{BridgeTreeLaws BT} `{EmptyRoot}.
Context {Coin Tx : Type} `{Libspark Coin Tx}.
Context `{!Borsh SparkPayload}.

Abbreviation stores := (chain_stores (BT := BT)).

Lemma grows_plan h pl : grows (spec_plan h pl).
Proof.
  unfold spec_plan. apply (grows_seq (each (spec_tag h) (plan_tags pl))); [apply grows_each, grows_tag|].
  apply (grows_seq (each (spec_new h) (plan_new pl))); [apply grows_each, grows_new|].
  apply (grows_seq (each (spec_any h) (plan_any pl))); [apply grows_each, grows_any|apply grows_value].
Qed.

Lemma grows_tx h txp : grows (spec_tx h txp).
Proof. unfold spec_tx. intros x x'. destruct (plan_of txp) as [pl|]; [|done]. apply grows_plan. Qed.

Lemma writes_plan h pl : fits u64_max h -> writes (BT := BT) h (do_plan h pl) (spec_plan h pl).
Proof.
  intros Hh. unfold do_plan, spec_plan.
  apply (writes_seq h (each (do_tag h) (plan_tags pl)) _ (each (spec_tag h) (plan_tags pl))).
  { apply writes_each; [intros; by apply writes_tag|intros; apply grows_tag]. }
  - apply (writes_seq h (each (do_new h) (plan_new pl)) _ (each (spec_new h) (plan_new pl))).
    { apply writes_each; [intros; by apply writes_new|intros; apply grows_new]. }
    + apply (writes_seq h (each (do_any h) (plan_any pl)) _ (each (spec_any h) (plan_any pl))).
      { apply writes_each; [intros; by apply writes_any|intros; apply grows_any]. }
      * by apply writes_value.
      * apply grows_value.
    + apply (grows_seq (each (spec_any h) (plan_any pl))); [apply grows_each, grows_any|apply grows_value].
  - apply (grows_seq (each (spec_new h) (plan_new pl))); [apply grows_each, grows_new|].
    apply (grows_seq (each (spec_any h) (plan_any pl))); [apply grows_each, grows_any|apply grows_value].
Qed.

Lemma writes_tx h txp : fits u64_max h -> writes (BT := BT) h (apply_spark_tx h txp) (spec_tx h txp).
Proof.
  intros Hh j s x' R D E L. unfold spec_tx in E. destruct (plan_of txp) as [pl|] eqn:Ep; [|done].
  destruct (writes_plan h pl Hh j s x' R D E L) as (s' & ops & F & W). exists s', ops.
  rewrite apply_spark_tx_plan, Ep. done.
Qed.

Lemma writes_block h txs : fits u64_max h ->
  writes (BT := BT) h (each (apply_spark_tx h) (v2_items txs)) (spec_block h txs).
Proof. intros Hh. apply writes_each; [intros; by apply writes_tx|intros; apply grows_tx]. Qed.

(** The pool half of a block. *)
Lemma pool_block_applies heights h J (c : stores) s txs x' :
  inv heights h J c -> fits u64_max h -> spark_pool_store c = Some s ->
  spec_block h txs (contents s) = Some x' -> Z.of_nat (length (c_coins x')) < u64_max ->
  exists c' s' ops, apply_spark_v2_txs txs h c = Some c' /\ ops_run h ops c c'
    /\ spark_pool_store c' = Some s' /\ contents s' = x'.
Proof.
  intros I Hh Es E L. pose proof (store_at_dated _ _ _ _ _ (inv_pool _ _ _ _ I) (inv_heights _ _ _ _ I)) as D.
  destruct (inv_pool _ _ _ _ I) as [_ Hp]. rewrite Es in Hp. destruct Hp as [R _].
  rewrite (rep_contents _ _ R) in E. destruct (writes_block h txs Hh _ s x' R D E L) as (s' & ops & F & R' & O).
  assert (Ec : c = set_pool c (Some s)) by (destruct c; simpl in *; by rewrite Es).
  exists (set_pool c (Some s')), s', ops. specialize (O c). rewrite <- Ec in O.
  destruct (write_ops_inv _ _ _ _ _ _ I Hh O) as (J' & I' & _).
  unfold apply_spark_v2_txs, halting_sweep. rewrite Es, F. cbn [mbind option_bind].
  rewrite (clean_sweep h (set_pool c (Some s')) (length heights)).
  - split; [done|]. split; [done|]. split; [done|]. apply (rep_contents _ _ R').
  - intros d Hd. by destruct (phase2_stores_of _ _ _ _ d I' Hd) as (? & ? & _).
  - by destruct (pool_guard_clean _ _ _ _ s' I' eq_refl).
Qed.
End Blocks.

(** ** The payloads of version 1 *)

Section Version1.
Context `{Blake3} `{!Borsh MwKernel} `{!Borsh SparkCoinEntry} `{!Borsh NoteCommitmentEntry} `{!Borsh SparkPoolCoin}.
Context {BT : Type} `{BridgeTreeLaws BT} `{EmptyRoot}.
Context `{!Borsh SparkPayload} `{!Borsh ShieldedPayload}.

Abbreviation stores := (chain_stores (BT := BT)).
Abbreviation shielded_t := (ShieldedStore (BT := BT)).

Variable h : Z.
Hypothesis h_fits : fits u64_max h.

Definition put_nullifiers (nfs : list bytes) (m : gmap bytes Z) : gmap bytes Z :=
  fold_left (fun m nf => <[nf := h]> m) nfs m.

Lemma put_nullifiers_lookup nfs m nf :
  is_Some (put_nullifiers nfs m !! nf) <-> nf ∈ nfs \/ is_Some (m !! nf).
Proof.
  unfold put_nullifiers. revert m. induction nfs as [|a nfs IH]; intros m; cbn [fold_left].
  { rewrite elem_of_nil. tauto. }
  rewrite IH, elem_of_cons, lookup_insert_is_Some'. naive_solver.
Qed.

Lemma mark_nullifiers_rep nfs j (s : shielded_t) (c : stores) :
  shielded_rep j s -> dated h j -> Forall (fun nf => length nf = 32%nat) nfs -> NoDup nfs ->
  (forall nf, nf ∈ nfs -> (now j).2 !! nf = None) ->
  exists s' ops, mark_nullifiers nfs h s = Some (s', Ok tt)
    /\ shielded_rep (mkJournal (snapshots j) ((now j).1, put_nullifiers nfs (now j).2)) s'
    /\ ops_run h ops (set_shielded c (Some s)) (set_shielded c (Some s')).
Proof.
  intros R D F. revert j s R D. induction F as [|nf nfs Hl F IH]; intros j s R D N U.
  { exists s, []. split; [done|]. split; [by destruct j as [? []]|constructor]. }
  apply list.NoDup_cons in N as [Hn N]. destruct (mark_nullifier_rep nf h j s R D Hl h_fits) as (s1 & E & R1).
  rewrite (U nf) in E, R1 by left. rewrite decide_False in R1 by (by intros [? ?]). rewrite bool_decide_eq_false_2 in E by (by intros [? ?]).
  destruct (IH _ s1 R1 D N) as (s2 & ops & E2 & R2 & O2).
  { intros nf' Hnf'. cbn [now snd]. rewrite lookup_insert_ne by (intros ->; done). apply U. by right. }
  exists s2, (MarkNullifier nf h :: ops). cbn [mark_nullifiers]. rewrite E. cbn [negb]. split; [done|]. split; [done|].
  econstructor; [| |exact O2]; [done|]. cbn. by rewrite E.
Qed.

Lemma append_outputs_rep outs idx j (s : shielded_t) (c : stores) :
  shielded_rep j s -> fits u32_max idx -> Forall (fun o => length (note_commitment o) = 32%nat) outs ->
  Z.of_nat (length (now j).1 + length outs) <= 2 ^ SHIELDED_TREE_DEPTH ->
  exists s' ops ns, each (append_output h idx) outs s = Some s' /\ length ns = length outs
    /\ shielded_rep (mkJournal (snapshots j) ((now j).1 ++ ns, (now j).2)) s'
    /\ ops_run h ops (set_shielded c (Some s)) (set_shielded c (Some s')).
Proof.
  intros R Hi F. revert j s R. induction F as [|o outs Hl F IH]; intros j s R L.
  { exists s, [], []. split; [done|]. split; [done|]. rewrite app_nil_r. split; [by destruct j as [? []]|constructor]. }
  cbn [length] in L. set (e := mkNote (note_commitment o) h idx 0).
  assert (We : well_typed e) by (repeat split; try done; apply h_fits || apply Hi).
  destruct (append_commitment_rep e j s R We) as (s1 & E & R1); [lia|].
  destruct (IH _ s1 R1) as (s2 & ops & ns & E2 & Ln & R2 & O2).
  { cbn [now fst]. rewrite length_app. cbn [length]. lia. }
  exists s2, (AppendNote e :: ops), (placed e (Z.of_nat (length (now j).1)) :: ns).
  cbn [each]. unfold append_output at 1. fold e. rewrite E. cbn [fmap option_fmap option_map fst].
  split; [done|]. split; [by cbn; rewrite Ln|]. split.
  - cbn [now fst snd snapshots] in R2. by rewrite <- app_assoc in R2.
  - econstructor; [| |exact O2].
    + cbn. split; [done|]. unfold tree_size. rewrite (hr_entries _ _ R), index_map_size. lia.
    + cbn. by rewrite E.
Qed.

(** The outputs and nullifiers of the transactions of version 1. *)
Definition v1_payload (tx : Transaction) : option ShieldedPayload :=
  if negb (is_shielded tx) || is_v2 tx then None
  else match decode_v1 (extra tx) with Ok p => Some p | Err _ => None end.

Definition v1_outputs (txs : list Transaction) : nat :=
  length (concat (map houtputs (omap v1_payload txs))).

Lemma check_nullifiers_ok (is_spent : bytes -> bool) seen nfs seen' :
  check_nullifiers is_spent seen nfs = Ok seen' ->
  NoDup nfs /\ (forall nf, nf ∈ nfs -> is_spent nf = false /\ nf ∉ seen)
  /\ (forall nf, nf ∈ seen' <-> nf ∈ nfs \/ nf ∈ seen).
Proof.
  revert seen. induction nfs as [|a nfs IH]; intros seen; cbn [check_nullifiers].
  { intros [= <-]. split; [constructor|]. split; [by intros nf ?%elem_of_nil|]. intros nf. rewrite elem_of_nil. tauto. }
  destruct (is_spent a) eqn:Ea; [done|]. case_bool_decide as Hs; [done|]. intros E. destruct (IH _ E) as (N & U & S).
  split; [|split].
  - apply list.NoDup_cons. split; [|done]. intros Ha. destruct (U a Ha) as [_ Hn]. set_solver.
  - intros nf [->|Hn]%elem_of_cons; [done|]. destruct (U nf Hn). split; [done|]. set_solver.
  - intros nf. rewrite S, elem_of_cons. set_solver.
Qed.

Lemma apply_shielded_each is_spent seen txs n j (s : shielded_t) (c : stores) :
  check_double_spends is_spent seen txs = Ok tt ->
  shielded_rep j s -> dated h j ->
  (forall nf, is_Some ((now j).2 !! nf) -> is_spent nf = true \/ nf ∈ seen) ->
  Forall well_typed (omap v1_payload txs) ->
  Z.of_nat (length (now j).1 + v1_outputs txs) <= 2 ^ SHIELDED_TREE_DEPTH ->
  Z.of_nat (n + length txs) <= u32_max ->
  exists s' ops, each (apply_shielded_tx h) (imap (fun i tx => ((n + i)%nat, tx)) txs) s = Some s'
    /\ ops_run h ops (set_shielded c (Some s)) (set_shielded c (Some s')).
Proof.
  revert seen n j s. induction txs as [|tx txs IH]; intros seen n j s Hc R D U W L B.
  { exists s, []. split; [done|constructor]. }
  cbn [check_double_spends] in Hc. cbn [length] in B. rewrite imap_cons, Nat.add_0_r. cbn [each].
  rewrite (imap_ext _ (fun i tx => ((S n + i)%nat, tx))) by (intros; unfold compose; f_equal; lia).
  unfold v1_outputs in L. cbn [omap list_omap] in W, L. unfold v1_payload at 1 in W. unfold v1_payload at 1 in L.
  unfold apply_shielded_tx at 1. destruct (negb (is_shielded tx) || is_v2 tx) eqn:Ev.
  { destruct (IH seen (S n) j s Hc R D U W L) as (s' & ops & E & O); [lia|]. exists s', ops. done. }
  destruct (decode_v1 (extra tx)) as [p|] eqn:Ed; simpl in Hc; [|done].
  destruct (check_nullifiers is_spent seen (map nullifier (hinputs p))) as [seen'|] eqn:En; simpl in Hc; [|done].
  apply list.Forall_cons in W as [(_ & Wi & Wo) W]. cbn [map concat] in L. rewrite length_app in L.
  destruct (check_nullifiers_ok _ _ _ _ En) as (N & F & S).
  destruct (mark_nullifiers_rep (map nullifier (hinputs p)) j s c R D) as (s1 & ops1 & E1 & R1 & O1); [|done| |].
  { apply Forall_fmap. exact Wi. }
  { intros nf Hnf. destruct ((now j).2 !! nf) eqn:Em; [|done]. destruct (F nf Hnf) as [F1 F2].
    destruct (U nf ltac:(eauto)); congruence. }
  assert (Hidx : fits u32_max (wrap u32_max (Z.of_nat n))).
  { rewrite wrap_small; unfold fits; lia. }
  destruct (append_outputs_rep (houtputs p) _ _ s1 c R1 Hidx Wo) as (s2 & ops2 & ns & E2 & Ln & R2 & O2).
  { cbn [now fst]. lia. }
  destruct (IH seen' (Datatypes.S n) _ s2 Hc R2 D) as (s3 & ops3 & E3 & O3); [|done| |lia|].
  { cbn [now snd]. intros nf [Hnf|Hnf]%put_nullifiers_lookup; [right; apply S; by left|].
    destruct (U nf Hnf); [by left|]. right. apply S. by right. }
  { cbn [now fst]. rewrite length_app, Ln. unfold v1_outputs. lia. }
  exists s3, (ops1 ++ ops2 ++ ops3). unfold apply_shielded_payload. rewrite E1, E2. cbn [fmap option_fmap option_map].
  split; [done|]. eapply ops_run_app; [exact O1|]. eapply ops_run_app; [exact O2|exact O3].
Qed.
End Version1.

(** ** When the specification succeeds *)

Definition keys (es : list (bytes * bytes * bytes)) : list bytes := map (fun e => e.1.1) es.

Lemma each_tags h tags x : NoDup tags -> (forall t, t ∈ tags -> c_tags x !! t = None) ->
  exists x', each (spec_tag h) tags x = Some x' /\ c_coins x' = c_coins x /\ c_value x' = c_value x
    /\ forall t, is_Some (c_tags x' !! t) <-> t ∈ tags \/ is_Some (c_tags x !! t).
Proof.
  revert x. induction tags as [|a tags IH]; intros x N U.
  { exists x. split; [done|]. split; [done|]. split; [done|]. intros t. rewrite elem_of_nil. tauto. }
  apply list.NoDup_cons in N as [Ha N]. cbn [each]. unfold spec_tag at 1. rewrite (U a) by left.
  rewrite decide_False by (by intros [? ?]). destruct (IH (mkContents (c_coins x) (<[a:=h]> (c_tags x)) (c_value x)) N)
    as (x' & E & C & V & T).
  { intros t Ht. cbn [c_tags]. rewrite lookup_insert_ne by (intros ->; done). apply U. by right. }
  exists x'. split; [done|]. split; [done|]. split; [done|]. intros t. rewrite T. cbn [c_tags].
  rewrite elem_of_cons, lookup_insert_is_Some'. naive_solver.
Qed.

Lemma with_coin_known op c ctx h x :
  known (with_coin op c ctx h x) = if decide (op ∈ known x) then known x else known x ++ [op].
Proof. unfold with_coin, known. case_decide; [done|]. cbn [c_coins]. by rewrite map_app. Qed.

Lemma with_coin_same op c ctx h x :
  c_tags (with_coin op c ctx h x) = c_tags x /\ c_value (with_coin op c ctx h x) = c_value x.
Proof. unfold with_coin. by case_decide. Qed.

Lemma each_new h es x : NoDup (keys es) -> (forall k, k ∈ keys es -> k ∉ known x) ->
  exists x', each (spec_new h) es x = Some x' /\ known x' = known x ++ keys es
    /\ c_tags x' = c_tags x /\ c_value x' = c_value x.
Proof.
  revert x. induction es as [|[[op c] ctx] es IH]; intros x N U.
  { exists x. unfold keys. simpl. by rewrite app_nil_r. }
  cbn [keys map fst] in N, U. apply list.NoDup_cons in N as [Ha N]. cbn [each]. unfold spec_new at 1. cbn [fst snd].
  assert (Hop : op ∉ known x) by (apply U; left). rewrite decide_False by done.
  pose proof (with_coin_known op c ctx h x) as K. rewrite decide_False in K by done.
  destruct (with_coin_same op c ctx h x) as [T V]. destruct (IH (with_coin op c ctx h x) N) as (x' & E & K' & T' & V').
  { intros k Hk. rewrite K, elem_of_app, list_elem_of_singleton. intros [Hx| ->]; [|done]. apply (U k); [by right|done]. }
  exists x'. split; [done|]. rewrite K', K, <- app_assoc. split; [done|]. by rewrite T', V'.
Qed.

Lemma each_any h es x :
  exists x', each (spec_any h) es x = Some x' /\ (forall k, k ∈ known x' -> k ∈ known x \/ k ∈ keys es)
    /\ (length (c_coins x') <= length (c_coins x) + length es)%nat /\ c_tags x' = c_tags x /\ c_value x' = c_value x.
Proof.
  revert x. induction es as [|[[op c] ctx] es IH]; intros x.
  { exists x. split; [done|]. split; [by left|]. split; [lia|done]. }
  cbn [each]. unfold spec_any at 1. cbn [fst snd]. destruct (IH (with_coin op c ctx h x)) as (x' & E & K & L & T & V).
  destruct (with_coin_same op c ctx h x) as [T1 V1]. exists x'. split; [done|]. split; [|split; [|by rewrite T, V]].
  - intros k Hk. destruct (K k Hk) as [Hk'|Hk']; [|right; by right]. rewrite with_coin_known in Hk'. case_decide; [by left|].
    apply elem_of_app in Hk' as [?|Hs%list_elem_of_singleton]; [by left|]. subst. right. left.
  - cbn [length]. etrans; [exact L|]. unfold with_coin. case_decide; simpl; [lia|]. rewrite length_app. simpl. lia.
Qed.

Lemma spec_plan_ok h pl x :
  NoDup (plan_tags pl) -> (forall t, t ∈ plan_tags pl -> c_tags x !! t = None) ->
  NoDup (keys (plan_new pl)) -> (forall k, k ∈ keys (plan_new pl) -> k ∉ known x) ->
  0 <= c_value x - plan_value pl <= i128_max ->
  exists x', spec_plan h pl x = Some x' /\ c_value x' = c_value x - plan_value pl
    /\ (forall t, is_Some (c_tags x' !! t) <-> t ∈ plan_tags pl \/ is_Some (c_tags x !! t))
    /\ (forall k, k ∈ known x' -> k ∈ known x \/ k ∈ keys (plan_new pl) \/ k ∈ keys (plan_any pl))
    /\ (length (c_coins x') <= length (c_coins x) + length (plan_new pl) + length (plan_any pl))%nat.
Proof.
  intros N U N' U' V. unfold spec_plan.
  destruct (each_tags h (plan_tags pl) x N U) as (x1 & E1 & C1 & V1 & T1). rewrite E1. cbn [mbind option_bind].
  assert (K1 : known x1 = known x) by (unfold known; by rewrite C1).
  destruct (each_new h (plan_new pl) x1 N') as (x2 & E2 & K2 & T2 & V2); [by rewrite K1|]. rewrite E2. cbn [mbind option_bind].
  destruct (each_any h (plan_any pl) x2) as (x3 & E3 & K3 & L3 & T3 & V3). rewrite E3. cbn [mbind option_bind].
  unfold spec_value. rewrite V3, V2, V1. rewrite decide_True by done. eexists. split; [done|]. cbn [c_value c_tags known c_coins].
  split; [done|]. split; [|split].
  - intros t. by rewrite T3, T2, T1.
  - intros k Hk. destruct (K3 k Hk) as [Hk'|Hk']; [|right; by right]. rewrite K2, K1 in Hk'.
    apply elem_of_app in Hk' as [?|?]; [by left|right; by left].
  - assert (length (c_coins x2) = length (c_coins x) + length (plan_new pl))%nat; [|lia].
    pose proof (f_equal length K2) as Hl. unfold known, keys in Hl. rewrite length_app, !length_map, C1 in Hl. done.
Qed.

(** ** What the block gate establishes *)

Lemma map_err_ok {E E' A} (f : E -> E') (r : result E A) a : map_err f r = Ok a <-> r = Ok a.
Proof. destruct r; simpl; [|done]. split; by intros [= ->]. Qed.

Lemma check_ok {E} (b : bool) (e : E) u : check b e = Ok u <-> b = true.
Proof. destruct u. by destruct b. Qed.

Section Verify.
Context `{Blake3} `{!Borsh MwKernel} `{!Borsh SparkCoinEntry} `{!Borsh NoteCommitmentEntry} `{!Borsh SparkPoolCoin}.
Context {BT : Type} `{BridgeTreeLaws BT} `{EmptyRoot}.
Context {Coin Tx : Type} `{LibsparkLaws Coin Tx}.
Context {P : Type} `{Ristretto P} (C : TxValidation.Crypto).
Context `{!Borsh SparkPayload}.

Abbreviation stores := (chain_stores (BT := BT)).

Record tx_facts (n : Ledger.NetworkType) (height : Z) (store : SparkPoolStore) (tx : Transaction) (p : SparkPayload)
    : Prop := {
  tf_gate : TxValidation.shield_bridge_enabled C n height = true
            \/ TxValidation.require_pure_shielded_shape tx = Ok tt /\ value_balance p = 0;
  tf_excl : mint p = None \/ spend p = None;
  tf_some : mint p <> None \/ spend p <> None;
  tf_bridge : verify_transparent_shielded_balance C (map pseudo_output_commitment (inputs tx))
                (map commitment (outputs tx)) (fee tx) (value_balance p) = Ok tt;
  tf_revealed : TxValidation.check_unshield_outputs_revealed C tx = Ok tt;
  tf_bare : poutputs p = [];
  tf_shield_in : value_balance p < 0 -> mint p <> None;
  tf_mint : forall m, mint p = Some m -> value_balance p < 0
              /\ exists coins, verify_mint_bundle m = Some (- value_balance p, coins)
                  /\ Forall (fun op => index_of store op = None) (mint_outpoints tx (length coins));
  tf_spend : forall sb, spend p = Some sb -> spend_vout (bundle sb) = Some 0
              /\ (value_balance p <> 0 -> spend_fee (bundle sb) = Some (value_balance p)) }.

Lemma mint_shield_in_ok m vb u : verify_mint_shield_in m vb = Ok u <->
  vb < 0 /\ exists coins, verify_mint_bundle m = Some (- vb, coins).
Proof.
  destruct u. unfold verify_mint_shield_in. destruct (Z.leb_spec 0 vb) as [Hv|Hv]; [split; [done|intros [? _]; lia]|].
  destruct (verify_mint_bundle m) as [[total coins]|]; [|split; [done|by intros (_ & ? & ?)]].
  destruct (Z.eqb_spec total (Z.abs vb)) as [->|Hne].
  - split; [|done]. intros _. split; [done|]. exists coins. do 2 f_equal. lia.
  - split; [done|]. intros (_ & ? & [= -> _]). lia.
Qed.

Lemma verify_tx_ok n height store sim tx p sim' :
  verify_tx C n height store sim tx p = Ok sim' ->
  tx_facts n height store tx p /\ sim' = sim - value_balance p /\ 0 <= sim'.
Proof.
  unfold verify_tx. rewrite !TxValidation.rbind_ok. intros ([] & Gate & E). revert E. rewrite !TxValidation.rbind_ok.
  intros ([] & Xor & E). apply check_ok in Xor. revert E. rewrite !TxValidation.rbind_ok. intros ([] & Br & E).
  apply map_err_ok in Br. revert E. rewrite !TxValidation.rbind_ok. intros ([] & Rv & E). apply map_err_ok in Rv. revert E.
  rewrite !TxValidation.rbind_ok. intros ([] & Sim & E). apply check_ok, Z.leb_le in Sim. revert E.
  rewrite !TxValidation.rbind_ok. intros ([] & Bare & E). apply check_ok, Nat.eqb_eq in Bare. revert E.
  rewrite !TxValidation.rbind_ok. intros ([] & In & E). apply check_ok in In. revert E.
  rewrite !TxValidation.rbind_ok. intros ([] & Some' & E). apply check_ok in Some'. revert E.
  rewrite !TxValidation.rbind_ok. intros ([] & Mint & E). revert E. rewrite !TxValidation.rbind_ok. intros ([] & Vout & E). revert E.
  rewrite TxValidation.rbind_ok. intros ([] & Fee & [= <-]). split; [|done]. constructor; try done.
  - destruct (TxValidation.shield_bridge_enabled C n height); [by left|]. right. apply TxValidation.rbind_ok in Gate as ([] & G1 & G2).
    apply map_err_ok in G1. by apply check_ok, Z.eqb_eq in G2.
  - destruct (mint p), (spend p); by (left + right).
  - destruct (mint p), (spend p); by (left + right).
  - by destruct (poutputs p).
  - intros Hv Hm. rewrite (proj2 (Z.ltb_lt _ _) Hv), bool_decide_eq_true_2 in In by done. done.
  - intros m Hm. rewrite Hm in Mint. apply TxValidation.rbind_ok in Mint as ([] & M1 & M2). apply map_err_ok, mint_shield_in_ok in M1 as [Hv (coins & Hc)].
    split; [done|]. exists coins. split; [done|]. rewrite Hc in M2. apply check_ok in M2. rewrite forallb_forall in M2.
    apply list.Forall_forall. intros op Hop. apply list_elem_of_In in Hop. by apply M2, bool_decide_eq_true in Hop.
  - intros sb Hsb. rewrite Hsb in Vout, Fee. destruct (spend_vout (bundle sb)) as [v|]; [|done].
    apply check_ok, Z.eqb_eq in Vout as ->. split; [done|]. intros Hv.
    rewrite (proj2 (Z.eqb_neq _ _) Hv) in Fee. cbn [negb andb] in Fee.
    destruct (mint p) eqn:Em.
    { exfalso. by rewrite Hsb, !bool_decide_eq_true_2 in Xor by eauto. }
    rewrite bool_decide_eq_true_2 in Fee by done. destruct (spend_fee (bundle sb)) as [f|]; [|done].
    by apply check_ok, Z.eqb_eq in Fee as <-.
Qed.

(** The pool never goes negative along the block. *)
Fixpoint solvent (v : Z) (vbs : list Z) : Prop :=
  match vbs with [] => True | vb :: vbs' => 0 <= v - vb /\ solvent (v - vb) vbs' end.

Definition item_of (txp : Transaction * SparkPayload) : item := (txp.2, fee txp.1).
Definition balance_of (txp : Transaction * SparkPayload) : Z := value_balance txp.2.

Lemma collect_items_ok n height store sim idx txs items :
  collect_items C n height store sim idx txs = Ok items ->
  map snd items = map item_of (v2_items txs)
  /\ Forall (fun txp => tx_facts n height store txp.1 txp.2) (v2_items txs)
  /\ solvent sim (map balance_of (v2_items txs)).
Proof.
  revert sim idx items. induction txs as [|tx txs IH]; intros sim idx items; cbn [collect_items].
  { intros [= <-]. repeat constructor. }
  unfold v2_items. cbn [omap list_omap]. fold (v2_items txs). destruct (is_shielded tx); [|apply IH].
  destruct (decode (extra tx)) as [p|] eqn:Ed; [|apply IH].
  rewrite TxValidation.rbind_ok. intros (sim' & V & E). apply map_err_ok, verify_tx_ok in V as (F & -> & Hs). apply TxValidation.rbind_ok in E as (its & E & [= <-]).
  destruct (IH _ _ _ E) as (I1 & I2 & I3). cbn [map]. rewrite I1. split; [done|]. split; [by constructor|]. done.
Qed.

(** What the verification of a spend has read off its bundle. *)
Lemma verify_spend_reads cover b f v tags : libspark_verify_spend cover b f v = Ok tags ->
  exists x w, read_bundle b = Some x /\ (MAX_SPEND_OUTPUTS <? b_output_count x) = false
    /\ write_tags (used_ltags (b_tx x)) = Some w /\ parse_tags w = Some tags.
Proof.
  unfold libspark_verify_spend, shim_verify_bundle. destruct (read_bundle b) as [x|]; [|done].
  destruct (MAX_SPEND_OUTPUTS <? b_output_count x) eqn:Eo; [done|].
  destruct (match marshal_cover_set cover with [] => _ | _ => _ end) as [[set rep']|]; [|done].
  destruct (spend_verify _); [|done]. destruct (write_tags (used_ltags (b_tx x))) as [w|] eqn:Ew; [|done].
  destruct (parse_tags w) as [l|] eqn:Ep; [|done]. intros [= ->]. eauto 6.
Qed.

(** The tags that are read off a bundle when a block is applied are those that its
    verification returns, and so are those by which the mempool tells spends apart. *)
Lemma verified_tags cover b f v tags : libspark_verify_spend cover b f v = Ok tags -> spend_tags b = Some tags.
Proof.
  intros (x & w & R & _ & W & Pw)%verify_spend_reads. unfold spend_tags, shim_spend_tags. by rewrite R, W.
Qed.

Lemma linking_tags_agree cover f v tags sb p : spend p = Some sb ->
  libspark_verify_spend cover (bundle sb) f v = Ok tags -> spend_linking_tags p = Ok tags.
Proof.
  intros Es (x & w & R & O & W & Pw)%verify_spend_reads.
  unfold spend_linking_tags, spend_ltags, shim_spend_ltags, shim_spend_read. by rewrite Es, R, O, W, Pw.
Qed.

Definition tags_of (p : SparkPayload) : option (list bytes) :=
  match spend p with Some sb => spend_tags (bundle sb) | None => Some [] end.

Lemma verified_payload_tags store (it : item) tags :
  verify_spark_payload (H := LibsparkBackend) store it.1 it.2 = Ok tags ->
  tags_of it.1 = Some tags /\ forall t, t ∈ tags -> spent_tags store !! t = None.
Proof.
  intros E. pose proof (verified_version _ _ _ E) as Hv. unfold tags_of. destruct (spend it.1) as [sb|] eqn:Es.
  - apply (verify_spend_payload store it sb tags Hv Es) in E as (_ & E & U). split; [exact (verified_tags _ _ _ _ _ E)|].
    intros t Ht. destruct (spent_tags store !! t) as [x|] eqn:Ex; [|done]. exfalso. unfold unspent in U.
    assert (existsb (fun t => bool_decide (t ∈ spent_tag_list store)) tags = true) as U'; [|congruence].
    apply existsb_exists. exists t. split; [by apply list_elem_of_In|]. apply bool_decide_eq_true. unfold spent_tag_list.
    apply list_elem_of_fmap. exists (t, x). split; [done|]. by apply elem_of_map_to_list.
  - rewrite (verify_mint_payload store it Hv Es) in E. injection E as <-. split; [done|]. by intros t ?%elem_of_nil.
Qed.

Lemma check_duplicates_ok seen (l : list (nat * bytes)) :
  check_duplicates seen l = Ok tt -> NoDup (map snd l) /\ forall t, t ∈ map snd l -> t ∉ seen.
Proof.
  revert seen. induction l as [|[i t] l IH]; intros seen; cbn [check_duplicates map snd].
  { split; [constructor|]. by intros t ?%elem_of_nil. }
  case_bool_decide as Hs; [done|]. intros E. destruct (IH _ E) as [N U]. split.
  - apply list.NoDup_cons. split; [|done]. intros Ht. apply U in Ht. set_solver.
  - intros u [->|Hu]%elem_of_cons; [done|]. apply U in Hu. set_solver.
Qed.

Lemma slots_snd (items : list (nat * item)) (bt : list (list bytes)) : length items = length bt ->
  map snd (concat (zip_with (fun (it : nat * item) tags => map (pair it.1) tags) items bt)) = concat bt.
Proof.
  revert bt. induction items as [|it items IH]; intros [|tags bt] Hl; try done. cbn [zip_with concat].
  rewrite map_app, IH by (by injection Hl). f_equal. rewrite map_map. apply map_id.
Qed.

(** Everything that a verified block satisfies. *)
Record gate_facts (n : Ledger.NetworkType) (height : Z) (s : SparkPoolStore) (txs : list Transaction)
    (bt : list (list bytes)) : Prop := {
  gf_txs : Forall (fun txp => tx_facts n height s txp.1 txp.2) (v2_items txs);
  gf_solvent : solvent (pool_value s) (map balance_of (v2_items txs));
  gf_tags : Forall2 (fun txp tags => tags_of txp.2 = Some tags /\ forall t, t ∈ tags -> spent_tags s !! t = None)
              (v2_items txs) bt;
  gf_distinct : NoDup (concat bt) }.

Lemma v2_items_length txs : (length (v2_items txs) <= length txs)%nat.
Proof.
  unfold v2_items. induction txs as [|tx txs IH]; cbn [omap list_omap]; [done|].
  destruct (if is_shielded tx then _ else _); cbn [length]; lia.
Qed.

Lemma gate_ok n (c : stores) s txs height :
  spark_pool_store c = Some s -> Z.of_nat (length txs) <= u32_max ->
  verify_block_spark_v2_at_height C n c txs height = Ok tt -> exists bt, gate_facts n height s txs bt.
Proof.
  intros Es Hl. unfold verify_block_spark_v2_at_height. rewrite Es. rewrite TxValidation.rbind_ok.
  intros (items & Ei & E). apply TxValidation.rbind_ok in E as (bt & Eb & Ed). apply map_err_ok in Eb.
  destruct (collect_items_ok _ _ _ _ _ _ _ Ei) as (Im & Fi & Si). pose proof (v2_items_length txs) as Hv.
  assert (Ll : length (map snd items) = length (v2_items txs)) by (rewrite Im; apply length_map).
  destruct (batch_sound (BS := libspark_spec) s (map snd items) bt) as [F _]; [lia| |done|].
  { rewrite Im. apply Forall_fmap, (list.Forall_impl _ _ _ Fi). intros [tx p] T. cbn. unfold admits, bundle_of.
    cbn [fst item_of snd]. destruct (spend p) as [sb|] eqn:Esp; [|done]. cbn. destruct (tf_spend _ _ _ _ _ T sb Esp) as [Hvout _].
    unfold libspark_admitted. unfold spend_vout, shim_spend_read in Hvout. destruct (read_bundle (bundle sb)) as [x|]; [|done].
    by destruct (Z.ltb_spec MAX_SPEND_OUTPUTS (b_output_count x)). }
  exists bt. constructor; try done.
  - rewrite Im in F. apply Forall2_fmap_l in F. eapply list.Forall2_impl; [exact F|]. intros [tx p] tags Ht.
    by apply verified_payload_tags in Ht.
  - apply check_duplicates_ok in Ed as [N _]. rewrite slots_snd in N; [done|]. apply Forall2_length in F.
    by rewrite length_map in F.
Qed.

(** The outpoints that a transaction takes: those of its mint, and the keys of the coins its
    spend creates. *)
Definition mint_keys (txp : Transaction * SparkPayload) : list bytes :=
  match mint txp.2 with
  | Some m => match verify_mint_bundle m with Some (_, coins) => mint_outpoints txp.1 (length coins) | None => [] end
  | None => []
  end.
Definition output_keys (txp : Transaction * SparkPayload) : list bytes := keys (spend_entries txp.2).

Lemma keys_numbered ins n l :
  keys (numbered ins n l) = map (fun i => derive_outpoint ins (wrap u32_max (Z.of_nat i))) (seq n (length l)).
Proof.
  revert n. induction l as [|c l IH]; intros n; [done|]. rewrite numbered_cons. cbn [keys map fst length seq].
  f_equal. apply IH.
Qed.

Lemma plan_verified n height store tx p tags :
  tx_facts n height store tx p -> tags_of p = Some tags ->
  exists pl, plan_of (tx, p) = Some pl /\ plan_tags pl = tags /\ plan_value pl = value_balance p
    /\ keys (plan_new pl) = mint_keys (tx, p) /\ plan_any pl = spend_entries p.
Proof.
  intros T Et. unfold plan_of. fold (tags_of p). rewrite Et. cbn [mbind option_bind]. unfold loose_entries.
  rewrite (tf_bare _ _ _ _ _ T). cbn [length mint_outpoints seq map mapM mbind option_bind].
  destruct (mapM serial_context (mint_outpoints tx 0)) as [ctxs|] eqn:Em; [|done]. cbn [mbind option_bind].
  unfold mint_entries, mint_keys. cbn [fst snd]. destruct (mint p) as [m|] eqn:Emint.
  - destruct (tf_mint _ _ _ _ _ T m Emint) as (_ & coins & Hc & _). rewrite Hc.
    destruct (serial_context_total (derive_outpoint (input_outpoints tx) 0)) as [ctx Hctx]. rewrite Hctx.
    eexists. split; [done|]. cbn [plan_tags plan_value plan_new plan_any]. split; [done|]. split; [done|]. split; [|done].
    cbn [zip zip_with numbered imap app]. rewrite keys_numbered, length_map. done.
  - eexists. split; [done|]. done.
Qed.

Lemma items_spec n height store h I bt x :
  Forall (fun txp => tx_facts n height store txp.1 txp.2) I ->
  Forall2 (fun txp tags => tags_of txp.2 = Some tags) I bt ->
  NoDup (concat bt) -> (forall t, t ∈ concat bt -> c_tags x !! t = None) ->
  NoDup (concat (map mint_keys I)) -> (forall k, k ∈ concat (map mint_keys I) -> k ∉ known x) ->
  (forall k, k ∈ concat (map mint_keys I) -> k ∉ concat (map output_keys I)) ->
  solvent (c_value x) (map balance_of I) ->
  Forall (fun txp => - 2 ^ 63 <= balance_of txp) I -> c_value x + 2 ^ 63 * Z.of_nat (length I) <= i128_max ->
  exists x', each (spec_tx h) I x = Some x' /\ c_value x' = c_value x - foldr Z.add 0 (map balance_of I)
    /\ (forall t, is_Some (c_tags x' !! t) <-> t ∈ concat bt \/ is_Some (c_tags x !! t))
    /\ (length (c_coins x') <= length (c_coins x) + length (concat (map mint_keys I)) + length (concat (map output_keys I)))%nat.
Proof.
  intros F. revert bt x. induction F as [|[tx p] I T _ IH]; intros bt x B N U NM UM D S W L.
  { apply Forall2_nil_inv_l in B as ->. exists x. cbn. split; [done|]. split; [lia|]. split; [|lia].
    intros t. rewrite elem_of_nil. tauto. }
  apply Forall2_cons_inv_l in B as (tags & bt' & Et & B & ->). cbn [fst snd concat map length foldr solvent] in *.
  destruct (plan_verified _ _ _ _ _ _ T Et) as (pl & Ep & Pt & Pv & Pn & Pa).
  apply list.NoDup_app in N as (N1 & N2 & N3). apply list.NoDup_app in NM as (M1 & M2 & M3).
  apply list.Forall_cons in W as [W1 W]. destruct S as [S1 S]. unfold balance_of in W1, S1, S at 1. cbn [snd] in W1, S1, S.
  destruct (spec_plan_ok h pl x) as (x1 & E1 & V1 & T1 & K1 & L1).
  - by rewrite Pt.
  - rewrite Pt. intros t Ht. apply U, elem_of_app. by left.
  - by rewrite Pn.
  - rewrite Pn. intros k Hk. apply UM, elem_of_app. by left.
  - rewrite Pv. lia.
  - destruct (IH bt' x1 B N3) as (x' & E & V & T' & L').
    + intros t Ht. destruct (c_tags x1 !! t) eqn:Ex; [|done]. exfalso.
      destruct (proj1 (T1 t) ltac:(eauto)) as [Ht1|[y Hy]]; [rewrite Pt in Ht1; by apply (N2 t)|].
      rewrite (U t) in Hy; [done|]. apply elem_of_app. by right.
    + done.
    + intros k Hk Hin. destruct (K1 k Hin) as [Hx|[Hn|Ha]].
      * apply (UM k); [|done]. apply elem_of_app. by right.
      * rewrite Pn in Hn. by apply (M2 k).
      * rewrite Pa in Ha. apply (D k); [apply elem_of_app; by right|]. apply elem_of_app. by left.
    + intros k Hk Hin. apply (D k); apply elem_of_app; by right.
    + rewrite V1, Pv. done.
    + done.
    + rewrite V1, Pv. lia.
    + exists x'. cbn [each]. unfold spec_tx at 1. rewrite Ep. cbn [mbind option_bind]. rewrite E1. split; [done|].
      rewrite V, V1, Pv. split; [unfold balance_of; cbn [snd]; lia|]. split.
      * intros t. rewrite T', T1, Pt, elem_of_app. tauto.
      * rewrite !length_app. rewrite <- Pn at 1. unfold output_keys at 1. cbn [snd]. rewrite <- Pa.
        unfold keys. rewrite !length_map. lia.
Qed.

(** *** A mint spends a transparent input *)

(** The order of the group. *)
Definition GROUP_ORDER : Z := 2 ^ 252 + 27742317777372353535851937790883648493.

(** Commitments without blinding are the multiples of one generator, whose order is that of
    the group. *)
Class PedersenLaws := {
  mulH : Z -> P;
  commit_opens : forall v, fits u64_max v -> decompress (TxValidation.commit0 C v) = Some (mulH v);
  mulH_identity : identity = mulH 0;
  mulH_add : forall a b, point_add (mulH a) (mulH b) = mulH (a + b);
  mulH_sub : forall a b, point_sub (mulH a) (mulH b) = mulH (a - b);
  point_add_assoc : forall a b c, point_add (point_add a b) c = point_add a (point_add b c);
  point_sub_assoc : forall a b c, point_sub (point_add a b) c = point_add a (point_sub b c);
  mulH_order : forall a b, mulH a = mulH b <-> (a - b) mod GROUP_ORDER = 0 }.

(** The values of a transaction are those of their types. *)
Record tx_typed (tx : Transaction) (p : SparkPayload) : Prop := {
  tt_fee : fits u64_max (fee tx);
  tt_outputs : Z.of_nat (length (outputs tx)) <= u32_max;
  tt_bytes : Forall (fun o => is_bytes (encrypted_amount o)) (outputs tx);
  tt_images : Forall (fun i => fits (256 ^ Z.of_nat 32 - 1) (key_image i)) (inputs tx);
  tt_inputs : Z.of_nat (length (inputs tx)) <= u32_max;
  tt_balance : - 2 ^ 63 <= value_balance p < 2 ^ 63;
  tt_coins : forall m total coins, mint p = Some m -> verify_mint_bundle m = Some (total, coins) ->
               Z.of_nat (length coins) <= u32_max }.

Context `{!PedersenLaws}.

Lemma sum_outputs_revealed (outs : list TxOutput) v :
  Forall (fun o => fits u64_max (TxValidation.declared_amount o)
                   /\ commitment o = TxValidation.commit0 C (TxValidation.declared_amount o)) outs ->
  sum_outputs (mulH v) (map commitment outs)
  = Ok (mulH (v + foldr Z.add 0 (map TxValidation.declared_amount outs))).
Proof.
  intros F. revert v. induction F as [|o outs [Ho Hc] _ IH]; intros v; cbn [map sum_outputs foldr]; [by rewrite Z.add_0_r|].
  unfold decode_point. rewrite Hc, commit_opens by done. cbn [rbind]. rewrite mulH_add, IH. do 2 f_equal. lia.
Qed.

Lemma declared_fits o : is_bytes (encrypted_amount o) -> fits u64_max (TxValidation.declared_amount o).
Proof.
  intros Hb. unfold TxValidation.declared_amount, fits. pose proof (be_value_bounds (rev (take 8 (encrypted_amount o)))) as B.
  destruct B as [B1 B2].
  { apply Forall_rev. by apply list.Forall_take. }
  split; [done|]. rewrite length_rev, length_take in B2.
  assert (256 ^ Z.of_nat (8 `min` length (encrypted_amount o)) <= 256 ^ 8) by (apply Z.pow_le_mono_r; lia).
  change (256 ^ 8) with (u64_max + 1) in *. lia.
Qed.

Lemma sum_declared_bound outs : Forall (fun o => is_bytes (encrypted_amount o)) outs ->
  0 <= foldr Z.add 0 (map TxValidation.declared_amount outs) <= u64_max * Z.of_nat (length outs).
Proof.
  induction 1 as [|o outs Ho _ IH]; cbn [map foldr length]; [lia|]. pose proof (declared_fits o Ho) as [? ?]. lia.
Qed.

Lemma mulH_exact a b : - GROUP_ORDER < a - b < GROUP_ORDER -> mulH a = mulH b -> a = b.
Proof.
  intros Hb E. apply mulH_order, Z.mod_divide in E as [q E]; [|unfold GROUP_ORDER; lia].
  assert (q = 0) as ->; [|lia]. unfold GROUP_ORDER in *. lia.
Qed.

(** Without transparent inputs, the outputs are in the clear, and the bridge is an equation
    of amounts. *)
Lemma bridge_in_the_clear n height store tx p :
  tx_facts n height store tx p -> tx_typed tx p -> inputs tx = [] ->
  fee tx + foldr Z.add 0 (map TxValidation.declared_amount (outputs tx)) = value_balance p.
Proof.
  intros T Y Hi. pose proof (tf_bridge _ _ _ _ _ T) as B.
  unfold verify_transparent_shielded_balance in B. rewrite Hi in B. cbn [map sum_inputs] in B. cbn [rbind] in B.
  assert (F : Forall (fun o => fits u64_max (TxValidation.declared_amount o)
                /\ commitment o = TxValidation.commit0 C (TxValidation.declared_amount o)) (outputs tx)).
  { pose proof (tf_revealed _ _ _ _ _ T) as R. pose proof (tt_bytes _ _ Y) as Hb. rewrite list.Forall_forall in Hb.
    unfold TxValidation.check_unshield_outputs_revealed in R. rewrite Hi in R.
    destruct (outputs tx) as [|o outs] eqn:Eo; [constructor|].
    assert (negb (TxValidation.len (@nil TxInput) =? 0) || (TxValidation.len (o :: outs) =? 0) = false) as Hn by done.
    rewrite Hn in R. rewrite TxValidation.try_each_ok in R.
    apply list.Forall_forall. intros x Hx. split; [by apply declared_fits, Hb|].
    specialize (R x Hx). apply TxValidation.seq_ok in R as [_ R]. by apply TxValidation.require_ok, Z.eqb_eq in R. }
  pose proof (tt_fee _ _ Y) as [F1 F2]. pose proof (tt_balance _ _ Y) as V. pose proof (tt_outputs _ _ Y) as O.
  rewrite mulH_identity, (sum_outputs_revealed _ 0 F) in B. cbn [rbind] in B. unfold decode_point in B.
  rewrite !commit_opens in B by (unfold fits; lia). cbn [rbind] in B.
  pose proof (sum_declared_bound _ (tt_bytes _ _ Y)) as [S1 S2].
  set (sum := foldr Z.add 0 (map TxValidation.declared_amount (outputs tx))) in *. case_bool_decide as E; [|done].
  assert (Hz : mulH 0 = mulH (sum + fee tx - value_balance p)).
  { rewrite E. destruct (Z.leb_spec 0 (value_balance p)); rewrite ?mulH_sub, ?mulH_add, ?mulH_sub; f_equal; lia. }
  apply mulH_exact in Hz; [lia|]. unfold GROUP_ORDER. lia.
Qed.

Lemma mint_has_inputs n height store tx p m :
  tx_facts n height store tx p -> tx_typed tx p -> mint p = Some m -> inputs tx <> [].
Proof.
  intros T Y Hm Hi. destruct (tf_mint _ _ _ _ _ T m Hm) as [Hv _]. pose proof (bridge_in_the_clear _ _ _ _ _ T Y Hi).
  pose proof (tt_fee _ _ Y) as [F1 F2]. pose proof (sum_declared_bound _ (tt_bytes _ _ Y)). lia.
Qed.

(** *** The outpoints of a block's mints are new *)

(** Two different strings of the list with one hash. *)
Definition clash (l : list bytes) : Prop := exists a b, a ∈ l /\ b ∈ l /\ a <> b /\ blake3 a = blake3 b.

Definition mint_preimages (txp : Transaction * SparkPayload) : list bytes :=
  match mint txp.2 with
  | Some m =>
      match verify_mint_bundle m with
      | Some (_, coins) =>
          map (fun i => outpoint_preimage (input_outpoints txp.1) (wrap u32_max (Z.of_nat i))) (seq 0 (length coins))
      | None => []
      end
  | None => []
  end.

Definition output_coins (txp : Transaction * SparkPayload) : list bytes :=
  match spend txp.2 with
  | Some sb => match spend_outputs (bundle sb) with Some (coins, _) => coins | None => [] end
  | None => []
  end.

Lemma mint_keys_hashed txp : mint_keys txp = map blake3 (mint_preimages txp).
Proof.
  unfold mint_keys, mint_preimages. destruct (mint txp.2) as [m|]; [|done].
  destruct (verify_mint_bundle m) as [[total coins]|]; [|done]. by rewrite map_map.
Qed.

Lemma output_keys_hashed txp : output_keys txp = map blake3 (output_coins txp).
Proof.
  unfold output_keys, output_coins, spend_entries. destruct (spend txp.2) as [sb|]; [|done].
  destruct (spend_outputs (bundle sb)) as [[coins ctx]|]; [|done]. unfold keys. by rewrite map_map.
Qed.

Lemma concat_hashed {A} (f g : A -> list bytes) l : (forall a, f a = map blake3 (g a)) ->
  concat (map f l) = map blake3 (concat (map g l)).
Proof. intros E. rewrite concat_map, map_map. f_equal. apply map_ext. exact E. Qed.

Lemma hashes_distinct l l' : ~ clash (l ++ l') -> NoDup l -> (forall a, a ∈ l -> a ∉ l') ->
  NoDup (map blake3 l) /\ forall k, k ∈ map blake3 l -> k ∉ map blake3 l'.
Proof.
  intros Hc N D. split.
  - apply NoDup_fmap_2_strong; [|done]. intros a b Ha Hb E. destruct (decide (a = b)) as [|Hn]; [done|].
    destruct Hc. exists a, b. rewrite !elem_of_app. auto.
  - intros k (a & -> & Ha)%list_elem_of_fmap (b & E & Hb)%list_elem_of_fmap.
    destruct (decide (a = b)) as [->|Hn]; [by apply (D b)|]. destruct Hc. exists a, b. rewrite !elem_of_app. auto.
Qed.

Lemma input_outpoints_inj tx tx' :
  Forall (fun i => fits (256 ^ Z.of_nat 32 - 1) (key_image i)) (inputs tx) ->
  Forall (fun i => fits (256 ^ Z.of_nat 32 - 1) (key_image i)) (inputs tx') ->
  input_outpoints tx ≡ₚ input_outpoints tx' -> inputs tx <> [] -> exists k, k ∈ key_images tx /\ k ∈ key_images tx'.
Proof.
  intros F F' E Hne. destruct (inputs tx) as [|i ins] eqn:Ei; [done|].
  assert (Hi : be_bytes 32 (key_image i) ∈ input_outpoints tx') by (rewrite <- E; unfold input_outpoints; rewrite Ei; left).
  apply list_elem_of_fmap in Hi as (i' & Eb & Hi'). exists (key_image i). unfold key_images. rewrite Ei. split; [left|].
  apply list_elem_of_fmap. exists i'. split; [|done]. rewrite list.Forall_forall in F'. apply list.Forall_cons in F as [F _].
  by apply (be_bytes_inj 32) in Eb; [| |apply F'].
Qed.

Lemma input_outpoints_sizes tx : Forall (fun op => Z.of_nat (length op) <= u64_max) (input_outpoints tx).
Proof. apply Forall_fmap, list.Forall_true. intros i. simpl. rewrite length_be_bytes. lia. Qed.

Lemma preimages_inj tx p tx' p' v v' : tx_typed tx p -> tx_typed tx' p' -> fits u32_max v -> fits u32_max v' ->
  outpoint_preimage (input_outpoints tx) v = outpoint_preimage (input_outpoints tx') v' ->
  input_outpoints tx ≡ₚ input_outpoints tx' /\ v = v'.
Proof.
  intros Y Y' Hv Hv'. pose proof (tt_inputs _ _ Y). pose proof (tt_inputs _ _ Y').
  apply outpoint_preimage_inj; try done; try apply input_outpoints_sizes; unfold input_outpoints; rewrite length_map; lia.
Qed.

Lemma elem_of_mint_preimages tx p a : tx_typed tx p -> a ∈ mint_preimages (tx, p) ->
  exists v, a = outpoint_preimage (input_outpoints tx) v /\ fits u32_max v /\ mint p <> None.
Proof.
  intros Y. unfold mint_preimages. cbn [fst snd]. destruct (mint p) as [m|]; [|by intros ?%elem_of_nil].
  destruct (verify_mint_bundle m) as [[total coins]|]; [|by intros ?%elem_of_nil].
  intros (i & -> & Hi)%list_elem_of_fmap. exists (wrap u32_max (Z.of_nat i)). split; [done|]. split; [|done]. apply wrap_fits. lia.
Qed.

Lemma mint_preimages_distinct tx p : tx_typed tx p -> NoDup (mint_preimages (tx, p)).
Proof.
  intros Y. unfold mint_preimages. cbn [fst snd]. destruct (mint p) as [m|] eqn:Em; [|constructor].
  destruct (verify_mint_bundle m) as [[total coins]|] eqn:Ev; [|constructor].
  pose proof (tt_coins _ _ Y _ _ _ Em Ev) as L. apply NoDup_fmap_2_strong; [|apply NoDup_seq].
  intros i j Hi%elem_of_seq Hj%elem_of_seq E. rewrite !wrap_small in E by (unfold fits; lia).
  apply (preimages_inj _ _ _ _ _ _ Y Y) in E as [_ E]; unfold fits; lia.
Qed.

Lemma preimages_distinct n height store I :
  Forall (fun txp => tx_facts n height store txp.1 txp.2) I -> Forall (fun txp => tx_typed txp.1 txp.2) I ->
  NoDup (concat (map (fun txp => key_images txp.1) I)) -> NoDup (concat (map mint_preimages I)).
Proof.
  intros F. induction F as [|[tx p] I T F IH]; intros Y N; [constructor|]. cbn [map concat fst snd] in *.
  apply list.Forall_cons in Y as [Y Ys]. cbn [fst snd] in Y. apply list.NoDup_app in N as (N1 & N2 & N3).
  apply list.NoDup_app. split; [by apply mint_preimages_distinct|]. split; [|by apply IH].
  intros a Ha (l & Hl & Ha')%elem_of_concat_list. apply list_elem_of_fmap in Hl as ([tx' p'] & -> & Hin).
  rewrite list.Forall_forall in Ys. specialize (Ys _ Hin). cbn [fst snd] in Ys.
  apply (elem_of_mint_preimages _ _ _ Y) in Ha as (v & -> & Hv & Hm).
  apply (elem_of_mint_preimages _ _ _ Ys) in Ha' as (v' & E & Hv' & _).
  apply (preimages_inj _ _ _ _ _ _ Y Ys Hv Hv') in E as [E _]. destruct (mint p) as [m|] eqn:Em; [|done].
  destruct (input_outpoints_inj tx tx') as (k & Hk & Hk'); [apply Y|apply Ys|done|by eapply mint_has_inputs|].
  apply (N2 k Hk), elem_of_concat_list. exists (key_images tx'). split; [|done]. apply list_elem_of_fmap. by exists (tx', p').
Qed.

Lemma v2_images txs : NoDup (concat (map key_images txs)) -> NoDup (concat (map (fun txp => key_images txp.1) (v2_items txs))).
Proof.
  unfold v2_items. induction txs as [|tx txs IH]; [constructor|]. cbn [map concat omap list_omap]. intros (N1 & N2 & N3)%list.NoDup_app.
  assert (Hsub : forall k, k ∈ concat (map (fun txp => key_images txp.1) (v2_items txs)) -> k ∈ concat (map key_images txs)).
  { intros k (l & Hl & Hk)%elem_of_concat_list. apply list_elem_of_fmap in Hl as ([tx' p'] & -> & Hin). cbn [fst] in *.
    unfold v2_items in Hin. apply list_elem_of_omap in Hin as (y & Hy & Ey). apply elem_of_concat_list. exists (key_images tx'). split; [|done].
    apply list_elem_of_fmap. destruct (is_shielded y); [|done]. destruct (decode (extra y)); [|done]. exists y. split; [congruence|done]. }
  destruct (if is_shielded tx then _ else _) as [[tx' p']|] eqn:E; [|by apply IH]. cbn [map concat fst].
  assert (tx' = tx) as -> by (destruct (is_shielded tx); [|done]; destruct (decode (extra tx)); congruence).
  apply list.NoDup_app. split; [done|]. split; [|by apply IH]. intros k Hk Hin. apply (N2 k Hk). by apply Hsub.
Qed.
(** ** A verified block is applied *)

Context `{!Borsh ShieldedPayload}.

(** What block validation has established besides the two gates, and what is taken of the
    hash: within the block, no two of the strings that outpoints are the hashes of collide. *)
Record admissible (txs : list Transaction) : Prop := {
  ad_count : Z.of_nat (length txs) <= u32_max;
  ad_images : NoDup (concat (map key_images txs));
  ad_typed : Forall (fun txp => tx_typed txp.1 txp.2) (v2_items txs);
  ad_v1 : Forall well_typed (omap v1_payload txs);
  ad_hash : ~ clash (concat (map mint_preimages (v2_items txs)) ++ concat (map output_coins (v2_items txs)));
  ad_forms : forall a, a ∈ concat (map mint_preimages (v2_items txs)) -> a ∉ concat (map output_coins (v2_items txs)) }.

(** The stores have room for the block. *)
Definition notes_room (txs : list Transaction) (s : ShieldedStore (BT := BT)) : Prop :=
  Z.of_nat (tree_size s + v1_outputs txs) <= 2 ^ SHIELDED_TREE_DEPTH.
Definition pool_room (txs : list Transaction) (s : SparkPoolStore) : Prop :=
  Z.of_nat (coin_count s + length (concat (map mint_preimages (v2_items txs)))
            + length (concat (map output_coins (v2_items txs)))) < u64_max
  /\ pool_value s + 2 ^ 63 * Z.of_nat (length (v2_items txs)) <= i128_max.

(** What the block takes out of the pool. *)
Definition taken (txs : list Transaction) : Z := foldr Z.add 0 (map balance_of (v2_items txs)).

Lemma balances_typed txs : admissible txs -> Forall (fun txp => - 2 ^ 63 <= balance_of txp) (v2_items txs).
Proof. intros A. apply (list.Forall_impl _ _ _ (ad_typed _ A)). intros txp Y. apply Y. Qed.

Lemma verified_spec n h j s txs bt :
  pool_rep j s -> admissible txs -> pool_room txs s -> gate_facts n h s txs bt ->
  exists x', spec_block h txs (contents s) = Some x' /\ c_value x' = pool_value s - taken txs
    /\ Z.of_nat (length (c_coins x')) < u64_max.
Proof.
  intros R A [L1 L2] G.
  destruct (hashes_distinct _ _ (ad_hash _ A)) as [N D]; [|exact (ad_forms _ A)|].
  { eapply preimages_distinct; [apply G|apply A|apply v2_images, A]. }
  rewrite <- !(concat_hashed _ _ _ mint_keys_hashed), <- (concat_hashed _ _ _ output_keys_hashed) in D.
  rewrite <- (concat_hashed _ _ _ mint_keys_hashed) in N.
  destruct (items_spec n h s h (v2_items txs) bt (contents s)) as (x' & E & V & _ & L).
  - apply G.
  - apply (list.Forall2_impl _ _ _ _ (gf_tags _ _ _ _ _ G)). naive_solver.
  - apply G.
  - intros t (tags & Htags & Ht)%elem_of_concat_list. apply list_elem_of_lookup in Htags as [i Hi].
    destruct (Forall2_lookup_r _ _ _ _ _ (gf_tags _ _ _ _ _ G) Hi) as (txp & _ & _ & U). by apply U.
  - done.
  - intros k Hk Hin. apply elem_of_concat_list in Hk as (l & Hl & Hk). apply list_elem_of_fmap in Hl as ([tx p] & -> & Hp).
    pose proof (gf_txs _ _ _ _ _ G) as T. rewrite list.Forall_forall in T. specialize (T _ Hp). cbn [fst snd] in T.
    unfold mint_keys in Hk. cbn [fst snd] in Hk. destruct (mint p) as [m|] eqn:Em; [|by apply elem_of_nil in Hk].
    destruct (tf_mint _ _ _ _ _ T m Em) as (_ & coins & Hc & U). rewrite Hc in Hk. rewrite list.Forall_forall in U.
    specialize (U _ Hk). unfold index_of in U. rewrite (pr_index _ _ R) in U. unfold known, contents in Hin. cbn [c_coins] in Hin.
    rewrite (pr_coins _ _ R) in Hin. by apply outpoint_map_fresh in U.
  - done.
  - apply G.
  - by apply balances_typed.
  - done.
  - exists x'. split; [done|]. split; [done|]. unfold coin_count in L1.
    rewrite (concat_hashed _ _ _ mint_keys_hashed), (concat_hashed _ _ _ output_keys_hashed), !length_map in L.
    cbn [contents c_coins] in L. lia.
Qed.

(** The writes of version 1. *)
Lemma v1_applies heights h J (c : stores) txs is_spent :
  inv heights h J c -> fits u64_max h -> admissible txs -> when (notes_room txs) (shielded_store c) ->
  (is_Some (shielded_store c) -> check_block_shielded_double_spends txs is_spent = Ok tt) ->
  when (fun s => forall nf, is_Some (nullifiers s !! nf) -> is_spent nf = true) (shielded_store c) ->
  exists c' ops, apply_shielded_txs txs h c = Some c' /\ ops_run h ops c c'
    /\ spark_pool_store c' = spark_pool_store c.
Proof.
  intros I Hh A Room Gate Spent. unfold apply_shielded_txs. destruct (shielded_store c) as [s|] eqn:Es.
  2: { exists c, []. split; [done|]. split; [constructor|done]. }
  pose proof (store_at_dated _ _ _ _ _ (inv_shielded _ _ _ _ I) (inv_heights _ _ _ _ I)) as D.
  destruct (inv_shielded _ _ _ _ I) as [_ Hs]. rewrite Es in Hs. destruct Hs as [R _]. cbn in Room, Spent.
  unfold notes_room, tree_size in Room. rewrite (hr_entries _ _ R), index_map_size in Room.
  destruct (apply_shielded_each h Hh is_spent ∅ txs 0 (jn J) s c (Gate ltac:(done)) R D) as (s' & ops & E & O).
  - intros nf Hnf. left. apply Spent. by rewrite (hr_nullifiers _ _ R).
  - apply A.
  - lia.
  - pose proof (ad_count _ A). lia.
  - exists (set_shielded c (Some s')), ops. rewrite (imap_ext pair (fun i tx => ((0 + i)%nat, tx))) by done. rewrite E.
    split; [done|]. split; [|done]. by replace (set_shielded c (Some s)) with c in O by (destruct c; simpl in *; by rewrite Es).
Qed.
Lemma checkpoint_entries h (s : ShieldedStore (BT := BT)) : entries (shielded_checkpoint_at_height h s) = entries s.
Proof. unfold shielded_checkpoint_at_height. by destruct (bt_checkpoint h (tree s)). Qed.
Lemma checkpoint_nullifiers h (s : ShieldedStore (BT := BT)) :
  nullifiers (shielded_checkpoint_at_height h s) = nullifiers s.
Proof. unfold shielded_checkpoint_at_height. by destruct (bt_checkpoint h (tree s)). Qed.

(** The same for a block that follows a checkpoint. *)
Lemma connect_applies heights tip J n (c : stores) s txs h :
  inv heights tip J c -> spark_pool_store c = Some s -> tip < h -> fits u64_max h ->
  admissible txs -> when (notes_room txs) (shielded_store c) -> pool_room txs s ->
  shielded_gate txs c = Ok tt -> verify_block_spark_v2_at_height C n c txs h = Ok tt ->
  exists c' s' ops, connect_shielded txs h c = Some c' /\ ops_run h ops (checkpoint_phase2_stores h c) c'
    /\ spark_pool_store c' = Some s' /\ Z.of_nat (coin_count s') < u64_max
    /\ spec_block h txs (contents s) = Some (contents s') /\ pool_value s' = pool_value s - taken txs.
Proof.
  intros I Es Ht Hh A Notes Room Gate V. destruct (gate_ok _ _ _ _ _ Es (ad_count _ A) V) as [bt G].
  destruct (inv_pool _ _ _ _ I) as [_ Hp]. rewrite Es in Hp. destruct Hp as [R _].
  destruct (verified_spec _ _ _ _ _ _ R A Room G) as (x' & E & Ev & L).
  pose proof (checkpoint_inv _ _ _ _ _ I Ht) as I1. unfold connect_shielded.
  destruct (v1_applies _ _ _ _ txs (match shielded_store c with Some s => is_nullifier_spent s | None => fun _ => false end) I1 Hh A)
    as (c2 & ops1 & E1 & O1 & P1).
  - revert Notes. cbn. destruct (shielded_store c) as [s0|]; [|done]. cbn. unfold notes_room, tree_size.
    by rewrite checkpoint_entries.
  - cbn. revert Gate. unfold shielded_gate. destruct (shielded_store c); [done|]. by intros _ ?%is_Some_None.
  - cbn. destruct (shielded_store c) as [s0|]; [|done]. cbn. intros nf.
    rewrite checkpoint_nullifiers. intros Hnf. by apply bool_decide_eq_true.
  - destruct (write_ops_inv _ _ _ _ _ _ I1 Hh O1) as (J2 & I2 & _). rewrite E1. cbn [mbind option_bind].
    assert (Es2 : spark_pool_store c2 = Some (pool_checkpoint_at_height h s)) by (rewrite P1; cbn; by rewrite Es).
    destruct (pool_block_applies _ _ _ _ _ txs x' I2 Hh Es2 E L) as (c' & s' & ops2 & E2 & O2 & Es' & Ec).
    exists c', s', (ops1 ++ ops2). split; [done|]. split; [by eapply ops_run_app|]. split; [done|].
    rewrite Ec. rewrite <- Ec in L, Ev. done.
Qed.

(** C3: A block that passed both shielded gates, and is connected above the tip of stores that
    were reached without a reorganisation below a restart, is applied without halting the
    node: its writes are store writes of a block, so that it can be disconnected again like
    any other, the pool becomes what the specification says, and its value falls by the sum
    of the block's value balances.  The key images of the block are distinct, as block
    validation ensures, no two of the strings whose hashes are its outpoints collide, and
    the stores have room for it. *)
Theorem verified_block_applies n tip (c : stores) s txs h :
  reachable tip c -> spark_pool_store c = Some s -> tip < h -> fits u64_max h ->
  admissible txs -> when (notes_room txs) (shielded_store c) -> pool_room txs s ->
  shielded_gate txs c = Ok tt -> verify_block_spark_v2_at_height C n c txs h = Ok tt ->
  exists c' s' ops, connect_shielded txs h c = Some c' /\ blocks_run tip c [(h, ops)] h c'
    /\ spark_pool_store c' = Some s' /\ spec_block h txs (contents s) = Some (contents s')
    /\ pool_value s' = pool_value s - taken txs.
Proof.
  intros Hr Es Ht Hh A Notes Room Gate V. destruct (reachable_stores _ _ Hr) as (heights & J & I).
  destruct (connect_applies _ _ _ _ _ _ _ _ I Es Ht Hh A Notes Room Gate V) as (c' & s' & ops & E & O & Es' & _ & W).
  exists c', s', ops. split; [done|]. split; [|done]. by econstructor; [..|constructor].
Qed.
(** ** Rebuilding the pool *)

(** The pool that the committed blocks determine. *)
Definition no_coins : pool_contents := mkContents [] ∅ 0.
Definition chain_step (blk : Z -> option (list Transaction)) (h : Z) (x : pool_contents) : option pool_contents :=
  match blk h with Some txs => spec_block h txs x | None => Some x end.
Definition heights_to (T : Z) : list Z := map Z.of_nat (seq 0 (S (Z.to_nat T))).
Definition pool_of_chain (blk : Z -> option (list Transaction)) (T : Z) : option pool_contents :=
  each (chain_step blk) (heights_to T) no_coins.

Definition with_pool_journal (J : chain_journal) (j : journal pool_contents) : chain_journal :=
  mkJournals (jn J) (js J) (jk J) j.

Lemma inv_with_pool tip J (c : stores) x s :
  inv [] tip J c -> pool_rep (mkJournal [] x) s -> pool_upto tip x ->
  inv [] tip (with_pool_journal J (mkJournal [] x)) (set_pool c (Some s)).
Proof. intros [F S In Is Ik Ip] R U. by constructor. Qed.

Lemma pool_upto_mono t t' x : pool_upto t x -> t <= t' -> pool_upto t' x.
Proof.
  intros [T F] L. split; [by apply (tags_upto_mono t)|]. eapply list.Forall_impl; [exact F|]. simpl. lia.
Qed.

(** The writes of a block on a pool without checkpoints. *)
Lemma writes_alone h txs x s x' : fits u64_max h -> pool_rep (mkJournal [] x) s -> pool_upto h x ->
  spec_block h txs x = Some x' -> Z.of_nat (length (c_coins x')) < u64_max ->
  exists s', each (apply_spark_tx h) (v2_items txs) s = Some s' /\ pool_rep (mkJournal [] x') s' /\ pool_upto h x'.
Proof.
  intros Hh R U E L. destruct (writes_block (BT := BT) h txs Hh (mkJournal [] x) s x' R) as (s' & ops & F & R' & O); [|done|done|].
  { by apply list.Forall_nil_2. }
  exists s'. split; [done|]. split; [done|]. specialize (O (mkStores None None None None)).
  assert (I : inv [] h (mkJournals (mkJournal [] ([], ∅)) (mkJournal [] ([], ∅)) (mkJournal [] []) (mkJournal [] x))
    (set_pool (mkStores (BT := BT) None None None None) (Some s))) by (constructor; by constructor).
  destruct (write_ops_inv _ _ _ _ _ _ I Hh O) as (J' & I' & _). destruct (inv_pool _ _ _ _ I') as [_ [R2 U2]].
  rewrite <- (rep_contents _ _ R2), (rep_contents _ _ R') in U2. done.
Qed.

Lemma rebuild_step_spec tip J (c : stores) blk h x s x' :
  inv [] tip J c -> fits u64_max h -> pool_rep (mkJournal [] x) s -> pool_upto h x ->
  chain_step blk h x = Some x' -> Z.of_nat (length (c_coins x')) < u64_max ->
  exists s', rebuild_step blk h (set_pool c (Some s)) = Some (set_pool c (Some s'))
    /\ pool_rep (mkJournal [] x') s' /\ pool_upto h x'.
Proof.
  intros I Hh R U E L. unfold chain_step in E. unfold rebuild_step. destruct (blk h) as [txs|].
  2: { injection E as <-. by exists s. }
  destruct (writes_alone _ _ _ _ _ Hh R U E L) as (s' & F & R' & U'). exists s'. split; [|done].
  unfold apply_spark_v2_txs, halting_sweep. cbn [spark_pool_store set_pool]. rewrite F. cbn [mbind option_bind].
  change (set_pool (set_pool c (Some s)) (Some s')) with (set_pool c (Some s')).
  assert (I' : inv [] (Z.max tip h) (with_pool_journal J (mkJournal [] x')) (set_pool c (Some s'))).
  { apply inv_with_pool; [apply (inv_mono _ tip); [done|lia]|done|apply (pool_upto_mono h); [done|lia]]. }
  rewrite (clean_sweep h (set_pool c (Some s')) 0); [done| |].
  - intros d Hd. by destruct (phase2_stores_of _ _ _ _ d I' Hd) as (? & ? & _).
  - by destruct (rep_guard_clean h _ s' R' U').
Qed.

Lemma chain_step_grows blk h : grows (chain_step blk h).
Proof.
  unfold grows, chain_step. intros x x'. destruct (blk h) as [txs|]; [|intros [= <-]; lia].
  apply grows_each. intros; apply grows_tx.
Qed.

Lemma rebuild_each tip J (c : stores) blk k a x s x' :
  inv [] tip J c -> Z.of_nat (a + k) <= u64_max + 1 -> pool_rep (mkJournal [] x) s -> pool_upto (Z.of_nat a - 1) x ->
  each (chain_step blk) (map Z.of_nat (seq a k)) x = Some x' -> Z.of_nat (length (c_coins x')) < u64_max ->
  exists s', each (rebuild_step blk) (map Z.of_nat (seq a k)) (set_pool c (Some s)) = Some (set_pool c (Some s'))
    /\ pool_rep (mkJournal [] x') s' /\ pool_upto (Z.of_nat (a + k) - 1) x'.
Proof.
  intros I. revert a x s. induction k as [|k IH]; intros a x s B R U E L; cbn [seq map each] in *.
  { injection E as <-. exists s. rewrite Nat.add_0_r. done. }
  destruct (chain_step blk (Z.of_nat a) x) as [x1|] eqn:E1; [|done].
  destruct (rebuild_step_spec tip J c blk (Z.of_nat a) x s x1 I) as (s1 & F1 & R1 & U1).
  - unfold fits. lia.
  - done.
  - apply (pool_upto_mono _ _ _ U). lia.
  - done.
  - pose proof (grows_each _ _ (chain_step_grows blk) _ _ E). lia.
  - destruct (IH (S a) x1 s1) as (s' & F & R' & U'); [lia|done| |done|done|].
    { apply (pool_upto_mono _ _ _ U1). lia. }
    exists s'. rewrite F1, F. split; [done|]. split; [done|]. by rewrite Nat.add_succ_r.
Qed.

(** Clearing and replaying. *)
Lemma rebuild_pool_spec tip J (c : stores) s blk T x :
  inv [] tip J c -> spark_pool_store c = Some s -> 0 <= T <= u64_max ->
  pool_of_chain blk T = Some x -> Z.of_nat (length (c_coins x)) < u64_max ->
  exists s', rebuild_spark_pool blk T c = Some (set_pool c (Some s'), true)
    /\ pool_rep (mkJournal [] x) s' /\ pool_upto T x.
Proof.
  intros I Es HT E L. destruct (inv_pool _ _ _ _ I) as [_ Hp]. rewrite Es in Hp. destruct Hp as [R _].
  destruct (pool_clear_rep _ _ R) as [Hc R0]. unfold rebuild_spark_pool. rewrite Es.
  destruct (pool_clear s) as [s0 cleared]. cbn [fst snd] in Hc, R0. subst cleared.
  destruct (rebuild_each tip J c blk (S (Z.to_nat T)) 0 no_coins s0 x I) as (s' & F & R' & U').
  - lia.
  - done.
  - split; [apply tags_upto_empty|constructor].
  - done.
  - done.
  - exists s'. rewrite F. split; [done|]. split; [done|]. apply (pool_upto_mono _ _ _ U'). lia.
Qed.

(** A node whose committed blocks are those of [blk] up to its height: it connects blocks,
    disconnects the tip while it has its checkpoint, goes on with the blocks of another
    branch, and may be stopped and started, which rebuilds the pool.  The way back of a
    refused reorganisation, which takes checkpoints without applying the blocks again, and
    a reorganisation below a restart are not steps. *)
Inductive live (n : Ledger.NetworkType) : (Z -> option (list Transaction)) -> Z -> stores -> Prop :=
| live_start blk a b k p :
    live n blk 0 (mkStores (shielded_empty <$> a) (spark_empty <$> b) (kernel_empty <$> k) (Some (pool_empty p)))
| live_block blk T c s txs c' :
    live n blk T c -> spark_pool_store c = Some s -> blk (T + 1) = Some txs -> T + 1 <= u64_max ->
    admissible txs -> when (notes_room txs) (shielded_store c) -> pool_room txs s ->
    shielded_gate txs c = Ok tt -> verify_block_spark_v2_at_height C n c txs (T + 1) = Ok tt ->
    connect_shielded txs (T + 1) c = Some c' -> live n blk (T + 1) c'
| live_rewind blk T c c' :
    live n blk T c -> 0 < T -> newest c = Some T -> rewind_phase2_stores c = Some c' -> live n blk (T - 1) c'
| live_branch blk blk' T c :
    live n blk T c -> (forall h, h <= T -> blk' h = blk h) -> live n blk' T c
| live_restart blk T c c0 c' :
    live n blk T c -> restart c = Ok c0 -> rebuild_spark_pool blk T c0 = Some (c', true) -> live n blk T c'.

(** The genesis block has no payload of version 2. *)
Definition bare_genesis (blk : Z -> option (list Transaction)) : Prop := from_option v2_items [] (blk 0) = [].

Lemma pool_of_chain_next blk T x : 0 <= T ->
  pool_of_chain blk T = Some x -> pool_of_chain blk (T + 1) = chain_step blk (T + 1) x.
Proof.
  intros HT E. unfold pool_of_chain, heights_to in *. rewrite Z2Nat.inj_add by lia.
  replace (Z.to_nat T + Z.to_nat 1)%nat with (S (Z.to_nat T)) by lia. rewrite (seq_S (S (Z.to_nat T))), map_app, each_app.
  rewrite E. cbn [map each]. replace (Z.of_nat (0 + S (Z.to_nat T))) with (T + 1) by lia.
  by destruct (chain_step blk (T + 1) x).
Qed.

Lemma pool_kept (c c0 : stores) : restart c = Ok c0 -> is_Some (spark_pool_store c) -> is_Some (spark_pool_store c0).
Proof.
  unfold restart. intros E [s Es]. rewrite Es in E. apply TxValidation.rbind_ok in E as (a & _ & E).
  apply TxValidation.rbind_ok in E as (b & _ & E). apply TxValidation.rbind_ok in E as (k & _ & E).
  apply TxValidation.rbind_ok in E as (p & Ep & [= <-]). cbn in *. destruct (reopen_pool s); [|done]. by injection Ep as <-.
Qed.

Lemma pool_of_chain_ext blk blk' T : (forall h, h <= T -> blk' h = blk h) -> 0 <= T ->
  pool_of_chain blk' T = pool_of_chain blk T.
Proof.
  intros E HT. unfold pool_of_chain. assert (G : forall hs x, (forall h, h ∈ hs -> h <= T) ->
    each (chain_step blk') hs x = each (chain_step blk) hs x).
  { induction hs as [|h hs IH]; intros x Hs; [done|]. cbn [each]. unfold chain_step at 1 3. rewrite E by (apply Hs; left).
    destruct (match blk h with Some txs => _ | None => _ end); [|done]. apply IH. intros h' Hh'. apply Hs. by right. }
  apply G. intros h (i & -> & Hi%elem_of_seq)%list_elem_of_fmap. lia.
Qed.

(** The checkpoints of the pool hold what the chain below their blocks determines. *)
Definition history (blk : Z -> option (list Transaction)) (l : list (Z * pool_contents)) : Prop :=
  Forall (fun p => 1 <= p.1 /\ pool_of_chain blk (p.1 - 1) = Some p.2 /\ Z.of_nat (length (c_coins p.2)) < u64_max) l.

Definition followed (blk : Z -> option (list Transaction)) (T : Z) (c : stores) : Prop :=
  0 <= T <= u64_max /\ exists heights J s, inv heights T J c /\ spark_pool_store c = Some s
    /\ pool_of_chain blk T = Some (contents s) /\ Z.of_nat (coin_count s) < u64_max /\ history blk (snapshots (jp J)).

Lemma followed_start blk a b k p : bare_genesis blk ->
  followed blk 0 (mkStores (shielded_empty <$> a) (spark_empty <$> b) (kernel_empty <$> k) (Some (pool_empty p))).
Proof.
  intros G. split; [lia|]. eexists _, _, _. split; [apply (initial_inv a b k (Some p))|]. split; [done|].
  split; [|split; [cbn; lia|constructor]].
  unfold bare_genesis in G. change (pool_of_chain blk 0) with (match chain_step blk 0 no_coins with Some x => Some x | None => None end).
  unfold chain_step. destruct (blk 0) as [txs|]; [|done]. cbn in G. unfold spec_block. by rewrite G.
Qed.

Lemma followed_block n blk T c s txs c' :
  followed blk T c -> spark_pool_store c = Some s -> blk (T + 1) = Some txs -> T + 1 <= u64_max ->
  admissible txs -> when (notes_room txs) (shielded_store c) -> pool_room txs s ->
  shielded_gate txs c = Ok tt -> verify_block_spark_v2_at_height C n c txs (T + 1) = Ok tt ->
  connect_shielded txs (T + 1) c = Some c' -> followed blk (T + 1) c'.
Proof.
  intros (HT & heights & J & s0 & I & Es0 & E & L & Hy) Es Hb Hh A Notes Room Gate V Ec. split; [lia|].
  rewrite Es0 in Es. injection Es as ->.
  assert (Hlt : T < T + 1) by lia. assert (Hf : fits u64_max (T + 1)) by (unfold fits; lia).
  destruct (connect_applies _ _ _ _ _ _ _ _ I Es0 Hlt Hf A Notes Room Gate V)
    as (c1 & s' & ops & E1 & O & Es' & L' & S & _).
  rewrite E1 in Ec. injection Ec as ->. destruct (block_inv _ _ _ _ _ _ _ I Hlt Hf O) as (J' & I' & Sn).
  eexists _, J', s'. split; [exact I'|]. split; [done|]. split; [|split; [done|]].
  - rewrite (pool_of_chain_next _ _ _ (proj1 HT) E). unfold chain_step. by rewrite Hb.
  - destruct Sn as (_ & _ & _ & Sn). rewrite Sn. cbn [map_journal jp journal_checkpoint snapshots].
    destruct (inv_pool _ _ _ _ I) as [_ Hp]. rewrite Es0 in Hp. destruct Hp as [R _].
    apply list.Forall_forall. intros x [Hx|Hx]%push_capped_sublist.
    + unfold history in Hy. rewrite list.Forall_forall in Hy. by apply Hy.
    + subst x. cbn [fst snd]. rewrite <- (rep_contents _ _ R). replace (T + 1 - 1) with T by lia.
      split; [lia|]. split; [done|]. done.
Qed.

Lemma followed_rewind blk T c c' :
  followed blk T c -> newest c = Some T -> rewind_phase2_stores c = Some c' -> followed blk (T - 1) c'.
Proof.
  intros (HT & heights & J & s & I & Es & E & L & Hy) Hn Er.
  destruct (rewind_inv _ _ _ _ I) as (c1 & E1 & I1). rewrite E1 in Er. injection Er as ->.
  destruct (newest_heights _ _ _ _ I) as [En|En]; rewrite Hn in En; [|done].
  destruct (pop heights) as [[rest h]|] eqn:Ep; [|done]. injection En as <-.
  destruct (inv_pool _ _ _ _ I) as [Hs _]. unfold rewound_tip in I1. rewrite Ep in I1. cbn in I1.
  assert (exists l x, pop (snapshots (jp J)) = Some (l, (T, x)) /\ snapshots (jp J) = l ++ [(T, x)]) as (l & x & Epj & El).
  { rewrite <- Hs, pop_fmap in Ep. destruct (pop (snapshots (jp J))) as [[l [h x]]|] eqn:Epj; [|done].
    injection Ep as _ ->. exists l, x. split; [done|]. by apply pop_Some in Epj. }
  unfold history in Hy. rewrite El in Hy. apply list.Forall_app in Hy as [Hl Hx]. apply list.Forall_singleton in Hx as (Hx1 & Hx2 & Hx3).
  cbn [fst snd] in Hx1, Hx2, Hx3. split; [lia|].
  assert (is_Some (spark_pool_store c')) as [s' Es'].
  { apply rewind_shape in E1. unfold shape in E1. rewrite Es in E1. destruct (spark_pool_store c'); [eauto|]. by injection E1. }
  eexists _, _, s'. split; [exact I1|]. split; [done|]. destruct (inv_pool _ _ _ _ I1) as [_ Hp]. rewrite Es' in Hp.
  destruct Hp as [R _]. cbn [map_journal jp] in R |- *. unfold journal_rewind in R |- *. rewrite Epj in R |- *.
  cbn [fst snapshots now] in R |- *. rewrite (rep_contents _ _ R). unfold coin_count. rewrite (pr_coins _ _ R). done.
Qed.

Lemma followed_restart blk T c c0 c' :
  followed blk T c -> restart c = Ok c0 -> rebuild_spark_pool blk T c0 = Some (c', true) -> followed blk T c'.
Proof.
  intros (HT & heights & J & s & I & Es & E & L & _) Er Eb. split; [done|].
  destruct (reopened_inv _ _ _ _ I) as (c1 & J1 & E1 & I1 & _). rewrite E1 in Er. injection Er as ->.
  destruct (pool_kept _ _ E1 ltac:(eauto)) as [s1 Es1].
  destruct (rebuild_pool_spec _ _ _ _ _ _ _ I1 Es1 HT E L) as (s' & E2 & R & U). rewrite E2 in Eb. injection Eb as <-.
  eexists [], _, s'. split; [by apply (inv_with_pool _ J1)|]. split; [done|]. unfold coin_count. rewrite (rep_contents _ _ R).
  split; [done|]. rewrite (pr_coins _ _ R). split; [done|constructor].
Qed.

Lemma live_height n blk T (c : stores) : live n blk T c -> 0 <= T.
Proof. induction 1; lia. Qed.

Lemma live_pool n blk T (c : stores) : bare_genesis blk -> live n blk T c -> followed blk T c.
Proof.
  intros G Hl. induction Hl as [blk a b k p|blk T c s txs c' _ IH Es Hb Hh A Notes Room Gate V Ec|blk T c c' _ IH _ Hn Er
    |blk blk' T c Hl IH Ex|blk T c c0 c' _ IH Er Eb].
  - by apply followed_start.
  - by eapply followed_block; [apply IH|..].
  - by apply (followed_rewind _ _ c); [apply IH|..].
  - assert (bare_genesis blk -> followed blk' T c) as K; [|apply K].
    + intros G'. destruct (IH G') as (HT & heights & J & s & I & Es & E & L & Hy). split; [done|]. exists heights, J, s.
      rewrite (pool_of_chain_ext _ _ _ Ex) by lia. do 4 (split; [done|]).
      pose proof (inv_heights _ _ _ _ I) as Hh. destruct (inv_pool _ _ _ _ I) as [<- _].
      unfold history in *. rewrite list.Forall_forall in Hh. rewrite list.Forall_forall in Hy. apply list.Forall_forall.
      intros x Hx. destruct (Hy x Hx) as (Hy1 & Hy2 & Hy3).
      specialize (Hh x.1 ltac:(apply list_elem_of_fmap; eauto)). cbn in Hh. rewrite (pool_of_chain_ext blk); [done|intros h Hh'; apply Ex; lia|lia].
    + unfold bare_genesis in *. by rewrite <- Ex by (by apply (live_height _ _ _ _ Hl)).
  - by apply (followed_restart _ _ c c0); [apply IH|..].
Qed.

(** C8: The pool is rebuilt exactly: when a node that has reached height [T] by connecting
    and disconnecting blocks - reorganisations within its checkpoints included, if they are
    carried through (a refused one does not put the pool back) - and by earlier restarts is
    stopped, cleanly or after any writes of later blocks that were not committed, the next
    start opens the stores and the replay of the committed blocks ends, without halting,
    with the coins, the spent tags and the value that the pool had at [T], and touches no
    other store. *)
Theorem rebuild_restores n blk T (c : stores) s bs tip' c' :
  bare_genesis blk -> live n blk T c -> spark_pool_store c = Some s -> blocks_run T c bs tip' c' ->
  exists c0 c2 s2, restart c' = Ok c0 /\ rebuild_spark_pool blk T c0 = Some (c2, true)
    /\ spark_pool_store c2 = Some s2 /\ contents s2 = contents s
    /\ (exists o, c2 = set_pool c0 o).
Proof.
  intros G Hl Es B. destruct (live_pool _ _ _ _ G Hl) as (HT & heights & J & s0 & I & Es0 & E & L & _).
  rewrite Es0 in Es. injection Es as ->. destruct (blocks_inv_any _ _ _ _ _ _ _ I B) as (h' & J' & I').
  destruct (reopened_inv _ _ _ _ I') as (c0 & J0 & E0 & I0 & _).
  assert (is_Some (spark_pool_store c')) as Hs'.
  { apply blocks_shape in B. unfold shape in B. rewrite Es0 in B. destruct (spark_pool_store c'); [eauto|]. by injection B. }
  destruct (pool_kept _ _ E0 Hs') as [s1 Es1]. destruct (rebuild_pool_spec _ _ _ _ _ _ _ I0 Es1 HT E L) as (s2 & E2 & R & U).
  exists c0, (set_pool c0 (Some s2)), s2. split; [done|]. split; [done|]. split; [done|].
  split; [apply (rep_contents _ _ R)|]. eauto.
Qed.

(** ** A reorganisation past a restart *)

(** The pool holds a coin dated at [m] or later. *)
Definition dated_from (m : Z) (s : SparkPoolStore) : Prop := exists m', max_coin_height s = Some m' /\ m <= m'.

Lemma each_keeps {A S} (Q : S -> Prop) (f : A -> S -> option S) l s s' :
  (forall a s s', Q s -> f a s = Some s' -> Q s') -> Q s -> each f l s = Some s' -> Q s'.
Proof.
  intros K. revert s. induction l as [|a l IH]; intros s Hs; cbn [each]; [by intros [= <-]|].
  destruct (f a s) as [s1|] eqn:E; [|done]. apply IH. by eapply K.
Qed.

Lemma add_coin_dated m op c ctx h s s' r : dated_from m s -> pool_add_coin op c ctx h s = Some (s', r) -> dated_from m s'.
Proof.
  intros (m' & E & L). unfold pool_add_coin. destruct (by_outpoint s !! op); [intros [= <- _]; by exists m'|].
  destruct (persist _ (pool_persistence s)); [|done]. intros [= <- _]. unfold dated_from. cbn. rewrite E.
  eexists. split; [done|]. lia.
Qed.

Lemma plan_dated m h pl s s' : dated_from m s -> do_plan h pl s = Some s' -> dated_from m s'.
Proof.
  intros D. unfold do_plan. destruct (each (do_tag h) _ s) as [s1|] eqn:E1; [|done]. cbn [mbind option_bind].
  eapply (each_keeps (dated_from m)) in E1; [|clear|exact D].
  2: { intros t s s' D. unfold do_tag, mark_tag_spent. destruct (spent_tags s !! t); [done|].
       destruct (persist _ _); [|done]. by intros [= <-]. }
  destruct (each (do_new h) _ s1) as [s2|] eqn:E2; [|done]. cbn [mbind option_bind].
  eapply (each_keeps (dated_from m)) in E2; [|clear|exact E1].
  2: { intros e s s' D. unfold do_new. destruct (pool_add_coin _ _ _ _ s) as [[s1 [r|]]|] eqn:E; [|done|done].
       intros [= <-]. by eapply add_coin_dated. }
  destruct (each (do_any h) _ s2) as [s3|] eqn:E3; [|done]. cbn [mbind option_bind].
  eapply (each_keeps (dated_from m)) in E3; [|clear|exact E2].
  2: { intros e s s' D. unfold do_any. destruct (pool_add_coin _ _ _ _ s) as [[s1 r]|] eqn:E; [|done].
       intros [= <-]. by eapply add_coin_dated. }
  unfold do_value, apply_value_balance. destruct (_ <? 0); [done|]. destruct (persist _ _); [|done]. by intros [= <-].
Qed.

Lemma dated_guard m s h : dated_from m s -> h < m -> guard s h <> [].
Proof. intros (m' & E & L) Hh. unfold guard. rewrite E, (proj2 (Z.ltb_lt _ _)) by lia. done. Qed.

Lemma connect_halts (c : stores) s m txs h :
  spark_pool_store c = Some s -> dated_from m s -> h < m -> connect_shielded txs h c = None.
Proof.
  intros Es D Hh. unfold connect_shielded.
  destruct (apply_shielded_txs txs h (checkpoint_phase2_stores h c)) as [c1|] eqn:E1; [|done]. cbn [mbind option_bind].
  assert (Es1 : spark_pool_store c1 = Some (pool_checkpoint_at_height h s)).
  { unfold apply_shielded_txs in E1. destruct (shielded_store (checkpoint_phase2_stores h c)) as [a|].
    - destruct (each _ _ a); [|done]. injection E1 as <-. cbn. by rewrite Es.
    - injection E1 as <-. cbn. by rewrite Es. }
  unfold apply_spark_v2_txs. rewrite Es1.
  destruct (each (apply_spark_tx h) (v2_items txs) _) as [s2|] eqn:E2; [|done]. cbn [mbind option_bind].
  eapply (each_keeps (dated_from m)) in E2; [|clear|exact D].
  2: { intros txp s s' D. rewrite apply_spark_tx_plan. destruct (plan_of txp) as [pl|]; [|done]. by apply plan_dated. }
  unfold halting_sweep. rewrite (guard_halts _ s2); [done|done|]. by apply (dated_guard m).
Qed.

(** C25: A reorganisation that reaches below a restart halts the node: after a start the
    stores have no checkpoints, so that disconnecting any number of blocks leaves the pool
    as it is, and connecting whatever block of the other branch at a height below the newest
    coin trips the pool's guard. *)
Theorem reorg_past_restart_halts n blk T (c c0 c1 : stores) s m txs h :
  bare_genesis blk -> live n blk T c -> restart c = Ok c0 -> rebuild_spark_pool blk T c0 = Some (c1, true) ->
  spark_pool_store c1 = Some s -> max_coin_height s = Some m -> h < m ->
  (forall k, rewind_blocks k c1 = Some c1) /\ connect_shielded txs h c1 = None.
Proof.
  intros G Hl Er Eb Es Em Hh. split; [|apply (connect_halts c1 s m); [done| |done]; exists m; split; [done|lia]].
  destruct (live_pool _ _ _ _ G Hl) as (HT & heights & J & s0 & I & Es0 & E & L & _).
  destruct (reopened_inv _ _ _ _ I) as (c0' & J1 & E1 & I1 & _). rewrite E1 in Er. injection Er as ->.
  destruct (pool_kept _ _ E1 ltac:(eauto)) as [s1 Es1].
  destruct (rebuild_pool_spec _ _ _ _ _ _ _ I1 Es1 HT E L) as (s' & E2 & R & U). rewrite E2 in Eb. injection Eb as <-.
  pose proof (inv_with_pool _ _ _ _ _ I1 R U) as I2. induction k as [|k IH]; [done|]. cbn [rewind_blocks].
  by rewrite (rewind_restarted _ _ _ I2).
Qed.

(** ** Value crosses the two sides only as proven *)

(** The transparent side pays for what crosses: the pseudo-outputs of the inputs commit to
    the outputs, the fee and what is shielded, less what is unshielded. *)
Definition bridged (tx : Transaction) (p : SparkPayload) : Prop :=
  exists i o, sum_inputs identity (map pseudo_output_commitment (inputs tx)) = Ok i
    /\ sum_outputs identity (map commitment (outputs tx)) = Ok o
    /\ i = point_add o (mulH (fee tx - value_balance p)).

(** Value that enters the pool is the total of a proven mint; value that leaves it is the fee
    that the proof of a spend is bound to. *)
Definition shields (tx : Transaction) (p : SparkPayload) : Prop :=
  exists m coins, mint p = Some m /\ spend p = None /\ verify_mint_bundle m = Some (- value_balance p, coins)
    /\ value_balance p < 0 /\ inputs tx <> [].
Definition unshields (tx : Transaction) (p : SparkPayload) : Prop :=
  exists sb, mint p = None /\ spend p = Some sb /\ 0 <= value_balance p
    /\ (value_balance p = 0 \/ spend_fee (bundle sb) = Some (value_balance p))
    /\ (inputs tx = [] ->
        fee tx + foldr Z.add 0 (map TxValidation.declared_amount (outputs tx)) = value_balance p).

Lemma bridge_equation n height store tx p : tx_facts n height store tx p -> tx_typed tx p -> bridged tx p.
Proof.
  intros T Y. pose proof (tf_bridge _ _ _ _ _ T) as B. unfold verify_transparent_shielded_balance in B.
  apply TxValidation.rbind_ok in B as (i & Ei & B). apply TxValidation.rbind_ok in B as (o & Eo & B). exists i, o.
  split; [done|]. split; [done|]. pose proof (tt_fee _ _ Y). pose proof (tt_balance _ _ Y). unfold decode_point in B.
  rewrite !commit_opens in B by (unfold fits in *; lia). cbn [rbind] in B. case_bool_decide as E; [|done]. rewrite E.
  destruct (Z.leb_spec 0 (value_balance p)); rewrite ?point_sub_assoc, ?point_add_assoc, ?mulH_sub, ?mulH_add; do 2 f_equal; lia.
Qed.

(** C7: In a block that passed the gate, every transaction with a payload of version 2
    balances across the two sides: the commitments of its transparent inputs are those of
    its outputs, its fee and what it adds to the pool, less what it takes from the pool;
    and it either shields, and then what it adds is the proven total of its mint and it has
    transparent inputs, or spends, and then it takes nothing (and the fee of its bundle
    stays in the pool) or exactly the fee its spend proof is bound to, which, when there
    are no transparent inputs, is exactly its fee and its outputs.  The pool never goes
    negative along the block. *)
Theorem veil_conserves n (c : stores) s txs h :
  spark_pool_store c = Some s -> Forall (fun txp => tx_typed txp.1 txp.2) (v2_items txs) ->
  verify_block_spark_v2_at_height C n c txs h = Ok tt ->
  Forall (fun txp => bridged txp.1 txp.2 /\ (shields txp.1 txp.2 \/ unshields txp.1 txp.2)) (v2_items txs)
  /\ solvent (pool_value s) (map balance_of (v2_items txs)).
Proof.
  intros Es Y. unfold verify_block_spark_v2_at_height. rewrite Es, TxValidation.rbind_ok. intros (items & Ei & _).
  destruct (collect_items_ok _ _ _ _ _ _ _ Ei) as (_ & F & S). split; [|done].
  apply list.Forall_forall. intros [tx p] Hp. cbn [fst snd]. rewrite list.Forall_forall in F, Y.
  specialize (F _ Hp). specialize (Y _ Hp). cbn [fst snd] in F, Y. split; [by eapply bridge_equation|].
  destruct (mint p) as [m|] eqn:Em.
  - left. destruct (tf_mint _ _ _ _ _ F m Em) as (Hv & coins & Hc & _). exists m, coins. split; [done|].
    split; [by destruct (tf_excl _ _ _ _ _ F); [congruence|]|]. split; [done|]. split; [done|]. by eapply mint_has_inputs.
  - right. destruct (tf_some _ _ _ _ _ F) as [?|Hs]; [done|]. destruct (spend p) as [sb|] eqn:Esb; [|done].
    exists sb. split; [done|]. split; [done|].
    split; [destruct (Z.ltb_spec (value_balance p) 0) as [Hv|]; [by apply (tf_shield_in _ _ _ _ _ F) in Hv|done]|].
    split; [|by eapply bridge_in_the_clear]. destruct (tf_spend _ _ _ _ _ F sb Esb) as [_ Hf].
    destruct (decide (value_balance p = 0)); [by left|right; by apply Hf].
Qed.
End Verify.
(** ** A sample *)

Module Sample.
Import Phase2Chain.Phase2Chain.Sample SparkBatch.SparkBatch.Sample.

(** The integers modulo the order of the group, with commitments in the clear. *)
Lemma order_pos : 0 < GROUP_ORDER.
Proof. unfold GROUP_ORDER. lia. Qed.

#[export] Instance toy_group : Ristretto Z := {
  decompress z := Some (z mod GROUP_ORDER);
  identity := 0;
  point_add a b := (a + b) mod GROUP_ORDER;
  point_sub a b := (a - b) mod GROUP_ORDER }.

Definition toy_crypto : TxValidation.Crypto :=
  TxValidation.mkCrypto (fun _ => true) (fun v => v) (fun _ _ => true) (fun _ _ => true) (fun _ => true) (fun _ => 2000)
    (fun _ => None) (fun _ => None) (fun _ => true) true.

#[export] Instance toy_pedersen : PedersenLaws toy_crypto.
Proof.
  refine {| mulH v := v mod GROUP_ORDER |}.
  - done.
  - symmetry. apply Z.mod_0_l. pose proof order_pos. lia.
  - intros a b. cbn. by rewrite <- Z.add_mod by (pose proof order_pos; lia).
  - intros a b. cbn. by rewrite <- Zminus_mod.
  - intros a b d. cbn. rewrite Zplus_mod_idemp_l, Zplus_mod_idemp_r. f_equal. lia.
  - intros a b d. cbn. rewrite Zminus_mod_idemp_l, Zplus_mod_idemp_r. f_equal. lia.
  - intros a b. split; intros E.
    + by rewrite Zminus_mod, E, Z.sub_diag, Z.mod_0_l by (pose proof order_pos; lia).
    + apply Z.mod_divide in E as [q E]; [|pose proof order_pos; lia]. replace a with (b + q * GROUP_ORDER) by lia.
      apply Z_mod_plus_full.
Defined.

(** Payloads as numbers. *)
Definition spend_tuple (sb : SpendBundle) := (cover_set_id sb, anchor_height sb, bundle sb).
Definition of_spend_tuple (t : Z * Z * bytes) : SpendBundle := mkSpend t.1.1 t.1.2 t.2.
Definition payload_tuple (p : SparkPayload) :=
  (pversion p, mint p, poutputs p, spend_tuple <$> spend p, value_balance p).
Definition of_payload_tuple (t : Z * option bytes * list bytes * option (Z * Z * bytes) * Z) : SparkPayload :=
  let '(v, m, o, sb, vb) := t in mkPayload v m o (of_spend_tuple <$> sb) vb.

#[export] Instance borsh_payload : Borsh SparkPayload.
Proof.
  refine {| to_vec p := [2; Zpos (countable.encode (payload_tuple p))];
    from_slice l := match l with
      | [2; Zpos q] => of_payload_tuple <$> countable.decode q | _ => None end |}.
  intros [v m o sb vb] _. cbn [fmap]. rewrite decode_encode. cbn. by destruct sb as [[]|].
Defined.

Definition in_tuple (i : ShieldedInput) := (bucket_index i, nullifier i, spend_proof i, in_range_proof i).
Definition of_in_tuple (t : Z * bytes * bytes * bytes) : ShieldedInput :=
  let '(b, n, s, r) := t in mkShieldedInput b n s r.
Definition out_tuple (o : ShieldedOutput) := (note_commitment o, value_commitment o, out_range_proof o, mint_binding o).
Definition of_out_tuple (t : bytes * bytes * bytes * bytes) : ShieldedOutput :=
  let '(n, v, r, m) := t in mkShieldedOutput n v r m.

#[export] Instance borsh_shielded : Borsh ShieldedPayload.
Proof.
  refine {| to_vec p := [1; Zpos (countable.encode (hversion p, map in_tuple (hinputs p), map out_tuple (houtputs p),
                              hvalue_balance p, balance_proof p))];
    from_slice l := match l with
      | [1; Zpos q] => (fun t => let '(v, i, o, vb, pr) := t in
                          mkShieldedPayload v (map of_in_tuple i) (map of_out_tuple o) vb pr) <$> countable.decode q
      | _ => None end |}.
  intros [v i o vb pr] _. cbn [fmap]. rewrite decode_encode. cbn. rewrite !map_map.
  f_equal. f_equal; etransitivity; [|apply map_id| |apply map_id]; apply map_ext; by intros [].
Defined.

Definition shielded_tx (ins : list TxInput) (outs : list TxOutput) (f : Z) (ext : bytes) : Transaction :=
  mkTx 2 Shielded ins outs f [] ext.

(** Fifty units are shielded, and a note of version 1 is added. *)
Definition mint_payload : SparkPayload := mkPayload 2 (Some [50; 9]) [] None (-50).
Definition note_payload : ShieldedPayload :=
  mkShieldedPayload 1 [mkShieldedInput 0 (replicate 32 4) [] []] [mkShieldedOutput (replicate 32 3) [] [] []] 0 [].
Definition sample1 : list Transaction :=
  [shielded_tx [mkInput 5 [] 0 53] [] 3 (encode mint_payload); shielded_tx [] [] 0 (to_vec note_payload)].

(** Twenty of them are unshielded: seventeen to an output and three as the fee. *)
Definition spend_payload : SparkPayload := mkPayload 2 None [] (Some (mkSpend 0 1 [0; 1; 20; 8])) 20.
Definition sample2 : list Transaction :=
  [shielded_tx [] [mkOutput 1 2 17 [17; 0; 0; 0; 0; 0; 0; 0] 0 None []] 3 (encode spend_payload)].

Definition sample_blk (h : Z) : option (list Transaction) :=
  if h =? 0 then Some [] else if h =? 1 then Some sample1 else if h =? 2 then Some sample2 else None.

Definition connected1 := default start (connect_shielded sample1 1 start).

Example sample_gates :
  shielded_gate sample1 start = Ok tt /\ verify_block_spark_v2_at_height toy_crypto Ledger.Regtest start sample1 1 = Ok tt
  /\ shielded_gate sample2 connected1 = Ok tt
  /\ verify_block_spark_v2_at_height toy_crypto Ledger.Regtest connected1 sample2 2 = Ok tt
  /\ pool_value (pool_of connected1) = 50.
Proof. vm_compute. done. Qed.
Ltac decided := apply (bool_decide_unpack _); vm_compute; exact I.

Lemma sample1_admissible : admissible sample1.
Proof.
  constructor.
  - vm_compute. discriminate.
  - decided.
  - replace (v2_items sample1) with [(shielded_tx [mkInput 5 [] 0 53] [] 3 (encode mint_payload), mint_payload)]
      by (vm_compute; reflexivity).
    apply list.Forall_singleton. constructor; [split; vm_compute; discriminate|vm_compute; discriminate|constructor| | | |].
    + apply list.Forall_singleton. split; vm_compute; discriminate.
    + vm_compute. discriminate.
    + vm_compute. split; [discriminate|reflexivity].
    + intros m total coins [= <-] E. vm_compute in E. injection E as <- <-. vm_compute. discriminate.
  - replace (omap v1_payload sample1) with [note_payload] by (vm_compute; reflexivity).
    apply list.Forall_singleton. repeat split; try discriminate; by apply list.Forall_singleton.
  - intros (a & b & _ & _ & Hn & E). by apply Hn.
  - apply list.Forall_forall. decided.
Qed.

Lemma sample2_admissible : admissible sample2.
Proof.
  constructor.
  - vm_compute. discriminate.
  - decided.
  - replace (v2_items sample2) with
      [(shielded_tx [] [mkOutput 1 2 17 [17; 0; 0; 0; 0; 0; 0; 0] 0 None []] 3 (encode spend_payload), spend_payload)]
      by (vm_compute; reflexivity).
    apply list.Forall_singleton. constructor; [split; vm_compute; discriminate|vm_compute; discriminate| |constructor| | |done].
    + decided.
    + vm_compute. discriminate.
    + vm_compute. split; [discriminate|reflexivity].
  - replace (omap v1_payload sample2) with (@nil ShieldedPayload) by (vm_compute; reflexivity). constructor.
  - intros (a & b & _ & _ & Hn & E). by apply Hn.
  - apply list.Forall_forall. decided.
Qed.

Lemma verified_block_applies_witness :
  exists c' s' ops, connect_shielded sample1 1 start = Some c' /\ blocks_run 0 start [(1, ops)] 1 c'
    /\ spark_pool_store c' = Some s' /\ spec_block 1 sample1 (contents (pool_of start)) = Some (contents s')
    /\ pool_value s' = pool_value (pool_of start) - taken sample1.
Proof.
  apply (verified_block_applies toy_crypto Ledger.Regtest 0 start (pool_of start) sample1 1 start_reachable);
    [reflexivity|lia|unfold fits; lia|apply sample1_admissible|vm_compute; discriminate
    |split; vm_compute; first [reflexivity|discriminate]|vm_compute; reflexivity|vm_compute; reflexivity].
Defined.

Lemma veil_conserves_witness :
  Forall (fun txp => bridged toy_crypto txp.1 txp.2 /\ (shields txp.1 txp.2 \/ unshields txp.1 txp.2)) (v2_items sample2)
  /\ solvent (pool_value (pool_of connected1)) (map balance_of (v2_items sample2)).
Proof.
  apply (veil_conserves toy_crypto Ledger.Regtest connected1 (pool_of connected1) sample2 2);
    [vm_compute; reflexivity|apply sample2_admissible|vm_compute; reflexivity].
Defined.

(** A first block 2 is empty and is replaced. *)
Definition other_blk (h : Z) : option (list Transaction) := if h =? 2 then Some [] else sample_blk h.
Definition connected_other := default start (connect_shielded [] 2 connected1).
Definition rewound := default start (rewind_phase2_stores connected_other).
Definition connected2 := default start (connect_shielded sample2 2 rewound).

Lemma empty_admissible : admissible [].
Proof.
  constructor; try constructor; [vm_compute; discriminate| |].
  - intros (a & b & Ha & _). by apply elem_of_nil in Ha.
  - by intros a Ha%elem_of_nil.
Qed.

Lemma sample_live1 : live toy_crypto Ledger.Regtest other_blk 1 connected1.
Proof.
  apply (live_block _ _ _ 0 start (pool_of start) sample1);
    [apply (live_start _ _ _ (Some true) (Some true) (Some true) true)|reflexivity|reflexivity|lia|apply sample1_admissible
    |vm_compute; discriminate|split; [vm_compute; reflexivity|vm_compute; discriminate]|vm_compute; reflexivity
    |vm_compute; reflexivity|vm_compute; reflexivity].
Qed.

Lemma sample_live : live toy_crypto Ledger.Regtest sample_blk 2 connected2.
Proof.
  assert (L2 : live toy_crypto Ledger.Regtest other_blk 2 connected_other).
  { apply (live_block _ _ _ 1 connected1 (pool_of connected1) [] connected_other sample_live1);
      [vm_compute; reflexivity|reflexivity|lia|apply empty_admissible
      |vm_compute; discriminate|split; [vm_compute; reflexivity|vm_compute; discriminate]|vm_compute; reflexivity
      |vm_compute; reflexivity|vm_compute; reflexivity]. }
  assert (L3 : live toy_crypto Ledger.Regtest sample_blk 1 rewound).
  { apply (live_branch _ _ other_blk); [apply (live_rewind _ _ _ 2 connected_other rewound L2);
      [lia|vm_compute; reflexivity|vm_compute; reflexivity]|].
    intros h Hh. unfold other_blk. destruct (Z.eqb_spec h 2); [lia|done]. }
  apply (live_block _ _ _ 1 rewound (pool_of rewound) sample2 connected2 L3);
    [vm_compute; reflexivity|reflexivity|lia|apply sample2_admissible
    |vm_compute; discriminate|split; [vm_compute; reflexivity|vm_compute; discriminate]|vm_compute; reflexivity
    |vm_compute; reflexivity|vm_compute; reflexivity].
Qed.

Lemma sample_genesis : bare_genesis sample_blk.
Proof. reflexivity. Qed.

(** The node stops in the middle of a block that is not committed. *)
Definition torn : list store_op := [PoolMarkTag (replicate 34 6) 3; PoolAddCoin [3] [1] [1] 3].
Definition crashed := default start (run_ops torn (checkpoint_phase2_stores 3 connected2)).

Lemma rebuild_restores_witness :
  contents (pool_of crashed) <> contents (pool_of connected2)
  /\ exists c0 c2 s2, restart crashed = Ok c0 /\ rebuild_spark_pool sample_blk 2 c0 = Some (c2, true)
       /\ spark_pool_store c2 = Some s2 /\ contents s2 = contents (pool_of connected2)
       /\ (exists o, c2 = set_pool c0 o).
Proof.
  split; [vm_compute; discriminate|].
  apply (rebuild_restores toy_crypto Ledger.Regtest sample_blk 2 connected2 (pool_of connected2) [(3, torn)] 3 crashed
           sample_genesis sample_live); [vm_compute; reflexivity|].
  apply (blocks_cons _ _ _ _ crashed); [lia|unfold fits; lia| |constructor].
  apply ops_run_exec; [ops_checked|vm_compute; reflexivity].
Defined.

Definition reopened := match restart connected2 with Ok c => c | Err _ => start end.
Definition rebuilt := from_option fst start (rebuild_spark_pool sample_blk 2 reopened).

Lemma reorg_past_restart_halts_witness :
  (forall k, rewind_blocks k rebuilt = Some rebuilt) /\ connect_shielded sample1 1 rebuilt = None.
Proof.
  apply (reorg_past_restart_halts toy_crypto Ledger.Regtest sample_blk 2 connected2 reopened rebuilt (pool_of rebuilt) 2
           sample1 1 sample_genesis sample_live); vm_compute; reflexivity.
Defined.
End Sample.
End SparkChain.
